(* ===== verification/_CoqProject ===== *)
-Q . S2P
Prelude.v
Paging.v
Memory.v
Frame.v
Bump.v
Iova.v
Context.v
Lifecycle.v
Scheduling.v
SchedulerProperties.v
Preemption.v
ServiceCalculus.v
CalibratorFacts.v
ServiceFacts.v
ServiceProperties.v
RingAuthority.v
RingFacts.v
RingRuns.v
RingProperties.v
Bytes.v
Acpi.v
AcpiFacts.v
XhciDma.v
XhciDmaFacts.v
XhciDmaBuild.v
XhciDmaStages.v
XhciDmaProperties.v
VtdScope.v
AcpiProperties.v
XhciRing.v
XhciRingFacts.v
XhciRingRuns.v
XhciRingQueue.v
XhciRingProperties.v
Slpt.v
SlptCalls.v
SlptTree.v
SlptLedger.v
SlptPath.v
SlptOps.v
SlptRuns.v
VtdMemory.v
VtdTables.v
SlptProperties.v
VtdProperties.v
VtdEngine.v
VtdEngineFacts.v
VtdEngineProperties.v
Iommu.v
IommuFacts.v
IommuOps.v
IommuProperties.v
VtdBackend.v
VtdBackendFacts.v
VtdBackendOps.v
VtdBackendSpans.v
VtdBackendDomain.v
VtdBackendRuns.v
VtdBackendProperties.v
Mmio.v
MmioFacts.v
MmioOps.v
MmioProperties.v
VtdWindow.v
IommuStack.v
IommuStackProperties.v
