(* ===== verification/Prelude.v ===== *)
(** * A verification of Sisyphus-OS: memory, DMA isolation, processes, privilege

    Sisyphus-OS is a kernel (boulder) with a memory library (abyss) and a runtime
    library (slope), in Rust.  This development models the parts that decide who
    owns what: physical frames, device addresses and translations, processes,
    privilege domains, and the storage shared with a USB controller.  Paths below
    are relative to [src/].

    ** Parts and files

    - [Prelude]: results, the monad [M] of fallible calls on a state, machine
      integers, the weakest precondition [wp] with its tactics, shared lemmas.
    - [Paging], [Memory], [Frame], [Bump]: [core/abyss/src] ([paging.rs];
      [memory.rs] and [reservation.rs]; [frame.rs]; [allocator.rs]) and the pool
      [kernel/boulder/src/memory/frame_pool.rs].  All owners of frames draw from
      [Frame].
    - [Iova]: [hw/iova.rs], the ledger of device address ranges.
    - [Iommu], [IommuFacts], [IommuOps], [IommuProperties]: [hw/iommu.rs], the
      owner of a device's remapping domain, over [Iova] and the trait of its
      remapping backend.
    - [Slpt], [SlptTree], [SlptLedger], [SlptPath], [SlptOps], [SlptRuns],
      [SlptProperties]: [hw/vtd_slpt.rs], the second-level page tables of a
      remapping domain.  [Slpt] holds the definitions; its traits for table
      memory and invalidation are classes, with their documented laws in
      [SlptLedger].  [SlptTree] states the walk of the hardware.
    - [SlptCalls]: which part of its state a call of the page tables can touch.
    - [VtdMemory], [VtdTables], [VtdProperties]: [hw/vtd_memory.rs] over the pool
      of [Frame], which discharges the memory laws, and the root and context
      entries of [hw/vtd.rs].
    - [Acpi], [AcpiFacts]: [boot/acpi.rs], the firmware tables that name the
      remapping units and the interrupt controllers.
    - [VtdScope], [AcpiProperties]: the first part of [hw/vtd_backend.rs], which
      chooses the unit and the isolation policy of a requester.
    - [VtdEngine], [VtdEngineFacts], [VtdEngineProperties]: the remapping engine
      of [hw/vtd.rs], its state machine over the trait of its registers.
    - [VtdBackend], [VtdBackendFacts], [VtdBackendOps], [VtdBackendSpans],
      [VtdBackendDomain], [VtdBackendRuns], [VtdBackendProperties]: the backend
      of [hw/vtd_backend.rs], which joins an engine, the page tables and the root
      and context table of one requester.  Its engine is the invalidator of
      [Slpt].
    - [Mmio], [MmioFacts], [MmioOps], [MmioProperties]: [mmio.rs], the mapper of
      device memory over its page table, and the typed windows of drivers.
    - [VtdWindow]: the register window of a remapping unit ([hw/vtd.rs]) and its
      64-bit accesses, each made of 32-bit ones.
    - [IommuStack], [IommuStackProperties]: [Iommu] with that backend.
    - [Context], [Lifecycle], [Scheduling], [SchedulerProperties], [Preemption]:
      [process/context.rs], [process/lifecycle.rs], [process/preemption.rs].
    - [RingAuthority], [RingFacts], [RingRuns], [RingProperties]:
      [ring_authority.rs], privilege domains and per-CPU transitions.
    - [ServiceCalculus], [CalibratorFacts], [ServiceFacts], [ServiceProperties]:
      [libraries/slope/src/service_calculus.rs], admission control.
    - [Bytes], [XhciDma], [XhciDmaFacts], [XhciDmaBuild], [XhciDmaStages],
      [XhciDmaProperties]: [drivers/xhci_dma.rs], DMA regions made of pool frames.
    - [XhciRing], [XhciRingFacts], [XhciRingRuns], [XhciRingQueue],
      [XhciRingProperties]: [drivers/xhci_ring.rs], command and event rings over
      the trait [XhciRingStorage].

    ** How code corresponds to definitions

    A struct is a [Record], an enum an [Inductive], a method a definition of the
    same name in a [Module] named after its type.  A method on [&mut self] is a
    term of [M]: it ends with a value, with an error and the writes made so far,
    or in [Panic] (index out of range, overflow of unchecked arithmetic, [unwrap]
    of nothing, fuel used up).  Integers are [Z] with their width written out.
    Code under a lock is one transition, and so are the calls of [Lifecycle] that
    read the current execution before they take the lock and publish the next one
    after it (assuming that nothing else runs on the one processor in between); the lock-free code of [Bump] and
    [Preemption] has one transition per atomic access, in any interleaving.
    Parts of a long function that have a definition of their own are composed in
    the order of the source.

    ** What the theorems show

    - Frames: clients of the pool that release only what they hold never share a
      frame; contiguous search is complete; concurrent heap blocks are disjoint.
    - Device addresses: leases are disjoint, placed lowest first, and their
      handles are never reused.
    - IOMMU domains: for any backend, the translations it has acknowledged are
      those the domain shows for its handles, they never share a byte, failed
      maps change nothing, and a domain is released only when empty.
    - The remapping stack: whatever the device reaches through tables and caches
      is a page that a handle of the domain shows, or one of a quarantined batch;
      without quarantine it is exactly the shown pages, with the granted access;
      after a successful release the unit no longer translates, and nothing is left
      in tables and caches.  A page is reached when the unit, while it translates,
      would take the device there; a unit that is off confines nothing.  Below that,
      for the backend alone: mapping, unmapping, release and construction decided
      on every branch, failures of registers and memory included.
    - The engine: each call takes the one allowed transition and leaves both
      caches empty, or rolls back, or poisons; a poisoned engine is final.
    - Device memory: addresses of the device window translate exactly to the
      mappings in force, which share no page; handles die with their mapping; an
      access through a window is refused or reaches its device at the offset; a
      64-bit register of a remapping unit is never read half changed.
    - Firmware tables: on any bytes the readers return, and what they accept is
      well formed; routing gives the one unit responsible for a requester; the
      scope chosen for a requester fits its policy.
    - Page tables: over every run, with any failures of memory and invalidation,
      the hardware walk shows exactly the live mappings; a completed unmap leaves
      no path to the page, cached translations included; maps are atomic; tables
      are reclaimed; handles die; no call panics; over the direct map every table
      is an owned frame of the pool.  A pending unmap whose leaf table was released
      by another mapping stays pending for ever; [VtdProperties] has a run that
      gets there.
    - Processes: one running process, exact and revocable return authorities, no
      starvation under yields, preemption tickets delivered once.
    - Privilege: running domains are isolated, hardware grants exclusive, leases
      spent once.
    - Admission: arrival envelope, exact decisions, the guard as an order
      statistic, detection of a changed certificate field.
    - USB: an arena is built whole or not at all, accesses are confined, a block
      is never seen half written, the command ring is a queue for a
      controller that completes only what it has fetched.

    ** Fuel

    Running out of fuel is [Panic], and the theorems exclude it.
    [find_contiguous_loop] has one turn more than there are frames, since every
    turn moves the candidate forward.  [first_fit_loop] has one turn more than
    there are blockers, since every turn passes one.  [reclaim_loop] has
    [MAXIMUM_LEVELS] turns, since every turn but the last releases one table of a
    path.  The readers of [Acpi] have one turn more than the table has bytes,
    since every entry takes at least one; [chunks_exact], which has no error
    to report, has as many turns as the list is long and takes at least one
    element in each.  The engine's waits run for the poll limit of the source.

    ** Assumptions

    One processor is online, as in the source: the mapper of device memory
    invalidates the buffered translations of the calling processor only.  Its page
    table starts as zeroes.
    Interleavings are sequentially consistent: memory orderings are read as the
    ordering they request and not modelled further.  Table memory, invalidation
    and ring storage are assumed to keep the contract their traits document; each
    contract has an instance.  Of a remapping unit it is assumed that register
    accesses fill no cache, that a completed global purge finds the cache empty,
    that the status register tells whether it translates, and that once off it stays
    off until it is told otherwise ([VtdUnitLaws], with the instance
    [RegisterUnit]); the answers to accesses and the statuses read are otherwise
    arbitrary.  Of the USB controller the queue theorem assumes, by name, that it
    completes a command only after fetching it and does not write the command ring.
    Clients of the frame pool release only aligned runs of frames they hold.  The unit fills its caches and
    other owners use the frame pool between calls of the backend, not within
    one.  [IommuProperties] assumes nothing of the backend but that its calls
    return; [IommuStack] has the VT-d backend there.  The bytes of firmware
    tables are arbitrary, with the caller's mapping of them as a parameter.
    [usize] has 64 bits.

    ** Not modelled

    - Inline assembly, control registers, port and register accesses
      ([arch/x86_64.rs], [interrupts], [serial.rs]): their effect is the hardware's.
    - Boot information ([boot/multiboot2.rs]), user page tables through the
      direct map ([process/x86_64.rs]) and foreign-driver shims ([shim]): a model
      needs that memory as a parameter.
    - PCI ([hw/pci.rs]), xHCI takeover, ports and runtime, the Hermes driver, the
      loaders in [module], [mirage], the aether, blacklab and kairos crates and
      the driver ABI: within reach of the same methods, not translated yet.
    - Modules that compute in floating point (parts of [memory], [scheduler],
      [ipc] and [fs]).
    - The boot sequence of [main.rs], the system-call dispatcher, user programs
      and tools. *)
From Stdlib Require Export ZArith Lia.
From stdpp Require Export prelude list_numbers gmap.
#[global] Open Scope Z_scope.

(** ** Results and the operation monad *)

(** Rust's [Result<A, E>]. *)
Inductive result (A E : Type) : Type :=
| Ok (a : A)
| Err (e : E).
Arguments Ok {A E} a.
Arguments Err {A E} e.

(** How a call that borrows a state mutably ends: it returns a value, it
    returns early with an error (keeping every write made before), or the
    thread panics: an index out of range, an overflow of unchecked arithmetic,
    a division by zero, or a loop that used up its fuel. *)
Inductive outcome (S E A : Type) : Type :=
| Done (a : A) (s : S)
| Fail (e : E) (s : S)
| Panic.
Arguments Done {S E A} a s.
Arguments Fail {S E A} e s.
Arguments Panic {S E A}.

Definition M (S E A : Type) : Type := S → outcome S E A.

#[export] Instance M_ret {S E} : MRet (M S E) := λ A a s, Done a s.

(** Sequencing; the error branch is Rust's [?]. *)
#[export] Instance M_bind {S E} : MBind (M S E) := λ A B k m s,
  match m s with
  | Done a s' => k a s'
  | Fail e s' => Fail e s'
  | Panic => Panic
  end.

Definition get {S E} : M S E S := λ s, Done s s.
Definition put {S E} (s : S) : M S E unit := λ _, Done () s.
Definition modify {S E} (f : S → S) : M S E unit := λ s, Done () (f s).
Definition gets {S E A} (f : S → A) : M S E A := λ s, Done (f s) s.
Definition throw {S E A} (e : E) : M S E A := λ s, Fail e s.
Definition panic {S E A} : M S E A := λ _, Panic.

(** [ok_or] followed by [?]. *)
Definition ok_or {S E A} (o : option A) (e : E) : M S E A :=
  match o with Some a => mret a | None => throw e end.

Definition lift {S E A} (r : result A E) : M S E A :=
  match r with Ok a => mret a | Err e => throw e end.

(** [map_err] followed by [?]. *)
Definition map_err {S E E' A} (f : E → E') (m : M S E A) : M S E' A := λ s,
  match m s with
  | Done a s' => Done a s'
  | Fail e s' => Fail (f e) s'
  | Panic => Panic
  end.

(** The result of a call as a value, for callers that inspect or drop it. *)
Definition attempt {S E E' A} (m : M S E A) : M S E' (result A E) := λ s,
  match m s with
  | Done a s' => Done (Ok a) s'
  | Fail e s' => Done (Err e) s'
  | Panic => Panic
  end.

(** A call on a field of the state. *)
Definition zoom {S T E A} (sel : S → T) (upd : T → S → S) (m : M T E A) : M S E A := λ s,
  match m (sel s) with
  | Done a t => Done a (upd t s)
  | Fail e t => Fail e (upd t s)
  | Panic => Panic
  end.

(** Indexing a slice: out of range panics. *)
Definition index {S E A} (l : list A) (i : Z) : M S E A :=
  match (if 0 <=? i then l !! Z.to_nat i else None) with
  | Some a => mret a
  | None => panic
  end.

(** [l[i] = x]: out of range panics. *)
Definition store {S E A} (l : list A) (i : Z) (x : A) : M S E (list A) :=
  if (0 <=? i) && (i <? Z.of_nat (length l)) then mret (<[Z.to_nat i := x]> l) else panic.

(** [&l[..n]]: past the end panics. *)
Definition slice_to {S E A} (l : list A) (n : Z) : M S E (list A) :=
  if (0 <=? n) && (n <=? Z.of_nat (length l)) then mret (take (Z.to_nat n) l) else panic.

(** [for x in l { f(x)? }]. *)
Fixpoint mfor {S E A} (l : list A) (f : A → M S E unit) : M S E unit :=
  match l with
  | [] => mret ()
  | x :: l' => f x ;; mfor l' f
  end.

(** The half-open range [a..b]. *)
Definition range (a b : Z) : list Z := seqZ a (b - a).

(** ** Machine integers

    A [w]-bit unsigned integer is a [Z] in [[0, 2^w)]; [usize] has 64 bits.
    Unchecked arithmetic panics on overflow as in the checked build profile:
    where a theorem shows that an operation cannot panic, the wrapping release
    build computes the same value. *)

Definition in_width (w x : Z) : Prop := 0 <= x < 2 ^ w.
Abbreviation u8 := (in_width 8).
Abbreviation u16 := (in_width 16).
Abbreviation u32 := (in_width 32).
Abbreviation u64 := (in_width 64).
Definition MAX (w : Z) : Z := 2 ^ w - 1.

Definition wrap (w x : Z) : Z := x mod 2 ^ w.
Definition checked_add (w x y : Z) : option Z := if x + y <? 2 ^ w then Some (x + y) else None.
Definition checked_mul (w x y : Z) : option Z := if x * y <? 2 ^ w then Some (x * y) else None.
Definition checked_sub (x y : Z) : option Z := if y <=? x then Some (x - y) else None.
Definition checked_div (x y : Z) : option Z := if y =? 0 then None else Some (x / y).
Definition saturating_add (w x y : Z) : Z := Z.min (x + y) (MAX w).
Definition saturating_mul (w x y : Z) : Z := Z.min (x * y) (MAX w).
Definition saturating_sub (x y : Z) : Z := Z.max 0 (x - y).
Definition wrapping_add (w x y : Z) : Z := wrap w (x + y).
Definition wrapping_mul (w x y : Z) : Z := wrap w (x * y).
Definition div_ceil (x y : Z) : Z := (x + y - 1) / y.
Definition bitnot (w x : Z) : Z := Z.lxor x (Z.ones w).
Definition is_power_of_two (x : Z) : bool := (0 <? x) && (x =? 2 ^ Z.log2 x).

(** Rounding to a power of two with a mask.  The source repeats this pair in
    each module that needs it. *)
Definition align_up (value alignment : Z) : option Z :=
  (λ rounded, Z.land rounded (bitnot 64 (alignment - 1))) <$>
    checked_add 64 value (alignment - 1).
Definition align_down (value alignment : Z) : Z := Z.land value (bitnot 64 (alignment - 1)).

Definition add {S E} (w x y : Z) : M S E Z :=
  match checked_add w x y with Some z => mret z | None => panic end.
Definition mul {S E} (w x y : Z) : M S E Z :=
  match checked_mul w x y with Some z => mret z | None => panic end.
Definition sub {S E} (x y : Z) : M S E Z :=
  match checked_sub x y with Some z => mret z | None => panic end.
Definition rem {S E} (x y : Z) : M S E Z := if y =? 0 then panic else mret (x mod y).
Definition div {S E} (x y : Z) : M S E Z := if y =? 0 then panic else mret (x / y).

(** ** Weakest preconditions

    [wp m Q R s]: running [m] from [s] does not panic, a value it returns
    satisfies [Q] with the state left behind, and so does an error with [R]. *)
Definition wp {S E A} (m : M S E A) (Q : A → S → Prop) (R : E → S → Prop) (s : S) : Prop :=
  match m s with
  | Done a s' => Q a s'
  | Fail e s' => R e s'
  | Panic => False
  end.

Create Rewrite HintDb wp.

Section wp.
Context {S E : Type}.

Lemma wp_ret {A} (a : A) Q R (s : S) : wp (E:=E) (mret a) Q R s = Q a s.
Proof. reflexivity. Qed.
Lemma wp_bind {A B} (m : M S E A) (k : A → M S E B) Q R s :
  wp (m ≫= k) Q R s = wp m (λ a s', wp (k a) Q R s') R s.
Proof. unfold wp, mbind, M_bind. by destruct (m s). Qed.
Lemma wp_get Q R (s : S) : wp (E:=E) get Q R s = Q s s.
Proof. reflexivity. Qed.
Lemma wp_put Q R (s s' : S) : wp (E:=E) (put s') Q R s = Q () s'.
Proof. reflexivity. Qed.
Lemma wp_modify f Q R (s : S) : wp (E:=E) (modify f) Q R s = Q () (f s).
Proof. reflexivity. Qed.
Lemma wp_gets {A} (f : S → A) Q R (s : S) : wp (E:=E) (gets f) Q R s = Q (f s) s.
Proof. reflexivity. Qed.
Lemma wp_throw {A} (e : E) Q R (s : S) : wp (A:=A) (throw e) Q R s = R e s.
Proof. reflexivity. Qed.

Lemma wp_mono {A} (m : M S E A) (Q Q' : A → S → Prop) (R R' : E → S → Prop) s :
  wp m Q R s → (∀ a s', Q a s' → Q' a s') → (∀ e s', R e s' → R' e s') → wp m Q' R' s.
Proof. unfold wp. destruct (m s); naive_solver. Qed.

Lemma wp_both {A} (m : M S E A) (Q Q' : A → S → Prop) (R R' : E → S → Prop) s :
  wp m Q R s → wp m Q' R' s → wp m (λ a s', Q a s' ∧ Q' a s') (λ e s', R e s' ∧ R' e s') s.
Proof. unfold wp. by destruct (m s). Qed.
Lemma wp_eq {A} (m : M S E A) Q R s o :
  m s = o →
  match o with Done a s' => Q a s' | Fail e s' => R e s' | Panic => False end →
  wp m Q R s.
Proof. by unfold wp; intros ->. Qed.

Lemma wp_Done {A} (m : M S E A) Q R s a s' : wp m Q R s → m s = Done a s' → Q a s'.
Proof. by unfold wp; intros ? Heq; rewrite Heq in *. Qed.
Lemma wp_Fail {A} (m : M S E A) Q R s e s' : wp m Q R s → m s = Fail e s' → R e s'.
Proof. by unfold wp; intros ? Heq; rewrite Heq in *. Qed.
Lemma wp_total {A} (m : M S E A) Q s :
  wp m Q (λ _ _, False) s → ∃ a s', m s = Done a s' ∧ Q a s'.
Proof. unfold wp. destruct (m s); naive_solver. Qed.
(** To compute an outcome, execute symbolically up to it. *)
Lemma wp_exact {A} (m : M S E A) a s' s :
  wp m (λ x t, x = a ∧ t = s') (λ _ _, False) s → m s = Done a s'.
Proof. unfold wp. destruct (m s); naive_solver. Qed.
Lemma wp_exact_fail {A} (m : M S E A) e s' s :
  wp m (λ _ _, False) (λ x t, x = e ∧ t = s') s → m s = Fail e s'.
Proof. unfold wp. destruct (m s); naive_solver. Qed.
Lemma wp_no_panic {A} (m : M S E A) Q R s : wp m Q R s → m s ≠ Panic.
Proof. unfold wp. by destruct (m s). Qed.

Lemma wp_attempt {E' A} (m : M S E A) Q (R : E' → S → Prop) s :
  wp (attempt m) Q R s = wp m (λ a, Q (Ok a)) (λ e, Q (Err e)) s.
Proof. unfold wp, attempt. by destruct (m s). Qed.
Lemma wp_map_err {E' A} (f : E → E') (m : M S E A) Q R s :
  wp (map_err f m) Q R s = wp m Q (λ e, R (f e)) s.
Proof. unfold wp, map_err. by destruct (m s). Qed.
Lemma wp_ok_or {A} (o : option A) (e : E) Q R (s : S) :
  wp (ok_or o e) Q R s = match o with Some a => Q a s | None => R e s end.
Proof. by destruct o. Qed.
Lemma wp_lift {A} (r : result A E) Q R (s : S) :
  wp (lift r) Q R s = match r with Ok a => Q a s | Err e => R e s end.
Proof. by destruct r. Qed.

Lemma wp_index {A} (l : list A) i x Q R (s : S) :
  0 <= i → l !! Z.to_nat i = Some x → Q x s → wp (E:=E) (index l i) Q R s.
Proof.
  intros Hi Hl HQ. unfold wp, index.
  destruct (Z.leb_spec 0 i); [|lia]. by rewrite Hl.
Qed.

Lemma wp_store {A} (l : list A) i x Q R (s : S) :
  0 <= i < Z.of_nat (length l) → Q (<[Z.to_nat i := x]> l) s → wp (E:=E) (store l i x) Q R s.
Proof.
  intros Hi HQ. unfold wp, store.
  destruct (Z.leb_spec 0 i), (Z.ltb_spec i (Z.of_nat (length l))); (lia || done).
Qed.

Lemma wp_slice_to {A} (l : list A) n Q R (s : S) :
  0 <= n <= Z.of_nat (length l) → Q (take (Z.to_nat n) l) s → wp (E:=E) (slice_to l n) Q R s.
Proof.
  intros Hn HQ. unfold wp, slice_to.
  destruct (Z.leb_spec 0 n), (Z.leb_spec n (Z.of_nat (length l))); (lia || done).
Qed.

Lemma wp_add w x y Q R (s : S) :
  x + y < 2 ^ w → Q (x + y) s → wp (E:=E) (add w x y) Q R s.
Proof. unfold wp, add, checked_add. intros. destruct (Z.ltb_spec (x + y) (2 ^ w)); [done|lia]. Qed.
Lemma wp_mul w x y Q R (s : S) :
  x * y < 2 ^ w → Q (x * y) s → wp (E:=E) (mul w x y) Q R s.
Proof. unfold wp, mul, checked_mul. intros. destruct (Z.ltb_spec (x * y) (2 ^ w)); [done|lia]. Qed.
Lemma wp_sub x y Q R (s : S) :
  y <= x → Q (x - y) s → wp (E:=E) (sub x y) Q R s.
Proof. unfold wp, sub, checked_sub. intros. destruct (Z.leb_spec y x); [done|lia]. Qed.
Lemma wp_rem x y Q R (s : S) :
  y ≠ 0 → Q (x mod y) s → wp (E:=E) (rem x y) Q R s.
Proof. unfold wp, rem. intros. destruct (Z.eqb_spec y 0); [done|done]. Qed.
Lemma wp_div x y Q R (s : S) :
  y ≠ 0 → Q (x / y) s → wp (E:=E) (div x y) Q R s.
Proof. unfold wp, div. intros. destruct (Z.eqb_spec y 0); [done|done]. Qed.

Lemma range_nil a b : b <= a → range a b = [].
Proof. intros. unfold range. by rewrite seqZ_nil by lia. Qed.
Lemma range_cons a b : a < b → range a b = a :: range (a + 1) b.
Proof.
  intros. unfold range. rewrite seqZ_cons by lia.
  f_equal. f_equal; lia.
Qed.
Lemma range_snoc a b : a <= b → range a (b + 1) = range a b ++ [b].
Proof.
  intros. unfold range. replace (b + 1 - a) with (b - a + 1) by lia.
  rewrite seqZ_app by lia. f_equal. replace (a + (b - a)) with b by lia. done.
Qed.
Lemma elem_of_range x a b : x ∈ range a b ↔ a <= x < b.
Proof. unfold range. rewrite elem_of_seqZ. lia. Qed.
Lemma NoDup_range a b : NoDup (range a b).
Proof. apply NoDup_seqZ. Qed.

(** A counted loop, by an invariant indexed with the next counter value. *)
Lemma wp_for_range (I : Z → S → Prop) a b (f : Z → M S E unit) (Q : unit → S → Prop) R s :
  I a s →
  (∀ i s', a <= i < b → I i s' → wp (f i) (λ _ s'', I (i + 1) s'') R s') →
  (∀ s', I (Z.max a b) s' → Q () s') →
  wp (mfor (range a b) f) Q R s.
Proof.
  remember (Z.to_nat (b - a)) as n eqn:Hn. revert a s Hn.
  induction n as [|n IH]; intros a s Hn HI Hstep HQ.
  - rewrite range_nil by lia. simpl. rewrite wp_ret. apply HQ.
    by replace (Z.max a b) with a by lia.
  - rewrite range_cons by lia. simpl. rewrite wp_bind.
    eapply wp_mono; [by apply Hstep; [lia|]| |done].
    intros [] s' HI'. apply IH; [lia|done| |].
    + intros i s'' Hi. apply Hstep. lia.
    + intros s''. replace (Z.max (a + 1) b) with (Z.max a b) by lia. apply HQ.
Qed.

(** The same loop downwards. *)
Lemma wp_for_down (I : Z → S → Prop) a b (f : Z → M S E unit) (Q : unit → S → Prop) R s :
  a <= b → I b s →
  (∀ i s', a <= i < b → I (i + 1) s' → wp (f i) (λ _ s'', I i s'') R s') →
  (∀ s', I a s' → Q () s') →
  wp (mfor (rev (range a b)) f) Q R s.
Proof.
  remember (Z.to_nat (b - a)) as n eqn:Hn. revert b s Hn.
  induction n as [|n IH]; intros b s Hn Hab HI Hstep HQ.
  - rewrite range_nil by lia. simpl. rewrite wp_ret. apply HQ. by replace a with b by lia.
  - replace b with (b - 1 + 1) in * by lia. rewrite range_snoc, rev_app_distr by lia. simpl. rewrite wp_bind.
    eapply wp_mono; [by apply Hstep; [lia|]| |done].
    intros [] s' HI'. apply IH; [lia|lia|done| |done]. intros i s'' Hi. apply Hstep. lia.
Qed.
End wp.

#[export] Hint Rewrite @wp_ret @wp_bind @wp_get @wp_put @wp_modify @wp_gets @wp_throw
  @wp_attempt @wp_map_err @wp_ok_or @wp_lift : wp.

(** Symbolic execution of the sequential parts of an operation. *)
Ltac wp_simpl := repeat (progress (autorewrite with wp; cbv beta iota)).
Ltac wp_if := match goal with |- context [if ?b then _ else _] => destruct b eqn:? end.

(** Boolean tests of the code as arithmetic facts. *)
Ltac bool_to_prop :=
  repeat match goal with
  | H : _ && _ = true |- _ => apply andb_true_iff in H as [? ?]
  | H : _ && _ = false |- _ => apply andb_false_iff in H
  | H : _ || _ = false |- _ => apply orb_false_iff in H as [? ?]
  | H : _ || _ = true |- _ => apply orb_true_iff in H
  | H : negb _ = true |- _ => apply negb_true_iff in H
  | H : negb _ = false |- _ => apply negb_false_iff in H
  | H : (_ <? _) = true |- _ => apply Z.ltb_lt in H
  | H : (_ <? _) = false |- _ => apply Z.ltb_ge in H
  | H : (_ <=? _) = true |- _ => apply Z.leb_le in H
  | H : (_ <=? _) = false |- _ => apply Z.leb_gt in H
  | H : (_ =? _) = true |- _ => apply Z.eqb_eq in H
  | H : (_ =? _) = false |- _ => apply Z.eqb_neq in H
  end.

(** ** Bit masks *)

Lemma testbit_out_of_width w x n : in_width w x → w <= n → Z.testbit x n = false.
Proof.
  intros [Hx Hw] Hn. destruct (Z.eq_dec x 0) as [->|]; [apply Z.bits_0|].
  apply Z.bits_above_log2; [done|]. apply Z.log2_lt_pow2; [lia|].
  eapply Z.lt_le_trans; [done|]. apply Z.pow_le_mono_r; lia.
Qed.

Lemma in_width_of_bits w x :
  0 <= w → 0 <= x → (∀ n, w <= n → Z.testbit x n = false) → in_width w x.
Proof.
  intros Hw Hx Hbits. split; [done|].
  destruct (Z.eq_dec x 0) as [->|]; [lia|].
  apply Z.log2_lt_pow2; [lia|].
  destruct (Z.lt_ge_cases (Z.log2 x) w) as [|Hge]; [done|].
  specialize (Hbits _ Hge). rewrite Z.bit_log2 in Hbits; [done|lia].
Qed.

Lemma testbit_bitnot w x n :
  0 <= n → Z.testbit (bitnot w x) n = xorb (Z.testbit x n) (Z.testbit (Z.ones w) n).
Proof. intros. unfold bitnot. by rewrite Z.lxor_spec. Qed.

Lemma testbit_ones w n : 0 <= w → 0 <= n → Z.testbit (Z.ones w) n = (n <? w).
Proof.
  intros. destruct (Z.ltb_spec n w).
  - by rewrite Z.ones_spec_low by lia.
  - by rewrite Z.ones_spec_high by lia.
Qed.

Lemma land_bitnot_pow2 w k x :
  0 <= k <= w → in_width w x → Z.land x (bitnot w (2 ^ k - 1)) = x / 2 ^ k * 2 ^ k.
Proof.
  intros Hk Hx. rewrite <- Z.shiftr_div_pow2, <- Z.shiftl_mul_pow2 by lia.
  replace (2 ^ k - 1) with (Z.ones k) by (rewrite Z.ones_equiv; unfold Z.pred; ring).
  apply Z.bits_inj'. intros n Hn.
  rewrite Z.land_spec, testbit_bitnot, !testbit_ones, Z.shiftl_spec by lia.
  destruct (Z.ltb_spec n k) as [|Hge].
  - destruct (Z.ltb_spec n w); [|lia]. rewrite (Z.testbit_neg_r _ (n - k)) by lia. apply andb_false_r.
  - rewrite Z.shiftr_spec by lia. replace (n - k + k) with n by lia.
    destruct (Z.ltb_spec n w); [apply andb_true_r|].
    rewrite (testbit_out_of_width w) by (done || lia). done.
Qed.

Lemma land_pow2_mask k x : 0 <= k → Z.land x (2 ^ k - 1) = x mod 2 ^ k.
Proof.
  intros. replace (2 ^ k - 1) with (Z.ones k) by (rewrite Z.ones_equiv; unfold Z.pred; ring).
  by apply Z.land_ones.
Qed.

Lemma is_power_of_two_spec x :
  is_power_of_two x = true ↔ ∃ k, 0 <= k ∧ x = 2 ^ k.
Proof.
  unfold is_power_of_two. split.
  - intros H. bool_to_prop. exists (Z.log2 x). split; [apply Z.log2_nonneg|done].
  - intros (k & Hk & ->). rewrite Z.log2_pow2 by done.
    apply andb_true_iff. split; [apply Z.ltb_lt, Z.pow_pos_nonneg; lia | apply Z.eqb_refl].
Qed.

Lemma div_mul_bounds x a : 0 < a → x - a < x / a * a <= x.
Proof.
  intros. pose proof (Z.div_mod x a ltac:(lia)). pose proof (Z.mod_pos_bound x a ltac:(lia)). lia.
Qed.

(** Rounding with a mask, the form every [align_up] and [align_down] uses. *)
Lemma land_align x a :
  is_power_of_two a = true → u64 a → u64 x → Z.land x (bitnot 64 (a - 1)) = x / a * a.
Proof.
  intros (k & Hk & ->)%is_power_of_two_spec [_ Ha] Hx.
  apply land_bitnot_pow2; [|done]. split; [done|].
  apply Z.lt_le_incl. by apply (Z.pow_lt_mono_r_iff 2); [lia|lia|].
Qed.

Lemma pow2_pos a : is_power_of_two a = true → 0 < a.
Proof. unfold is_power_of_two. intros. bool_to_prop. done. Qed.

Lemma align_up_spec v a r :
  is_power_of_two a = true → u64 a → u64 v → align_up v a = Some r →
  v <= r < v + a ∧ r mod a = 0 ∧ u64 r.
Proof.
  intros Ha Hwa Hv. unfold align_up, checked_add.
  destruct (Z.ltb_spec (v + (a - 1)) (2 ^ 64)); simpl; [|done].
  pose proof (pow2_pos a Ha). unfold in_width in *.
  rewrite land_align by (try done; unfold in_width; lia). intros [= <-].
  rewrite Z_mod_mult. pose proof (div_mul_bounds (v + (a - 1)) a). lia.
Qed.

(** The least multiple: nothing aligned lies below the result and above [v]. *)
Lemma align_up_least v a r x :
  is_power_of_two a = true → u64 a → u64 v → align_up v a = Some r →
  v <= x → x mod a = 0 → r <= x.
Proof.
  intros Ha Hwa Hv Hr Hx Hmod. pose proof (pow2_pos a Ha).
  destruct (align_up_spec v a r) as (? & Hrm & ?); [done..|].
  apply Z.mod_divide in Hmod as [p ->]; [|lia].
  apply Z.mod_divide in Hrm as [q ->]; [|lia].
  assert (q < p + 1) by (apply (Z.mul_lt_mono_pos_r a); lia).
  apply Z.mul_le_mono_nonneg_r; lia.
Qed.

Lemma align_up_None v a :
  align_up v a = None ↔ 2 ^ 64 <= v + (a - 1).
Proof.
  unfold align_up, checked_add.
  destruct (Z.ltb_spec (v + (a - 1)) (2 ^ 64)); simpl; split; (done || lia).
Qed.

(** When rounding up overflows, no aligned value of the width is left. *)
Lemma align_up_None_above v a x :
  is_power_of_two a = true → u64 a → align_up v a = None →
  v <= x → x mod a = 0 → 2 ^ 64 <= x.
Proof.
  intros Ha Hwa Hnone%align_up_None Hx Hmod. pose proof (pow2_pos a Ha).
  apply is_power_of_two_spec in Ha as (k & Hk & ->). destruct Hwa as [_ Hwa].
  assert (k < 64) by (apply (Z.pow_lt_mono_r_iff 2); lia).
  apply Z.mod_divide in Hmod as [q ->]; [|lia].
  replace 64 with (64 - k + k) in * by lia. rewrite Z.pow_add_r in * by lia.
  assert (2 ^ (64 - k) - 1 < q) by (apply (Z.mul_lt_mono_pos_r (2 ^ k)); lia).
  apply Z.mul_le_mono_nonneg_r; lia.
Qed.

Lemma align_down_spec v a :
  is_power_of_two a = true → u64 a → u64 v →
  v - a < align_down v a <= v ∧ align_down v a mod a = 0 ∧ u64 (align_down v a).
Proof.
  intros Ha Hwa Hv. unfold align_down. pose proof (pow2_pos a Ha).
  rewrite land_align by done. rewrite Z_mod_mult.
  unfold in_width in *. pose proof (div_mul_bounds v a). pose proof (Z.div_pos v a). nia.
Qed.

Lemma in_width_lor w x y : in_width w x → in_width w y → 0 <= w → in_width w (Z.lor x y).
Proof.
  intros Hx Hy Hw. apply in_width_of_bits; [done| |].
  - apply Z.lor_nonneg. unfold in_width in *. lia.
  - intros n Hn. by rewrite Z.lor_spec, !(testbit_out_of_width w) by done.
Qed.

Lemma in_width_land w x y : in_width w x → 0 <= y → 0 <= w → in_width w (Z.land x y).
Proof.
  intros Hx Hy Hw. apply in_width_of_bits; [done| |].
  - apply Z.land_nonneg. unfold in_width in *. lia.
  - intros n Hn. by rewrite Z.land_spec, (testbit_out_of_width w) by done.
Qed.

Lemma in_width_lxor w x y : in_width w x → in_width w y → 0 <= w → in_width w (Z.lxor x y).
Proof.
  intros Hx Hy Hw. apply in_width_of_bits; [done| |].
  - apply Z.lxor_nonneg. unfold in_width in *. lia.
  - intros n Hn. by rewrite Z.lxor_spec, !(testbit_out_of_width w) by done.
Qed.

Lemma in_width_bitnot w x : 0 <= w → in_width w x → in_width w (bitnot w x).
Proof.
  intros. apply in_width_lxor; [done| |done]. split; rewrite Z.ones_equiv; lia.
Qed.

Lemma in_width_wrap w x : 0 <= w → in_width w (wrap w x).
Proof. intros. apply Z.mod_pos_bound. lia. Qed.

Lemma in_width_pow2 w k : 0 <= k < w → in_width w (2 ^ k).
Proof. intros. split; [lia|]. apply Z.pow_lt_mono_r; lia. Qed.

Lemma wrap_small w x : in_width w x → wrap w x = x.
Proof. apply Z.mod_small. Qed.

(** Packing two fields into one word, and taking them apart. *)
Lemma lor_pack w hi lo :
  0 <= w → in_width w lo → Z.lor (Z.shiftl hi w) lo = hi * 2 ^ w + lo.
Proof.
  intros Hw Hlo. rewrite <- Z.shiftl_mul_pow2 by done.
  assert (H0 : Z.land (Z.shiftl hi w) lo = 0).
  { apply Z.bits_inj'. intros n Hn. rewrite Z.land_spec, Z.bits_0, Z.shiftl_spec by done.
    destruct (Z.lt_ge_cases n w).
    - by rewrite Z.testbit_neg_r by lia.
    - rewrite (testbit_out_of_width w lo) by done. apply andb_false_r. }
  rewrite Z.add_nocarry_lxor by done. symmetry. by apply Z.lxor_lor.
Qed.

Lemma pack_low w hi lo : 0 <= w → in_width w lo → (hi * 2 ^ w + lo) mod 2 ^ w = lo.
Proof.
  intros Hw Hlo. rewrite Z.add_comm, Z_mod_plus_full. by apply Z.mod_small.
Qed.
Lemma pack_high w hi lo : 0 <= w → in_width w lo → (hi * 2 ^ w + lo) / 2 ^ w = hi.
Proof.
  intros Hw [? ?]. rewrite Z.add_comm, Z_div_plus_full, Z.div_small by lia. done.
Qed.

(** ** Searching lists *)

(** [iter().position(p)]. *)
Fixpoint position {A} (p : A → bool) (l : list A) : option nat :=
  match l with
  | [] => None
  | x :: l' => if p x then Some 0%nat else S <$> position p l'
  end.

Section search.
Context {A : Type} (p : A → bool).
Implicit Types l : list A.

Lemma position_Some l i :
  position p l = Some i ↔
  (∃ x, l !! i = Some x ∧ p x = true) ∧ ∀ j y, (j < i)%nat → l !! j = Some y → p y = false.
Proof.
  revert i. induction l as [|x l IH]; intros i; simpl.
  - split; [done|]. by intros [(? & ? & ?) _].
  - destruct (p x) eqn:Hx.
    + split.
      * intros [= <-]. split; [by exists x|]. intros; lia.
      * intros [(y & Hy & Hp) Hmin]. destruct i as [|i]; [done|].
        specialize (Hmin 0%nat x ltac:(lia) eq_refl). congruence.
    + rewrite fmap_Some. split.
      * intros (k & [Hk Hmin]%IH & ->). split; [done|].
        intros [|j] y Hj Hy; simplify_eq/=; [done|]. apply (Hmin j); [lia|done].
      * intros [(y & Hy & Hp) Hmin]. destruct i as [|i]; simplify_eq/=; [congruence|].
        exists i. split; [|done]. apply IH. split; [eauto|].
        intros j z Hj. apply (Hmin (S j)); lia.
Qed.

Lemma position_None l : position p l = None ↔ ∀ x, x ∈ l → p x = false.
Proof.
  induction l as [|x l IH]; simpl.
  - split; [|done]. intros _ y Hy. inversion Hy.
  - destruct (p x) eqn:Hx.
    + split; [done|]. intros H. specialize (H x ltac:(left)). congruence.
    + rewrite fmap_None, IH. split.
      * intros H y [->|]%elem_of_cons; auto.
      * intros H y ?. apply H. by right.
Qed.

Lemma position_lt l i : position p l = Some i → (i < length l)%nat.
Proof. intros [(x & Hx & _) _]%position_Some. by apply lookup_lt_Some in Hx. Qed.

Lemma existsb_elem l : existsb p l = true ↔ ∃ x, x ∈ l ∧ p x = true.
Proof. rewrite existsb_exists. by setoid_rewrite list_elem_of_In. Qed.

Lemma existsb_not_elem l : existsb p l = false ↔ ∀ x, x ∈ l → p x = false.
Proof.
  rewrite <- not_true_iff_false, existsb_elem. split.
  - intros H x Hx. apply not_true_iff_false. naive_solver.
  - intros H (x & Hx & Hp). specialize (H x Hx). congruence.
Qed.

Lemma forallb_elem l : forallb p l = true ↔ ∀ x, x ∈ l → p x = true.
Proof. rewrite forallb_forall. by setoid_rewrite list_elem_of_In. Qed.
End search.

(** [iter().max_by_key(key)]: the last of the elements with the greatest key. *)
Definition max_by_key {A} (key : A → Z) (l : list A) : option A :=
  fold_left (λ best x,
    match best with
    | None => Some x
    | Some b => if key b <=? key x then Some x else Some b
    end) l None.

Lemma max_by_key_spec {A} (key : A → Z) (l : list A) :
  match max_by_key key l with
  | Some x => x ∈ l ∧ ∀ y, y ∈ l → key y <= key x
  | None => l = []
  end.
Proof.
  unfold max_by_key. induction l as [|x l IH] using rev_ind; [done|].
  rewrite fold_left_app. simpl. destruct (fold_left _ _ _) as [b|].
  - destruct IH as [Hb Hmax]. destruct (Z.leb_spec (key b) (key x)); split.
    + set_solver.
    + intros y [Hy| ->%list_elem_of_singleton]%elem_of_app; [|lia].
      specialize (Hmax y Hy). lia.
    + set_solver.
    + intros y [Hy| ->%list_elem_of_singleton]%elem_of_app; [auto|lia].
  - subst. split; [set_solver|]. intros y ->%list_elem_of_singleton. lia.
Qed.

(** ** Counting: the number of elements of a list that satisfy a test. *)
Definition count {A} (p : A → bool) (l : list A) : Z := Z.of_nat (length (List.filter p l)).

Section count.
Context {A : Type}.
Implicit Types (p q : A → bool) (l : list A).

Lemma count_nil p : count p [] = 0.
Proof. done. Qed.
Lemma count_cons p x l : count p (x :: l) = (if p x then 1 else 0) + count p l.
Proof. unfold count. simpl. destruct (p x); simpl; lia. Qed.
Lemma count_app p l k : count p (l ++ k) = count p l + count p k.
Proof. unfold count. rewrite List.filter_app, length_app. lia. Qed.
Lemma count_bounds p l : 0 <= count p l <= Z.of_nat (length l).
Proof. induction l; [done|]. rewrite count_cons. simpl length. destruct (p a); lia. Qed.
Lemma count_ext p q l : (∀ x, x ∈ l → p x = q x) → count p l = count q l.
Proof.
  induction l as [|x l IH]; intros H; [done|]. rewrite !count_cons, IH.
  - by rewrite (H x) by left.
  - intros y ?. apply H. by right.
Qed.
Lemma count_zero p l : count p l = 0 ↔ ∀ x, x ∈ l → p x = false.
Proof.
  induction l as [|x l IH].
  - split; [|done]. intros _ y Hy. inversion Hy.
  - rewrite count_cons. pose proof (count_bounds p l). split.
    + intros H' y [->|Hy]%elem_of_cons.
      * destruct (p x); [lia|done].
      * destruct (p x); [lia|]. apply IH; [lia|done].
    + intros H'. rewrite (H' x) by left. rewrite (proj2 IH); [done|].
      intros y ?. apply H'. by right.
Qed.
Lemma count_pos p l x : x ∈ l → p x = true → 0 < count p l.
Proof.
  intros Hx Hp. destruct (Z.eq_dec (count p l) 0) as [H0|].
  - rewrite count_zero in H0. rewrite (H0 x Hx) in Hp. done.
  - pose proof (count_bounds p l). lia.
Qed.
End count.

Lemma count_pos_inv {A} (p : A → bool) l : 0 < count p l → ∃ x, x ∈ l ∧ p x = true.
Proof.
  induction l as [|x l IH]; [done|]. rewrite count_cons. destruct (p x) eqn:Hx.
  - intros _. exists x. split; [left|done].
  - intros (y & ? & ?)%IH. exists y. split; [by right|done].
Qed.

Section count_update.
Context {A : Type} `{EqDecision A}.
Implicit Types (p q : A → bool) (l : list A).

(** One element's test changes its value; all others keep theirs. *)
Lemma count_flip p q l x :
  NoDup l → x ∈ l → p x = true → q x = false → (∀ y, y ≠ x → q y = p y) →
  count q l = count p l - 1.
Proof.
  intros Hnd Hx Hp Hq Heq. induction Hnd as [|y l Hy Hnd IH]; [inversion Hx|].
  rewrite !count_cons. apply elem_of_cons in Hx as [<-|Hx].
  - rewrite Hp, Hq. rewrite (count_ext q p); [lia|].
    intros z Hz. apply Heq. set_solver.
  - rewrite IH by done. rewrite Heq by set_solver. lia.
Qed.

Lemma count_flip_add p q l x :
  NoDup l → x ∈ l → p x = false → q x = true → (∀ y, y ≠ x → q y = p y) →
  count q l = count p l + 1.
Proof.
  intros. rewrite (count_flip q p l x); try done; [lia|].
  intros y ?. symmetry. auto.
Qed.
End count_update.

(** Counting in a list one cell of which is overwritten. *)
Lemma count_insert {A} (p : A → bool) (l : list A) i x y :
  l !! i = Some x →
  count p (<[i:=y]> l) = count p l - (if p x then 1 else 0) + (if p y then 1 else 0).
Proof.
  intros Hx. assert (i < length l)%nat by (by eapply lookup_lt_Some).
  rewrite insert_take_drop by done. rewrite <- (take_drop_middle l i x Hx) at 3.
  rewrite !count_app, !count_cons. lia.
Qed.

(** A call on a concrete state is evaluated for its value alone; the state it
    leaves stays a variable of the proof. *)
Definition value {S E A} (o : outcome S E A) : option A := match o with Done a _ => Some a | _ => None end.
Lemma value_done {S E A} (o : outcome S E A) a : value o = Some a → ∃ s, o = Done a s.
Proof. destruct o as [b s| |]; intros [= ->]. by exists s. Qed.

(** ** Reachability *)

Lemma rtc_invariant {A} (R : relation A) (P : A → Prop) x y :
  (∀ x y, R x y → P x → P y) → rtc R x y → P x → P y.
Proof. intros Hstep. induction 1; eauto. Qed.
