(* ===== verification/Paging.v ===== *)
(** * Physical pages and the frame-allocator interface

    Models [core/abyss/src/paging.rs]: the page size, the address newtypes, the
    [FrameAllocator] trait and its bootstrap implementation
    [LinearFrameAllocator].  The trait is a class of operations, and the
    promise its clients rely on is a second class, [FrameAllocatorLaws]; the
    bump implementation here and the bitmap of [Frame] are instances. *)
From S2P Require Import Prelude.

Definition PAGE_SIZE : Z := 4096.

(** [PhysicalAddress] and [VirtualAddress] are transparent wrappers of a
    64-bit integer. *)
Definition PhysicalAddress : Type := Z.
Definition VirtualAddress : Type := Z.

Module PhysicalAddress.
Definition is_page_aligned (a : PhysicalAddress) : bool := Z.land a (PAGE_SIZE - 1) =? 0.
End PhysicalAddress.

Module VirtualAddress.
Definition is_page_aligned (a : VirtualAddress) : bool := Z.land a (PAGE_SIZE - 1) =? 0.
End VirtualAddress.

(** The trait.  [allocate_frame] returns [None] as the error [()]. *)
Class FrameAllocator (T : Type) := {
  allocate_frame : M T unit PhysicalAddress;
  deallocate_frame : PhysicalAddress → M T unit unit;
}.

(** What the holder of an allocator may rely on: [frame_free a f] says that the
    allocator may still hand out [f]; an allocation takes exactly one free,
    page-aligned frame, and fails only when there is none. *)
Class FrameAllocatorLaws (T : Type) `{FrameAllocator T} := {
  frame_wf : T → Prop;
  frame_free : T → PhysicalAddress → Prop;
  allocate_frame_law a :
    frame_wf a →
    wp allocate_frame
      (λ f a', frame_wf a' ∧ f mod PAGE_SIZE = 0 ∧ u64 (f + PAGE_SIZE - 1) ∧
               frame_free a f ∧ ¬ frame_free a' f ∧
               ∀ g, g ≠ f → frame_free a' g ↔ frame_free a g)
      (λ _ a', a' = a ∧ ∀ f, ¬ frame_free a f) a;
  deallocate_frame_law a f :
    frame_wf a → u64 f →
    wp (deallocate_frame f)
      (λ _ a', frame_wf a' ∧ ∀ g, g ≠ f → frame_free a' g ↔ frame_free a g)
      (λ _ _, False) a;
}.

Module LinearFrameAllocator.

Record t := mk { next : Z; end_ : Z }.

Definition new (start end_ : PhysicalAddress) : t := mk start end_.

Definition allocate_frame : M t unit PhysicalAddress :=
  a ← get;
  next_end ← ok_or (checked_add 64 (next a) PAGE_SIZE) ();
  if end_ a <? next_end then throw () else
  put (mk next_end (end_ a)) ;;
  mret (next a).

Definition deallocate_frame (_frame : PhysicalAddress) : M t unit unit := mret ().

#[global] Instance frame_allocator : FrameAllocator t := {|
  Paging.allocate_frame := allocate_frame;
  Paging.deallocate_frame := deallocate_frame;
|}.

(** The region starts on a page boundary and both ends are addresses. *)
Definition wf (a : t) : Prop := next a mod PAGE_SIZE = 0 ∧ u64 (next a) ∧ u64 (end_ a).

(** The frames left between the bump pointer and the end. *)
Definition free (a : t) (f : PhysicalAddress) : Prop :=
  f mod PAGE_SIZE = 0 ∧ next a <= f ∧ f + PAGE_SIZE <= end_ a.

Lemma allocate_frame_ok a :
  wf a →
  wp allocate_frame
    (λ f a', wf a' ∧ f mod PAGE_SIZE = 0 ∧ u64 (f + PAGE_SIZE - 1) ∧
             free a f ∧ ¬ free a' f ∧ ∀ g, g ≠ f → free a' g ↔ free a g)
    (λ _ a', a' = a ∧ ∀ f, ¬ free a f) a.
Proof.
  intros (Hmod & Hnext & Hend). unfold allocate_frame, checked_add, wf, free, in_width, PAGE_SIZE in *.
  wp_simpl. destruct (Z.ltb_spec (next a + 4096) (2 ^ 64)); wp_simpl.
  - destruct (Z.ltb_spec (end_ a) (next a + 4096)); wp_simpl.
    + split; [done|]. intros f. Z.div_mod_to_equations. lia.
    + simpl. repeat split; intros; try (Z.div_mod_to_equations; lia).
  - split; [done|]. intros f. lia.
Qed.

Lemma deallocate_frame_ok a f :
  wf a → u64 f →
  wp (deallocate_frame f)
    (λ _ a', wf a' ∧ ∀ g, g ≠ f → free a' g ↔ free a g) (λ _ _, False) a.
Proof. by intros. Qed.

#[global] Instance frame_laws : FrameAllocatorLaws t := {
  frame_wf := wf;
  frame_free := free;
  allocate_frame_law := allocate_frame_ok;
  deallocate_frame_law := deallocate_frame_ok;
}.

End LinearFrameAllocator.

(** ** A client of the interface

    Drawing [n] frames one after the other, for any allocator that satisfies
    the laws. *)
Fixpoint allocate_frames {T} `{FrameAllocator T} (n : nat) : M T unit (list PhysicalAddress) :=
  match n with
  | O => mret []
  | S n' => f ← allocate_frame; fs ← allocate_frames n'; mret (f :: fs)
  end.

Section client.
Context {T : Type} `{FrameAllocatorLaws T}.

Lemma allocate_frames_ok n a :
  frame_wf a →
  wp (allocate_frames n)
    (λ fs a', frame_wf a' ∧ length fs = n ∧ NoDup fs ∧
              (∀ f, f ∈ fs → f mod PAGE_SIZE = 0 ∧ frame_free a f ∧ ¬ frame_free a' f) ∧
              (∀ g, frame_free a' g ↔ frame_free a g ∧ g ∉ fs))
    (λ _ a', frame_wf a' ∧ ∀ f, ¬ frame_free a' f) a.
Proof.
  revert a. induction n as [|n IH]; intros a Ha; simpl; wp_simpl.
  - repeat split; [done|constructor|set_solver..].
  - eapply wp_mono; [by apply allocate_frame_law| |].
    2:{ intros _ a' [-> Hnone]. done. }
    intros f a1 (Hwf1 & Hmod & _ & Hf & Hf1 & Hother). wp_simpl.
    eapply wp_mono; [by apply IH| |done].
    intros fs a2 (Hwf2 & Hlen & Hnd & Hfs & Hfree). wp_simpl.
    assert (f ∉ fs) by (intros Hin; by apply Hfs in Hin as (_ & ? & _)).
    split; [done|]. split; [simpl; lia|]. split; [by constructor|]. split.
    + intros g [->|Hg]%elem_of_cons.
      * split; [done|]. split; [done|]. rewrite Hfree. tauto.
      * destruct (Hfs g Hg) as (? & ? & ?). split; [done|]. split; [|done].
        apply Hother; [by intros ->|done].
    + intros g. rewrite Hfree, not_elem_of_cons. destruct (decide (g = f)) as [->|]; [tauto|].
      rewrite Hother by done. tauto.
Qed.
End client.
