(* ===== verification/Memory.v ===== *)
(** * The boot memory map and the reservation table

    Models [core/abyss/src/memory.rs] and [core/abyss/src/reservation.rs]: two
    fixed-capacity, append-only tables, and the choice of the largest usable
    range between two addresses. *)
From S2P Require Import Prelude Paging.

Module MemoryMap.

Definition MAX_MEMORY_REGIONS : Z := 128.

Inductive MemoryRegionKind :=
| Usable | Reserved | AcpiReclaimable | AcpiNonVolatile | Defective.

#[global] Instance MemoryRegionKind_eq_dec : EqDecision MemoryRegionKind.
Proof. solve_decision. Defined.

Record MemoryRegion := mkRegion {
  start : PhysicalAddress;
  end_ : PhysicalAddress;
  kind : MemoryRegionKind;
}.

Definition EMPTY : MemoryRegion := mkRegion 0 0 Reserved.

Definition length (r : MemoryRegion) : Z := saturating_sub (end_ r) (start r).

(** [regions] is the array, [len] the number of entries in use. *)
Record t := mk { slots : list MemoryRegion; len : Z }.

Definition new : t := mk (replicate (Z.to_nat MAX_MEMORY_REGIONS) EMPTY) 0.

Inductive MemoryMapError := InvalidRegion | CapacityExceeded.

Definition push (region : MemoryRegion) : M t MemoryMapError unit :=
  if end_ region <=? start region then throw InvalidRegion else
  m ← get;
  _ ← ok_or (slots m !! Z.to_nat (len m)) CapacityExceeded;
  len' ← add 64 (len m) 1;
  put (mk (<[Z.to_nat (len m) := region]> (slots m)) len').

Definition regions (m : t) : list MemoryRegion := take (Z.to_nat (len m)) (slots m).

(** One region clipped to the requested window and rounded inwards to pages. *)
Definition clip (minimum_address maximum_address minimum_size : Z) (region : MemoryRegion) :
    option MemoryRegion :=
  s ← align_up (Z.max (start region) minimum_address) PAGE_SIZE;
  let e := align_down (Z.min (end_ region) maximum_address) PAGE_SIZE in
  if minimum_size <=? saturating_sub e s then Some (mkRegion s e Usable) else None.

Definition usable_range (minimum_address maximum_address minimum_size : Z) (m : t) :
    option MemoryRegion :=
  max_by_key length
    (omap (clip minimum_address maximum_address minimum_size)
       (List.filter (λ r, bool_decide (kind r = Usable)) (regions m))).

Definition is_empty (m : t) : bool := len m =? 0.

(** Every entry in use is a non-empty range of addresses, the array keeps its
    size. *)
Definition region_ok (r : MemoryRegion) : Prop := u64 (start r) ∧ u64 (end_ r) ∧ start r < end_ r.
Definition wf (m : t) : Prop :=
  List.length (slots m) = Z.to_nat MAX_MEMORY_REGIONS ∧ 0 <= len m <= MAX_MEMORY_REGIONS ∧
  ∀ r, r ∈ regions m → region_ok r.

Lemma new_wf : wf new.
Proof. split; [done|]. split; [done|]. intros r Hr. inversion Hr. Qed.

Lemma regions_length m : wf m → Z.of_nat (List.length (regions m)) = len m.
Proof.
  intros (Hlen & Hl & _). unfold regions, MAX_MEMORY_REGIONS in *. rewrite length_take. lia.
Qed.

Lemma regions_snoc m r :
  (Z.to_nat (len m) < List.length (slots m))%nat → 0 <= len m →
  regions (mk (<[Z.to_nat (len m) := r]> (slots m)) (len m + 1)) = regions m ++ [r].
Proof.
  intros Hlt Hpos. unfold regions; simpl.
  replace (Z.to_nat (len m + 1)) with (S (Z.to_nat (len m))) by lia.
  rewrite (take_S_r _ _ r) by (by apply list_lookup_insert_eq).
  by rewrite take_insert_ge by lia.
Qed.

(** [push] appends, or leaves the map alone with the exact reason. *)
Lemma push_ok m r :
  wf m → u64 (start r) → u64 (end_ r) →
  wp (push r)
    (λ _ m', wf m' ∧ regions m' = regions m ++ [r] ∧ start r < end_ r)
    (λ e m', m' = m ∧
       match e with
       | InvalidRegion => end_ r <= start r
       | CapacityExceeded => start r < end_ r ∧ len m = MAX_MEMORY_REGIONS
       end) m.
Proof.
  intros Hwf Hs He. pose proof Hwf as (Hlen & Hl & Hreg).
  unfold push. destruct (Z.leb_spec (end_ r) (start r)); wp_simpl; [done|].
  destruct (slots m !! Z.to_nat (len m)) as [x|] eqn:Hx.
  - apply lookup_lt_Some in Hx as Hlt. unfold MAX_MEMORY_REGIONS in *.
    apply wp_add; [lia|]. wp_simpl.
    assert (Hsnoc := regions_snoc m r Hlt ltac:(lia)).
    split; [|done]. split; [by simpl; rewrite length_insert|]. split; [unfold MAX_MEMORY_REGIONS; simpl; lia|].
    rewrite Hsnoc. intros y [Hy| ->%list_elem_of_singleton]%elem_of_app; [auto|done].
  - apply lookup_ge_None in Hx. split; [done|]. unfold MAX_MEMORY_REGIONS in *. lia.
Qed.

Lemma page_size_pow2 : is_power_of_two PAGE_SIZE = true.
Proof. done. Qed.

Lemma clip_spec lo hi size r c :
  u64 lo → u64 hi → region_ok r → 0 < size → clip lo hi size r = Some c →
  start c mod PAGE_SIZE = 0 ∧ end_ c mod PAGE_SIZE = 0 ∧
  start r <= start c ∧ end_ c <= end_ r ∧ lo <= start c ∧ end_ c <= hi ∧
  size <= end_ c - start c ∧ kind c = Usable.
Proof.
  unfold clip. intros Hlo Hhi (Hs & He & Hse) Hsize.
  destruct (align_up _ _) as [s|] eqn:Hup; simpl; [|done].
  apply align_up_spec in Hup as (? & ? & ?); [|done|done|unfold in_width in *; lia].
  pose proof (align_down_spec (Z.min (end_ r) hi) PAGE_SIZE page_size_pow2 ltac:(done)
    ltac:(unfold in_width in *; lia)) as (? & ? & ?).
  destruct (Z.leb_spec size (saturating_sub (align_down (Z.min (end_ r) hi) PAGE_SIZE) s));
    [|done].
  intros [= <-]; simpl. unfold saturating_sub in *. repeat split; (done || lia).
Qed.

End MemoryMap.

Module ReservationTable.

Inductive ReservationKind :=
| LowMemory | KernelImage | BootInformation | BootModule | BootstrapHeap
| AllocatorMetadata | Firmware | DeviceMemory.

Record Reservation := mkReservation {
  start : PhysicalAddress;
  end_ : PhysicalAddress;
  kind : ReservationKind;
}.

Definition EMPTY : Reservation := mkReservation 0 0 LowMemory.

(** [ReservationTable<N>]: [slots] is the array of [N] entries. *)
Record t := mk { slots : list Reservation; len : Z }.

Definition new (N : nat) : t := mk (replicate N EMPTY) 0.

Inductive ReservationError := InvalidRange | CapacityExceeded.

Definition push (r : Reservation) : M t ReservationError unit :=
  if end_ r <=? start r then throw InvalidRange else
  m ← get;
  _ ← ok_or (slots m !! Z.to_nat (len m)) CapacityExceeded;
  len' ← add 64 (len m) 1;
  put (mk (<[Z.to_nat (len m) := r]> (slots m)) len').

Definition entries (m : t) : list Reservation := take (Z.to_nat (len m)) (slots m).

End ReservationTable.

(** ** Properties *)

Module MemoryProperties.
Import MemoryMap.

(** the range [usable_range] selects is page-aligned, lies inside both the
    requested window and one usable region of the map, has at least the
    requested size, and no usable region offers a larger clipped range. *)
Theorem usable_range_largest m lo hi size c :
  wf m → u64 lo → u64 hi → 0 < size → usable_range lo hi size m = Some c →
  (start c mod PAGE_SIZE = 0 ∧ end_ c mod PAGE_SIZE = 0 ∧ lo <= start c ∧ end_ c <= hi ∧
   size <= end_ c - start c) ∧
  (∃ r, r ∈ regions m ∧ kind r = Usable ∧ start r <= start c ∧ end_ c <= end_ r) ∧
  (∀ r d, r ∈ regions m → kind r = Usable → clip lo hi size r = Some d →
     end_ d - start d <= end_ c - start c).
Proof.
  intros (_ & _ & Hreg) Hlo Hhi Hsize Hc. unfold usable_range in Hc.
  pose proof (max_by_key_spec length
    (omap (clip lo hi size) (List.filter (λ r, bool_decide (kind r = Usable)) (regions m)))) as Hmax.
  rewrite Hc in Hmax. destruct Hmax as [Hin Hmax].
  apply list_elem_of_omap in Hin as (r & Hr & Hclip).
  apply list_elem_of_In, filter_In in Hr as [Hr Hk].
  apply list_elem_of_In in Hr. apply bool_decide_eq_true in Hk.
  destruct (clip_spec lo hi size r c) as (? & ? & ? & ? & ? & ? & ? & ?); auto.
  split; [auto|]. split; [by exists r|].
  intros r' d Hr' Hk' Hd.
  destruct (clip_spec lo hi size r' d) as (? & ? & ? & ? & ? & ? & ? & ?); auto.
  assert (length d <= length c).
  { apply Hmax, list_elem_of_omap. exists r'. split; [|done].
    apply list_elem_of_In, filter_In. rewrite <- list_elem_of_In. by rewrite bool_decide_eq_true. }
  unfold length, saturating_sub in *. lia.
Qed.

Definition two_regions : t :=
  match (push (mkRegion 0 651264 Usable) ;; push (mkRegion 1048576 8388608 Usable)) new with
  | Done _ m => m
  | _ => new
  end.

Lemma two_regions_wf : wf two_regions.
Proof.
  assert (Hwp : wp (push (mkRegion 0 651264 Usable) ;; push (mkRegion 1048576 8388608 Usable))
    (λ _, wf) (λ _ _, True) new).
  { wp_simpl. eapply wp_mono; [by apply push_ok; [apply new_wf|..]| |done].
    intros _ m (Hm & _). eapply wp_mono; [by apply push_ok|naive_solver|done]. }
  by apply (wp_Done _ _ _ _ () two_regions Hwp).
Qed.


End MemoryProperties.
