(* ===== verification/Frame.v ===== *)
(** * The bitmap frame allocator

    Models [core/abyss/src/frame.rs]: two bitmaps of 64-bit words, one for the
    frames handed out and one for the frames that must never be, with a cached
    count of free frames and a next-fit cursor; and the lock-protected pool
    [kernel/boulder/src/memory/frame_pool.rs] that every address space and DMA
    domain draws from. *)
From S2P Require Import Prelude Paging Memory.

Definition BITS_PER_WORD : Z := 64.

Inductive FrameAllocatorError :=
| AddressOverflow | StorageTooSmall | InvalidFrameCount | UnalignedFrame
| FrameOutOfRange | ReservedFrame | DoubleFree.

(** ** Bitmaps *)

Definition bit_is_set {S E} (bitmap : list Z) (bit : Z) : M S E bool :=
  word ← index bitmap (bit / BITS_PER_WORD);
  mret (negb (Z.land word (Z.shiftl 1 (bit mod BITS_PER_WORD)) =? 0)).

Definition set_bit {S E} (bitmap : list Z) (bit : Z) (value : bool) : M S E (list Z) :=
  word ← index bitmap (bit / BITS_PER_WORD);
  let mask := Z.shiftl 1 (bit mod BITS_PER_WORD) in
  let word' := if value then Z.lor word mask else Z.land word (bitnot 64 mask) in
  mret (<[Z.to_nat (bit / BITS_PER_WORD) := word']> bitmap).

Definition words_for_frames (frames : Z) : Z := div_ceil frames BITS_PER_WORD.

Definition frame_count_of (maximum_address : Z) : result Z FrameAllocatorError :=
  match checked_add 64 maximum_address (PAGE_SIZE - 1) with
  | None => Err AddressOverflow
  | Some rounded =>
    let frames := rounded / PAGE_SIZE in
    if frames <=? MAX 64 then Ok frames else Err AddressOverflow
  end.

Definition align_up_index (value alignment : Z) : option Z := align_up value alignment.

(** ** The allocator *)

Module BitmapFrameAllocator.

Record t := mk {
  allocated : list Z;
  reserved : list Z;
  frame_count : Z;
  next_search : Z;
  free_frames : Z;
}.

Definition with_allocated (b : list Z) (a : t) : t :=
  mk b (reserved a) (frame_count a) (next_search a) (free_frames a).
Definition with_reserved (b : list Z) (a : t) : t :=
  mk (allocated a) b (frame_count a) (next_search a) (free_frames a).
Definition with_next_search (n : Z) (a : t) : t :=
  mk (allocated a) (reserved a) (frame_count a) n (free_frames a).
Definition with_free_frames (n : Z) (a : t) : t :=
  mk (allocated a) (reserved a) (frame_count a) (next_search a) n.

Definition managed_frames (a : t) : Z := frame_count a.

Definition is_allocated {E} (frame : Z) : M t E bool :=
  a ← get; bit_is_set (allocated a) frame.
Definition is_reserved {E} (frame : Z) : M t E bool :=
  a ← get; bit_is_set (reserved a) frame.
Definition set_allocated {E} (frame : Z) (value : bool) : M t E unit :=
  a ← get; b ← set_bit (allocated a) frame value; put (with_allocated b a).
Definition set_reserved {E} (frame : Z) (value : bool) : M t E unit :=
  a ← get; b ← set_bit (reserved a) frame value; put (with_reserved b a).

(** [self.free_frames += n] and [self.free_frames -= n]. *)
Definition inc_free {E} (n : Z) : M t E unit :=
  a ← get; f ← add 64 (free_frames a) n; put (with_free_frames f a).
Definition dec_free {E} (n : Z) : M t E unit :=
  a ← get; f ← sub (free_frames a) n; put (with_free_frames f a).

Definition storage_words (maximum_address : Z) : result Z FrameAllocatorError :=
  match frame_count_of maximum_address with
  | Err e => Err e
  | Ok frames =>
    match checked_mul 64 (words_for_frames frames) 2 with
    | Some w => Ok w
    | None => Err AddressOverflow
    end
  end.

Definition mark_usable_frame {E} (frame : Z) : M t E unit :=
  b ← is_allocated frame;
  (if b : bool then inc_free 1 else mret ()) ;;
  set_allocated frame false ;;
  set_reserved frame false.

Definition mark_usable {E} (start end_ : Z) : M t E unit :=
  if end_ <=? start then mret () else
  a ← get;
  let first := start / PAGE_SIZE in
  let last := Z.min (end_ / PAGE_SIZE) (frame_count a) in
  mfor (range (Z.min first (frame_count a)) last) mark_usable_frame.

Definition mark_region {E} (maximum_address : Z) (region : MemoryMap.MemoryRegion) : M t E unit :=
  if bool_decide (MemoryMap.kind region = MemoryMap.Usable) then
    match align_up (MemoryMap.start region) PAGE_SIZE with
    | None => mret ()
    | Some start =>
      let end_ := align_down (Z.min (MemoryMap.end_ region) maximum_address) PAGE_SIZE in
      mark_usable start end_
    end
  else mret ().

(** [new]: the caller's storage is split into the two bitmaps, everything
    starts allocated and reserved, and the usable regions are opened.  The
    state before the call is irrelevant: the allocator is returned as the state
    left behind. *)
Definition new (memory_map : MemoryMap.t) (maximum_address : Z) (storage : list Z) :
    M t FrameAllocatorError unit :=
  frame_count ← lift (frame_count_of maximum_address);
  let words := words_for_frames frame_count in
  if Z.of_nat (length storage) <? saturating_mul 64 words 2 then throw StorageTooSmall else
  put (mk (replicate (Z.to_nat words) (MAX 64)) (replicate (Z.to_nat words) (MAX 64))
         frame_count 0 0) ;;
  mfor (MemoryMap.regions memory_map) (mark_region maximum_address).

Definition reserve_frame {E} (frame : Z) : M t E unit :=
  b ← is_allocated frame;
  (if b : bool then mret () else dec_free 1) ;;
  set_allocated frame true ;;
  set_reserved frame true.

Definition reserve_range {E} (start end_ : Z) : M t E unit :=
  if end_ <=? start then mret () else
  let first := start / PAGE_SIZE in
  match align_up end_ PAGE_SIZE with
  | None => mret ()
  | Some rounded_end =>
    a ← get;
    let last := Z.min (rounded_end / PAGE_SIZE) (frame_count a) in
    mfor (range (Z.min first (frame_count a)) last) reserve_frame
  end.

Definition apply_reservations {E} (reservations : ReservationTable.t) : M t E unit :=
  mfor (ReservationTable.entries reservations)
    (λ r, reserve_range (ReservationTable.start r) (ReservationTable.end_ r)).

(** The scan of [allocate] over the remaining offsets. *)
Fixpoint allocate_scan (offsets : list Z) : M t unit PhysicalAddress :=
  match offsets with
  | [] => throw ()
  | offset :: rest =>
    a ← get;
    position ← add 64 (next_search a) offset;
    frame ← rem position (frame_count a);
    b ← is_allocated frame;
    if b : bool then allocate_scan rest else
    set_allocated frame true ;;
    dec_free 1 ;;
    successor ← add 64 frame 1;
    cursor ← rem successor (frame_count a);
    modify (with_next_search cursor) ;;
    mul 64 frame PAGE_SIZE
  end.

Definition allocate : M t unit PhysicalAddress :=
  a ← get;
  if free_frames a =? 0 then throw () else
  allocate_scan (range 0 (frame_count a)).

(** The first occupied frame of a span, by [Iterator::find]. *)
Fixpoint find_occupied (span : list Z) : M t unit (option Z) :=
  match span with
  | [] => mret None
  | frame :: rest =>
    b ← is_allocated frame;
    if b : bool then mret (Some frame) else find_occupied rest
  end.

(** The search loop, with fuel: each round moves the candidate forward. *)
Fixpoint find_contiguous_loop (fuel : nat) (candidate frame_count' alignment_frames : Z) :
    M t unit Z :=
  match fuel with
  | O => panic
  | S fuel' =>
    a ← get;
    end_ ← ok_or (checked_add 64 candidate frame_count') ();
    if frame_count a <? end_ then throw () else
    occupied ← find_occupied (range candidate end_);
    match occupied with
    | Some o =>
      o1 ← add 64 o 1;
      next ← ok_or (align_up_index o1 alignment_frames) ();
      find_contiguous_loop fuel' next frame_count' alignment_frames
    | None => mret candidate
    end
  end.

Definition find_contiguous (search_start frame_count' alignment_frames : Z) : M t unit Z :=
  a ← get;
  candidate ← ok_or (align_up_index search_start alignment_frames) ();
  find_contiguous_loop (S (Z.to_nat (frame_count a))) candidate frame_count' alignment_frames.

(** The second half of [allocate_contiguous]: the run at [first] is taken. *)
Definition take_run (first frame_count' : Z) : M t unit PhysicalAddress :=
  a ← get;
  end_ ← add 64 first frame_count';
  mfor (range first end_) (λ frame, set_allocated frame true) ;;
  dec_free frame_count' ;;
  cursor ← rem end_ (frame_count a);
  modify (with_next_search cursor) ;;
  mul 64 first PAGE_SIZE.

Definition allocate_contiguous (frame_count' alignment_frames : Z) : M t unit PhysicalAddress :=
  a ← get;
  if (frame_count' =? 0) || (alignment_frames =? 0) || negb (is_power_of_two alignment_frames)
     || (free_frames a <? frame_count')
  then throw () else
  first_try ← attempt (find_contiguous (next_search a) frame_count' alignment_frames);
  first ← match first_try with
          | Ok first => mret first
          | Err _ => find_contiguous 0 frame_count' alignment_frames
          end;
  take_run first frame_count'.

Definition check_releasable (index : Z) : M t FrameAllocatorError unit :=
  r ← is_reserved index;
  if r : bool then throw ReservedFrame else
  b ← is_allocated index;
  if b : bool then mret () else throw DoubleFree.

Definition deallocate_contiguous (first_frame : PhysicalAddress) (frame_count' : Z) :
    M t FrameAllocatorError unit :=
  if frame_count' =? 0 then throw InvalidFrameCount else
  if negb (PhysicalAddress.is_page_aligned first_frame) then throw UnalignedFrame else
  let first := first_frame / PAGE_SIZE in
  a ← get;
  end_ ← ok_or
    (match checked_add 64 first frame_count' with
     | Some e => if e <=? frame_count a then Some e else None
     | None => None
     end) FrameOutOfRange;
  mfor (range first end_) check_releasable ;;
  mfor (range first end_) (λ index, set_allocated index false) ;;
  inc_free frame_count' ;;
  modify (with_next_search first).

Definition deallocate (frame : PhysicalAddress) : M t FrameAllocatorError unit :=
  deallocate_contiguous frame 1.

(** The [FrameAllocator] trait implementation drops the release result. *)
#[global] Instance frame_allocator : FrameAllocator t := {|
  allocate_frame := allocate;
  deallocate_frame frame := (_ ← attempt (deallocate frame); mret ());
|}.

End BitmapFrameAllocator.

(** ** Bitmaps as sets of frames *)

(** The set a bitmap stands for. *)
Definition bit (bitmap : list Z) (i : Z) : bool :=
  match bitmap !! Z.to_nat (i / BITS_PER_WORD) with
  | Some word => Z.testbit word (i mod BITS_PER_WORD)
  | None => false
  end.

Definition bitmap_wf (frames : Z) (bitmap : list Z) : Prop :=
  Z.of_nat (length bitmap) = words_for_frames frames ∧ Forall u64 bitmap.

Lemma land_shiftl_1 word k :
  0 <= k → negb (Z.land word (Z.shiftl 1 k) =? 0) = Z.testbit word k.
Proof.
  intros Hk. destruct (Z.eqb_spec (Z.land word (Z.shiftl 1 k)) 0) as [H0|H0]; simpl.
  - symmetry. assert (H : Z.testbit (Z.land word (Z.shiftl 1 k)) k = false)
      by (rewrite H0; apply Z.bits_0).
    rewrite Z.land_spec, Z.shiftl_spec, Z.sub_diag in H by done. by rewrite andb_true_r in H.
  - destruct (Z.testbit word k) eqn:Hbit; [done|]. exfalso. apply H0.
    apply Z.bits_inj'. intros n Hn. rewrite Z.land_spec, Z.bits_0, Z.shiftl_spec by done.
    destruct (Z.eq_dec n k) as [->|]; [by rewrite Hbit|].
    destruct (Z.lt_ge_cases n k).
    + rewrite (Z.testbit_neg_r 1) by lia. apply andb_false_r.
    + change 1 with (2 ^ 0). rewrite Z.pow2_bits_false by lia. apply andb_false_r.
Qed.

Section bitmap.
Context (frames : Z) (bitmap : list Z) (i : Z).
Hypothesis Hwf : bitmap_wf frames bitmap.
Hypothesis Hi : 0 <= i < frames.

Lemma word_lookup : ∃ word, bitmap !! Z.to_nat (i / BITS_PER_WORD) = Some word ∧ u64 word.
Proof.
  destruct Hwf as [Hlen Hall]. unfold words_for_frames, div_ceil, BITS_PER_WORD in *.
  destruct (lookup_lt_is_Some_2 bitmap (Z.to_nat (i / 64))) as [word Hword].
  { Z.div_mod_to_equations. lia. }
  exists word. split; [done|]. by eapply Forall_lookup_1.
Qed.

Lemma bit_is_set_ok {S E} (s : S) : bit_is_set (E:=E) bitmap i s = Done (bit bitmap i) s.
Proof.
  destruct word_lookup as (word & Hword & _). unfold bit_is_set, bit, index, BITS_PER_WORD in *.
  destruct (Z.leb_spec 0 (i / 64)); [|Z.div_mod_to_equations; lia].
  rewrite Hword. unfold mbind, M_bind, mret, M_ret. f_equal.
  apply land_shiftl_1. Z.div_mod_to_equations; lia.
Qed.

(** The bitmap after a store to bit [i]. *)
Definition store_bit (value : bool) : list Z :=
  let word := bitmap !!! Z.to_nat (i / BITS_PER_WORD) in
  let mask := Z.shiftl 1 (i mod BITS_PER_WORD) in
  <[Z.to_nat (i / BITS_PER_WORD) :=
      if value then Z.lor word mask else Z.land word (bitnot 64 mask)]> bitmap.

Lemma set_bit_ok {S E} value (s : S) : set_bit (E:=E) bitmap i value s = Done (store_bit value) s.
Proof.
  destruct word_lookup as (word & Hword & _).
  unfold set_bit, store_bit, index, BITS_PER_WORD in *.
  destruct (Z.leb_spec 0 (i / 64)); [|Z.div_mod_to_equations; lia].
  rewrite Hword, (list_lookup_total_correct _ _ _ Hword). done.
Qed.

Lemma mask_width : u64 (Z.shiftl 1 (i mod BITS_PER_WORD)).
Proof.
  rewrite Z.shiftl_1_l. apply in_width_pow2. unfold BITS_PER_WORD.
  pose proof (Z.mod_pos_bound i 64). lia.
Qed.

Lemma store_bit_wf value : bitmap_wf frames (store_bit value).
Proof.
  destruct word_lookup as (word & Hword & Hw). destruct Hwf as [Hlen Hall].
  unfold store_bit. rewrite (list_lookup_total_correct _ _ _ Hword).
  split; [by rewrite length_insert|]. apply Forall_insert; [done|].
  pose proof mask_width. destruct value.
  - by apply in_width_lor.
  - apply in_width_land; [done| |done]. by apply in_width_bitnot.
Qed.

Lemma bit_store value j :
  0 <= j → bit (store_bit value) j = if decide (j = i) then value else bit bitmap j.
Proof.
  intros Hj. destruct word_lookup as (word & Hword & Hw).
  pose proof (lookup_lt_Some _ _ _ Hword) as Hlt.
  unfold bit, store_bit, BITS_PER_WORD in *. rewrite (list_lookup_total_correct _ _ _ Hword).
  pose proof (Z.mod_pos_bound i 64 ltac:(lia)). pose proof (Z.mod_pos_bound j 64 ltac:(lia)).
  destruct (decide (Z.to_nat (j / 64) = Z.to_nat (i / 64))) as [Heq|Hne].
  - rewrite Heq, list_lookup_insert_eq by done. rewrite Hword.
    assert (Hdiv : j / 64 = i / 64) by (Z.div_mod_to_equations; lia).
    assert (Hshift : Z.testbit (Z.shiftl 1 (i mod 64)) (j mod 64) = bool_decide (j = i)).
    { rewrite Z.shiftl_1_l, Z.pow2_bits_eqb by lia.
      destruct (Z.eqb_spec (i mod 64) (j mod 64)); symmetry;
        [apply bool_decide_eq_true | apply bool_decide_eq_false]; Z.div_mod_to_equations; lia. }
    destruct value.
    + rewrite Z.lor_spec, Hshift.
      destruct (decide (j = i)) as [->|].
      * by rewrite bool_decide_eq_true_2, orb_true_r.
      * by rewrite bool_decide_eq_false_2, orb_false_r.
    + rewrite Z.land_spec, testbit_bitnot, Hshift, Z.ones_spec_low by lia.
      destruct (decide (j = i)) as [->|].
      * by rewrite bool_decide_eq_true_2, andb_false_r.
      * by rewrite bool_decide_eq_false_2, andb_true_r.
  - rewrite list_lookup_insert_ne by done. by destruct (decide (j = i)) as [->|].
Qed.
End bitmap.

(** ** The allocator's invariant *)

Module FrameFacts.
Import BitmapFrameAllocator.

Definition alloc_bit (a : t) (i : Z) : bool := bit (allocated a) i.
Definition res_bit (a : t) (i : Z) : bool := bit (reserved a) i.
Definition free_count (a : t) : Z :=
  count (λ i, negb (alloc_bit a i)) (range 0 (frame_count a)).

Record shape (a : t) : Prop := {
  shape_alloc : bitmap_wf (frame_count a) (allocated a);
  shape_res : bitmap_wf (frame_count a) (reserved a);
  shape_count : 0 <= frame_count a <= 2 ^ 52;
  shape_cursor : 0 <= next_search a < Z.max 1 (frame_count a);
}.

(** The cached count is exact and a reserved frame is never free. *)
Record wf (a : t) : Prop := {
  wf_shape :> shape a;
  wf_free : free_frames a = free_count a;
  wf_res : ∀ i, 0 <= i < frame_count a → res_bit a i = true → alloc_bit a i = true;
}.

(** A frame the allocator may hand out. *)
Definition is_free (a : t) (i : Z) : Prop := 0 <= i < frame_count a ∧ alloc_bit a i = false.

(** [a'] differs from [a] at most in its counters and in the bits selected by
    [P], which are all [v] in the allocation bitmap. *)
Record sets (P : Z → bool) (v : bool) (a a' : t) : Prop := {
  sets_count : frame_count a' = frame_count a;
  sets_bits : ∀ j, 0 <= j → alloc_bit a' j = if P j then v else alloc_bit a j;
}.
Definition between (lo hi j : Z) : bool := (lo <=? j) && (j <? hi).

Lemma between_spec lo hi j : between lo hi j = true ↔ lo <= j < hi.
Proof. unfold between. rewrite andb_true_iff, Z.leb_le, Z.ltb_lt. done. Qed.
Lemma between_spec_false lo hi j : between lo hi j = false ↔ ¬ (lo <= j < hi).
Proof. rewrite <- between_spec. by rewrite not_true_iff_false. Qed.

Definition alloc_set (i : Z) (v : bool) (a : t) : t := with_allocated (store_bit (allocated a) i v) a.
Definition res_set (i : Z) (v : bool) (a : t) : t := with_reserved (store_bit (reserved a) i v) a.

Section one_frame.
Context (a : t) (i : Z) (v : bool).
Hypothesis Ha : shape a.
Hypothesis Hi : 0 <= i < frame_count a.

Lemma is_allocated_ok {E} : is_allocated (E:=E) i a = Done (alloc_bit a i) a.
Proof.
  unfold is_allocated, mbind, M_bind, get. simpl.
  by rewrite (bit_is_set_ok (frame_count a)) by (apply Ha || done).
Qed.
Lemma is_reserved_ok {E} : is_reserved (E:=E) i a = Done (res_bit a i) a.
Proof.
  unfold is_reserved, mbind, M_bind, get. simpl.
  by rewrite (bit_is_set_ok (frame_count a)) by (apply Ha || done).
Qed.
Lemma set_allocated_ok {E} : set_allocated (E:=E) i v a = Done () (alloc_set i v a).
Proof.
  unfold set_allocated, mbind, M_bind, get. simpl.
  by rewrite (set_bit_ok (frame_count a)) by (apply Ha || done).
Qed.
Lemma set_reserved_ok {E} : set_reserved (E:=E) i v a = Done () (res_set i v a).
Proof.
  unfold set_reserved, mbind, M_bind, get. simpl.
  by rewrite (set_bit_ok (frame_count a)) by (apply Ha || done).
Qed.

Lemma alloc_set_shape : shape (alloc_set i v a).
Proof. destruct Ha. split; try done. by apply store_bit_wf. Qed.
Lemma res_set_shape : shape (res_set i v a).
Proof. destruct Ha. split; try done. by apply store_bit_wf. Qed.

Lemma alloc_bit_set j :
  0 <= j → alloc_bit (alloc_set i v a) j = if decide (j = i) then v else alloc_bit a j.
Proof. intros. unfold alloc_bit. eapply bit_store; [apply Ha|done|done]. Qed.
Lemma res_bit_set j :
  0 <= j → res_bit (res_set i v a) j = if decide (j = i) then v else res_bit a j.
Proof. intros. unfold res_bit. eapply bit_store; [apply Ha|done|done]. Qed.

Lemma free_count_set :
  free_count (alloc_set i v a) =
  free_count a + (if alloc_bit a i then 1 else 0) - (if v then 1 else 0).
Proof.
  unfold free_count. simpl.
  assert (Hin : i ∈ range 0 (frame_count a)) by (apply elem_of_range; lia).
  assert (Hi' : alloc_bit (alloc_set i v a) i = v).
  { rewrite alloc_bit_set by lia. by destruct (decide (i = i)). }
  assert (Hj : ∀ j, j ∈ range 0 (frame_count a) → j ≠ i →
    negb (alloc_bit (alloc_set i v a) j) = negb (alloc_bit a j)).
  { intros j Hj%elem_of_range ?. rewrite alloc_bit_set by lia. by destruct (decide (j = i)). }
  set (p := λ j, negb (alloc_bit a j)). set (l := range 0 (frame_count a)) in *.
  transitivity (count (λ j, if decide (j = i) then negb v else p j) l).
  { apply count_ext. intros j Hin'. destruct (decide (j = i)) as [->|]; [by rewrite Hi'|].
    by apply Hj. }
  assert (NoDup l) by apply NoDup_range.
  destruct (alloc_bit a i) eqn:Hai, v; simpl.
  - rewrite (count_ext _ p); [lia|]. intros j _. destruct (decide (j = i)) as [->|]; [|done].
    unfold p. by rewrite Hai.
  - rewrite (count_flip_add p _ l i); [lia|done|done|..].
    + unfold p. by rewrite Hai.
    + by destruct (decide (i = i)).
    + intros j ?. by destruct (decide (j = i)).
  - rewrite (count_flip p _ l i); [lia|done|done|..].
    + unfold p. by rewrite Hai.
    + by destruct (decide (i = i)).
    + intros j ?. by destruct (decide (j = i)).
  - rewrite (count_ext _ p); [lia|]. intros j _. destruct (decide (j = i)) as [->|]; [|done].
    unfold p. by rewrite Hai.
Qed.
End one_frame.

Lemma free_count_bounds a : shape a → 0 <= free_count a <= frame_count a.
Proof.
  intros Ha. unfold free_count. pose proof (count_bounds (λ i, negb (alloc_bit a i)) (range 0 (frame_count a))).
  unfold range in *. rewrite length_seqZ in *. pose proof (shape_count a Ha). lia.
Qed.

Lemma free_count_pos a i : is_free a i → 0 < free_count a.
Proof.
  intros [Hi Hbit]. apply (count_pos _ _ i); [by apply elem_of_range|]. by rewrite Hbit.
Qed.

End FrameFacts.

Module FrameOps.
Import BitmapFrameAllocator FrameFacts.

(** The state after one round of [mark_usable] ([v = false]) or
    [reserve_range] ([v = true]): both bits stored, the count adjusted. *)
Definition both_set (v : bool) (i : Z) (a : t) : t :=
  res_set i v (alloc_set i v
    (with_free_frames
       (free_frames a + (if alloc_bit a i then 1 else 0) - (if v then 1 else 0)) a)).

Section both_set.
Context (a : t) (i : Z).
Hypothesis Ha : wf a.
Hypothesis Hi : 0 <= i < frame_count a.

Lemma free_frames_bounds : 0 <= free_frames a <= frame_count a.
Proof. rewrite (wf_free a Ha). by apply free_count_bounds, Ha. Qed.

Lemma with_free_shape f : shape (with_free_frames f a).
Proof. by destruct Ha as [[] _ _]. Qed.

Lemma mark_usable_frame_ok {E} : mark_usable_frame (E:=E) i a = Done () (both_set false i a).
Proof.
  pose proof free_frames_bounds. pose proof (shape_count a Ha).
  unfold mark_usable_frame, both_set, mbind, M_bind.
  rewrite is_allocated_ok by (apply Ha || done).
  destruct (alloc_bit a i) eqn:Hbit.
  - unfold inc_free, mbind, M_bind, get, add, checked_add, put. simpl.
    destruct (Z.ltb_spec (free_frames a + 1) (2 ^ 64)); [|lia].
    unfold mret, M_ret. rewrite set_allocated_ok by (apply with_free_shape || done).
    rewrite set_reserved_ok by first [done | apply alloc_set_shape; [apply with_free_shape|done]].
    do 4 f_equal. lia.
  - unfold mret, M_ret. rewrite set_allocated_ok by (apply Ha || done).
    rewrite set_reserved_ok by first [done | apply alloc_set_shape; [apply Ha|done]].
    do 3 f_equal. destruct a; unfold with_free_frames; simpl. f_equal. lia.
Qed.

Lemma reserve_frame_ok {E} : reserve_frame (E:=E) i a = Done () (both_set true i a).
Proof.
  pose proof free_frames_bounds. pose proof (shape_count a Ha).
  unfold reserve_frame, both_set, mbind, M_bind.
  rewrite is_allocated_ok by (apply Ha || done).
  destruct (alloc_bit a i) eqn:Hbit.
  - unfold mret, M_ret. rewrite set_allocated_ok by (apply Ha || done).
    rewrite set_reserved_ok by first [done | apply alloc_set_shape; [apply Ha|done]].
    do 3 f_equal. destruct a; unfold with_free_frames; simpl. f_equal. lia.
  - assert (0 < free_count a) by by apply (free_count_pos a i).
    rewrite <- (wf_free a Ha) in *.
    unfold dec_free, mbind, M_bind, get, sub, checked_sub, put. simpl.
    destruct (Z.leb_spec 1 (free_frames a)); [|lia].
    unfold mret, M_ret. rewrite set_allocated_ok by (apply with_free_shape || done).
    rewrite set_reserved_ok by first [done | apply alloc_set_shape; [apply with_free_shape|done]].
    do 4 f_equal. lia.
Qed.

Lemma both_set_bits v j :
  0 <= j →
  alloc_bit (both_set v i a) j = (if decide (j = i) then v else alloc_bit a j) ∧
  res_bit (both_set v i a) j = (if decide (j = i) then v else res_bit a j).
Proof.
  intros. split.
  - apply (alloc_bit_set (with_free_frames _ a)); [apply with_free_shape|done|done].
  - etransitivity; [apply res_bit_set; [|done|done]|done].
    apply alloc_set_shape; [apply with_free_shape|done].
Qed.

Lemma both_set_wf v : wf (both_set v i a).
Proof.
  split.
  - apply res_set_shape; [|done]. apply alloc_set_shape; [apply with_free_shape|done].
  - unfold both_set. simpl.
    change (free_count (res_set i v ?x)) with (free_count x).
    rewrite free_count_set by (apply with_free_shape || done).
    rewrite (wf_free a Ha). done.
  - intros j Hj. destruct (both_set_bits v j) as [-> ->]; [simpl in Hj; lia|].
    destruct (decide (j = i)); [done|]. by apply Ha.
Qed.
End both_set.

(** What a loop of such rounds over [lo..hi] does. *)
Record loop_effect (v : bool) (lo hi : Z) (a a' : t) : Prop := {
  le_wf : wf a';
  le_count : frame_count a' = frame_count a;
  le_cursor : next_search a' = next_search a;
  le_alloc j : 0 <= j → alloc_bit a' j = if between lo hi j then v else alloc_bit a j;
  le_res j : 0 <= j → res_bit a' j = if between lo hi j then v else res_bit a j;
}.

Lemma loop_effect_refl v lo hi a : wf a → hi <= lo → loop_effect v lo hi a a.
Proof.
  intros. split; try done; intros j Hj; destruct (between lo hi j) eqn:Hb; try done;
    apply between_spec in Hb; lia.
Qed.

Lemma mfor_both_set {E} v lo hi (f : Z → M t E unit) a Q R :
  wf a → 0 <= lo → hi <= frame_count a →
  (∀ i a', wf a' → 0 <= i < frame_count a' → f i a' = Done () (both_set v i a')) →
  (∀ a', loop_effect v lo hi a a' → Q () a') →
  wp (mfor (range lo hi) f) Q R a.
Proof.
  intros Ha Hlo Hhi Hf HQ.
  destruct (Z.le_gt_cases hi lo).
  { rewrite range_nil by done. apply HQ. by apply loop_effect_refl. }
  apply (wp_for_range (λ i a', lo <= i ∧ loop_effect v lo i a a')).
  - split; [lia|]. by apply loop_effect_refl.
  - intros i a' Hi [_ []]. eapply wp_eq; [apply Hf; [done|lia]|].
    split; [lia|]. assert (Hi' : 0 <= i < frame_count a') by lia. split.
    + by apply both_set_wf.
    + done.
    + done.
    + intros j Hj. destruct (both_set_bits a' i le_wf0 Hi' v j Hj) as [-> _].
      rewrite le_alloc0 by done. unfold between.
      destruct (decide (j = i)) as [->|].
      * destruct (Z.leb_spec lo i), (Z.ltb_spec i (i + 1)); (done || lia).
      * destruct (Z.leb_spec lo j), (Z.ltb_spec j i), (Z.ltb_spec j (i + 1)); (done || lia).
    + intros j Hj. destruct (both_set_bits a' i le_wf0 Hi' v j Hj) as [_ ->].
      rewrite le_res0 by done. unfold between.
      destruct (decide (j = i)) as [->|].
      * destruct (Z.leb_spec lo i), (Z.ltb_spec i (i + 1)); (done || lia).
      * destruct (Z.leb_spec lo j), (Z.ltb_spec j i), (Z.ltb_spec j (i + 1)); (done || lia).
  - intros a' [_ He]. apply HQ. by replace (Z.max lo hi) with hi in He by lia.
Qed.

Lemma clipped_loop {E} v first hi (f : Z → M t E unit) a Q R :
  wf a → 0 <= first → hi <= frame_count a →
  (∀ i a', wf a' → 0 <= i < frame_count a' → f i a' = Done () (both_set v i a')) →
  (∀ a', loop_effect v first hi a a' → Q () a') →
  wp (mfor (range (Z.min first (frame_count a)) hi) f) Q R a.
Proof.
  intros Ha Hf Hhi Hbody HQ. destruct (Z.le_gt_cases first (frame_count a)).
  - rewrite Z.min_l by done. by eapply mfor_both_set.
  - rewrite range_nil by lia. apply HQ. apply loop_effect_refl; [done|lia].
Qed.

Lemma mark_usable_ok {E} start end_ a R :
  wf a → 0 <= start →
  wp (E:=E) (mark_usable start end_)
    (λ _, loop_effect false (start / PAGE_SIZE) (Z.min (end_ / PAGE_SIZE) (frame_count a)) a) R a.
Proof.
  intros Ha Hs. unfold mark_usable.
  destruct (Z.leb_spec end_ start); wp_simpl.
  - apply loop_effect_refl; [done|].
    assert (end_ / PAGE_SIZE <= start / PAGE_SIZE) by (apply Z.div_le_mono; done). lia.
  - apply (clipped_loop false); [done|by apply Z.div_pos|lia| |done].
    intros. by apply mark_usable_frame_ok.
Qed.

Lemma reserve_range_ok {E} start end_ a R :
  wf a → u64 start → u64 end_ →
  wp (E:=E) (reserve_range start end_)
    (λ _ a', match align_up end_ PAGE_SIZE with
             | None => a' = a
             | Some rounded =>
               loop_effect true (start / PAGE_SIZE)
                 (Z.min (if start <? end_ then rounded / PAGE_SIZE else 0) (frame_count a)) a a'
             end) R a.
Proof.
  intros Ha Hs He. unfold reserve_range.
  assert (0 <= start / PAGE_SIZE) by (apply Z.div_pos; [apply Hs|done]).
  destruct (Z.leb_spec end_ start), (Z.ltb_spec start end_); try lia.
  - wp_simpl. destruct (align_up _ _); [|done]. apply loop_effect_refl; [done|]. lia.
  - destruct (align_up end_ PAGE_SIZE) as [rounded|]; wp_simpl; [|done].
    apply (clipped_loop true); [done|done|lia| |done].
    intros. by apply reserve_frame_ok.
Qed.

(** ** Byte ranges and frames *)

(** Frame [i] lies inside, or meets, the bytes [[lo, hi)]. *)
Definition inside (lo hi i : Z) : Prop := lo <= i * PAGE_SIZE ∧ (i + 1) * PAGE_SIZE <= hi.
Definition meets (lo hi i : Z) : Prop := i * PAGE_SIZE < hi ∧ lo < (i + 1) * PAGE_SIZE.

Lemma inside_frames lo hi s i :
  u64 lo → u64 hi → align_up lo PAGE_SIZE = Some s →
  inside lo hi i ↔ s / PAGE_SIZE <= i < align_down hi PAGE_SIZE / PAGE_SIZE.
Proof.
  intros Hlo Hhi Hs. apply align_up_spec in Hs as (? & Hsm & _); [|done..].
  destruct (align_down_spec hi PAGE_SIZE) as (? & Hem & _); [done..|].
  unfold inside, PAGE_SIZE in *. Z.div_mod_to_equations. lia.
Qed.

Lemma inside_none lo hi i : u64 hi → align_up lo PAGE_SIZE = None → ¬ inside lo hi i.
Proof.
  intros Hhi Hn%align_up_None [? ?]. unfold in_width, PAGE_SIZE in *.
  assert (i * 4096 + 4096 <= 2 ^ 64 - 4096).
  { change (2 ^ 64) with (4503599627370496 * 4096) in *. lia. }
  lia.
Qed.

Lemma meets_frames lo hi rounded i :
  u64 lo → u64 hi → lo < hi → align_up hi PAGE_SIZE = Some rounded →
  meets lo hi i ↔ lo / PAGE_SIZE <= i < rounded / PAGE_SIZE.
Proof.
  intros Hlo Hhi Hlt Hs. apply align_up_spec in Hs as (? & Hsm & _); [|done..].
  unfold meets, PAGE_SIZE in *. Z.div_mod_to_equations. lia.
Qed.

(** ** Construction *)

(** Frame [i] is backed by a usable region of the map below the limit. *)
Definition backed (maximum_address : Z) (l : list MemoryMap.MemoryRegion) (i : Z) : Prop :=
  ∃ r, r ∈ l ∧ MemoryMap.kind r = MemoryMap.Usable ∧
       inside (MemoryMap.start r) (Z.min (MemoryMap.end_ r) maximum_address) i.

Lemma mark_region_ok {E} maximum r a R :
  wf a → u64 maximum → MemoryMap.region_ok r →
  wp (E:=E) (mark_region maximum r)
    (λ _ a', wf a' ∧ frame_count a' = frame_count a ∧ next_search a' = next_search a ∧
       ∀ i, 0 <= i < frame_count a →
         (alloc_bit a' i = false ↔ alloc_bit a i = false ∨ backed maximum [r] i) ∧
         (res_bit a i = alloc_bit a i → res_bit a' i = alloc_bit a' i)) R a.
Proof.
  intros Ha Hmax (Hs & He & _).
  assert (Hmin : u64 (Z.min (MemoryMap.end_ r) maximum)) by (unfold in_width in *; lia).
  unfold mark_region. destruct (bool_decide _) eqn:Hk.
  - apply bool_decide_eq_true in Hk.
    destruct (align_up (MemoryMap.start r) PAGE_SIZE) as [s|] eqn:Hup.
    + pose proof Hup as (? & _ & ?)%align_up_spec; [|done..].
      eapply wp_mono; [apply mark_usable_ok; [done|unfold in_width in *; lia]| |done].
      intros _ a' []. split; [done|]. split; [done|]. split; [done|].
      intros i Hi. rewrite le_alloc0, le_res0 by lia.
      split; [|destruct (between _ _ i); done].
      assert (Hb : backed maximum [r] i ↔
        between (s / PAGE_SIZE)
          (Z.min (align_down (Z.min (MemoryMap.end_ r) maximum) PAGE_SIZE / PAGE_SIZE)
             (frame_count a)) i = true).
      { rewrite between_spec. unfold backed. setoid_rewrite list_elem_of_singleton.
        split.
        - intros (? & -> & _ & Hin). rewrite inside_frames in Hin by done. lia.
        - intros Hin. exists r. split; [done|]. split; [done|].
          rewrite inside_frames by done. lia. }
      rewrite Hb. destruct (between _ _ i); destruct (alloc_bit a i); naive_solver.
    + wp_simpl. split; [done|]. split; [done|]. split; [done|]. intros i Hi.
      split; [|done]. split; [by left|]. intros [|(? & ->%list_elem_of_singleton & _ & Hin)]; [done|].
      by apply inside_none in Hin.
  - wp_simpl. split; [done|]. split; [done|]. split; [done|]. intros i Hi.
    split; [|done]. split; [by left|]. intros [|(? & ->%list_elem_of_singleton & Hk' & Hin)]; [done|].
    by rewrite bool_decide_eq_true_2 in Hk.
Qed.

Lemma mark_regions_ok {E} maximum l a R :
  wf a → u64 maximum → (∀ r, r ∈ l → MemoryMap.region_ok r) →
  wp (E:=E) (mfor l (mark_region maximum))
    (λ _ a', wf a' ∧ frame_count a' = frame_count a ∧ next_search a' = next_search a ∧
       ∀ i, 0 <= i < frame_count a →
         (alloc_bit a' i = false ↔ alloc_bit a i = false ∨ backed maximum l i) ∧
         (res_bit a i = alloc_bit a i → res_bit a' i = alloc_bit a' i)) R a.
Proof.
  revert a. induction l as [|r l IH]; intros a Ha Hmax Hl; simpl; wp_simpl.
  - split; [done|]. split; [done|]. split; [done|]. intros i _. split; [|done]. split; [by left|].
    intros [|(? & Hin & _)]; [done|]. inversion Hin.
  - eapply wp_mono; [apply mark_region_ok; [done|done|apply Hl; by left]| |done].
    intros _ a1 (Hwf1 & Hc1 & Hn1 & Hb1). wp_simpl.
    eapply wp_mono; [apply IH; [done|done|intros; apply Hl; by right]| |done].
    intros _ a2 (Hwf2 & Hc2 & Hn2 & Hb2).
    split; [done|]. split; [lia|]. split; [lia|]. intros i Hi.
    destruct (Hb1 i Hi) as [Hb1' Hr1]. destruct (Hb2 i ltac:(lia)) as [Hb2' Hr2].
    split; [|by auto]. rewrite Hb2', Hb1'. unfold backed. setoid_rewrite elem_of_cons. setoid_rewrite elem_of_nil. clear. naive_solver.
Qed.

Lemma initial_wf frames :
  0 <= frames <= 2 ^ 52 →
  let words := replicate (Z.to_nat (words_for_frames frames)) (MAX 64) in
  let a := mk words words frames 0 0 in
  wf a ∧ ∀ i, 0 <= i < frames → alloc_bit a i = true.
Proof.
  intros Hf words a.
  assert (Hw : 0 <= words_for_frames frames).
  { unfold words_for_frames, div_ceil, BITS_PER_WORD. apply Z.div_pos; lia. }
  assert (Hbm : bitmap_wf frames words).
  { split; [unfold words; rewrite length_replicate; lia|]. by apply Forall_replicate. }
  assert (Hbit : ∀ i, 0 <= i < frames → alloc_bit a i = true).
  { intros i Hi. unfold alloc_bit, bit; simpl. unfold words at 1.
    destruct (word_lookup frames words i Hbm Hi) as (w & Hw' & _).
    fold words. rewrite Hw'. apply lookup_replicate in Hw' as [-> _].
    unfold MAX. replace (2 ^ 64 - 1) with (Z.ones 64) by done.
    apply Z.ones_spec_low. apply Z.mod_pos_bound. done. }
  split; [|done]. split; [split| |]; simpl; try done.
  - lia.
  - symmetry. apply count_zero. intros i Hi%elem_of_range. simpl in Hi. by rewrite Hbit.
Qed.

Lemma frame_count_of_spec maximum :
  u64 maximum →
  match frame_count_of maximum with
  | Ok frames => 0 <= frames <= 2 ^ 52 ∧ frames = div_ceil maximum PAGE_SIZE ∧
                 maximum + PAGE_SIZE - 1 < 2 ^ 64
  | Err e => e = AddressOverflow ∧ 2 ^ 64 <= maximum + PAGE_SIZE - 1
  end.
Proof.
  intros Hm. unfold frame_count_of, checked_add, div_ceil, MAX, in_width, PAGE_SIZE in *.
  destruct (Z.ltb_spec (maximum + (4096 - 1)) (2 ^ 64)).
  - destruct (Z.leb_spec ((maximum + (4096 - 1)) / 4096) (2 ^ 64 - 1)).
    + replace (maximum + 4096 - 1) with (maximum + (4096 - 1)) by lia.
      Z.div_mod_to_equations. lia.
    + Z.div_mod_to_equations. lia.
  - split; [done|lia].
Qed.

Lemma new_ok map maximum storage a0 :
  MemoryMap.wf map → u64 maximum →
  wp (new map maximum storage)
    (λ _ a, wf a ∧ frame_count a = div_ceil maximum PAGE_SIZE ∧ next_search a = 0 ∧
       (∀ i, is_free a i ↔ 0 <= i < frame_count a ∧ backed maximum (MemoryMap.regions map) i) ∧
       ∀ i, 0 <= i < frame_count a → res_bit a i = alloc_bit a i)
    (λ e a, a = a0 ∧
       match e with
       | AddressOverflow => 2 ^ 64 <= maximum + PAGE_SIZE - 1
       | StorageTooSmall =>
         Z.of_nat (length storage) < 2 * words_for_frames (div_ceil maximum PAGE_SIZE)
       | _ => False
       end) a0.
Proof.
  intros (_ & _ & Hmap) Hmax. unfold new. wp_simpl.
  pose proof (frame_count_of_spec maximum Hmax) as Hfc.
  destruct (frame_count_of maximum) as [frames|e]; [|by destruct Hfc as [-> ?]].
  destruct Hfc as (Hf & -> & _).
  destruct (Z.ltb_spec (Z.of_nat (length storage))
    (saturating_mul 64 (words_for_frames (div_ceil maximum PAGE_SIZE)) 2)) as [Hlt|]; wp_simpl.
  { split; [done|]. unfold saturating_mul in Hlt. lia. }
  destruct (initial_wf (div_ceil maximum PAGE_SIZE) Hf) as [Hwf0 Hbit0].
  eapply (wp_mono _ _ _ (λ _ _, False)); [by apply mark_regions_ok| |done].
  intros _ a (Hwf & Hc & Hn & Hb). simpl in Hc, Hb, Hn.
  split; [done|]. split; [done|]. split; [done|].
  split; [|intros i Hi; apply Hb; [by rewrite <- Hc|done]].
  intros i. unfold is_free. rewrite Hc. split; intros [Hi Hf1]; (split; [done|]).
  - apply Hb in Hf1; [|done]. destruct Hf1 as [Hf1|]; [|done]. by rewrite Hbit0 in Hf1.
  - apply Hb; [done|]. by right.
Qed.

(** ** Allocation and release *)

(** [a'] is [a] with the [n] frames from [first] taken ([v = true]) or given
    back ([v = false]), everything else the same. *)
Record moves (v : bool) (first n : Z) (a a' : t) : Prop := {
  mv_wf : wf a';
  mv_count : frame_count a' = frame_count a;
  mv_alloc j : 0 <= j → alloc_bit a' j = if between first (first + n) j then v else alloc_bit a j;
  mv_res : reserved a' = reserved a;
}.

Lemma between_one i j : between i (i + 1) j = bool_decide (j = i).
Proof.
  unfold between. destruct (Z.leb_spec i j), (Z.ltb_spec j (i + 1)); symmetry;
    (apply bool_decide_eq_true; lia) || (apply bool_decide_eq_false; lia).
Qed.

Lemma allocate_scan_ok l a :
  wf a → 0 < frame_count a → (∀ o, o ∈ l → 0 <= o < frame_count a) →
  wp (allocate_scan l)
    (λ f a', ∃ i, is_free a i ∧ f = i * PAGE_SIZE ∧ moves true i 1 a a' ∧
                  next_search a' = (i + 1) mod frame_count a ∧
                  free_frames a' = free_frames a - 1)
    (λ _ a', a' = a ∧ ∀ o, o ∈ l → alloc_bit a ((next_search a + o) mod frame_count a) = true) a.
Proof.
  intros Ha Hpos. pose proof (shape_count a Ha) as Hc. pose proof (shape_cursor a Ha) as Hn.
  induction l as [|o l IH]; intros Hl; simpl; wp_simpl.
  { split; [done|]. intros o Ho. inversion Ho. }
  assert (Ho : 0 <= o < frame_count a) by (apply Hl; left).
  apply wp_add; [lia|]. wp_simpl. apply wp_rem; [lia|]. wp_simpl.
  set (i := (next_search a + o) mod frame_count a).
  assert (Hi : 0 <= i < frame_count a) by (apply Z.mod_pos_bound; lia).
  eapply wp_eq; [apply is_allocated_ok; [apply Ha|done]|]. simpl.
  destruct (alloc_bit a i) eqn:Hbit.
  - eapply wp_mono; [apply IH; intros; apply Hl; by right|done|].
    intros _ a' [-> Hall]. split; [done|]. intros o' [->|?]%elem_of_cons; [done|auto].
  - assert (Hfree : is_free a i) by done.
    pose proof (free_count_pos a i Hfree) as Hcnt. pose proof (wf_free a Ha) as Hff.
    wp_simpl. eapply wp_eq; [apply set_allocated_ok; [apply Ha|done]|]. simpl.
    unfold dec_free. wp_simpl. apply wp_sub; [simpl; lia|]. wp_simpl.
    apply wp_add; [lia|]. wp_simpl. apply wp_rem; [lia|]. wp_simpl.
    apply wp_mul; [unfold PAGE_SIZE; lia|].
    exists i. split; [done|]. split; [done|]. split; [|done].
    assert (Hbits : ∀ j, 0 <= j →
      alloc_bit (alloc_set i true a) j = if between i (i + 1) j then true else alloc_bit a j).
    { intros j Hj. rewrite alloc_bit_set by (apply Ha || done). rewrite between_one.
      by destruct (decide (j = i)), (bool_decide_reflect (j = i)). }
    split; [|done|done|done]. split; [|simpl|].
    + pose proof (alloc_set_shape a i true Ha Hi) as []. split; try done. simpl.
      pose proof (Z.mod_pos_bound (i + 1) (frame_count a)). lia.
    + change (free_count (with_next_search _ (with_free_frames _ ?x))) with (free_count x).
      rewrite free_count_set, Hbit by (apply Ha || done). lia.
    + intros j Hj Hr. change (alloc_bit (alloc_set i true a) j = true).
      rewrite Hbits by lia. destruct (between i (i + 1) j); [done|]. by apply Ha.
Qed.

Lemma allocate_ok a :
  wf a →
  wp allocate
    (λ f a', ∃ i, is_free a i ∧ f = i * PAGE_SIZE ∧ moves true i 1 a a' ∧
                  next_search a' = (i + 1) mod frame_count a ∧
                  free_frames a' = free_frames a - 1)
    (λ _ a', a' = a ∧ free_frames a = 0 ∧ ∀ i, ¬ is_free a i) a.
Proof.
  intros Ha. pose proof (wf_free a Ha) as Hff. unfold allocate. wp_simpl.
  destruct (Z.eqb_spec (free_frames a) 0) as [H0|H0]; wp_simpl.
  { split; [done|]. split; [done|]. intros i Hi%free_count_pos. lia. }
  pose proof (free_count_bounds a Ha) as Hb.
  eapply wp_mono; [apply allocate_scan_ok; [done|lia|]|done|].
  { intros o Ho%elem_of_range. done. }
  intros _ a' [-> Hall]. exfalso.
  destruct (count_pos_inv (λ i, negb (alloc_bit a i)) (range 0 (frame_count a)))
    as (i & Hi%elem_of_range & Hbit); [unfold free_count in *; lia|].
  specialize (Hall ((i - next_search a) mod frame_count a)).
  rewrite Z.add_mod_idemp_r in Hall by lia.
  replace (next_search a + (i - next_search a)) with i in Hall by lia.
  rewrite (Z.mod_small i) in Hall by lia. rewrite Hall in Hbit; [done|].
  apply elem_of_range, Z.mod_pos_bound. lia.
Qed.

(** The loop that stores [v] in the allocation bits of [lo..hi], all of which
    hold the opposite value. *)
Record flips (v : bool) (lo hi : Z) (a a' : t) : Prop := {
  fl_shape : shape a';
  fl_count : frame_count a' = frame_count a;
  fl_res : reserved a' = reserved a;
  fl_cursor : next_search a' = next_search a;
  fl_free : free_frames a' = free_frames a;
  fl_total : free_count a' = free_count a + (if v then lo - hi else hi - lo);
  fl_bits j : 0 <= j → alloc_bit a' j = if between lo hi j then v else alloc_bit a j;
}.

Lemma set_allocated_loop {E} v lo hi a R :
  shape a → 0 <= lo <= hi → hi <= frame_count a →
  (∀ i, lo <= i < hi → alloc_bit a i = negb v) →
  wp (E:=E) (mfor (range lo hi) (λ i, set_allocated i v)) (λ _, flips v lo hi a) R a.
Proof.
  intros Ha Hlo Hhi Hbits.
  apply (wp_for_range (λ i a', lo <= i ∧ flips v lo i a a')).
  - split; [lia|]. split; try done; [destruct v; lia|].
    intros j Hj. destruct (between lo lo j) eqn:Hb; [apply between_spec in Hb; lia|done].
  - intros i a' Hi [_ []]. eapply wp_eq; [apply set_allocated_ok; [done|lia]|].
    split; [lia|]. split; try done.
    + apply alloc_set_shape; [done|lia].
    + rewrite free_count_set by (done || lia). rewrite fl_bits0 by lia.
      destruct (between lo i i) eqn:Hb; [apply between_spec in Hb; lia|].
      rewrite Hbits by lia. destruct v; simpl; lia.
    + intros j Hj. rewrite alloc_bit_set by (done || lia). rewrite fl_bits0 by done.
      unfold between. destruct (decide (j = i)) as [->|].
      * destruct (Z.leb_spec lo i), (Z.ltb_spec i (i + 1)); (done || lia).
      * destruct (Z.leb_spec lo j), (Z.ltb_spec j i), (Z.ltb_spec j (i + 1)); (done || lia).
  - intros a' [_ Hfl]. by rewrite Z.max_r in Hfl by lia.
Qed.

(** A finished loop with its count and cursor updates is a [moves]. *)
Lemma flips_moves v first n cursor a a' :
  wf a → 0 <= first → 0 < n → first + n <= frame_count a →
  (v = false → ∀ i, first <= i < first + n → res_bit a i = false) →
  flips v first (first + n) a a' → 0 <= cursor < frame_count a →
  moves v first n a
    (with_next_search cursor (with_free_frames (free_frames a + (if v then - n else n)) a')).
Proof.
  intros Ha Hf Hn Hle Hres [] Hcur. split; [|done|done|done]. split.
  - destruct fl_shape0. split; try done. simpl. lia.
  - change (free_count (with_next_search _ (with_free_frames _ ?x))) with (free_count x). simpl.
    rewrite fl_total0, (wf_free a Ha). destruct v; lia.
  - intros j Hj. simpl in Hj. change (res_bit _ j) with (bit (reserved a') j).
    change (alloc_bit _ j) with (alloc_bit a' j). rewrite fl_res0, fl_bits0 by lia.
    intros Hr. destruct (between first (first + n) j) eqn:Hb.
    + destruct v; [done|]. apply between_spec in Hb. unfold res_bit in Hres.
      rewrite Hres in Hr by done. done.
    + apply (wf_res a Ha); [lia|done].
Qed.

Definition releasable (a : t) (i : Z) : Prop := alloc_bit a i = true ∧ res_bit a i = false.

Lemma check_loop first hi a :
  wf a → 0 <= first <= hi → hi <= frame_count a →
  wp (mfor (range first hi) check_releasable)
    (λ _ a', a' = a ∧ ∀ i, first <= i < hi → releasable a i)
    (λ e a', a' = a ∧
       match e with
       | ReservedFrame => ∃ i, first <= i < hi ∧ res_bit a i = true
       | DoubleFree => ∃ i, first <= i < hi ∧ is_free a i
       | _ => False
       end) a.
Proof.
  intros Ha Hlo Hhi.
  apply (wp_for_range (λ i a', a' = a ∧ first <= i ∧ ∀ j, first <= j < i → releasable a j)).
  - split; [done|]. split; [lia|]. intros; lia.
  - intros i a' Hi (-> & _ & Hprev). unfold check_releasable. wp_simpl.
    eapply wp_eq; [apply is_reserved_ok; [apply Ha|lia]|]. cbv beta iota.
    destruct (res_bit a i) eqn:Hr; wp_simpl.
    { split; [done|]. exists i. split; [lia|done]. }
    eapply wp_eq; [apply is_allocated_ok; [apply Ha|lia]|]. cbv beta iota.
    destruct (alloc_bit a i) eqn:Hal; wp_simpl.
    + split; [done|]. split; [lia|]. intros j Hj. destruct (decide (j = i)) as [->|]; [done|].
      apply Hprev. lia.
    + split; [done|]. exists i. split; [lia|]. split; [lia|done].
  - intros a' (-> & _ & Hall). by rewrite Z.max_r in Hall by lia.
Qed.

Lemma deallocate_contiguous_ok f n a :
  wf a → u64 f → u64 n →
  let first := f / PAGE_SIZE in
  wp (deallocate_contiguous f n)
    (λ _ a', 0 < n ∧ f mod PAGE_SIZE = 0 ∧ first + n <= frame_count a ∧
       (∀ i, first <= i < first + n → releasable a i) ∧
       moves false first n a a' ∧ next_search a' = first ∧ free_frames a' = free_frames a + n)
    (λ e a', a' = a ∧
       match e with
       | InvalidFrameCount => n = 0
       | UnalignedFrame => f mod PAGE_SIZE ≠ 0
       | FrameOutOfRange => frame_count a < first + n
       | ReservedFrame => ∃ i, first <= i < first + n ∧ res_bit a i = true
       | DoubleFree => ∃ i, first <= i < first + n ∧ is_free a i
       | _ => False
       end) a.
Proof.
  intros Ha Hf Hn first. pose proof (shape_count a Ha) as Hc. unfold deallocate_contiguous.
  destruct (Z.eqb_spec n 0); wp_simpl; [done|].
  unfold PhysicalAddress.is_page_aligned.
  replace (Z.land f (PAGE_SIZE - 1)) with (f mod PAGE_SIZE) by (symmetry; by apply (land_pow2_mask 12)).
  destruct (Z.eqb_spec (f mod PAGE_SIZE) 0); simpl negb; cbv iota; wp_simpl; [|done].
  fold first. assert (0 <= first) by (apply Z.div_pos; [apply Hf|done]).
  unfold checked_add, in_width in *.
  destruct (Z.ltb_spec (first + n) (2 ^ 64)) as [|Hge]; wp_simpl; [|split; [done|lia]].
  destruct (Z.leb_spec (first + n) (frame_count a)) as [Hle|Hgt]; wp_simpl; [|done].
  eapply wp_mono; [apply check_loop; [done|lia|done]| |by intros [] a' [-> ?]]. cbv beta.
  intros _ a' [-> Hall]. wp_simpl.
  eapply (wp_mono _ _ _ (λ _ _, False)); [apply set_allocated_loop; [apply Ha|lia|done|]| |done].
  { intros i Hi. by apply Hall. }
  intros [] a' Hfl. unfold inc_free. wp_simpl. pose proof (fl_free _ _ _ _ _ Hfl) as Hff.
  pose proof (free_count_bounds a Ha). pose proof (wf_free a Ha).
  apply wp_add; [lia|]. wp_simpl.
  split; [lia|]. split; [done|]. split; [done|]. split; [done|]. split; [|simpl; lia].
  rewrite Hff. apply (flips_moves false); try done; try lia.
  intros _ i Hi. by apply Hall.
Qed.

(** ** Contiguous runs *)

(** An aligned run of [n] free frames at [c]. *)
Definition fits (a : t) (n alignment c : Z) : Prop :=
  0 <= c ∧ c mod alignment = 0 ∧ c + n <= frame_count a ∧
  ∀ i, c <= i < c + n → alloc_bit a i = false.

Lemma find_occupied_ok lo hi a R :
  shape a → 0 <= lo <= hi → hi <= frame_count a →
  wp (find_occupied (range lo hi))
    (λ r a', a' = a ∧
       match r with
       | Some o => lo <= o < hi ∧ alloc_bit a o = true
       | None => ∀ i, lo <= i < hi → alloc_bit a i = false
       end) R a.
Proof.
  intros Ha. remember (Z.to_nat (hi - lo)) as n eqn:Hn. revert lo Hn.
  induction n as [|n IH]; intros lo Hn Hlo Hhi.
  - rewrite range_nil by lia. split; [done|]. intros; lia.
  - rewrite range_cons by lia. simpl. wp_simpl.
    eapply wp_eq; [apply is_allocated_ok; [done|lia]|]. cbv beta iota.
    destruct (alloc_bit a lo) eqn:Hbit; wp_simpl; [split; [done|]; split; [lia|done]|].
    eapply (wp_mono _ _ _ R); [apply IH; lia| |done].
    intros [o|] a' [-> Ho]; (split; [done|]); [split; [lia|apply Ho]|].
    intros i Hi. destruct (decide (i = lo)) as [->|]; [done|]. apply Ho. lia.
Qed.

Lemma pow2_half al : is_power_of_two al = true → u64 al → 0 < al <= 2 ^ 63.
Proof.
  intros Hp Hw. split; [by apply pow2_pos|]. apply is_power_of_two_spec in Hp as (k & Hk & ->).
  apply Z.pow_le_mono_r; [lia|]. destruct Hw as [_ Hw].
  apply (Z.pow_lt_mono_r_iff 2) in Hw; lia.
Qed.

Lemma align_up_small v al :
  is_power_of_two al = true → u64 al → 0 <= v <= 2 ^ 53 → ∃ r, align_up v al = Some r.
Proof.
  intros Hp Hw Hv. destruct (align_up v al) as [r|] eqn:Hr; [by exists r|].
  apply align_up_None in Hr. pose proof (pow2_half al Hp Hw). lia.
Qed.

Lemma find_contiguous_loop_ok fuel c n al a :
  shape a → is_power_of_two al = true → u64 al → 0 < n → 0 <= c → c mod al = 0 →
  frame_count a - c < Z.of_nat fuel → (0 < fuel)%nat →
  wp (find_contiguous_loop fuel c n al)
    (λ c' a', a' = a ∧ c <= c' ∧ fits a n al c')
    (λ _ a', a' = a ∧ ∀ c', c <= c' → ¬ fits a n al c') a.
Proof.
  intros Ha Hp Hw Hn. revert c. pose proof (shape_count a Ha) as Hc.
  induction fuel as [|fuel IH]; intros c Hc0 Hmod Hfuel Hpos; [lia|]. simpl. wp_simpl.
  unfold checked_add. destruct (Z.ltb_spec (c + n) (2 ^ 64)) as [|]; wp_simpl.
  2:{ split; [done|]. intros c' ? (_ & _ & ? & _). lia. }
  destruct (Z.ltb_spec (frame_count a) (c + n)) as [|Hle]; wp_simpl.
  { split; [done|]. intros c' ? (_ & _ & ? & _). lia. }
  eapply (wp_mono _ _ _ (λ _ _, False)); [apply find_occupied_ok; [done|lia|lia]| |done].
  intros [o|] a' [-> Ho]; wp_simpl; [|split; [done|]; split; [lia|done]].
  destruct Ho as [Ho Hbit]. apply wp_add; [lia|]. wp_simpl.
  destruct (align_up_small (o + 1) al Hp Hw ltac:(lia)) as [r Hr].
  assert (Hr' := Hr). unfold align_up_index. rewrite Hr.
  apply align_up_spec in Hr as (? & ? & _); [|done|done|unfold in_width; lia].
  eapply wp_mono; [apply IH; lia| |].
  - intros c' a' (-> & ? & ?). split; [done|]. split; [lia|done].
  - intros _ a' [-> Hnone]. split; [done|]. intros c' Hc' Hfit.
    apply (Hnone c'); [|done]. destruct Hfit as (? & ? & ? & Hrun).
    apply (align_up_least (o + 1) al r c'); try done; [unfold in_width; lia|].
    destruct (Z.le_gt_cases (o + 1) c'); [done|]. rewrite Hrun in Hbit by lia. done.
Qed.

Lemma find_contiguous_ok start n al a :
  shape a → is_power_of_two al = true → u64 al → 0 < n → 0 <= start <= frame_count a →
  wp (find_contiguous start n al)
    (λ c a', a' = a ∧ start <= c ∧ fits a n al c)
    (λ _ a', a' = a ∧ ∀ c, start <= c → ¬ fits a n al c) a.
Proof.
  intros Ha Hp Hw Hn Hs. pose proof (shape_count a Ha) as Hc. unfold find_contiguous. wp_simpl.
  destruct (align_up_small start al Hp Hw ltac:(lia)) as [r Hr].
  assert (Hr' := Hr). unfold align_up_index. rewrite Hr.
  apply align_up_spec in Hr as (? & ? & _); [|done|done|unfold in_width; lia].
  eapply wp_mono; [apply find_contiguous_loop_ok; try done; lia| |].
  - intros c a' (-> & ? & ?). split; [done|]. split; [lia|done].
  - intros _ a' [-> Hnone]. split; [done|]. intros c Hcs Hfit. apply (Hnone c); [|done].
    destruct Hfit as (? & ? & _).
    apply (align_up_least start al r c); try done. unfold in_width; lia.
Qed.

Lemma fits_free_count a n al c : shape a → 0 < n → fits a n al c → n <= free_count a.
Proof.
  intros Ha Hn (? & _ & ? & Hrun).
  pose proof (set_allocated_loop (E:=unit) true c (c + n) a (λ _ _, False) Ha ltac:(lia) ltac:(lia) Hrun) as Hwp.
  unfold wp in Hwp. destruct (mfor _ _ a) as [[] a'| |]; [|done|done].
  destruct Hwp. pose proof (free_count_bounds a' fl_shape0). lia.
Qed.

Definition run_taken (a : t) (n al : Z) (f : PhysicalAddress) (a' : t) : Prop :=
  ∃ c, 0 < n ∧ is_power_of_two al = true ∧ fits a n al c ∧ f = c * PAGE_SIZE ∧
       moves true c n a a' ∧ next_search a' = (c + n) mod frame_count a ∧
       free_frames a' = free_frames a - n.

Lemma take_run_ok n al c a R :
  wf a → 0 < n → is_power_of_two al = true → fits a n al c →
  wp (take_run c n) (run_taken a n al) R a.
Proof.
  intros Ha Hn Hp Hfit. pose proof Hfit as (Hc0 & _ & Hcn & Hrun).
  pose proof (shape_count a Ha) as Hc. pose proof (wf_free a Ha) as Hff.
  pose proof (fits_free_count a n al c Ha Hn Hfit). unfold take_run. wp_simpl.
  apply wp_add; [lia|]. wp_simpl.
  eapply (wp_mono _ _ _ (λ _ _, False)); [by apply set_allocated_loop; [apply Ha|lia..|]| |done].
  intros [] a' Hfl. unfold dec_free. wp_simpl. pose proof (fl_free _ _ _ _ _ Hfl) as Hff'.
  apply wp_sub; [lia|]. wp_simpl. apply wp_rem; [lia|]. wp_simpl.
  apply wp_mul; [unfold PAGE_SIZE; lia|].
  exists c. do 4 (split; [done|]). split; [|simpl; rewrite Hff'; done].
  rewrite Hff'. apply (flips_moves true); try done; try lia.
  apply Z.mod_pos_bound. lia.
Qed.

Lemma allocate_contiguous_ok n al a :
  wf a → u64 n → u64 al →
  wp (allocate_contiguous n al) (run_taken a n al)
    (λ _ a', a' = a ∧ (n = 0 ∨ is_power_of_two al = false ∨ ∀ c, ¬ fits a n al c)) a.
Proof.
  intros Ha Hn Hal. pose proof (shape_count a Ha) as Hc. pose proof (wf_free a Ha) as Hff.
  pose proof (shape_cursor a Ha) as Hcur. unfold allocate_contiguous. wp_simpl.
  destruct ((n =? 0) || (al =? 0) || negb (is_power_of_two al) || (free_frames a <? n)) eqn:Hg;
    wp_simpl.
  { split; [done|]. destruct (Z.eqb_spec n 0); [by left|]. right.
    destruct (is_power_of_two al) eqn:Hp; [|by left]. right. intros c Hfit.
    apply fits_free_count in Hfit; [|apply Ha|unfold in_width in *; lia].
    pose proof (pow2_pos al Hp). simpl in Hg.
    destruct (Z.eqb_spec al 0), (Z.ltb_spec (free_frames a) n); try lia; done. }
  bool_to_prop. assert (0 < n) by (unfold in_width in *; lia).
  pose proof (free_count_bounds a Ha).
  eapply wp_mono; [apply find_contiguous_ok; try done; [apply Ha|lia]| |].
  - intros c a' (-> & _ & Hfit). wp_simpl. by apply take_run_ok.
  - intros _ a' [-> _]. wp_simpl.
    eapply wp_mono; [apply find_contiguous_ok; try done; [apply Ha|lia]| |].
    + intros c a' (-> & _ & Hfit). by apply take_run_ok.
    + intros _ a' [-> Hnone]. split; [done|]. right. right. intros c Hfit.
      apply (Hnone c); [apply Hfit|done].
Qed.

End FrameOps.

(** ** The interface, discharged *)

Module FrameLaws.
Import BitmapFrameAllocator FrameFacts FrameOps.

Definition free_address (a : t) (f : PhysicalAddress) : Prop :=
  f mod PAGE_SIZE = 0 ∧ is_free a (f / PAGE_SIZE).

Lemma moves_free v first n a a' i :
  moves v first n a a' →
  is_free a' i ↔ 0 <= i < frame_count a ∧ (if between first (first + n) i then v else alloc_bit a i) = false.
Proof.
  intros []. unfold is_free. rewrite mv_count0. split; intros [Hi H]; (split; [done|]);
    rewrite mv_alloc0 in *; (done || lia).
Qed.

Lemma allocate_law a :
  wf a →
  wp allocate
    (λ f a', wf a' ∧ f mod PAGE_SIZE = 0 ∧ u64 (f + PAGE_SIZE - 1) ∧
             free_address a f ∧ ¬ free_address a' f ∧
             ∀ g, g ≠ f → free_address a' g ↔ free_address a g)
    (λ _ a', a' = a ∧ ∀ f, ¬ free_address a f) a.
Proof.
  intros Ha. pose proof (shape_count a Ha) as Hc. eapply wp_mono; [by apply allocate_ok| |].
  - intros f a' (i & Hfree & -> & Hmv & _). pose proof Hfree as [Hi _].
    assert (Hdiv : i * PAGE_SIZE / PAGE_SIZE = i) by (apply Z.div_mul; done).
    unfold free_address. rewrite Hdiv.
    split; [apply Hmv|]. split; [by apply Z_mod_mult|].
    split; [unfold in_width, PAGE_SIZE; lia|]. split; [split; [by apply Z_mod_mult|done]|].
    split.
    + intros [_ Hf]. rewrite (moves_free _ _ _ _ _ _ Hmv), between_one in Hf.
      rewrite bool_decide_eq_true_2 in Hf by done. by destruct Hf.
    + intros g Hg. rewrite (moves_free _ _ _ _ _ _ Hmv), between_one.
      split; intros [Hm Hf]; (split; [done|]).
      * rewrite bool_decide_eq_false_2 in Hf; [done|].
        intros <-. apply Hg. unfold PAGE_SIZE in *. Z.div_mod_to_equations. lia.
      * rewrite bool_decide_eq_false_2; [done|].
        intros <-. apply Hg. unfold PAGE_SIZE in *. Z.div_mod_to_equations. lia.
  - intros _ a' (-> & _ & Hnone). split; [done|]. intros f [_ Hf]. by apply (Hnone _ Hf).
Qed.

Lemma deallocate_law a f :
  wf a → u64 f →
  wp (deallocate_frame f)
    (λ _ a', wf a' ∧ ∀ g, g ≠ f → free_address a' g ↔ free_address a g) (λ _ _, False) a.
Proof.
  intros Ha Hf. simpl. wp_simpl. unfold deallocate.
  eapply wp_mono; [by apply deallocate_contiguous_ok| |].
  - intros [] a' (_ & Hmod & _ & _ & Hmv & _). wp_simpl. split; [apply Hmv|].
    intros g Hg. unfold free_address. rewrite (moves_free _ _ _ _ _ _ Hmv), between_one.
    split; intros [Hm H]; (split; [done|]).
    + rewrite bool_decide_eq_false_2 in H; [done|].
      intros Heq. apply Hg. unfold PAGE_SIZE in *. Z.div_mod_to_equations. lia.
    + rewrite bool_decide_eq_false_2; [done|].
      intros Heq. apply Hg. unfold PAGE_SIZE in *. Z.div_mod_to_equations. lia.
  - intros e a' [-> _]. by wp_simpl.
Qed.

#[global] Instance frame_laws : FrameAllocatorLaws t := {
  frame_wf := wf;
  frame_free := free_address;
  allocate_frame_law := allocate_law;
  deallocate_frame_law := deallocate_law;
}.

End FrameLaws.

(** ** The shared frame pool *)

Module FramePool.
Import BitmapFrameAllocator FrameFacts FrameOps.

(** [PhysicalFramePool]: every method takes the spin lock for exactly one call
    of the allocator, so a run of the machine is a sequence of such calls. *)
Inductive call :=
| Allocate
| AllocateContiguous (frame_count alignment_frames : Z)
| Release (frame : PhysicalAddress)
| ReleaseContiguous (first_frame : PhysicalAddress) (frame_count : Z).

Inductive reply :=
| Granted (first n : Z)
| Refused
| Returned (r : result unit FrameAllocatorError).

Definition serve (c : call) : M t Empty_set reply :=
  match c with
  | Allocate =>
    r ← attempt allocate;
    mret (match r with Ok f => Granted (f / PAGE_SIZE) 1 | Err _ => Refused end)
  | AllocateContiguous n al =>
    r ← attempt (allocate_contiguous n al);
    mret (match r with Ok f => Granted (f / PAGE_SIZE) n | Err _ => Refused end)
  | Release f => r ← attempt (deallocate f); mret (Returned r)
  | ReleaseContiguous f n => r ← attempt (deallocate_contiguous f n); mret (Returned r)
  end.

(** Who holds which frame: a ghost ledger the pool's clients keep together. *)
Abbreviation ledger := (gmap Z nat).

Definition holds (L : ledger) (o : nat) (first n : Z) : Prop :=
  ∀ i, first <= i < first + n → L !! i = Some o.
Definition assign (L : ledger) (v : option nat) (first n : Z) (L' : ledger) : Prop :=
  ∀ i, L' !! i = if between first (first + n) i then v else L !! i.

(** The arguments are machine words, and a client gives back only what it holds. *)
Definition admissible (L : ledger) (o : nat) (c : call) : Prop :=
  match c with
  | Allocate => True
  | AllocateContiguous n al => u64 n ∧ u64 al
  | Release f => u64 f ∧ holds L o (f / PAGE_SIZE) 1
  | ReleaseContiguous f n => u64 f ∧ u64 n ∧ holds L o (f / PAGE_SIZE) n
  end.

(** How a reply changes the ledger. *)
Definition settle (L : ledger) (o : nat) (c : call) (r : reply) (L' : ledger) : Prop :=
  match c, r with
  | _, Granted first n => assign L (Some o) first n L'
  | Release f, Returned (Ok _) => assign L None (f / PAGE_SIZE) 1 L'
  | ReleaseContiguous f n, Returned (Ok _) => assign L None (f / PAGE_SIZE) n L'
  | _, _ => L' = L
  end.

Inductive step : t * ledger → t * ledger → Prop :=
| step_call a L o c r a' L' :
    admissible L o c → serve c a = Done r a' → settle L o c r L' → step (a, L) (a', L').

(** The frames held by somebody are exactly those the bitmaps call allocated
    and not reserved. *)
Definition ledger_ok (a : t) (L : ledger) : Prop :=
  wf a ∧ ∀ i, is_Some (L !! i) ↔ 0 <= i < frame_count a ∧ releasable a i.

Lemma moves_releasable v first n a a' i :
  moves v first n a a' → 0 <= i →
  (∀ i, first <= i < first + n → res_bit a i = false) →
  releasable a' i ↔ if between first (first + n) i then v = true else releasable a i.
Proof.
  intros [] Hi Hres. unfold releasable, res_bit. rewrite mv_res0, mv_alloc0 by done.
  destruct (between first (first + n) i) eqn:Hb; [|done].
  apply between_spec, Hres in Hb. unfold res_bit in Hb. rewrite Hb. tauto.
Qed.

Lemma assign_ledger_ok v first n a a' L L' :
  moves (bool_decide (is_Some v)) first n a a' → ledger_ok a L → 0 <= first → first + n <= frame_count a →
  (∀ i, first <= i < first + n → res_bit a i = false) →
  assign L v first n L' → ledger_ok a' L'.
Proof.
  intros Hmv [Hwf HL] Hf Hn Hres Hassign. split; [apply Hmv|]. intros i.
  rewrite (Hassign i), (mv_count _ _ _ _ _ Hmv).
  destruct (between first (first + n) i) eqn:Hb.
  - apply between_spec in Hb as Hb'.
    rewrite (moves_releasable _ _ _ _ _ _ Hmv) by (done || lia). rewrite Hb, bool_decide_eq_true.
    split; [intros; split; [lia|done]|tauto].
  - rewrite HL. split; intros [? Hr]; (split; [done|]).
    + rewrite (moves_releasable _ _ _ _ _ _ Hmv) by (done || lia). by rewrite Hb.
    + rewrite (moves_releasable _ _ _ _ _ _ Hmv) in Hr by (done || lia). by rewrite Hb in Hr.
Qed.

(** A free frame is neither reserved nor in the ledger. *)
Lemma free_unheld a L i : ledger_ok a L → is_free a i → res_bit a i = false ∧ L !! i = None.
Proof.
  intros [Hwf HL] [Hi Hfree]. split.
  - destruct (res_bit a i) eqn:Hr; [|done]. apply (wf_res a Hwf) in Hr; [congruence|done].
  - apply eq_None_not_Some. rewrite HL. intros [_ [Hal _]]. congruence.
Qed.

Lemma step_granted a L o c first n a' :
  ledger_ok a L → admissible L o c → serve c a = Done (Granted first n) a' →
  moves true first n a a' ∧ 0 <= first ∧ first + n <= frame_count a ∧
  ∀ i, first <= i < first + n → is_free a i.
Proof.
  intros [Hwf _] Hadm Hserve.
  assert (wp (serve c) (λ r a', r = Granted first n →
    moves true first n a a' ∧ 0 <= first ∧ first + n <= frame_count a ∧
    ∀ i, first <= i < first + n → is_free a i) (λ _ _, False) a) as Hwp.
  { destruct c as [|n' al|f|f n']; simpl in Hadm; unfold serve; wp_simpl.
    - eapply wp_mono; [by apply allocate_ok| |].
      + intros f a1 (i & Hfree & -> & Hmv & _). wp_simpl. rewrite Z.div_mul by done.
        intros [= <- <-]. pose proof Hfree as [? _]. split; [done|]. split; [lia|]. split; [lia|].
        intros j ?. by replace j with i by lia.
      + intros e a1 _. by wp_simpl.
    - destruct Hadm. eapply wp_mono; [by apply allocate_contiguous_ok| |].
      + intros f a1 (c & _ & _ & Hfit & -> & Hmv & _). wp_simpl. rewrite Z.div_mul by done.
        intros [= <- <-]. destruct Hfit as (? & _ & ? & Hrun). split; [done|]. split; [done|].
        split; [done|]. intros j ?. split; [lia|auto].
      + intros e a1 _. by wp_simpl.
    - destruct Hadm. eapply wp_mono; [by apply deallocate_contiguous_ok| |]; intros; by wp_simpl.
    - destruct Hadm as (? & ? & ?).
      eapply wp_mono; [by apply deallocate_contiguous_ok| |]; intros; by wp_simpl. }
  by apply (wp_Done _ _ _ _ _ _ Hwp Hserve).
Qed.

Lemma release_settles f n a L o :
  ledger_ok a L → u64 f → u64 n → holds L o (f / PAGE_SIZE) n →
  wp (deallocate_contiguous f n)
    (λ _ a', moves false (f / PAGE_SIZE) n a a' ∧ 0 <= f / PAGE_SIZE ∧
             f / PAGE_SIZE + n <= frame_count a)
    (λ e a', a' = a ∧ (n = 0 ∨ f mod PAGE_SIZE ≠ 0)) a.
Proof.
  intros [Hwf HL] Hf Hn Hholds.
  assert (0 <= f / PAGE_SIZE) by (apply Z.div_pos; [apply Hf|done]).
  assert (Hown : ∀ i, f / PAGE_SIZE <= i < f / PAGE_SIZE + n → i < frame_count a ∧ releasable a i).
  { intros i Hi. apply Hholds in Hi as Hl. destruct (proj1 (HL i)); [by rewrite Hl|]. split; [lia|done]. }
  eapply wp_mono; [by apply deallocate_contiguous_ok| |].
  - intros _ a' (_ & _ & ? & _ & ? & _). done.
  - intros e a' [-> He]. split; [done|]. destruct (Z.eq_dec n 0) as [|Hn0]; [by left|]. right.
    unfold in_width in *. destruct e; try done.
    + destruct (Hown (f / PAGE_SIZE + n - 1)); lia.
    + destruct He as (i & Hi & Hr). destruct (Hown i Hi) as [_ [_ ?]]. congruence.
    + destruct He as (i & Hi & [_ Hr]). destruct (Hown i Hi) as [_ [? _]]. congruence.
Qed.

(** A release as the pool replies to it, with the matching ledger. *)
Lemma release_preserves f n a L o res a' L' :
  ledger_ok a L → u64 f → u64 n → holds L o (f / PAGE_SIZE) n →
  (r ← attempt (deallocate_contiguous f n); mret (Returned r) : M t Empty_set reply) a
    = Done (Returned res) a' →
  match res with Ok _ => assign L None (f / PAGE_SIZE) n L' | Err _ => L' = L end →
  ledger_ok a' L'.
Proof.
  intros Hok Hf Hn Hh Hrun Hres.
  pose proof (release_settles f n a L o Hok Hf Hn Hh) as Hwp. revert Hrun.
  unfold mbind, M_bind, attempt, wp in *.
  destruct (deallocate_contiguous f n a) as [[] a1|e a1|]; [| |done]; intros [= <- <-].
  - destruct Hwp as (Hmv & ? & ?). eapply (assign_ledger_ok None); try done.
    intros i Hi. apply Hh in Hi. destruct Hok as [_ HL].
    destruct (proj1 (HL i)) as [_ [_ ?]]; [by rewrite Hi|done].
  - destruct Hwp as [-> _]. by subst.
Qed.

Lemma step_refused a L o c a' :
  ledger_ok a L → admissible L o c → serve c a = Done Refused a' → a' = a.
Proof.
  intros [Hwf _] Hadm Hserve.
  assert (wp (serve c) (λ r a', r = Refused → a' = a) (λ _ _, False) a) as Hwp.
  { destruct c as [|n' al|f|f n']; simpl in Hadm; unfold serve; wp_simpl.
    - eapply wp_mono; [by apply allocate_ok| |]; intros; wp_simpl; naive_solver.
    - destruct Hadm. eapply wp_mono; [by apply allocate_contiguous_ok| |]; intros; wp_simpl; naive_solver.
    - destruct Hadm. eapply wp_mono; [by apply deallocate_contiguous_ok| |]; intros; by wp_simpl.
    - destruct Hadm as (? & ? & ?).
      eapply wp_mono; [by apply deallocate_contiguous_ok| |]; intros; by wp_simpl. }
  by apply (wp_Done _ _ _ _ _ _ Hwp Hserve).
Qed.

Lemma step_preserves s s' :
  step s s' → ledger_ok s.1 s.2 → ledger_ok s'.1 s'.2.
Proof.
  intros [a L o c r a' L' Hadm Hserve Hset] Hok; simpl in *.
  destruct r as [first n| |res].
  - destruct (step_granted a L o c first n a') as (Hmv & ? & ? & Hfree); [done..|].
    assert (assign L (Some o) first n L') by (by destruct c).
    eapply (assign_ledger_ok (Some o)); try done.
    intros i Hi. by eapply free_unheld; [|apply Hfree].
  - assert (L' = L) as -> by (by destruct c). by rewrite (step_refused a L o c a').
  - destruct c as [|n' al|f|f n']; simpl in Hadm.
    + exfalso. revert Hserve. unfold serve, mbind, M_bind, attempt.
      destruct (allocate a); unfold mret, M_ret; congruence.
    + exfalso. revert Hserve. unfold serve, mbind, M_bind, attempt.
      destruct (allocate_contiguous n' al a); unfold mret, M_ret; congruence.
    + destruct Hadm. eapply (release_preserves f 1); try done; by destruct res.
    + destruct Hadm as (? & ? & ?). eapply (release_preserves f n'); try done; by destruct res.
Qed.

End FramePool.

(** ** Properties *)

Module FrameProperties.
Import BitmapFrameAllocator FrameFacts FrameOps FramePool.

(** [new] succeeds whenever the limit and the storage allow it, and the
    frames free afterwards are exactly those that lie wholly inside a usable
    region of the memory map below the limit. *)
Theorem new_opens_usable_frames map maximum storage a0 :
  MemoryMap.wf map → u64 maximum → maximum + PAGE_SIZE - 1 < 2 ^ 64 →
  2 * words_for_frames (div_ceil maximum PAGE_SIZE) <= Z.of_nat (length storage) →
  ∃ a, new map maximum storage a0 = Done () a ∧ wf a ∧
    frame_count a = div_ceil maximum PAGE_SIZE ∧
    ∀ i, is_free a i ↔ 0 <= i < frame_count a ∧ backed maximum (MemoryMap.regions map) i.
Proof.
  intros Hmap Hmax Hfit Hst. destruct (wp_total (new map maximum storage)
    (λ _ a, wf a ∧ frame_count a = div_ceil maximum PAGE_SIZE ∧
       ∀ i, is_free a i ↔ 0 <= i < frame_count a ∧ backed maximum (MemoryMap.regions map) i) a0)
    as ([] & a & Hrun & Ha); [|by exists a].
  eapply wp_mono; [by apply new_ok|naive_solver|].
  intros e a [-> He]. destruct e; (done || lia).
Qed.

(** C39: [reserve_range] takes every managed frame that meets the byte range out
    of circulation for good and leaves all others alone; when the end of the
    range is within a page of [2^64] it reserves nothing at all. *)
Theorem reserve_range_exact a start end_ :
  wf a → u64 start → u64 end_ → start < end_ →
  ∃ a', reserve_range (E:=Empty_set) start end_ a = Done () a' ∧
    if end_ + (PAGE_SIZE - 1) <? 2 ^ 64 then
      wf a' ∧ frame_count a' = frame_count a ∧
      ∀ i, 0 <= i < frame_count a →
        (meets start end_ i → res_bit a' i = true ∧ ¬ is_free a' i) ∧
        (¬ meets start end_ i → res_bit a' i = res_bit a i ∧ (is_free a' i ↔ is_free a i))
    else a' = a.
Proof.
  intros Ha Hs He Hlt.
  destruct (wp_total _ _ _ (reserve_range_ok (E:=Empty_set) start end_ a (λ _ _, False) Ha Hs He))
    as ([] & a' & Hrun & Ha'). exists a'. split; [done|].
  destruct (align_up end_ PAGE_SIZE) as [rounded|] eqn:Hup.
  - destruct (Z.ltb_spec (end_ + (PAGE_SIZE - 1)) (2 ^ 64)) as [_|Hge].
    2:{ by rewrite (proj2 (align_up_None end_ PAGE_SIZE)) in Hup. }
    destruct (Z.ltb_spec start end_); [|lia]. destruct Ha'.
    split; [done|]. split; [done|]. intros i Hi.
    rewrite (meets_frames start end_ rounded) by done.
    unfold is_free. rewrite le_count0, le_res0, le_alloc0 by lia.
    destruct (between _ _ i) eqn:Hb.
    + apply between_spec in Hb. split; [|lia]. intros _. by split; [|intros [_ ?]].
    + apply between_spec_false in Hb. split; [lia|done].
  - apply align_up_None in Hup. by destruct (Z.ltb_spec (end_ + (PAGE_SIZE - 1)) (2 ^ 64)); [lia|].
Qed.

(** [allocate] never panics; it hands out one frame that was free and not
    reserved, changes nothing else, and refuses only when no frame is free. *)
Theorem allocate_correct a :
  wf a →
  (∃ i a', allocate a = Done (i * PAGE_SIZE) a' ∧ is_free a i ∧ res_bit a i = false ∧
           moves true i 1 a a' ∧ free_frames a' = free_frames a - 1) ∨
  (allocate a = Fail () a ∧ ∀ i, ¬ is_free a i).
Proof.
  intros Ha. pose proof (allocate_ok a Ha) as Hwp. unfold wp in Hwp.
  destruct (allocate a) as [f a'|[] a'|]; [left|right|done].
  - destruct Hwp as (i & Hf & -> & Hmv & _ & ?). exists i, a'. split; [done|]. split; [done|].
    split; [|done]. destruct Hf as [Hi Hf].
    destruct (res_bit a i) eqn:Hr; [|done]. apply (wf_res a Ha) in Hr; congruence.
  - destruct Hwp as (-> & _ & ?). done.
Qed.

(** for a request of at least one frame and a power-of-two alignment,
    [allocate_contiguous] terminates with an aligned run of free frames, which
    become allocated while nothing else changes, exactly when the bitmap has
    such a run anywhere. *)
Theorem allocate_contiguous_correct a n al :
  wf a → u64 n → u64 al → 0 < n → is_power_of_two al = true →
  (∃ c a', allocate_contiguous n al a = Done (c * PAGE_SIZE) a' ∧ fits a n al c ∧
           moves true c n a a' ∧ free_frames a' = free_frames a - n) ∨
  (allocate_contiguous n al a = Fail () a ∧ ∀ c, ¬ fits a n al c).
Proof.
  intros Ha Hn Hal Hpos Hp. pose proof (allocate_contiguous_ok n al a Ha Hn Hal) as Hwp.
  unfold wp in Hwp. destruct (allocate_contiguous n al a) as [f a'|[] a'|]; [left|right|done].
  - destruct Hwp as (c & _ & _ & Hfit & -> & Hmv & _ & ?). by exists c, a'.
  - destruct Hwp as [-> [->|[?|?]]]; [lia|congruence|done].
Qed.

(** [deallocate_contiguous] is all or nothing: it frees exactly the given
    run when every frame of it is in range, allocated and not reserved, and
    otherwise reports an error and leaves every bit, the count and the cursor
    as they were. *)
Theorem deallocate_contiguous_atomic a f n :
  wf a → u64 f → u64 n →
  let first := f / PAGE_SIZE in
  let legal := 0 < n ∧ f mod PAGE_SIZE = 0 ∧ first + n <= frame_count a ∧
               ∀ i, first <= i < first + n → releasable a i in
  (legal ∧ ∃ a', deallocate_contiguous f n a = Done () a' ∧ moves false first n a a' ∧
                 free_frames a' = free_frames a + n) ∨
  (¬ legal ∧ ∃ e, deallocate_contiguous f n a = Fail e a).
Proof.
  intros Ha Hf Hn first legal. pose proof (deallocate_contiguous_ok f n a Ha Hf Hn) as Hwp.
  cbv zeta in Hwp. fold first in Hwp. unfold wp in Hwp.
  destruct (deallocate_contiguous f n a) as [[] a'|e a'|]; [left|right|done].
  - destruct Hwp as (? & ? & ? & ? & ? & _ & ?). split; [done|]. by exists a'.
  - destruct Hwp as [-> He]. split; [|by exists e]. intros (? & ? & ? & Hall).
    destruct e; try done; try lia; destruct He as (i & Hi & He).
    + destruct (Hall i Hi). congruence.
    + destruct (Hall i Hi), He. congruence.
Qed.

(** C7: however clients interleave their calls, the shared pool never gives a
    frame to two of them: from boot on, the frames held are exactly those
    marked allocated and unreserved, every new grant consists of frames nobody
    holds, and a client can always give back an aligned run it holds. *)
Theorem pool_frames_exclusive map maximum storage b a0 a L :
  MemoryMap.wf map → u64 maximum → new map maximum storage b = Done () a0 →
  rtc step (a0, ∅) (a, L) →
  ledger_ok a L ∧
  (∀ o c first n a', admissible L o c → serve c a = Done (Granted first n) a' →
     ∀ i, first <= i < first + n → L !! i = None ∧ res_bit a i = false) ∧
  (∀ o f n, u64 f → u64 n → holds L o (f / PAGE_SIZE) n → 0 < n → f mod PAGE_SIZE = 0 →
     ∃ a', deallocate_contiguous f n a = Done () a').
Proof.
  intros Hmap Hmax Hnew Hsteps.
  assert (Hok0 : ledger_ok a0 ∅).
  { pose proof (wp_Done _ _ _ _ _ _ (new_ok map maximum storage b Hmap Hmax) Hnew)
      as (Hwf & _ & _ & _ & Hres). split; [done|]. intros i. rewrite lookup_empty.
    split; [by intros []|]. intros [Hi [Hal Hr]]. rewrite Hres in Hr by done. congruence. }
  assert (Hok : ledger_ok a L).
  { by apply (rtc_invariant _ (λ s, ledger_ok s.1 s.2) _ _ step_preserves Hsteps). }
  split; [done|]. split.
  - intros o c first n a' Hadm Hserve i Hi.
    destruct (step_granted a L o c first n a') as (_ & _ & _ & Hfree); [done..|].
    destruct (free_unheld a L i Hok (Hfree i Hi)). done.
  - intros o f n Hf Hn Hh Hpos Hmod. pose proof (release_settles f n a L o Hok Hf Hn Hh) as Hwp.
    unfold wp in Hwp. destruct (deallocate_contiguous f n a) as [[] a'|e a'|]; [by exists a'| |done].
    destruct Hwp as [_ [?|?]]; lia.
Qed.

(** ** Witnesses: a machine with sixteen frames *)

Definition boot_map : MemoryMap.t :=
  match MemoryMap.push (MemoryMap.mkRegion 0 65536 MemoryMap.Usable) MemoryMap.new with
  | Done _ m => m
  | _ => MemoryMap.new
  end.
Definition blank : t := mk [] [] 0 0 0.
Definition boot : t := mk [18446744073709486080] [18446744073709486080] 16 0 16.

Lemma boot_map_wf : MemoryMap.wf boot_map.
Proof.
  assert (Hwp := MemoryMap.push_ok MemoryMap.new (MemoryMap.mkRegion 0 65536 MemoryMap.Usable)
    MemoryMap.new_wf ltac:(done) ltac:(done)).
  by apply (wp_Done _ _ _ _ () boot_map Hwp).
Qed.

Lemma boot_new : new boot_map 65536 [0; 0] blank = Done () boot.
Proof. vm_compute. reflexivity. Qed.

Lemma boot_wf : wf boot.
Proof.
  assert (Hwp := new_ok boot_map 65536 [0; 0] blank boot_map_wf ltac:(done)).
  by apply (wp_Done _ _ _ _ _ _ Hwp boot_new).
Qed.

Lemma new_opens_usable_frames_witness :
  ∃ a, new boot_map 65536 [0; 0] blank = Done () a ∧ is_free a 15 ∧ ¬ is_free a 16.
Proof.
  destruct (new_opens_usable_frames boot_map 65536 [0; 0] blank) as (a & Hrun & _ & Hc & _).
  - exact boot_map_wf.
  - done.
  - done.
  - vm_compute. discriminate.
  - exists a. split; [done|]. rewrite boot_new in Hrun.
    assert (a = boot) as -> by congruence.
    split; [by vm_compute|]. intros [H _]. vm_compute in H. destruct H as [_ H]. discriminate.
Defined.

Lemma reserve_range_exact_witness :
  ∃ a', reserve_range (E:=Empty_set) 4097 4099 boot = Done () a' ∧
        res_bit a' 1 = true ∧ is_free a' 0.
Proof.
  destruct (reserve_range_exact boot 4097 4099) as (a' & Hrun & _).
  - exact boot_wf.
  - done.
  - done.
  - done.
  - exists a'. split; [done|]. vm_compute in Hrun. injection Hrun as <-. by vm_compute.
Defined.


Lemma allocate_contiguous_correct_witness :
  ∃ c a', allocate_contiguous 3 4 boot = Done (c * PAGE_SIZE) a' ∧ fits boot 3 4 c.
Proof.
  destruct (allocate_contiguous_correct boot 3 4) as [(c & a' & Hrun & Hfit & _)|[Hrun _]].
  - exact boot_wf.
  - done.
  - done.
  - done.
  - done.
  - by exists c, a'.
  - vm_compute in Hrun. discriminate.
Defined.

Lemma deallocate_contiguous_atomic_witness :
  ∃ e, deallocate_contiguous 4096 2 boot = Fail e boot.
Proof.
  destruct (deallocate_contiguous_atomic boot 4096 2) as [[_ (a' & Hrun & _)]|[_ He]].
  - exact boot_wf.
  - done.
  - done.
  - vm_compute in Hrun. discriminate.
  - exact He.
Defined.

Lemma pool_frames_exclusive_witness :
  ∃ a, rtc step (boot, ∅) (a, {[0 := 7%nat]}) ∧ ledger_ok a {[0 := 7%nat]}.
Proof.
  destruct (serve Allocate boot) as [r a|[]|] eqn:Hserve; [|vm_compute in Hserve; discriminate].
  assert (Hstep : rtc step (boot, ∅) (a, {[0 := 7%nat]})).
  { apply rtc_once. apply (step_call boot ∅ 7 Allocate r a); [done|done|].
    assert (r = Granted 0 1) as -> by (vm_compute in Hserve; congruence).
    simpl. intros i. rewrite between_one.
    destruct (bool_decide_reflect (i = 0)) as [->|]; by simplify_map_eq. }
  exists a. split; [exact Hstep|].
  apply (pool_frames_exclusive boot_map 65536 [0; 0] blank boot a {[0 := 7%nat]}).
  - exact boot_map_wf.
  - done.
  - exact boot_new.
  - exact Hstep.
Defined.

End FrameProperties.
