(* ===== verification/Bump.v ===== *)
(** * The bootstrap heap: a lock-free bump allocator

    Models [core/abyss/src/allocator.rs].  [alloc] is called by several cores at
    once and synchronises with nothing but two atomics, so it is modelled as a
    small-step machine: one transition per atomic access, any interleaving of
    the threads, and a weak compare-exchange that may also fail spuriously. *)
From S2P Require Import Prelude.

Module BumpAllocator.

Record t := mk { next : Z; end_ : Z }.

Definition empty : t := mk 0 0.

Inductive InitializeError := EmptyRegion | AddressOverflow | AlreadyInitialized.

(** [initialize] runs before the allocator is shared, so its two atomic
    accesses are one step. *)
Definition initialize (start size : Z) : M t InitializeError unit :=
  end_ ← ok_or (checked_add 64 start size) AddressOverflow;
  if (start =? 0) || (size =? 0) then throw EmptyRegion else
  s ← get;
  if negb (next s =? 0) then throw AlreadyInitialized else
  put (mk start end_).

Definition remaining (s : t) : Z := saturating_sub (end_ s) (next s).

(** [core::alloc::Layout]. *)
Record Layout := mkLayout { size : Z; align : Z }.

(** The arithmetic of one round of the loop: the aligned block and the bump
    pointer behind it, or [None] where [alloc] returns the null pointer. *)
Definition bump (layout : Layout) (current end_ : Z) : option (Z * Z) :=
  aligned ← align_up current (align layout);
  next ← checked_add 64 aligned (size layout);
  if end_ <? next then None else Some (aligned, next).

(** What [Layout]'s constructor guarantees. *)
Definition layout_ok (l : Layout) : Prop :=
  is_power_of_two (align l) = true ∧ u64 (align l) ∧ u64 (size l).

(** Where a thread is inside [alloc]. *)
Inductive pc :=
| Entered (layout : Layout)
| LoadedNext (layout : Layout) (current : Z)
| Looping (layout : Layout) (current end_ : Z)
| Returned (layout : Layout) (pointer : option Z).

(** One atomic access.  [spurious] is the freedom of
    [compare_exchange_weak] to fail although the value matches. *)
Definition thread_step (spurious : bool) (s : t) (p : pc) : t * pc :=
  match p with
  | Entered l => (s, LoadedNext l (next s))
  | LoadedNext l current => (s, Looping l current (end_ s))
  | Looping l current e =>
    match bump l current e with
    | None => (s, Returned l None)
    | Some (aligned, next') =>
      if (next s =? current) && negb spurious
      then (mk next' (end_ s), Returned l (Some aligned))
      else (s, Looping l (next s) e)
    end
  | Returned l r => (s, Returned l r)
  end.

(** [dealloc] ignores its arguments. *)
Definition dealloc (s : t) (pointer : Z) (layout : Layout) : t := s.

(** The machine: threads enter [alloc] at any time and step in any order. *)
Inductive step : t * list pc → t * list pc → Prop :=
| step_enter s ps l :
    layout_ok l → step (s, ps) (s, ps ++ [Entered l])
| step_thread s ps i p b s' p' :
    ps !! i = Some p → thread_step b s p = (s', p') → step (s, ps) (s', <[i := p']> ps).

(** ** Invariant *)

(** What the threads know and hold, for a heap [[start, stop)]. *)
Definition pc_ok (start stop : Z) (s : t) (p : pc) : Prop :=
  match p with
  | Entered l => layout_ok l
  | LoadedNext l c => layout_ok l ∧ u64 c
  | Looping l c e => layout_ok l ∧ u64 c ∧ e = stop
  | Returned l None => True
  | Returned l (Some a) =>
    0 <= size l ∧ a mod align l = 0 ∧ start <= a ∧ a + size l <= next s
  end.

Definition apart (p q : pc) : Prop :=
  match p, q with
  | Returned l (Some a), Returned k (Some b) => a + size l <= b ∨ b + size k <= a
  | _, _ => True
  end.

Record heap_ok (start stop : Z) (c : t * list pc) : Prop := {
  ok_end : end_ c.1 = stop;
  ok_stop : u64 stop;
  ok_next : 0 <= start <= next c.1 ∧ next c.1 <= stop;
  ok_pcs : ∀ i p, c.2 !! i = Some p → pc_ok start stop c.1 p;
  ok_apart : ∀ i j p q, i ≠ j → c.2 !! i = Some p → c.2 !! j = Some q → apart p q;
}.

Lemma bump_spec l c e a n :
  layout_ok l → u64 c → bump l c e = Some (a, n) →
  a mod align l = 0 ∧ c <= a ∧ n = a + size l ∧ n <= e ∧ 0 <= size l.
Proof.
  unfold bump. intros (Hp & Ha & Hs) Hc.
  destruct (align_up c (align l)) as [a'|] eqn:Hup; simpl; [|done].
  apply align_up_spec in Hup as (? & ? & ?); [|done..].
  unfold checked_add. destruct (Z.ltb_spec (a' + size l) (2 ^ 64)); simpl; [|done].
  destruct (Z.ltb_spec e (a' + size l)); [done|]. intros [= <- <-].
  unfold in_width in *. lia.
Qed.

Lemma pc_ok_mono start stop s s' p :
  next s <= next s' → pc_ok start stop s p → pc_ok start stop s' p.
Proof. intros Hn. destruct p as [| | |l [a|]]; simpl; try done. lia. Qed.

(** A thread's own step keeps what it knows true, moves the bump pointer only
    upwards, and a block it obtains starts at or above the old pointer. *)
Lemma thread_step_ok start stop b s p s' p' :
  end_ s = stop → u64 stop → 0 <= start <= next s → next s <= stop → pc_ok start stop s p →
  thread_step b s p = (s', p') →
  end_ s' = stop ∧ next s <= next s' <= stop ∧ pc_ok start stop s' p' ∧
  (p' = p ∨ ∀ l a, p' = Returned l (Some a) → next s <= a).
Proof.
  intros He Hst Hn Hns Hp. unfold thread_step.
  assert (Hu : u64 (next s)) by (unfold in_width in *; lia).
  destruct p as [l|l c|l c e|l r]; simpl in *.
  - intros [= <- <-]. split; [done|]. split; [lia|]. split; [done|]. by right.
  - destruct Hp. intros [= <- <-]. split; [done|]. split; [lia|]. split; [done|]. by right.
  - destruct Hp as (Hl & Hc & ->). destruct (bump l c stop) as [[a n]|] eqn:Hb.
    + apply bump_spec in Hb as (? & ? & ? & ? & ?); [|done..].
      destruct ((next s =? c) && negb b) eqn:Hcas; intros [= <- <-].
      * bool_to_prop. subst c. simpl. split; [done|]. split; [lia|]. split; [lia|].
        right. intros l' a' [= <- <-]. lia.
      * split; [done|]. split; [lia|]. split; [done|]. by right.
    + intros [= <- <-]. split; [done|]. split; [lia|]. split; [done|]. by right.
  - intros [= <- <-]. split; [done|]. split; [lia|]. split; [done|]. by left.
Qed.

Lemma apart_new start stop s p' q :
  pc_ok start stop s q → (∀ l a, p' = Returned l (Some a) → next s <= a) →
  apart p' q ∧ apart q p'.
Proof.
  intros Hq Hnew. destruct p' as [| | |l [a|]], q as [| | |k [b|]]; simpl in *; try done.
  specialize (Hnew l a eq_refl). lia.
Qed.

Lemma step_ok start stop c c' : step c c' → heap_ok start stop c → heap_ok start stop c'.
Proof.
  intros [s ps l Hl|s ps i p b s' p' Hi Hstep] []; simpl in *.
  - split; simpl; try done.
    + intros j q [Hq|[_ [_ <-]%list_lookup_singleton_Some]]%lookup_app_Some; [eauto|done].
    + intros j k q r Hjk [Hq|[Hj [? <-]%list_lookup_singleton_Some]]%lookup_app_Some
        [Hr|[Hk [? <-]%list_lookup_singleton_Some]]%lookup_app_Some; try done; eauto.
      by destruct q as [| | |? []].
  - destruct (thread_step_ok start stop b s p s' p') as (? & ? & Hp' & Hnew); eauto; [lia..|].
    split; simpl; try done; try lia.
    + intros j q [[-> [-> _]]|[? Hq]]%list_lookup_insert_Some; [done|].
      eapply pc_ok_mono; [|by eauto]. lia.
    + assert (Hothers : ∀ j q, i ≠ j → ps !! j = Some q → apart p' q ∧ apart q p').
      { intros j q Hij Hq. destruct Hnew as [->|Hnew]; [by eauto|].
        eapply apart_new; [by eauto|done]. }
      intros j k q r Hjk [[-> [-> _]]|[? Hq]]%list_lookup_insert_Some
        [[-> [-> _]]|[? Hr]]%list_lookup_insert_Some; try done; eauto; by eapply Hothers.
Qed.

End BumpAllocator.

Module BumpProperties.
Import BumpAllocator.

(** C35: after a successful [initialize], whatever number of threads run
    [alloc] and however their atomic accesses interleave, every pointer handed
    out is aligned, lies with its whole block inside the heap region, and no two
    blocks overlap. *)
Theorem alloc_blocks_disjoint start len s0 s ps :
  u64 start → u64 len → initialize start len empty = Done () s0 →
  rtc step (s0, []) (s, ps) →
  (∀ i l a, ps !! i = Some (Returned l (Some a)) →
     a mod align l = 0 ∧ start <= a ∧ a + size l <= start + len) ∧
  (∀ i j l a k b, i ≠ j → ps !! i = Some (Returned l (Some a)) →
     ps !! j = Some (Returned k (Some b)) → a + size l <= b ∨ b + size k <= a).
Proof.
  intros Hstart Hlen Hinit Hsteps.
  assert (Hok0 : heap_ok start (start + len) (s0, [])).
  { revert Hinit. unfold initialize, checked_add, mbind, M_bind.
    destruct (Z.ltb_spec (start + len) (2 ^ 64)); simpl; [|done].
    destruct ((start =? 0) || (len =? 0)) eqn:Hz; [done|]. intros [= <-]. bool_to_prop.
    unfold in_width in *. split; simpl; try done; unfold in_width; lia. }
  pose proof (rtc_invariant _ _ _ _ (step_ok start (start + len)) Hsteps Hok0) as [].
  simpl in *. split.
  - intros i l a Hi. apply ok_pcs0 in Hi as (_ & ? & ? & ?). split; [done|]. lia.
  - intros i j l a k b Hij Hi Hj. exact (ok_apart0 i j _ _ Hij Hi Hj).
Qed.

Definition word : Layout := mkLayout 8 8.

(** Two threads race for a word each; the second loses its first exchange. *)
Lemma alloc_blocks_disjoint_witness :
  ∃ s ps, rtc step (mk 4096 8192, []) (s, ps) ∧
    ps = [Returned word (Some 4096); Returned word (Some 4104)] ∧
    (4096 + 8 <= 4104 ∨ 4104 + 8 <= 4096).
Proof.
  set (ps := [Returned word (Some 4096); Returned word (Some 4104)]).
  assert (Hs : rtc step (mk 4096 8192, []) (mk 4112 8192, ps)).
  { eapply rtc_l; [apply (step_enter _ _ word); by repeat split|]. simpl.
    eapply rtc_l; [apply (step_enter _ _ word); by repeat split|]. simpl.
    eapply rtc_l; [by apply (step_thread _ _ 0 (Entered word) false)|]. simpl.
    eapply rtc_l; [by apply (step_thread _ _ 1 (Entered word) false)|]. simpl.
    eapply rtc_l; [by apply (step_thread _ _ 0 (LoadedNext word 4096) false)|]. simpl.
    eapply rtc_l; [by apply (step_thread _ _ 1 (LoadedNext word 4096) false)|]. simpl.
    eapply rtc_l; [by apply (step_thread _ _ 0 (Looping word 4096 8192) false)|]. simpl.
    eapply rtc_l; [by apply (step_thread _ _ 1 (Looping word 4096 8192) false)|]. simpl.
    eapply rtc_l; [by apply (step_thread _ _ 1 (Looping word 4104 8192) false)|]. simpl.
    reflexivity. }
  exists (mk 4112 8192), ps. split; [exact Hs|]. split; [reflexivity|].
  destruct (alloc_blocks_disjoint 4096 4096 (mk 4096 8192) (mk 4112 8192) ps) as [_ Hdis].
  - done.
  - done.
  - reflexivity.
  - exact Hs.
  - apply (Hdis 0%nat 1%nat word 4096 word 4104); done.
Defined.

End BumpProperties.
