(* ===== verification/Iova.v ===== *)
(** * The I/O virtual address ledger

    Models [kernel/boulder/src/hw/iova.rs]: a first-fit allocator of I/O virtual
    address ranges with a fixed table of leases.  A lease handle packs a slot
    number and the slot's generation; releasing keeps the generation, and a slot
    whose generation is exhausted is retired.

    [Module IovaLedger] holds the definitions, [IovaFacts] the invariant and the
    behaviour of each operation, [IovaRuns] the runs of a ledger as grants and
    revocations, and [IovaProperties] the theorems. *)
From S2P Require Import Prelude.

Definition IOVA_PAGE_SIZE : Z := 4096.

Inductive IovaError :=
| InvalidRange | InvalidRequest | InvalidCapacity | ReservedCapacity
| ReservedOutsideAperture | OverlappingReservedRanges | LeaseCapacity
| AddressSpaceExhausted | ExactRangeUnavailable | StaleLease | BatchOutputMismatch.

Module IovaRange.

Record t := mk { start : Z; end_ : Z }.

Definition EMPTY : t := mk 0 0.

Definition new (start length : Z) : result t IovaError :=
  match checked_add 64 start length with
  | None => Err InvalidRange
  | Some end_ =>
    if (length =? 0) || negb (start mod IOVA_PAGE_SIZE =? 0)
       || negb (length mod IOVA_PAGE_SIZE =? 0) || negb (end_ mod IOVA_PAGE_SIZE =? 0)
    then Err InvalidRange
    else Ok (mk start end_)
  end.

Definition length {S E} (r : t) : M S E Z := sub (end_ r) (start r).
Definition page_count {S E} (r : t) : M S E Z := n ← length r; mret (n / IOVA_PAGE_SIZE).

Definition contains (self other : t) : bool :=
  (start self <=? start other) && (end_ other <=? end_ self).
Definition overlaps (self other : t) : bool :=
  (start self <? end_ other) && (start other <? end_ self).

End IovaRange.

Module IovaLease.

(** The raw 64-bit handle. *)
Definition t : Type := Z.

Definition INVALID : t := 0.

Definition from_raw (raw : Z) : option t :=
  let slot := wrap 32 raw in
  let generation := wrap 32 (Z.shiftr raw 32) in
  if (slot =? 0) || (generation =? 0) then None else Some raw.

Definition new {S E} (slot generation : Z) : M S E t :=
  encoded ← add 64 slot 1;
  mret (Z.lor (wrap 64 (Z.shiftl generation 32)) encoded).

Definition slot (lease : t) : option Z :=
  let encoded := wrap 32 lease in
  if encoded =? 0 then None else Some (encoded - 1).

Definition generation (lease : t) : Z := wrap 32 (Z.shiftr lease 32).

End IovaLease.

Module IovaRequest.

Record t := mk { page_count : Z; alignment_pages : Z }.

Definition new (page_count alignment_pages : Z) : result t IovaError :=
  if (page_count =? 0) || (alignment_pages =? 0) || negb (is_power_of_two alignment_pages)
  then Err InvalidRequest
  else match checked_mul 64 page_count IOVA_PAGE_SIZE with
       | None => Err InvalidRequest
       | Some _ =>
         match checked_mul 64 alignment_pages IOVA_PAGE_SIZE with
         | None => Err InvalidRequest
         | Some _ => Ok (mk page_count alignment_pages)
         end
       end.

End IovaRequest.

Module IovaLedger.
Import IovaRange.

Record LeaseSlot := mkSlot { range_of : IovaRange.t; generation : Z; active : bool }.

Definition EMPTY : LeaseSlot := mkSlot IovaRange.EMPTY 0 false.

Record t := mk {
  aperture : IovaRange.t;
  reserved : list IovaRange.t;
  reserved_count : Z;
  leases : list LeaseSlot;
  active_count : Z;
}.

Definition with_leases (ls : list LeaseSlot) (count : Z) (s : t) : t :=
  mk (aperture s) (reserved s) (reserved_count s) ls count.

Definition reserved_ranges {E} : M t E (list IovaRange.t) :=
  s ← get; slice_to (reserved s) (reserved_count s).

(** One move of the shift that makes room for an insertion. *)
Definition shift_right (index : Z) : M t IovaError unit :=
  s ← get;
  r ← Prelude.index (reserved s) index;
  next ← add 64 index 1;
  rs ← store (reserved s) next r;
  put (mk (aperture s) rs (reserved_count s) (leases s) (active_count s)).

Definition insert_reserved (range : IovaRange.t) : M t IovaError unit :=
  s ← get;
  if negb (contains (aperture s) range) then throw ReservedOutsideAperture else
  existing ← reserved_ranges;
  if existsb (λ e, overlaps e range) existing then throw OverlappingReservedRanges else
  let position :=
    match position (λ e, start range <? start e) existing with
    | Some p => Z.of_nat p
    | None => reserved_count s
    end in
  mfor (rev (Prelude.range position (reserved_count s))) shift_right ;;
  s' ← get;
  rs ← store (reserved s') position range;
  count ← add 64 (reserved_count s') 1;
  put (mk (aperture s') rs count (leases s') (active_count s')).

(** [new] for the const parameters [LEASES] and [RESERVED]; the ledger is the
    state left behind. *)
Definition new (LEASES RESERVED : nat) (aperture : IovaRange.t) (reserved : list IovaRange.t) :
    M t IovaError unit :=
  if (Z.of_nat LEASES =? 0) || (MAX 32 <? Z.of_nat LEASES) then throw InvalidCapacity else
  if Z.of_nat RESERVED <? Z.of_nat (List.length reserved) then throw ReservedCapacity else
  put (mk aperture (replicate RESERVED IovaRange.EMPTY) 0 (replicate LEASES EMPTY) 0) ;;
  mfor reserved insert_reserved.

(** What a new range must avoid: the reserved ranges, then the active leases. *)
Definition blockers {E} : M t E (list IovaRange.t) :=
  rs ← reserved_ranges;
  s ← get;
  mret (rs ++ (range_of <$> List.filter active (leases s))).

(** The end of the furthest blocker that meets the candidate, 0 if none does. *)
Definition furthest (candidate : IovaRange.t) (bs : list IovaRange.t) : Z :=
  fold_left (λ advance_to blocker,
    if overlaps candidate blocker then Z.max advance_to (end_ blocker) else advance_to) bs 0.

(** The search loop, with fuel: each round passes at least one blocker. *)
Fixpoint first_fit_loop (fuel : nat) (length alignment start : Z) : M t IovaError IovaRange.t :=
  match fuel with
  | O => panic
  | S fuel' =>
    s ← get;
    end_ ← ok_or
      (match checked_add 64 start length with
       | Some e => if e <=? end_ (aperture s) then Some e else None
       | None => None
       end) AddressSpaceExhausted;
    let candidate := IovaRange.mk start end_ in
    bs ← blockers;
    let advance_to := furthest candidate bs in
    if advance_to =? 0 then mret candidate else
    next ← ok_or (align_up advance_to alignment) AddressSpaceExhausted;
    first_fit_loop fuel' length alignment next
  end.

Definition first_fit (request : IovaRequest.t) : M t IovaError IovaRange.t :=
  length ← ok_or (checked_mul 64 (IovaRequest.page_count request) IOVA_PAGE_SIZE) InvalidRequest;
  alignment ← ok_or (checked_mul 64 (IovaRequest.alignment_pages request) IOVA_PAGE_SIZE)
    InvalidRequest;
  s ← get;
  start ← ok_or (align_up (start (aperture s)) alignment) AddressSpaceExhausted;
  bs ← blockers;
  first_fit_loop (S (List.length bs)) length alignment start.

Definition reusable (slot : LeaseSlot) : bool :=
  negb (active slot) && negb (generation slot =? MAX 32).

(** The common tail of [reserve] and [reserve_exact]. *)
Definition install (slot_index : nat) (range : IovaRange.t) : M t IovaError IovaLease.t :=
  s ← get;
  slot ← index (leases s) (Z.of_nat slot_index);
  generation ← add 32 (generation slot) 1;
  ls ← store (leases s) (Z.of_nat slot_index) (mkSlot range generation true);
  count ← add 64 (active_count s) 1;
  put (with_leases ls count s) ;;
  IovaLease.new (Z.of_nat slot_index) generation.

Definition reserve (request : IovaRequest.t) : M t IovaError IovaLease.t :=
  s ← get;
  slot_index ← ok_or (position reusable (leases s)) LeaseCapacity;
  range ← first_fit request;
  install slot_index range.

Definition reserve_aligned (page_count alignment_pages : Z) : M t IovaError IovaLease.t :=
  request ← lift (IovaRequest.new page_count alignment_pages);
  reserve request.

Definition reserve_pages (page_count : Z) : M t IovaError IovaLease.t :=
  request ← lift (IovaRequest.new page_count 1);
  reserve request.

Definition reserve_exact (range : IovaRange.t) : M t IovaError IovaLease.t :=
  s ← get;
  rs ← reserved_ranges;
  if negb (contains (aperture s) range)
     || existsb (λ b, overlaps b range) rs
     || existsb (λ slot, overlaps (range_of slot) range) (List.filter active (leases s))
  then throw ExactRangeUnavailable else
  slot_index ← ok_or (position reusable (leases s)) LeaseCapacity;
  install slot_index range.

(** The loop of [reserve_many] over the candidate copy. *)
Fixpoint stage (requests : list IovaRequest.t) (index : Z) (staged : list IovaLease.t) :
    M t IovaError (list IovaLease.t) :=
  match requests with
  | [] => mret staged
  | request :: rest =>
    lease ← reserve request;
    staged' ← store staged index lease;
    index' ← add 64 index 1;
    stage rest index' staged'
  end.

(** The state is the ledger together with the caller's output slice. *)
Definition reserve_many (requests : list IovaRequest.t) : M (t * list IovaLease.t) IovaError unit :=
  st ← get;
  let '(self, output) := st in
  if bool_decide (requests = [])
     || negb (Z.of_nat (List.length requests) =? Z.of_nat (List.length output))
     || (Z.of_nat (List.length (leases self)) <? Z.of_nat (List.length requests))
  then throw BatchOutputMismatch else
  match stage requests 0 (replicate (List.length (leases self)) IovaLease.INVALID) self with
  | Done staged candidate =>
    taken ← slice_to staged (Z.of_nat (List.length requests));
    put (candidate, taken)
  | Fail e _ => throw e
  | Panic => panic
  end.

(** The slot a lease names, if it is active at the lease's generation. *)
Definition slot (lease : IovaLease.t) : M t IovaError LeaseSlot :=
  slot_index ← ok_or (IovaLease.slot lease) StaleLease;
  s ← get;
  ok_or (slot ← leases s !! Z.to_nat slot_index;
         if active slot && (generation slot =? IovaLease.generation lease) then Some slot else None)
    StaleLease.

Definition range (lease : IovaLease.t) : M t IovaError IovaRange.t :=
  slot ← slot lease; mret (range_of slot).

Definition release (lease : IovaLease.t) : M t IovaError IovaRange.t :=
  slot_index ← ok_or (IovaLease.slot lease) StaleLease;
  s ← get;
  slot ← ok_or (slot ← leases s !! Z.to_nat slot_index;
                if active slot && (generation slot =? IovaLease.generation lease)
                then Some slot else None)
           StaleLease;
  count ← sub (active_count s) 1;
  put (with_leases (<[Z.to_nat slot_index := mkSlot IovaRange.EMPTY (generation slot) false]>
         (leases s)) count s) ;;
  mret (range_of slot).

End IovaLedger.

(** ** Invariant and functional behaviour *)

Module IovaFacts.
Import IovaRange IovaLedger.

(** Every range value outside the table's padding was built by [new]. *)
Definition range_ok (r : IovaRange.t) : Prop :=
  0 <= start r < end_ r ∧ end_ r < 2 ^ 64 ∧
  start r mod IOVA_PAGE_SIZE = 0 ∧ end_ r mod IOVA_PAGE_SIZE = 0.

Definition disjoint (r q : IovaRange.t) : Prop := end_ r <= start q ∨ end_ q <= start r.
Definition inside (r q : IovaRange.t) : Prop := start q <= start r ∧ end_ r <= end_ q.

Definition request_ok (r : IovaRequest.t) : Prop :=
  0 < IovaRequest.page_count r ∧ is_power_of_two (IovaRequest.alignment_pages r) = true ∧
  IovaRequest.page_count r * IOVA_PAGE_SIZE < 2 ^ 64 ∧
  IovaRequest.alignment_pages r * IOVA_PAGE_SIZE < 2 ^ 64.

(** The reserved ranges as a list, and the blockers as a list. *)
Definition fixed (s : t) : list IovaRange.t := take (Z.to_nat (reserved_count s)) (reserved s).
Definition blocked (s : t) : list IovaRange.t :=
  fixed s ++ (range_of <$> List.filter active (leases s)).

Fixpoint sorted (l : list IovaRange.t) : Prop :=
  match l with
  | [] => True
  | r :: l' => (∀ q, q ∈ l' → end_ r <= start q) ∧ sorted l'
  end.

(** A slot: its generation fits, and an active one holds a good range of the
    aperture that no reserved range meets. *)
Record slot_ok (s : t) (slot : LeaseSlot) : Prop := {
  sl_generation : u32 (generation slot);
  sl_range : active slot = true →
    range_ok (range_of slot) ∧ inside (range_of slot) (aperture s) ∧
    ∀ r, r ∈ fixed s → disjoint (range_of slot) r;
  sl_live : active slot = true → 0 < generation slot;
}.

Record ledger_ok (s : t) : Prop := {
  lo_aperture : range_ok (aperture s);
  lo_count : 0 <= reserved_count s <= Z.of_nat (List.length (reserved s));
  lo_width : Z.of_nat (List.length (reserved s)) < 2 ^ 64;
  lo_fixed : ∀ r, r ∈ fixed s → range_ok r ∧ inside r (aperture s);
  lo_sorted : sorted (fixed s);
  lo_capacity : 0 < Z.of_nat (List.length (leases s)) <= MAX 32;
  lo_slots : ∀ i slot, leases s !! i = Some slot → slot_ok s slot;
  lo_apart : ∀ i j p q, i ≠ j → leases s !! i = Some p → leases s !! j = Some q →
    active p = true → active q = true → disjoint (range_of p) (range_of q);
  lo_active : active_count s = count active (leases s);
}.

Lemma overlaps_disjoint r q : overlaps r q = false ↔ disjoint r q.
Proof.
  unfold overlaps, disjoint. rewrite andb_false_iff, !Z.ltb_ge. lia.
Qed.
Lemma disjoint_sym r q : disjoint r q → disjoint q r.
Proof. unfold disjoint. lia. Qed.
Lemma contains_inside r q : contains q r = true ↔ inside r q.
Proof. unfold contains, inside. by rewrite andb_true_iff, !Z.leb_le. Qed.
Lemma overlaps_sym r q : overlaps r q = overlaps q r.
Proof. unfold overlaps. apply andb_comm. Qed.

(** [IovaRange::new] accepts exactly the non-empty page-aligned ranges. *)
Lemma range_new_ok a n :
  u64 a → u64 n →
  match IovaRange.new a n with
  | Ok r => r = IovaRange.mk a (a + n) ∧ range_ok r
  | Err e => e = InvalidRange ∧ ¬ range_ok (IovaRange.mk a (a + n))
  end.
Proof.
  unfold IovaRange.new, checked_add, range_ok, in_width, IOVA_PAGE_SIZE. intros Ha Hn.
  destruct (Z.ltb_spec (a + n) (2 ^ 64)); simpl.
  2:{ split; [done|lia]. }
  destruct (_ || _) eqn:Hb; bool_to_prop.
  - split; [done|]. simpl. intros (? & ? & ? & ?).
    repeat (destruct Hb as [Hb|Hb]; bool_to_prop); Z.div_mod_to_equations; lia.
  - simpl. split; [done|]. lia.
Qed.

Lemma request_new_ok p a :
  u64 p → u64 a →
  match IovaRequest.new p a with
  | Ok r => r = IovaRequest.mk p a ∧ request_ok r
  | Err e => e = InvalidRequest
  end.
Proof.
  unfold IovaRequest.new, checked_mul, request_ok, in_width. intros Hp Ha.
  destruct (_ || _) eqn:Hb; bool_to_prop; [done|].
  destruct (Z.ltb_spec (p * IOVA_PAGE_SIZE) (2 ^ 64)); [|done].
  destruct (Z.ltb_spec (a * IOVA_PAGE_SIZE) (2 ^ 64)); [|done].
  simpl. split; [done|]. split; [lia|]. done.
Qed.

(** *** Handles *)

(** A handle is the word [generation * 2^32 + slot + 1]. *)
Lemma lease_new_eq {S E} i g (s : S) :
  0 <= i < MAX 32 → u32 g → IovaLease.new (E:=E) i g s = Done (g * 2 ^ 32 + (i + 1)) s.
Proof.
  unfold IovaLease.new, MAX, in_width. intros Hi Hg.
  unfold add, checked_add. destruct (Z.ltb_spec (i + 1) (2 ^ 64)); [|lia].
  unfold mbind, M_bind, mret, M_ret. f_equal.
  rewrite wrap_small by (rewrite Z.shiftl_mul_pow2 by lia; unfold in_width; lia).
  apply lor_pack; unfold in_width; lia.
Qed.

Lemma lease_decode i g :
  0 <= i < MAX 32 → u32 g →
  IovaLease.slot (g * 2 ^ 32 + (i + 1)) = Some i ∧
  IovaLease.generation (g * 2 ^ 32 + (i + 1)) = g.
Proof.
  unfold IovaLease.slot, IovaLease.generation, wrap, MAX, in_width. intros Hi Hg.
  rewrite Z.shiftr_div_pow2 by lia.
  rewrite pack_low, pack_high by (unfold in_width; lia).
  destruct (Z.eqb_spec (i + 1) 0); [lia|].
  split; [f_equal; lia|]. apply Z.mod_small. lia.
Qed.

(** *** First fit *)

Lemma wp_reserved_ranges {E} Q (R : E → t → Prop) s :
  0 <= reserved_count s <= Z.of_nat (List.length (reserved s)) →
  wp reserved_ranges Q R s ↔ Q (fixed s) s.
Proof.
  intros Hc. unfold reserved_ranges. rewrite wp_bind, wp_get. unfold wp, slice_to.
  destruct (Z.leb_spec 0 (reserved_count s)); [|lia].
  destruct (Z.leb_spec (reserved_count s) (Z.of_nat (List.length (reserved s)))); [done|lia].
Qed.

Lemma wp_blockers {E} Q (R : E → t → Prop) s :
  0 <= reserved_count s <= Z.of_nat (List.length (reserved s)) →
  wp blockers Q R s ↔ Q (blocked s) s.
Proof. intros. unfold blockers. rewrite wp_bind, wp_reserved_ranges by done. by wp_simpl. Qed.

(** An address at which a range of this length and alignment can be placed. *)
Definition fits (s : t) (length alignment a : Z) : Prop :=
  a mod alignment = 0 ∧ start (aperture s) <= a ∧ a + length <= end_ (aperture s) ∧
  ∀ b, b ∈ blocked s → disjoint (IovaRange.mk a (a + length)) b.

Lemma furthest_spec c bs acc :
  let res := fold_left (λ a b, if overlaps c b then Z.max a (end_ b) else a) bs acc in
  acc <= res ∧ (∀ b, b ∈ bs → overlaps c b = true → end_ b <= res) ∧
  (res = acc ∨ ∃ b, b ∈ bs ∧ overlaps c b = true ∧ res = end_ b).
Proof.
  revert acc. induction bs as [|b bs IH]; intros acc; simpl.
  - split; [lia|]. split; [|by left]. intros b Hb. inversion Hb.
  - destruct (IH (if overlaps c b then Z.max acc (end_ b) else acc)) as (Hge & Hall & Hex).
    destruct (overlaps c b) eqn:Hb; (split; [lia|split]).
    + intros b' [->|Hb']%elem_of_cons; [lia|by auto].
    + destruct Hex as [->|(b' & ? & ? & ->)].
      * destruct (Z.max_spec acc (end_ b)) as [[_ ->]|[_ ->]]; [right|by left].
        exists b. split; [left|done].
      * right. exists b'. split; [by right|done].
    + intros b' [->|Hb']%elem_of_cons; [congruence|by auto].
    + destruct Hex as [->|(b' & ? & ? & ->)]; [by left|]. right. exists b'.
      split; [by right|done].
Qed.

Lemma blocked_range_ok s b : ledger_ok s → b ∈ blocked s → range_ok b.
Proof.
  intros [] [Hb|Hb]%elem_of_app; [by apply lo_fixed0|].
  apply list_elem_of_fmap in Hb as (slot & -> & Hs).
  apply list_elem_of_In, filter_In in Hs as [Hs Ha].
  apply list_elem_of_In, list_elem_of_lookup in Hs as [i Hi]. by apply (lo_slots0 i).
Qed.

(** How many blockers still lie ahead of the cursor: the measure of the loop. *)
Definition ahead (s : t) (a : Z) : Z := count (λ b, a <? end_ b) (blocked s).

Lemma ahead_lt s a a' b :
  a <= a' → b ∈ blocked s → a < end_ b → end_ b <= a' → ahead s a' < ahead s a.
Proof.
  unfold ahead. intros Ha Hb Hlt Hge. induction (blocked s) as [|c l IH]; [inversion Hb|].
  rewrite !count_cons.
  assert (Hle : count (λ b, a' <? end_ b) l <= count (λ b, a <? end_ b) l).
  { clear -Ha. induction l as [|d l IH]; [done|]. rewrite !count_cons.
    destruct (Z.ltb_spec a' (end_ d)), (Z.ltb_spec a (end_ d)); lia. }
  apply elem_of_cons in Hb as [->|Hb].
  - destruct (Z.ltb_spec a' (end_ c)), (Z.ltb_spec a (end_ c)); lia.
  - specialize (IH Hb). destruct (Z.ltb_spec a' (end_ c)), (Z.ltb_spec a (end_ c)); lia.
Qed.

(** The loop stops within its fuel, at the lowest place at or above its cursor. *)
Lemma first_fit_loop_ok s fuel length alignment a :
  ledger_ok s → 0 < length → is_power_of_two alignment = true → u64 alignment → u64 a →
  a mod alignment = 0 → start (aperture s) <= a → ahead s a < Z.of_nat fuel →
  (∀ x, fits s length alignment x → a <= x) →
  wp (first_fit_loop fuel length alignment a)
    (λ r s', s' = s ∧ r = IovaRange.mk (start r) (start r + length) ∧
       fits s length alignment (start r) ∧ ∀ x, fits s length alignment x → start r <= x)
    (λ e s', s' = s ∧ e = AddressSpaceExhausted ∧ ∀ x, ¬ fits s length alignment x) s.
Proof.
  intros Hok Hlen Hpow Hal. pose proof (lo_aperture _ Hok) as (_ & Hend & _).
  pose proof (lo_count _ Hok) as Hcount.
  revert a. induction fuel as [|fuel IH]; intros a Ha Hmod Hge Hfuel Hlow; simpl.
  { pose proof (count_bounds (λ b, a <? end_ b) (blocked s)). unfold ahead in Hfuel. lia. }
  wp_simpl. unfold checked_add.
  destruct (Z.ltb_spec (a + length) (2 ^ 64)) as [Hw|Hw].
  2:{ split; [done|]. split; [done|]. intros x Hx. specialize (Hlow x Hx).
      destruct Hx as (_ & _ & ? & _). lia. }
  destruct (Z.leb_spec (a + length) (end_ (aperture s))) as [He|He].
  2:{ split; [done|]. split; [done|]. intros x Hx. specialize (Hlow x Hx).
      destruct Hx as (_ & _ & ? & _). lia. }
  wp_simpl. rewrite wp_blockers by done.
  set (c := IovaRange.mk a (a + length)).
  destruct (furthest_spec c (blocked s) 0) as (Hf0 & Hfall & Hfex).
  fold (furthest c (blocked s)) in *.
  destruct (Z.eqb_spec (furthest c (blocked s)) 0) as [Hz|Hz].
  - wp_simpl. simpl. split; [done|]. split; [done|]. split; [|done].
    split; [done|]. split; [lia|]. split; [lia|]. intros b Hb.
    apply overlaps_disjoint. apply not_true_iff_false. intros Ho.
    specialize (Hfall b Hb Ho). apply blocked_range_ok in Hb as [? _]; [lia|done].
  - destruct Hfex as [?|(b & Hb & Ho & Hfb)]; [done|].
    pose proof (blocked_range_ok s b Hok Hb) as (? & ? & _).
    unfold overlaps in Ho. simpl in Ho. bool_to_prop.
    assert (Hpast : ∀ x, fits s length alignment x → furthest c (blocked s) <= x).
    { intros x Hx. pose proof (Hlow x Hx). destruct Hx as (_ & _ & _ & Hx).
      specialize (Hx b Hb). unfold disjoint in Hx. simpl in Hx. lia. }
    wp_simpl. destruct (align_up _ alignment) as [n|] eqn:Hn.
    + pose proof Hn as Hspec. apply align_up_spec in Hspec as (? & ? & ?);
        [|done|done|unfold in_width; lia].
      apply IH; [done|done|lia| |].
      * enough (ahead s n < ahead s a) by lia. apply (ahead_lt s a n b); (done || lia).
      * intros x Hx. eapply align_up_least; [done|done| |done|by apply Hpast|apply Hx].
        unfold in_width; lia.
    + split; [done|]. split; [done|]. intros x Hx.
      pose proof (align_up_None_above _ _ x Hpow Hal Hn (Hpast x Hx)) as Hbig.
      destruct Hx as (? & _ & ? & _). specialize (Hbig ltac:(done)). lia.
Qed.

Lemma request_alignment r :
  request_ok r →
  is_power_of_two (IovaRequest.alignment_pages r * IOVA_PAGE_SIZE) = true ∧
  u64 (IovaRequest.alignment_pages r * IOVA_PAGE_SIZE).
Proof.
  intros (_ & Hp & _ & Ha). pose proof (pow2_pos _ Hp). split.
  - apply is_power_of_two_spec in Hp as (k & Hk & ->). apply is_power_of_two_spec.
    exists (k + 12). split; [lia|]. by rewrite Z.pow_add_r by lia.
  - unfold in_width, IOVA_PAGE_SIZE in *. lia.
Qed.

Lemma first_fit_ok s request :
  ledger_ok s → request_ok request →
  let length := IovaRequest.page_count request * IOVA_PAGE_SIZE in
  let alignment := IovaRequest.alignment_pages request * IOVA_PAGE_SIZE in
  wp (first_fit request)
    (λ r s', s' = s ∧ r = IovaRange.mk (start r) (start r + length) ∧
       fits s length alignment (start r) ∧ ∀ x, fits s length alignment x → start r <= x)
    (λ e s', s' = s ∧ e = AddressSpaceExhausted ∧ ∀ x, ¬ fits s length alignment x) s.
Proof.
  intros Hok Hreq length alignment. destruct (request_alignment _ Hreq) as [Hpow Hal].
  pose proof Hreq as (Hpc & _ & Hlen & Hw). pose proof (lo_aperture _ Hok) as (? & ? & _).
  unfold first_fit, checked_mul. wp_simpl.
  destruct (Z.ltb_spec (IovaRequest.page_count request * IOVA_PAGE_SIZE) (2 ^ 64)); [|lia].
  wp_simpl.
  destruct (Z.ltb_spec (IovaRequest.alignment_pages request * IOVA_PAGE_SIZE) (2 ^ 64)); [|lia].
  fold length alignment in Hpow, Hal, Hlen, Hw |- *. wp_simpl.
  assert (u64 (start (aperture s))) by (unfold in_width; lia).
  destruct (align_up (start (aperture s)) alignment) as [a|] eqn:Ha.
  - wp_simpl. rewrite wp_blockers by apply Hok.
    pose proof Ha as Hspec. apply align_up_spec in Hspec as (? & ? & ?); [|done..].
    apply first_fit_loop_ok; try done; [unfold length, IOVA_PAGE_SIZE; lia|lia| |].
    + pose proof (count_bounds (λ b, a <? end_ b) (blocked s)). unfold ahead. lia.
    + intros x Hx. eapply align_up_least; [done|done| |done|apply Hx|apply Hx]. done.
  - split; [done|]. split; [done|]. intros x Hx.
    pose proof (align_up_None_above _ _ x Hpow Hal Ha) as Hbig.
    destruct Hx as (? & ? & ? & _). specialize (Hbig ltac:(done) ltac:(done)).
    unfold length, IOVA_PAGE_SIZE in *. lia.
Qed.

(** *** Grants and releases *)

Definition handle (i : nat) (g : Z) : IovaLease.t := g * 2 ^ 32 + (Z.of_nat i + 1).

(** A range that may be leased next. *)
Definition placeable (s : t) (r : IovaRange.t) : Prop :=
  range_ok r ∧ inside r (aperture s) ∧ ∀ b, b ∈ blocked s → disjoint r b.

Definition installed (s : t) (i : nat) (slot : LeaseSlot) (r : IovaRange.t) : t :=
  with_leases (<[i := mkSlot r (generation slot + 1) true]> (leases s)) (active_count s + 1) s.

Definition released (s : t) (i : nat) (slot : LeaseSlot) : t :=
  with_leases (<[i := mkSlot IovaRange.EMPTY (generation slot) false]> (leases s))
    (active_count s - 1) s.

Lemma blocked_lease s i slot :
  leases s !! i = Some slot → active slot = true → range_of slot ∈ blocked s.
Proof.
  intros Hi Ha. apply elem_of_app. right. apply list_elem_of_fmap_2.
  apply list_elem_of_In, filter_In. split; [|done].
  apply list_elem_of_In. by eapply list_elem_of_lookup_2.
Qed.

Lemma elem_of_blocked s b :
  b ∈ blocked s ↔ b ∈ fixed s ∨ ∃ i slot, leases s !! i = Some slot ∧ active slot = true ∧
    b = range_of slot.
Proof.
  split.
  - intros [Hb|Hb]%elem_of_app; [by left|right].
    apply list_elem_of_fmap in Hb as (slot & -> & Hs).
    apply list_elem_of_In, filter_In in Hs as [Hs Ha].
    apply list_elem_of_In, list_elem_of_lookup in Hs as [i Hi]. by exists i, slot.
  - intros [Hb|(i & slot & Hi & Ha & ->)]; [apply elem_of_app; by left|].
    by eapply blocked_lease.
Qed.

Lemma fits_placeable s request a :
  ledger_ok s → request_ok request →
  fits s (IovaRequest.page_count request * IOVA_PAGE_SIZE)
    (IovaRequest.alignment_pages request * IOVA_PAGE_SIZE) a →
  placeable s (IovaRange.mk a (a + IovaRequest.page_count request * IOVA_PAGE_SIZE)).
Proof.
  intros Hok (Hp & Hpow & Hl & _) (Hmod & Hs & He & Hdis).
  pose proof (lo_aperture _ Hok) as (? & ? & _). pose proof (pow2_pos _ Hpow).
  assert (Ha : a mod IOVA_PAGE_SIZE = 0).
  { apply Z.mod_divide in Hmod as [q ->]; [|unfold IOVA_PAGE_SIZE in *; lia].
    rewrite Z.mul_assoc. by apply Z_mod_mult. }
  split; [|by split].
  split; simpl; [unfold IOVA_PAGE_SIZE in *; lia|]. split; [lia|]. split; [done|].
  by rewrite Z_mod_plus_full.
Qed.

Lemma ledger_slot s i slot :
  ledger_ok s → leases s !! i = Some slot →
  0 <= Z.of_nat i < MAX 32 ∧ Z.of_nat i < Z.of_nat (List.length (leases s)) ∧
  u32 (generation slot).
Proof.
  intros Hok Hi. pose proof (lo_capacity _ Hok). pose proof (lookup_lt_Some _ _ _ Hi).
  split; [lia|]. split; [lia|]. by eapply sl_generation, lo_slots.
Qed.

Lemma active_bound s : ledger_ok s → 0 <= active_count s <= MAX 32.
Proof.
  intros Hok. rewrite (lo_active _ Hok). pose proof (count_bounds active (leases s)).
  pose proof (lo_capacity _ Hok). lia.
Qed.

Lemma install_ok s i slot r :
  ledger_ok s → leases s !! i = Some slot → reusable slot = true →
  install i r s = Done (handle i (generation slot + 1)) (installed s i slot r).
Proof.
  intros Hok Hi Hr. destruct (ledger_slot s i slot Hok Hi) as (? & ? & Hg).
  pose proof (active_bound s Hok). unfold reusable, MAX, in_width in *. bool_to_prop.
  unfold install, index, add, store, checked_add, get, put, mbind, M_bind.
  destruct (Z.leb_spec 0 (Z.of_nat i)); [|lia]. rewrite Nat2Z.id, Hi. unfold mret, M_ret.
  destruct (Z.ltb_spec (generation slot + 1) (2 ^ 32)); [|lia].
  destruct (Z.ltb_spec (Z.of_nat i) (Z.of_nat (List.length (leases s)))); [|lia].
  cbn [andb]. cbv beta iota. destruct (Z.ltb_spec (active_count s + 1) (2 ^ 64)); [|lia].
  cbv beta iota. rewrite lease_new_eq by (unfold MAX, in_width; lia). done.
Qed.

Lemma installed_ok s i slot r :
  ledger_ok s → leases s !! i = Some slot → reusable slot = true → placeable s r →
  ledger_ok (installed s i slot r).
Proof.
  intros Hok Hi Hr (Hrange & Hin & Hdis).
  destruct (ledger_slot s i slot Hok Hi) as (? & ? & Hg).
  assert (Hna : active slot = false ∧ generation slot < MAX 32).
  { unfold reusable, MAX, in_width in *. bool_to_prop. split; [done|lia]. }
  destruct Hok, Hna as [Hna Hmax]. split; simpl; try done.
  - by rewrite length_insert.
  - intros j q [[-> [<- _]]|[? Hq]]%list_lookup_insert_Some.
    + unfold MAX, in_width in *. split; simpl; unfold in_width; [lia| |lia].
      intros _. split; [done|]. split; [done|]. intros b Hb. apply Hdis.
      apply elem_of_app. by left.
    + by destruct (lo_slots0 j q Hq); split.
  - intros j k p q Hjk [[-> [<- _]]|[? Hp]]%list_lookup_insert_Some
      [[-> [<- _]]|[? Hq]]%list_lookup_insert_Some Hap Haq; simpl; try done.
    + eapply Hdis, blocked_lease; done.
    + eapply disjoint_sym, Hdis, blocked_lease; done.
    + by apply (lo_apart0 j k).
  - rewrite (count_insert _ _ _ _ _ Hi). simpl. rewrite Hna. lia.
Qed.

Lemma released_ok s i slot :
  ledger_ok s → leases s !! i = Some slot → active slot = true →
  ledger_ok (released s i slot).
Proof.
  intros Hok Hi Ha. destruct (ledger_slot s i slot Hok Hi) as (? & ? & Hg).
  destruct Hok. split; simpl; try done.
  - by rewrite length_insert.
  - intros j q [[-> [<- _]]|[? Hq]]%list_lookup_insert_Some; [by split|].
    by destruct (lo_slots0 j q Hq); split.
  - intros j k p q Hjk [[-> [<- _]]|[? Hp]]%list_lookup_insert_Some
      [[-> [<- _]]|[? Hq]]%list_lookup_insert_Some Hap Haq; simpl; try done.
    by apply (lo_apart0 j k).
  - rewrite (count_insert _ _ _ _ _ Hi). simpl. rewrite Ha. lia.
Qed.

(** What a successful request for a lease does. *)
Definition granted (s : t) (l : IovaLease.t) (r : IovaRange.t) (s' : t) : Prop :=
  ∃ i slot, leases s !! i = Some slot ∧ reusable slot = true ∧
    l = handle i (generation slot + 1) ∧ s' = installed s i slot r.

Definition full (s : t) : Prop := ∀ slot, slot ∈ leases s → reusable slot = false.

Lemma reserve_ok s request :
  ledger_ok s → request_ok request →
  let length := IovaRequest.page_count request * IOVA_PAGE_SIZE in
  let alignment := IovaRequest.alignment_pages request * IOVA_PAGE_SIZE in
  wp (reserve request)
    (λ l s', ∃ a, granted s l (IovaRange.mk a (a + length)) s' ∧
       fits s length alignment a ∧ ∀ x, fits s length alignment x → a <= x)
    (λ e s', s' = s ∧ ((e = LeaseCapacity ∧ full s) ∨
       (e = AddressSpaceExhausted ∧ ∀ x, ¬ fits s length alignment x))) s.
Proof.
  intros Hok Hreq length alignment. unfold reserve. wp_simpl.
  destruct (position reusable (leases s)) as [i|] eqn:Hpos.
  - apply position_Some in Hpos as [(slot & Hi & Hr) _].
    rewrite wp_bind. eapply wp_mono; [by apply first_fit_ok| |].
    + intros r s' (-> & Hr' & Hfits & Hlow). eapply wp_eq; [by apply install_ok|].
      rewrite Hr'. exists (start r). split; [by exists i, slot|done].
    + intros e s' (-> & -> & Hno). split; [done|]. by right.
  - wp_simpl. split; [done|]. left. split; [done|]. intros slot. by apply position_None.
Qed.

Lemma reserve_exact_ok s r :
  ledger_ok s → range_ok r →
  wp (reserve_exact r)
    (λ l s', placeable s r ∧ granted s l r s')
    (λ e s', s' = s ∧ ((e = ExactRangeUnavailable ∧ ¬ placeable s r) ∨
                       (e = LeaseCapacity ∧ full s))) s.
Proof.
  intros Hok Hr. unfold reserve_exact. wp_simpl. rewrite wp_reserved_ranges by apply Hok.
  destruct (_ || _ || _) eqn:Hbad.
  - wp_simpl. split; [done|]. left. split; [done|]. intros (_ & Hin & Hdis).
    rewrite (proj2 (contains_inside _ _) Hin) in Hbad. simpl in Hbad.
    apply orb_true_iff in Hbad as [Hb|Hb]; apply existsb_elem in Hb as (b & Hb & Ho).
    + rewrite overlaps_sym in Ho. rewrite (proj2 (overlaps_disjoint r b)) in Ho; [done|].
      apply Hdis, elem_of_app. by left.
    + rewrite overlaps_sym in Ho. rewrite (proj2 (overlaps_disjoint _ _)) in Ho; [done|].
      apply Hdis, elem_of_app. right. by apply list_elem_of_fmap_2.
  - apply orb_false_iff in Hbad as [[Hc Hf]%orb_false_iff Hl].
    apply negb_false_iff, contains_inside in Hc.
    rewrite existsb_not_elem in Hf. rewrite existsb_not_elem in Hl.
    assert (Hplace : placeable s r).
    { split; [done|]. split; [done|]. intros b [Hb|Hb]%elem_of_app; apply overlaps_disjoint.
      - rewrite overlaps_sym. by apply Hf.
      - apply list_elem_of_fmap in Hb as (slot & -> & Hs). rewrite overlaps_sym. by apply Hl. }
    wp_simpl. destruct (position reusable (leases s)) as [i|] eqn:Hpos.
    + apply position_Some in Hpos as [(slot & Hi & Hre) _].
      eapply wp_eq; [by apply install_ok|]. split; [done|]. by exists i, slot.
    + split; [done|]. right. split; [done|]. intros slot. by apply position_None.
Qed.

(** The slot a handle names. *)
Definition names (s : t) (l : IovaLease.t) (i : nat) (slot : LeaseSlot) : Prop :=
  leases s !! i = Some slot ∧ active slot = true ∧ l = handle i (generation slot).

Lemma lease_split l i :
  u64 l → IovaLease.slot l = Some i → l = handle (Z.to_nat i) (IovaLease.generation l) ∧ 0 <= i.
Proof.
  unfold IovaLease.slot, IovaLease.generation, handle, wrap, in_width. intros Hl.
  destruct (Z.eqb_spec (l mod 2 ^ 32) 0); [done|]. intros [= <-].
  rewrite Z.shiftr_div_pow2 by lia. pose proof (Z.mod_pos_bound l (2 ^ 32)).
  rewrite Z2Nat.id by lia. split; [|lia].
  rewrite (Z.mod_small (l / 2 ^ 32)) by (Z.div_mod_to_equations; lia).
  pose proof (Z.div_mod l (2 ^ 32)). lia.
Qed.

Lemma handle_decode s i slot :
  ledger_ok s → leases s !! i = Some slot →
  IovaLease.slot (handle i (generation slot)) = Some (Z.of_nat i) ∧
  IovaLease.generation (handle i (generation slot)) = generation slot.
Proof. intros Hok Hi. apply ledger_slot in Hi as (? & ? & ?); [|done]. by apply lease_decode. Qed.

(** The test [range] and [release] share. *)
Definition current (s : t) (l : IovaLease.t) (i : Z) : option LeaseSlot :=
  slot ← leases s !! Z.to_nat i;
  if active slot && (generation slot =? IovaLease.generation l) then Some slot else None.

Lemma current_names s l i slot :
  u64 l → IovaLease.slot l = Some i → current s l i = Some slot → names s l (Z.to_nat i) slot.
Proof.
  intros Hl Hi. apply lease_split in Hi as [Heq ?]; [|done]. unfold current.
  destruct (leases s !! Z.to_nat i) as [sl|] eqn:Hlk; simpl; [|done].
  destruct (_ && _) eqn:Hb; [|done]. intros [= <-]. bool_to_prop.
  split; [done|]. split; [done|]. congruence.
Qed.

Lemma names_current s l i slot :
  ledger_ok s → names s l i slot →
  IovaLease.slot l = Some (Z.of_nat i) ∧ current s l (Z.of_nat i) = Some slot.
Proof.
  intros Hok (Hi & Ha & ->). destruct (handle_decode s i slot Hok Hi) as [Hs Hg].
  split; [done|]. unfold current. rewrite Nat2Z.id, Hi. simpl. by rewrite Hg, Ha, Z.eqb_refl.
Qed.

Lemma range_ok_spec s l :
  ledger_ok s → u64 l →
  wp (range l)
    (λ r s', s' = s ∧ ∃ i slot, names s l i slot ∧ r = range_of slot)
    (λ e s', s' = s ∧ e = StaleLease ∧ ∀ i slot, ¬ names s l i slot) s.
Proof.
  intros Hok Hl. unfold range, slot. wp_simpl.
  destruct (IovaLease.slot l) as [i|] eqn:Hi; wp_simpl.
  - fold (current s l i). destruct (current s l i) as [slot|] eqn:Hc; wp_simpl.
    + split; [done|]. exists (Z.to_nat i), slot. split; [by apply current_names|done].
    + split; [done|]. split; [done|]. intros j slot [Hs Hcur]%names_current; congruence.
  - split; [done|]. split; [done|]. intros j slot [Hs Hcur]%names_current; congruence.
Qed.

Lemma names_range s l i slot :
  ledger_ok s → names s l i slot → range l s = Done (range_of slot) s.
Proof.
  intros Hok [Hs Hc]%names_current; [|done]. apply wp_exact. unfold range, IovaLedger.slot.
  wp_simpl. rewrite Hs. wp_simpl. fold (current s l (Z.of_nat i)). by rewrite Hc.
Qed.

Lemma release_ok s l :
  ledger_ok s → u64 l →
  wp (release l)
    (λ r s', ∃ i slot, names s l i slot ∧ r = range_of slot ∧ s' = released s i slot)
    (λ e s', s' = s ∧ e = StaleLease ∧ ∀ i slot, ¬ names s l i slot) s.
Proof.
  intros Hok Hl. unfold release. wp_simpl.
  destruct (IovaLease.slot l) as [i|] eqn:Hi; wp_simpl.
  - fold (current s l i). destruct (current s l i) as [slot|] eqn:Hc; wp_simpl.
    + apply current_names in Hc as Hn; [|done..]. destruct Hn as (Hlk & Ha & Heq).
      apply wp_sub; wp_simpl.
      * rewrite (lo_active _ Hok). enough (0 < count active (leases s)) by lia.
        eapply count_pos; [by eapply list_elem_of_lookup_2|done].
      * exists (Z.to_nat i), slot. by repeat split.
    + split; [done|]. split; [done|]. intros j slot [Hs Hcur]%names_current; congruence.
  - split; [done|]. split; [done|]. intros j slot [Hs Hcur]%names_current; congruence.
Qed.

(** *** Batches *)

(** The requests served one after the other. *)
Inductive in_sequence : t → list IovaRequest.t → list IovaLease.t → t → Prop :=
| seq_nil s : in_sequence s [] [] s
| seq_cons s q l s' qs ls s'' :
    reserve q s = Done l s' → in_sequence s' qs ls s'' → in_sequence s (q :: qs) (l :: ls) s''.

Lemma reserve_preserves s q l s' :
  ledger_ok s → request_ok q → reserve q s = Done l s' →
  ledger_ok s' ∧ List.length (leases s') = List.length (leases s).
Proof.
  intros Hok Hq Hr. apply (wp_Done _ _ _ _ _ _ (reserve_ok s q Hok Hq)) in Hr
    as (a & (i & slot & Hi & Hre & _ & ->) & Hf & _).
  split; [|apply length_insert].
  apply installed_ok; try done. by apply fits_placeable.
Qed.

Lemma stage_ok requests s index staged :
  ledger_ok s → Forall request_ok requests → 0 <= index →
  index + Z.of_nat (List.length requests) <= Z.of_nat (List.length staged) <= MAX 32 →
  wp (stage requests index staged)
    (λ out s', ∃ ls, in_sequence s requests ls s' ∧
       take (Z.to_nat index + List.length requests) out = take (Z.to_nat index) staged ++ ls ∧
       List.length out = List.length staged)
    (λ e s', ∃ qs q qs' ls s1, requests = qs ++ q :: qs' ∧ in_sequence s qs ls s1 ∧
       reserve q s1 = Fail e s') s.
Proof.
  revert s index staged. induction requests as [|q qs IH]; intros s index staged Hok Hqs Hi Hlen; simpl.
  - rewrite wp_ret. exists []. split; [constructor|]. by rewrite Nat.add_0_r, app_nil_r.
  - apply Forall_cons in Hqs as [Hq Hqs]. rewrite wp_bind.
    destruct (reserve q s) as [l s1|e s1|] eqn:Hr.
    + destruct (reserve_preserves _ _ _ _ Hok Hq Hr) as [Hok1 _].
      eapply wp_eq; [done|]. simpl. simpl in Hlen. wp_simpl. unfold MAX in *.
      apply wp_store; [lia|]. wp_simpl. apply wp_add; [lia|].
      eapply wp_mono; [apply IH; [done|done|lia|rewrite length_insert; unfold MAX; lia]| |].
      * intros out s' (ls & Hseq & Htake & Hl). exists (l :: ls).
        split; [by econstructor|]. rewrite length_insert in Hl. split; [|done].
        replace (Z.to_nat (index + 1)) with (S (Z.to_nat index)) in Htake by lia.
        rewrite Nat.add_succ_r. rewrite Nat.add_succ_l in Htake. rewrite Htake.
        rewrite (take_S_r _ _ l) by (apply list_lookup_insert_eq; lia).
        rewrite take_insert_ge by lia. by rewrite <- app_assoc.
      * intros e s' (qs1 & q' & qs2 & ls & s2 & -> & Hseq & Hf).
        exists (q :: qs1), q', qs2, (l :: ls), s2. split; [done|]. split; [by econstructor|done].
    + eapply wp_eq; [done|]. exists [], q, qs, [], s. split; [done|]. split; [constructor|done].
    + pose proof (reserve_ok s q Hok Hq) as Hw. by apply wp_no_panic in Hw.
Qed.

(** *** Construction *)

Lemma sorted_app l k :
  sorted (l ++ k) ↔ sorted l ∧ sorted k ∧ ∀ r q, r ∈ l → q ∈ k → end_ r <= start q.
Proof.
  induction l as [|r l IH]; simpl.
  - split; [|by intros (_ & ? & _)]. intros. split; [done|]. split; [done|].
    intros r q Hr. inversion Hr.
  - rewrite IH. setoid_rewrite elem_of_app. setoid_rewrite elem_of_cons. split.
    + intros (H1 & H2 & H3 & H4). split; [by auto|]. split; [done|].
      intros r' q [->|?] ?; auto.
    + intros ((H1 & H2) & H3 & H4). split; [|split; [done|split; [done|by auto]]].
      intros q [?|?]; auto.
Qed.

Definition with_reserved (rs : list IovaRange.t) (n : Z) (s : t) : t :=
  mk (aperture s) rs n (leases s) (active_count s).

(** One move duplicates the element before the gap. *)
Lemma shift_step_ok s pre m x post Q R :
  reserved s = pre ++ m :: x :: post → Z.of_nat (List.length (reserved s)) < 2 ^ 64 →
  Q () (with_reserved (pre ++ m :: m :: post) (reserved_count s) s) →
  wp (shift_right (Z.of_nat (List.length pre))) Q R s.
Proof.
  intros Hs Hw HQ. rewrite Hs, length_app in Hw. simpl in Hw. unfold shift_right. wp_simpl.
  apply (wp_index _ _ m); [lia|by rewrite Hs, Nat2Z.id, list_lookup_middle|]. wp_simpl.
  apply wp_add; [lia|]. wp_simpl.
  apply wp_store; [rewrite Hs, length_app; simpl; lia|]. wp_simpl.
  rewrite Hs, insert_app_r_alt by lia.
  by replace (Z.to_nat _ - _)%nat with 1%nat by lia.
Qed.

(** The shift opens a gap at the insertion point. *)
Lemma shift_loop_ok s pre mid x post Q R :
  reserved s = pre ++ mid ++ x :: post → Z.of_nat (List.length (reserved s)) < 2 ^ 64 →
  (∀ y, Q () (with_reserved (pre ++ y :: mid ++ post) (reserved_count s) s)) →
  wp (mfor (rev (Prelude.range (Z.of_nat (List.length pre))
        (Z.of_nat (List.length pre + List.length mid)))) shift_right) Q R s.
Proof.
  revert s x post. induction mid as [|m mid IH] using rev_ind; intros s x post Hs Hw HQ.
  - rewrite range_nil by (simpl; lia). simpl. rewrite wp_ret. specialize (HQ x).
    unfold with_reserved in HQ. simpl in *. rewrite <- Hs in HQ. by destruct s.
  - rewrite length_app. simpl List.length.
    replace (Z.of_nat (List.length pre + (List.length mid + 1)))
      with (Z.of_nat (List.length (pre ++ mid)) + 1) by (rewrite length_app; lia).
    rewrite range_snoc by (rewrite length_app; lia). rewrite rev_app_distr. simpl. rewrite wp_bind.
    rewrite <- app_assoc, app_assoc in Hs. simpl in Hs.
    eapply shift_step_ok; [done|done|]. rewrite length_app.
    apply (IH _ m (m :: post)); simpl.
    + by rewrite <- app_assoc.
    + rewrite Hs, !length_app in Hw. rewrite !length_app. simpl in *. lia.
    + intros y. specialize (HQ y). by rewrite <- app_assoc in HQ.
Qed.

(** Where the insertion point splits a sorted list that a new range misses. *)
Lemma insertion_point l r :
  (∀ q, q ∈ l → range_ok q) → range_ok r → sorted l → (∀ q, q ∈ l → disjoint q r) →
  let p := match position (λ e, start r <? start e) l with Some p => p | None => List.length l end in
  (p <= List.length l)%nat ∧ sorted (take p l ++ r :: drop p l).
Proof.
  intros Hl Hr Hsort Hdis p.
  assert (Hp : (p <= List.length l)%nat ∧ (∀ q, q ∈ take p l → start q <= start r) ∧
               (∀ q, q ∈ drop p l → start r < start q)).
  { unfold p. destruct (position _ l) as [i|] eqn:Hpos.
    - pose proof (position_lt _ _ _ Hpos).
      apply position_Some in Hpos as [(x & Hx & Hlt) Hmin]. bool_to_prop.
      split; [lia|]. split.
      + intros q [j [Hj Hji]%lookup_take_Some]%list_elem_of_lookup.
        apply Z.ltb_ge. by apply (Hmin j).
      + rewrite (drop_S _ _ _ Hx). intros q [->|Hq]%elem_of_cons; [done|].
        rewrite <- (take_drop_middle _ _ _ Hx) in Hsort.
        apply sorted_app in Hsort as (_ & [Hxq _] & _). specialize (Hxq q Hq).
        assert (x ∈ l) as [? _]%Hl by (by eapply list_elem_of_lookup_2). lia.
    - split; [done|]. rewrite firstn_all, drop_all. split; [|intros q Hq; inversion Hq].
      intros q Hq. apply position_None with (x := q) in Hpos; [|done]. by apply Z.ltb_ge. }
  destruct Hp as (Hp & Hbefore & Hafter). split; [done|].
  rewrite <- (take_drop p l) in Hsort, Hl, Hdis. apply sorted_app in Hsort as (H1 & H2 & H3).
  setoid_rewrite elem_of_app in Hl. setoid_rewrite elem_of_app in Hdis.
  destruct Hr as (? & _). apply sorted_app. split; [done|]. simpl. split; [split; [|done]|].
  - intros q Hq. pose proof (Hafter q Hq). destruct (Hl q ltac:(by right)) as (? & _).
    destruct (Hdis q ltac:(by right)); lia.
  - intros q q' Hq [->|Hq']%elem_of_cons; [|by auto]. pose proof (Hbefore q Hq).
    destruct (Hl q ltac:(by left)) as (? & _). destruct (Hdis q ltac:(by left)); lia.
Qed.

Definition idle (s : t) : Prop := ∀ slot, slot ∈ leases s → slot = EMPTY.

(** A reserved table with one more good range keeps the invariant. *)
Lemma with_reserved_ok s rs n r fs :
  ledger_ok s → idle s → range_ok r → inside r (aperture s) →
  List.length rs = List.length (reserved s) → 0 <= n <= Z.of_nat (List.length rs) →
  take (Z.to_nat n) rs = fs → sorted fs → (∀ q, q ∈ fs → q = r ∨ q ∈ fixed s) →
  ledger_ok (with_reserved rs n s).
Proof.
  intros Hok Hidle Hr Hin Hlen Hn Hfs Hsort Hq. destruct Hok. split; simpl; try done.
  - by rewrite Hlen.
  - unfold fixed. simpl. rewrite Hfs. intros q [->|Hf]%Hq; [done|]. by apply lo_fixed0.
  - unfold fixed. simpl. by rewrite Hfs.
  - intros i slot Hi. rewrite (Hidle slot) by (by eapply list_elem_of_lookup_2). by split.
Qed.

Lemma fixed_length s :
  0 <= reserved_count s <= Z.of_nat (List.length (reserved s)) →
  List.length (fixed s) = Z.to_nat (reserved_count s).
Proof. intros. unfold fixed. rewrite length_take. lia. Qed.

(** The table around an insertion point, and the table with the new entry. *)
Lemma table_split s p :
  0 <= reserved_count s < Z.of_nat (List.length (reserved s)) →
  (p <= List.length (fixed s))%nat →
  ∃ x post, reserved s = take p (fixed s) ++ drop p (fixed s) ++ x :: post ∧
    List.length (take p (fixed s)) = p ∧
    Z.of_nat p + Z.of_nat (List.length (drop p (fixed s))) = reserved_count s.
Proof.
  intros Hc Hp.
  destruct (drop (Z.to_nat (reserved_count s)) (reserved s)) as [|x post] eqn:Hd.
  { apply (f_equal List.length) in Hd. rewrite length_drop in Hd. simpl in Hd. lia. }
  exists x, post. split; [|split].
  - rewrite app_assoc, take_drop, <- Hd. symmetry. apply take_drop.
  - rewrite length_take. lia.
  - rewrite length_drop, fixed_length in * by lia. lia.
Qed.

Lemma inserted_table s p r x post :
  reserved s = take p (fixed s) ++ drop p (fixed s) ++ x :: post →
  List.length (take p (fixed s)) = p →
  Z.of_nat p + Z.of_nat (List.length (drop p (fixed s))) = reserved_count s →
  let rs := take p (fixed s) ++ r :: drop p (fixed s) ++ post in
  List.length rs = List.length (reserved s) ∧
  take (Z.to_nat (reserved_count s + 1)) rs = take p (fixed s) ++ r :: drop p (fixed s).
Proof.
  intros Hsplit Hlp Hld rs. unfold rs. split.
  - rewrite Hsplit, !length_app. simpl. rewrite !length_app. simpl. lia.
  - rewrite app_comm_cons, app_assoc, take_app_le by (rewrite length_app; simpl; lia).
    apply firstn_all2. rewrite length_app. simpl. lia.
Qed.

Lemma insert_reserved_ok s r :
  ledger_ok s → idle s → range_ok r → reserved_count s < Z.of_nat (List.length (reserved s)) →
  wp (insert_reserved r)
    (λ _ s', ledger_ok s' ∧ idle s' ∧ aperture s' = aperture s ∧
       reserved_count s' = reserved_count s + 1 ∧
       List.length (reserved s') = List.length (reserved s) ∧ leases s' = leases s ∧
       fixed s' ≡ₚ r :: fixed s ∧ inside r (aperture s) ∧ ∀ q, q ∈ fixed s → disjoint q r)
    (λ e s', (e = ReservedOutsideAperture ∧ ¬ inside r (aperture s)) ∨
       (e = OverlappingReservedRanges ∧ ∃ q, q ∈ fixed s ∧ ¬ disjoint q r)) s.
Proof.
  intros Hok Hidle Hr Hroom. unfold insert_reserved. wp_simpl.
  pose proof (lo_count _ Hok) as Hc. pose proof (lo_width _ Hok) as Hw.
  destruct (contains (aperture s) r) eqn:Hin; cbn [negb]; wp_simpl.
  2:{ left. split; [done|]. rewrite <- contains_inside. congruence. }
  apply contains_inside in Hin. rewrite wp_reserved_ranges by done.
  destruct (existsb _ (fixed s)) eqn:Hex; wp_simpl.
  { right. split; [done|]. apply existsb_elem in Hex as (q & Hq & Ho). exists q.
    split; [done|]. rewrite <- overlaps_disjoint. congruence. }
  rewrite existsb_not_elem in Hex.
  assert (Hdis : ∀ q, q ∈ fixed s → disjoint q r) by (intros; apply overlaps_disjoint; auto).
  destruct (insertion_point (fixed s) r) as [Hp Hsort];
    [intros q Hq; by apply (lo_fixed _ Hok)|done|by apply Hok|done|].
  set (p := match position _ _ with Some p => p | None => List.length (fixed s) end) in *.
  replace (match position _ _ with Some p => Z.of_nat p | None => reserved_count s end)
    with (Z.of_nat p).
  2:{ unfold p. destruct (position _ _); [done|]. rewrite fixed_length by done. lia. }
  destruct (table_split s p) as (x & post & Hsplit & Hlp & Hld); [lia|done|].
  replace (Prelude.range (Z.of_nat p) (reserved_count s)) with
    (Prelude.range (Z.of_nat (List.length (take p (fixed s))))
       (Z.of_nat (List.length (take p (fixed s)) + List.length (drop p (fixed s))))).
  2:{ rewrite Hlp. f_equal. lia. }
  eapply shift_loop_ok; [done|done|]. intros y. wp_simpl. simpl.
  pose proof (f_equal List.length Hsplit) as Hls. rewrite !length_app in Hls. simpl in Hls.
  apply wp_store; [rewrite !length_app; simpl; rewrite length_app; lia|]. wp_simpl.
  apply wp_add; [lia|]. wp_simpl.
  rewrite insert_app_r_alt by lia. replace (Z.to_nat _ - _)%nat with 0%nat by lia. simpl.
  destruct (inserted_table s p r x post) as [Hrs Hfs]; [done..|].
  set (rs := take p (fixed s) ++ r :: drop p (fixed s) ++ post) in *.
  assert (Hperm : take p (fixed s) ++ r :: drop p (fixed s) ≡ₚ r :: fixed s).
  { rewrite <- Permutation_middle. by rewrite take_drop. }
  split; [|unfold fixed at 1; simpl; rewrite Hfs; by do 7 (split; [done|])].
  eapply (with_reserved_ok s rs (reserved_count s + 1) r); try done; [lia|].
  intros q. rewrite Hperm. apply elem_of_cons.
Qed.

Lemma insert_all_ok s done_ todo :
  ledger_ok s → idle s → Forall range_ok todo → fixed s ≡ₚ done_ →
  reserved_count s + Z.of_nat (List.length todo) <= Z.of_nat (List.length (reserved s)) →
  wp (mfor todo insert_reserved)
    (λ _ s', ledger_ok s' ∧ idle s' ∧ aperture s' = aperture s ∧ leases s' = leases s ∧
       fixed s' ≡ₚ done_ ++ todo)
    (λ e _, (e = ReservedOutsideAperture ∧ ∃ r, r ∈ todo ∧ ¬ inside r (aperture s)) ∨
       (e = OverlappingReservedRanges ∧ ∃ i j q r, i ≠ j ∧ (done_ ++ todo) !! i = Some q ∧
          (done_ ++ todo) !! j = Some r ∧ ¬ disjoint q r)) s.
Proof.
  revert s done_. induction todo as [|r todo IH]; intros s done_ Hok Hidle Htodo Hperm Hroom; simpl.
  - rewrite wp_ret, app_nil_r. by do 4 (split; [done|]).
  - apply Forall_cons in Htodo as [Hr Htodo]. simpl in Hroom. rewrite wp_bind.
    eapply wp_mono; [apply insert_reserved_ok; (done || lia)| |].
    + intros [] s1 (Hok1 & Hidle1 & Hap & Hc & Hlen & Hls & Hf & Hin & Hdis).
      eapply wp_mono; [apply (IH s1 (done_ ++ [r])); try done|..].
      * rewrite Hf, Hperm. apply Permutation_cons_append.
      * lia.
      * intros [] s2 (? & ? & ? & ? & Hp). rewrite <- app_assoc in Hp. simpl in Hp.
        do 2 (split; [done|]). split; [congruence|]. split; [congruence|done].
      * intros e _ [(-> & q & Hq & Hno)|(-> & i & j & q & q' & Hij & Hi & Hj & Hno)]; [left|right].
        -- split; [done|]. exists q. rewrite Hap in Hno. split; [by right|done].
        -- split; [done|]. rewrite <- app_assoc in Hi, Hj. by exists i, j, q, q'.
    + intros e _ [(-> & Hno)|(-> & q & Hq & Hno)]; [left|right].
      * split; [done|]. exists r. split; [left|done].
      * split; [done|]. rewrite Hperm in Hq. apply list_elem_of_lookup in Hq as [i Hi].
        pose proof (lookup_lt_Some _ _ _ Hi).
        exists i, (List.length done_), q, r. split; [lia|].
        split; [by apply lookup_app_l_Some|]. split; [by apply list_lookup_middle|done].
Qed.

End IovaFacts.

(** ** Runs of a ledger *)

Module IovaRuns.
Import IovaRange IovaLedger IovaFacts.

(** The state-changing calls; requests and ranges are built by their
    constructors, and a handle is any 64-bit word. *)
Inductive call :=
| Reserve (request : IovaRequest.t)
| ReserveExact (range : IovaRange.t)
| ReserveMany (requests : list IovaRequest.t) (output : list IovaLease.t)
| Release (lease : IovaLease.t).

Definition call_ok (c : call) : Prop :=
  match c with
  | Reserve q => request_ok q
  | ReserveExact r => range_ok r
  | ReserveMany qs _ => Forall request_ok qs
  | Release l => u64 l
  end.

(** A call, with the leases it grants. *)
Definition run (c : call) : M t IovaError (list IovaLease.t) :=
  match c with
  | Reserve q => l ← reserve q; mret [l]
  | ReserveExact r => l ← reserve_exact r; mret [l]
  | ReserveMany qs output => λ s,
      match reserve_many qs (s, output) with
      | Done _ (s', out) => Done out s'
      | Fail e (s', _) => Fail e s'
      | Panic => Panic
      end
  | Release l => release l ;; mret []
  end.

(** A sequence of calls, with all the leases granted along it. *)
Inductive history : t → list IovaLease.t → t → Prop :=
| history_nil s : history s [] s
| history_done s c ls s' ls' s'' :
    call_ok c → run c s = Done ls s' → history s' ls' s'' → history s (ls ++ ls') s''
| history_fail s c e s' ls s'' :
    call_ok c → run c s = Fail e s' → history s' ls s'' → history s ls s''.

(** The same run as single grants and revocations. *)
Inductive trace : t → list IovaLease.t → t → Prop :=
| trace_nil s : trace s [] s
| trace_grant s l r s' ls s'' :
    placeable s r → granted s l r s' → trace s' ls s'' → trace s (l :: ls) s''
| trace_revoke s i slot ls s'' :
    leases s !! i = Some slot → active slot = true → trace (released s i slot) ls s'' →
    trace s ls s''.

Lemma trace_app s ls s' ls' s'' : trace s ls s' → trace s' ls' s'' → trace s (ls ++ ls') s''.
Proof. induction 1; simpl; eauto using trace. Qed.

Lemma trace_one s l r s' : placeable s r → granted s l r s' → trace s [l] s'.
Proof. eauto using trace. Qed.

Lemma in_sequence_trace s qs ls s' :
  ledger_ok s → Forall request_ok qs → in_sequence s qs ls s' → trace s ls s'.
Proof.
  intros Hok Hqs Hseq. induction Hseq as [|s q l s' qs ls s'' Hr Hseq IH]; [constructor|].
  apply Forall_cons in Hqs as [Hq Hqs].
  destruct (reserve_preserves _ _ _ _ Hok Hq Hr) as [Hok' _].
  apply (wp_Done _ _ _ _ _ _ (reserve_ok s q Hok Hq)) in Hr as (a & Hg & Hf & _).
  eapply trace_grant; [by apply fits_placeable|done|by auto].
Qed.

Lemma reserve_many_ok s qs output :
  ledger_ok s → Forall request_ok qs →
  wp (reserve_many qs)
    (λ _ st, List.length st.2 = List.length output ∧ in_sequence s qs st.2 st.1)
    (λ e st, st = (s, output) ∧
       ((e = BatchOutputMismatch ∧ (qs = [] ∨ List.length qs ≠ List.length output ∨
           (List.length (leases s) < List.length qs)%nat)) ∨
        ∃ qs1 q qs2 ls s1 s2, qs = qs1 ++ q :: qs2 ∧ in_sequence s qs1 ls s1 ∧
          reserve q s1 = Fail e s2)) (s, output).
Proof.
  intros Hok Hqs. unfold reserve_many. rewrite wp_bind, wp_get.
  destruct (_ || _ || _) eqn:Hbad.
  - rewrite wp_throw. split; [done|]. left. split; [done|].
    apply orb_true_iff in Hbad as [[Hb|Hb]%orb_true_iff|Hb].
    + apply bool_decide_eq_true in Hb. by left.
    + bool_to_prop. right. left. lia.
    + bool_to_prop. right. right. lia.
  - bool_to_prop. pose proof (lo_capacity _ Hok).
    pose proof (stage_ok qs s 0 (replicate (List.length (leases s)) IovaLease.INVALID)) as Hst.
    specialize (Hst Hok Hqs). rewrite length_replicate in Hst.
    specialize (Hst ltac:(lia) ltac:(unfold MAX in *; lia)). unfold wp in Hst.
    destruct (stage _ _ _ _) as [staged s'|e s'|] eqn:Hs; [| |done].
    + destruct Hst as (ls & Hseq & Htake & Hlen). simpl in Htake.
      rewrite wp_bind. apply wp_slice_to; [lia|]. rewrite wp_put. simpl.
      rewrite Nat2Z.id, Htake. split; [|done].
      apply (f_equal List.length) in Htake. rewrite length_take in Htake. lia.
    + rewrite wp_throw. split; [done|]. right.
      destruct Hst as (qs1 & q & qs2 & ls & s1 & ? & ? & ?). by exists qs1, q, qs2, ls, s1, s'.
Qed.

(** Each call is a batch of grants, one revocation, or nothing. *)
Lemma run_ok c s :
  ledger_ok s → call_ok c → wp (run c) (λ ls s', trace s ls s') (λ _ s', s' = s) s.
Proof.
  intros Hok Hc. destruct c as [q|r|qs output|l]; simpl in *; wp_simpl.
  - eapply wp_mono; [by apply reserve_ok| |by intros ? ? []].
    intros l s' (a & Hg & Hf & _). wp_simpl. eapply trace_one; [by apply fits_placeable|done].
  - eapply wp_mono; [by apply reserve_exact_ok| |by intros ? ? []].
    intros l s' (Hp & Hg). wp_simpl. by eapply trace_one.
  - pose proof (reserve_many_ok s qs output Hok Hc) as Hm. unfold wp in *.
    destruct (reserve_many _ _) as [[] [s' out]|e [s' out]|]; [| |done].
    + apply (in_sequence_trace s qs); [done|done|apply Hm].
    + by destruct Hm as [[= -> _] _].
  - eapply wp_mono; [by apply release_ok| |by intros ? ? []].
    intros r s' (i & slot & (Hi & Ha & _) & _ & ->). wp_simpl. eapply trace_revoke; eauto using trace.
Qed.

Lemma trace_ok s ls s' : ledger_ok s → trace s ls s' → ledger_ok s'.
Proof.
  intros Hok Ht. induction Ht as [|s l r s' ls s'' Hp (i & slot & Hi & Hr & -> & ->)| ]; [done|..].
  - by apply IHHt, installed_ok.
  - by apply IHHt, released_ok.
Qed.

Lemma history_trace s ls s' : ledger_ok s → history s ls s' → trace s ls s'.
Proof.
  intros Hok Hh. induction Hh as [|s c ls s' ls' s'' Hc Hr Hh IH|s c e s' ls s'' Hc Hr Hh IH].
  - constructor.
  - apply (wp_Done _ _ _ _ _ _ (run_ok c s Hok Hc)) in Hr.
    eapply trace_app; [done|]. apply IH. by eapply trace_ok.
  - apply (wp_Fail _ _ _ _ _ _ (run_ok c s Hok Hc)) in Hr as ->. by auto.
Qed.

(** *** Handles along a run *)

Lemma handle_inj s i slot g j :
  ledger_ok s → leases s !! i = Some slot → 0 <= Z.of_nat j < MAX 32 → u32 g →
  handle j g = handle i (generation slot) → j = i ∧ g = generation slot.
Proof.
  intros Hok Hi Hj Hg Heq. destruct (handle_decode s i slot Hok Hi) as [Hs Hgen].
  destruct (lease_decode (Z.of_nat j) g Hj Hg) as [Hs' Hg']. fold (handle j g) in Hs', Hg'.
  rewrite Heq in Hs', Hg'. split; [|congruence]. rewrite Hs in Hs'. injection Hs' as ?. lia.
Qed.

(** The handle was issued, so the slot has reached its generation; a dead one
    is not the active occupant of its slot. *)
Definition issued (i : nat) (g : Z) (s : t) : Prop :=
  ∃ slot, leases s !! i = Some slot ∧ g <= generation slot.
Definition dead (i : nat) (g : Z) (s : t) : Prop :=
  ∃ slot, leases s !! i = Some slot ∧ g <= generation slot ∧
    (generation slot = g → active slot = false).

Lemma issued_trace i g s ls s' : issued i g s → trace s ls s' → issued i g s'.
Proof.
  intros Hs Ht. induction Ht as [|s l r s' ls s'' Hp (j & sl & Hj & Hr & -> & ->) Ht IH
    |s j sl ls s'' Hj Ha Ht IH]; [done|..]; apply IH;
    destruct Hs as (slot & Hi & Hg); unfold issued; simpl;
    (destruct (decide (j = i)) as [->|]; [|by exists slot; rewrite list_lookup_insert_ne]);
    eexists; (split; [apply list_lookup_insert_eq; by eapply lookup_lt_Some|]);
    simpl; simplify_eq; lia.
Qed.

Lemma dead_trace i g s ls s' : dead i g s → trace s ls s' → dead i g s'.
Proof.
  intros Hs Ht. induction Ht as [|s l r s' ls s'' Hp (j & sl & Hj & Hr & -> & ->) Ht IH
    |s j sl ls s'' Hj Ha Ht IH]; [done|..]; apply IH;
    destruct Hs as (slot & Hi & Hg & Hd); unfold dead; simpl;
    (destruct (decide (j = i)) as [->|]; [|by exists slot; rewrite list_lookup_insert_ne]);
    eexists; (split; [apply list_lookup_insert_eq; by eapply lookup_lt_Some|]);
    simpl; simplify_eq; (split; [lia|]); [lia|done].
Qed.

Lemma issued_not_granted i g s ls s' :
  ledger_ok s → u32 g → issued i g s → trace s ls s' → handle i g ∉ ls.
Proof.
  intros Hok Hg Hs Ht. revert Hok Hs. induction Ht as [s|s l r s' ls s'' Hp Hgr Ht IH
    |s j sl ls s'' Hj Ha Ht IH]; intros Hok Hs.
  - apply not_elem_of_nil.
  - pose proof Hgr as (j & sl & Hj & Hr & -> & ->).
    assert (Hok' : ledger_ok (installed s j sl r)) by (by apply installed_ok).
    assert (Hlk : leases (installed s j sl r) !! j = Some (mkSlot r (generation sl + 1) true))
      by (apply list_lookup_insert_eq; by eapply lookup_lt_Some).
    apply not_elem_of_cons. split.
    + destruct Hs as (slot & Hi & Hle). intros Heq.
      change (generation sl + 1) with (generation (mkSlot r (generation sl + 1) true)) in Heq.
      apply (handle_inj _ _ _ _ _ Hok' Hlk) in Heq as [-> ->]; [|by apply (ledger_slot s i slot)|done].
      simplify_eq/=. lia.
    + apply IH; [done|]. eapply issued_trace; [done|]. by eapply trace_one.
  - apply IH; [by apply released_ok|]. eapply issued_trace; [done|].
    eapply trace_revoke; eauto using trace.
Qed.

Lemma trace_NoDup s ls s' : ledger_ok s → trace s ls s' → NoDup ls.
Proof.
  intros Hok Ht. revert Hok. induction Ht as [s|s l r s' ls s'' Hp Hgr Ht IH
    |s j sl ls s'' Hj Ha Ht IH]; intros Hok.
  - constructor.
  - destruct Hgr as (j & sl & Hj & Hr & -> & ->).
    assert (Hok' : ledger_ok (installed s j sl r)) by (by apply installed_ok).
    assert (Hlk : leases (installed s j sl r) !! j = Some (mkSlot r (generation sl + 1) true))
      by (apply list_lookup_insert_eq; by eapply lookup_lt_Some).
    constructor; [|by auto]. eapply issued_not_granted; [done| |by eexists|done].
    by apply (ledger_slot _ _ _ Hok' Hlk).
  - by apply IH, released_ok.
Qed.

End IovaRuns.

(** ** Theorems *)

Module IovaProperties.
Import IovaRange IovaLedger IovaFacts IovaRuns.

Lemma new_ledger_ok LEASES RESERVED ap rs s0 :
  range_ok ap → Forall range_ok rs → Z.of_nat RESERVED < 2 ^ 64 →
  wp (new LEASES RESERVED ap rs)
    (λ _ s, ledger_ok s ∧ idle s ∧ aperture s = ap ∧ List.length (leases s) = LEASES ∧
       fixed s ≡ₚ rs)
    (λ e _,
       (e = InvalidCapacity ∧ (LEASES = 0%nat ∨ MAX 32 < Z.of_nat LEASES)) ∨
       (e = ReservedCapacity ∧ (RESERVED < List.length rs)%nat) ∨
       (e = ReservedOutsideAperture ∧ ∃ r, r ∈ rs ∧ ¬ inside r ap) ∨
       (e = OverlappingReservedRanges ∧ ∃ i j q r, i ≠ j ∧ rs !! i = Some q ∧
          rs !! j = Some r ∧ ¬ disjoint q r)) s0.
Proof.
  intros Hap Hrs Hw. unfold new. destruct (_ || _) eqn:Hcap.
  { rewrite wp_throw. left. split; [done|].
    apply orb_true_iff in Hcap as [Hb|Hb]; bool_to_prop; lia. }
  bool_to_prop. wp_if; bool_to_prop.
  { rewrite wp_throw. right. left. split; [done|]. lia. }
  wp_simpl. set (s := mk _ _ _ _ _).
  assert (Hidle : idle s).
  { intros slot Hs. by apply elem_of_replicate in Hs as [-> _]. }
  assert (Hok : ledger_ok s).
  { split; simpl; rewrite ?length_replicate; try done; try lia.
    - intros r Hr. inversion Hr.
    - intros i slot Hs. rewrite (Hidle slot) by (by eapply list_elem_of_lookup_2). by split.
    - intros i j p q _ Hp _ Hact. apply lookup_replicate in Hp as [-> _]. done.
    - symmetry. apply count_zero. intros slot Hs. by rewrite (Hidle slot Hs). }
  eapply wp_mono; [apply (insert_all_ok s []); try done|..].
  - simpl. rewrite length_replicate. lia.
  - intros [] s' (? & ? & ? & Hl & ?). simpl in *. rewrite Hl, length_replicate. done.
  - intros e _ [?|?]; simpl in *; auto.
Qed.

(** The reachable states of a ledger. *)
Definition reachable (s : t) : Prop :=
  ∃ LEASES RESERVED ap rs s0 ls s1, range_ok ap ∧ Forall range_ok rs ∧ Z.of_nat RESERVED < 2 ^ 64 ∧
    new LEASES RESERVED ap rs s0 = Done () s1 ∧ history s1 ls s.

Lemma reachable_ok s : reachable s → ledger_ok s.
Proof.
  intros (LEASES & RESERVED & ap & rs & s0 & ls & s1 & Hap & Hrs & Hw & Hnew & Hh).
  apply (wp_Done _ _ _ _ _ _ (new_ledger_ok LEASES RESERVED ap rs s0 Hap Hrs Hw)) in Hnew as (Hok & _).
  eapply trace_ok; [exact Hok|]. by apply history_trace.
Qed.

(** C23: in every state a ledger can reach, the ranges under active leases are
    page aligned, inside the aperture, clear of the reserved ranges and of each
    other, the active count is their number, and no further call panics. *)
Theorem active_leases_exclusive s :
  reachable s →
  (∀ i slot, leases s !! i = Some slot → active slot = true →
     range_ok (range_of slot) ∧ inside (range_of slot) (aperture s) ∧
     ∀ r, r ∈ fixed s → disjoint (range_of slot) r) ∧
  (∀ i j p q, i ≠ j → leases s !! i = Some p → leases s !! j = Some q →
     active p = true → active q = true → disjoint (range_of p) (range_of q)) ∧
  active_count s = count active (leases s) ∧
  (∀ c, call_ok c → run c s ≠ Panic).
Proof.
  intros Hok%reachable_ok. split; [|split; [by apply Hok|split; [by apply Hok|]]].
  - intros i slot Hi Ha. by apply (sl_range s slot); [eapply lo_slots|].
  - intros c Hc. eapply wp_no_panic. by apply run_ok.
Qed.

(** C37: [reserve] terminates and leases the lowest aligned place of the
    aperture that meets no reserved range and no active lease; it fails only
    when no such place or no reusable slot is left, and then changes nothing. *)
Theorem reserve_lowest_fit s request :
  reachable s → request_ok request →
  let length := IovaRequest.page_count request * IOVA_PAGE_SIZE in
  let alignment := IovaRequest.alignment_pages request * IOVA_PAGE_SIZE in
  match reserve request s with
  | Done l s' =>
    ∃ a, fits s length alignment a ∧ (∀ x, fits s length alignment x → a <= x) ∧
      granted s l (IovaRange.mk a (a + length)) s' ∧
      range l s' = Done (IovaRange.mk a (a + length)) s'
  | Fail e s' => s' = s ∧
    ((e = LeaseCapacity ∧ full s) ∨ (e = AddressSpaceExhausted ∧ ∀ x, ¬ fits s length alignment x))
  | Panic => False
  end.
Proof.
  intros Hok%reachable_ok Hq length alignment.
  pose proof (reserve_ok s request Hok Hq) as Hr. unfold wp in Hr.
  destruct (reserve request s) as [l s'|e s'|] eqn:Hres; [|done|done].
  destruct Hr as (a & Hg & Hf & Hlow). exists a. do 3 (split; [done|]).
  destruct (reserve_preserves _ _ _ _ Hok Hq Hres) as [Hok' _].
  destruct Hg as (i & slot & Hi & _ & -> & ->).
  assert (Hn : names (installed s i slot (IovaRange.mk a (a + length)))
    (handle i (generation slot + 1)) i (mkSlot (IovaRange.mk a (a + length)) (generation slot + 1) true)).
  { split; [apply list_lookup_insert_eq; by eapply lookup_lt_Some|done]. }
  exact (names_range _ _ _ _ Hok' Hn).
Qed.

(** [reserve_exact] leases exactly the range it is given when that range
    can be placed and a slot is left, and otherwise changes nothing. *)
Theorem reserve_exact_all_or_nothing s r :
  reachable s → range_ok r →
  match reserve_exact r s with
  | Done l s' => placeable s r ∧ granted s l r s'
  | Fail e s' => s' = s ∧
    ((e = ExactRangeUnavailable ∧ ¬ placeable s r) ∨ (e = LeaseCapacity ∧ full s))
  | Panic => False
  end.
Proof. intros Hok%reachable_ok Hr. exact (reserve_exact_ok s r Hok Hr). Qed.

(** [reserve_many] either serves all of its requests, as the same sequence
    of single reservations would, or fails and leaves both the ledger and the
    caller's output untouched. *)
Theorem reserve_many_atomic s requests output :
  reachable s → Forall request_ok requests →
  match reserve_many requests (s, output) with
  | Done _ (s', output') =>
    List.length output' = List.length output ∧ in_sequence s requests output' s' ∧ NoDup output'
  | Fail e st => st = (s, output) ∧
    ((e = BatchOutputMismatch ∧ (requests = [] ∨ List.length requests ≠ List.length output ∨
        (List.length (leases s) < List.length requests)%nat)) ∨
     ∃ qs1 q qs2 ls s1 s2, requests = qs1 ++ q :: qs2 ∧ in_sequence s qs1 ls s1 ∧
       reserve q s1 = Fail e s2)
  | Panic => False
  end.
Proof.
  intros Hok%reachable_ok Hqs. pose proof (reserve_many_ok s requests output Hok Hqs) as Hm.
  unfold wp in Hm. destruct (reserve_many _ _) as [[] [s' out]|e st|]; [|done|done].
  destruct Hm as [Hl Hseq]. split; [done|]. split; [done|].
  eapply trace_NoDup; [done|]. by eapply in_sequence_trace.
Qed.

(** C31: no handle is ever issued twice in the life of a ledger, and once a
    lease has been released its handle is refused for ever. *)
Theorem handles_never_reused s ls s1 l r s2 ls' s3 :
  reachable s → history s ls s1 → u64 l → release l s1 = Done r s2 → history s2 ls' s3 →
  NoDup (ls ++ ls') ∧ (l ∉ ls') ∧
  range l s3 = Fail StaleLease s3 ∧ release l s3 = Fail StaleLease s3.
Proof.
  intros Hok%reachable_ok Hh Hl Hrel Hh'. apply history_trace in Hh; [|done].
  pose proof (trace_ok _ _ _ Hok Hh) as Hok1.
  apply (wp_Done _ _ _ _ _ _ (release_ok s1 l Hok1 Hl)) in Hrel as (i & slot & Hn & -> & ->).
  destruct Hn as (Hi & Ha & ->). destruct (ledger_slot _ _ _ Hok1 Hi) as (Hb & _ & Hg).
  pose proof (released_ok _ _ _ Hok1 Hi Ha) as Hok2. apply history_trace in Hh'; [|done].
  pose proof (trace_ok _ _ _ Hok2 Hh') as Hok3.
  assert (Hlk : leases (released s1 i slot) !! i =
    Some (mkSlot IovaRange.EMPTY (generation slot) false))
    by (apply list_lookup_insert_eq; by eapply lookup_lt_Some).
  assert (Hdead : dead i (generation slot) s3)
    by (eapply dead_trace; [|done]; eexists; split; [exact Hlk|]; simpl; split; [lia|done]).
  assert (Hno : ∀ j sl, ¬ names s3 (handle i (generation slot)) j sl).
  { intros j sl (Hj & Haj & Heq). apply (handle_inj _ _ _ _ _ Hok3 Hj) in Heq as [-> Hgen]; [|done..].
    destruct Hdead as (sl' & Hi3 & _ & Hd). simplify_eq. by rewrite Hd in Haj. }
  split; [|split; [|split]].
  - eapply trace_NoDup; [exact Hok|]. eapply trace_app; [done|]. by eapply trace_revoke.
  - eapply issued_not_granted; [exact Hok2|done| |done]. eexists. split; [exact Hlk|]. simpl. lia.
  - pose proof (range_ok_spec s3 _ Hok3 Hl) as Hr. unfold wp in Hr.
    destruct (range _ s3) as [? ?|e ?|]; [|by destruct Hr as (-> & -> & _)|done].
    destruct Hr as (_ & j & sl & Hn & _). by apply Hno in Hn.
  - pose proof (release_ok s3 _ Hok3 Hl) as Hr. unfold wp in Hr.
    destruct (release _ s3) as [? ?|e ?|]; [|by destruct Hr as (-> & -> & _)|done].
    destruct Hr as (j & sl & Hn & _). by apply Hno in Hn.
Qed.

(** [new] succeeds exactly for a legal capacity and reserved ranges that
    fit the table, lie in the aperture and are pairwise disjoint; it then keeps
    them all, sorted, and starts with no active lease. *)
Theorem new_ledger_correct LEASES RESERVED ap rs s0 :
  range_ok ap → Forall range_ok rs → Z.of_nat RESERVED < 2 ^ 64 →
  match new LEASES RESERVED ap rs s0 with
  | Done _ s => ledger_ok s ∧ idle s ∧ aperture s = ap ∧ List.length (leases s) = LEASES ∧
      fixed s ≡ₚ rs ∧ sorted (fixed s)
  | Fail e _ =>
      (e = InvalidCapacity ∧ (LEASES = 0%nat ∨ MAX 32 < Z.of_nat LEASES)) ∨
      (e = ReservedCapacity ∧ (RESERVED < List.length rs)%nat) ∨
      (e = ReservedOutsideAperture ∧ ∃ r, r ∈ rs ∧ ¬ inside r ap) ∨
      (e = OverlappingReservedRanges ∧ ∃ i j q r, i ≠ j ∧ rs !! i = Some q ∧
         rs !! j = Some r ∧ ¬ disjoint q r)
  | Panic => False
  end.
Proof.
  intros Hap Hrs Hw. pose proof (new_ledger_ok LEASES RESERVED ap rs s0 Hap Hrs Hw) as Hn.
  unfold wp in Hn. destruct (new _ _ _ _ _) as [[] s|e s|]; [|done|done].
  destruct Hn as (Hok & ? & ? & ? & ?). do 5 (split; [done|]). by apply Hok.
Qed.

(** *** Witnesses: a sixteen-page aperture with two reserved pages. *)

Definition ap0 : IovaRange.t := IovaRange.mk 65536 131072.
Definition rs0 : list IovaRange.t := [IovaRange.mk 69632 77824].
Definition ledger0 : t := mk ap0 (rs0 ++ [IovaRange.EMPTY]) 1 [EMPTY; EMPTY; EMPTY] 0.

Lemma ap0_ok : range_ok ap0.
Proof. by repeat split. Qed.
Lemma rs0_ok : Forall range_ok rs0.
Proof. repeat constructor; done. Qed.
Lemma ledger0_reachable : reachable ledger0.
Proof.
  exists 3%nat, 2%nat, ap0, rs0, ledger0, [], ledger0.
  split; [apply ap0_ok|]. split; [apply rs0_ok|]. split; [done|].
  split; [vm_compute; reflexivity|constructor].
Qed.

Definition two_pages : IovaRequest.t := IovaRequest.mk 2 2.
Lemma two_pages_ok : request_ok two_pages.
Proof. by repeat split. Qed.

(** One page below the reserved ones is leased, and two above them. *)
Definition low_page : IovaRange.t := IovaRange.mk 65536 69632.
Definition high_pages : IovaRange.t := IovaRange.mk 81920 90112.
Definition ledger1 : t :=
  mk ap0 (rs0 ++ [IovaRange.EMPTY]) 1 [mkSlot low_page 1 true; EMPTY; EMPTY] 1.
Definition ledger2 : t :=
  mk ap0 (rs0 ++ [IovaRange.EMPTY]) 1 [mkSlot low_page 1 true; mkSlot high_pages 1 true; EMPTY] 2.

Lemma ledger2_reachable : reachable ledger2.
Proof.
  exists 3%nat, 2%nat, ap0, rs0, ledger0, [handle 0 1; handle 1 1], ledger0.
  split; [apply ap0_ok|]. split; [apply rs0_ok|]. split; [done|]. split; [vm_compute; reflexivity|].
  assert (call_ok (Reserve (IovaRequest.mk 1 1))) as H1 by (by repeat split).
  apply (history_done _ _ [handle 0 1] ledger1 [handle 1 1] _ H1); [vm_compute; reflexivity|].
  apply (history_done _ _ [handle 1 1] ledger2 [] _ (two_pages_ok : call_ok (Reserve two_pages))); [vm_compute; reflexivity|constructor].
Qed.

Lemma active_leases_exclusive_witness :
  disjoint low_page high_pages ∧ inside high_pages ap0 ∧ active_count ledger2 = 2 ∧ run (Reserve two_pages) ledger2 ≠ Panic.
Proof.
  destruct (active_leases_exclusive ledger2 ledger2_reachable) as (Hin & Hd & Hc & Hp).
  split; [exact (Hd 0%nat 1%nat _ _ ltac:(discriminate) eq_refl eq_refl eq_refl eq_refl)|].
  split; [exact (proj1 (proj2 (Hin 1%nat _ eq_refl eq_refl)))|]. split; [exact Hc|]. apply Hp. exact two_pages_ok.
Defined.

(** The first two pages would fit by size but the second one is reserved. *)
Lemma reserve_lowest_fit_witness :
  ∃ l s', reserve two_pages ledger0 = Done l s' ∧ ∃ a, granted ledger0 l (IovaRange.mk a (a + 8192)) s' ∧
    fits ledger0 8192 8192 a.
Proof.
  pose proof (reserve_lowest_fit ledger0 two_pages ledger0_reachable two_pages_ok) as H.
  destruct (reserve two_pages ledger0) as [l s'|e s'|] eqn:Hr.
  - exists l, s'. split; [reflexivity|]. destruct H as (a & Hf & _ & Hg & _). exists a. by split.
  - exfalso. vm_compute in Hr. discriminate Hr.
  - destruct H.
Defined.


(** The third request does not fit, so the first two are not kept either. *)
Lemma reserve_many_atomic_witness :
  ∃ e st, reserve_many [two_pages; two_pages; IovaRequest.mk 16 1] (ledger0, [0; 0; 0]) = Fail e st ∧
    st = (ledger0, [0; 0; 0]).
Proof.
  pose proof (reserve_many_atomic ledger0 [two_pages; two_pages; IovaRequest.mk 16 1] [0; 0; 0]
    ledger0_reachable ltac:(repeat constructor; done)) as H.
  destruct (reserve_many _ (ledger0, _)) as [[] st|e st|] eqn:Hr.
  - exfalso. vm_compute in Hr. discriminate Hr.
  - exists e, st. destruct H as [-> _]. by split.
  - destruct H.
Defined.

(** A page is leased, released, and its slot leased again. *)
Definition page_at_once (g : Z) : t :=
  mk ap0 (rs0 ++ [IovaRange.EMPTY]) 1
    [mkSlot (IovaRange.mk 65536 69632) g true; EMPTY; EMPTY] 1.
Definition page_free (g : Z) : t :=
  mk ap0 (rs0 ++ [IovaRange.EMPTY]) 1 [mkSlot IovaRange.EMPTY g false; EMPTY; EMPTY] 0.

Lemma handles_never_reused_witness :
  range (handle 0 1) (page_at_once 2) = Fail StaleLease (page_at_once 2).
Proof.
  assert (Hq : call_ok (Reserve (IovaRequest.mk 1 1))) by (by repeat split).
  assert (H1 : history ledger0 [handle 0 1] (page_at_once 1)).
  { apply (history_done _ _ [handle 0 1] (page_at_once 1) [] _ Hq);
      [vm_compute; reflexivity|constructor]. }
  assert (H2 : history (page_free 1) [handle 0 2] (page_at_once 2)).
  { apply (history_done _ _ [handle 0 2] (page_at_once 2) [] _ Hq);
      [vm_compute; reflexivity|constructor]. }
  destruct (handles_never_reused ledger0 _ _ (handle 0 1) (IovaRange.mk 65536 69632) (page_free 1)
    [handle 0 2] (page_at_once 2) ledger0_reachable H1) as (_ & _ & Hr & _).
  - by split.
  - vm_compute. reflexivity.
  - exact H2.
  - exact Hr.
Defined.


End IovaProperties.
