(* ===== verification/Context.v ===== *)
(** * Saved user contexts and return authorities

    Models [kernel/boulder/src/process/context.rs]: the register image of a
    suspended Ring 3 process, the checks it must pass before the kernel returns
    through it, and the authority object the return path consumes. *)
From S2P Require Import Prelude.

Definition USER_ADDRESS_MINIMUM : Z := 0x1000.
Definition USER_ADDRESS_LIMIT : Z := 0x0000800000000000.
Definition KERNEL_ADDRESS_MINIMUM : Z := 0xffff800000000000.
Definition INITIAL_USER_FLAGS : Z := Z.lor (Z.shiftl 1 1) (Z.shiftl 1 9).

Definition PAGE_MASK : Z := 0xfff.
Definition PHYSICAL_ADDRESS_MASK : Z := 0x000ffffffffff000.
Definition USER_FLAGS_ALLOWED : Z :=
  fold_left (λ flags bit, Z.lor flags (Z.shiftl 1 bit))
    [0; 1; 2; 4; 6; 7; 8; 9; 10; 11; 16; 18; 21] 0.

Inductive ContextError :=
| InvalidInstructionPointer | InvalidStackPointer | InvalidFlags
| InvalidAddressSpaceRoot | InvalidKernelStackPointer | InvalidDispatchAuthority.

Definition valid_user_address (address : Z) : bool :=
  (USER_ADDRESS_MINIMUM <=? address) && (address <? USER_ADDRESS_LIMIT).

Definition valid_page_table_root (root : Z) : bool :=
  negb (root =? 0) && (Z.land root PAGE_MASK =? 0)
    && (Z.land root (bitnot 64 PHYSICAL_ADDRESS_MASK) =? 0).

Definition valid_kernel_stack_pointer (pointer : Z) : bool :=
  (KERNEL_ADDRESS_MINIMUM <=? pointer) && (Z.land pointer 0xf =? 0).

Module SavedUserContext.

Record t := mk {
  r15 : Z; r14 : Z; r13 : Z; r12 : Z; r11 : Z; r10 : Z; r9 : Z; r8 : Z;
  rbp : Z; rdi : Z; rsi : Z; rdx : Z; rcx : Z; rbx : Z; rax : Z;
  instruction_pointer : Z; flags : Z; stack_pointer : Z;
}.

#[global] Instance t_eq_dec : EqDecision t.
Proof. solve_decision. Defined.

Definition EMPTY : t := mk 0 0 0 0 0 0 0 0 0 0 0 0 0 0 0 0 0 0.

Definition initial (instruction_pointer stack_pointer : Z) : t :=
  mk 0 0 0 0 INITIAL_USER_FLAGS 0 0 0 0 0 0 0 instruction_pointer 0 0
    instruction_pointer INITIAL_USER_FLAGS stack_pointer.

Definition validate (self : t) : result unit ContextError :=
  if negb (valid_user_address (instruction_pointer self)) then Err InvalidInstructionPointer else
  if negb (valid_user_address (stack_pointer self)) then Err InvalidStackPointer else
  if (Z.land (flags self) (Z.shiftl 1 1) =? 0)
     || negb (Z.land (flags self) (bitnot 64 USER_FLAGS_ALLOWED) =? 0)
  then Err InvalidFlags
  else Ok ().

(** [result as u64] of a signed result is its two's complement. *)
Definition set_syscall_result (result : Z) (c : t) : t :=
  mk (r15 c) (r14 c) (r13 c) (r12 c) (r11 c) (r10 c) (r9 c) (r8 c) (rbp c) (rdi c) (rsi c)
    (rdx c) (rcx c) (rbx c) (wrap 64 result) (instruction_pointer c) (flags c) (stack_pointer c).

Definition syscall_arguments (c : t) : list Z := [rdi c; rsi c; rdx c; r10 c; r8 c; r9 c].

Lemma validate_initial ip sp :
  valid_user_address ip = true → valid_user_address sp = true →
  validate (initial ip sp) = Ok ().
Proof. intros Hip Hsp. unfold validate. simpl. by rewrite Hip, Hsp. Qed.

Lemma validate_set_syscall_result r c : validate (set_syscall_result r c) = validate c.
Proof. reflexivity. Qed.

(** What a context that passes the check can and cannot do: the kernel
    returns to the lower half, with the reserved bit set and neither a
    privilege level, nested-task, virtual-8086 or virtual-interrupt bit. *)
Lemma validate_Ok c :
  u64 (flags c) → validate c = Ok () →
  USER_ADDRESS_MINIMUM <= instruction_pointer c < USER_ADDRESS_LIMIT ∧
  USER_ADDRESS_MINIMUM <= stack_pointer c < USER_ADDRESS_LIMIT ∧
  Z.testbit (flags c) 1 = true ∧
  ∀ n, 0 <= n < 64 → Z.testbit (flags c) n = true → Z.testbit USER_FLAGS_ALLOWED n = true.
Proof.
  unfold validate, valid_user_address. intros Hw.
  destruct (_ && _) eqn:Hip; [|done]. cbn [negb].
  destruct ((_ <=? stack_pointer c) && _) eqn:Hsp; [|done]. cbn [negb].
  destruct (_ || _) eqn:Hf; [done|]. intros _.
  apply orb_false_iff in Hf as [Hone%Z.eqb_neq Hmask%negb_false_iff%Z.eqb_eq]. bool_to_prop.
  split; [lia|]. split; [lia|]. split.
  - destruct (Z.testbit (flags c) 1) eqn:Hbit; [done|]. exfalso. apply Hone.
    apply Z.bits_inj'. intros n Hn. rewrite Z.land_spec, Z.bits_0.
    change (Z.shiftl 1 1) with (2 ^ 1). destruct (Z.eq_dec n 1) as [->|]; [by rewrite Hbit|].
    rewrite Z.pow2_bits_false by lia. apply andb_false_r.
  - intros n Hn Hbit. assert (Hz : Z.testbit (Z.land (flags c) (bitnot 64 USER_FLAGS_ALLOWED)) n
      = false) by (rewrite Hmask; apply Z.bits_0).
    rewrite Z.land_spec, testbit_bitnot, testbit_ones, Hbit in Hz by lia.
    destruct (Z.ltb_spec n 64); [|lia]. by destruct (Z.testbit USER_FLAGS_ALLOWED n).
Qed.

End SavedUserContext.

Module DispatchContext.

Record t := mk {
  user : SavedUserContext.t;
  address_space_root : Z;
  kernel_stack_pointer : Z;
}.

#[global] Instance t_eq_dec : EqDecision t.
Proof. solve_decision. Defined.

Definition validate (self : t) : result unit ContextError :=
  match SavedUserContext.validate (user self) with
  | Err error => Err error
  | Ok _ =>
    if negb (valid_page_table_root (address_space_root self)) then Err InvalidAddressSpaceRoot else
    if negb (valid_kernel_stack_pointer (kernel_stack_pointer self))
    then Err InvalidKernelStackPointer
    else Ok ()
  end.

End DispatchContext.

Module AuthorizedUserReturn.

Record t := mk {
  dispatch : DispatchContext.t;
  pid : Z;
  generation : Z;
  scheduler_epoch : Z;
}.

#[global] Instance t_eq_dec : EqDecision t.
Proof. solve_decision. Defined.

Definition EMPTY : t := mk (DispatchContext.mk SavedUserContext.EMPTY 0 0) 0 0 0.

Definition validate (self : t) : result unit ContextError :=
  if (pid self =? 0) || (generation self =? 0) || (scheduler_epoch self =? 0)
  then Err InvalidDispatchAuthority
  else DispatchContext.validate (dispatch self).

End AuthorizedUserReturn.
