(* ===== verification/Lifecycle.v ===== *)
(** * The process lifecycle table

    Models [kernel/boulder/src/process/lifecycle.rs]: the fixed table of process
    slots, the identity of the current execution, and the scheduler epoch every
    dispatch decision is bound to.  The state is what the module keeps in
    statics: the locked table and the two atomics published beside it.  Every
    public function runs under the table lock and is one transition.

    [Module Lifecycle] holds the definitions; [LifecycleFacts] the invariant,
    its preservation by every operation and the shape of a scheduling step. *)
From S2P Require Import Prelude Context.

Definition MAXIMUM_PROCESSES : nat := 64.
Definition NO_PID : Z := 0.
Definition INIT_PID : Z := 1.
Definition PID0_GENERATION : Z := 1.
Definition PID0_IDENTITY : Z := Z.shiftl PID0_GENERATION 32.

Inductive ProcessPhase := Free | Installing | Runnable | Running | Blocked | Zombie.

#[global] Instance ProcessPhase_eq_dec : EqDecision ProcessPhase.
Proof. solve_decision. Defined.

Inductive LifecycleError :=
| InvalidLaunch | InvalidContext | Capacity | InvalidHandle | InvalidTransition | NotChild
| StillRunning | NoChild | EpochExhausted | StaleDispatchAuthority | StalePreemptionAuthority
| StalePid0Authority | Pid0Immutable.

Module ProcessLaunch.

Record t := mk {
  address_space_root : Z;
  entry_point : Z;
  user_stack_pointer : Z;
  kernel_stack_pointer : Z;
  image_measurement_root : Z;
  capability_root : Z;
  service_class : Z;
  priority : Z;
}.

Definition validate (self : t) : bool :=
  valid_page_table_root (address_space_root self)
    && valid_user_address (entry_point self)
    && valid_user_address (user_stack_pointer self)
    && valid_kernel_stack_pointer (kernel_stack_pointer self)
    && negb (image_measurement_root self =? 0)
    && negb (capability_root self =? 0).

End ProcessLaunch.

Module ProcessHandle.

Record t := mk { pid : Z; generation : Z }.

#[global] Instance t_eq_dec : EqDecision t.
Proof. solve_decision. Defined.

Definition encode (self : t) : Z := Z.lor (wrap 64 (Z.shiftl (generation self) 32)) (pid self).

Definition decode (encoded : Z) : option t :=
  if encoded =? 0 then None else
  let handle := mk (wrap 32 encoded) (wrap 32 (Z.shiftr encoded 32)) in
  if (pid handle =? NO_PID) || (generation handle =? 0) then None else Some handle.

End ProcessHandle.

Module ExecutionAuthority.

Record t := mk { handle : ProcessHandle.t; scheduler_epoch : Z }.

#[global] Instance t_eq_dec : EqDecision t.
Proof. solve_decision. Defined.

Definition encode_identity (self : t) : Z := ProcessHandle.encode (handle self).

Definition decode (identity scheduler_epoch : Z) : option t :=
  if scheduler_epoch =? 0 then None else
  match ProcessHandle.decode identity with
  | None => None
  | Some handle => Some (mk handle scheduler_epoch)
  end.

End ExecutionAuthority.

Record ProcessSnapshot := mkSnapshot {
  snap_handle : ProcessHandle.t;
  snap_parent : Z;
  snap_phase : ProcessPhase;
  snap_launch : ProcessLaunch.t;
  snap_exit_code : Z;
  snap_wait_sequence : Z;
}.

Module ScheduledProcess.

Record t := mk {
  handle : ProcessHandle.t;
  context : DispatchContext.t;
  scheduler_epoch : Z;
}.

#[global] Instance t_eq_dec : EqDecision t.
Proof. solve_decision. Defined.

Definition authorized_return (self : t) : AuthorizedUserReturn.t :=
  AuthorizedUserReturn.mk (context self) (ProcessHandle.pid (handle self))
    (ProcessHandle.generation (handle self)) (scheduler_epoch self).

End ScheduledProcess.

Record Pid0Authority := mkPid0 { pid0_generation : Z; pid0_epoch : Z }.

Inductive ScheduleDecision :=
| User (p : ScheduledProcess.t)
| Pid0 (a : Pid0Authority).

Module ProcessSlot.

Record t := mk {
  occupied : bool;
  generation : Z;
  pid : Z;
  parent : Z;
  phase : ProcessPhase;
  launch : ProcessLaunch.t;
  context : SavedUserContext.t;
  exit_code : Z;
  wait_sequence : Z;
}.

Definition EMPTY : t :=
  mk false 1 0 0 Free (ProcessLaunch.mk 0 0 0 0 0 0 0 0) SavedUserContext.EMPTY 0 0.

Definition snapshot (self : t) : ProcessSnapshot :=
  mkSnapshot (ProcessHandle.mk (pid self) (generation self)) (parent self) (phase self)
    (launch self) (exit_code self) (wait_sequence self).

(** Assignments to single fields. *)
Definition with_phase (p : ProcessPhase) (s : t) : t :=
  mk (occupied s) (generation s) (pid s) (parent s) p (launch s) (context s) (exit_code s)
    (wait_sequence s).
Definition with_context (c : SavedUserContext.t) (s : t) : t :=
  mk (occupied s) (generation s) (pid s) (parent s) (phase s) (launch s) c (exit_code s)
    (wait_sequence s).
Definition with_generation (g : Z) (s : t) : t :=
  mk (occupied s) g (pid s) (parent s) (phase s) (launch s) (context s) (exit_code s)
    (wait_sequence s).
Definition with_occupied (b : bool) (s : t) : t :=
  mk b (generation s) (pid s) (parent s) (phase s) (launch s) (context s) (exit_code s)
    (wait_sequence s).
(** The exit record. *)
Definition with_exit (code epoch : Z) (s : t) : t :=
  mk (occupied s) (generation s) (pid s) (parent s) Zombie (launch s) (context s) code epoch.
(** The fields a new process gets besides its generation. *)
Definition populate (pid parent : Z) (launch : ProcessLaunch.t) (wait_sequence : Z) (s : t) : t :=
  mk true (generation s) pid parent Runnable launch
    (SavedUserContext.initial (ProcessLaunch.entry_point launch)
       (ProcessLaunch.user_stack_pointer launch)) 0 wait_sequence.

(** The tests the searches use. *)
Definition is_handle (h : ProcessHandle.t) (s : t) : bool :=
  occupied s && (pid s =? ProcessHandle.pid h) && (generation s =? ProcessHandle.generation h).
Definition is_pid (p : Z) (s : t) : bool := occupied s && (pid s =? p).
Definition in_phase (p : ProcessPhase) (s : t) : bool := occupied s && bool_decide (phase s = p).
Definition is_vacant (s : t) : bool := negb (occupied s) && negb (generation s =? MAX 32).

End ProcessSlot.

Module Lifecycle.
Import ProcessSlot.

Record ProcessTable := mkTable {
  slots : list ProcessSlot.t;
  next_pid : Z;
  scheduler_epoch : Z;
}.

(** The statics of the module. *)
Record kernel := mkKernel {
  TABLE : ProcessTable;
  CURRENT_EXECUTION : Z;
  CURRENT_SCHEDULER_EPOCH : Z;
}.

Definition boot : kernel :=
  mkKernel (mkTable (replicate MAXIMUM_PROCESSES EMPTY) 2 0) PID0_IDENTITY 0.

Abbreviation op := (M kernel LifecycleError).

Definition slots_of (k : kernel) : list ProcessSlot.t := slots (TABLE k).
Definition epoch_of (k : kernel) : Z := scheduler_epoch (TABLE k).

Definition with_slots (l : list ProcessSlot.t) (k : kernel) : kernel :=
  mkKernel (mkTable l (next_pid (TABLE k)) (epoch_of k))
    (CURRENT_EXECUTION k) (CURRENT_SCHEDULER_EPOCH k).
Definition with_next_pid (n : Z) (k : kernel) : kernel :=
  mkKernel (mkTable (slots_of k) n (epoch_of k)) (CURRENT_EXECUTION k) (CURRENT_SCHEDULER_EPOCH k).
Definition with_epoch (e : Z) (k : kernel) : kernel :=
  mkKernel (mkTable (slots_of k) (next_pid (TABLE k)) e)
    (CURRENT_EXECUTION k) (CURRENT_SCHEDULER_EPOCH k).
(** [CURRENT_EXECUTION.store] *)
Definition with_current (identity : Z) (k : kernel) : kernel :=
  mkKernel (TABLE k) identity (CURRENT_SCHEDULER_EPOCH k).
Definition publish_scheduler_epoch (e : Z) (k : kernel) : kernel :=
  mkKernel (TABLE k) (CURRENT_EXECUTION k) e.

(** [table.slots[i]] read and written. *)
Definition slot_at (i : nat) : op ProcessSlot.t :=
  k ← get; index (slots_of k) (Z.of_nat i).
Definition update_slot (i : nat) (f : ProcessSlot.t → ProcessSlot.t) : op unit :=
  k ← get;
  slot ← slot_at i;
  l ← store (slots_of k) (Z.of_nat i) (f slot);
  put (with_slots l k).

(** The remaining rounds of the search for an unused pid. *)
Fixpoint allocate_pid_rounds (rounds : nat) : M kernel LifecycleError (option Z) :=
  match rounds with
  | O => mret None
  | S rounds' =>
    k ← get;
    let candidate := Z.max (next_pid (TABLE k)) 2 in
    put (with_next_pid (Z.max (wrapping_add 32 candidate 1) 2) k) ;;
    if existsb (is_pid candidate) (slots_of k) then allocate_pid_rounds rounds'
    else mret (Some candidate)
  end.
Definition allocate_pid : op (option Z) := allocate_pid_rounds (S MAXIMUM_PROCESSES).

Definition slot_by_handle (h : ProcessHandle.t) (k : kernel) : option ProcessSlot.t :=
  find (is_handle h) (slots_of k).
(** The slot a mutable borrow refers to, by its index. *)
Definition slot_by_handle_mut (h : ProcessHandle.t) (k : kernel) : option nat :=
  position (is_handle h) (slots_of k).
Definition slot_by_pid (p : Z) (k : kernel) : option ProcessSlot.t :=
  find (is_pid p) (slots_of k).

(** The candidates [(after + offset) % len] are indices of the table. *)
Definition runnable_at (l : list ProcessSlot.t) (i : nat) : bool :=
  match l !! i with Some slot => in_phase Runnable slot | None => false end.
Definition next_runnable_index (after : nat) (l : list ProcessSlot.t) : option nat :=
  find (runnable_at l) ((λ offset, (after + offset) mod length l)%nat <$> seq 1 (length l)).

Definition scheduled (i : nat) (user : SavedUserContext.t) (epoch : Z) : op ScheduledProcess.t :=
  slot ← slot_at i;
  mret (ScheduledProcess.mk (ProcessHandle.mk (pid slot) (generation slot))
    (DispatchContext.mk user (ProcessLaunch.address_space_root (launch slot))
       (ProcessLaunch.kernel_stack_pointer (launch slot))) epoch).

Definition next_scheduler_epoch (epoch : Z) : result Z LifecycleError :=
  match checked_add 64 epoch 1 with Some next => Ok next | None => Err EpochExhausted end.

(** [validate().map_err(|_| LifecycleError::InvalidContext)?] *)
Definition require_context (r : result unit ContextError) : op unit :=
  match r with Ok _ => mret () | Err _ => throw InvalidContext end.

Definition current_handle (k : kernel) : option ProcessHandle.t :=
  ProcessHandle.decode (CURRENT_EXECUTION k).
Definition current_pid (k : kernel) : Z :=
  match current_handle k with Some h => ProcessHandle.pid h | None => NO_PID end.

(** The two reads of the epoch mirror around the read of the identity; here
    nothing runs in between, and [Preemption] lets the table move. *)
Definition irq_snapshot (epoch_before identity epoch_after : Z) : option ExecutionAuthority.t :=
  match ProcessHandle.decode identity with
  | None => None
  | Some handle =>
    if (epoch_before =? 0) || negb (epoch_before =? epoch_after) then None
    else Some (ExecutionAuthority.mk handle epoch_before)
  end.
Definition current_execution_authority_from_irq (k : kernel) : option ExecutionAuthority.t :=
  irq_snapshot (CURRENT_SCHEDULER_EPOCH k) (CURRENT_EXECUTION k) (CURRENT_SCHEDULER_EPOCH k).

Definition current_user_handle : op ProcessHandle.t :=
  k ← get;
  if CURRENT_EXECUTION k =? PID0_IDENTITY then throw Pid0Immutable else
  ok_or (ProcessHandle.decode (CURRENT_EXECUTION k)) InvalidHandle.

Definition pid0_authority (epoch : Z) : Pid0Authority := mkPid0 PID0_GENERATION epoch.

Definition validate_pid0_authority (a : Pid0Authority) : op unit :=
  k ← get;
  if negb (CURRENT_EXECUTION k =? PID0_IDENTITY) || negb (pid0_generation a =? PID0_GENERATION)
     || negb (pid0_epoch a =? epoch_of k)
  then throw StalePid0Authority else mret ().

Definition current_pid0_authority : op Pid0Authority :=
  k ← get;
  let authority := pid0_authority (epoch_of k) in
  validate_pid0_authority authority ;;
  mret authority.
Definition authorize_pid0 (a : Pid0Authority) : op unit := validate_pid0_authority a.

(** ** Registration *)

Definition publish_current (h : ProcessHandle.t) : op unit :=
  if ProcessHandle.pid h =? NO_PID then throw Pid0Immutable else
  k ← get;
  match slot_by_handle h k with
  | None => throw InvalidHandle
  | Some slot =>
    if negb (bool_decide (phase slot = Running)) then throw InvalidTransition else
    put (with_current (ProcessHandle.encode h) k)
  end.

Definition register_init (launch : ProcessLaunch.t) : op ProcessHandle.t :=
  if negb (ProcessLaunch.validate launch) then throw InvalidLaunch else
  k ← get;
  if bool_decide (is_Some (slot_by_pid INIT_PID k)) then throw InvalidTransition else
  i ← ok_or (position is_vacant (slots_of k)) Capacity;
  update_slot i (populate INIT_PID NO_PID launch 0) ;;
  slot ← slot_at i;
  mret (ProcessHandle.mk INIT_PID (generation slot)).

Definition commit_child (parent : Z) (launch : ProcessLaunch.t) : op ProcessHandle.t :=
  if (parent =? NO_PID) || negb (ProcessLaunch.validate launch) then throw InvalidLaunch else
  k ← get;
  match slot_by_pid parent k with
  | None => throw InvalidHandle
  | Some parent_slot =>
    if bool_decide (phase parent_slot = Free) || bool_decide (phase parent_slot = Zombie)
    then throw InvalidTransition else
    found ← allocate_pid;
    pid ← ok_or found Capacity;
    k' ← get;
    let epoch := epoch_of k' in
    i ← ok_or (position is_vacant (slots_of k')) Capacity;
    update_slot i (with_occupied true) ;;
    slot ← slot_at i;
    generation ← ok_or (checked_add 32 (generation slot) 1) Capacity;
    update_slot i (with_generation generation) ;;
    update_slot i (populate pid parent launch epoch) ;;
    mret (ProcessHandle.mk pid generation)
  end.

(** ** Dispatch *)

Definition any_running (k : kernel) : bool := existsb (in_phase Running) (slots_of k).

Definition mark_running (h : ProcessHandle.t) : op ProcessSnapshot :=
  if ProcessHandle.pid h =? NO_PID then throw Pid0Immutable else
  k ← get;
  if negb (CURRENT_EXECUTION k =? PID0_IDENTITY) || any_running k then throw InvalidTransition else
  i ← ok_or (position (is_handle h) (slots_of k)) InvalidHandle;
  slot ← slot_at i;
  if negb (bool_decide (phase slot = Runnable)) then throw InvalidTransition else
  epoch ← lift (next_scheduler_epoch (epoch_of k));
  modify (with_epoch epoch) ;;
  update_slot i (with_phase Running) ;;
  slot' ← slot_at i;
  modify (with_current (ProcessHandle.encode (snap_handle (snapshot slot')))) ;;
  modify (publish_scheduler_epoch epoch) ;;
  mret (snapshot slot').

(** The slot the current execution runs in: the opening of [resume_current],
    [schedule_yield] and [schedule_exit]. *)
Definition running_index : op nat :=
  current ← current_user_handle;
  k ← get;
  i ← ok_or (position (is_handle current) (slots_of k)) InvalidHandle;
  slot ← slot_at i;
  if negb (bool_decide (phase slot = Running)) then throw InvalidTransition else mret i.

Definition resume_current (saved : SavedUserContext.t) : op ScheduledProcess.t :=
  require_context (SavedUserContext.validate saved) ;;
  i ← running_index;
  k ← get;
  next_epoch ← lift (next_scheduler_epoch (epoch_of k));
  p ← scheduled i saved next_epoch;
  require_context (DispatchContext.validate (ScheduledProcess.context p)) ;;
  update_slot i (with_context saved) ;;
  modify (with_epoch next_epoch) ;;
  modify (publish_scheduler_epoch next_epoch) ;;
  mret p.

Definition authorize_user_return (a : AuthorizedUserReturn.t) : op ScheduledProcess.t :=
  require_context (AuthorizedUserReturn.validate a) ;;
  let handle := ProcessHandle.mk (AuthorizedUserReturn.pid a) (AuthorizedUserReturn.generation a) in
  k ← get;
  if negb (bool_decide (current_handle k = Some handle))
     || negb (epoch_of k =? AuthorizedUserReturn.scheduler_epoch a)
  then throw StaleDispatchAuthority else
  i ← ok_or (position (is_handle handle) (slots_of k)) StaleDispatchAuthority;
  slot ← slot_at i;
  if negb (bool_decide (phase slot = Running)) then throw StaleDispatchAuthority else
  expected ← scheduled i (context slot) (epoch_of k);
  if negb (bool_decide (ScheduledProcess.authorized_return expected = a))
  then throw StaleDispatchAuthority else
  mret expected.

(** The common tail of [schedule_yield] and [schedule_preempt]: the caller is
    saved and made runnable, the next process in round-robin order runs. *)
Definition hand_over (current_index : nat) (saved : SavedUserContext.t) : op ScheduledProcess.t :=
  k ← get;
  let target_index :=
    match next_runnable_index current_index (slots_of k) with
    | Some i => i
    | None => current_index
    end in
  next_epoch ← lift (next_scheduler_epoch (epoch_of k));
  target_user ← (if Nat.eqb target_index current_index then mret saved
                 else slot ← slot_at target_index; mret (context slot));
  p ← scheduled target_index target_user next_epoch;
  require_context (DispatchContext.validate (ScheduledProcess.context p)) ;;
  update_slot current_index (with_context saved) ;;
  update_slot current_index (with_phase Runnable) ;;
  modify (with_epoch next_epoch) ;;
  update_slot target_index (with_phase Running) ;;
  modify (with_current (ProcessHandle.encode (ScheduledProcess.handle p))) ;;
  modify (publish_scheduler_epoch next_epoch) ;;
  mret p.

Definition schedule_yield (saved : SavedUserContext.t) : op ScheduledProcess.t :=
  require_context (SavedUserContext.validate saved) ;;
  let saved := SavedUserContext.set_syscall_result 0 saved in
  i ← running_index;
  hand_over i saved.

Definition schedule_preempt (saved : SavedUserContext.t) (a : ExecutionAuthority.t) :
    op ScheduledProcess.t :=
  require_context (SavedUserContext.validate saved) ;;
  k ← get;
  if negb (CURRENT_EXECUTION k =? ProcessHandle.encode (ExecutionAuthority.handle a))
     || negb (epoch_of k =? ExecutionAuthority.scheduler_epoch a)
  then throw StalePreemptionAuthority else
  i ← ok_or (position (is_handle (ExecutionAuthority.handle a)) (slots_of k))
    StalePreemptionAuthority;
  slot ← slot_at i;
  if negb (bool_decide (phase slot = Running)) then throw StalePreemptionAuthority else
  hand_over i saved.

(** The chosen process with its saved context, checked before anything is
    written. *)
Definition select (target : option nat) (next_epoch : Z) : op (option (nat * ScheduledProcess.t)) :=
  match target with
  | None => mret None
  | Some i =>
    slot ← slot_at i;
    p ← scheduled i (context slot) next_epoch;
    require_context (DispatchContext.validate (ScheduledProcess.context p)) ;;
    mret (Some (i, p))
  end.

(** The common tail of [schedule_exit] and [schedule_from_pid0]. *)
Definition dispatch (target : option (nat * ScheduledProcess.t)) (next_epoch : Z) :
    op ScheduleDecision :=
  match target with
  | Some (i, p) =>
    update_slot i (with_phase Running) ;;
    modify (with_current (ProcessHandle.encode (ScheduledProcess.handle p))) ;;
    modify (publish_scheduler_epoch next_epoch) ;;
    mret (User p)
  | None =>
    modify (with_current PID0_IDENTITY) ;;
    modify (publish_scheduler_epoch next_epoch) ;;
    mret (Pid0 (pid0_authority next_epoch))
  end.

Definition schedule_exit (exit_code : Z) : op ScheduleDecision :=
  i ← running_index;
  k ← get;
  next_epoch ← lift (next_scheduler_epoch (epoch_of k));
  target ← select (next_runnable_index i (slots_of k)) next_epoch;
  update_slot i (with_exit exit_code next_epoch) ;;
  modify (with_epoch next_epoch) ;;
  dispatch target next_epoch.

Definition schedule_from_pid0 (a : Pid0Authority) : op ScheduleDecision :=
  validate_pid0_authority a ;;
  k ← get;
  if any_running k then throw InvalidTransition else
  next_epoch ← lift (next_scheduler_epoch (epoch_of k));
  target ← select (position (in_phase Runnable) (slots_of k)) next_epoch;
  modify (with_epoch next_epoch) ;;
  dispatch target next_epoch.

(** ** Blocking, waiting and reaping *)

Definition mark_runnable (h : ProcessHandle.t) : op unit :=
  if ProcessHandle.pid h =? NO_PID then throw Pid0Immutable else
  k ← get;
  i ← ok_or (slot_by_handle_mut h k) InvalidHandle;
  slot ← slot_at i;
  if negb (bool_decide (phase slot = Running) || bool_decide (phase slot = Blocked))
  then throw InvalidTransition else
  update_slot i (with_phase Runnable).

Definition mark_blocked (h : ProcessHandle.t) : op unit :=
  if ProcessHandle.pid h =? NO_PID then throw Pid0Immutable else
  k ← get;
  i ← ok_or (slot_by_handle_mut h k) InvalidHandle;
  slot ← slot_at i;
  if negb (bool_decide (phase slot = Running)) then throw InvalidTransition else
  update_slot i (with_phase Blocked).

(** The scan of [wait_child]; [saw_child] is carried along. *)
Fixpoint wait_scan (parent' : Z) (requested : option Z) (saw_child : bool) (l : list ProcessSlot.t) :
    op ProcessSnapshot :=
  match l with
  | [] => if saw_child then throw StillRunning else throw NoChild
  | slot :: rest =>
    if negb (occupied slot) || negb (parent slot =? parent') then
      wait_scan parent' requested saw_child rest
    else if match requested with Some p => negb (pid slot =? p) | None => false end then
      wait_scan parent' requested saw_child rest
    else if bool_decide (phase slot = Zombie) then mret (snapshot slot)
    else wait_scan parent' requested true rest
  end.
Definition wait_child (parent : Z) (requested_pid : option Z) : op ProcessSnapshot :=
  k ← get; wait_scan parent requested_pid false (slots_of k).

Definition reap_child (parent' : Z) (h : ProcessHandle.t) : op Z :=
  if ProcessHandle.pid h =? NO_PID then throw Pid0Immutable else
  k ← get;
  i ← ok_or (slot_by_handle_mut h k) InvalidHandle;
  slot ← slot_at i;
  if negb (parent slot =? parent') then throw NotChild else
  if negb (bool_decide (phase slot = Zombie)) then throw StillRunning else
  let next_generation :=
    match checked_add 32 (generation slot) 1 with Some g => g | None => MAX 32 end in
  update_slot i (λ _, with_generation next_generation EMPTY) ;;
  mret (exit_code slot).

Definition snapshot_of (p : Z) (k : kernel) : option ProcessSnapshot :=
  snapshot <$> slot_by_pid p k.

(** [iter().cycle().skip(start).take(len)]: the table rotated to [start]. *)
Definition next_runnable (after_pid : Z) (k : kernel) : option ProcessSnapshot :=
  let l := slots_of k in
  let start := match position (is_pid after_pid) l with Some i => S i | None => 0%nat end in
  snapshot <$> find (in_phase Runnable) (drop start l ++ take start l).

End Lifecycle.

(** ** Invariant *)

Module LifecycleFacts.
Import ProcessSlot Lifecycle.

Definition handle_of (s : ProcessSlot.t) : ProcessHandle.t := ProcessHandle.mk (pid s) (generation s).

(** The dispatch object a slot gives rise to at an epoch. *)
Definition scheduled_of (s : ProcessSlot.t) (epoch : Z) : ScheduledProcess.t :=
  ScheduledProcess.mk (handle_of s)
    (DispatchContext.mk (context s) (ProcessLaunch.address_space_root (launch s))
       (ProcessLaunch.kernel_stack_pointer (launch s))) epoch.

(** A slot on its own: a vacant one is free, an occupied one holds a process
    that could be dispatched. *)
Record slot_ok (s : ProcessSlot.t) : Prop := {
  so_generation : 1 <= generation s < 2 ^ 32;
  so_vacant : occupied s = false → phase s = Free;
  so_pid : occupied s = true → 0 < pid s < 2 ^ 32;
  so_phase : occupied s = true → phase s ≠ Free ∧ phase s ≠ Installing;
  so_launch : occupied s = true → ProcessLaunch.validate (launch s) = true;
  so_context : occupied s = true → SavedUserContext.validate (context s) = Ok ();
}.

Record table_ok (l : list ProcessSlot.t) : Prop := {
  to_length : length l = MAXIMUM_PROCESSES;
  to_slot : ∀ i s, l !! i = Some s → slot_ok s;
  to_pids : ∀ i j p q, l !! i = Some p → l !! j = Some q →
    occupied p = true → occupied q = true → pid p = pid q → i = j;
}.

Record kernel_ok (k : kernel) : Prop := {
  ko_table : table_ok (slots_of k);
  ko_running : ∀ i s, slots_of k !! i = Some s → in_phase Running s = true →
    CURRENT_EXECUTION k = ProcessHandle.encode (handle_of s) ∧ 0 < epoch_of k;
  ko_epoch : u64 (epoch_of k);
  ko_mirror : CURRENT_SCHEDULER_EPOCH k = epoch_of k;
  ko_next_pid : u32 (next_pid (TABLE k));
}.

Lemma in_phase_spec p s : in_phase p s = true ↔ occupied s = true ∧ phase s = p.
Proof. unfold in_phase. by rewrite andb_true_iff, bool_decide_eq_true. Qed.
Lemma is_handle_spec h s : is_handle h s = true ↔ occupied s = true ∧ handle_of s = h.
Proof.
  unfold is_handle, handle_of. rewrite !andb_true_iff, !Z.eqb_eq. destruct h. simpl.
  split; [intros [[? ->] ->]|intros [? [= -> ->]]]; done.
Qed.
Lemma is_pid_spec p s : is_pid p s = true ↔ occupied s = true ∧ pid s = p.
Proof. unfold is_pid. by rewrite andb_true_iff, Z.eqb_eq. Qed.
Lemma is_vacant_spec s :
  is_vacant s = true ↔ occupied s = false ∧ generation s ≠ MAX 32.
Proof. unfold is_vacant. by rewrite andb_true_iff, !negb_true_iff, Z.eqb_neq. Qed.

(** *** Identities *)

Lemma encode_eq h :
  u32 (ProcessHandle.pid h) → u32 (ProcessHandle.generation h) →
  ProcessHandle.encode h = ProcessHandle.generation h * 2 ^ 32 + ProcessHandle.pid h.
Proof.
  unfold ProcessHandle.encode, in_width. intros Hp Hg.
  rewrite wrap_small by (rewrite Z.shiftl_mul_pow2 by lia; unfold in_width; lia).
  by apply lor_pack.
Qed.

Lemma decode_encode h :
  0 < ProcessHandle.pid h < 2 ^ 32 → 0 < ProcessHandle.generation h < 2 ^ 32 →
  ProcessHandle.decode (ProcessHandle.encode h) = Some h.
Proof.
  intros Hp Hg. rewrite encode_eq by (unfold in_width; lia).
  unfold ProcessHandle.decode, wrap, NO_PID. destruct h as [p g].
  cbn [ProcessHandle.pid ProcessHandle.generation] in *.
  destruct (Z.eqb_spec (g * 2 ^ 32 + p) 0); [lia|].
  rewrite Z.shiftr_div_pow2, pack_low, pack_high, (Z.mod_small g) by (unfold in_width; lia).
  destruct (Z.eqb_spec p 0), (Z.eqb_spec g 0); (lia || done).
Qed.

Lemma encode_decode e h :
  u64 e → ProcessHandle.decode e = Some h → ProcessHandle.encode h = e.
Proof.
  unfold ProcessHandle.decode, wrap, in_width. intros He.
  destruct (Z.eqb_spec e 0); [done|]. cbv zeta. destruct (_ || _); [done|]. intros [= <-].
  rewrite Z.shiftr_div_pow2 by lia. rewrite (Z.mod_small (e / 2 ^ 32)) by (Z.div_mod_to_equations; lia).
  rewrite encode_eq; simpl; [|apply Z.mod_pos_bound; lia|unfold in_width; Z.div_mod_to_equations; lia].
  pose proof (Z.div_mod e (2 ^ 32)). lia.
Qed.

Lemma PID0_IDENTITY_eq : PID0_IDENTITY = 2 ^ 32.
Proof. reflexivity. Qed.

Lemma slot_identity s :
  slot_ok s → occupied s = true →
  ProcessHandle.decode (ProcessHandle.encode (handle_of s)) = Some (handle_of s) ∧
  ProcessHandle.encode (handle_of s) ≠ PID0_IDENTITY.
Proof.
  intros [] Ho. specialize (so_pid0 Ho). split; [apply decode_encode; simpl; lia|].
  rewrite encode_eq, PID0_IDENTITY_eq by (unfold in_width; simpl; lia). simpl. lia.
Qed.

Lemma encode_inj s h :
  slot_ok s → occupied s = true →
  ProcessHandle.encode (handle_of s) = ProcessHandle.encode h →
  ProcessHandle.decode (ProcessHandle.encode h) = Some (handle_of s).
Proof. intros Hs Ho <-. by apply slot_identity. Qed.

(** A process that can be dispatched passes the check of the return path. *)
Lemma dispatch_valid s user :
  slot_ok s → occupied s = true → SavedUserContext.validate user = Ok () →
  DispatchContext.validate
    (DispatchContext.mk user (ProcessLaunch.address_space_root (launch s))
       (ProcessLaunch.kernel_stack_pointer (launch s))) = Ok ().
Proof.
  intros [] Ho Hu. specialize (so_launch0 Ho). unfold ProcessLaunch.validate in so_launch0.
  apply andb_true_iff in so_launch0 as [[[[[Hr _]%andb_true_iff _]%andb_true_iff Hk]%andb_true_iff _]
    %andb_true_iff _].
  unfold DispatchContext.validate. simpl. by rewrite Hu, Hr, Hk.
Qed.

(** *** Reading and writing slots *)

Lemma wp_slot_at k i s Q R :
  slots_of k !! i = Some s → wp (slot_at i) Q R k ↔ Q s k.
Proof.
  intros Hi. unfold slot_at. wp_simpl. unfold wp, index.
  destruct (Z.leb_spec 0 (Z.of_nat i)); [|lia]. by rewrite Nat2Z.id, Hi.
Qed.

Lemma wp_update_slot k i s f Q R :
  slots_of k !! i = Some s →
  wp (update_slot i f) Q R k ↔ Q () (with_slots (<[i := f s]> (slots_of k)) k).
Proof.
  intros Hi. unfold update_slot. wp_simpl. rewrite (wp_slot_at k i s) by done.
  pose proof (lookup_lt_Some _ _ _ Hi). wp_simpl. unfold wp, store.
  destruct (Z.leb_spec 0 (Z.of_nat i)); [|lia].
  destruct (Z.ltb_spec (Z.of_nat i) (Z.of_nat (length (slots_of k)))); [|lia].
  by rewrite Nat2Z.id.
Qed.

Lemma wp_scheduled k i s user e Q R :
  slots_of k !! i = Some s →
  wp (scheduled i user e) Q R k ↔
  Q (ScheduledProcess.mk (handle_of s)
       (DispatchContext.mk user (ProcessLaunch.address_space_root (launch s))
          (ProcessLaunch.kernel_stack_pointer (launch s))) e) k.
Proof. intros Hi. unfold scheduled. rewrite wp_bind, (wp_slot_at k i s) by done. by wp_simpl. Qed.

Lemma wp_require r Q R (k : kernel) :
  wp (require_context r) Q R k ↔
  match r with Ok _ => Q () k | Err _ => R InvalidContext k end.
Proof. by destruct r. Qed.

Lemma next_epoch_spec e :
  next_scheduler_epoch e = if e + 1 <? 2 ^ 64 then Ok (e + 1) else Err EpochExhausted.
Proof. unfold next_scheduler_epoch, checked_add. by destruct (e + 1 <? 2 ^ 64). Qed.

(** *** Tables *)

(** Overwriting a slot with a good one whose pid no other process has. *)
Lemma table_ok_update l i s s' :
  table_ok l → l !! i = Some s → slot_ok s' →
  (occupied s' = true → ∀ j q, j ≠ i → l !! j = Some q → occupied q = true → pid q ≠ pid s') →
  table_ok (<[i := s']> l).
Proof.
  intros [] Hi Hs' Hfresh. split.
  - by rewrite length_insert.
  - intros j q [[-> [<- _]]|[_ Hq]]%list_lookup_insert_Some; [done|by eauto].
  - intros j j' p q [[-> [<- _]]|[Hne Hp]]%list_lookup_insert_Some
      [[-> [<- _]]|[Hne' Hq]]%list_lookup_insert_Some Hop Hoq Heq; try done.
    + exfalso. by eapply Hfresh.
    + exfalso. by eapply (Hfresh Hoq j p).
    + by eapply to_pids0.
Qed.

(** The special case of a process that changes but keeps its pid. *)
Lemma table_ok_same l i s s' :
  table_ok l → l !! i = Some s → slot_ok s' → occupied s = true → pid s' = pid s →
  table_ok (<[i := s']> l).
Proof.
  intros Hl Hi Hs' Ho Hp. eapply table_ok_update; [done..|].
  intros Ho' j q Hj Hq Hoq Heq. apply Hj.
  eapply (to_pids _ Hl); [done|done|done|done|]. congruence.
Qed.

Lemma slot_ok_phase s p :
  slot_ok s → occupied s = true → p ≠ Free → p ≠ Installing → slot_ok (with_phase p s).
Proof. intros [] Ho ? ?. split; simpl; try done. congruence. Qed.
Lemma slot_ok_context s c :
  slot_ok s → SavedUserContext.validate c = Ok () → slot_ok (with_context c s).
Proof. intros [] Hc. by split. Qed.

Definition quiet (l : list ProcessSlot.t) : Prop :=
  ∀ i s, l !! i = Some s → in_phase Running s = false.

(** The kernel after process [t] of table [l] has been dispatched, and after
    the scheduler has gone idle. *)
Definition dispatched (k : kernel) (l : list ProcessSlot.t) (t : nat) (st : ProcessSlot.t) (e : Z) :
    kernel :=
  mkKernel (mkTable (<[t := with_phase Running st]> l) (next_pid (TABLE k)) e)
    (ProcessHandle.encode (handle_of st)) e.
Definition idled (k : kernel) (l : list ProcessSlot.t) (e : Z) : kernel :=
  mkKernel (mkTable l (next_pid (TABLE k)) e) PID0_IDENTITY e.

Lemma dispatched_ok k l t st e :
  kernel_ok k → table_ok l → quiet l → l !! t = Some st → occupied st = true →
  0 < e < 2 ^ 64 → kernel_ok (dispatched k l t st e).
Proof.
  intros [] Hl Hq Ht Ho He. split; simpl; try done; [| |unfold epoch_of, in_width; simpl; lia].
  - eapply table_ok_same; [done|done| |done|done].
    apply slot_ok_phase; [by eapply to_slot|done..].
  - intros i s [[-> [<- _]]|[_ Hs]]%list_lookup_insert_Some Hr;
      [split; [done|unfold epoch_of; simpl; lia]|].
    apply Hq in Hs. congruence.
Qed.

Lemma idled_ok k l e :
  kernel_ok k → table_ok l → quiet l → 0 <= e < 2 ^ 64 → kernel_ok (idled k l e).
Proof.
  intros [] Hl Hq He. split; simpl; try done. intros i s Hs Hr. apply Hq in Hs. congruence.
Qed.

(** The running slot is unique. *)
Lemma running_unique k i j p q :
  kernel_ok k → slots_of k !! i = Some p → slots_of k !! j = Some q →
  in_phase Running p = true → in_phase Running q = true → i = j.
Proof.
  intros Hok Hi Hj Hp Hq. destruct (ko_running _ Hok i p Hi Hp) as [Hcp _].
  destruct (ko_running _ Hok j q Hj Hq) as [Hcq _].
  apply in_phase_spec in Hp as [Hop _], Hq as [Hoq _].
  pose proof (to_slot _ (ko_table _ Hok)) as Hs.
  destruct (slot_identity p) as [Hdp _]; [by eauto|done|].
  destruct (slot_identity q) as [Hdq _]; [by eauto|done|].
  eapply (to_pids _ (ko_table _ Hok)); [done..|]. rewrite <- Hcp in Hdp. rewrite <- Hcq, Hdp in Hdq.
  injection Hdq as ? ?. done.
Qed.

(** Taking the running process off the processor leaves none running. *)
Lemma quiet_update k i s s' :
  kernel_ok k → slots_of k !! i = Some s → in_phase Running s = true →
  in_phase Running s' = false → quiet (<[i := s']> (slots_of k)).
Proof.
  intros Hok Hi Hr Hs' j q [[-> [<- _]]|[Hne Hq]]%list_lookup_insert_Some; [done|].
  destruct (in_phase Running q) eqn:Hrq; [|done]. exfalso. apply Hne.
  by eapply running_unique.
Qed.

Lemma any_running_false k : any_running k = false ↔ quiet (slots_of k).
Proof.
  unfold any_running, quiet. rewrite existsb_not_elem. split.
  - intros H i s Hi. apply H. by eapply list_elem_of_lookup_2.
  - intros H s [i Hi]%list_elem_of_lookup. by eapply H.
Qed.

(** *** Round robin *)

Lemma find_seq {A} (p : A → bool) (f : nat → A) a n x :
  find p (f <$> seq a n) = Some x ↔
  ∃ d, (a <= d < a + n)%nat ∧ x = f d ∧ p x = true ∧ ∀ d', (a <= d' < d)%nat → p (f d') = false.
Proof.
  revert a. induction n as [|n IH]; intros a; simpl; [naive_solver lia|].
  destruct (p (f a)) eqn:Ha.
  - split.
    + intros [= <-]. exists a. split; [lia|]. split; [done|]. split; [done|]. intros; lia.
    + intros (d & Hd & -> & Hp & Hmin). destruct (decide (d = a)) as [->|]; [done|].
      rewrite (Hmin a) in Ha by lia. done.
  - rewrite IH. split.
    + intros (d & Hd & -> & Hp & Hmin). exists d. split; [lia|]. split; [done|]. split; [done|].
      intros d' Hd'. destruct (decide (d' = a)) as [->|]; [done|]. apply Hmin. lia.
    + intros (d & Hd & -> & Hp & Hmin). exists d.
      assert (d ≠ a) by congruence. split; [lia|]. split; [done|]. split; [done|].
      intros d' Hd'. apply Hmin. lia.
Qed.

Lemma find_seq_None {A} (p : A → bool) (f : nat → A) a n :
  find p (f <$> seq a n) = None ↔ ∀ d, (a <= d < a + n)%nat → p (f d) = false.
Proof.
  revert a. induction n as [|n IH]; intros a; simpl; [split; [intros; lia|done]|].
  destruct (p (f a)) eqn:Ha.
  - split; [done|]. intros H. rewrite (H a) in Ha by lia. done.
  - rewrite IH. split; intros H d Hd; [|apply H; lia].
    destruct (decide (d = a)) as [->|]; [done|]. apply H. lia.
Qed.

(** The position [d] places after [i] in a ring of [n]. *)
Definition ring (n i d : nat) : nat := ((i + d) mod n)%nat.

Lemma ring_eq n i d :
  (i < n)%nat → (d <= n)%nat → ring n i d = if decide (i + d < n)%nat then (i + d)%nat else (i + d - n)%nat.
Proof.
  intros Hi Hd. unfold ring. case_decide; [by apply Nat.mod_small|].
  symmetry. apply (Nat.mod_unique _ _ 1); lia.
Qed.

Lemma ring_other n i d : (i < n)%nat → (0 < d < n)%nat → ring n i d ≠ i.
Proof. intros Hi Hd. rewrite ring_eq by lia. case_decide; lia. Qed.
Lemma ring_full n i : (i < n)%nat → ring n i n = i.
Proof. intros Hi. rewrite ring_eq by lia. case_decide; lia. Qed.
Lemma ring_lt n i d : (i < n)%nat → (ring n i d < n)%nat.
Proof. intros. apply Nat.mod_upper_bound. lia. Qed.

Lemma next_runnable_Some i l t :
  next_runnable_index i l = Some t ↔
  ∃ d, (1 <= d <= length l)%nat ∧ t = ring (length l) i d ∧ runnable_at l t = true ∧
    ∀ d', (1 <= d' < d)%nat → runnable_at l (ring (length l) i d') = false.
Proof.
  unfold next_runnable_index. rewrite find_seq. unfold ring.
  split; intros (d & Hd & H); exists d; (split; [lia|done]).
Qed.

Lemma next_runnable_None i l :
  next_runnable_index i l = None ↔
  ∀ d, (1 <= d <= length l)%nat → runnable_at l (ring (length l) i d) = false.
Proof.
  unfold next_runnable_index. rewrite find_seq_None. unfold ring.
  split; intros H d Hd; apply H; lia.
Qed.

Lemma runnable_at_insert l i s' j :
  (i < length l)%nat →
  runnable_at (<[i := s']> l) j = if decide (j = i) then in_phase Runnable s' else runnable_at l j.
Proof.
  intros Hi. unfold runnable_at. case_decide as Hj.
  - subst. by rewrite list_lookup_insert_eq.
  - by rewrite list_lookup_insert_ne.
Qed.

(** Once the caller itself counts as runnable, the search always ends: at the
    next peer, or after a full turn at the caller. *)
Lemma next_after_suspend l i s s' :
  l !! i = Some s → in_phase Runnable s = false → in_phase Runnable s' = true →
  next_runnable_index i (<[i := s']> l) =
    Some (match next_runnable_index i l with Some t => t | None => i end).
Proof.
  intros Hi Hs Hs'. pose proof (lookup_lt_Some _ _ _ Hi) as Hlt.
  assert (Hrun : runnable_at l i = false) by (unfold runnable_at; by rewrite Hi).
  apply next_runnable_Some. rewrite length_insert. destruct (next_runnable_index i l) as [t|] eqn:Hn.
  - apply next_runnable_Some in Hn as (d & Hd & -> & Hr & Hmin). exists d.
    assert (d ≠ length l) by (intros ->; rewrite ring_full in Hr by done; congruence).
    split; [lia|]. split; [done|]. rewrite runnable_at_insert by done.
    rewrite decide_False by (apply ring_other; lia). split; [done|].
    intros d' Hd'. rewrite runnable_at_insert, decide_False by (done || apply ring_other; lia).
    by apply Hmin.
  - rewrite next_runnable_None in Hn. exists (length l). split; [lia|].
    rewrite ring_full by done. split; [done|]. rewrite runnable_at_insert, decide_True by done.
    split; [done|]. intros d' Hd'.
    rewrite runnable_at_insert, decide_False by (done || apply ring_other; lia). apply Hn. lia.
Qed.

(** A process that is not runnable before or after does not matter. *)
Lemma next_runnable_insert l i s s' :
  l !! i = Some s → in_phase Runnable s = false → in_phase Runnable s' = false →
  next_runnable_index i (<[i := s']> l) = next_runnable_index i l.
Proof.
  intros Hi Hs Hs'. pose proof (lookup_lt_Some _ _ _ Hi) as Hlt.
  assert (Heq : ∀ j, runnable_at (<[i := s']> l) j = runnable_at l j).
  { intros j. rewrite runnable_at_insert by done. case_decide; [|done]. subst.
    unfold runnable_at. by rewrite Hi, Hs, Hs'. }
  destruct (next_runnable_index i l) as [t|] eqn:Hn.
  - apply next_runnable_Some. apply next_runnable_Some in Hn as (d & Hd & Ht & Hr & Hmin).
    exists d. rewrite length_insert. rewrite Heq. repeat (split; [done|]).
    intros. rewrite Heq. by apply Hmin.
  - apply next_runnable_None. rewrite length_insert. intros. rewrite Heq.
    by apply next_runnable_None.
Qed.

Lemma runnable_at_Some l i : runnable_at l i = true → ∃ s, l !! i = Some s ∧ in_phase Runnable s = true.
Proof. unfold runnable_at. destruct (l !! i) as [s|]; [by exists s|done]. Qed.

End LifecycleFacts.
