(* ===== verification/Scheduling.v ===== *)
(** * Scheduling: what the lifecycle operations do

    The behaviour of every operation of [Lifecycle], stated with two kinds of
    result: a process of some table is dispatched at the next epoch, or the
    scheduler goes idle.  [SchedulingRuns] composes the operations into runs of
    the kernel and [SchedulingProperties] holds the theorems. *)
From S2P Require Import Prelude Context Lifecycle.

Module SchedulingFacts.
Import ProcessSlot Lifecycle LifecycleFacts.

(** The running slot, when there is one. *)
Definition on_cpu (k : kernel) (i : nat) (s : ProcessSlot.t) : Prop :=
  slots_of k !! i = Some s ∧ in_phase Running s = true.

Lemma on_cpu_slot k i s :
  kernel_ok k → on_cpu k i s → slot_ok s ∧ occupied s = true ∧ phase s = Running ∧
    in_phase Runnable s = false ∧ (i < length (slots_of k))%nat.
Proof.
  intros Hok [Hi Hr]. pose proof (to_slot _ (ko_table _ Hok) i s Hi).
  pose proof (lookup_lt_Some _ _ _ Hi). apply in_phase_spec in Hr as [Ho Hp].
  do 3 (split; [done|]). split; [|done].
  apply not_true_iff_false. rewrite in_phase_spec. intros [_ ?]. congruence.
Qed.

Lemma on_cpu_unique k i s j q : kernel_ok k → on_cpu k i s → on_cpu k j q → i = j ∧ s = q.
Proof.
  intros Hok [Hi Hs] [Hj Hq]. assert (i = j) as -> by exact (running_unique k i j s q Hok Hi Hj Hs Hq).
  split; [done|]. congruence.
Qed.

(** Searching by an identity finds the slot that has it. *)
Lemma position_handle k i s :
  kernel_ok k → slots_of k !! i = Some s → occupied s = true →
  position (is_handle (handle_of s)) (slots_of k) = Some i.
Proof.
  intros Hok Hi Ho. apply position_Some. split.
  - exists s. split; [done|]. by apply is_handle_spec.
  - intros j q Hj Hq. apply not_true_iff_false. intros [Hoq Heq]%is_handle_spec.
    assert (j = i); [|lia].
    eapply (to_pids _ (ko_table _ Hok)); [done..|]. by injection Heq.
Qed.

Lemma position_handle_Some h l i :
  position (is_handle h) l = Some i → ∃ s, l !! i = Some s ∧ occupied s = true ∧ handle_of s = h.
Proof.
  intros [(s & Hs & Hh) _]%position_Some. exists s. split; [done|]. by apply is_handle_spec.
Qed.

Lemma current_on_cpu k i s :
  kernel_ok k → on_cpu k i s →
  CURRENT_EXECUTION k = ProcessHandle.encode (handle_of s) ∧
  ProcessHandle.decode (CURRENT_EXECUTION k) = Some (handle_of s) ∧
  CURRENT_EXECUTION k ≠ PID0_IDENTITY ∧ 0 < epoch_of k.
Proof.
  intros Hok Hc. destruct (on_cpu_slot _ _ _ Hok Hc) as (Hs & Ho & _).
  destruct Hc as [Hi Hr]. destruct (ko_running _ Hok i s Hi Hr) as [Hcur He].
  destruct (slot_identity s Hs Ho) as [Hd Hne]. rewrite Hcur. done.
Qed.

(** The opening of the system-call paths finds the running slot, or fails
    because there is none. *)
Lemma running_index_ok k :
  kernel_ok k →
  wp running_index (λ i k', k' = k ∧ ∃ s, on_cpu k i s)
    (λ _ k', k' = k ∧ quiet (slots_of k)) k.
Proof.
  intros Hok. unfold running_index, current_user_handle. wp_simpl.
  destruct (any_running k) eqn:Hany.
  - apply existsb_elem in Hany as (s & [i Hi]%list_elem_of_lookup & Hr).
    assert (Hc : on_cpu k i s) by done.
    destruct (current_on_cpu _ _ _ Hok Hc) as (_ & Hd & Hne & _).
    destruct (on_cpu_slot _ _ _ Hok Hc) as (_ & Ho & Hp & _).
    apply Z.eqb_neq in Hne. rewrite Hne. wp_simpl. rewrite Hd. wp_simpl.
    rewrite (position_handle k i s) by done. wp_simpl. rewrite (wp_slot_at k i s) by done.
    rewrite bool_decide_eq_true_2 by done. cbn [negb]. wp_simpl. split; [done|by exists s].
  - apply any_running_false in Hany. destruct (_ =? _); wp_simpl; [done|].
    destruct (ProcessHandle.decode _) as [h|]; wp_simpl; [|done].
    destruct (position _ _) as [i|] eqn:Hpos; wp_simpl; [|done].
    apply position_handle_Some in Hpos as (s & Hi & Ho & _).
    rewrite (wp_slot_at k i s) by done. case_bool_decide as Hp; cbn [negb]; wp_simpl; [|done].
    split; [done|]. exists s. split; [done|]. by apply in_phase_spec.
Qed.

Lemma running_index_on_cpu k i s : kernel_ok k → on_cpu k i s → running_index k = Done i k.
Proof.
  intros Hok Hc. pose proof (running_index_ok k Hok) as H. unfold wp in H.
  destruct (running_index k) as [j k'|e k'|]; [|by destruct H as [_ H], Hc as [Hi Hr]; apply H in Hi; congruence|done].
  destruct H as (-> & q & Hj & Hrq). f_equal. destruct Hc. by eapply running_unique.
Qed.

(** *** The caller suspended *)

Definition suspended (saved : SavedUserContext.t) (s : ProcessSlot.t) : ProcessSlot.t :=
  with_phase Runnable (with_context saved s).

Definition suspend (k : kernel) (i : nat) (saved : SavedUserContext.t) (s : ProcessSlot.t) :
    list ProcessSlot.t := <[i := suspended saved s]> (slots_of k).

Lemma suspend_ok k i saved s :
  kernel_ok k → on_cpu k i s → SavedUserContext.validate saved = Ok () →
  table_ok (suspend k i saved s) ∧ quiet (suspend k i saved s).
Proof.
  intros Hok Hc Hv. destruct (on_cpu_slot _ _ _ Hok Hc) as (Hs & Ho & Hp & _).
  destruct Hc as [Hi Hr]. split.
  - eapply table_ok_same; [by apply Hok|done| |done|done].
    apply slot_ok_phase; [by apply slot_ok_context|done..].
  - eapply quiet_update; [done..|]. apply not_true_iff_false. rewrite in_phase_spec. by intros [_ ?].
Qed.

(** The next in turn. *)
Lemma next_in_turn k i saved s :
  kernel_ok k → on_cpu k i s →
  ∃ t st, next_runnable_index i (suspend k i saved s) = Some t ∧
    t = (match next_runnable_index i (slots_of k) with Some j => j | None => i end) ∧
    suspend k i saved s !! t = Some st ∧ occupied st = true ∧ in_phase Runnable st = true.
Proof.
  intros Hok Hc. destruct (on_cpu_slot _ _ _ Hok Hc) as (Hs & Ho & Hp & Hnr & Hlt).
  destruct Hc as [Hi Hr]. pose proof (next_after_suspend _ _ s (suspended saved s) Hi Hnr) as Hn.
  specialize (Hn ltac:(by apply in_phase_spec)). fold (suspend k i saved s) in Hn.
  pose proof Hn as (d & _ & _ & Hrun & _)%next_runnable_Some.
  apply runnable_at_Some in Hrun as (st & Hst & Hr'). eexists _, st. split; [done|].
  split; [done|]. split; [done|]. split; [|done]. by apply in_phase_spec in Hr' as [? _].
Qed.

Lemma hand_over_ok k i saved s :
  kernel_ok k → on_cpu k i s → SavedUserContext.validate saved = Ok () → epoch_of k + 1 < 2 ^ 64 →
  ∃ t st, next_runnable_index i (suspend k i saved s) = Some t ∧
    suspend k i saved s !! t = Some st ∧ occupied st = true ∧ in_phase Runnable st = true ∧
    hand_over i saved k = Done (scheduled_of st (epoch_of k + 1))
      (dispatched k (suspend k i saved s) t st (epoch_of k + 1)).
Proof.
  intros Hok Hc Hv He. destruct (on_cpu_slot _ _ _ Hok Hc) as (Hs & Ho & Hp & Hnr & Hlt).
  destruct (next_in_turn k i saved s Hok Hc) as (t & st & Hn & Ht & Hst & Hot & Hrt).
  exists t, st. do 4 (split; [done|]). destruct (suspend_ok k i saved s Hok Hc Hv) as [Hl _].
  assert (Hsok : slot_ok st) by (by eapply (to_slot _ Hl)).
  pose proof (so_context _ Hsok Hot).
  destruct Hc as [Hi Hr]. apply wp_exact. unfold hand_over. wp_simpl. rewrite <- Ht.
  rewrite next_epoch_spec. destruct (Z.ltb_spec (epoch_of k + 1) (2 ^ 64)); [|lia]. wp_simpl.
  assert (∃ st0, slots_of k !! t = Some st0 ∧ handle_of st0 = handle_of st ∧ launch st0 = launch st ∧
    context st = if (t =? i)%nat then saved else context st0) as (st0 & Ht0 & Hh & Hla & Hctx).
  { unfold suspend in Hst. apply list_lookup_insert_Some in Hst as [(<- & <- & _)|[Hne Hst]].
    - exists s. rewrite Nat.eqb_refl. done.
    - exists st. destruct (Nat.eqb_spec t i); [by subst|done]. }
  assert (Huser : ∀ (Q : _ → _ → Prop) R,
    wp (if (t =? i)%nat then mret saved else slot ← slot_at t; mret (context slot)) Q R k ↔ Q (context st) k).
  { intros Q R. destruct (t =? i)%nat; [by rewrite wp_ret, Hctx|].
    rewrite wp_bind, (wp_slot_at k t st0) by done. by rewrite wp_ret, Hctx. }
  rewrite Huser. wp_simpl. rewrite (wp_scheduled k t st0) by done.
  wp_simpl. rewrite wp_require. cbn [ScheduledProcess.context].
  rewrite Hla, Hh. rewrite dispatch_valid by done.
  wp_simpl. rewrite (wp_update_slot _ _ s) by done. wp_simpl.
  rewrite (wp_update_slot _ _ (with_context saved s)) by (by apply list_lookup_insert_eq).
  wp_simpl. cbn [slots_of with_slots TABLE slots]. rewrite list_insert_insert_eq.
  rewrite (wp_update_slot _ _ st) by done. wp_simpl. done.
Qed.

(** *** Handing the processor over *)

(** The caller [i] is saved and suspended, and process [t] is dispatched. *)
Record switched (k : kernel) (i : nat) (s : ProcessSlot.t) (saved : SavedUserContext.t)
    (t : nat) (st : ProcessSlot.t) (p : ScheduledProcess.t) (k' : kernel) : Prop := {
  sw_caller : on_cpu k i s;
  sw_saved : SavedUserContext.validate saved = Ok ();
  sw_epoch : epoch_of k + 1 < 2 ^ 64;
  sw_target : suspend k i saved s !! t = Some st;
  sw_runnable : in_phase Runnable st = true;
  sw_result : p = scheduled_of st (epoch_of k + 1);
  sw_kernel : k' = dispatched k (suspend k i saved s) t st (epoch_of k + 1);
}.

Lemma switched_ok k i s saved t st p k' :
  kernel_ok k → switched k i s saved t st p k' → kernel_ok k'.
Proof.
  intros Hok []. destruct (suspend_ok k i saved s) as [Hl Hq]; [done..|]. subst.
  pose proof (ko_epoch _ Hok). unfold in_width in *.
  apply in_phase_spec in sw_runnable0 as [? _]. apply dispatched_ok; try done. lia.
Qed.

(** Why a scheduling call is refused. *)
Definition exhausted (k : kernel) : Prop := epoch_of k = MAX 64.

Lemma hand_over_wp k i s saved :
  kernel_ok k → on_cpu k i s → SavedUserContext.validate saved = Ok () →
  wp (hand_over i saved)
    (λ p k', ∃ t st, next_runnable_index i (suspend k i saved s) = Some t ∧
       switched k i s saved t st p k')
    (λ e k', k' = k ∧ e = EpochExhausted ∧ exhausted k) k.
Proof.
  intros Hok Hc Hv. destruct (Z.lt_ge_cases (epoch_of k + 1) (2 ^ 64)) as [He|He].
  - destruct (hand_over_ok k i saved s Hok Hc Hv He) as (t & st & Hn & Hst & Ho & Hr & Heq).
    eapply wp_eq; [done|]. exists t, st. split; [done|]. by split.
  - unfold hand_over. wp_simpl. rewrite next_epoch_spec.
    destruct (Z.ltb_spec (epoch_of k + 1) (2 ^ 64)); [lia|]. do 2 (split; [done|]).
    unfold exhausted, MAX. pose proof (ko_epoch _ Hok). unfold in_width in *. lia.
Qed.

Lemma schedule_yield_wp k saved :
  kernel_ok k →
  wp (schedule_yield saved)
    (λ p k', ∃ i s t st, let saved' := SavedUserContext.set_syscall_result 0 saved in
       next_runnable_index i (suspend k i saved' s) = Some t ∧ switched k i s saved' t st p k')
    (λ e k', k' = k ∧ ((e = InvalidContext ∧ SavedUserContext.validate saved ≠ Ok ()) ∨
       quiet (slots_of k) ∨ (e = EpochExhausted ∧ exhausted k))) k.
Proof.
  intros Hok. unfold schedule_yield. rewrite wp_bind, wp_require.
  destruct (SavedUserContext.validate saved) as [[]|] eqn:Hv; [|split; [done|by left]].
  wp_simpl. eapply wp_mono; [by apply running_index_ok| |].
  - intros i k' (-> & s & Hc). eapply wp_mono; [by apply hand_over_wp| |].
    + intros p k' (t & st & ? & ?). by exists i, s, t, st.
    + intros e k' (-> & ? & ?). split; [done|]. right. by right.
  - intros e k' [-> Hq]. split; [done|]. right. by left.
Qed.

Lemma schedule_preempt_wp k saved a :
  kernel_ok k →
  wp (schedule_preempt saved a)
    (λ p k', ∃ i s t st, next_runnable_index i (suspend k i saved s) = Some t ∧
       switched k i s saved t st p k' ∧ ExecutionAuthority.handle a = handle_of s ∧
       ExecutionAuthority.scheduler_epoch a = epoch_of k)
    (λ e k', k' = k ∧ ((e = InvalidContext ∧ SavedUserContext.validate saved ≠ Ok ()) ∨
       (e = StalePreemptionAuthority ∧ ∀ i s, on_cpu k i s →
          ExecutionAuthority.mk (handle_of s) (epoch_of k) ≠ a) ∨
       (e = EpochExhausted ∧ exhausted k))) k.
Proof.
  intros Hok. unfold schedule_preempt. rewrite wp_bind, wp_require.
  destruct (SavedUserContext.validate saved) as [[]|] eqn:Hv; [|split; [done|by left]].
  wp_simpl. destruct (_ || _) eqn:Hstale; wp_simpl.
  { split; [done|]. right. left. split; [done|]. intros i s Hc <-.
    destruct (current_on_cpu _ _ _ Hok Hc) as [Hcur _]. simpl in Hstale.
    rewrite Hcur, !Z.eqb_refl in Hstale. done. }
  bool_to_prop. destruct (position _ _) as [i|] eqn:Hpos; wp_simpl.
  - apply position_handle_Some in Hpos as (s & Hi & Ho & Hh). rewrite (wp_slot_at k i s) by done.
    case_bool_decide as Hp; cbn [negb]; wp_simpl.
    + assert (Hc : on_cpu k i s) by (split; [done|]; by apply in_phase_spec).
      eapply wp_mono; [by apply hand_over_wp| |].
      * intros p k' (t & st & ? & ?). by exists i, s, t, st.
      * intros e k' (-> & ? & ?). split; [done|]. right. by right.
    + split; [done|]. right. left. split; [done|]. intros j q Hc <-. simpl in Hh.
      destruct (on_cpu_slot _ _ _ Hok Hc) as (_ & Hoq & Hpq & _). destruct Hc as [Hj _].
      injection Hh as Hpid _. assert (i = j) by (by eapply (to_pids _ (ko_table _ Hok))).
      simplify_eq.
  - split; [done|]. right. left. split; [done|]. intros j q Hc <-. simpl in Hpos.
    destruct (on_cpu_slot _ _ _ Hok Hc) as (_ & Hoq & _). destruct Hc as [Hj _].
    rewrite (position_handle k j q) in Hpos; done.
Qed.

(** [resume_current] is the switch of the caller to itself. *)
Lemma resume_current_wp k saved :
  kernel_ok k →
  wp (resume_current saved)
    (λ p k', ∃ i s, switched k i s saved i (suspended saved s) p k')
    (λ e k', k' = k ∧ ((e = InvalidContext ∧ SavedUserContext.validate saved ≠ Ok ()) ∨
       quiet (slots_of k) ∨ (e = EpochExhausted ∧ exhausted k))) k.
Proof.
  intros Hok. unfold resume_current. rewrite wp_bind, wp_require.
  destruct (SavedUserContext.validate saved) as [[]|] eqn:Hv; [|split; [done|by left]].
  wp_simpl. eapply wp_mono; [by apply running_index_ok| |].
  2:{ intros e k' [-> Hq]. split; [done|]. right. by left. }
  intros i k' (-> & s & Hc). wp_simpl. rewrite next_epoch_spec.
  destruct (on_cpu_slot _ _ _ Hok Hc) as (Hs & Ho & Hp & _ & Hlt).
  destruct (current_on_cpu _ _ _ Hok Hc) as [Hcur _]. pose proof Hc as [Hi Hr].
  pose proof (ko_epoch _ Hok).
  destruct (Z.ltb_spec (epoch_of k + 1) (2 ^ 64)).
  2:{ split; [done|]. right. right. split; [done|]. unfold exhausted, MAX, in_width in *. lia. }
  wp_simpl. rewrite (wp_scheduled k i s) by done. wp_simpl. rewrite wp_require.
  cbn [ScheduledProcess.context]. rewrite dispatch_valid by done. wp_simpl.
  rewrite (wp_update_slot _ _ s) by done. wp_simpl. exists i, s. split; try done.
  - by apply list_lookup_insert_eq.
  - by apply in_phase_spec.
  - unfold dispatched, suspend. rewrite list_insert_insert_eq. unfold with_epoch,
      publish_scheduler_epoch, with_slots. simpl. rewrite Hcur. repeat f_equal.
    unfold suspended, with_phase, with_context. simpl. by rewrite Hp.
Qed.

(** *** Exit and idle *)

(** The table [l] is scheduled at the next epoch: [target] runs, or nobody. *)
Definition decided (k : kernel) (l : list ProcessSlot.t) (target : option nat)
    (d : ScheduleDecision) (k' : kernel) : Prop :=
  let e := epoch_of k + 1 in
  e < 2 ^ 64 ∧
  match target with
  | Some t => ∃ st, l !! t = Some st ∧ in_phase Runnable st = true ∧
      d = User (scheduled_of st e) ∧ k' = dispatched k l t st e
  | None => d = Pid0 (pid0_authority e) ∧ k' = idled k l e
  end.

Lemma decided_ok k l target d k' :
  kernel_ok k → table_ok l → quiet l → decided k l target d k' → kernel_ok k'.
Proof.
  intros Hok Hl Hq [He Hd]. pose proof (ko_epoch _ Hok). unfold in_width in *.
  destruct target as [t|].
  - destruct Hd as (st & Hst & [Ho _]%in_phase_spec & _ & ->). apply dispatched_ok; try done. lia.
  - destruct Hd as [_ ->]. apply idled_ok; try done. lia.
Qed.

Lemma select_ok k target e Q R :
  table_ok (slots_of k) → (∀ t, target = Some t → runnable_at (slots_of k) t = true) →
  (∀ r, match target with
        | Some t => ∃ st, slots_of k !! t = Some st ∧ in_phase Runnable st = true ∧
                      r = Some (t, scheduled_of st e)
        | None => r = None
        end → Q r k) →
  wp (select target e) Q R k.
Proof.
  intros Hl Ht HQ. destruct target as [t|]; simpl; [|rewrite wp_ret; by apply HQ].
  destruct (runnable_at_Some _ _ (Ht t eq_refl)) as (st & Hst & Hr).
  pose proof (to_slot _ Hl t st Hst) as Hs. pose proof Hr as [Ho _]%in_phase_spec.
  rewrite wp_bind, (wp_slot_at k t st) by done. rewrite wp_bind, (wp_scheduled k t st) by done.
  rewrite wp_bind, wp_require. cbn [ScheduledProcess.context].
  rewrite dispatch_valid by (done || by apply so_context). rewrite wp_ret. apply HQ.
  by exists st.
Qed.

(** [dispatch] after the table has become [l] and the epoch [e]. *)
Lemma dispatch_ok k l target st e Q R :
  (∀ t, target = Some t → l !! t = Some st) →
  (match target with
   | Some t => Q (User (scheduled_of st e)) (dispatched k l t st e)
   | None => Q (Pid0 (pid0_authority e)) (idled k l e)
   end) →
  wp (dispatch ((λ t, (t, scheduled_of st e)) <$> target) e) Q R
    (mkKernel (mkTable l (next_pid (TABLE k)) e) (CURRENT_EXECUTION k) (CURRENT_SCHEDULER_EPOCH k)).
Proof.
  intros Ht HQ. destruct target as [t|]; simpl; wp_simpl; [|done].
  rewrite (wp_update_slot _ _ st) by (by apply Ht). wp_simpl. done.
Qed.

Definition exited (k : kernel) (i : nat) (s : ProcessSlot.t) (code : Z) : list ProcessSlot.t :=
  <[i := with_exit code (epoch_of k + 1) s]> (slots_of k).

Lemma exited_ok k i s code :
  kernel_ok k → on_cpu k i s → table_ok (exited k i s code) ∧ quiet (exited k i s code).
Proof.
  intros Hok Hc. destruct (on_cpu_slot _ _ _ Hok Hc) as (Hs & Ho & Hp & _). pose proof Hc as [Hi Hr].
  split.
  - eapply table_ok_same; [by apply Hok|done| |done|done]. destruct Hs. split; try done; simpl; congruence.
  - eapply quiet_update; [done..|]. apply not_true_iff_false. rewrite in_phase_spec. by intros [_ ?].
Qed.

Lemma schedule_exit_wp k code :
  kernel_ok k →
  wp (schedule_exit code)
    (λ d k', ∃ i s, on_cpu k i s ∧
       decided k (exited k i s code) (next_runnable_index i (slots_of k)) d k')
    (λ e k', k' = k ∧ (quiet (slots_of k) ∨ (e = EpochExhausted ∧ exhausted k))) k.
Proof.
  intros Hok. unfold schedule_exit. rewrite wp_bind.
  eapply wp_mono; [by apply running_index_ok| |by intros e k' [-> ?]; auto].
  intros i k' (-> & s & Hc). destruct (on_cpu_slot _ _ _ Hok Hc) as (Hs & Ho & Hp & Hnr & Hlt).
  pose proof Hc as [Hi Hr]. pose proof (ko_epoch _ Hok). wp_simpl. rewrite next_epoch_spec.
  destruct (Z.ltb_spec (epoch_of k + 1) (2 ^ 64)).
  2:{ split; [done|]. right. split; [done|]. unfold exhausted, MAX, in_width in *. lia. }
  wp_simpl. set (target := next_runnable_index i (slots_of k)).
  assert (Ht : ∀ t, target = Some t → runnable_at (slots_of k) t = true)
    by (by intros t (d & _ & _ & ? & _)%next_runnable_Some).
  apply select_ok; [by apply Hok|done|]. intros r Hsel.
  assert (Hst : ∃ st, r = (λ t, (t, scheduled_of st (epoch_of k + 1))) <$> target ∧
    ∀ t, target = Some t → exited k i s code !! t = Some st ∧ in_phase Runnable st = true).
  { destruct target as [t|]; [|subst; by exists s].
    destruct Hsel as (st & Hst & Hrt & ->). exists st. split; [done|]. intros t' [= <-].
    split; [|done]. unfold exited. rewrite list_lookup_insert_ne; [done|]. intros ->. congruence. }
  destruct Hst as (st & -> & Hst). rewrite wp_bind, (wp_update_slot _ _ s) by done. wp_simpl.
  apply (dispatch_ok k (exited k i s code)); [by intros t Ht'; apply Hst|].
  destruct target as [t|] eqn:Htt; unfold target in Htt; exists i, s; (split; [done|]); rewrite Htt;
    (split; [done|]); [|done].
  destruct (Hst t eq_refl). by exists st.
Qed.

Lemma position_runnable_at l t :
  position (in_phase Runnable) l = Some t → runnable_at l t = true.
Proof. intros [(s & Hs & Hr) _]%position_Some. unfold runnable_at. by rewrite Hs. Qed.

Lemma schedule_from_pid0_wp k a :
  kernel_ok k →
  wp (schedule_from_pid0 a)
    (λ d k', CURRENT_EXECUTION k = PID0_IDENTITY ∧ quiet (slots_of k) ∧
       a = pid0_authority (epoch_of k) ∧
       decided k (slots_of k) (position (in_phase Runnable) (slots_of k)) d k')
    (λ e k', k' = k ∧
       ((e = StalePid0Authority ∧
           (CURRENT_EXECUTION k ≠ PID0_IDENTITY ∨ a ≠ pid0_authority (epoch_of k))) ∨
        (e = InvalidTransition ∧ ¬ quiet (slots_of k)) ∨ (e = EpochExhausted ∧ exhausted k))) k.
Proof.
  intros Hok. unfold schedule_from_pid0, validate_pid0_authority. wp_simpl.
  destruct (_ || _) eqn:Hstale; wp_simpl.
  { split; [done|]. left. split; [done|].
    destruct (Z.eqb_spec (CURRENT_EXECUTION k) PID0_IDENTITY); [right|by left].
    intros ->. simpl in Hstale. by rewrite !Z.eqb_refl in Hstale. }
  bool_to_prop. destruct (any_running k) eqn:Hany; wp_simpl.
  { split; [done|]. right. left. split; [done|]. rewrite <- any_running_false. congruence. }
  apply any_running_false in Hany. pose proof (ko_epoch _ Hok). rewrite next_epoch_spec.
  destruct (Z.ltb_spec (epoch_of k + 1) (2 ^ 64)).
  2:{ split; [done|]. right. right. split; [done|]. unfold exhausted, MAX, in_width in *. lia. }
  wp_simpl. set (target := position (in_phase Runnable) (slots_of k)).
  assert (Ht : ∀ t, target = Some t → runnable_at (slots_of k) t = true)
    by (intros t; apply position_runnable_at).
  apply select_ok; [by apply Hok|done|]. intros r Hsel.
  assert (Hst : ∃ st, r = (λ t, (t, scheduled_of st (epoch_of k + 1))) <$> target ∧
    ∀ t, target = Some t → slots_of k !! t = Some st ∧ in_phase Runnable st = true).
  { destruct target as [t|]; [|subst; by exists EMPTY].
    destruct Hsel as (st & Hst & Hrt & ->). exists st. split; [done|]. by intros t' [= <-]. }
  destruct Hst as (st & -> & Hst). wp_simpl.
  apply (dispatch_ok k (slots_of k)); [by intros t Ht'; apply Hst|].
  assert (a = pid0_authority (epoch_of k)) as Ha
    by (destruct a as [g e]; unfold pid0_authority; simpl in *; by subst).
  destruct target as [t|]; (do 4 (split; [done|])); [|done].
  destruct (Hst t eq_refl). by exists st.
Qed.

Lemma mark_running_wp k h :
  kernel_ok k →
  wp (mark_running h)
    (λ p k', quiet (slots_of k) ∧ CURRENT_EXECUTION k = PID0_IDENTITY ∧
       ∃ t st, slots_of k !! t = Some st ∧ in_phase Runnable st = true ∧
       handle_of st = h ∧ p = snapshot (with_phase Running st) ∧ epoch_of k + 1 < 2 ^ 64 ∧
       k' = dispatched k (slots_of k) t st (epoch_of k + 1))
    (λ _ k', k' = k) k.
Proof.
  intros Hok. unfold mark_running. destruct (_ =? NO_PID); wp_simpl; [done|].
  destruct (_ || _) eqn:Hb; wp_simpl; [done|]. bool_to_prop. apply any_running_false in H0.
  destruct (position _ _) as [t|] eqn:Hpos; wp_simpl; [|done].
  apply position_handle_Some in Hpos as (st & Hst & Ho & Hh). rewrite (wp_slot_at k t st) by done.
  case_bool_decide as Hp; cbn [negb]; wp_simpl; [|done]. rewrite next_epoch_spec.
  destruct (Z.ltb_spec (epoch_of k + 1) (2 ^ 64)); [|done].
  wp_simpl. rewrite (wp_update_slot _ _ st) by done. wp_simpl.
  rewrite (wp_slot_at _ _ (with_phase Running st)) by (apply list_lookup_insert_eq; by eapply lookup_lt_Some).
  wp_simpl. do 2 (split; [done|]). exists t, st. do 4 (split; [done || by apply in_phase_spec|]). done.
Qed.

(** *** Changes to one slot *)

Lemma with_slots_ok k i s s' :
  kernel_ok k → slots_of k !! i = Some s → slot_ok s' →
  (occupied s' = true → ∀ j q, j ≠ i → slots_of k !! j = Some q → occupied q = true → pid q ≠ pid s') →
  in_phase Running s' = false →
  kernel_ok (with_slots (<[i := s']> (slots_of k)) k).
Proof.
  intros Hok Hi Hs' Hfresh Hr. pose proof Hok as []. split; simpl; try done.
  - by eapply table_ok_update.
  - intros j q [[-> [<- _]]|[_ Hq]]%list_lookup_insert_Some Hrq; [congruence|by eauto].
Qed.

Lemma with_next_pid_ok k n : kernel_ok k → u32 n → kernel_ok (with_next_pid n k).
Proof. intros [] Hn. by split. Qed.

Lemma other_pid k i s j q :
  kernel_ok k → slots_of k !! i = Some s → occupied s = true → j ≠ i →
  slots_of k !! j = Some q → occupied q = true → pid q ≠ pid s.
Proof.
  intros Hok Hi Ho Hj Hq Hoq Heq. apply Hj. by eapply (to_pids _ (ko_table _ Hok)).
Qed.

(** [mark_runnable] and [mark_blocked]. *)
Definition rephased (k : kernel) (i : nat) (s : ProcessSlot.t) (p : ProcessPhase) : kernel :=
  with_slots (<[i := with_phase p s]> (slots_of k)) k.

Lemma rephased_ok k i s p :
  kernel_ok k → slots_of k !! i = Some s → occupied s = true → p = Runnable ∨ p = Blocked →
  kernel_ok (rephased k i s p).
Proof.
  intros Hok Hi Ho Hp. pose proof (to_slot _ (ko_table _ Hok) i s Hi).
  eapply with_slots_ok; [done|done|by apply slot_ok_phase; [..|destruct Hp; subst|destruct Hp; subst]| |].
  - intros _ j q Hj Hq Hoq. exact (other_pid k i s j q Hok Hi Ho Hj Hq Hoq).
  - apply not_true_iff_false. rewrite in_phase_spec. intros [_ Heq]. simpl in Heq. subst. by destruct Hp.
Qed.

Lemma mark_runnable_wp k h :
  kernel_ok k →
  wp (mark_runnable h)
    (λ _ k', ∃ i s, slots_of k !! i = Some s ∧ occupied s = true ∧ handle_of s = h ∧
       (phase s = Running ∨ phase s = Blocked) ∧ k' = rephased k i s Runnable)
    (λ _ k', k' = k) k.
Proof.
  intros Hok. unfold mark_runnable, slot_by_handle_mut. destruct (_ =? NO_PID); wp_simpl; [done|].
  destruct (position _ _) as [i|] eqn:Hpos; wp_simpl; [|done].
  apply position_handle_Some in Hpos as (s & Hi & Ho & Hh). rewrite (wp_slot_at k i s) by done.
  destruct (bool_decide (phase s = Running) || bool_decide (phase s = Blocked)) eqn:Hp;
    cbn [negb]; wp_simpl; [|done].
  rewrite (wp_update_slot _ _ s) by done. exists i, s. do 3 (split; [done|]). split; [|done].
  apply orb_true_iff in Hp as [Hp|Hp]; apply bool_decide_eq_true in Hp; auto.
Qed.

Lemma mark_blocked_wp k h :
  kernel_ok k →
  wp (mark_blocked h)
    (λ _ k', ∃ i s, on_cpu k i s ∧ handle_of s = h ∧ k' = rephased k i s Blocked)
    (λ _ k', k' = k) k.
Proof.
  intros Hok. unfold mark_blocked, slot_by_handle_mut. destruct (_ =? NO_PID); wp_simpl; [done|].
  destruct (position _ _) as [i|] eqn:Hpos; wp_simpl; [|done].
  apply position_handle_Some in Hpos as (s & Hi & Ho & Hh). rewrite (wp_slot_at k i s) by done.
  case_bool_decide as Hp; cbn [negb]; wp_simpl; [|done].
  rewrite (wp_update_slot _ _ s) by done. exists i, s. split; [|done].
  split; [done|]. by apply in_phase_spec.
Qed.

(** [publish_current] only ever restates what the dispatcher published. *)
Lemma find_handle_Some h l s :
  find (is_handle h) l = Some s → ∃ i, l !! i = Some s ∧ occupied s = true ∧ handle_of s = h.
Proof.
  intros [Hin Hh]%find_some. apply list_elem_of_In, list_elem_of_lookup in Hin as [i Hi].
  exists i. split; [done|]. by apply is_handle_spec.
Qed.

Lemma publish_current_wp k h :
  kernel_ok k → wp (publish_current h) (λ _ k', k' = k) (λ _ k', k' = k) k.
Proof.
  intros Hok. unfold publish_current. destruct (_ =? NO_PID); wp_simpl; [done|].
  destruct (slot_by_handle h k) as [s|] eqn:Hs; wp_simpl; [|done].
  apply find_handle_Some in Hs as (i & Hi & Ho & <-). case_bool_decide as Hp; cbn [negb]; wp_simpl; [|done].
  assert (Hc : on_cpu k i s) by (split; [done|]; by apply in_phase_spec).
  destruct (current_on_cpu _ _ _ Hok Hc) as [Hcur _]. unfold with_current. rewrite <- Hcur.
  by destruct k.
Qed.

(** *** Process identifiers *)

(** The pids tried from [c] on: consecutive, wrapping from [2^32 - 1] to 2. *)
Definition next_candidate (c : Z) : Z := Z.max (wrapping_add 32 c 1) 2.
Fixpoint candidates (n : nat) (c : Z) : list Z :=
  match n with O => [] | S n' => c :: candidates n' (next_candidate c) end.

Definition usable_pids : Z := 2 ^ 32 - 2.

Lemma next_candidate_eq c :
  2 <= c < 2 ^ 32 → next_candidate c = 2 + (c - 2 + 1) mod usable_pids.
Proof.
  intros Hc. unfold next_candidate, wrapping_add, wrap, usable_pids.
  destruct (Z.eq_dec c (2 ^ 32 - 1)) as [->|]; [done|].
  rewrite !Z.mod_small by lia. lia.
Qed.
Lemma next_candidate_range c : 2 <= c < 2 ^ 32 → 2 <= next_candidate c < 2 ^ 32.
Proof.
  intros Hc. rewrite next_candidate_eq by done.
  pose proof (Z.mod_pos_bound (c - 2 + 1) usable_pids). unfold usable_pids in *. lia.
Qed.

Lemma candidates_lookup n c j x :
  2 <= c < 2 ^ 32 → candidates n c !! j = Some x → x = 2 + (c - 2 + Z.of_nat j) mod usable_pids.
Proof.
  revert c j. induction n as [|n IH]; intros c j Hc; [done|].
  destruct j as [|j]; simpl.
  - intros [= <-]. rewrite Z.mod_small; unfold usable_pids; lia.
  - intros Hj. apply IH in Hj as ->; [|by apply next_candidate_range].
    rewrite next_candidate_eq by done. f_equal.
    replace (2 + (c - 2 + 1) mod usable_pids - 2 + Z.of_nat j)
      with ((c - 2 + 1) mod usable_pids + Z.of_nat j) by lia.
    rewrite Zplus_mod_idemp_l. f_equal. lia.
Qed.

Lemma candidates_NoDup n c : 2 <= c < 2 ^ 32 → Z.of_nat n <= usable_pids → NoDup (candidates n c).
Proof.
  intros Hc Hn. apply NoDup_alt. intros i j x Hi Hj.
  assert (Hlen : ∀ m d, length (candidates m d) = m)
    by (intros m; induction m; intros; simpl; auto).
  pose proof (lookup_lt_Some _ _ _ Hi). pose proof (lookup_lt_Some _ _ _ Hj). rewrite Hlen in *.
  apply candidates_lookup in Hi, Hj; [|done..]. rewrite Hi in Hj.
  assert (Heq : (c - 2 + Z.of_nat i) mod usable_pids = (c - 2 + Z.of_nat j) mod usable_pids) by lia.
  unfold usable_pids in *. Z.div_mod_to_equations. lia.
Qed.

Definition fresh_pid (k : kernel) (p : Z) : Prop :=
  2 <= p < 2 ^ 32 ∧ ∀ i s, slots_of k !! i = Some s → occupied s = true → pid s ≠ p.

Definition pids (k : kernel) : list Z := pid <$> List.filter occupied (slots_of k).

Lemma allocate_rounds_ok n k :
  u32 (next_pid (TABLE k)) →
  ∃ r m, allocate_pid_rounds n k = Done r (with_next_pid m k) ∧ u32 m ∧
    match r with
    | Some p => fresh_pid k p
    | None => ∀ c, c ∈ candidates n (Z.max (next_pid (TABLE k)) 2) → c ∈ pids k
    end.
Proof.
  revert k. induction n as [|n IH]; intros k Hw; simpl.
  - exists None, (next_pid (TABLE k)). split; [by destruct k as [[] ? ?]|]. split; [done|].
    intros c Hc. inversion Hc.
  - set (c := Z.max (next_pid (TABLE k)) 2).
    assert (Hc : 2 <= c < 2 ^ 32) by (unfold in_width in Hw; unfold c; lia).
    unfold get, put, mbind, M_bind. fold c. destruct (existsb (is_pid c) (slots_of k)) eqn:Hex.
    + destruct (IH (with_next_pid (next_candidate c) k)) as (r & m & Heq & Hm & Hr).
      { pose proof (next_candidate_range c Hc). simpl. unfold in_width. lia. }
      exists r, m. split; [exact Heq|]. split; [done|]. destruct r as [p|]; [done|].
      intros x [->|Hx]%elem_of_cons.
      * apply existsb_elem in Hex as (s & Hs & [Ho Hp]%is_pid_spec). unfold pids.
        rewrite <- Hp. apply list_elem_of_fmap_2. apply list_elem_of_In, filter_In.
        split; [by apply list_elem_of_In|done].
      * apply Hr. simpl. rewrite Z.max_l; [done|]. by apply next_candidate_range.
    + exists (Some c), (next_candidate c). split; [done|].
      pose proof (next_candidate_range c Hc). split; [unfold in_width; lia|]. split; [done|].
      intros i s Hi Ho Hp. rewrite existsb_not_elem in Hex.
      specialize (Hex s ltac:(by eapply list_elem_of_lookup_2)).
      apply not_true_iff_false in Hex. apply Hex. by apply is_pid_spec.
Qed.

(** Sixty-five distinct candidates cannot all be taken by sixty-four slots. *)
Lemma allocate_pid_ok k :
  kernel_ok k → ∃ p m, allocate_pid k = Done (Some p) (with_next_pid m k) ∧ u32 m ∧ fresh_pid k p.
Proof.
  intros Hok. destruct (allocate_rounds_ok (S MAXIMUM_PROCESSES) k (ko_next_pid _ Hok))
    as ([p|] & m & Heq & Hm & Hr); [by exists p, m|]. exfalso.
  set (c := Z.max (next_pid (TABLE k)) 2) in *.
  assert (Hsub : candidates (S MAXIMUM_PROCESSES) c ⊆+ pids k).
  { apply NoDup_submseteq; [|done]. pose proof (ko_next_pid _ Hok). unfold in_width in *.
    apply candidates_NoDup; [unfold c; lia|done]. }
  apply submseteq_length in Hsub. unfold pids in Hsub. rewrite length_fmap in Hsub.
  pose proof (filter_length_le occupied (slots_of k)).
  rewrite (to_length _ (ko_table _ Hok)) in *. simpl in Hsub. unfold MAXIMUM_PROCESSES in *. lia.
Qed.

(** *** Admission *)

Definition enrolled (s : ProcessSlot.t) (p parent : Z) (launch : ProcessLaunch.t) (g wait : Z) :
    ProcessSlot.t := populate p parent launch wait (with_generation g s).

Lemma enrolled_ok s p parent launch g wait :
  ProcessLaunch.validate launch = true → 0 < p < 2 ^ 32 → 1 <= g < 2 ^ 32 →
  slot_ok (enrolled s p parent launch g wait).
Proof.
  intros Hl Hp Hg. split; simpl; try done.
  unfold ProcessLaunch.validate in Hl.
  apply andb_true_iff in Hl as [[[[[_ He]%andb_true_iff Hu]%andb_true_iff _]%andb_true_iff _]
    %andb_true_iff _].
  intros _. by apply SavedUserContext.validate_initial.
Qed.

Lemma enrolled_kernel_ok k i s p parent launch g wait :
  kernel_ok k → slots_of k !! i = Some s → ProcessLaunch.validate launch = true →
  0 < p < 2 ^ 32 → 1 <= g < 2 ^ 32 →
  (∀ j q, slots_of k !! j = Some q → occupied q = true → pid q ≠ p) →
  kernel_ok (with_slots (<[i := enrolled s p parent launch g wait]> (slots_of k)) k).
Proof.
  intros Hok Hi Hl Hp Hg Hfresh. eapply with_slots_ok; [done|done|by apply enrolled_ok| |done].
  intros _ j q _. apply Hfresh.
Qed.

Lemma register_init_wp k launch :
  kernel_ok k →
  wp (register_init launch)
    (λ h k', ProcessLaunch.validate launch = true ∧
       (∀ j q, slots_of k !! j = Some q → occupied q = true → pid q ≠ INIT_PID) ∧
       ∃ i s, slots_of k !! i = Some s ∧ is_vacant s = true ∧
         h = ProcessHandle.mk INIT_PID (generation s) ∧
         k' = with_slots (<[i := enrolled s INIT_PID NO_PID launch (generation s) 0]> (slots_of k)) k)
    (λ _ k', k' = k) k.
Proof.
  intros Hok. unfold register_init. destruct (ProcessLaunch.validate launch); cbn [negb]; wp_simpl; [|done].
  case_bool_decide as Hinit; wp_simpl; [done|].
  destruct (position is_vacant (slots_of k)) as [i|] eqn:Hpos; wp_simpl; [|done].
  apply position_Some in Hpos as [(s & Hi & Hv) _]. rewrite (wp_update_slot _ _ s) by done. wp_simpl.
  rewrite (wp_slot_at _ _ (populate INIT_PID NO_PID launch 0 s))
    by (apply list_lookup_insert_eq; by eapply lookup_lt_Some).
  wp_simpl. split; [done|]. split.
  - intros j q Hj Ho Hp. apply Hinit. unfold slot_by_pid. destruct (find _ _) eqn:Hf; [done|].
    assert (Hin : In q (slots_of k)) by (apply list_elem_of_In; by eapply list_elem_of_lookup_2).
    pose proof (find_none _ _ Hf q Hin) as Hno. apply not_true_iff_false in Hno.
    exfalso. apply Hno. by apply is_pid_spec.
  - exists i, s. by destruct s.
Qed.

Lemma find_pid_Some k p s :
  slot_by_pid p k = Some s → ∃ i, slots_of k !! i = Some s ∧ occupied s = true ∧ pid s = p.
Proof.
  intros [Hin Hh]%find_some. apply list_elem_of_In, list_elem_of_lookup in Hin as [i Hi].
  exists i. split; [done|]. by apply is_pid_spec.
Qed.

Definition alive (k : kernel) (p : Z) : Prop :=
  ∃ i s, slots_of k !! i = Some s ∧ occupied s = true ∧ pid s = p ∧ phase s ≠ Zombie.

(** A child takes a vacant slot under a pid nobody has and the slot's next
    generation; the only trace of a refusal is the advanced pid cursor. *)
Lemma commit_child_wp k parent launch :
  kernel_ok k →
  wp (commit_child parent launch)
    (λ h k', ProcessLaunch.validate launch = true ∧ alive k parent ∧
       ∃ i s p m, slots_of k !! i = Some s ∧ is_vacant s = true ∧ fresh_pid k p ∧ u32 m ∧
         h = ProcessHandle.mk p (generation s + 1) ∧
         k' = with_slots (<[i := enrolled s p parent launch (generation s + 1) (epoch_of k)]>
                (slots_of k)) (with_next_pid m k))
    (λ e k', ∃ m, u32 m ∧ k' = with_next_pid m k ∧
       (e = Capacity → ∀ s, s ∈ slots_of k → is_vacant s = false)) k.
Proof.
  intros Hok. unfold commit_child.
  assert (Hsame : ∃ m, u32 m ∧ k = with_next_pid m k).
  { exists (next_pid (TABLE k)). split; [by apply Hok|]. by destruct k as [[] ? ?]. }
  destruct Hsame as (m0 & Hm0 & Hk0).
  destruct (_ || _) eqn:Hl; wp_simpl; [by exists m0|]. bool_to_prop.
  destruct (slot_by_pid parent k) as [ps|] eqn:Hps; wp_simpl; [|by exists m0].
  apply find_pid_Some in Hps as (j & Hj & Ho & Hp).
  destruct (bool_decide (phase ps = Free) || bool_decide (phase ps = Zombie)) eqn:Hz; wp_simpl;
    [by exists m0|].
  apply orb_false_iff in Hz as [_ Hz%bool_decide_eq_false].
  destruct (allocate_pid_ok k Hok) as (p & m & Heq & Hm & Hf).
  eapply wp_eq; [exact Heq|]. cbv beta iota. wp_simpl.
  destruct (position is_vacant _) as [i|] eqn:Hpos; wp_simpl.
  - apply position_Some in Hpos as [(s & Hi & Hv) _]. pose proof Hv as [Hov Hg]%is_vacant_spec.
    pose proof (so_generation _ (to_slot _ (ko_table _ Hok) i s Hi)) as Hgen.
    assert (Hlt : (i < length (slots_of k))%nat) by (by eapply lookup_lt_Some).
    rewrite (wp_update_slot _ _ s) by done. wp_simpl.
    rewrite (wp_slot_at _ _ (with_occupied true s)) by (by apply list_lookup_insert_eq). wp_simpl.
    unfold checked_add. cbn [generation with_occupied].
    destruct (Z.ltb_spec (generation s + 1) (2 ^ 32)); [|unfold MAX in Hg; lia]. wp_simpl.
    rewrite (wp_update_slot _ _ (with_occupied true s)) by (by apply list_lookup_insert_eq). wp_simpl.
    cbn [slots_of with_slots TABLE slots]. rewrite list_insert_insert_eq.
    rewrite (wp_update_slot _ _ (with_generation (generation s + 1) (with_occupied true s)))
      by (by apply list_lookup_insert_eq). wp_simpl.
    cbn [slots_of with_slots TABLE slots]. rewrite list_insert_insert_eq.
    split; [done|]. split; [by exists j, ps|]. by exists i, s, p, m.
  - exists m. do 2 (split; [done|]). intros _ s. by apply position_None.
Qed.

(** *** Reaping *)

Definition retired (g : Z) : ProcessSlot.t := with_generation (Z.min (g + 1) (MAX 32)) EMPTY.

Lemma reap_child_wp k parent' h :
  kernel_ok k →
  wp (reap_child parent' h)
    (λ c k', ∃ i s, slots_of k !! i = Some s ∧ in_phase Zombie s = true ∧ handle_of s = h ∧
       parent s = parent' ∧ c = exit_code s ∧
       k' = with_slots (<[i := retired (generation s)]> (slots_of k)) k)
    (λ _ k', k' = k) k.
Proof.
  intros Hok. unfold reap_child, slot_by_handle_mut. destruct (_ =? NO_PID); wp_simpl; [done|].
  destruct (position _ _) as [i|] eqn:Hpos; wp_simpl; [|done].
  apply position_handle_Some in Hpos as (s & Hi & Ho & Hh). rewrite (wp_slot_at k i s) by done.
  destruct (Z.eqb_spec (parent s) parent'); cbn [negb]; wp_simpl; [|done].
  case_bool_decide as Hp; cbn [negb]; wp_simpl; [|done].
  rewrite (wp_update_slot _ _ s) by done. wp_simpl. exists i, s. do 5 (split; [done || by apply in_phase_spec|]).
  pose proof (so_generation _ (to_slot _ (ko_table _ Hok) i s Hi)).
  unfold checked_add, retired, MAX. destruct (Z.ltb_spec (generation s + 1) (2 ^ 32)).
  - rewrite Z.min_l by lia. done.
  - rewrite Z.min_r by lia. done.
Qed.

(** The parent of a zombie can always reap it. *)
Lemma reap_zombie k i s :
  kernel_ok k → slots_of k !! i = Some s → in_phase Zombie s = true →
  reap_child (parent s) (handle_of s) k =
    Done (exit_code s) (with_slots (<[i := retired (generation s)]> (slots_of k)) k).
Proof.
  intros Hok Hi [Ho Hz]%in_phase_spec. pose proof (to_slot _ (ko_table _ Hok) i s Hi) as Hs.
  pose proof (so_pid _ Hs Ho). pose proof (so_generation _ Hs).
  apply wp_exact. unfold reap_child, slot_by_handle_mut, NO_PID. simpl.
  destruct (Z.eqb_spec (pid s) 0); [lia|]. wp_simpl. rewrite (position_handle k i s) by done. wp_simpl.
  rewrite (wp_slot_at k i s) by done. rewrite Z.eqb_refl, bool_decide_eq_true_2 by done. cbn [negb].
  wp_simpl. rewrite (wp_update_slot _ _ s) by done. wp_simpl. split; [done|].
  unfold checked_add, retired, MAX. destruct (Z.ltb_spec (generation s + 1) (2 ^ 32)).
  - by rewrite Z.min_l by lia.
  - by rewrite Z.min_r by lia.
Qed.

Lemma retired_kernel_ok k i s :
  kernel_ok k → slots_of k !! i = Some s →
  kernel_ok (with_slots (<[i := retired (generation s)]> (slots_of k)) k).
Proof.
  intros Hok Hi. pose proof (so_generation _ (to_slot _ (ko_table _ Hok) i s Hi)).
  eapply with_slots_ok; [done|done| |done|done]. split; simpl; try done. unfold MAX. lia.
Qed.

(** *** Waiting *)

Definition is_child (parent' : Z) (requested : option Z) (s : ProcessSlot.t) : Prop :=
  occupied s = true ∧ parent s = parent' ∧ ∀ p, requested = Some p → pid s = p.

Lemma wait_scan_ok parent' requested saw l (k : kernel) :
  wp (wait_scan parent' requested saw l)
    (λ r k', k' = k ∧ ∃ s, s ∈ l ∧ is_child parent' requested s ∧ phase s = Zombie ∧ r = snapshot s)
    (λ e k', k' = k ∧ (∀ s, s ∈ l → is_child parent' requested s → phase s ≠ Zombie) ∧
       ((e = StillRunning ∧ (saw = true ∨ ∃ s, s ∈ l ∧ is_child parent' requested s)) ∨
        (e = NoChild ∧ saw = false ∧ ∀ s, s ∈ l → ¬ is_child parent' requested s))) k.
Proof.
  revert saw. induction l as [|s l IH]; intros saw; simpl.
  { assert (∀ s : ProcessSlot.t, s ∉ []) by (intros; apply not_elem_of_nil).
    destruct saw; wp_simpl; (split; [done|]); (split; [naive_solver|]); naive_solver. }
  assert (Hskip : ∀ saw', (saw' = true → saw = true ∨ is_child parent' requested s) →
    (saw' = false → saw = false ∧ ¬ is_child parent' requested s) →
    (is_child parent' requested s → phase s ≠ Zombie) →
    wp (wait_scan parent' requested saw' l)
      (λ r k', k' = k ∧ ∃ s', s' ∈ s :: l ∧ is_child parent' requested s' ∧ phase s' = Zombie ∧ r = snapshot s')
      (λ e k', k' = k ∧ (∀ s', s' ∈ s :: l → is_child parent' requested s' → phase s' ≠ Zombie) ∧
         ((e = StillRunning ∧ (saw = true ∨ ∃ s', s' ∈ s :: l ∧ is_child parent' requested s')) ∨
          (e = NoChild ∧ saw = false ∧ ∀ s', s' ∈ s :: l → ¬ is_child parent' requested s'))) k).
  { intros saw' Ht Hf Hz. eapply wp_mono; [apply IH| |]; clear IH; setoid_rewrite elem_of_cons.
    - naive_solver.
    - intros e k' (-> & Hno & He). split; [done|]. split; [naive_solver|].
      destruct He as [(-> & [Hs|(s' & ? & ?)])|(-> & Hs & Hn)].
      + left. split; [done|]. destruct (Ht Hs); [by left|]. right. exists s. auto.
      + left. split; [done|]. right. exists s'. auto.
      + right. destruct (Hf Hs). split; [done|]. split; [done|]. naive_solver. }
  destruct (_ || _) eqn:Hskip1.
  { assert (¬ is_child parent' requested s); [|apply Hskip; tauto].
    intros (? & ? & _). apply orb_true_iff in Hskip1 as [Hb|Hb]; bool_to_prop; congruence. }
  bool_to_prop. destruct (match requested with Some p => negb (pid s =? p) | None => false end) eqn:Hreq.
  { assert (¬ is_child parent' requested s); [|apply Hskip; tauto].
    intros (_ & _ & Hp). destruct requested as [p|]; [|done]. bool_to_prop. by specialize (Hp p eq_refl). }
  assert (Hch : is_child parent' requested s).
  { split; [done|]. split; [done|]. intros p ->. bool_to_prop. done. }
  case_bool_decide as Hz; [|apply Hskip; [by right|done|done]].
  wp_simpl. split; [done|]. exists s. split; [left|done].
Qed.

(** *** The return path *)

Lemma authority_valid k i s :
  kernel_ok k → on_cpu k i s →
  AuthorizedUserReturn.validate (ScheduledProcess.authorized_return (scheduled_of s (epoch_of k))) = Ok ().
Proof.
  intros Hok Hc. destruct (on_cpu_slot _ _ _ Hok Hc) as (Hs & Ho & _).
  destruct (current_on_cpu _ _ _ Hok Hc) as (_ & _ & _ & He).
  pose proof (so_pid _ Hs Ho). pose proof (so_generation _ Hs).
  unfold AuthorizedUserReturn.validate. simpl.
  destruct (Z.eqb_spec (pid s) 0), (Z.eqb_spec (generation s) 0), (Z.eqb_spec (epoch_of k) 0);
    try lia. simpl. apply dispatch_valid; [done..|]. by apply so_context.
Qed.

Lemma authorize_user_return_wp k a :
  kernel_ok k →
  wp (authorize_user_return a)
    (λ p k', k' = k ∧ ∃ i s, on_cpu k i s ∧ p = scheduled_of s (epoch_of k) ∧
       a = ScheduledProcess.authorized_return p)
    (λ e k', k' = k ∧ (∀ i s, on_cpu k i s →
         a ≠ ScheduledProcess.authorized_return (scheduled_of s (epoch_of k))) ∧
       (AuthorizedUserReturn.validate a = Ok () → e = StaleDispatchAuthority)) k.
Proof.
  intros Hok. unfold authorize_user_return. rewrite wp_bind, wp_require.
  destruct (AuthorizedUserReturn.validate a) as [[]|e] eqn:Hv.
  2:{ split; [done|]. split; [|done]. intros i s Hc ->. by rewrite (authority_valid k i s) in Hv. }
  wp_simpl. destruct (_ || _) eqn:Hstale; wp_simpl.
  { split; [done|]. split; [|done]. intros i s Hc ->. simpl in Hstale.
    destruct (current_on_cpu _ _ _ Hok Hc) as (_ & Hd & _). unfold current_handle in Hstale.
    rewrite Hd, Z.eqb_refl, bool_decide_eq_true_2 in Hstale; done. }
  clear Hstale.
  destruct (position _ _) as [i|] eqn:Hpos; wp_simpl.
  2:{ split; [done|]. split; [|done]. intros i s Hc ->. simpl in Hpos.
      destruct (on_cpu_slot _ _ _ Hok Hc) as (_ & Ho & _). destruct Hc as [Hi _].
      fold (handle_of s) in Hpos. rewrite (position_handle k i s) in Hpos; done. }
  apply position_handle_Some in Hpos as (s & Hi & Ho & Hh). rewrite (wp_slot_at k i s) by done.
  assert (Hsame : ∀ j q, on_cpu k j q →
    a = ScheduledProcess.authorized_return (scheduled_of q (epoch_of k)) → q = s).
  { intros j q Hc ->. destruct (on_cpu_slot _ _ _ Hok Hc) as (_ & Hoq & _). destruct Hc as [Hj _].
    injection Hh as Hp _. assert (i = j) by (by eapply (to_pids _ (ko_table _ Hok))). congruence. }
  case_bool_decide as Hp; cbn [negb]; wp_simpl.
  2:{ split; [done|]. split; [|done]. intros j q Hc Ha. pose proof (Hsame j q Hc Ha) as ->.
      by destruct (on_cpu_slot _ _ _ Hok Hc) as (_ & _ & ? & _). }
  rewrite (wp_scheduled k i s) by done. fold (scheduled_of s (epoch_of k)).
  case_bool_decide as Ha; cbn [negb]; wp_simpl.
  - split; [done|]. exists i, s. split; [split; [done|by apply in_phase_spec]|done].
  - split; [done|]. split; [|done]. intros j q Hc Haq. pose proof (Hsame j q Hc Haq) as ->. by symmetry in Haq.
Qed.

(** The decision just published for the running process is accepted. *)
Lemma fresh_authority k p i s :
  kernel_ok k → on_cpu k i s → p = scheduled_of s (epoch_of k) →
  authorize_user_return (ScheduledProcess.authorized_return p) k = Done p k.
Proof.
  intros Hok Hc ->.
  pose proof (authorize_user_return_wp k (ScheduledProcess.authorized_return
    (scheduled_of s (epoch_of k))) Hok) as H. unfold wp in H.
  destruct (authorize_user_return _ k) as [p k'|e k'|]; [| |done].
  - destruct H as (-> & j & q & Hq & -> & Heq). f_equal.
    destruct Hc as [Hi Hr], Hq as [Hj Hrq]. assert (i = j) by (by eapply running_unique). congruence.
  - destruct H as (_ & Hno & _). by apply Hno in Hc.
Qed.

Lemma dispatched_on_cpu k l t st e :
  l !! t = Some st → occupied st = true → on_cpu (dispatched k l t st e) t (with_phase Running st).
Proof.
  intros Ht Ho. split; [apply list_lookup_insert_eq; by eapply lookup_lt_Some|]. by apply in_phase_spec.
Qed.

End SchedulingFacts.

(** ** Runs of the kernel *)

Module SchedulingRuns.
Import ProcessSlot Lifecycle LifecycleFacts SchedulingFacts.

Inductive call :=
| PublishCurrent (h : ProcessHandle.t)
| RegisterInit (launch : ProcessLaunch.t)
| CommitChild (parent : Z) (launch : ProcessLaunch.t)
| MarkRunning (h : ProcessHandle.t)
| ResumeCurrent (saved : SavedUserContext.t)
| AuthorizeUserReturn (a : AuthorizedUserReturn.t)
| ScheduleYield (saved : SavedUserContext.t)
| SchedulePreempt (saved : SavedUserContext.t) (a : ExecutionAuthority.t)
| ScheduleExit (code : Z)
| ScheduleFromPid0 (a : Pid0Authority)
| MarkRunnable (h : ProcessHandle.t)
| MarkBlocked (h : ProcessHandle.t)
| WaitChild (parent : Z) (requested : option Z)
| ReapChild (parent : Z) (h : ProcessHandle.t).

Definition run (c : call) : op unit :=
  match c with
  | PublishCurrent h => publish_current h
  | RegisterInit launch => _ ← register_init launch; mret ()
  | CommitChild parent launch => _ ← commit_child parent launch; mret ()
  | MarkRunning h => _ ← mark_running h; mret ()
  | ResumeCurrent saved => _ ← resume_current saved; mret ()
  | AuthorizeUserReturn a => _ ← authorize_user_return a; mret ()
  | ScheduleYield saved => _ ← schedule_yield saved; mret ()
  | SchedulePreempt saved a => _ ← schedule_preempt saved a; mret ()
  | ScheduleExit code => _ ← schedule_exit code; mret ()
  | ScheduleFromPid0 a => _ ← schedule_from_pid0 a; mret ()
  | MarkRunnable h => mark_runnable h
  | MarkBlocked h => mark_blocked h
  | WaitChild parent requested => _ ← wait_child parent requested; mret ()
  | ReapChild parent h => _ ← reap_child parent h; mret ()
  end.

(** The calls that issue a new scheduling decision. *)
Definition decides (c : call) : bool :=
  match c with
  | MarkRunning _ | ResumeCurrent _ | ScheduleYield _ | SchedulePreempt _ _ | ScheduleExit _
  | ScheduleFromPid0 _ => true
  | _ => false
  end.

Inductive step (k k' : kernel) : Prop :=
| step_done c : run c k = Done () k' → step k k'
| step_fail c e : run c k = Fail e k' → step k k'.

(** The three ways a call can move the kernel: not at all, apart from the pid
    cursor; by changing one slot to something that does not run; or by a new
    decision, which needs a caller on the processor or the idle scheduler. *)
Definition kept (k k' : kernel) : Prop :=
  slots_of k' = slots_of k ∧ CURRENT_EXECUTION k' = CURRENT_EXECUTION k ∧ epoch_of k' = epoch_of k.

Inductive effect (k k' : kernel) : bool → Prop :=
| effect_kept : kept k k' → effect k k' false
| effect_edit i s' :
    slots_of k' = <[i := s']> (slots_of k) → in_phase Running s' = false →
    CURRENT_EXECUTION k' = CURRENT_EXECUTION k → epoch_of k' = epoch_of k → effect k k' false
| effect_decision :
    (∃ i s, on_cpu k i s) ∨ CURRENT_EXECUTION k = PID0_IDENTITY →
    epoch_of k' = epoch_of k + 1 → effect k k' true.

Lemma switched_effect k i s saved t st p k' :
  kernel_ok k → switched k i s saved t st p k' → kernel_ok k' ∧ effect k k' true.
Proof.
  intros Hok Hsw. split; [by eapply switched_ok|]. destruct Hsw. subst.
  apply effect_decision; [left; by exists i, s|done].
Qed.

Lemma decided_effect k l target d k' :
  kernel_ok k → table_ok l → quiet l → (∃ i s, on_cpu k i s) ∨ CURRENT_EXECUTION k = PID0_IDENTITY →
  decided k l target d k' → kernel_ok k' ∧ effect k k' true.
Proof.
  intros Hok Hl Hq Hby Hd. split; [by eapply (decided_ok k l)|]. apply effect_decision; [done|].
  destruct Hd as [_ Hd].
  destruct target as [t|]; [destruct Hd as (st & _ & _ & _ & ->)|destruct Hd as [_ ->]]; done.
Qed.

Lemma rephased_effect k i s p :
  kernel_ok k → slots_of k !! i = Some s → occupied s = true → p = Runnable ∨ p = Blocked →
  kernel_ok (rephased k i s p) ∧ effect k (rephased k i s p) false.
Proof.
  intros Hok Hi Ho Hp. split; [by apply rephased_ok|].
  apply (effect_edit _ _ i (with_phase p s)); [done| |done|done].
  apply not_true_iff_false. rewrite in_phase_spec. intros [_ Heq]. simpl in Heq. subst. by destruct Hp.
Qed.

Lemma kernel_run_ok c k :
  kernel_ok k →
  wp (run c) (λ _ k', kernel_ok k' ∧ effect k k' (decides c))
    (λ _ k', kernel_ok k' ∧ kept k k') k.
Proof.
  intros Hok.
  assert (Hfail : ∀ k', k' = k → kernel_ok k' ∧ kept k k') by (by intros k' ->).
  assert (Hread : ∀ k', k' = k → kernel_ok k' ∧ effect k k' false)
    by (by intros k' ->; split; [|apply effect_kept]).
  destruct c; simpl; wp_simpl.
  - eapply wp_mono; [by apply publish_current_wp|by intros []; auto|by auto].
  - eapply wp_mono; [by apply register_init_wp| |by auto].
    intros ? k' (Hl & Hf & i & s & Hi & Hv & _ & ->). wp_simpl. split; [|by eapply effect_edit].
    eapply enrolled_kernel_ok; [done|done|done|done| |done].
    by apply (to_slot _ (ko_table _ Hok) i s).
  - eapply wp_mono; [by apply commit_child_wp| |].
    + intros ? k' (Hl & _ & i & s & p & m & Hi & Hv & [Hp Hf] & Hm & _ & ->). wp_simpl.
      split; [|by eapply effect_edit].
      pose proof (so_generation _ (to_slot _ (ko_table _ Hok) i s Hi)).
      apply is_vacant_spec in Hv as [_ Hg]. unfold MAX in Hg.
      apply (enrolled_kernel_ok (with_next_pid m k)); [by apply with_next_pid_ok|done|done|lia|lia|done].
    + intros e k' (m & Hm & -> & _). split; [by apply with_next_pid_ok|done].
  - eapply wp_mono; [by apply mark_running_wp| |by auto].
    intros ? k' (Hq & Hcur & t & st & Hst & [Ho _]%in_phase_spec & _ & _ & He & ->). wp_simpl.
    split; [|apply effect_decision; [by right|done]].
    pose proof (ko_epoch _ Hok). unfold in_width in *.
    apply dispatched_ok; try done; [by apply Hok|lia].
  - eapply wp_mono; [by apply resume_current_wp| |by intros ? ? [? _]; auto].
    intros ? k' (i & s & Hsw). wp_simpl. by eapply switched_effect.
  - eapply wp_mono; [by apply authorize_user_return_wp| |by intros ? ? [? _]; auto].
    intros ? k' [? _]. wp_simpl. auto.
  - eapply wp_mono; [by apply schedule_yield_wp| |by intros ? ? [? _]; auto].
    intros ? k' (i & s & t & st & _ & Hsw). wp_simpl. by eapply switched_effect.
  - eapply wp_mono; [by apply schedule_preempt_wp| |by intros ? ? [? _]; auto].
    intros ? k' (i & s & t & st & _ & Hsw & _). wp_simpl. by eapply switched_effect.
  - eapply wp_mono; [by apply schedule_exit_wp| |by intros ? ? [? _]; auto].
    intros ? k' (i & s & Hc & Hd). wp_simpl. destruct (exited_ok k i s code Hok Hc).
    eapply decided_effect; [done|done|done|left; by exists i, s|done].
  - eapply wp_mono; [by apply schedule_from_pid0_wp| |by intros ? ? [? _]; auto].
    intros ? k' (Hcur & Hq & _ & Hd). wp_simpl.
    eapply decided_effect; [done|by apply Hok|done|by right|done].
  - eapply wp_mono; [by apply mark_runnable_wp| |by auto].
    intros [] k' (i & s & Hi & Ho & _ & _ & ->). apply rephased_effect; auto.
  - eapply wp_mono; [by apply mark_blocked_wp| |by auto].
    intros [] k' (i & s & [Hi [Ho _]%in_phase_spec] & _ & ->). apply rephased_effect; auto.
  - unfold wait_child. wp_simpl. eapply wp_mono; [apply wait_scan_ok| |by intros ? ? [? _]; auto].
    intros ? k' [? _]. wp_simpl. auto.
  - eapply wp_mono; [by apply reap_child_wp| |by auto].
    intros ? k' (i & s & Hi & _ & _ & _ & _ & ->). wp_simpl.
    split; [by apply retired_kernel_ok|by eapply effect_edit].
Qed.

Lemma effect_epoch k k' b : effect k k' b → epoch_of k' = if b then epoch_of k + 1 else epoch_of k.
Proof. by intros [[_ [_ ?]]| |]. Qed.

End SchedulingRuns.
