(* ===== verification/SchedulerProperties.v ===== *)
(** * Theorems about the process lifecycle

    The claims about [process/lifecycle.rs], for every state the kernel reaches
    from boot by any sequence of calls. *)
From S2P Require Import Prelude Context Lifecycle Scheduling.

Module SchedulerProperties.
Import ProcessSlot Lifecycle LifecycleFacts SchedulingFacts SchedulingRuns.

Definition reachable (k : kernel) : Prop := rtc step boot k.

Lemma boot_ok : kernel_ok boot.
Proof.
  assert (Hempty : ∀ i s, slots_of boot !! i = Some s → s = EMPTY)
    by (by intros i s [-> _]%lookup_replicate).
  split; [split| | | |]; try done.
  - intros i s ->%Hempty. by split.
  - intros i j p q ->%Hempty ->%Hempty Ho. done.
  - intros i s ->%Hempty. done.
Qed.

Lemma kernel_step_ok k k' : step k k' → kernel_ok k → kernel_ok k' ∧ epoch_of k <= epoch_of k'.
Proof.
  intros [c Hr|c e Hr] Hok.
  - apply (wp_Done _ _ _ _ _ _ (kernel_run_ok c k Hok)) in Hr as [Hok' He%effect_epoch]. split; [done|].
    rewrite He. destruct (decides c); lia.
  - apply (wp_Fail _ _ _ _ _ _ (kernel_run_ok c k Hok)) in Hr as (Hok' & _ & _ & ->). split; [done|lia].
Qed.

Lemma steps_ok k k' : rtc step k k' → kernel_ok k → kernel_ok k' ∧ epoch_of k <= epoch_of k'.
Proof.
  induction 1 as [k|k1 k2 k3 Hs _ IH]; intros Hok; [split; [done|lia]|].
  apply kernel_step_ok in Hs as [Hok2 ?]; [|done]. destruct (IH Hok2). split; [done|lia].
Qed.

Lemma kernel_reachable_ok k : reachable k → kernel_ok k.
Proof. intros Hr. apply (steps_ok _ _ Hr boot_ok). Qed.

(** ** The claims *)

(** C21: in every reachable state at most one process runs, and it is the one
    the current identity names; live processes have distinct pids and can all be
    dispatched; the epoch mirror read by the timer interrupt is the table's
    epoch; and no call panics. *)
Theorem sole_running_process k :
  reachable k →
  (∀ i j p q, slots_of k !! i = Some p → slots_of k !! j = Some q →
     in_phase Running p = true → in_phase Running q = true → i = j) ∧
  (∀ i s, slots_of k !! i = Some s → in_phase Running s = true →
     current_handle k = Some (handle_of s)) ∧
  (∀ i j p q, slots_of k !! i = Some p → slots_of k !! j = Some q →
     occupied p = true → occupied q = true → pid p = pid q → i = j) ∧
  (∀ i s e, slots_of k !! i = Some s → occupied s = true →
     DispatchContext.validate (ScheduledProcess.context (scheduled_of s e)) = Ok ()) ∧
  CURRENT_SCHEDULER_EPOCH k = epoch_of k ∧
  (∀ c, run c k ≠ Panic).
Proof.
  intros Hok%kernel_reachable_ok. split; [|split; [|split; [|split; [|split]]]].
  - intros. by eapply running_unique.
  - intros i s Hi Hr. by destruct (current_on_cpu k i s Hok ltac:(by split)) as (_ & ? & _).
  - apply Hok.
  - intros i s e Hi Ho. pose proof (to_slot _ (ko_table _ Hok) i s Hi) as Hs.
    apply dispatch_valid; [done|done|]. by apply so_context.
  - apply Hok.
  - intros c. eapply wp_no_panic. by apply kernel_run_ok.
Qed.

(** C33: the return path accepts an authority exactly when it is, field by
    field, the decision of the current epoch for the running process, and it
    never changes the table. *)
Theorem authorize_exact k a :
  reachable k →
  match authorize_user_return a k with
  | Done p k' => k' = k ∧ ∃ i s, on_cpu k i s ∧ p = scheduled_of s (epoch_of k) ∧
      a = ScheduledProcess.authorized_return p
  | Fail _ k' => k' = k ∧ ∀ i s, on_cpu k i s →
      a ≠ ScheduledProcess.authorized_return (scheduled_of s (epoch_of k))
  | Panic => False
  end.
Proof.
  intros Hok%kernel_reachable_ok. pose proof (authorize_user_return_wp k a Hok) as H. unfold wp in H.
  destruct (authorize_user_return a k) as [p k'|e k'|]; [done| |done].
  destruct H as (? & ? & _). done.
Qed.

(** C32: once any further scheduling decision has been made, an authority that
    was good before is refused in every later state. *)
Theorem superseded_authority_refused k a p c k1 k2 :
  reachable k → authorize_user_return a k = Done p k → decides c = true → run c k = Done () k1 →
  rtc step k1 k2 → authorize_user_return a k2 = Fail StaleDispatchAuthority k2.
Proof.
  intros Hok%kernel_reachable_ok Ha Hc Hr Hs.
  apply (wp_Done _ _ _ _ _ _ (authorize_user_return_wp k a Hok)) in Ha as (_ & i & s & Hcpu & -> & ->).
  apply (wp_Done _ _ _ _ _ _ (kernel_run_ok c k Hok)) in Hr as [Hok1 He%effect_epoch].
  rewrite Hc in He.
  apply steps_ok in Hs as [Hok2 He2]; [|done].
  pose proof (authorize_user_return_wp k2 (ScheduledProcess.authorized_return
    (scheduled_of s (epoch_of k))) Hok2) as H. unfold wp in H.
  destruct (authorize_user_return _ k2) as [p k'|e k'|]; [| |done].
  - destruct H as (_ & j & q & _ & -> & Heq). injection Heq as _ _ _ _ _ ?. lia.
  - destruct H as (-> & _ & He'). f_equal. apply He'. by eapply authority_valid.
Qed.

(** [schedule_yield] suspends the caller with a zero result and dispatches
    the next runnable process in round-robin order, which is the caller itself
    when it is alone; the authority it returns is accepted at once.  It fails
    only for a bad context, when no process runs, or when the epoch is spent, and
    then changes nothing. *)
Theorem yield_round_robin k saved :
  reachable k →
  match schedule_yield saved k with
  | Done p k' => ∃ i s t st, on_cpu k i s ∧
      let l := suspend k i (SavedUserContext.set_syscall_result 0 saved) s in
      next_runnable_index i l = Some t ∧ l !! t = Some st ∧
      p = scheduled_of st (epoch_of k + 1) ∧
      k' = dispatched k l t st (epoch_of k + 1) ∧
      authorize_user_return (ScheduledProcess.authorized_return p) k' = Done p k'
  | Fail e k' => k' = k ∧ ((e = InvalidContext ∧ SavedUserContext.validate saved ≠ Ok ()) ∨
      quiet (slots_of k) ∨ (e = EpochExhausted ∧ exhausted k))
  | Panic => False
  end.
Proof.
  intros Hok%kernel_reachable_ok. pose proof (schedule_yield_wp k saved Hok) as H. unfold wp in H.
  destruct (schedule_yield saved k) as [p k'|e k'|]; [|done|done].
  destruct H as (i & s & t & st & Hn & Hsw). pose proof (switched_ok _ _ _ _ _ _ _ _ Hok Hsw) as Hok'.
  destruct Hsw as [Hc _ _ Ht [Ho _]%in_phase_spec -> ->]. exists i, s, t, st. do 5 (split; [done|]).
  by apply (fresh_authority _ _ t (with_phase Running st)); [|apply dispatched_on_cpu|].
Qed.

(** [schedule_preempt] acts only on an authority that names the running
    process at the current epoch; it then hands over in the same order as a
    yield but keeps the caller's registers, result included, as they were.  A
    stale request, a bad context or a spent epoch changes nothing. *)
Theorem preempt_exact k saved a :
  reachable k →
  match schedule_preempt saved a k with
  | Done p k' => ∃ i s t st, on_cpu k i s ∧ a = ExecutionAuthority.mk (handle_of s) (epoch_of k) ∧
      next_runnable_index i (suspend k i saved s) = Some t ∧ suspend k i saved s !! t = Some st ∧
      p = scheduled_of st (epoch_of k + 1) ∧
      k' = dispatched k (suspend k i saved s) t st (epoch_of k + 1)
  | Fail e k' => k' = k ∧ ((e = InvalidContext ∧ SavedUserContext.validate saved ≠ Ok ()) ∨
      (e = StalePreemptionAuthority ∧
         ∀ i s, on_cpu k i s → ExecutionAuthority.mk (handle_of s) (epoch_of k) ≠ a) ∨
      (e = EpochExhausted ∧ exhausted k))
  | Panic => False
  end.
Proof.
  intros Hok%kernel_reachable_ok. pose proof (schedule_preempt_wp k saved a Hok) as H. unfold wp in H.
  destruct (schedule_preempt saved a k) as [p k'|e k'|]; [|done|done].
  destruct H as (i & s & t & st & Hn & [Hc _ _ Ht _ -> ->] & Hh & He). exists i, s, t, st.
  split; [done|]. split; [|done]. destruct a. simpl in *. congruence.
Qed.

(** *** No starvation *)

Lemma ring_add n i d e : (i < n)%nat → ring n (ring n i d) e = ring n i (d + e).
Proof. intros. unfold ring. rewrite Nat.Div0.add_mod_idemp_l. f_equal. lia. Qed.

(** The yields of whatever runs, one after the other. *)
Fixpoint yield_all (saved : list SavedUserContext.t) : op unit :=
  match saved with
  | [] => mret ()
  | c :: rest => _ ← schedule_yield c; yield_all rest
  end.

(** A successful yield seen from a runnable process [d] places away: it runs
    now, or it is still runnable and strictly closer to its turn. *)
Lemma yield_approaches k i si c j s d :
  kernel_ok k → on_cpu k i si → SavedUserContext.validate c = Ok () → epoch_of k + 1 < 2 ^ 64 →
  slots_of k !! j = Some s → in_phase Runnable s = true →
  (1 <= d <= MAXIMUM_PROCESSES)%nat → ring MAXIMUM_PROCESSES i d = j →
  ∃ p k', schedule_yield c k = Done p k' ∧ kernel_ok k' ∧ epoch_of k' = epoch_of k + 1 ∧
    (on_cpu k' j (with_phase Running s) ∨
     ∃ t st d', on_cpu k' t st ∧ slots_of k' !! j = Some s ∧ (1 <= d' < d)%nat ∧
       ring MAXIMUM_PROCESSES t d' = j).
Proof.
  intros Hok Hc Hv He Hj Hr Hd Hring. pose proof (to_length _ (ko_table _ Hok)) as Hlen.
  destruct (on_cpu_slot _ _ _ Hok Hc) as (_ & _ & Hp & Hnr & Hi). rewrite Hlen in Hi.
  pose proof (schedule_yield_wp k c Hok) as H. unfold wp in H.
  destruct (schedule_yield c k) as [p k'|e k'|]; [| |done].
  2:{ exfalso. destruct H as (_ & [[_ []]|[Hq|[_ Hx]]]); [done| |unfold exhausted, MAX in Hx; lia].
      destruct Hc as [Hi' Hrun]. apply Hq in Hi'. congruence. }
  destruct H as (i' & s' & t & st & Hn & Hsw). exists p, k'. split; [done|].
  pose proof (switched_ok _ _ _ _ _ _ _ _ Hok Hsw) as Hok'. split; [done|].
  destruct Hsw as [Hc' _ _ Ht [Ho _]%in_phase_spec _ ->]. split; [done|].
  destruct (on_cpu_unique _ _ _ _ _ Hok Hc' Hc) as [-> ->].
  assert (Hji : i ≠ j) by (intros ->; destruct Hc; congruence).
  set (l := suspend k i _ si) in *.
  assert (Hlj : l !! j = Some s) by (unfold l, suspend; by rewrite list_lookup_insert_ne).
  apply next_runnable_Some in Hn as (dt & Hdt & Htring & _ & Hmin).
  assert (Hll : length l = MAXIMUM_PROCESSES) by (unfold l, suspend; by rewrite length_insert).
  rewrite Hll in Hdt, Htring, Hmin.
  assert (Hle : (dt <= d)%nat).
  { destruct (decide (dt <= d)%nat); [done|]. exfalso.
    specialize (Hmin d ltac:(lia)). rewrite Hring in Hmin. unfold runnable_at in Hmin.
    rewrite Hlj in Hmin. congruence. }
  destruct (decide (t = j)) as [->|Htj].
  - left. rewrite Hlj in Ht. injection Ht as <-. by apply dispatched_on_cpu.
  - right. exists t, (with_phase Running st), (d - dt)%nat.
    split; [by apply dispatched_on_cpu|]. split.
    { change (<[t := with_phase Running st]> l !! j = Some s). by rewrite list_lookup_insert_ne. }
    assert (dt ≠ d) by congruence. split; [lia|].
    rewrite Htring, ring_add by done. rewrite <- Hring. f_equal. lia.
Qed.

Lemma yields_reach d contexts k i si j s :
  kernel_ok k → on_cpu k i si → slots_of k !! j = Some s → in_phase Runnable s = true →
  (1 <= d <= MAXIMUM_PROCESSES)%nat → ring MAXIMUM_PROCESSES i d = j →
  Forall (λ c, SavedUserContext.validate c = Ok ()) contexts → (d <= length contexts)%nat →
  epoch_of k + Z.of_nat d < 2 ^ 64 →
  ∃ n k', (1 <= n <= d)%nat ∧ yield_all (take n contexts) k = Done () k' ∧
    on_cpu k' j (with_phase Running s).
Proof.
  revert k i si contexts. induction d as [d IH] using lt_wf_ind.
  intros k i si contexts Hok Hc Hj Hr Hd Hring Hall Hlen He.
  destruct contexts as [|c rest]; simpl in Hlen; [lia|]. apply Forall_cons in Hall as [Hv Hall].
  destruct (yield_approaches k i si c j s d) as (p & k1 & Hy & Hok1 & He1 & Hcase);
    [done|done|done|lia|done|done|lia|done|].
  destruct Hcase as [Hon|(t & st & d' & Hon & Hj1 & Hd' & Hring')].
  - exists 1%nat, k1. split; [lia|]. split; [|done]. simpl.
    unfold mbind, M_bind. by rewrite Hy.
  - destruct (IH d' ltac:(lia) k1 t st rest) as (n & k2 & Hn & Hys & Hend);
      [done|done|done|done|lia|done|done|lia|lia|].
    exists (S n), k2. split; [lia|]. split; [|done]. simpl. unfold mbind, M_bind. by rewrite Hy.
Qed.

(** C36: round robin starves nobody: while processes only yield, a runnable
    process is dispatched after at most as many yields as the table has slots,
    whatever contexts the callers save. *)
Theorem yield_no_starvation k i si j s contexts :
  reachable k → on_cpu k i si → slots_of k !! j = Some s → in_phase Runnable s = true →
  Forall (λ c, SavedUserContext.validate c = Ok ()) contexts →
  length contexts = MAXIMUM_PROCESSES → epoch_of k + Z.of_nat MAXIMUM_PROCESSES < 2 ^ 64 →
  ∃ n k', (1 <= n <= MAXIMUM_PROCESSES)%nat ∧ yield_all (take n contexts) k = Done () k' ∧
    on_cpu k' j (with_phase Running s).
Proof.
  intros Hok%kernel_reachable_ok Hc Hj Hr Hall Hlen He. pose proof (to_length _ (ko_table _ Hok)) as Hl.
  destruct (on_cpu_slot _ _ _ Hok Hc) as (_ & _ & _ & Hnr & Hi). rewrite Hl in Hi.
  pose proof (lookup_lt_Some _ _ _ Hj) as Hjl. rewrite Hl in Hjl.
  assert (i ≠ j) by (intros ->; destruct Hc; congruence).
  set (d := if decide (i < j)%nat then (j - i)%nat else (MAXIMUM_PROCESSES + j - i)%nat).
  assert (Hd : (1 <= d <= MAXIMUM_PROCESSES)%nat) by (unfold d; case_decide; lia).
  destruct (yields_reach d contexts k i si j s) as (n & k' & Hn & ? & ?); try done; try lia.
  - rewrite ring_eq by lia. unfold d. repeat case_decide; lia.
  - exists n, k'. split; [lia|done].
Qed.

(** *** Exit and admission *)

Lemma exited_slot k i s code d k' :
  kernel_ok k → on_cpu k i s →
  decided k (exited k i s code) (next_runnable_index i (slots_of k)) d k' →
  kernel_ok k' ∧ slots_of k' !! i = Some (with_exit code (epoch_of k + 1) s).
Proof.
  intros Hok Hc Hd. destruct (exited_ok k i s code Hok Hc) as [Hl Hq].
  destruct (on_cpu_slot _ _ _ Hok Hc) as (_ & _ & _ & Hnr & Hi).
  assert (He : exited k i s code !! i = Some (with_exit code (epoch_of k + 1) s))
    by (by apply list_lookup_insert_eq).
  split; [by eapply (decided_ok k)|]. destruct Hd as [_ Hd], (next_runnable_index _ _) as [t|].
  - destruct Hd as (st & Ht & Hr & _ & ->).
    change (<[t := with_phase Running st]> (exited k i s code) !! i = Some (with_exit code (epoch_of k + 1) s)).
    rewrite list_lookup_insert_ne; [done|]. intros ->. rewrite He in Ht. injection Ht as <-.
    by apply in_phase_spec in Hr as [_ ?].
  - by destruct Hd as [_ ->].
Qed.

(** an exit code reaches the parent: after [schedule_exit] the process is a
    zombie, [wait_child] reports it with that code, [reap_child] returns the
    code and frees the slot, and from then on the handle is invalid. *)
Theorem exit_wait_reap k code d k' :
  reachable k → schedule_exit code k = Done d k' →
  ∃ i s, on_cpu k i s ∧
    wait_child (parent s) (Some (pid s)) k' =
      Done (mkSnapshot (handle_of s) (parent s) Zombie (launch s) code (epoch_of k + 1)) k' ∧
    ∃ k'', reap_child (parent s) (handle_of s) k' = Done code k'' ∧
      slot_by_handle (handle_of s) k'' = None ∧
      reap_child (parent s) (handle_of s) k'' = Fail InvalidHandle k''.
Proof.
  intros Hok%kernel_reachable_ok Hx.
  apply (wp_Done _ _ _ _ _ _ (schedule_exit_wp k code Hok)) in Hx as (i & s & Hc & Hd).
  exists i, s. split; [done|]. destruct (exited_slot _ _ _ _ _ _ Hok Hc Hd) as [Hok' Hi].
  destruct (on_cpu_slot _ _ _ Hok Hc) as (Hs & Ho & _). pose proof (so_pid _ Hs Ho) as Hpid.
  set (z := with_exit code (epoch_of k + 1) s) in *.
  assert (Hz : in_phase Zombie z = true) by (by apply in_phase_spec).
  assert (Hzc : is_child (parent s) (Some (pid s)) z) by (split; [done|]; split; [done|]; by intros p [= <-]).
  split.
  - pose proof (wait_scan_ok (parent s) (Some (pid s)) false (slots_of k') k') as H. unfold wp in H.
    unfold wait_child, get, mbind, M_bind. destruct (wait_scan _ _ _ _ k') as [r k1|e k1|]; [| |done].
    + destruct H as (-> & q & [j Hj]%list_elem_of_lookup & (Hoq & _ & Hpq) & _ & ->).
      assert (j = i) as ->.
      { eapply (to_pids _ (ko_table _ Hok')); [exact Hj|exact Hi|done|done|]. by apply Hpq. }
      rewrite Hi in Hj. injection Hj as <-. done.
    + destruct H as (_ & Hno & _). exfalso. apply (Hno z); [by eapply list_elem_of_lookup_2|done|done].
  - pose proof (reap_zombie k' i z Hok' Hi Hz) as Hreap. eexists. split; [exact Hreap|].
    set (k'' := with_slots _ k').
    assert (Hgone : ∀ j q, slots_of k'' !! j = Some q → is_handle (handle_of s) q = false).
    { intros j q [[-> [<- _]]|[Hne Hq]]%list_lookup_insert_Some; [done|].
      apply not_true_iff_false. intros [Hoq Hh]%is_handle_spec. apply Hne.
      eapply (to_pids _ (ko_table _ Hok')); [exact Hi|exact Hq|done|done|]. by injection Hh. }
    split.
    + unfold slot_by_handle. destruct (find _ _) as [q|] eqn:Hf; [|done].
      apply find_handle_Some in Hf as (j & Hj & Hoq & Hh). apply Hgone in Hj.
      apply not_true_iff_false in Hj. exfalso. apply Hj. by apply is_handle_spec.
    + apply wp_exact_fail. unfold reap_child, slot_by_handle_mut, NO_PID. simpl.
      destruct (Z.eqb_spec (pid s) 0); [lia|]. wp_simpl.
      destruct (position _ _) as [j|] eqn:Hp; [|by wp_simpl].
      apply position_Some in Hp as [(q & Hq & Hh) _]. apply Hgone in Hq. congruence.
Qed.

(** [commit_child] installs the child, runnable and with its initial
    context, in a vacant slot under a pid no live process has; nothing else in
    the table moves.  A refusal leaves the table as it was, and is for lack of
    capacity only when no slot is vacant. *)
Theorem commit_child_correct k parent' launch' :
  reachable k →
  match commit_child parent' launch' k with
  | Done h k' => ProcessLaunch.validate launch' = true ∧ alive k parent' ∧ fresh_pid k (ProcessHandle.pid h) ∧
      ∃ i s, slots_of k !! i = Some s ∧ is_vacant s = true ∧
        ProcessHandle.generation h = generation s + 1 ∧
        slots_of k' = <[i := mk true (generation s + 1) (ProcessHandle.pid h) parent' Runnable launch'
          (SavedUserContext.initial (ProcessLaunch.entry_point launch')
             (ProcessLaunch.user_stack_pointer launch')) 0 (epoch_of k)]> (slots_of k)
  | Fail e k' => slots_of k' = slots_of k ∧ CURRENT_EXECUTION k' = CURRENT_EXECUTION k ∧
      epoch_of k' = epoch_of k ∧
      (e = Capacity → ∀ s, s ∈ slots_of k → is_vacant s = false)
  | Panic => False
  end.
Proof.
  intros Hok%kernel_reachable_ok. pose proof (commit_child_wp k parent' launch' Hok) as H. unfold wp in H.
  destruct (commit_child parent' launch' k) as [h k'|e k'|]; [| |done].
  - destruct H as (Hl & Ha & i & s & p & m & Hi & Hv & Hf & _ & -> & ->).
    do 3 (split; [done|]). by exists i, s.
  - destruct H as (m & _ & -> & Hcap). done.
Qed.

(** a process identity survives its packing into the 64-bit word kept in
    the current-execution atomic, and every word that decodes came from that
    identity. *)
Theorem identity_roundtrip :
  (∀ h, 0 < ProcessHandle.pid h < 2 ^ 32 → 0 < ProcessHandle.generation h < 2 ^ 32 →
     ProcessHandle.decode (ProcessHandle.encode h) = Some h) ∧
  (∀ e h, u64 e → ProcessHandle.decode e = Some h → ProcessHandle.encode h = e) ∧
  ProcessHandle.decode PID0_IDENTITY = None.
Proof.
  split; [exact decode_encode|]. split; [exact encode_decode|]. reflexivity.
Qed.

(** *** Two findings *)

(** The current identity names a process that does not run. *)
Definition parked (k : kernel) : Prop :=
  kernel_ok k ∧ quiet (slots_of k) ∧ CURRENT_EXECUTION k ≠ PID0_IDENTITY.

Lemma quiet_insert l i s' : quiet l → in_phase Running s' = false → quiet (<[i := s']> l).
Proof.
  intros Hq Hs' j q [[-> [<- _]]|[_ Hj]]%list_lookup_insert_Some; [done|by eapply Hq].
Qed.

Lemma quiet_no_cpu k i s : quiet (slots_of k) → ¬ on_cpu k i s.
Proof. intros Hq [Hi Hr]. apply Hq in Hi. congruence. Qed.

Lemma parked_run c k :
  parked k → wp (run c) (λ _ k', decides c = false ∧ parked k') (λ _ k', parked k') k.
Proof.
  intros (Hok & Hq & Hcur). eapply wp_mono; [by apply kernel_run_ok| |].
  - intros [] k' [Hok' He]. destruct He as [(Hs & Hc & _)|i s' Hs Hr Hc _|Hby _].
    + split; [done|]. split; [done|]. by rewrite Hs, Hc.
    + split; [done|]. split; [done|]. rewrite Hs, Hc. split; [by apply quiet_insert|done].
    + exfalso. destruct Hby as [(i & s & Hc)|?]; [by apply quiet_no_cpu in Hc|done].
  - intros e k' (Hok' & Hs & Hc & _). split; [done|]. by rewrite Hs, Hc.
Qed.

Lemma parked_steps k k' : rtc step k k' → parked k → parked k'.
Proof.
  apply rtc_invariant. intros k1 k2 [c Hr|c e Hr] Hp.
  - by apply (wp_Done _ _ _ _ _ _ (parked_run c k1 Hp)) in Hr as [_ ?].
  - by apply (wp_Fail _ _ _ _ _ _ (parked_run c k1 Hp)) in Hr.
Qed.

(** C40: blocking the running process is final: [mark_blocked] leaves the
    current identity on a process that no longer runs, and from then on every
    call that would dispatch a process, or return to the idle scheduler, fails
    in every later state, also after the process is made runnable again. *)
Theorem blocking_current_stops_dispatch k h k1 k2 c :
  reachable k → mark_blocked h k = Done () k1 → rtc step k1 k2 → decides c = true →
  quiet (slots_of k2) ∧ ∃ e k3, run c k2 = Fail e k3.
Proof.
  intros Hok%kernel_reachable_ok Hb Hs Hc.
  apply (wp_Done _ _ _ _ _ _ (mark_blocked_wp k h Hok)) in Hb as (i & s & Hcpu & _ & ->).
  destruct (current_on_cpu _ _ _ Hok Hcpu) as (_ & _ & Hne & _).
  assert (Hp : parked k2).
  { eapply parked_steps; [exact Hs|]. destruct Hcpu as [Hi Hr].
    assert (Hr' := Hr). apply in_phase_spec in Hr' as [Ho _].
    split; [apply rephased_ok; auto|]. split; [|done].
    eapply quiet_update; [done|done|done|]. apply not_true_iff_false. rewrite in_phase_spec. by intros [_ ?]. }
  split; [by apply Hp|]. pose proof (parked_run c k2 Hp) as Hr. unfold wp in Hr.
  destruct (run c k2) as [? ?|e k3|]; [|by exists e, k3|done]. destruct Hr as [? _]. congruence.
Qed.

(** *** Concrete runs *)

(** The state after a list of calls. *)
Definition after (c : call) (k : kernel) : kernel :=
  match run c k with Done _ k' => k' | Fail _ k' => k' | Panic => k end.
Definition afters (cs : list call) (k : kernel) : kernel := fold_left (λ k c, after c k) cs k.

Lemma afters_steps cs k : rtc step k (afters cs k).
Proof.
  revert k. induction cs as [|c cs IH]; intros k; [done|]. simpl.
  etransitivity; [|apply IH]. unfold after.
  destruct (run c k) as [[] k'|e k'|] eqn:Hr; [|apply rtc_once; by eapply step_fail|done].
  apply rtc_once. by eapply step_done.
Qed.

Definition image : ProcessLaunch.t :=
  ProcessLaunch.mk 0x200000 0x400000 0x7fff0000 0xffff800000010000 1 1 0 0.
Definition saved0 : SavedUserContext.t := SavedUserContext.initial 0x400010 0x7ffe0000.
Definition init_handle : ProcessHandle.t := ProcessHandle.mk 1 1.

(** The calls that retire the first init process while its child lives on and
    has a child of its own. *)
Definition retire_init : list call :=
  [CommitChild 1 image; MarkRunning init_handle; ScheduleExit 0; ReapChild 0 init_handle;
   CommitChild 2 image].

(** the handle of a reaped init process can be issued again: unlike
    [commit_child], [register_init] keeps the generation of the slot it takes,
    so a second init in another slot gets the identity of the first. *)
Theorem init_handle_reissued :
  ∃ k1 k2 k3 h, register_init image boot = Done h k1 ∧ rtc step k1 k2 ∧
    slot_by_handle h k2 = None ∧ register_init image k2 = Done h k3.
Proof.
  exists (after (RegisterInit image) boot), (afters retire_init (after (RegisterInit image) boot)).
  eexists _, init_handle. split; [vm_compute; reflexivity|]. split; [apply afters_steps|].
  split; vm_compute; reflexivity.
Qed.

(** *** Witnesses: init runs and has one runnable child. *)

Definition two : kernel := afters [RegisterInit image; CommitChild 1 image; MarkRunning init_handle] boot.
Lemma two_reachable : reachable two.
Proof. apply afters_steps. Qed.

Definition slot_of (k : kernel) (i : nat) : ProcessSlot.t := default EMPTY (slots_of k !! i).

Lemma two_cpu : on_cpu two 0 (slot_of two 0).
Proof. split; vm_compute; reflexivity. Qed.

Definition two_return : AuthorizedUserReturn.t :=
  ScheduledProcess.authorized_return (scheduled_of (slot_of two 0) (epoch_of two)).

Lemma sole_running_process_witness :
  current_handle two = Some (handle_of (slot_of two 0)) ∧ run (ScheduleYield saved0) two ≠ Panic.
Proof.
  destruct (sole_running_process two two_reachable) as (_ & Hc & _ & _ & _ & Hp).
  split; [|exact (Hp (ScheduleYield saved0))].
  apply (Hc 0%nat (slot_of two 0)); vm_compute; reflexivity.
Defined.

Lemma authorize_exact_witness :
  ∃ p, authorize_user_return two_return two = Done p two.
Proof.
  pose proof (authorize_exact two two_return two_reachable) as H.
  destruct (authorize_user_return two_return two) as [p k'|e k'|] eqn:Hr.
  - destruct H as [-> _]. exists p. reflexivity.
  - destruct H as [_ Hno]. exfalso. apply (Hno 0%nat (slot_of two 0)); [exact two_cpu|reflexivity].
  - destruct H.
Defined.

Lemma superseded_authority_refused_witness :
  authorize_user_return two_return (after (ScheduleYield saved0) two) =
    Fail StaleDispatchAuthority (after (ScheduleYield saved0) two).
Proof.
  apply (superseded_authority_refused two two_return (scheduled_of (slot_of two 0) (epoch_of two))
    (ScheduleYield saved0) (after (ScheduleYield saved0) two)).
  - exact two_reachable.
  - vm_compute. reflexivity.
  - reflexivity.
  - vm_compute. reflexivity.
  - apply rtc_refl.
Defined.


(** A request minted one epoch earlier is refused. *)

Lemma yield_no_starvation_witness :
  ∃ n k', (1 <= n <= MAXIMUM_PROCESSES)%nat ∧
    yield_all (take n (replicate MAXIMUM_PROCESSES saved0)) two = Done () k' ∧
    on_cpu k' 1 (with_phase Running (slot_of two 1)).
Proof.
  apply (yield_no_starvation two 0 (slot_of two 0) 1 (slot_of two 1) (replicate MAXIMUM_PROCESSES saved0)).
  - exact two_reachable.
  - exact two_cpu.
  - vm_compute. reflexivity.
  - vm_compute. reflexivity.
  - apply Forall_replicate. vm_compute. reflexivity.
  - reflexivity.
  - vm_compute. reflexivity.
Defined.

Lemma exit_wait_reap_witness :
  ∃ i s, on_cpu two i s ∧
    ∃ k'', reap_child (parent s) (handle_of s) (after (ScheduleExit 42) two) = Done 42 k''.
Proof.
  assert (Hx : ∃ d, schedule_exit 42 two = Done d (after (ScheduleExit 42) two)).
  { eexists. vm_compute. reflexivity. }
  destruct Hx as [d Hx].
  destruct (exit_wait_reap two 42 d _ two_reachable Hx) as (i & s & Hc & _ & k'' & Hr & _).
  exists i, s. split; [exact Hc|]. exists k''. exact Hr.
Defined.



Lemma blocking_current_stops_dispatch_witness :
  ∃ e k3, run (ScheduleYield saved0) (afters [MarkBlocked init_handle; MarkRunnable init_handle] two) = Fail e k3.
Proof.
  destruct (blocking_current_stops_dispatch two init_handle (after (MarkBlocked init_handle) two)
    (afters [MarkRunnable init_handle] (after (MarkBlocked init_handle) two)) (ScheduleYield saved0))
    as [_ H].
  - exact two_reachable.
  - vm_compute. reflexivity.
  - apply afters_steps.
  - reflexivity.
  - exact H.
Defined.

End SchedulerProperties.
