(* ===== verification/Preemption.v ===== *)
(** * The preemption mailbox

    Models [kernel/boulder/src/process/preemption.rs]: the one-slot mailbox
    through which the timer interrupt asks for a preemption that the next system
    call performs.  [publish] and [take] share four atomics without a lock, so
    they are small-step machines over them, one transition per atomic access in
    any interleaving of any number of threads; the field accesses are relaxed in
    the source and ordered by the acquire and release accesses to [state], which
    is what the interleaving assumes.  The functions of the module that only run
    to completion are ordinary state functions. *)
From S2P Require Import Prelude Context Lifecycle Scheduling SchedulerProperties.

Record PreemptionTicket := mkTicket {
  authority : ExecutionAuthority.t;
  requested_tick : Z;
}.

Inductive RequestDisposition := Published | Coalesced | NoUserAuthority.

Module PreemptionMailbox.

Definition EMPTY : Z := 0.
Definition CLAIMED : Z := 1.
Definition PENDING : Z := 2.

Record t := mk {
  state : Z;
  identity : Z;
  scheduler_epoch : Z;
  tick : Z;
}.

Definition new : t := mk EMPTY 0 0 0.

Definition with_state (x : Z) (b : t) : t := mk x (identity b) (scheduler_epoch b) (tick b).
Definition with_identity (x : Z) (b : t) : t := mk (state b) x (scheduler_epoch b) (tick b).
Definition with_epoch (x : Z) (b : t) : t := mk (state b) (identity b) x (tick b).
Definition with_tick (x : Z) (b : t) : t := mk (state b) (identity b) (scheduler_epoch b) x.

(** Where a thread is inside [publish] or [take]: after each access. *)
Inductive pc :=
| PEnter (k : PreemptionTicket)
| PClaimed (k : PreemptionTicket)
| PIdentity (k : PreemptionTicket)
| PEpoch (k : PreemptionTicket)
| PTick (k : PreemptionTicket)
| PDone (k : PreemptionTicket) (published : bool)
| TEnter
| TClaimed
| TIdentity (identity : Z)
| TEpoch (identity epoch : Z)
| TTick (identity epoch tick : Z)
| TDone (result : option PreemptionTicket).

(** The ticket [take] makes of the three words. *)
Definition decode_ticket (identity epoch tick : Z) : option PreemptionTicket :=
  a ← ExecutionAuthority.decode identity epoch; Some (mkTicket a tick).

(** The next atomic access of a thread. *)
Definition access (b : t) (p : pc) : t * pc :=
  match p with
  | PEnter k =>
    if state b =? EMPTY then (with_state CLAIMED b, PClaimed k) else (b, PDone k false)
  | PClaimed k => (with_identity (ExecutionAuthority.encode_identity (authority k)) b, PIdentity k)
  | PIdentity k => (with_epoch (ExecutionAuthority.scheduler_epoch (authority k)) b, PEpoch k)
  | PEpoch k => (with_tick (requested_tick k) b, PTick k)
  | PTick k => (with_state PENDING b, PDone k true)
  | TEnter => if state b =? PENDING then (with_state CLAIMED b, TClaimed) else (b, TDone None)
  | TClaimed => (b, TIdentity (identity b))
  | TIdentity i => (b, TEpoch i (scheduler_epoch b))
  | TEpoch i e => (b, TTick i e (tick b))
  | TTick i e n => (with_state EMPTY b, TDone (decode_ticket i e n))
  | PDone _ _ | TDone _ => (b, p)
  end.

(** A call run to completion, for the callers that are not interrupted. *)
Fixpoint accesses (n : nat) (b : t) (p : pc) : t * pc :=
  match n with O => (b, p) | S n' => let '(b', p') := access b p in accesses n' b' p' end.

Definition publish (k : PreemptionTicket) (b : t) : t * bool :=
  match accesses 5 b (PEnter k) with (b', PDone _ r) => (b', r) | (b', _) => (b', false) end.
Definition take (b : t) : t * option PreemptionTicket :=
  match accesses 5 b TEnter with (b', TDone r) => (b', r) | (b', _) => (b', None) end.

End PreemptionMailbox.

Module Preemption.
Import PreemptionMailbox.

(** The statics of the module, beside those of the lifecycle table. *)
Record t := mkState {
  MAILBOX : PreemptionMailbox.t;
  IRQ_REQUESTS : Z;
  PUBLISHED : Z;
  COALESCED : Z;
  NO_USER_AUTHORITY : Z;
  SERVICED : Z;
  STALE : Z;
  SUPERSEDED : Z;
  FIRST_SERVICE : bool;
}.

Definition boot : t := mkState PreemptionMailbox.new 0 0 0 0 0 0 0 false.

(** [fetch_add(1)] wraps. *)
Definition incr (x : Z) : Z := wrapping_add 64 x 1.

Definition request_from_timer_irq (wall_tick : Z) (k : Lifecycle.kernel) (s : t) :
    t * RequestDisposition :=
  match Lifecycle.current_execution_authority_from_irq k with
  | None =>
    (mkState (MAILBOX s) (incr (IRQ_REQUESTS s)) (PUBLISHED s) (COALESCED s)
       (incr (NO_USER_AUTHORITY s)) (SERVICED s) (STALE s) (SUPERSEDED s) (FIRST_SERVICE s),
     NoUserAuthority)
  | Some a =>
    match publish (mkTicket a wall_tick) (MAILBOX s) with
    | (b, true) =>
      (mkState b (incr (IRQ_REQUESTS s)) (incr (PUBLISHED s)) (COALESCED s)
         (NO_USER_AUTHORITY s) (SERVICED s) (STALE s) (SUPERSEDED s) (FIRST_SERVICE s), Published)
    | (b, false) =>
      (mkState b (incr (IRQ_REQUESTS s)) (PUBLISHED s) (incr (COALESCED s))
         (NO_USER_AUTHORITY s) (SERVICED s) (STALE s) (SUPERSEDED s) (FIRST_SERVICE s), Coalesced)
    end
  end.

Definition with_mailbox (b : PreemptionMailbox.t) (s : t) : t :=
  mkState b (IRQ_REQUESTS s) (PUBLISHED s) (COALESCED s) (NO_USER_AUTHORITY s) (SERVICED s)
    (STALE s) (SUPERSEDED s) (FIRST_SERVICE s).

Definition take_at_safe_point (s : t) : t * option PreemptionTicket :=
  let '(b, r) := take (MAILBOX s) in (with_mailbox b s, r).

Definition record_serviced (s : t) : t * bool :=
  (mkState (MAILBOX s) (IRQ_REQUESTS s) (PUBLISHED s) (COALESCED s) (NO_USER_AUTHORITY s)
     (incr (SERVICED s)) (STALE s) (SUPERSEDED s) true, negb (FIRST_SERVICE s)).

Definition record_stale (s : t) : t :=
  mkState (MAILBOX s) (IRQ_REQUESTS s) (PUBLISHED s) (COALESCED s) (NO_USER_AUTHORITY s)
    (SERVICED s) (incr (STALE s)) (SUPERSEDED s) (FIRST_SERVICE s).

Definition retire_superseded (s : t) : t :=
  let '(b, r) := take (MAILBOX s) in
  mkState b (IRQ_REQUESTS s) (PUBLISHED s) (COALESCED s) (NO_USER_AUTHORITY s) (SERVICED s)
    (STALE s) (match r with Some _ => incr (SUPERSEDED s) | None => SUPERSEDED s end)
    (FIRST_SERVICE s).

End Preemption.

(** ** The mailbox under interleaving *)

Module MailboxFacts.
Import PreemptionMailbox.

(** Tickets come from [irq_snapshot]: a live identity and a non-zero epoch. *)
Definition ticket_ok (k : PreemptionTicket) : Prop :=
  let h := ExecutionAuthority.handle (authority k) in
  0 < ProcessHandle.pid h < 2 ^ 32 ∧ 0 < ProcessHandle.generation h < 2 ^ 32 ∧
  ExecutionAuthority.scheduler_epoch (authority k) ≠ 0.

Lemma decode_ticket_ok k :
  ticket_ok k →
  decode_ticket (ExecutionAuthority.encode_identity (authority k))
    (ExecutionAuthority.scheduler_epoch (authority k)) (requested_tick k) = Some k.
Proof.
  destruct k as [[h e] n]. intros (Hp & Hg & He). simpl in *.
  unfold decode_ticket, ExecutionAuthority.decode, ExecutionAuthority.encode_identity. simpl.
  destruct (Z.eqb_spec e 0); [done|]. by rewrite LifecycleFacts.decode_encode.
Qed.

(** The machine, with the tickets handed in and out so far as history. *)
Record config := mkConfig {
  mailbox : t;
  threads : list pc;
  sent : list PreemptionTicket;
  received : list PreemptionTicket;
}.

Definition start : config := mkConfig new [] [] [].

Inductive step : config → config → Prop :=
| step_publish b ps o i k :
    ticket_ok k → step (mkConfig b ps o i) (mkConfig b (ps ++ [PEnter k]) o i)
| step_take b ps o i :
    step (mkConfig b ps o i) (mkConfig b (ps ++ [TEnter]) o i)
| step_access b ps o i n p b' p' :
    ps !! n = Some p → access b p = (b', p') →
    step (mkConfig b ps o i)
      (mkConfig b' (<[n := p']> ps)
         (match p, p' with PTick k, PDone _ true => o ++ [k] | _, _ => o end)
         (match p, p' with TTick _ _ _, TDone (Some k) => i ++ [k] | _, _ => i end)).

(** A thread that holds the claim. *)
Definition inside (p : pc) : bool :=
  match p with
  | PClaimed _ | PIdentity _ | PEpoch _ | PTick _ | TClaimed | TIdentity _ | TEpoch _ _ | TTick _ _ _ => true
  | _ => false
  end.

(** The mailbox holds this ticket. *)
Definition holds (b : t) (k : PreemptionTicket) : Prop :=
  ticket_ok k ∧ identity b = ExecutionAuthority.encode_identity (authority k) ∧
  scheduler_epoch b = ExecutionAuthority.scheduler_epoch (authority k) ∧ tick b = requested_tick k.

(** What the holder of the claim knows, given what is still undelivered. *)
Definition holder_ok (b : t) (undelivered : list PreemptionTicket) (p : pc) : Prop :=
  match p with
  | PClaimed k => ticket_ok k ∧ undelivered = []
  | PIdentity k => ticket_ok k ∧ undelivered = [] ∧
      identity b = ExecutionAuthority.encode_identity (authority k)
  | PEpoch k => ticket_ok k ∧ undelivered = [] ∧
      identity b = ExecutionAuthority.encode_identity (authority k) ∧
      scheduler_epoch b = ExecutionAuthority.scheduler_epoch (authority k)
  | PTick k => undelivered = [] ∧ holds b k
  | TClaimed => ∃ k, undelivered = [k] ∧ holds b k
  | TIdentity i => ∃ k, undelivered = [k] ∧ holds b k ∧ i = identity b
  | TEpoch i e => ∃ k, undelivered = [k] ∧ holds b k ∧ i = identity b ∧ e = scheduler_epoch b
  | TTick i e n => ∃ k, undelivered = [k] ∧ holds b k ∧ i = identity b ∧ e = scheduler_epoch b ∧ n = tick b
  | PEnter k => ticket_ok k
  | PDone _ _ | TEnter | TDone _ => True
  end.

Record config_ok (c : config) (undelivered : list PreemptionTicket) : Prop := {
  co_history : sent c = received c ++ undelivered;
  co_bound : (length undelivered <= 1)%nat;
  co_state : state (mailbox c) = EMPTY ∨ state (mailbox c) = CLAIMED ∨ state (mailbox c) = PENDING;
  co_empty : state (mailbox c) = EMPTY → undelivered = [];
  co_pending : state (mailbox c) = PENDING → ∃ k, undelivered = [k] ∧ holds (mailbox c) k;
  co_claim : ∀ n p, threads c !! n = Some p → inside p = true → state (mailbox c) = CLAIMED;
  co_holder : ∀ n p, threads c !! n = Some p → holder_ok (mailbox c) undelivered p;
  co_sole : ∀ n m p q, threads c !! n = Some p → threads c !! m = Some q →
    inside p = true → inside q = true → n = m;
}.

(** Threads outside the claim do not care what happens to the mailbox. *)
Lemma holder_outside b b' u u' p : inside p = false → holder_ok b u p → holder_ok b' u' p.
Proof. by destruct p. Qed.

(** A thread that holds the claim, or finds it free, moves: nobody else is
    inside, so only the conditions on the new mailbox are left. *)
Lemma config_ok_move c u n p b' p' u' o i :
  config_ok c u → threads c !! n = Some p →
  inside p = true ∨ state (mailbox c) ≠ CLAIMED →
  o = i ++ u' → (length u' <= 1)%nat →
  (state b' = EMPTY ∧ u' = [] ∨ state b' = CLAIMED ∨
   state b' = PENDING ∧ ∃ k, u' = [k] ∧ holds b' k) →
  (inside p' = true → state b' = CLAIMED) → holder_ok b' u' p' →
  config_ok (mkConfig b' (<[n := p']> (threads c)) o i) u'.
Proof.
  intros Hok Hn Hfree Hh Hlen Hst Hin Hholder.
  assert (Hothers : ∀ m q, n ≠ m → threads c !! m = Some q → inside q = false).
  { intros m q Hnm Hm. apply not_true_iff_false. intros Hq. destruct Hfree as [Hp|Hne].
    - apply Hnm. by eapply (co_sole _ _ Hok n m p q).
    - apply Hne. by eapply (co_claim _ _ Hok m q). }
  split; simpl; [done|done|naive_solver|..].
  - intros He. destruct Hst as [[_ ?]|[Hc|[Hp _]]]; [done|by rewrite He in Hc|by rewrite He in Hp].
  - intros He. destruct Hst as [[Hx _]|[Hc|[_ ?]]]; [by rewrite He in Hx|by rewrite He in Hc|done].
  - intros m q [[-> [<- _]]|[Hne Hm]]%list_lookup_insert_Some Hq; [by apply Hin|].
    rewrite (Hothers m q) in Hq; done.
  - intros m q [[-> [<- _]]|[Hne Hm]]%list_lookup_insert_Some; [done|].
    eapply holder_outside; [by eapply Hothers|]. by eapply (co_holder _ _ Hok).
  - intros m m' q q' [[-> [<- _]]|[Hne Hm]]%list_lookup_insert_Some
      [[-> [<- _]]|[Hne' Hm']]%list_lookup_insert_Some Hq Hq'; try done.
    + rewrite (Hothers m' q') in Hq'; done.
    + rewrite (Hothers m q) in Hq; done.
    + rewrite (Hothers m q) in Hq; done.
Qed.

(** A move between two points inside the claim. *)
Lemma config_ok_within b ps o i u n p b' p' :
  config_ok (mkConfig b ps o i) u → ps !! n = Some p → inside p = true → state b' = state b →
  holder_ok b' u p' → config_ok (mkConfig b' (<[n := p']> ps) o i) u.
Proof.
  intros Hok Hn Hin Hs Hp'. pose proof (co_claim _ _ Hok n p Hn Hin) as Hc. simpl in Hc.
  apply (config_ok_move (mkConfig b ps o i) u n p); [done|done|by left|apply Hok|apply Hok| |congruence|done].
  right. left. congruence.
Qed.

(** A thread that gives up, or stays where it is, changes nothing. *)
Lemma config_ok_stay c u n p p' :
  config_ok c u → threads c !! n = Some p → inside p' = false → holder_ok (mailbox c) u p' →
  config_ok (mkConfig (mailbox c) (<[n := p']> (threads c)) (sent c) (received c)) u.
Proof.
  intros [] Hn Hout Hp'. split; simpl; try done.
  - intros m q [[-> [<- _]]|[_ Hm]]%list_lookup_insert_Some Hq; [congruence|by eauto].
  - intros m q [[-> [<- _]]|[_ Hm]]%list_lookup_insert_Some; [done|by eauto].
  - intros m m' q q' [[-> [<- _]]|[_ Hm]]%list_lookup_insert_Some
      [[-> [<- _]]|[_ Hm']]%list_lookup_insert_Some Hq Hq'; try done; try congruence. by eauto.
Qed.

Lemma config_ok_enter c u p :
  config_ok c u → inside p = false → holder_ok (mailbox c) u p →
  config_ok (mkConfig (mailbox c) (threads c ++ [p]) (sent c) (received c)) u.
Proof.
  intros [] Hout Hp. split; simpl; try done.
  - intros m q [Hm|[_ [_ <-]%list_lookup_singleton_Some]]%lookup_app_Some Hq; [by eauto|congruence].
  - intros m q [Hm|[_ [_ <-]%list_lookup_singleton_Some]]%lookup_app_Some; [by eauto|done].
  - intros m m' q q' [Hm|[_ [_ <-]%list_lookup_singleton_Some]]%lookup_app_Some
      [Hm'|[_ [_ <-]%list_lookup_singleton_Some]]%lookup_app_Some Hq Hq'; try congruence. by eauto.
Qed.

Lemma access_ok b ps o i u n p b' p' :
  config_ok (mkConfig b ps o i) u → ps !! n = Some p → access b p = (b', p') →
  ∃ u', config_ok (mkConfig b' (<[n := p']> ps)
    (match p, p' with PTick k, PDone _ true => o ++ [k] | _, _ => o end)
    (match p, p' with TTick _ _ _, TDone (Some k) => i ++ [k] | _, _ => i end)) u'.
Proof.
  intros Hok Hn Ha. pose proof (co_holder _ _ Hok n p Hn) as Hp. pose proof (co_history _ _ Hok) as Hh.
  pose proof (λ H, co_claim _ _ Hok n p Hn H) as Hc. pose proof (co_empty _ _ Hok) as He.
  pose proof (co_pending _ _ Hok) as Hpd. simpl in *.
  destruct p as [k|k|k|k|k|k r| | |x|x y|x y z|r]; simpl in Hp, Ha.
  - destruct (Z.eqb_spec (state b) EMPTY) as [Hs|Hs]; injection Ha as <- <-; exists u.
    + eapply (config_ok_move (mkConfig b ps o i) u n (PEnter k)); try done; [right; simpl; by rewrite Hs|apply Hok|by right; left|].
      split; [done|by apply He].
    + by apply (config_ok_stay (mkConfig b ps o i) u n (PEnter k)).
  - injection Ha as <- <-. exists u. apply (config_ok_within b ps o i u n (PClaimed k)); try done.
    destruct Hp. done.
  - injection Ha as <- <-. exists u. apply (config_ok_within b ps o i u n (PIdentity k)); try done.
    destruct Hp as (? & ? & ?). done.
  - injection Ha as <- <-. exists u. apply (config_ok_within b ps o i u n (PEpoch k)); try done.
    destruct Hp as (? & ? & ? & ?). done.
  - injection Ha as <- <-. exists [k]. destruct Hp as [-> Hk]. rewrite app_nil_r in Hh. subst o.
    eapply (config_ok_move (mkConfig b ps i i) [] n (PTick k)); try done; [by left|]. right; right. split; [done|by exists k].
  - injection Ha as <- <-. exists u. by apply (config_ok_stay (mkConfig b ps o i) u n (PDone k r)).
  - destruct (Z.eqb_spec (state b) PENDING) as [Hs|Hs]; injection Ha as <- <-; exists u.
    + eapply (config_ok_move (mkConfig b ps o i) u n TEnter); try done; [right; simpl; by rewrite Hs|apply Hok|by right; left|].
      destruct (Hpd Hs) as (k & -> & Hk). by exists k.
    + by apply (config_ok_stay (mkConfig b ps o i) u n TEnter).
  - injection Ha as <- <-. exists u. apply (config_ok_within b ps o i u n TClaimed); try done.
    destruct Hp as (k & ? & ?). by exists k.
  - injection Ha as <- <-. exists u. apply (config_ok_within b ps o i u n (TIdentity x)); try done.
    destruct Hp as (k & ? & ? & ?). by exists k.
  - injection Ha as <- <-. exists u. apply (config_ok_within b ps o i u n (TEpoch x y)); try done.
    destruct Hp as (k & ? & ? & ? & ?). by exists k.
  - injection Ha as <- <-. exists []. destruct Hp as (k & -> & (Hk & Hi & Hep & Ht) & -> & -> & ->).
    rewrite Hi, Hep, Ht, decode_ticket_ok by done. subst o.
    eapply (config_ok_move (mkConfig b ps (i ++ [k]) i) [k] n (TTick _ _ _)); try done; [by left|by rewrite app_nil_r|simpl; lia|by left].
  - injection Ha as <- <-. exists u. by apply (config_ok_stay (mkConfig b ps o i) u n (TDone r)).
Qed.

Lemma step_config_ok c c' : step c c' → (∃ u, config_ok c u) → ∃ u, config_ok c' u.
Proof.
  intros [b ps o i k Hk|b ps o i|b ps o i n p b' p' Hn Ha] [u Hok].
  - exists u. by apply (config_ok_enter (mkConfig b ps o i)).
  - exists u. by apply (config_ok_enter (mkConfig b ps o i)).
  - by eapply access_ok.
Qed.

Lemma start_ok : config_ok start [].
Proof. split; try done; [simpl; lia|by left]. Qed.

End MailboxFacts.

(** ** Theorems *)

Module PreemptionProperties.
Import ProcessSlot Lifecycle LifecycleFacts SchedulingFacts SchedulingRuns.
Import PreemptionMailbox Preemption MailboxFacts.

(** The history agrees with what the threads were told. *)
Definition told (c : config) : Prop :=
  (∀ n k, threads c !! n = Some (PDone k true) → k ∈ sent c) ∧
  (∀ n k, threads c !! n = Some (TDone (Some k)) → k ∈ received c).

Lemma step_told c c' : MailboxFacts.step c c' → told c → told c'.
Proof.
  assert (Hmono : ∀ (l : list PreemptionTicket) k x, k ∈ l → k ∈ l ++ [x])
    by (intros; apply elem_of_app; by left).
  intros [b ps o i k _|b ps o i|b ps o i n p b' p' Hn Ha] [Hs Hr]; split; simpl in *.
  1-4: intros m x [Hm|[_ [_ Hx]%list_lookup_singleton_Some]]%lookup_app_Some; [by eauto|done].
  - intros m x [[-> [-> _]]|[_ Hm]]%list_lookup_insert_Some.
    + destruct p; simpl in Ha; try (destruct (_ =? _)); simplify_eq; try (by eapply Hs).
      apply elem_of_app. right. by apply list_elem_of_singleton.
    + apply Hs in Hm. destruct p as [| | | |k|k r| | | | | |], p' as [| | | | |k' []| | | | | |]; auto.
  - intros m x [[-> [-> _]]|[_ Hm]]%list_lookup_insert_Some.
    + destruct p; simpl in Ha; try (destruct (_ =? _)); simplify_eq; try (by eapply Hr).
      apply elem_of_app. right. by apply list_elem_of_singleton.
    + apply Hr in Hm. destruct p as [| | | | | | | | | |x' y z|], p' as [| | | | | | | | | | |[]]; auto.
Qed.

(** C24: however [publish] and [take] interleave, in any number of threads, at
    most one holds the claim; tickets come out whole, each at most once, in the
    order they went in; and at most one is in the box. *)
Theorem mailbox_delivers_once c :
  rtc MailboxFacts.step start c →
  (∃ undelivered, sent c = received c ++ undelivered ∧ (length undelivered <= 1)%nat) ∧
  (∀ n k, threads c !! n = Some (TDone (Some k)) → k ∈ received c) ∧
  (∀ n k, threads c !! n = Some (PDone k true) → k ∈ sent c) ∧
  (∀ n m p q, threads c !! n = Some p → threads c !! m = Some q →
     inside p = true → inside q = true → n = m).
Proof.
  intros Hsteps.
  destruct (rtc_invariant _ (λ c, ∃ u, config_ok c u) _ _ step_config_ok Hsteps) as [u Hok];
    [by exists []; apply start_ok|].
  assert (Ht : told c) by (eapply (rtc_invariant _ told); [apply step_told|exact Hsteps|by split]).
  split; [|split; [by apply Ht|split; [by apply Ht|by apply Hok]]].
  exists u. split; by apply Hok.
Qed.

(** The requests that reach an empty box, and calls that empty it. *)
Lemma publish_empty k b :
  state b = EMPTY →
  publish k b = (mk PENDING (ExecutionAuthority.encode_identity (authority k))
    (ExecutionAuthority.scheduler_epoch (authority k)) (requested_tick k), true).
Proof. intros Hb. unfold publish. simpl. by rewrite Hb. Qed.

Lemma publish_full k b : state b ≠ EMPTY → publish k b = (b, false).
Proof. intros Hb. unfold publish. simpl. by rewrite (proj2 (Z.eqb_neq _ _) Hb). Qed.

Lemma take_pending k b :
  state b = PENDING → holds b k → take b = (with_state EMPTY b, Some k).
Proof.
  intros Hb (Hk & Hi & He & Ht). unfold take. simpl. rewrite Hb. simpl.
  by rewrite Hi, He, Ht, decode_ticket_ok.
Qed.

(** In every reachable state the interrupt's snapshot is the running process
    at the current epoch. *)
Lemma irq_snapshot_running k i s :
  kernel_ok k → on_cpu k i s →
  current_execution_authority_from_irq k = Some (ExecutionAuthority.mk (handle_of s) (epoch_of k)).
Proof.
  intros Hok Hc. destruct (current_on_cpu _ _ _ Hok Hc) as (_ & Hd & _ & He).
  unfold current_execution_authority_from_irq, irq_snapshot.
  rewrite Hd, (ko_mirror _ Hok), Z.eqb_refl. by destruct (Z.eqb_spec (epoch_of k) 0); [lia|].
Qed.

(** a timer tick that finds a process running leaves in the box a ticket
    for exactly that process and epoch; taken at the next safe point, it preempts
    that process. *)
Theorem timer_tick_preempts k i s t wall saved :
  SchedulerProperties.reachable k → on_cpu k i s → state (MAILBOX t) = EMPTY →
  SavedUserContext.validate saved = Ok () → epoch_of k + 1 < 2 ^ 64 →
  ∃ t1 t2 a, request_from_timer_irq wall k t = (t1, Published) ∧
    take_at_safe_point t1 = (t2, Some (mkTicket a wall)) ∧ state (MAILBOX t2) = EMPTY ∧
    a = ExecutionAuthority.mk (handle_of s) (epoch_of k) ∧
    ∃ p k', schedule_preempt saved a k = Done p k' ∧ epoch_of k' = epoch_of k + 1.
Proof.
  intros Hok%SchedulerProperties.kernel_reachable_ok Hc Hb Hv He.
  destruct (on_cpu_slot _ _ _ Hok Hc) as (Hs & Ho & _).
  destruct (current_on_cpu _ _ _ Hok Hc) as (_ & _ & _ & Hpos).
  set (a := ExecutionAuthority.mk (handle_of s) (epoch_of k)). set (tk := mkTicket a wall).
  assert (Hk : ticket_ok tk).
  { pose proof (so_pid _ Hs Ho). pose proof (so_generation _ Hs). unfold ticket_ok. simpl. lia. }
  unfold request_from_timer_irq. rewrite (irq_snapshot_running k i s) by done.
  fold a. fold tk. rewrite publish_empty by done. eexists _, _, a. split; [done|].
  unfold take_at_safe_point. cbn [MAILBOX]. rewrite (take_pending tk) by done.
  split; [done|]. split; [done|]. split; [done|].
  pose proof (schedule_preempt_wp k saved a Hok) as H. unfold wp in H.
  destruct (schedule_preempt saved a k) as [p k'|e k'|]; [| |done].
  - exists p, k'. split; [done|]. destruct H as (j & q & u & st & _ & [_ _ _ _ _ _ ->] & _). done.
  - exfalso. destruct H as (_ & [[_ []]|[[_ Hno]|[_ Hx]]]); [done|by apply (Hno i s)|].
    unfold exhausted, MAX in Hx. lia.
Qed.

(** No request minted at an older epoch ever preempts: the mirror of the
    epoch may be read before and the identity after a transition publishes them,
    and still whatever identity such a snapshot carries is refused, with no
    change, once the table has moved past the epoch that was read. *)
Theorem stale_snapshot_refused k before identity after a saved :
  SchedulerProperties.reachable k → irq_snapshot before identity after = Some a →
  before < epoch_of k → SavedUserContext.validate saved = Ok () →
  schedule_preempt saved a k = Fail StalePreemptionAuthority k.
Proof.
  intros Hok%SchedulerProperties.kernel_reachable_ok Ha Hlt Hv.
  assert (He : ExecutionAuthority.scheduler_epoch a = before).
  { unfold irq_snapshot in Ha. destruct (ProcessHandle.decode identity); [|done].
    destruct (_ || _); [done|]. by injection Ha as <-. }
  apply wp_exact_fail. unfold schedule_preempt. rewrite wp_bind, wp_require, Hv. wp_simpl.
  destruct (Z.eqb_spec (epoch_of k) (ExecutionAuthority.scheduler_epoch a)); [lia|].
  by rewrite orb_true_r.
Qed.

(** The counters as one ledger. *)
Definition balanced (t : Preemption.t) : Prop :=
  IRQ_REQUESTS t = wrap 64 (PUBLISHED t + COALESCED t + NO_USER_AUTHORITY t).

Inductive tick_step : Preemption.t → Preemption.t → Prop :=
| tick_request wall k t : tick_step t (request_from_timer_irq wall k t).1
| tick_take t : tick_step t (take_at_safe_point t).1
| tick_serviced t : tick_step t (record_serviced t).1
| tick_stale t : tick_step t (record_stale t)
| tick_retire t : tick_step t (retire_superseded t).

Lemma wrap_add_l x y : wrap 64 (wrap 64 x + y) = wrap 64 (x + y).
Proof. apply Zplus_mod_idemp_l. Qed.

(** every timer request is counted in exactly one of published, coalesced
    and without a user authority. *)
Theorem request_counters_balance t :
  rtc tick_step boot t → balanced t.
Proof.
  intros Hs. eapply (rtc_invariant _ balanced); [|exact Hs|done].
  clear. intros t t' []; unfold balanced.
  - unfold request_from_timer_irq. destruct (current_execution_authority_from_irq k) as [a|].
    + destruct (publish _ _) as [b []]; cbn [IRQ_REQUESTS PUBLISHED COALESCED NO_USER_AUTHORITY fst];
        intros ->; unfold incr, wrapping_add; rewrite wrap_add_l.
      * rewrite <- (Z.add_assoc (wrap 64 _)), wrap_add_l. f_equal. lia.
      * rewrite (Z.add_comm (PUBLISHED t0) (wrap 64 _)), <- (Z.add_assoc (wrap 64 _)), wrap_add_l.
        f_equal. lia.
    + cbn [IRQ_REQUESTS PUBLISHED COALESCED NO_USER_AUTHORITY fst]. intros ->.
      unfold incr, wrapping_add. rewrite wrap_add_l, (Z.add_comm _ (wrap 64 _)), wrap_add_l.
      f_equal. lia.
  - unfold take_at_safe_point. by destruct (take _).
  - done.
  - done.
  - unfold retire_superseded. by destruct (take _).
Qed.

(** *** Witnesses *)

Definition ticket0 : PreemptionTicket :=
  mkTicket (ExecutionAuthority.mk SchedulerProperties.init_handle 1) 5.

(** A publisher and a taker; the taker arrives while the box is claimed. *)
Lemma mailbox_delivers_once_witness :
  ∃ c, rtc MailboxFacts.step start c ∧ received c = [] ∧ sent c = [ticket0] ∧
    ∃ undelivered, sent c = received c ++ undelivered ∧ (length undelivered <= 1)%nat.
Proof.
  set (c := mkConfig (mk PENDING (ExecutionAuthority.encode_identity (authority ticket0)) 1 5)
    [PDone ticket0 true; TDone None] [ticket0] []).
  assert (Hs : rtc MailboxFacts.step start c).
  { eapply rtc_l; [apply (step_publish _ _ _ _ ticket0); by repeat split|].
    eapply rtc_l; [apply step_take|]. simpl.
    eapply rtc_l; [by apply (step_access _ _ _ _ 0 (PEnter ticket0))|]. simpl.
    eapply rtc_l; [by apply (step_access _ _ _ _ 1 TEnter)|]. simpl.
    eapply rtc_l; [by apply (step_access _ _ _ _ 0 (PClaimed ticket0))|]. simpl.
    eapply rtc_l; [by apply (step_access _ _ _ _ 0 (PIdentity ticket0))|]. simpl.
    eapply rtc_l; [by apply (step_access _ _ _ _ 0 (PEpoch ticket0))|]. simpl.
    eapply rtc_l; [by apply (step_access _ _ _ _ 0 (PTick ticket0))|]. simpl.
    reflexivity. }
  exists c. split; [exact Hs|]. split; [reflexivity|]. split; [reflexivity|].
  apply (mailbox_delivers_once c Hs).
Defined.

Lemma timer_tick_preempts_witness :
  ∃ t1 t2 a, request_from_timer_irq 5 SchedulerProperties.two Preemption.boot = (t1, Published) ∧
    take_at_safe_point t1 = (t2, Some (mkTicket a 5)).
Proof.
  destruct (timer_tick_preempts SchedulerProperties.two 0
    (SchedulerProperties.slot_of SchedulerProperties.two 0) Preemption.boot 5 SchedulerProperties.saved0)
    as (t1 & t2 & a & Hr & Ht & _).
  - exact SchedulerProperties.two_reachable.
  - exact SchedulerProperties.two_cpu.
  - reflexivity.
  - vm_compute. reflexivity.
  - vm_compute. reflexivity.
  - exists t1, t2, a. split; [exact Hr|exact Ht].
Defined.


End PreemptionProperties.
