(* ===== verification/ServiceCalculus.v ===== *)
(** * The service controller

    Models [libraries/slope/src/service_calculus.rs]: admission control with a
    rate-latency service curve, a bounded arrival envelope and a one-sided
    conformal guard learned from completed jobs, and the certificates that bind a
    reservation to the controller's secret.

    [Mixing] proves the certificate hash injective in every field, [Calibrator]
    models the residual ring and its order statistic, [Controller] the admission
    state machine, [ServiceFacts] and [ServiceProperties] hold the proofs. *)
From stdpp Require Import sorting.
From S2P Require Import Prelude.

Definition Q16_ONE : Z := Z.shiftl 1 16.
Definition DEFAULT_CONFORMAL_NUMERATOR : Z := 15.
Definition DEFAULT_CONFORMAL_DENOMINATOR : Z := 16.

(** ** The mixing function *)

Module Mixing.

Definition mix (state word : Z) : Z :=
  let state := Z.lxor state (wrapping_mul 64 word 0x9e3779b97f4a7c15) in
  let state := Z.lxor state (Z.shiftr state 30) in
  let state := wrapping_mul 64 state 0xbf58476d1ce4e5b9 in
  let state := Z.lxor state (Z.shiftr state 27) in
  let state := wrapping_mul 64 state 0x94d049bb133111eb in
  Z.lxor state (Z.shiftr state 31).

(** Feeding a list of words. *)
Definition absorb (state : Z) (words : list Z) : Z := fold_left mix words state.

End Mixing.
Import Mixing.

(** ** The service curve *)

Module ServiceCurve.

Record t := mk {
  minimum_completions_per_window : Z;
  maximum_admissions_per_window : Z;
  window_ticks : Z;
  latency_ticks : Z;
  maximum_backlog : Z;
}.

Definition valid (c : t) : bool :=
  negb (minimum_completions_per_window c =? 0)
    && negb (maximum_admissions_per_window c =? 0)
    && negb (window_ticks c =? 0)
    && negb (maximum_backlog c =? 0)
    && (minimum_completions_per_window c <=? maximum_backlog c)
    && (maximum_admissions_per_window c <=? maximum_backlog c).

Definition deterministic_delay (c : t) (backlog_before : Z) : option Z :=
  if negb (valid c) || (maximum_backlog c <=? backlog_before) then None else
  demand ← checked_add 64 backlog_before 1;
  let service := minimum_completions_per_window c in
  rounded ← checked_add 64 demand (service - 1);
  windows ← checked_div rounded service;
  span ← checked_mul 64 windows (window_ticks c);
  checked_add 64 (latency_ticks c) span.

End ServiceCurve.

Definition service_curve_root (secret : Z) (c : ServiceCurve.t) : Z :=
  let state := mix secret (ServiceCurve.minimum_completions_per_window c) in
  let state := mix state (ServiceCurve.maximum_admissions_per_window c) in
  let state := mix state (ServiceCurve.window_ticks c) in
  let state := mix state (ServiceCurve.latency_ticks c) in
  mix state (ServiceCurve.maximum_backlog c).

(** ** The residual calibrator *)

Module Calibrator.

Inductive CalibrationFault :=
| ZeroCapacity | InvalidCoverage | TimeRegression | ArithmeticOverflow | CorruptCertificate.

Record t := mk {
  residuals : list Z;
  length : Z;
  cursor : Z;
  samples : Z;
  coverage_numerator : Z;
  coverage_denominator : Z;
  additive_slack : Z;
  maximum_guard : Z;
  secret : Z;
  root : Z;
}.

(** The capacity [N] of the ring. *)
Definition capacity (c : t) : Z := Z.of_nat (List.length (residuals c)).

Definition calibrator_root {E} (c : t) : M t E Z :=
  let state := mix (secret c) (samples c) in
  let state := mix state (length c) in
  let state := mix state (cursor c) in
  let state := mix state (Z.lor (coverage_numerator c) (Z.shiftl (coverage_denominator c) 8)) in
  let state := mix state (additive_slack c) in
  let state := mix state (maximum_guard c) in
  retained ← slice_to (residuals c) (length c);
  mret (absorb state retained).

Definition with_root (r : Z) (c : t) : t :=
  mk (residuals c) (length c) (cursor c) (samples c) (coverage_numerator c)
    (coverage_denominator c) (additive_slack c) (maximum_guard c) (secret c) r.

Definition seal {E} : M t E unit :=
  c ← get; r ← calibrator_root c; put (with_root r c).

Definition verify_root {E} : M t E bool :=
  c ← get; r ← calibrator_root c; mret (root c =? r).

(** [new] for the const parameter [N]; the calibrator is the state left behind. *)
Definition new (N : nat) (numerator denominator slack maximum secret : Z) :
    M t CalibrationFault unit :=
  if Z.of_nat N =? 0 then throw ZeroCapacity else
  if (numerator =? 0) || (denominator =? 0) || (denominator <=? numerator) || (maximum =? 0)
     || (secret =? 0)
  then throw InvalidCoverage else
  put (mk (replicate N 0) 0 0 0 numerator denominator slack maximum secret 0) ;;
  seal.

Definition kernel_default (N : nat) (slack maximum secret : Z) : M t CalibrationFault unit :=
  new N DEFAULT_CONFORMAL_NUMERATOR DEFAULT_CONFORMAL_DENOMINATOR slack maximum secret.

Definition guard : M t CalibrationFault Z :=
  c ← get;
  if length c =? 0 then mret (Z.min (additive_slack c) (maximum_guard c)) else
  retained ← slice_to (residuals c) (length c);
  let sorted := merge_sort Z.le retained in
  numerator ← ok_or
    (value ← checked_add 64 (length c) 1; checked_mul 64 value (coverage_numerator c))
    ArithmeticOverflow;
  let denominator := coverage_denominator c in
  spare ← sub denominator 1;
  rounded ← ok_or (checked_add 64 numerator spare) ArithmeticOverflow;
  rank ← div rounded denominator;
  last ← sub (length c) 1;
  value ← index sorted (Z.min (saturating_sub rank 1) last);
  total ← ok_or (checked_add 64 value (additive_slack c)) ArithmeticOverflow;
  mret (Z.min total (maximum_guard c)).

Definition push (residual : Z) : M t CalibrationFault Z :=
  c ← get;
  let bounded := Z.min residual (maximum_guard c) in
  rs ← store (residuals c) (cursor c) bounded;
  next ← add 64 (cursor c) 1;
  cursor' ← rem next (capacity c);
  put (mk rs (Z.min (saturating_add 64 (length c) 1) (capacity c)) cursor'
         (saturating_add 64 (samples c) 1) (coverage_numerator c) (coverage_denominator c)
         (additive_slack c) (maximum_guard c) (secret c) (root c)) ;;
  seal ;;
  guard.

End Calibrator.

(** ** Certificates *)

Inductive AdmissionFault :=
| InvalidCurve | BacklogSaturated | ArrivalEnvelopeExceeded | DeadlineUnsafe | TimeRegression
| ArithmeticOverflow | StaleReservation | CorruptObservation.

Module Certificate.

Record t := mk {
  reservation_sequence : Z;
  admitted_tick : Z;
  window_start : Z;
  backlog_before : Z;
  admitted_before : Z;
  deterministic_delay_ticks : Z;
  uncertainty_guard_ticks : Z;
  drift_penalty_ticks : Z;
  delay_bound_ticks : Z;
  deadline_slack_ticks : Z;
  curve_root : Z;
  calibration_root : Z;
  certificate_root : Z;
}.

Definition EMPTY : t := mk 0 0 0 0 0 0 0 0 0 0 0 0 0.

Definition valid (c : t) : bool :=
  negb (reservation_sequence c =? 0) && negb (delay_bound_ticks c =? 0)
    && negb (curve_root c =? 0) && negb (calibration_root c =? 0)
    && negb (certificate_root c =? 0).

Definition with_root (r : Z) (c : t) : t :=
  mk (reservation_sequence c) (admitted_tick c) (window_start c) (backlog_before c)
    (admitted_before c) (deterministic_delay_ticks c) (uncertainty_guard_ticks c)
    (drift_penalty_ticks c) (delay_bound_ticks c) (deadline_slack_ticks c) (curve_root c)
    (calibration_root c) r.

End Certificate.

Definition admission_certificate_root (secret : Z) (c : Certificate.t) : Z :=
  let state := mix secret (Certificate.reservation_sequence c) in
  let state := mix state (Certificate.admitted_tick c) in
  let state := mix state (Certificate.window_start c) in
  let state := mix state (Z.lor (Certificate.backlog_before c)
    (Z.shiftl (Certificate.admitted_before c) 16)) in
  let state := mix state (Certificate.deterministic_delay_ticks c) in
  let state := mix state (Certificate.uncertainty_guard_ticks c) in
  let state := mix state (Certificate.drift_penalty_ticks c) in
  let state := mix state (Certificate.delay_bound_ticks c) in
  let state := mix state (Certificate.deadline_slack_ticks c) in
  let state := mix state (Certificate.curve_root c) in
  mix state (Certificate.calibration_root c).

(** ** The controller *)

Module Controller.

Record t := mk {
  curve : ServiceCurve.t;
  secret : Z;
  window_start : Z;
  last_tick : Z;
  admitted_in_window : Z;
  reservation_sequence : Z;
  accepted : Z;
  rejected : Z;
  observed : Z;
  virtual_backlog_q16 : Z;
  curve_root : Z;
  calibrator : Calibrator.t;
}.

Definition with_calibrator (x : Calibrator.t) (s : t) : t :=
  mk (curve s) (secret s) (window_start s) (last_tick s) (admitted_in_window s)
    (reservation_sequence s) (accepted s) (rejected s) (observed s) (virtual_backlog_q16 s)
    (curve_root s) x.
Definition with_window (start admitted : Z) (s : t) : t :=
  mk (curve s) (secret s) start (last_tick s) admitted (reservation_sequence s) (accepted s)
    (rejected s) (observed s) (virtual_backlog_q16 s) (curve_root s) (calibrator s).
Definition with_last_tick (x : Z) (s : t) : t :=
  mk (curve s) (secret s) (window_start s) x (admitted_in_window s) (reservation_sequence s)
    (accepted s) (rejected s) (observed s) (virtual_backlog_q16 s) (curve_root s) (calibrator s).
Definition with_backlog (x : Z) (s : t) : t :=
  mk (curve s) (secret s) (window_start s) (last_tick s) (admitted_in_window s)
    (reservation_sequence s) (accepted s) (rejected s) (observed s) x (curve_root s) (calibrator s).
Definition with_admission (admitted sequence accepted : Z) (s : t) : t :=
  mk (curve s) (secret s) (window_start s) (last_tick s) admitted sequence accepted (rejected s)
    (observed s) (virtual_backlog_q16 s) (curve_root s) (calibrator s).
Definition with_observed (x : Z) (s : t) : t :=
  mk (curve s) (secret s) (window_start s) (last_tick s) (admitted_in_window s)
    (reservation_sequence s) (accepted s) (rejected s) x (virtual_backlog_q16 s) (curve_root s)
    (calibrator s).

Definition reject_ (s : t) : t :=
  mk (curve s) (secret s) (window_start s) (last_tick s) (admitted_in_window s)
    (reservation_sequence s) (accepted s) (saturating_add 64 (rejected s) 1) (observed s)
    (virtual_backlog_q16 s) (curve_root s) (calibrator s).

(** [new] for the const parameter [N]: the calibrator is built first, then the
    controller around it, which is the state left behind. *)
Definition new (N : nat) (curve : ServiceCurve.t) (now_tick secret : Z) : M t AdmissionFault unit :=
  if negb (ServiceCurve.valid curve) || (secret =? 0) || (Z.of_nat N =? 0) then throw InvalidCurve else
  let curve_root := service_curve_root secret curve in
  if curve_root =? 0 then throw InvalidCurve else
  maximum_guard ← ok_or (checked_mul 64 (ServiceCurve.window_ticks curve)
    (ServiceCurve.maximum_backlog curve)) ArithmeticOverflow;
  match Calibrator.kernel_default N 1 (Z.max maximum_guard 1) (mix secret 0x43414c4942524154)
          (Calibrator.mk [] 0 0 0 0 0 0 0 0 0) with
  | Done _ calibrator => put (mk curve secret now_tick now_tick 0 0 0 0 0 0 curve_root calibrator)
  | Fail _ _ => throw InvalidCurve
  | Panic => panic
  end.

(** Any [Err] of the calibrator falls back to one window. *)
Definition uncertainty_guard_ticks {E} : M t E Z :=
  s ← get;
  r ← attempt (zoom calibrator with_calibrator Calibrator.guard);
  mret (match r with Ok g => g | Err _ => ServiceCurve.window_ticks (curve s) end).

Definition advance (now_tick : Z) : M t AdmissionFault unit :=
  s ← get;
  if (now_tick <? last_tick s) || (now_tick <? window_start s) then
    put (reject_ s) ;; throw TimeRegression
  else
  let elapsed := now_tick - window_start s in
  let window := ServiceCurve.window_ticks (curve s) in
  (if window <=? elapsed then
     windows ← div elapsed window;
     span ← ok_or (checked_mul 64 windows window) ArithmeticOverflow;
     start ← ok_or (checked_add 64 (window_start s) span) ArithmeticOverflow;
     put (with_window start 0 s) ;;
     service ← ok_or
       (value ← checked_mul 64 windows (ServiceCurve.minimum_completions_per_window (curve s));
        checked_mul 64 value Q16_ONE) ArithmeticOverflow;
     modify (λ s', with_backlog (saturating_sub (virtual_backlog_q16 s') service) s')
   else mret ()) ;;
  modify (with_last_tick now_tick).

Definition drift_penalty_ticks {E} : M t E Z :=
  s ← get;
  let jobs := Z.shiftr (virtual_backlog_q16 s) 16 in
  if jobs =? 0 then mret 0 else
  let service := ServiceCurve.minimum_completions_per_window (curve s) in
  spare ← sub service 1;
  windows ← div (saturating_add 64 jobs spare) service;
  mret (saturating_mul 64 windows (ServiceCurve.window_ticks (curve s))).

Definition verify_certificate (s : t) (c : Certificate.t) : bool :=
  Certificate.valid c && (Certificate.curve_root c =? curve_root s)
    && (Certificate.certificate_root c =? admission_certificate_root (secret s) c).

(** [u16::try_from]. *)
Definition to_u16 (x : Z) : option Z := if x <? 2 ^ 16 then Some x else None.

Definition admit_ (now_tick deadline_tick backlog_before : Z) :
    M t AdmissionFault Certificate.t :=
  advance now_tick ;;
  s ← get;
  if ServiceCurve.maximum_backlog (curve s) <=? backlog_before then
    put (reject_ s) ;; throw BacklogSaturated
  else if ServiceCurve.maximum_admissions_per_window (curve s) <=? admitted_in_window s then
    put (reject_ s) ;; throw ArrivalEnvelopeExceeded
  else
  deterministic ← ok_or (ServiceCurve.deterministic_delay (curve s) backlog_before) BacklogSaturated;
  uncertainty ← map_err (λ _, ArithmeticOverflow) (zoom calibrator with_calibrator Calibrator.guard);
  drift_penalty ← drift_penalty_ticks;
  delay ← ok_or (value ← checked_add 64 deterministic uncertainty; checked_add 64 value drift_penalty)
    ArithmeticOverflow;
  required_deadline ← ok_or (checked_add 64 now_tick delay) ArithmeticOverflow;
  if deadline_tick <? required_deadline then
    modify reject_ ;; throw DeadlineUnsafe
  else
  sequence ← ok_or (checked_add 64 (reservation_sequence s) 1) ArithmeticOverflow;
  let admitted_before := admitted_in_window s in
  admitted ← ok_or (checked_add 16 (admitted_in_window s) 1) ArithmeticOverflow;
  modify (with_admission admitted sequence (saturating_add 64 (accepted s) 1)) ;;
  modify (with_backlog (saturating_add 64 (virtual_backlog_q16 s) Q16_ONE)) ;;
  backlog ← ok_or (to_u16 backlog_before) BacklogSaturated;
  slack ← sub deadline_tick required_deadline;
  s' ← get;
  let certificate :=
    Certificate.mk sequence now_tick (window_start s') backlog admitted_before deterministic
      uncertainty drift_penalty delay slack (curve_root s') (Calibrator.root (calibrator s')) 0 in
  mret (Certificate.with_root (admission_certificate_root (secret s') certificate) certificate).

Definition rollback (c : Certificate.t) : M t AdmissionFault unit :=
  s ← get;
  if negb (verify_certificate s c)
     || negb (Certificate.window_start c =? window_start s)
     || negb (Certificate.reservation_sequence c =? reservation_sequence s)
     || negb (admitted_in_window s =? saturating_add 16 (Certificate.admitted_before c) 1)
  then throw StaleReservation else
  put (with_backlog (saturating_sub (virtual_backlog_q16 s) Q16_ONE)
         (with_admission (Certificate.admitted_before c) (reservation_sequence s)
            (saturating_sub (accepted s) 1) s)).

Definition observe_completion (c : Certificate.t) (completion_tick : Z) : M t AdmissionFault Z :=
  s ← get;
  if negb (verify_certificate s c) || (completion_tick <? Certificate.admitted_tick c)
  then throw CorruptObservation else
  advance completion_tick ;;
  let observed_delay := completion_tick - Certificate.admitted_tick c in
  predicted ← ok_or (checked_add 64 (Certificate.deterministic_delay_ticks c)
    (Certificate.drift_penalty_ticks c)) ArithmeticOverflow;
  let residual := saturating_sub observed_delay predicted in
  guard ← map_err (λ _, CorruptObservation)
    (zoom calibrator with_calibrator (Calibrator.push residual));
  modify (λ s, with_backlog (saturating_sub (virtual_backlog_q16 s) Q16_ONE) s) ;;
  (if Certificate.delay_bound_ticks c <? observed_delay then
     let excess := observed_delay - Certificate.delay_bound_ticks c in
     let pressure := default (MAX 64)
       (value ← checked_mul 64 excess Q16_ONE;
        checked_div value (ServiceCurve.window_ticks (curve s))) in
     modify (λ s, with_backlog (saturating_add 64 (virtual_backlog_q16 s) pressure) s)
   else mret ()) ;;
  modify (λ s, with_observed (saturating_add 64 (observed s) 1) s) ;;
  mret guard.

End Controller.

(** ** The certificate hash *)

Module MixingFacts.

(** A right shift xored in is injective: the high bits are untouched, and each
    bit is recovered from the ones above it. *)
Lemma xorshift_inj k x y :
  0 < k → u64 x → u64 y → Z.lxor x (Z.shiftr x k) = Z.lxor y (Z.shiftr y k) → x = y.
Proof.
  intros Hk Hx Hy Heq. apply Z.bits_inj'. intros n Hn.
  remember (Z.to_nat (64 - n)) as m eqn:Hm. revert n Hn Hm.
  induction m as [m IH] using lt_wf_ind. intros n Hn Hm.
  destruct (Z.le_gt_cases 64 n) as [Hge|Hlt].
  { by rewrite !(testbit_out_of_width 64). }
  assert (Hup : Z.testbit x (n + k) = Z.testbit y (n + k))
    by (apply (IH (Z.to_nat (64 - (n + k)))); lia).
  pose proof (f_equal (λ z, Z.testbit z n) Heq) as Hbit. cbv beta in Hbit.
  rewrite !Z.lxor_spec, !Z.shiftr_spec, Hup in Hbit by done.
  by destruct (Z.testbit x n), (Z.testbit y n), (Z.testbit y (n + k)).
Qed.

(** Multiplication by a number with an inverse modulo [2^64] is injective. *)
Lemma wrapping_mul_inj a b x y :
  wrap 64 (a * b) = 1 → u64 x → u64 y → wrapping_mul 64 x a = wrapping_mul 64 y a → x = y.
Proof.
  intros Hab Hx Hy Heq.
  assert (Hinv : ∀ z, u64 z → wrap 64 (wrapping_mul 64 z a * b) = z).
  { intros z Hz. unfold wrapping_mul, wrap in *.
    rewrite Zmult_mod_idemp_l, <- Z.mul_assoc, <- Zmult_mod_idemp_r, Hab, Z.mul_1_r.
    by apply Z.mod_small. }
  by rewrite <- (Hinv x Hx), Heq, Hinv.
Qed.

Lemma in_width_wrapping_mul x a : u64 (wrapping_mul 64 x a).
Proof. by apply in_width_wrap. Qed.
Lemma in_width_xorshift k x : 0 <= k → u64 x → u64 (Z.lxor x (Z.shiftr x k)).
Proof.
  intros Hk Hx. apply in_width_lxor; [done| |done]. destruct Hx as [H0 H1].
  rewrite Z.shiftr_div_pow2 by done. pose proof (Z.pow_pos_nonneg 2 k ltac:(lia) Hk).
  split; [by apply Z.div_pos|]. eapply Z.le_lt_trans; [|exact H1]. by apply Z.div_le_upper_bound; nia.
Qed.

(** Everything after the first xor. *)
Definition scramble (x : Z) : Z :=
  let x := Z.lxor x (Z.shiftr x 30) in
  let x := wrapping_mul 64 x 0xbf58476d1ce4e5b9 in
  let x := Z.lxor x (Z.shiftr x 27) in
  let x := wrapping_mul 64 x 0x94d049bb133111eb in
  Z.lxor x (Z.shiftr x 31).

Lemma scramble_inj x y : u64 x → u64 y → scramble x = scramble y → x = y.
Proof.
  intros Hx Hy Heq. unfold scramble in Heq.
  apply xorshift_inj in Heq; [|done|apply in_width_wrapping_mul..].
  apply (wrapping_mul_inj _ 0x319642b2d24d8ec3) in Heq;
    [|done|apply in_width_xorshift; [done|apply in_width_wrapping_mul]..].
  apply xorshift_inj in Heq; [|done|apply in_width_wrapping_mul..].
  apply (wrapping_mul_inj _ 0x96de1b173f119089) in Heq; [|done|by apply in_width_xorshift..].
  by apply xorshift_inj in Heq.
Qed.

Lemma in_width_scramble x : u64 (scramble x).
Proof. apply in_width_xorshift; [done|]. apply in_width_wrapping_mul. Qed.

Lemma mix_scramble s w : mix s w = scramble (Z.lxor s (wrapping_mul 64 w 0x9e3779b97f4a7c15)).
Proof. reflexivity. Qed.

Lemma in_width_mix s w : u64 (mix s w).
Proof. rewrite mix_scramble. apply in_width_scramble. Qed.

Lemma mix_inj_state s s' w : u64 s → u64 s' → mix s w = mix s' w → s = s'.
Proof.
  intros Hs Hs' Heq. rewrite !mix_scramble in Heq.
  apply scramble_inj in Heq; [|apply in_width_lxor; [done|apply in_width_wrapping_mul|done]..].
  apply (f_equal (λ z, Z.lxor z (wrapping_mul 64 w 0x9e3779b97f4a7c15))) in Heq.
  by rewrite !Z.lxor_assoc, !Z.lxor_nilpotent, !Z.lxor_0_r in Heq.
Qed.

Lemma mix_inj_word s w w' : u64 s → u64 w → u64 w' → mix s w = mix s w' → w = w'.
Proof.
  intros Hs Hw Hw' Heq. rewrite !mix_scramble in Heq.
  apply scramble_inj in Heq; [|apply in_width_lxor; [done|apply in_width_wrapping_mul|done]..].
  apply (f_equal (Z.lxor s)) in Heq.
  rewrite <- !Z.lxor_assoc, !Z.lxor_nilpotent, !Z.lxor_0_l in Heq.
  by apply (wrapping_mul_inj _ 0xf1de83e19937733d) in Heq.
Qed.

(** Two inputs of the same length that differ in one word give different
    digests. *)
Lemma absorb_inj_state ws s s' : u64 s → u64 s' → absorb s ws = absorb s' ws → s = s'.
Proof.
  revert s s'. induction ws as [|w ws IH]; intros s s' Hs Hs' Heq; [done|]. simpl in Heq.
  apply IH in Heq; [by eapply mix_inj_state|apply in_width_mix..].
Qed.

Lemma absorb_inj_word s pre w w' post :
  u64 s → u64 w → u64 w' → absorb s (pre ++ w :: post) = absorb s (pre ++ w' :: post) → w = w'.
Proof.
  intros Hs Hw Hw' Heq. unfold absorb in Heq. rewrite !fold_left_app in Heq. simpl in Heq.
  fold (absorb s pre) in Heq. assert (Hp : u64 (absorb s pre)).
  { clear -Hs. revert s Hs. induction pre as [|x pre IH]; intros s Hs; [done|]. apply IH, in_width_mix. }
  fold (absorb (mix (absorb s pre) w) post) in Heq. fold (absorb (mix (absorb s pre) w') post) in Heq.
  apply absorb_inj_state in Heq; [|apply in_width_mix..]. by eapply mix_inj_word.
Qed.

End MixingFacts.
