(* ===== verification/CalibratorFacts.v ===== *)
(** * The residual calibrator against its specification

    The ring of [Calibrator] keeps the last [N] residuals, and its guard is a
    conformal order statistic of them: [ring] relates the fixed array to that
    window, and [conformal] states the statistic by counting. *)
From stdpp Require Import sorting.
From S2P Require Import Prelude ServiceCalculus.

Module CalibratorFacts.
Import Mixing Calibrator.

(** ** Counting in sorted lists *)

Lemma count_Permutation {A} (p : A → bool) l k : l ≡ₚ k → count p l = count p k.
Proof.
  induction 1 as [|x l k _ IH|x y l|l k m _ IH1 _ IH2]; rewrite ?count_cons; lia.
Qed.

Lemma count_all {A} (p : A → bool) l : (∀ x, x ∈ l → p x = true) → count p l = Z.of_nat (List.length l).
Proof.
  induction l as [|x l IH]; intros H; [done|]. rewrite count_cons, (H x) by left. simpl.
  rewrite IH; [lia|]. intros y ?. apply H. by right.
Qed.

(** The element at index [i] of a sorted list has more than [i] elements at or
    below it and at most [i] strictly below. *)
Lemma sorted_rank l i q :
  StronglySorted Z.le l → l !! i = Some q →
  Z.of_nat i + 1 <= count (λ r, r <=? q) l ∧ count (λ r, r <? q) l <= Z.of_nat i.
Proof.
  intros Hsort Hi. pose proof (lookup_lt_Some _ _ _ Hi).
  rewrite <- (take_drop_middle l i q Hi) in Hsort |- *.
  assert (Hlow : ∀ x, x ∈ take i l → x <= q).
  { intros x Hx. revert Hsort Hx. generalize (drop (S i) l). induction (take i l) as [|y t IH]; intros d Hs Hx.
    - inversion Hx.
    - simpl in Hs. apply StronglySorted_inv in Hs as [Hs Hy].
      apply elem_of_cons in Hx as [->|Hx]; [|by eapply IH].
      rewrite Forall_forall in Hy. apply Hy. apply elem_of_app. right. left. }
  assert (Hhigh : ∀ x, x ∈ drop (S i) l → q <= x).
  { revert Hsort. clear. generalize (drop (S i) l). induction (take i l) as [|y t IH]; intros d Hs.
    - simpl in Hs. apply StronglySorted_inv in Hs as [_ Hy]. by rewrite Forall_forall in Hy.
    - simpl in Hs. apply StronglySorted_inv in Hs as [Hs _]. by apply IH. }
  rewrite !count_app, !count_cons, Z.leb_refl, Z.ltb_irrefl.
  rewrite (count_all _ (take i l)) by (intros x ?%Hlow; by apply Z.leb_le).
  rewrite (proj2 (count_zero (λ r, r <? q) (drop (S i) l))) by (intros x ?%Hhigh; by apply Z.ltb_ge).
  rewrite length_take. pose proof (count_bounds (λ r, r <=? q) (drop (S i) l)).
  pose proof (count_bounds (λ r, r <? q) (take i l)). rewrite length_take in *. lia.
Qed.

(** ** The specification *)

(** [q] is the [k]-th smallest element. *)
Definition order_statistic (w : list Z) (k q : Z) : Prop :=
  q ∈ w ∧ k <= count (λ r, r <=? q) w ∧ count (λ r, r <? q) w < k.

Lemma order_statistic_unique w k q q' : order_statistic w k q → order_statistic w k q' → q = q'.
Proof.
  assert (Hmono : ∀ a b, a < b → count (λ r, r <=? a) w <= count (λ r, r <? b) w).
  { intros a b Hab. clear -Hab. induction w as [|x w IH]; [done|]. rewrite !count_cons.
    destruct (Z.leb_spec x a), (Z.ltb_spec x b); lia. }
  intros (_ & H1 & H2) (_ & H3 & H4). destruct (Z.lt_trichotomy q q') as [Hlt|[->|Hlt]]; [|done|].
  - specialize (Hmono _ _ Hlt). lia.
  - specialize (Hmono _ _ Hlt). lia.
Qed.

(** The rank the conformal guarantee asks of [n] residuals, never past the last. *)
Definition conformal_rank (c : t) (n : Z) : Z :=
  Z.min (((n + 1) * coverage_numerator c + (coverage_denominator c - 1)) / coverage_denominator c) n.

(** The guard for the window [w]. *)
Definition conformal (c : t) (w : list Z) (r : result Z CalibrationFault) : Prop :=
  (w = [] → r = Ok (Z.min (additive_slack c) (maximum_guard c))) ∧
  (w ≠ [] → ∃ q, order_statistic w (conformal_rank c (Z.of_nat (List.length w))) q ∧
     r = if q + additive_slack c <? 2 ^ 64
         then Ok (Z.min (q + additive_slack c) (maximum_guard c)) else Err ArithmeticOverflow).

(** The ring holds the window [w]: the newest part [b] before the cursor, the
    older part [a] from the cursor on, and unused cells only while not full. *)
Record ring (c : t) (w : list Z) : Prop := {
  ri_parts : ∃ a b pad, residuals c = b ++ a ++ pad ∧ w = a ++ b ∧
    cursor c = Z.of_nat (List.length b) ∧ (a = [] ∨ pad = []) ∧ a ++ pad ≠ [];
  ri_length : length c = Z.of_nat (List.length w);
  ri_capacity : 0 < capacity c < 2 ^ 55;
  ri_coverage : 0 < coverage_numerator c < coverage_denominator c;
  ri_width : coverage_denominator c < 2 ^ 8;
  ri_guard : 0 <= maximum_guard c < 2 ^ 64;
  ri_slack : 0 <= additive_slack c;
}.

Lemma ring_window c w : ring c w → take (Z.to_nat (length c)) (residuals c) ≡ₚ w.
Proof.
  intros []. destruct ri_parts0 as (a & b & pad & -> & -> & _ & Hpad & _).
  rewrite ri_length0, Nat2Z.id, length_app. destruct Hpad as [->| ->].
  - simpl. by rewrite take_app_length.
  - rewrite app_nil_r, firstn_all2 by (rewrite length_app; lia). apply Permutation_app_comm.
Qed.

Lemma ring_bound c w : ring c w → Z.of_nat (List.length w) <= capacity c.
Proof.
  intros []. destruct ri_parts0 as (a & b & pad & Hr & -> & _). unfold capacity. rewrite Hr.
  rewrite !length_app. lia.
Qed.

Lemma rank_bounds c n :
  0 < coverage_numerator c < coverage_denominator c → 0 < n → 1 <= conformal_rank c n <= n.
Proof.
  intros Hc Hn. unfold conformal_rank. split; [|lia]. apply Z.min_glb; [|lia].
  apply Z.div_le_lower_bound; nia.
Qed.

Lemma guard_ok c w :
  ring c w →
  wp guard (λ g c', c' = c ∧ conformal c w (Ok g)) (λ e c', c' = c ∧ conformal c w (Err e)) c.
Proof.
  intros Hr. pose proof (ring_window c w Hr) as Hperm. pose proof (ring_bound c w Hr) as Hb.
  destruct Hr as [_ Hlen Hcap Hcov Hden Hg Hs]. unfold guard. wp_simpl. rewrite Hlen in *.
  destruct (decide (w = [])) as [->|Hne]; [by wp_simpl|].
  assert (Hn : 0 < Z.of_nat (List.length w)) by (destruct w; [done|simpl; lia]).
  destruct (Z.eqb_spec (Z.of_nat (List.length w)) 0) as [?|_]; [lia|]. wp_simpl.
  apply wp_slice_to; [unfold capacity in Hb; lia|]. wp_simpl. rewrite Nat2Z.id in *.
  set (sorted := merge_sort Z.le _).
  assert (Hsp : sorted ≡ₚ w) by (unfold sorted; rewrite merge_sort_Permutation; done).
  assert (Hss : StronglySorted Z.le sorted) by (apply StronglySorted_merge_sort; apply _).
  unfold checked_add at 1. unfold capacity in *.
  destruct (Z.ltb_spec (Z.of_nat (List.length w) + 1) (2 ^ 64)); [|lia]. cbn [mbind option_bind].
  set (n := Z.of_nat (List.length w)) in *. unfold checked_mul.
  assert (Hnum : (n + 1) * coverage_numerator c < 2 ^ 63) by nia.
  destruct (Z.ltb_spec ((n + 1) * coverage_numerator c) (2 ^ 64)); [|lia]. wp_simpl.
  apply wp_sub; [lia|]. wp_simpl. unfold checked_add at 1.
  destruct (Z.ltb_spec ((n + 1) * coverage_numerator c + (coverage_denominator c - 1)) (2 ^ 64)); [|lia].
  wp_simpl. apply wp_div; [lia|]. wp_simpl. apply wp_sub; [lia|]. wp_simpl.
  pose proof (rank_bounds c n Hcov Hn) as Hrank. unfold conformal_rank in Hrank.
  set (rank := ((n + 1) * coverage_numerator c + (coverage_denominator c - 1)) / coverage_denominator c) in *.
  assert (Hidx : Z.min (saturating_sub rank 1) (n - 1) = conformal_rank c n - 1).
  { unfold conformal_rank, saturating_sub. fold rank. lia. }
  rewrite Hidx. assert (Hls : List.length sorted = List.length w) by (by apply Permutation_length).
  destruct (lookup_lt_is_Some_2 sorted (Z.to_nat (conformal_rank c n - 1))) as [q Hq];
    [unfold conformal_rank; fold rank; lia|].
  apply (wp_index _ _ q); [unfold conformal_rank; fold rank; lia|done|]. wp_simpl.
  assert (Hos : order_statistic w (conformal_rank c n) q).
  { destruct (sorted_rank _ _ _ Hss Hq) as [Hge Hlt]. rewrite !(count_Permutation _ _ _ Hsp) in *.
    split; [rewrite <- Hsp; by eapply list_elem_of_lookup_2|].
    unfold conformal_rank in Hge, Hlt |- *. fold rank in Hge, Hlt |- *. lia. }
  unfold checked_add. destruct (q + additive_slack c <? 2 ^ 64) eqn:Ho; wp_simpl;
    (split; [done|]); (split; [done|]); intros _; exists q; rewrite Ho; done.
Qed.

(** ** The sliding window *)

(** The last [n] of a history. *)
Definition last_n (n : nat) (h : list Z) : list Z := drop (List.length h - n) h.

Lemma last_n_snoc n h x :
  (0 < n)%nat → last_n n (h ++ [x]) =
    (if decide (List.length (last_n n h) < n)%nat then last_n n h else tail (last_n n h)) ++ [x].
Proof.
  intros Hn. unfold last_n. rewrite length_app. simpl. rewrite length_drop.
  case_decide as Hlt.
  - replace (List.length h + 1 - n)%nat with 0%nat by lia.
    replace (List.length h - n)%nat with 0%nat by lia. done.
  - assert (List.length h >= n)%nat by lia.
    replace (List.length h + 1 - n)%nat with (S (List.length h - n)) by lia.
    rewrite drop_app_le by lia. f_equal.
    destruct (drop (List.length h - n) h) as [|y l] eqn:Hd.
    + apply (f_equal List.length) in Hd. rewrite length_drop in Hd. simpl in Hd. lia.
    + simpl. rewrite <- Nat.add_1_r, <- drop_drop, Hd. done.
Qed.

(** What a push does to the window. *)
Definition slide (c : t) (w : list Z) (x : Z) : list Z :=
  (if decide (Z.of_nat (List.length w) < capacity c) then w else tail w) ++ [x].

(** The fields a push leaves alone. *)
Definition same_policy (c c' : t) : Prop :=
  coverage_numerator c' = coverage_numerator c ∧ coverage_denominator c' = coverage_denominator c ∧
  additive_slack c' = additive_slack c ∧ maximum_guard c' = maximum_guard c ∧
  secret c' = secret c ∧ capacity c' = capacity c.

(** The calibrator before it is sealed again. *)
Definition pushed (c : t) (x : Z) : t :=
  mk (<[Z.to_nat (cursor c) := x]> (residuals c)) (Z.min (length c + 1) (capacity c))
    ((cursor c + 1) mod capacity c) (saturating_add 64 (samples c) 1) (coverage_numerator c)
    (coverage_denominator c) (additive_slack c) (maximum_guard c) (secret c) (root c).

Lemma ring_cursor c w : ring c w → 0 <= cursor c < capacity c.
Proof.
  intros []. destruct ri_parts0 as (a & b & pad & Hr & _ & -> & _ & Hne). unfold capacity.
  rewrite Hr, length_app. destruct (a ++ pad) eqn:Happ; [done|]. simpl. lia.
Qed.

Lemma pushed_ring c w x : ring c w → ring (pushed c x) (slide c w x).
Proof.
  intros Hr. pose proof (ring_bound c w Hr) as Hb. destruct Hr as [Hparts Hlen Hcap Hcov Hden Hg Hs].
  destruct Hparts as (a & b & pad & Hres & Hw & Hcur & Hpad & Hne).
  assert (Hcap' : capacity (pushed c x) = capacity c) by (unfold capacity; simpl; by rewrite length_insert).
  assert (HN : capacity c = Z.of_nat (List.length b + List.length (a ++ pad)))
    by (unfold capacity; rewrite Hres, length_app; lia).
  split; try done; [..|by rewrite Hcap'].
  - (* the cells *)
    destruct (a ++ pad) as [|y rest] eqn:Happ; [done|]. simpl in HN.
    assert (Hins : residuals (pushed c x) = (b ++ [x]) ++ rest).
    { simpl. rewrite Hres, Hcur, Nat2Z.id, <- app_assoc.
      rewrite insert_app_r_alt, Nat.sub_diag by lia. done. }
    assert (Hwin : ∃ a' pad', rest = a' ++ pad' ∧ (a' = [] ∨ pad' = []) ∧ slide c w x = a' ++ b ++ [x]).
    { unfold slide. destruct a as [|y' a'].
      - simpl in Happ, Hw. subst. exists [], rest. split; [done|]. split; [by left|].
        rewrite decide_True by lia. done.
      - simpl in Happ. injection Happ as <- <-. destruct Hpad as [|Hp0]; [done|]. subst pad.
        exists a', []. split; [done|]. split; [by right|]. subst w.
        rewrite decide_False; [simpl; by rewrite <- app_assoc|].
        rewrite !length_app in *. simpl in *. lia. }
    destruct Hwin as (a' & pad' & Hrest & Hor & Hsl). destruct rest as [|z rest'] eqn:Hz.
    + (* the cursor wraps *)
      exists (b ++ [x]), [], []. symmetry in Hrest. apply app_eq_nil in Hrest as [-> ->].
      rewrite Hins, Hsl, !app_nil_r. split; [done|]. split; [done|].
      split; [|by split; [right|destruct b]]. simpl. rewrite HN, Hcur. simpl.
      replace (Z.of_nat (List.length b) + 1) with (Z.of_nat (List.length b + 1)) by lia. by apply Z_mod_same_full.
    + exists a', (b ++ [x]), pad'. rewrite <- Hrest. split; [by rewrite Hins|]. split; [done|].
      split; [|by split]. simpl. rewrite Hcur, Z.mod_small by (rewrite HN; simpl; lia).
      rewrite length_app. simpl. lia.
  - simpl. unfold slide. rewrite Hlen. case_decide; rewrite length_app; simpl; [lia|].
    destruct w as [|y w']; simpl in *; lia.
Qed.

(** The digest as a pure function, and a calibrator whose root is current. *)
Definition digest (c : t) : Z :=
  absorb (mix (mix (mix (mix (mix (mix (secret c) (samples c)) (length c)) (cursor c))
    (Z.lor (coverage_numerator c) (Z.shiftl (coverage_denominator c) 8))) (additive_slack c))
    (maximum_guard c)) (take (Z.to_nat (length c)) (residuals c)).
Definition sealed (c : t) : Prop := root c = digest c.

Lemma wp_calibrator_root {E} (c : t) w (Q : Z → t → Prop) (R : E → t → Prop) s :
  ring c w → Q (digest c) s → wp (calibrator_root c) Q R s.
Proof.
  intros Hr HQ. unfold calibrator_root. wp_simpl.
  pose proof (ring_bound c w Hr). pose proof (ri_length _ _ Hr). unfold capacity in *.
  apply wp_slice_to; [lia|]. by wp_simpl.
Qed.

Lemma wp_seal {E} (c : t) w (Q : unit → t → Prop) (R : E → t → Prop) :
  ring c w → Q () (with_root (digest c) c) → wp seal Q R c.
Proof. intros Hr HQ. unfold seal. wp_simpl. eapply wp_calibrator_root; [done|]. by wp_simpl. Qed.

Lemma with_root_ring r c w : ring c w → ring (with_root r c) w.
Proof. by intros []. Qed.

Lemma sealed_with_root c : sealed (with_root (digest c) c).
Proof. unfold sealed, digest. reflexivity. Qed.

(** A push slides the window over the bounded residual and answers the guard of
    the new window. *)
Definition push_spec (c : t) (w : list Z) (x : Z) (r : result Z CalibrationFault) (c' : t) : Prop :=
  let w' := slide c w (Z.min x (maximum_guard c)) in
  ring c' w' ∧ same_policy c c' ∧ sealed c' ∧ conformal c w' r.

Lemma conformal_policy c c' w r : same_policy c c' → conformal c' w r → conformal c w r.
Proof. intros (H1 & H2 & H3 & H4 & _). unfold conformal, conformal_rank. by rewrite H1, H2, H3, H4. Qed.

Lemma calibrator_push_ok c w x :
  ring c w →
  wp (push x) (λ g, push_spec c w x (Ok g)) (λ e, push_spec c w x (Err e)) c.
Proof.
  intros Hr. pose proof (ring_cursor c w Hr). pose proof (ri_capacity _ _ Hr).
  pose proof (ring_bound c w Hr). pose proof (ri_length _ _ Hr).
  unfold push. wp_simpl. apply wp_store; [done|]. wp_simpl. apply wp_add; [lia|]. wp_simpl.
  apply wp_rem; [lia|]. wp_simpl.
  replace (saturating_add 64 (length c) 1) with (length c + 1)
    by (unfold saturating_add, MAX; lia).
  fold (pushed c (Z.min x (maximum_guard c))). set (y := Z.min x _).
  pose proof (pushed_ring c w y Hr) as Hp. eapply wp_seal; [done|].
  set (c' := with_root _ _). assert (Hr' : ring c' (slide c w y)) by by apply with_root_ring.
  assert (Hsame : same_policy c c').
  { do 5 (split; [done|]). unfold capacity. simpl. by rewrite length_insert. }
  eapply wp_mono; [apply (guard_ok c' _ Hr')|..]; simpl.
  all: intros r c'' (-> & Hc); split; [done|]; split; [done|]; split; [done|].
  all: by apply (conformal_policy c c').
Qed.

(** A new calibrator is empty, sealed and keeps the policy it was given; what is
    refused is a capacity of zero or a coverage outside the open unit interval. *)
Definition created (N : nat) (num den slack max sec : Z) (c : t) : Prop :=
  ring c [] ∧ sealed c ∧ capacity c = Z.of_nat N ∧ coverage_numerator c = num ∧
  coverage_denominator c = den ∧ additive_slack c = slack ∧ maximum_guard c = max ∧ secret c = sec.

Lemma calibrator_new_ok N num den slack max sec c0 :
  Z.of_nat N < 2 ^ 55 → u8 num → u8 den → u64 slack → u64 max →
  wp (new N num den slack max sec)
    (λ _ c, (0 < N)%nat ∧ 0 < num < den ∧ created N num den slack max sec c)
    (λ e c, c = c0 ∧ (e = ZeroCapacity ∧ N = 0%nat ∨ e = InvalidCoverage ∧
       (num = 0 ∨ den <= num ∨ max = 0 ∨ sec = 0))) c0.
Proof.
  intros HN [Hn0 Hn1] [Hd0 Hd1] [Hs0 Hs1] [Hm0 Hm1]. unfold new.
  destruct (Z.eqb_spec (Z.of_nat N) 0); [wp_simpl; split; [done|left; split; [done|lia]]|].
  destruct (_ || _) eqn:Hbad; wp_simpl.
  { split; [done|]. right. split; [done|].
    repeat (apply orb_true_iff in Hbad as [Hbad|Hbad]); bool_to_prop; lia. }
  bool_to_prop.
  set (c := mk (replicate N 0) 0 0 0 num den slack max sec 0).
  assert (Hc : capacity c = Z.of_nat N) by (unfold capacity; simpl; by rewrite length_replicate).
  assert (Hr : ring c []).
  { split; try done; cbn [coverage_numerator coverage_denominator maximum_guard additive_slack c];
      rewrite ?Hc; try lia.
    exists [], [], (replicate N 0). do 3 (split; [done|]). split; [by left|]. destruct N; [lia|done]. }
  eapply wp_seal; [done|]. split; [lia|]. split; [lia|]. split; [by apply with_root_ring|].
  split; [apply sealed_with_root|]. done.
Qed.

End CalibratorFacts.
