(* ===== verification/ServiceFacts.v ===== *)
(** * What each operation of the service controller does

    The invariant of [Controller], and an exact description of [advance],
    [admit], [rollback] and [observe_completion] on every path. *)
From stdpp Require Import sorting.
From S2P Require Import Prelude ServiceCalculus CalibratorFacts.

Module ServiceFacts.
Import Mixing MixingFacts CalibratorFacts Controller.

(** ** The invariant *)

Record curve_ok (c : ServiceCurve.t) : Prop := {
  cu_valid : ServiceCurve.valid c = true;
  cu_completions : u16 (ServiceCurve.minimum_completions_per_window c);
  cu_admissions : u16 (ServiceCurve.maximum_admissions_per_window c);
  cu_window : u64 (ServiceCurve.window_ticks c);
  cu_latency : u64 (ServiceCurve.latency_ticks c);
  cu_backlog : u16 (ServiceCurve.maximum_backlog c);
}.

(** [w] is the window of residuals the calibrator holds. *)
Record controller_ok (s : t) (w : list Z) : Prop := {
  ok_curve : curve_ok (curve s);
  ok_window : 0 <= window_start s;
  ok_last : last_tick s < window_start s + ServiceCurve.window_ticks (curve s);
  ok_envelope : 0 <= admitted_in_window s <= ServiceCurve.maximum_admissions_per_window (curve s);
  ok_sequence : u64 (reservation_sequence s);
  ok_backlog : u64 (virtual_backlog_q16 s);
  ok_ring : ring (calibrator s) w;
  ok_sealed : sealed (calibrator s);
}.

Lemma curve_positive c :
  curve_ok c → 0 < ServiceCurve.minimum_completions_per_window c ∧
    0 < ServiceCurve.maximum_admissions_per_window c ∧ 0 < ServiceCurve.window_ticks c ∧
    0 < ServiceCurve.maximum_backlog c.
Proof.
  intros [Hv Hc Ha Hw _ Hb]. unfold ServiceCurve.valid in Hv. bool_to_prop.
  destruct Hc, Ha, Hw, Hb. lia.
Qed.

Lemma saturating_sub_u64 x y : u64 x → 0 <= y → u64 (saturating_sub x y).
Proof. unfold in_width, saturating_sub. lia. Qed.
Lemma saturating_add_u64 x y : u64 x → 0 <= y → u64 (saturating_add 64 x y).
Proof. unfold in_width, saturating_add, MAX. lia. Qed.

(** ** The clock *)

(** The whole windows that end by [now], and the state once they are over. *)
Definition windows_passed (now : Z) (s : t) : Z :=
  (now - window_start s) / ServiceCurve.window_ticks (curve s).
Definition next_window (now : Z) (s : t) : t :=
  with_window (window_start s + windows_passed now s * ServiceCurve.window_ticks (curve s)) 0 s.
Definition service_q16 (now : Z) (s : t) : Z :=
  windows_passed now s * ServiceCurve.minimum_completions_per_window (curve s) * Q16_ONE.

(** The state at [now]. *)
Definition at_tick (now : Z) (s : t) : t :=
  with_last_tick now
    (if ServiceCurve.window_ticks (curve s) <=? now - window_start s
     then with_backlog (saturating_sub (virtual_backlog_q16 s) (service_q16 now s)) (next_window now s)
     else s).

(** How [advance] fails: a clock that runs backwards is counted, and a service
    credit that overflows is noticed only once the window has moved. *)
Definition clock_refused (now : Z) (s : t) (e : AdmissionFault) (s' : t) : Prop :=
  e = TimeRegression ∧ s' = reject_ s ∧ (now < last_tick s ∨ now < window_start s) ∨
  e = ArithmeticOverflow ∧ s' = next_window now s ∧ last_tick s <= now ∧
    ServiceCurve.window_ticks (curve s) <= now - window_start s ∧ 2 ^ 64 <= service_q16 now s.

Lemma windows_passed_bounds now s w :
  controller_ok s w → window_start s <= now →
  0 <= windows_passed now s ∧
  window_start s + windows_passed now s * ServiceCurve.window_ticks (curve s) <= now
    < window_start s + windows_passed now s * ServiceCurve.window_ticks (curve s)
      + ServiceCurve.window_ticks (curve s).
Proof.
  intros Hok Hle. destruct (curve_positive _ (ok_curve _ _ Hok)) as (_ & _ & Hw & _).
  unfold windows_passed. pose proof (Z.div_mod (now - window_start s) (ServiceCurve.window_ticks (curve s))).
  pose proof (Z.mod_pos_bound (now - window_start s) (ServiceCurve.window_ticks (curve s)) Hw).
  split; [apply Z.div_pos; lia|]. lia.
Qed.

Lemma reject_ok s w : controller_ok s w → controller_ok (reject_ s) w.
Proof. by intros []. Qed.

Lemma next_window_ok now s w :
  controller_ok s w → window_start s <= now → last_tick s <= now → controller_ok (next_window now s) w.
Proof.
  intros Hok Hle Hlast. pose proof (windows_passed_bounds now s w Hok Hle) as (Hk & Hlo & Hhi).
  pose proof (curve_positive _ (ok_curve _ _ Hok)) as (_ & ? & ? & _).
  destruct Hok. split; simpl; try done; [nia|lia|lia].
Qed.

Lemma at_tick_ok now s w :
  controller_ok s w → window_start s <= now → last_tick s <= now → controller_ok (at_tick now s) w.
Proof.
  intros Hok Hle Hlast. pose proof (windows_passed_bounds now s w Hok Hle) as (Hk & Hlo & Hhi).
  pose proof (next_window_ok now s w Hok Hle Hlast) as Hnext. unfold at_tick.
  pose proof (curve_positive _ (ok_curve _ _ Hok)) as (? & _).
  destruct (Z.leb_spec (ServiceCurve.window_ticks (curve s)) (now - window_start s)).
  - assert (0 <= service_q16 now s) by (unfold service_q16; apply Z.mul_nonneg_nonneg; [nia|done]).
    destruct Hok, Hnext. split; cbn in *; try done. by apply saturating_sub_u64.
  - destruct Hok. split; cbn in *; try done. lia.
Qed.

Lemma advance_ok now s w :
  controller_ok s w → u64 now →
  wp (advance now) (λ _ s', s' = at_tick now s ∧ last_tick s <= now ∧ window_start s <= now)
    (clock_refused now s) s.
Proof.
  intros Hok [_ Hnow]. pose proof (windows_passed_bounds now s w Hok) as Hb.
  pose proof (curve_positive _ (ok_curve _ _ Hok)) as (Hc & _ & Hw & _).
  unfold advance. wp_simpl. destruct (Z.ltb_spec now (last_tick s)); wp_simpl; [left; auto|].
  destruct (Z.ltb_spec now (window_start s)); wp_simpl; [left; auto|]. specialize (Hb ltac:(done)).
  unfold at_tick, clock_refused, service_q16. cbn [orb]. cbv zeta. wp_simpl.
  destruct (Z.leb_spec (ServiceCurve.window_ticks (curve s)) (now - window_start s)) as [Hge|]; wp_simpl; [|done].
  apply wp_div; [lia|]. fold (windows_passed now s). wp_simpl.
  pose proof (ok_window _ _ Hok). unfold checked_mul at 1, checked_add.
  rewrite (proj2 (Z.ltb_lt (windows_passed now s * _) _)) by nia. wp_simpl.
  rewrite (proj2 (Z.ltb_lt (window_start s + _) _)) by lia. wp_simpl.
  fold (next_window now s). unfold checked_mul. set (k := windows_passed now s) in *.
  set (m := ServiceCurve.minimum_completions_per_window (curve s)) in *.
  assert (HQ : Q16_ONE = 65536) by done.
  destruct (Z.ltb_spec (k * m) (2 ^ 64)); cbn [mbind option_bind].
  - destruct (Z.ltb_spec (k * m * Q16_ONE) (2 ^ 64)); wp_simpl; [done|]. right. auto.
  - right. rewrite HQ. do 4 (split; [done|]). nia.
Qed.

(** ** Admission *)

(** The three parts of the delay bound. *)
Definition service_bound (c : ServiceCurve.t) (backlog : Z) : Z :=
  ServiceCurve.latency_ticks c +
    div_ceil (backlog + 1) (ServiceCurve.minimum_completions_per_window c) * ServiceCurve.window_ticks c.
Definition drift_bound (s : t) : Z :=
  Z.min (div_ceil (virtual_backlog_q16 s / 2 ^ 16)
           (ServiceCurve.minimum_completions_per_window (curve s)) * ServiceCurve.window_ticks (curve s))
    (MAX 64).

Lemma deterministic_delay_ok c b :
  curve_ok c → 0 <= b < ServiceCurve.maximum_backlog c →
  ServiceCurve.deterministic_delay c b =
    if service_bound c b <? 2 ^ 64 then Some (service_bound c b) else None.
Proof.
  intros Hc Hb. pose proof (curve_positive c Hc) as (Hm & _ & Hw & _).
  destruct Hc as [Hv [_ Hcm] _ [_ Hcw] [Hl _] [_ Hmb]]. unfold ServiceCurve.deterministic_delay. rewrite Hv.
  destruct (Z.leb_spec (ServiceCurve.maximum_backlog c) b); [lia|]. cbn [negb orb]. cbv zeta.
  unfold checked_add, checked_mul.
  rewrite (proj2 (Z.ltb_lt (b + 1) (2 ^ 64))) by lia. cbn [mbind option_bind].
  rewrite (proj2 (Z.ltb_lt (b + 1 + _) (2 ^ 64))) by lia. cbn [mbind option_bind].
  unfold checked_div. destruct (Z.eqb_spec (ServiceCurve.minimum_completions_per_window c) 0); [lia|].
  cbn [mbind option_bind]. unfold service_bound, div_ceil. rewrite Z.add_sub_assoc.
  set (k := (_ / _)). assert (0 <= k) by (apply Z.div_pos; lia).
  destruct (Z.ltb_spec (k * ServiceCurve.window_ticks c) (2 ^ 64)); cbn [mbind option_bind]; [done|].
  destruct (Z.ltb_spec (ServiceCurve.latency_ticks c + k * ServiceCurve.window_ticks c) (2 ^ 64)); [lia|done].
Qed.

Lemma wp_drift_penalty {E} s w (Q : Z → t → Prop) (R : E → t → Prop) :
  controller_ok s w → Q (drift_bound s) s → wp drift_penalty_ticks Q R s.
Proof.
  intros Hok HQ. pose proof (curve_positive _ (ok_curve _ _ Hok)) as (Hm & _ & Hw & _).
  pose proof (cu_completions _ (ok_curve _ _ Hok)) as [_ Hm16].
  destruct (ok_backlog _ _ Hok) as [Hb0 Hb]. unfold drift_penalty_ticks, drift_bound in *. wp_simpl. cbv zeta.
  rewrite Z.shiftr_div_pow2 by done. set (m := ServiceCurve.minimum_completions_per_window (curve s)) in *.
  set (jobs := virtual_backlog_q16 s / 2 ^ 16) in *.
  assert (Hj : 0 <= jobs < 2 ^ 48)
    by (unfold jobs; split; [by apply Z.div_pos|apply Z.div_lt_upper_bound; lia]).
  destruct (Z.eqb_spec jobs 0) as [Hz|].
  - wp_simpl. rewrite Hz in HQ. unfold div_ceil in HQ. rewrite Z.div_small in HQ by lia.
    unfold MAX in HQ. by rewrite Z.mul_0_l, Z.min_l in HQ by lia.
  - wp_simpl. apply wp_sub; [lia|]. wp_simpl. apply wp_div; [lia|]. wp_simpl.
    unfold saturating_add, saturating_mul, MAX in *. rewrite (Z.min_l (jobs + _)) by lia.
    unfold div_ceil in HQ. by replace (jobs + m - 1) with (jobs + (m - 1)) in HQ by lia.
Qed.

Lemma with_calibrator_id s : with_calibrator (calibrator s) s = s.
Proof. by destruct s. Qed.

Lemma wp_guard_zoom s w (Q : Z → t → Prop) (R : Calibrator.CalibrationFault → t → Prop) :
  ring (calibrator s) w →
  (∀ g, conformal (calibrator s) w (Ok g) → Q g s) →
  (∀ e, conformal (calibrator s) w (Err e) → R e s) →
  wp (zoom calibrator with_calibrator Calibrator.guard) Q R s.
Proof.
  intros Hr HQ HR. pose proof (guard_ok _ _ Hr) as Hg. unfold wp, zoom in *.
  destruct (Calibrator.guard (calibrator s)); destruct Hg as [-> Hc] || done;
    rewrite with_calibrator_id; eauto.
Qed.

(** The state of a granted reservation, from the state at that tick. *)
Definition reserved (m : t) : t :=
  with_backlog (saturating_add 64 (virtual_backlog_q16 m) Q16_ONE)
    (with_admission (admitted_in_window m + 1) (reservation_sequence m + 1)
       (saturating_add 64 (accepted m) 1) m).

(** A reservation [c] granted at [now]: the backlog and the arrival envelope
    have room, and the whole delay bound fits before the deadline. *)
Record grant (m : t) (w : list Z) (now deadline backlog : Z) (c : Certificate.t) : Prop := {
  ad_backlog : Certificate.backlog_before c = backlog ∧ backlog < ServiceCurve.maximum_backlog (curve m);
  ad_envelope : Certificate.admitted_before c = admitted_in_window m ∧
    admitted_in_window m < ServiceCurve.maximum_admissions_per_window (curve m);
  ad_service : Certificate.deterministic_delay_ticks c = service_bound (curve m) backlog;
  ad_guard : conformal (calibrator m) w (Ok (Certificate.uncertainty_guard_ticks c));
  ad_drift : Certificate.drift_penalty_ticks c = drift_bound m;
  ad_delay : Certificate.delay_bound_ticks c = Certificate.deterministic_delay_ticks c
    + Certificate.uncertainty_guard_ticks c + Certificate.drift_penalty_ticks c;
  ad_deadline : now + Certificate.delay_bound_ticks c + Certificate.deadline_slack_ticks c = deadline ∧
    0 <= Certificate.deadline_slack_ticks c;
  ad_identity : Certificate.reservation_sequence c = reservation_sequence m + 1 ∧
    Certificate.admitted_tick c = now ∧ Certificate.window_start c = window_start m;
  ad_fresh : reservation_sequence m < MAX 64;
  ad_roots : Certificate.curve_root c = curve_root m ∧
    Certificate.calibration_root c = Calibrator.root (calibrator m);
}.

(** The certificate is sealed with the controller's secret. *)
Definition admission (m : t) (w : list Z) (now deadline backlog : Z) (c : Certificate.t) : Prop :=
  grant m w now deadline backlog c ∧
  Certificate.certificate_root c = admission_certificate_root (secret m) c.

Lemma admission_sealed m w now deadline backlog c :
  grant m w now deadline backlog c →
  admission m w now deadline backlog
    (Certificate.with_root (admission_certificate_root (secret m) c) c).
Proof. intros []. split; [by split|]. unfold admission_certificate_root. reflexivity. Qed.

(** Why a reservation is refused at that tick, and what is left behind. *)
Inductive admission_refused (m : t) (w : list Z) (now deadline backlog : Z) :
    AdmissionFault → t → Prop :=
| refused_backlog :
    ServiceCurve.maximum_backlog (curve m) <= backlog →
    admission_refused m w now deadline backlog BacklogSaturated (reject_ m)
| refused_envelope :
    backlog < ServiceCurve.maximum_backlog (curve m) →
    ServiceCurve.maximum_admissions_per_window (curve m) <= admitted_in_window m →
    admission_refused m w now deadline backlog ArrivalEnvelopeExceeded (reject_ m)
| refused_service :
    2 ^ 64 <= service_bound (curve m) backlog →
    admission_refused m w now deadline backlog BacklogSaturated m
| refused_guard e :
    conformal (calibrator m) w (Err e) →
    admission_refused m w now deadline backlog ArithmeticOverflow m
| refused_overflow g :
    conformal (calibrator m) w (Ok g) →
    2 ^ 64 <= now + (service_bound (curve m) backlog + g + drift_bound m) →
    admission_refused m w now deadline backlog ArithmeticOverflow m
| refused_deadline g :
    conformal (calibrator m) w (Ok g) →
    deadline < now + (service_bound (curve m) backlog + g + drift_bound m) →
    admission_refused m w now deadline backlog DeadlineUnsafe (reject_ m)
| refused_exhausted :
    reservation_sequence m = MAX 64 →
    admission_refused m w now deadline backlog ArithmeticOverflow m.

Lemma drift_bound_nonneg s w : controller_ok s w → 0 <= drift_bound s.
Proof.
  intros Hok. pose proof (curve_positive _ (ok_curve _ _ Hok)) as (Hm & _ & Hw & _).
  destruct (ok_backlog _ _ Hok) as [Hb _]. unfold drift_bound, MAX. apply Z.min_glb; [|lia].
  pose proof (Z.div_pos (virtual_backlog_q16 s) (2 ^ 16) Hb ltac:(lia)).
  apply Z.mul_nonneg_nonneg; [|lia]. apply Z.div_pos; lia.
Qed.

Ltac cert_simpl := cbn [Certificate.with_root Certificate.reservation_sequence
  Certificate.admitted_tick Certificate.window_start Certificate.backlog_before
  Certificate.admitted_before Certificate.deterministic_delay_ticks
  Certificate.uncertainty_guard_ticks Certificate.drift_penalty_ticks Certificate.delay_bound_ticks
  Certificate.deadline_slack_ticks Certificate.curve_root Certificate.calibration_root
  Certificate.certificate_root].

(** [admit] on every path. *)
Lemma admit_ok s w now deadline b :
  controller_ok s w → u64 now → u64 deadline → u64 b →
  wp (admit_ now deadline b)
    (λ c s', last_tick s <= now ∧ window_start s <= now ∧
       admission (at_tick now s) w now deadline b c ∧ s' = reserved (at_tick now s))
    (λ e s', clock_refused now s e s' ∨
       last_tick s <= now ∧ window_start s <= now ∧
       admission_refused (at_tick now s) w now deadline b e s') s.
Proof.
  intros Hok Hnow Hdl Hb. unfold admit_. rewrite wp_bind.
  eapply wp_mono; [by apply (advance_ok now s w)| |by left].
  cbv beta. intros _ s' (-> & Hlast & Hstart). pose proof (at_tick_ok now s w Hok Hstart Hlast) as Hm.
  set (m := at_tick now s) in *. clearbody m. wp_simpl.
  assert (Hd : ∀ e s', admission_refused m w now deadline b e s' → clock_refused now s e s' ∨
    last_tick s <= now ∧ window_start s <= now ∧ admission_refused m w now deadline b e s') by auto.
  pose proof (drift_bound_nonneg m w Hm) as Hdrift. destruct Hnow as [Hn0 _], Hb as [Hb0 _].
  destruct (Z.leb_spec (ServiceCurve.maximum_backlog (curve m)) b) as [|Hroom]; wp_simpl;
    [by apply Hd; constructor|].
  destruct (Z.leb_spec (ServiceCurve.maximum_admissions_per_window (curve m)) (admitted_in_window m))
    as [|Henv]; wp_simpl; [by apply Hd; constructor|].
  rewrite deterministic_delay_ok by (lia || apply Hm).
  destruct (Z.ltb_spec (service_bound (curve m) b) (2 ^ 64)); wp_simpl; [|by apply Hd; constructor].
  apply (wp_guard_zoom m w); [apply Hm| |intros e He; apply Hd; by econstructor].
  intros g Hg. wp_simpl. eapply wp_drift_penalty; [done|]. wp_simpl. unfold checked_add at 1 2.
  assert (Hover : ∀ s', s' = m → 2 ^ 64 <= now + (service_bound (curve m) b + g + drift_bound m) →
    clock_refused now s ArithmeticOverflow s' ∨ last_tick s <= now ∧ window_start s <= now ∧
      admission_refused m w now deadline b ArithmeticOverflow s').
  { intros s' -> ?. apply Hd. by econstructor. }
  destruct (Z.ltb_spec (service_bound (curve m) b + g) (2 ^ 64)); cbn [mbind option_bind];
    [|by apply Hover; [|lia]].
  destruct (Z.ltb_spec (service_bound (curve m) b + g + drift_bound m) (2 ^ 64)); wp_simpl;
    [|by apply Hover; [|lia]].
  unfold checked_add at 1. set (delay := service_bound (curve m) b + g + drift_bound m) in *.
  destruct (Z.ltb_spec (now + delay) (2 ^ 64)); wp_simpl; [|by apply Hover].
  destruct (Z.ltb_spec deadline (now + delay)); wp_simpl; [by apply Hd; econstructor|].
  unfold checked_add at 1.
  destruct (Z.ltb_spec (reservation_sequence m + 1) (2 ^ 64)); wp_simpl.
  2:{ apply Hd, refused_exhausted. destruct (ok_sequence _ _ Hm). unfold MAX. lia. }
  pose proof (cu_admissions _ (ok_curve _ _ Hm)) as [_ Ha16].
  pose proof (cu_backlog _ (ok_curve _ _ Hm)) as [_ Hb16].
  unfold checked_add. rewrite (proj2 (Z.ltb_lt (admitted_in_window m + 1) (2 ^ 16))) by lia. wp_simpl.
  unfold to_u16. rewrite (proj2 (Z.ltb_lt b (2 ^ 16))) by lia. wp_simpl.
  apply wp_sub; [done|]. wp_simpl. do 2 (split; [done|]). split; [|done].
  cbn [secret window_start curve_root calibrator with_backlog with_admission]. apply admission_sealed.
  split; cert_simpl; try done; unfold MAX; lia.
Qed.

Lemma reserved_ok m w :
  controller_ok m w → reservation_sequence m < MAX 64 →
  admitted_in_window m < ServiceCurve.maximum_admissions_per_window (curve m) → controller_ok (reserved m) w.
Proof.
  intros [] Hseq Henv. split; cbn [reserved with_backlog with_admission curve window_start last_tick
    admitted_in_window reservation_sequence virtual_backlog_q16 calibrator]; try done.
  - lia.
  - unfold in_width, MAX in *. lia.
  - by apply saturating_add_u64.
Qed.

(** ** Completion *)

(** What the completion of [c] teaches the calibrator. *)
Definition residual_of (c : Certificate.t) (completion : Z) : Z :=
  saturating_sub (completion - Certificate.admitted_tick c)
    (Certificate.deterministic_delay_ticks c + Certificate.drift_penalty_ticks c).

(** The backlog drains by one job and grows with the excess over the bound. *)
Definition backlog_after (c : Certificate.t) (completion : Z) (m : t) : Z :=
  let drained := saturating_sub (virtual_backlog_q16 m) Q16_ONE in
  let excess := completion - Certificate.admitted_tick c - Certificate.delay_bound_ticks c in
  if 0 <? excess then
    saturating_add 64 drained
      (if excess * Q16_ONE <? 2 ^ 64 then excess * Q16_ONE / ServiceCurve.window_ticks (curve m) else MAX 64)
  else drained.

Definition completed (c : Certificate.t) (completion : Z) (cal : Calibrator.t) (m : t) : t :=
  with_observed (saturating_add 64 (observed m) 1)
    (with_backlog (backlog_after c completion m) (with_calibrator cal m)).

Inductive observation_refused (c : Certificate.t) (completion : Z) (s : t) (w : list Z) :
    AdmissionFault → t → Prop :=
| observation_forged :
    verify_certificate s c = false ∨ completion < Certificate.admitted_tick c →
    observation_refused c completion s w CorruptObservation s
| observation_clock e s' :
    clock_refused completion s e s' → observation_refused c completion s w e s'
| observation_overflow :
    last_tick s <= completion → window_start s <= completion →
    2 ^ 64 <= Certificate.deterministic_delay_ticks c + Certificate.drift_penalty_ticks c →
    observation_refused c completion s w ArithmeticOverflow (at_tick completion s)
| observation_guard e cal :
    last_tick s <= completion → window_start s <= completion →
    push_spec (calibrator s) w (residual_of c completion) (Err e) cal →
    observation_refused c completion s w CorruptObservation
      (with_calibrator cal (at_tick completion s)).

Lemma calibrator_at_tick now s : calibrator (at_tick now s) = calibrator s.
Proof. unfold at_tick. by destruct (_ <=? _). Qed.
Lemma curve_at_tick now s : curve (at_tick now s) = curve s.
Proof. unfold at_tick. by destruct (_ <=? _). Qed.

Lemma wp_zoom_push m w x (Q : Z → t → Prop) (R : Calibrator.CalibrationFault → t → Prop) :
  ring (calibrator m) w →
  (∀ g cal, push_spec (calibrator m) w x (Ok g) cal → Q g (with_calibrator cal m)) →
  (∀ e cal, push_spec (calibrator m) w x (Err e) cal → R e (with_calibrator cal m)) →
  wp (zoom calibrator with_calibrator (Calibrator.push x)) Q R m.
Proof.
  intros Hr HQ HR. pose proof (calibrator_push_ok _ _ x Hr) as Hp. unfold wp, zoom in *.
  destruct (Calibrator.push x (calibrator m)); auto.
Qed.

Lemma observe_ok s w c completion :
  controller_ok s w → u64 completion →
  wp (observe_completion c completion)
    (λ g s', last_tick s <= completion ∧ window_start s <= completion ∧ verify_certificate s c = true ∧
       ∃ cal, push_spec (calibrator s) w (residual_of c completion) (Ok g) cal ∧
         s' = completed c completion cal (at_tick completion s))
    (observation_refused c completion s w) s.
Proof.
  intros Hok Hc. unfold observe_completion. wp_simpl.
  destruct (verify_certificate s c) eqn:Hv; cbn [negb orb]; [|wp_simpl; constructor; by left].
  destruct (Z.ltb_spec completion (Certificate.admitted_tick c)); wp_simpl; [constructor; by right|].
  eapply wp_mono; [by apply (advance_ok completion s w)| |by intros; apply observation_clock].
  cbv beta. intros _ s' (-> & Hlast & Hstart). pose proof (at_tick_ok completion s w Hok Hstart Hlast) as Hm.
  cbv zeta. wp_simpl. unfold checked_add.
  destruct (Z.ltb_spec (Certificate.deterministic_delay_ticks c + Certificate.drift_penalty_ticks c) (2 ^ 64));
    wp_simpl; [|by apply observation_overflow].
  fold (residual_of c completion).
  apply (wp_zoom_push _ w); [apply Hm|..]; rewrite calibrator_at_tick.
  2:{ intros e cal Hp. by eapply observation_guard. }
  intros g cal Hp. set (m := at_tick completion s) in *. wp_simpl.
  assert (Hgoal : ∀ s', s' = completed c completion cal m → last_tick s <= completion ∧
    window_start s <= completion ∧ true = true ∧ ∃ cal, push_spec (calibrator s) w (residual_of c completion)
      (Ok g) cal ∧ s' = completed c completion cal m) by (intros ? ->; eauto 6).
  assert (Hcurve : curve m = curve s) by apply curve_at_tick.
  pose proof (curve_positive _ (ok_curve _ _ Hok)) as (_ & _ & Hw & _).
  destruct (Z.ltb_spec (Certificate.delay_bound_ticks c) (completion - Certificate.admitted_tick c));
    wp_simpl; apply Hgoal; unfold completed, backlog_after; cbv zeta.
  - rewrite (proj2 (Z.ltb_lt 0 _)) by lia. unfold checked_mul, checked_div. rewrite Hcurve.
    destruct (Z.ltb_spec ((completion - Certificate.admitted_tick c - Certificate.delay_bound_ticks c) * Q16_ONE)
      (2 ^ 64)); cbn [mbind option_bind]; [|done].
    destruct (Z.eqb_spec (ServiceCurve.window_ticks (curve s)) 0); [lia|done].
  - rewrite (proj2 (Z.ltb_ge 0 _)) by lia. done.
Qed.

(** ** Rollback *)

Definition rolled_back (c : Certificate.t) (s : t) : t :=
  with_backlog (saturating_sub (virtual_backlog_q16 s) Q16_ONE)
    (with_admission (Certificate.admitted_before c) (reservation_sequence s)
       (saturating_sub (accepted s) 1) s).

Definition rollback_allowed (c : Certificate.t) (s : t) : Prop :=
  verify_certificate s c = true ∧ Certificate.window_start c = window_start s ∧
  Certificate.reservation_sequence c = reservation_sequence s ∧
  admitted_in_window s = saturating_add 16 (Certificate.admitted_before c) 1.

Lemma rollback_exact c s :
  (rollback_allowed c s ∧ rollback c s = Done () (rolled_back c s)) ∨
  (¬ rollback_allowed c s ∧ rollback c s = Fail StaleReservation s).
Proof.
  unfold rollback, rollback_allowed, mbind, M_bind, get. destruct (verify_certificate s c); [|right; naive_solver].
  destruct (Z.eqb_spec (Certificate.window_start c) (window_start s)); [|right; naive_solver].
  destruct (Z.eqb_spec (Certificate.reservation_sequence c) (reservation_sequence s)); [|right; naive_solver].
  destruct (Z.eqb_spec (admitted_in_window s) (saturating_add 16 (Certificate.admitted_before c) 1));
    [left; auto|right; naive_solver].
Qed.

Lemma rolled_back_ok c s w :
  controller_ok s w → rollback_allowed c s → u16 (Certificate.admitted_before c) → controller_ok (rolled_back c s) w.
Proof.
  intros [] (_ & _ & _ & Hb) [H0 H1]. pose proof (cu_admissions _ ok_curve0) as [_ Ha].
  unfold saturating_add, MAX in Hb. split; cbn; try done; [lia|]. by apply saturating_sub_u64.
Qed.

(** ** The state after a completion *)

Lemma completed_ok c completion cal r m w :
  controller_ok m w → push_spec (calibrator m) w (residual_of c completion) r cal →
  controller_ok (with_calibrator cal m)
    (slide (calibrator m) w (Z.min (residual_of c completion) (Calibrator.maximum_guard (calibrator m)))) ∧
  controller_ok (completed c completion cal m)
    (slide (calibrator m) w (Z.min (residual_of c completion) (Calibrator.maximum_guard (calibrator m)))).
Proof.
  intros Hok (Hr & _ & Hs & _). pose proof (curve_positive _ (ok_curve _ _ Hok)) as (_ & _ & Hw & _).
  destruct Hok. split; (split; cbn [completed with_observed with_backlog with_calibrator curve window_start
    last_tick admitted_in_window reservation_sequence virtual_backlog_q16 calibrator]; try done).
  unfold backlog_after. cbv zeta.
  assert (u64 (saturating_sub (virtual_backlog_q16 m) Q16_ONE)) by by apply saturating_sub_u64.
  destruct (Z.ltb_spec 0 (completion - Certificate.admitted_tick c - Certificate.delay_bound_ticks c)); [|done].
  apply saturating_add_u64; [done|]. destruct (_ <? _); [|done].
  apply Z.div_pos; [|done]. apply Z.mul_nonneg_nonneg; [lia|done].
Qed.

(** ** Construction *)

(** The machine widths of a curve's fields. *)
Definition curve_widths (c : ServiceCurve.t) : Prop :=
  u16 (ServiceCurve.minimum_completions_per_window c) ∧
  u16 (ServiceCurve.maximum_admissions_per_window c) ∧
  u64 (ServiceCurve.window_ticks c) ∧ u64 (ServiceCurve.latency_ticks c) ∧
  u16 (ServiceCurve.maximum_backlog c).

Lemma controller_new_ok N c now sec s0 :
  Z.of_nat N < 2 ^ 55 → curve_widths c → u64 now →
  wp (new N c now sec)
    (λ _ s, controller_ok s [] ∧ curve s = c ∧ admitted_in_window s = 0 ∧
       Calibrator.capacity (calibrator s) = Z.of_nat N)
    (λ _ s, s = s0) s0.
Proof.
  intros HN (H1 & H2 & H3 & H4 & H5) [Hnow _]. unfold new.
  destruct (ServiceCurve.valid c) eqn:Hv; cbn [negb orb]; [|by wp_simpl].
  assert (Hc : curve_ok c) by done. pose proof (curve_positive c Hc) as (? & ? & ? & ?).
  destruct (_ || _); [by wp_simpl|]. cbv zeta. set (root := service_curve_root sec c).
  set (sec' := mix sec _). destruct (root =? 0); wp_simpl; [done|]. unfold checked_mul.
  set (guard := ServiceCurve.window_ticks c * ServiceCurve.maximum_backlog c).
  destruct (Z.ltb_spec guard (2 ^ 64)); wp_simpl; [|done].
  assert (Hg : u64 (Z.max guard 1)) by (unfold in_width, guard in *; nia).
  pose proof (calibrator_new_ok N 15 16 1 (Z.max guard 1) sec' (Calibrator.mk [] 0 0 0 0 0 0 0 0 0)
    HN ltac:(done) ltac:(done) ltac:(done) Hg) as Hnew.
  unfold Calibrator.kernel_default, DEFAULT_CONFORMAL_NUMERATOR, DEFAULT_CONFORMAL_DENOMINATOR.
  unfold wp in Hnew. destruct (Calibrator.new _ _ _ _ _ _) as [u cal|e cal|]; wp_simpl; [|done..].
  destruct Hnew as (_ & _ & Hr & Hs & Hcap & _). split; [|by do 2 split].
  split; cbn; try done; lia.
Qed.

End ServiceFacts.
