(* ===== verification/ServiceProperties.v ===== *)
(** * The service controller's guarantees

    Properties of whole histories of calls on a controller: the arrival envelope
    and the identity of reservations, the deadline test of an admission, the
    calibration guard as an order statistic of what was observed, and the
    certificate's resistance to tampering. *)
From stdpp Require Import sorting.
From S2P Require Import Prelude ServiceCalculus CalibratorFacts ServiceFacts.

Module ServiceProperties.
Import Mixing MixingFacts CalibratorFacts Controller ServiceFacts.

#[global] Instance certificate_eq_dec : EqDecision Certificate.t.
Proof. solve_decision. Defined.

(** ** Histories *)


Inductive event := Issued (c : Certificate.t) | Returned (c : Certificate.t).

#[global] Instance event_eq_dec : EqDecision event.
Proof. solve_decision. Defined.







(** ** The log invariant *)








(** ** Every history is well behaved *)











(** ** The certificate's fields *)

Definition sealed_fields (c : Certificate.t) : list Z :=
  [Certificate.reservation_sequence c; Certificate.admitted_tick c; Certificate.window_start c;
   Certificate.backlog_before c; Certificate.admitted_before c;
   Certificate.deterministic_delay_ticks c; Certificate.uncertainty_guard_ticks c;
   Certificate.drift_penalty_ticks c; Certificate.delay_bound_ticks c;
   Certificate.deadline_slack_ticks c; Certificate.curve_root c; Certificate.calibration_root c].
Definition field_widths : list Z := [64; 64; 64; 16; 16; 64; 64; 64; 64; 64; 64; 64].
Definition fields_ok (c : Certificate.t) : Prop := Forall2 in_width field_widths (sealed_fields c).

(** The words the digest absorbs: the two 16-bit fields share one. *)
Definition pack (fs : list Z) : list Z :=
  match fs with
  | a :: b :: c :: lo :: hi :: rest => a :: b :: c :: Z.lor lo (Z.shiftl hi 16) :: rest
  | _ => fs
  end.

Lemma certificate_root_absorb sec c : admission_certificate_root sec c = absorb sec (pack (sealed_fields c)).
Proof. unfold admission_certificate_root, absorb. cbv zeta. cbn [pack sealed_fields fold_left]. reflexivity. Qed.

Lemma absorb_insert sec ws i w y :
  u64 sec → ws !! i = Some w → u64 w → u64 y → absorb sec (<[i := y]> ws) = absorb sec ws → y = w.
Proof.
  intros Hsec Hi Hw Hy Heq. pose proof (lookup_lt_Some _ _ _ Hi).
  apply (absorb_inj_word sec (take i ws) y w (drop (S i) ws)); [done..|].
  by rewrite (take_drop_middle ws i w Hi), <- insert_take_drop.
Qed.

Lemma pack16 lo hi : u16 lo → u16 hi → Z.lor lo (Z.shiftl hi 16) = hi * 2 ^ 16 + lo.
Proof. intros. rewrite Z.lor_comm. by apply lor_pack. Qed.

(** Changing one field changes one word. *)
Lemma pack_insert c i x y :
  fields_ok c → sealed_fields c !! i = Some y → (∀ w, field_widths !! i = Some w → in_width w x) →
  ∃ j w, pack (<[i := x]> (sealed_fields c)) = <[j := w]> (pack (sealed_fields c)) ∧ u64 w ∧
    ∃ v, pack (sealed_fields c) !! j = Some v ∧ u64 v ∧ (v = w → x = y).
Proof.
  unfold fields_ok, field_widths, sealed_fields, pack. intros Hok Hi Hx.
  repeat match goal with H : Forall2 _ (_ :: _) (_ :: _) |- _ => apply Forall2_cons in H as [? ?] end.
  assert (Hp : ∀ lo hi, u16 lo → u16 hi → u64 (Z.lor lo (Z.shiftl hi 16))).
  { intros lo hi Hl Hh. rewrite pack16 by done. unfold in_width in *. lia. }
  destruct i as [|[|[|[|[|i]]]]]; simpl in Hi, Hx |- *; try injection Hi as <-.
  1-3: (exists 0%nat + exists 1%nat + exists 2%nat); eexists; (split; [done|]); split; [by apply Hx|]; eauto.
  - exists 3%nat. eexists. split; [done|]. specialize (Hx _ eq_refl). split; [by apply Hp|].
    eexists. split; [done|]. split; [by apply Hp|]. rewrite !pack16 by done. lia.
  - exists 3%nat. eexists. split; [done|]. specialize (Hx _ eq_refl). split; [by apply Hp|].
    eexists. split; [done|]. split; [by apply Hp|]. rewrite !pack16 by done. lia.
  - exists (S (S (S (S i)))), x. split; [done|].
    do 7 (destruct i as [|i]; [simpl in Hi; injection Hi as <-; split; [by apply Hx|]; by eauto|]). done.
Qed.

(** ** Properties *)


(** admission decided exactly. From any state of the invariant, [admit]
    never panics. A certificate it returns binds the tick, the window and a fresh
    sequence number; its delay bound is the service-curve bound for the backlog
    plus the conformal guard of the observed residuals plus the drift penalty,
    and that bound ends by the deadline. A refusal names the first test that
    failed, holds exactly then, and leaves no reservation behind. *)
Theorem admission_decided s w now deadline backlog :
  controller_ok s w → u64 now → u64 deadline → u64 backlog →
  match admit_ now deadline backlog s with
  | Done c s' => last_tick s <= now ∧ window_start s <= now ∧
      admission (at_tick now s) w now deadline backlog c ∧ s' = reserved (at_tick now s)
  | Fail e s' => clock_refused now s e s' ∨ last_tick s <= now ∧ window_start s <= now ∧
      admission_refused (at_tick now s) w now deadline backlog e s'
  | Panic => False
  end.
Proof. apply admit_ok. Qed.

(** completion observed exactly. From any state of the invariant,
    [observe_completion] never panics. It accepts only a certificate that
    verifies and a completion no earlier than its admission; then the positive
    excess over the predicted delay slides into the residual window, the guard of
    the new window is returned, and one job of the virtual backlog is drained,
    more being added in proportion when the delay bound was missed. *)
Theorem completion_observed s w c completion :
  controller_ok s w → u64 completion →
  match observe_completion c completion s with
  | Done g s' => last_tick s <= completion ∧ window_start s <= completion ∧
      verify_certificate s c = true ∧
      ∃ cal, push_spec (calibrator s) w (residual_of c completion) (Ok g) cal ∧
        s' = completed c completion cal (at_tick completion s)
  | Fail e s' => observation_refused c completion s w e s'
  | Panic => False
  end.
Proof. apply observe_ok. Qed.

(** rollback undoes an admission, once. If [admit] issues a certificate, and
    the saturating counters are not at their limit, rolling it back restores
    everything but the sequence number, which stays spent; rolling it back again
    is refused. *)
Theorem rollback_restores s w now deadline backlog c s' :
  controller_ok s w → u64 now → u64 deadline → u64 backlog →
  admit_ now deadline backlog s = Done c s' → Certificate.valid c = true →
  0 <= accepted s < MAX 64 → virtual_backlog_q16 (at_tick now s) + Q16_ONE <= MAX 64 →
  let m := at_tick now s in
  let s'' := with_admission (admitted_in_window m) (reservation_sequence m + 1) (accepted m) m in
  rollback c s' = Done () s'' ∧ rollback c s'' = Fail StaleReservation s''.
Proof.
  intros Hok Hn Hd Hb Heq Hv Hacc Hvb m s''.
  destruct (wp_Done _ _ _ _ _ _ (admit_ok s w now deadline backlog Hok Hn Hd Hb) Heq)
    as (Hlast & Hstart & [Had Hroot] & ->). fold m in Had, Hroot |- *. fold m in Hvb.
  pose proof (at_tick_ok now s w Hok Hstart Hlast) as Hm. fold m in Hm.
  assert (Ha : accepted m = accepted s) by (unfold m, at_tick; by destruct (_ <=? _)). clearbody m.
  destruct Had as [_ [Hbefore Hroom] _ _ _ _ _ (Hseq & _ & Hst) _ [Hcr _]].
  destruct (cu_admissions _ (ok_curve _ _ Hm)) as [_ Ha16]. destruct (ok_backlog _ _ Hm) as [Hvb0 _].
  assert (Hver : verify_certificate (reserved m) c = true).
  { unfold verify_certificate. rewrite Hv. cbn [reserved with_backlog with_admission curve_root secret andb].
    by rewrite Hcr, Hroot, !Z.eqb_refl. }
  assert (Hs'' : rolled_back c (reserved m) = s'').
  { unfold s'', rolled_back, reserved, with_backlog, with_admission, saturating_add, saturating_sub, MAX in *.
    change Q16_ONE with 65536 in *. simpl. rewrite Hbefore. f_equal; lia. }
  assert (Hall : rollback_allowed c (reserved m)).
  { split; [done|]. split; [done|]. split; [done|]. unfold saturating_add, MAX. cbn. lia. }
  split.
  - destruct (rollback_exact c (reserved m)) as [[_ ->]|[Hno _]]; [by rewrite Hs''|done].
  - destruct (rollback_exact c s'') as [[(_ & _ & _ & Hadm) _]|[_ ->]]; [|done].
    unfold s'', saturating_add, MAX in Hadm. cbn in Hadm. lia.
Qed.

(** a tampered certificate does not verify. Take a certificate the controller
    verifies and change the value of any one of its twelve bound fields, within
    the field's width, keeping the digest: the result is refused. *)
Theorem tampering_detected s c c' i x :
  u64 (secret s) → fields_ok c → verify_certificate s c = true →
  Certificate.certificate_root c' = Certificate.certificate_root c →
  sealed_fields c' = <[i := x]> (sealed_fields c) → sealed_fields c' ≠ sealed_fields c →
  (∀ w, field_widths !! i = Some w → in_width w x) →
  verify_certificate s c' = false.
Proof.
  intros Hsec Hok Hver Hroot Hset Hne Hx. apply not_true_is_false. intros Hver'.
  unfold verify_certificate in Hver, Hver'. rewrite !certificate_root_absorb, Hroot, Hset in *. bool_to_prop.
  destruct (sealed_fields c !! i) as [y|] eqn:Hi.
  - destruct (pack_insert c i x y Hok Hi Hx) as (j & w & Hp & Hw & v & Hv & Hv64 & Hinj).
    apply Hne. rewrite Hinj; [by apply list_insert_id|].
    symmetry. apply (absorb_insert (secret s) (pack (sealed_fields c)) j v w); [done..|].
    rewrite <- Hp. congruence.
  - apply Hne. apply list_insert_ge. by apply lookup_ge_None.
Qed.

(** ** The guard over a history of observations *)

(** Residuals pushed one after the other, each answer dropped. *)
Definition pushes (h : list Z) : M Calibrator.t Calibrator.CalibrationFault unit :=
  mfor h (λ x, attempt (Calibrator.push x) ;; mret ()).

Lemma slide_last_n c h x :
  0 < Calibrator.capacity c →
  slide c (last_n (Z.to_nat (Calibrator.capacity c)) h) x = last_n (Z.to_nat (Calibrator.capacity c)) (h ++ [x]).
Proof.
  intros Hc. rewrite last_n_snoc by lia. unfold slide. f_equal. by repeat case_decide; try lia.
Qed.

Lemma pushes_ok N h0 h c :
  (0 < N)%nat → Calibrator.capacity c = Z.of_nat N → ring c (last_n N h0) → sealed c →
  wp (pushes h) (λ _ c', ring c' (last_n N (h0 ++ map (λ r, Z.min r (Calibrator.maximum_guard c)) h)) ∧
    same_policy c c' ∧ sealed c') (λ _ _, False) c.
Proof.
  intros HN. revert h0 c. induction h as [|x h IH]; intros h0 c Hcap Hr Hs.
  - unfold pushes. simpl. wp_simpl. by rewrite app_nil_r.
  - unfold pushes. simpl. fold (pushes h). wp_simpl.
    assert (Hnext : ∀ r c', push_spec c (last_n N h0) x r c' → wp (pushes h) (λ _ c'',
      ring c'' (last_n N (h0 ++ Z.min x (Calibrator.maximum_guard c) ::
        map (λ r, Z.min r (Calibrator.maximum_guard c)) h)) ∧ same_policy c c'' ∧ sealed c'') (λ _ _, False) c').
    { intros r c' (Hr' & Hp & Hs' & _).
      replace N with (Z.to_nat (Calibrator.capacity c)) in Hr' by lia.
      rewrite slide_last_n, Hcap, Nat2Z.id in Hr' by lia. pose proof Hp as (P1 & P2 & P3 & P4 & P5 & P6).
      eapply wp_mono; [apply (IH _ _ ltac:(by rewrite P6) Hr' Hs')|..]; [|done].
      intros _ c'' (Hr'' & (Q1 & Q2 & Q3 & Q4 & Q5 & Q6) & Hs''). rewrite P4, <- app_assoc in Hr''.
      split; [done|]. split; [|done]. unfold same_policy. by rewrite Q1, Q2, Q3, Q4, Q5, Q6. }
    eapply wp_mono; [by apply calibrator_push_ok|..]; cbv beta; intros r c' Hp; wp_simpl; exact (Hnext _ c' Hp).
Qed.

(** the guard is the conformal order statistic. Build a calibrator and push
    any residuals. Whatever their number, nothing panics, the root verifies, and
    the guard is exactly that of the last [N] residuals, each capped at the
    maximum guard: the value of the conformal rank in their ascending order, plus
    the slack, capped again (an error only if that sum overflows); before the
    first residual it is the slack alone. *)
Theorem guard_is_conformal N num den slack max sec c0 c h :
  Z.of_nat N < 2 ^ 55 → u8 num → u8 den → u64 slack → u64 max →
  Calibrator.new N num den slack max sec c0 = Done () c →
  ∃ c' r, pushes h c = Done () c' ∧ attempt (E':=unit) Calibrator.guard c' = Done r c' ∧
    Calibrator.verify_root (E:=unit) c' = Done true c' ∧
    conformal c (last_n N (map (λ x, Z.min x max) h)) r.
Proof.
  intros HN Hn Hd Hs Hm Hnew.
  destruct (wp_Done _ _ _ _ _ _ (calibrator_new_ok N num den slack max sec c0 HN Hn Hd Hs Hm) Hnew)
    as (HN0 & _ & Hr & Hse & Hcap & _ & _ & _ & Hmax & _).
  destruct (wp_total _ _ _ (pushes_ok N [] h c HN0 Hcap Hr Hse)) as ([] & c' & Heq & Hr' & Hp & Hs').
  rewrite Hmax in Hr'. pose proof (guard_ok _ _ Hr') as Hg.
  assert (Hver : Calibrator.verify_root (E:=unit) c' = Done true c').
  { apply wp_exact. unfold Calibrator.verify_root. wp_simpl. eapply wp_calibrator_root; [done|]. wp_simpl.
    split; [|done]. apply Z.eqb_eq. apply Hs'. }
  unfold wp in Hg. unfold attempt. exists c'.
  destruct (Calibrator.guard c') as [g c''|e c''|]; [destruct Hg as [-> Hc]..|done].
  all: eexists; do 3 (split; [done|]); by apply (conformal_policy c c').
Qed.

(** ** A concrete controller *)

Definition demo_curve : ServiceCurve.t := ServiceCurve.mk 1 2 10 5 4.
Definition demo_blank : t :=
  mk demo_curve 0 0 0 0 0 0 0 0 0 0 (Calibrator.mk [] 0 0 0 0 0 0 0 0 0).
Definition demo : t := match new 2 demo_curve 0 7 demo_blank with Done _ s => s | _ => demo_blank end.
Definition demo_admitted : Certificate.t * t :=
  match admit_ 3 100 0 demo with Done c s => (c, s) | _ => (Certificate.EMPTY, demo) end.

Lemma demo_ok : controller_ok demo [].
Proof.
  refine (proj1 (wp_Done _ _ _ _ _ _ (controller_new_ok 2 demo_curve 0 7 demo_blank _ _ _) _)).
  - done.
  - by repeat split.
  - done.
  - by vm_compute.
Qed.


Lemma admission_decided_witness :
  last_tick demo <= 3 ∧ window_start demo <= 3 ∧
  admission (at_tick 3 demo) [] 3 100 0 (fst demo_admitted) ∧ snd demo_admitted = reserved (at_tick 3 demo).
Proof.
  pose proof (admission_decided demo [] 3 100 0 demo_ok ltac:(done) ltac:(done) ltac:(done)) as H.
  replace (admit_ 3 100 0 demo) with (@Done t AdmissionFault _ (fst demo_admitted) (snd demo_admitted)) in H
    by (by vm_compute). exact H.
Defined.

Lemma completion_observed_witness :
  ∃ g cal s', observe_completion (fst demo_admitted) 40 demo = Done g s' ∧
    push_spec (calibrator demo) [] (residual_of (fst demo_admitted) 40) (Ok g) cal ∧
    s' = completed (fst demo_admitted) 40 cal (at_tick 40 demo).
Proof.
  pose proof (completion_observed demo [] (fst demo_admitted) 40 demo_ok ltac:(done)) as H.
  destruct (observe_completion (fst demo_admitted) 40 demo) as [g s'|e s'|] eqn:Heq.
  - destruct H as (_ & _ & _ & cal & H1 & H2). exists g, cal, s'. split; [reflexivity|]. split; assumption.
  - by vm_compute in Heq.
  - destruct H.
Defined.

Lemma rollback_restores_witness :
  let m := at_tick 3 demo in
  let s'' := with_admission (admitted_in_window m) (reservation_sequence m + 1) (accepted m) m in
  rollback (fst demo_admitted) (snd demo_admitted) = Done () s'' ∧
  rollback (fst demo_admitted) s'' = Fail StaleReservation s''.
Proof.
  apply (rollback_restores demo [] 3 100 0 (fst demo_admitted) (snd demo_admitted)).
  - exact demo_ok.
  - done.
  - done.
  - done.
  - by vm_compute.
  - by vm_compute.
  - by vm_compute.
  - by vm_compute.
Defined.

(** The deadline slack raised by one. *)
Definition demo_tampered : Certificate.t :=
  let c := fst demo_admitted in
  Certificate.mk (Certificate.reservation_sequence c) (Certificate.admitted_tick c)
    (Certificate.window_start c) (Certificate.backlog_before c) (Certificate.admitted_before c)
    (Certificate.deterministic_delay_ticks c) (Certificate.uncertainty_guard_ticks c)
    (Certificate.drift_penalty_ticks c) (Certificate.delay_bound_ticks c)
    (Certificate.deadline_slack_ticks c + 1) (Certificate.curve_root c)
    (Certificate.calibration_root c) (Certificate.certificate_root c).

Lemma tampering_detected_witness : verify_certificate demo demo_tampered = false.
Proof.
  apply (tampering_detected demo (fst demo_admitted) demo_tampered 9
    (Certificate.deadline_slack_ticks (fst demo_admitted) + 1)).
  - by vm_compute.
  - unfold fields_ok. repeat (apply Forall2_cons; split; [by vm_compute|]). by apply Forall2_nil.
  - by vm_compute.
  - reflexivity.
  - by vm_compute.
  - by vm_compute.
  - intros w [= <-]. by vm_compute.
Defined.

Definition demo_calibrator : Calibrator.t := calibrator demo.

Lemma guard_is_conformal_witness :
  ∃ c c' r, Calibrator.new 3 15 16 1 100 9 demo_calibrator = Done () c ∧
    pushes [5; 200; 7; 1] c = Done () c' ∧ attempt (E':=unit) Calibrator.guard c' = Done r c' ∧
    Calibrator.verify_root (E:=unit) c' = Done true c' ∧ conformal c [100; 7; 1] r.
Proof.
  destruct (Calibrator.new 3 15 16 1 100 9 demo_calibrator) as [[] c|e c|] eqn:Heq.
  - destruct (guard_is_conformal 3 15 16 1 100 9 demo_calibrator c [5; 200; 7; 1]) as (c' & r & H).
    + done.
    + done.
    + done.
    + done.
    + done.
    + exact Heq.
    + exists c, c', r. split; [reflexivity|]. exact H.
  - by vm_compute in Heq.
  - by vm_compute in Heq.
Defined.

End ServiceProperties.
