(* ===== verification/RingAuthority.v ===== *)
(** * Privilege domains and the transition frontier

    Models [kernel/boulder/src/ring_authority.rs]: the hardware authority of a
    domain (I/O ports, MMIO ranges, a DMA grant), the fixed-capacity registry of
    domains, and the per-CPU frontier every return to a less privileged ring
    goes through ([prepare], [commit] or [abort], then [enter_kernel] on the next
    trap). *)
From S2P Require Import Prelude Context.

Definition MAXIMUM_IO_PORT_RANGES : nat := 8.
Definition MAXIMUM_MMIO_RANGES : nat := 8.

Inductive PrivilegeRing := Kernel | HardwareCell | Personality | User.

#[global] Instance PrivilegeRing_eq_dec : EqDecision PrivilegeRing.
Proof. solve_decision. Defined.

Inductive DomainRole := NativeHardwareCell | PersonalityTranslator | UserProcess.

#[global] Instance DomainRole_eq_dec : EqDecision DomainRole.
Proof. solve_decision. Defined.

(** [DomainRole::ring]. *)
Definition ring_of (role : DomainRole) : PrivilegeRing :=
  match role with
  | NativeHardwareCell => HardwareCell
  | PersonalityTranslator => Personality
  | UserProcess => User
  end.

Inductive TransitionGate := Iretq | Sysretq.

#[global] Instance TransitionGate_eq_dec : EqDecision TransitionGate.
Proof. solve_decision. Defined.

Definition valid_dispatch_gate (source target : PrivilegeRing) (gate : TransitionGate) : bool :=
  match source with
  | Kernel =>
      match gate with
      | Iretq => match target with Kernel => false | _ => true end
      | Sysretq => match target with User => true | _ => false end
      end
  | _ => false
  end.

Inductive AuthorityError :=
| InvalidAddressSpaceRoot | SharedAddressSpace | InvalidCpuGeneration | InvalidIoPortRange
| InvalidMmioRange | InvalidDmaGrant | OverlappingIoPortRange | OverlappingMmioRange
| IoPortCapacity | MmioCapacity | DmaAlreadyGranted | HardwareCellHasNoAuthority
| HardwareAuthorityForbidden | HardwareRequestDenied | HardwareAuthorityConflict
| DomainCapacity | DomainBusy | GenerationExhausted | CorruptExecutionReference | StaleDomain
| KernelAddressSpaceMismatch | KernelNotActive | TransitionAlreadyPending
| InvalidTransitionGate | WrongCpu | StaleTransition | UnexpectedCaller
| SourceAddressSpaceMismatch | StaleInvocation.

(** ** Hardware authority *)

Module IoPortRange.
Record t := mk { first : Z; last : Z }.

Definition new (first last : Z) : result t AuthorityError :=
  if last <? first then Err InvalidIoPortRange else Ok (mk first last).

Definition contains (self : t) (port byte_width : Z) : bool :=
  if negb ((byte_width =? 1) || (byte_width =? 2) || (byte_width =? 4)) then false else
  match checked_add 16 port (byte_width - 1) with
  | Some end_ => (first self <=? port) && (end_ <=? last self)
  | None => false
  end.

Definition overlaps (self other : t) : bool :=
  (first self <=? last other) && (first other <=? last self).
End IoPortRange.

(** The access bits of an MMIO range, a [u8]. *)
Module MmioAccess.
Definition READ : Z := Z.shiftl 1 0.
Definition WRITE : Z := Z.shiftl 1 1.
Definition READ_WRITE : Z := Z.lor READ WRITE.

Definition valid (self : Z) : bool :=
  negb (self =? 0) && (Z.land self (bitnot 8 READ_WRITE) =? 0).

Definition contains (self requested : Z) : bool :=
  valid requested && (Z.land self requested =? requested).
End MmioAccess.

Module MmioRange.
Record t := mk { base : Z; length : Z; access : Z }.

Definition new (base length access : Z) : result t AuthorityError :=
  if negb (Z.land base 0xfff =? 0) || (length =? 0) || negb (Z.land length 0xfff =? 0)
     || (match checked_add 64 base length with Some _ => false | None => true end)
     || negb (MmioAccess.valid access)
  then Err InvalidMmioRange
  else Ok (mk base length access).

(** The sum is unchecked: [new], the only constructor, refuses a range whose end
    does not fit. *)
Definition end_ (self : t) : Z := base self + length self.

Definition contains (self : t) (address len acc : Z) : bool :=
  if (len =? 0) || negb (MmioAccess.contains (access self) acc) then false else
  match checked_add 64 address len with
  | Some e => (base self <=? address) && (e <=? end_ self)
  | None => false
  end.

Definition overlaps (self other : t) : bool :=
  (base self <? end_ other) && (base other <? end_ self).
End MmioRange.

Module DmaGrant.
Record t := mk { iommu_domain : Z; generation : Z; requester_id : Z }.

Definition validate (self : t) : bool :=
  negb (iommu_domain self =? 0) && negb (generation self =? 0).
End DmaGrant.

Module HardwareAuthority.
Record t := mk {
  io_ports : list (option IoPortRange.t);
  mmio : list (option MmioRange.t);
  dma : option DmaGrant.t;
}.

Definition NONE : t :=
  mk (replicate MAXIMUM_IO_PORT_RANGES None) (replicate MAXIMUM_MMIO_RANGES None) None.

(** [iter().flatten()]. *)
Definition flatten {A} (l : list (option A)) : list A := omap id l.
Definition is_none {A} (o : option A) : bool := match o with None => true | Some _ => false end.

Definition grant_io (range : IoPortRange.t) : M t AuthorityError unit :=
  s ← get;
  if existsb (λ entry, IoPortRange.overlaps entry range) (flatten (io_ports s))
  then throw OverlappingIoPortRange else
  slot ← ok_or (position is_none (io_ports s)) IoPortCapacity;
  put (mk (<[slot := Some range]> (io_ports s)) (mmio s) (dma s)).

Definition grant_mmio (range : MmioRange.t) : M t AuthorityError unit :=
  s ← get;
  if existsb (λ entry, MmioRange.overlaps entry range) (flatten (mmio s))
  then throw OverlappingMmioRange else
  slot ← ok_or (position is_none (mmio s)) MmioCapacity;
  put (mk (io_ports s) (<[slot := Some range]> (mmio s)) (dma s)).

Definition grant_dma (grant : DmaGrant.t) : M t AuthorityError unit :=
  s ← get;
  if negb (DmaGrant.validate grant) then throw InvalidDmaGrant else
  if negb (is_none (dma s)) then throw DmaAlreadyGranted else
  put (mk (io_ports s) (mmio s) (Some grant)).

Definition permits_io (self : t) (port byte_width : Z) : bool :=
  existsb (λ range, IoPortRange.contains range port byte_width) (flatten (io_ports self)).

Definition permits_mmio (self : t) (address length access : Z) : bool :=
  existsb (λ range, MmioRange.contains range address length access) (flatten (mmio self)).

Definition permits_dma (self : t) (iommu_domain generation requester_id : Z) : bool :=
  match dma self with
  | Some grant => (DmaGrant.iommu_domain grant =? iommu_domain)
      && (DmaGrant.generation grant =? generation)
      && (DmaGrant.requester_id grant =? requester_id)
  | None => false
  end.

Definition is_empty (self : t) : bool :=
  forallb is_none (io_ports self) && forallb is_none (mmio self) && is_none (dma self).

Definition conflicts_with (self other : t) : bool :=
  existsb (λ mine, existsb (λ theirs, IoPortRange.overlaps mine theirs) (flatten (io_ports other)))
    (flatten (io_ports self))
  || existsb (λ mine, existsb (λ theirs, MmioRange.overlaps mine theirs) (flatten (mmio other)))
       (flatten (mmio self))
  || match dma self, dma other with
     | Some mine, Some theirs =>
         (DmaGrant.iommu_domain mine =? DmaGrant.iommu_domain theirs)
         || (DmaGrant.requester_id mine =? DmaGrant.requester_id theirs)
     | _, _ => false
     end.
End HardwareAuthority.

(** ** Domains *)

Module DomainHandle.
Record t := mk { slot : Z; generation : Z }.
#[global] Instance t_eq_dec : EqDecision t.
Proof. solve_decision. Defined.
End DomainHandle.

Module DomainDescriptor.
Record t := mk {
  role : DomainRole;
  address_space_root : Z;
  authority : HardwareAuthority.t;
}.

Definition validate (self : t) : result unit AuthorityError :=
  if negb (valid_page_table_root (address_space_root self)) then Err InvalidAddressSpaceRoot else
  match role self with
  | NativeHardwareCell =>
      if HardwareAuthority.is_empty (authority self) then Err HardwareCellHasNoAuthority else Ok ()
  | PersonalityTranslator | UserProcess =>
      if negb (HardwareAuthority.is_empty (authority self)) then Err HardwareAuthorityForbidden
      else Ok ()
  end.
End DomainDescriptor.

Module DomainSlot.
Record t := mk {
  occupied : bool;
  generation : Z;
  execution_references : Z;
  descriptor : DomainDescriptor.t;
}.

Definition EMPTY : t :=
  mk false 0 0 (DomainDescriptor.mk UserProcess 0 HardwareAuthority.NONE).
End DomainSlot.

Module DomainRegistry.
Import DomainSlot.

Record t := mk {
  kernel_address_space_root : Z;
  slots : list DomainSlot.t;
  live : Z;
}.

Definition with_slots (l : list DomainSlot.t) (s : t) : t := mk (kernel_address_space_root s) l (live s).

(** [new] for the const parameter [CAPACITY]. *)
Definition new (CAPACITY : nat) (root : Z) : result t AuthorityError :=
  if (Z.of_nat CAPACITY =? 0) || (MAX 16 + 1 <? Z.of_nat CAPACITY) then Err DomainCapacity else
  if negb (valid_page_table_root root) then Err InvalidAddressSpaceRoot else
  Ok (mk root (replicate CAPACITY EMPTY) 0).

Definition register (descriptor : DomainDescriptor.t) : M t AuthorityError DomainHandle.t :=
  lift (DomainDescriptor.validate descriptor) ;;
  s ← get;
  let root := DomainDescriptor.address_space_root descriptor in
  if (root =? kernel_address_space_root s)
     || existsb (λ slot, occupied slot
          && (DomainDescriptor.address_space_root (DomainSlot.descriptor slot) =? root)) (slots s)
  then throw SharedAddressSpace else
  if bool_decide (DomainDescriptor.role descriptor = NativeHardwareCell)
     && existsb (λ slot, occupied slot
          && bool_decide (DomainDescriptor.role (DomainSlot.descriptor slot) = NativeHardwareCell)
          && HardwareAuthority.conflicts_with (DomainDescriptor.authority (DomainSlot.descriptor slot))
               (DomainDescriptor.authority descriptor)) (slots s)
  then throw HardwareAuthorityConflict else
  index' ← ok_or (position (λ slot, negb (occupied slot) && negb (generation slot =? MAX 32)) (slots s))
    DomainCapacity;
  old ← index (slots s) (Z.of_nat index');
  generation ← ok_or (checked_add 32 (DomainSlot.generation old) 1) GenerationExhausted;
  slots' ← store (slots s) (Z.of_nat index') (DomainSlot.mk true generation 0 descriptor);
  live' ← add 64 (live s) 1;
  put (mk (kernel_address_space_root s) slots' live') ;;
  mret (DomainHandle.mk (wrap 16 (Z.of_nat index')) generation).

(** The slot a handle names, if it is the current owner. *)
Definition slot (handle : DomainHandle.t) : M t AuthorityError DomainSlot.t :=
  s ← get;
  slot ← ok_or (slots s !! Z.to_nat (DomainHandle.slot handle)) StaleDomain;
  if negb (occupied slot) || negb (generation slot =? DomainHandle.generation handle)
  then throw StaleDomain else mret slot.

Definition descriptor (handle : DomainHandle.t) : M t AuthorityError DomainDescriptor.t :=
  slot ← slot handle; mret (DomainSlot.descriptor slot).

Definition revoke (handle : DomainHandle.t) : M t AuthorityError unit :=
  s ← get;
  let i := Z.to_nat (DomainHandle.slot handle) in
  slot ← ok_or (slots s !! i) StaleDomain;
  if negb (occupied slot) || negb (generation slot =? DomainHandle.generation handle)
  then throw StaleDomain else
  if negb (execution_references slot =? 0) then throw DomainBusy else
  live' ← sub (live s) 1;
  put (mk (kernel_address_space_root s)
         (<[i := DomainSlot.mk false (generation slot) (execution_references slot)
                   (DomainSlot.descriptor EMPTY)]> (slots s)) live').

Definition retain_execution (handle : DomainHandle.t) : M t AuthorityError unit :=
  s ← get;
  let i := Z.to_nat (DomainHandle.slot handle) in
  slot ← ok_or (slots s !! i) StaleDomain;
  if negb (occupied slot) || negb (generation slot =? DomainHandle.generation handle)
  then throw StaleDomain else
  if negb (execution_references slot =? 0) then throw DomainBusy else
  references ← ok_or (checked_add 32 (execution_references slot) 1) GenerationExhausted;
  put (with_slots (<[i := DomainSlot.mk (occupied slot) (generation slot) references
                            (DomainSlot.descriptor slot)]> (slots s)) s).

Definition release_execution (handle : DomainHandle.t) : M t AuthorityError unit :=
  s ← get;
  let i := Z.to_nat (DomainHandle.slot handle) in
  slot ← ok_or (slots s !! i) StaleDomain;
  if negb (occupied slot) || negb (generation slot =? DomainHandle.generation handle)
  then throw StaleDomain else
  references ← ok_or (checked_sub (execution_references slot) 1) CorruptExecutionReference;
  put (with_slots (<[i := DomainSlot.mk (occupied slot) (generation slot) references
                            (DomainSlot.descriptor slot)]> (slots s)) s).
End DomainRegistry.

(** ** The frontier *)

Inductive ActiveExecution := ActiveKernel | ActiveDomain (h : DomainHandle.t).

#[global] Instance ActiveExecution_eq_dec : EqDecision ActiveExecution.
Proof. solve_decision. Defined.

Module PendingTransition.
Record t := mk {
  sequence : Z;
  target : DomainHandle.t;
  target_ring : PrivilegeRing;
  address_space_root : Z;
  gate : TransitionGate;
}.
#[global] Instance t_eq_dec : EqDecision t.
Proof. solve_decision. Defined.
End PendingTransition.

Module TransitionLease.
Record t := mk { cpu_id : Z; cpu_generation : Z; pending : PendingTransition.t }.
End TransitionLease.

Module CommittedTransition.
Record t := mk {
  target : DomainHandle.t;
  target_ring : PrivilegeRing;
  address_space_root : Z;
  gate : TransitionGate;
  sequence : Z;
}.
End CommittedTransition.

Module KernelInvocation.
Record t := mk {
  cpu_id : Z;
  cpu_generation : Z;
  caller : DomainHandle.t;
  entry_sequence : Z;
}.
End KernelInvocation.

Module TransitionFrontier.

Record t := mk {
  cpu_id : Z;
  cpu_generation : Z;
  kernel_address_space_root : Z;
  sequence : Z;
  active : ActiveExecution;
  pending : option PendingTransition.t;
  invocation : option (DomainHandle.t * Z);
}.

(** A frontier with the registry it is called with. *)
Definition view : Type := t * DomainRegistry.t.
Definition on_registry {A} (m : M DomainRegistry.t AuthorityError A) : M view AuthorityError A :=
  zoom snd (λ r v, (fst v, r)) m.

Definition new (cpu_id cpu_generation root : Z) : result t AuthorityError :=
  if cpu_generation =? 0 then Err InvalidCpuGeneration else
  if negb (valid_page_table_root root) then Err InvalidAddressSpaceRoot else
  Ok (mk cpu_id cpu_generation root 0 ActiveKernel None None).

Definition prepare (target : DomainHandle.t) (gate : TransitionGate) :
    M view AuthorityError TransitionLease.t :=
  v ← get;
  let self := fst v in
  if negb (DomainRegistry.kernel_address_space_root (snd v) =? kernel_address_space_root self)
  then throw KernelAddressSpaceMismatch else
  if negb (bool_decide (active self = ActiveKernel)) then throw KernelNotActive else
  if bool_decide (is_Some (pending self)) then throw TransitionAlreadyPending else
  descriptor ← on_registry (DomainRegistry.descriptor target);
  let target_ring := ring_of (DomainDescriptor.role descriptor) in
  if negb (valid_dispatch_gate Kernel target_ring gate) then throw InvalidTransitionGate else
  if DomainDescriptor.address_space_root descriptor =? kernel_address_space_root self
  then throw SharedAddressSpace else
  sequence ← ok_or (checked_add 64 (sequence self) 1) GenerationExhausted;
  on_registry (DomainRegistry.retain_execution target) ;;
  let pending := PendingTransition.mk sequence target target_ring
    (DomainDescriptor.address_space_root descriptor) gate in
  modify (λ v, (mk (cpu_id self) (cpu_generation self) (kernel_address_space_root self) sequence
    (active self) (Some pending) None, snd v)) ;;
  mret (TransitionLease.mk (cpu_id self) (cpu_generation self) pending).

Definition commit (lease : TransitionLease.t) (observed_root : Z) :
    M view AuthorityError CommittedTransition.t :=
  v ← get;
  let self := fst v in
  if negb (TransitionLease.cpu_id lease =? cpu_id self)
     || negb (TransitionLease.cpu_generation lease =? cpu_generation self)
  then throw WrongCpu else
  let p := TransitionLease.pending lease in
  if negb (bool_decide (pending self = Some p)) then throw StaleTransition else
  descriptor ← on_registry (DomainRegistry.descriptor (PendingTransition.target p));
  if negb (DomainDescriptor.address_space_root descriptor =? PendingTransition.address_space_root p)
     || negb (bool_decide (ring_of (DomainDescriptor.role descriptor) = PendingTransition.target_ring p))
  then throw StaleDomain else
  if negb (observed_root =? kernel_address_space_root self)
     || negb (DomainRegistry.kernel_address_space_root (snd v) =? kernel_address_space_root self)
  then throw KernelAddressSpaceMismatch else
  if negb (valid_dispatch_gate Kernel (PendingTransition.target_ring p) (PendingTransition.gate p))
  then throw InvalidTransitionGate else
  modify (λ v, (mk (cpu_id self) (cpu_generation self) (kernel_address_space_root self) (sequence self)
    (ActiveDomain (PendingTransition.target p)) None (invocation self), snd v)) ;;
  mret (CommittedTransition.mk (PendingTransition.target p) (PendingTransition.target_ring p)
    (PendingTransition.address_space_root p) (PendingTransition.gate p) (PendingTransition.sequence p)).

Definition abort (lease : TransitionLease.t) : M view AuthorityError unit :=
  v ← get;
  let self := fst v in
  if negb (TransitionLease.cpu_id lease =? cpu_id self)
     || negb (TransitionLease.cpu_generation lease =? cpu_generation self)
  then throw WrongCpu else
  let p := TransitionLease.pending lease in
  if negb (bool_decide (pending self = Some p)) then throw StaleTransition else
  on_registry (DomainRegistry.release_execution (PendingTransition.target p)) ;;
  modify (λ v, (mk (cpu_id self) (cpu_generation self) (kernel_address_space_root self) (sequence self)
    (active self) None (invocation self), snd v)).

Definition enter_kernel (caller : DomainHandle.t) (source_root installed_root : Z) :
    M view AuthorityError KernelInvocation.t :=
  v ← get;
  let self := fst v in
  if bool_decide (is_Some (pending self)) then throw TransitionAlreadyPending else
  if negb (bool_decide (active self = ActiveDomain caller)) then throw UnexpectedCaller else
  descriptor ← on_registry (DomainRegistry.descriptor caller);
  if negb (DomainDescriptor.address_space_root descriptor =? source_root)
  then throw SourceAddressSpaceMismatch else
  if negb (installed_root =? kernel_address_space_root self)
     || negb (DomainRegistry.kernel_address_space_root (snd v) =? kernel_address_space_root self)
  then throw KernelAddressSpaceMismatch else
  entry_sequence ← ok_or (checked_add 64 (sequence self) 1) GenerationExhausted;
  on_registry (DomainRegistry.release_execution caller) ;;
  modify (λ v, (mk (cpu_id self) (cpu_generation self) (kernel_address_space_root self) entry_sequence
    ActiveKernel (pending self) (Some (caller, entry_sequence)), snd v)) ;;
  mret (KernelInvocation.mk (cpu_id self) (cpu_generation self) caller entry_sequence).

Definition validate_invocation (self : t) (i : KernelInvocation.t) : result unit AuthorityError :=
  if negb (KernelInvocation.cpu_id i =? cpu_id self)
     || negb (KernelInvocation.cpu_generation i =? cpu_generation self)
  then Err WrongCpu else
  if negb (bool_decide (active self = ActiveKernel)) || bool_decide (is_Some (pending self))
     || negb (bool_decide (invocation self =
          Some (KernelInvocation.caller i, KernelInvocation.entry_sequence i)))
  then Err StaleInvocation else Ok ().

End TransitionFrontier.

(** ** Brokered hardware requests *)

Module Broker.
Import DomainRegistry.

Definition authorized_caller (frontier : TransitionFrontier.t) (i : KernelInvocation.t) :
    M t AuthorityError DomainDescriptor.t :=
  lift (TransitionFrontier.validate_invocation frontier i) ;;
  descriptor (KernelInvocation.caller i).

Definition is_cell (d : DomainDescriptor.t) : bool :=
  bool_decide (DomainDescriptor.role d = NativeHardwareCell).

Definition authorize_io (frontier : TransitionFrontier.t) (i : KernelInvocation.t)
    (port byte_width : Z) : M t AuthorityError unit :=
  d ← authorized_caller frontier i;
  if negb (is_cell d) || negb (HardwareAuthority.permits_io (DomainDescriptor.authority d) port byte_width)
  then throw HardwareRequestDenied else mret ().

Definition authorize_mmio (frontier : TransitionFrontier.t) (i : KernelInvocation.t)
    (address length access : Z) : M t AuthorityError unit :=
  d ← authorized_caller frontier i;
  if negb (is_cell d)
     || negb (HardwareAuthority.permits_mmio (DomainDescriptor.authority d) address length access)
  then throw HardwareRequestDenied else mret ().

Definition authorize_dma (frontier : TransitionFrontier.t) (i : KernelInvocation.t)
    (iommu_domain generation requester_id : Z) : M t AuthorityError unit :=
  d ← authorized_caller frontier i;
  if negb (is_cell d)
     || negb (HardwareAuthority.permits_dma (DomainDescriptor.authority d)
                iommu_domain generation requester_id)
  then throw HardwareRequestDenied else mret ().
End Broker.
