(* ===== verification/RingFacts.v ===== *)
(** * What the registry and the frontier keep true

    Authorities are disjoint sets of resources, every live domain has an address
    space of its own, and a domain's reference count is the number of CPUs that
    run it or are about to. *)
From S2P Require Import Prelude Context RingAuthority.

Module RingFacts.
Import DomainSlot.

(** ** Authorities *)

(** The resources a request touches. *)
Definition io_span (r : IoPortRange.t) (x : Z) : Prop := IoPortRange.first r <= x <= IoPortRange.last r.
Definition mmio_span (r : MmioRange.t) (x : Z) : Prop := MmioRange.base r <= x < MmioRange.end_ r.

Lemma io_overlaps_spec r r' x : io_span r x → io_span r' x → IoPortRange.overlaps r r' = true.
Proof.
  unfold io_span, IoPortRange.overlaps. intros. apply andb_true_iff. split; apply Z.leb_le; lia.
Qed.
Lemma mmio_overlaps_spec r r' x : mmio_span r x → mmio_span r' x → MmioRange.overlaps r r' = true.
Proof.
  unfold mmio_span, MmioRange.overlaps. intros. apply andb_true_iff. split; apply Z.ltb_lt; lia.
Qed.

Lemma io_contains_span r port width x :
  IoPortRange.contains r port width = true → port <= x < port + width → io_span r x.
Proof.
  unfold IoPortRange.contains, io_span, checked_add. intros H Hx.
  destruct (negb _); [done|]. destruct (_ <? _); [|done]. bool_to_prop. lia.
Qed.
Lemma mmio_contains_span r address len access x :
  MmioRange.contains r address len access = true → address <= x < address + len → mmio_span r x.
Proof.
  unfold MmioRange.contains, mmio_span, checked_add. intros H Hx.
  destruct (_ || _); [done|]. destruct (_ <? _); [|done]. bool_to_prop. lia.
Qed.

(** The end of a range that was constructed fits a machine word. *)
Lemma mmio_new_end base length access r :
  MmioRange.new base length access = Ok r → MmioRange.end_ r < 2 ^ 64.
Proof.
  unfold MmioRange.new, checked_add. destruct (Z.ltb_spec (base + length) (2 ^ 64)) as [Hlt|]; simpl.
  - destruct (_ || _); [done|]. by intros [= <-].
  - by rewrite orb_true_r.
Qed.

Lemma elem_of_flatten {A} (l : list (option A)) x :
  x ∈ HardwareAuthority.flatten l ↔ Some x ∈ l.
Proof. unfold HardwareAuthority.flatten. rewrite list_elem_of_omap. naive_solver. Qed.

(** A resource within both authorities is a conflict. *)
Lemma conflicts_io a b r r' x :
  Some r ∈ HardwareAuthority.io_ports a → Some r' ∈ HardwareAuthority.io_ports b →
  io_span r x → io_span r' x → HardwareAuthority.conflicts_with a b = true.
Proof.
  intros Ha Hb Hx Hx'. unfold HardwareAuthority.conflicts_with. rewrite !orb_true_iff. left. left.
  apply existsb_elem. exists r. rewrite elem_of_flatten. split; [done|].
  apply existsb_elem. exists r'. rewrite elem_of_flatten. split; [done|]. by eapply io_overlaps_spec.
Qed.
Lemma conflicts_mmio a b r r' x :
  Some r ∈ HardwareAuthority.mmio a → Some r' ∈ HardwareAuthority.mmio b →
  mmio_span r x → mmio_span r' x → HardwareAuthority.conflicts_with a b = true.
Proof.
  intros Ha Hb Hx Hx'. unfold HardwareAuthority.conflicts_with. rewrite !orb_true_iff. left. right.
  apply existsb_elem. exists r. rewrite elem_of_flatten. split; [done|].
  apply existsb_elem. exists r'. rewrite elem_of_flatten. split; [done|]. by eapply mmio_overlaps_spec.
Qed.

Lemma existsb2_swap {A} (p q : A → A → bool) l k :
  (∀ x y, p x y = q y x) →
  existsb (λ x, existsb (λ y, p x y) k) l = existsb (λ y, existsb (λ x, q y x) l) k.
Proof.
  intros Hpq. apply eq_true_iff_eq. rewrite !existsb_elem. split.
  - intros (x & Hx & (y & Hy & Hp)%existsb_elem). exists y. split; [done|]. apply existsb_elem.
    exists x. by rewrite <- Hpq.
  - intros (y & Hy & (x & Hx & Hp)%existsb_elem). exists x. split; [done|]. apply existsb_elem.
    exists y. by rewrite Hpq.
Qed.

Lemma conflicts_sym a b :
  HardwareAuthority.conflicts_with a b = HardwareAuthority.conflicts_with b a.
Proof.
  unfold HardwareAuthority.conflicts_with. f_equal; [f_equal|].
  - apply existsb2_swap. intros. apply andb_comm.
  - apply existsb2_swap. intros. apply andb_comm.
  - destruct (HardwareAuthority.dma a), (HardwareAuthority.dma b); try done.
    by rewrite (Z.eqb_sym (DmaGrant.iommu_domain _)), (Z.eqb_sym (DmaGrant.requester_id _)).
Qed.

Lemma flatten_none {A} (l : list (option A)) :
  forallb HardwareAuthority.is_none l = true → HardwareAuthority.flatten l = [].
Proof. induction l as [|[x|] l IH]; simpl; [done..|]. intros. by apply IH. Qed.

Lemma conflicts_empty a b :
  HardwareAuthority.is_empty a = true → HardwareAuthority.conflicts_with a b = false.
Proof.
  unfold HardwareAuthority.is_empty, HardwareAuthority.conflicts_with. intros H. bool_to_prop.
  rewrite (flatten_none (HardwareAuthority.io_ports a)), (flatten_none (HardwareAuthority.mmio a)) by done.
  by destruct (HardwareAuthority.dma a).
Qed.

(** ** The registry *)

(** The slot a handle is the current name of. *)
Definition names (r : DomainRegistry.t) (h : DomainHandle.t) (sl : DomainSlot.t) : Prop :=
  DomainRegistry.slots r !! Z.to_nat (DomainHandle.slot h) = Some sl ∧ occupied sl = true ∧
  generation sl = DomainHandle.generation h.

Definition handle_ok (h : DomainHandle.t) : Prop := u16 (DomainHandle.slot h).
Definition handle_at (i : nat) (sl : DomainSlot.t) : DomainHandle.t :=
  DomainHandle.mk (Z.of_nat i) (generation sl).

Record slot_ok (r : DomainRegistry.t) (sl : DomainSlot.t) : Prop := {
  so_generation : u32 (generation sl);
  so_references : 0 <= execution_references sl <= 1;
  so_idle : occupied sl = false → execution_references sl = 0;
  so_issued : occupied sl = true → 0 < generation sl;
  so_valid : occupied sl = true → DomainDescriptor.validate (descriptor sl) = Ok ();
  so_kernel : occupied sl = true →
    DomainDescriptor.address_space_root (descriptor sl) ≠ DomainRegistry.kernel_address_space_root r;
}.

Definition apart (d d' : DomainDescriptor.t) : Prop :=
  DomainDescriptor.address_space_root d ≠ DomainDescriptor.address_space_root d' ∧
  HardwareAuthority.conflicts_with (DomainDescriptor.authority d) (DomainDescriptor.authority d') = false.

Record registry_ok (r : DomainRegistry.t) : Prop := {
  re_capacity : Z.of_nat (length (DomainRegistry.slots r)) <= 2 ^ 16;
  re_live : DomainRegistry.live r = count occupied (DomainRegistry.slots r);
  re_slots : ∀ i sl, DomainRegistry.slots r !! i = Some sl → slot_ok r sl;
  re_apart : ∀ i j si sj, DomainRegistry.slots r !! i = Some si → DomainRegistry.slots r !! j = Some sj →
    i ≠ j → occupied si = true → occupied sj = true → apart (descriptor si) (descriptor sj);
}.

Lemma apart_sym d d' : apart d d' → apart d' d.
Proof. intros [H1 H2]. split; [done|]. by rewrite conflicts_sym. Qed.

Lemma handle_slot h i : handle_ok h → Z.to_nat (DomainHandle.slot h) = i → DomainHandle.slot h = Z.of_nat i.
Proof. intros [Hs _]. lia. Qed.

Lemma names_at r h sl :
  handle_ok h → names r h sl → h = handle_at (Z.to_nat (DomainHandle.slot h)) sl.
Proof. intros [Hs _] (_ & _ & Hg). destruct h. unfold handle_at. simpl in *. f_equal; lia. Qed.

Lemma slot_exact r h :
  (∃ sl, names r h sl ∧ DomainRegistry.slot h r = Done sl r) ∨
  ((∀ sl, ¬ names r h sl) ∧ DomainRegistry.slot h r = Fail StaleDomain r).
Proof.
  unfold DomainRegistry.slot, names, mbind, M_bind, get, ok_or, throw, mret, M_ret.
  destruct (DomainRegistry.slots r !! Z.to_nat (DomainHandle.slot h)) as [sl|] eqn:Hsl; [|right; naive_solver].
  destruct (occupied sl) eqn:Ho; [|by right; split; [intros ? (? & ? & ?); simplify_eq; congruence|]].
  destruct (Z.eqb_spec (generation sl) (DomainHandle.generation h)); [left; eauto|].
  by right; split; [intros ? (? & ? & ?); simplify_eq; congruence|].
Qed.

Lemma descriptor_exact r h :
  (∃ sl, names r h sl ∧ DomainRegistry.descriptor h r = Done (descriptor sl) r) ∨
  ((∀ sl, ¬ names r h sl) ∧ DomainRegistry.descriptor h r = Fail StaleDomain r).
Proof.
  unfold DomainRegistry.descriptor, mbind, M_bind.
  destruct (slot_exact r h) as [(sl & Hn & ->)|[Hn ->]]; [left; eauto|by right].
Qed.

(** *** The three updates of a slot *)

Definition set_references (n : Z) (sl : DomainSlot.t) : DomainSlot.t :=
  DomainSlot.mk (occupied sl) (generation sl) n (descriptor sl).

Definition update (h : DomainHandle.t) (sl : DomainSlot.t) (r : DomainRegistry.t) : DomainRegistry.t :=
  DomainRegistry.with_slots (<[Z.to_nat (DomainHandle.slot h) := sl]> (DomainRegistry.slots r)) r.

Lemma retain_exact r h :
  (∃ sl, names r h sl ∧ execution_references sl = 0 ∧
     DomainRegistry.retain_execution h r = Done () (update h (set_references 1 sl) r)) ∨
  (∃ e, DomainRegistry.retain_execution h r = Fail e r).
Proof.
  unfold DomainRegistry.retain_execution, names, mbind, M_bind, get, ok_or, throw, mret, M_ret.
  destruct (DomainRegistry.slots r !! Z.to_nat (DomainHandle.slot h)) as [sl|] eqn:Hsl; [|by eauto].
  destruct (occupied sl) eqn:Ho; [|by eauto].
  destruct (Z.eqb_spec (generation sl) (DomainHandle.generation h)); [|by eauto].
  destruct (Z.eqb_spec (execution_references sl) 0) as [Hr|]; [|by eauto].
  left. exists sl. split; [done|]. split; [done|]. rewrite Hr. simpl.
  unfold update, set_references. by rewrite Ho.
Qed.

Lemma release_exact r h sl :
  names r h sl → execution_references sl = 1 →
  DomainRegistry.release_execution h r = Done () (update h (set_references 0 sl) r).
Proof.
  unfold DomainRegistry.release_execution, names, mbind, M_bind, get, ok_or, throw, mret, M_ret.
  intros (-> & Ho & Hg) Hr. rewrite Hg, Z.eqb_refl, Hr, Ho. simpl. unfold update, set_references. by rewrite Ho, Hg.
Qed.

(** A release can only fail on a handle that is stale or holds nothing. *)
Lemma release_fails r h :
  (∃ sl, names r h sl ∧ 1 <= execution_references sl) ∨ (∃ e, DomainRegistry.release_execution h r = Fail e r).
Proof.
  unfold DomainRegistry.release_execution, names, mbind, M_bind, get, ok_or, throw, mret, M_ret.
  destruct (DomainRegistry.slots r !! Z.to_nat (DomainHandle.slot h)) as [sl|] eqn:Hsl; [|by eauto].
  destruct (occupied sl) eqn:Ho; [|by eauto].
  destruct (Z.eqb_spec (generation sl) (DomainHandle.generation h)); [|by eauto].
  unfold checked_sub. destruct (Z.leb_spec 1 (execution_references sl)); [|by eauto]. left. eauto.
Qed.

(** *** Registering and revoking *)

Definition fresh_slot (old : DomainSlot.t) (d : DomainDescriptor.t) : DomainSlot.t :=
  DomainSlot.mk true (generation old + 1) 0 d.
Definition registered (i : nat) (old : DomainSlot.t) (d : DomainDescriptor.t) (r : DomainRegistry.t) :
    DomainRegistry.t :=
  DomainRegistry.mk (DomainRegistry.kernel_address_space_root r)
    (<[i := fresh_slot old d]> (DomainRegistry.slots r)) (DomainRegistry.live r + 1).

(** The conditions under which [register] puts [d] in slot [i]. *)
Record registrable (r : DomainRegistry.t) (d : DomainDescriptor.t) (i : nat) (old : DomainSlot.t) : Prop := {
  rg_slot : DomainRegistry.slots r !! i = Some old;
  rg_vacant : occupied old = false;
  rg_generation : generation old < MAX 32;
  rg_valid : DomainDescriptor.validate d = Ok ();
  rg_kernel : DomainDescriptor.address_space_root d ≠ DomainRegistry.kernel_address_space_root r;
  rg_apart : ∀ j sj, DomainRegistry.slots r !! j = Some sj → occupied sj = true → apart (descriptor sj) d;
}.

Lemma validate_empty d :
  DomainDescriptor.validate d = Ok () → DomainDescriptor.role d ≠ NativeHardwareCell →
  HardwareAuthority.is_empty (DomainDescriptor.authority d) = true.
Proof.
  unfold DomainDescriptor.validate. destruct (negb _); [done|].
  destruct (DomainDescriptor.role d); [done|..];
    by destruct (HardwareAuthority.is_empty (DomainDescriptor.authority d)).
Qed.

(** The conflict scan looks at hardware cells only; the others own nothing. *)
Lemma conflict_scan r d :
  registry_ok r → DomainDescriptor.validate d = Ok () →
  bool_decide (DomainDescriptor.role d = NativeHardwareCell)
    && existsb (λ sl, occupied sl
         && bool_decide (DomainDescriptor.role (descriptor sl) = NativeHardwareCell)
         && HardwareAuthority.conflicts_with (DomainDescriptor.authority (descriptor sl))
              (DomainDescriptor.authority d)) (DomainRegistry.slots r) = false →
  ∀ j sj, DomainRegistry.slots r !! j = Some sj → occupied sj = true →
    HardwareAuthority.conflicts_with (DomainDescriptor.authority (descriptor sj))
      (DomainDescriptor.authority d) = false.
Proof.
  intros Hok Hv Hscan j sj Hj Ho. apply andb_false_iff in Hscan as [Hr|Hscan].
  - apply bool_decide_eq_false in Hr. rewrite conflicts_sym. by apply conflicts_empty, validate_empty.
  - rewrite existsb_not_elem in Hscan. specialize (Hscan sj (list_elem_of_lookup_2 _ _ _ Hj)).
    rewrite Ho in Hscan. simpl in Hscan. apply andb_false_iff in Hscan as [Hr|]; [|done].
    apply bool_decide_eq_false in Hr. apply conflicts_empty, validate_empty; [|done].
    by apply (so_valid _ _ (re_slots _ Hok j sj Hj)).
Qed.

Lemma register_ok r d :
  registry_ok r →
  wp (DomainRegistry.register d)
    (λ h r', ∃ i old, registrable r d i old ∧ h = handle_at i (fresh_slot old d) ∧ r' = registered i old d r)
    (λ _ r', r' = r) r.
Proof.
  intros Hok. unfold DomainRegistry.register. wp_simpl.
  destruct (DomainDescriptor.validate d) as [[]|e] eqn:Hv; [|done]. cbv zeta.
  destruct (Z.eqb_spec (DomainDescriptor.address_space_root d) (DomainRegistry.kernel_address_space_root r))
    as [|Hk]; cbn [orb]; [by wp_simpl|].
  destruct (existsb _ (DomainRegistry.slots r)) eqn:Hshared; [by wp_simpl|]. rewrite existsb_not_elem in Hshared.
  destruct (bool_decide _ && _) eqn:Hscan; [by wp_simpl|]. wp_simpl.
  pose proof (conflict_scan r d Hok Hv Hscan) as Hconf. clear Hscan.
  destruct (position _ (DomainRegistry.slots r)) as [i|] eqn:Hpos; [|done]. wp_simpl.
  apply position_Some in Hpos as [(old & Hi & Hp) _]. bool_to_prop.
  pose proof (lookup_lt_Some _ _ _ Hi). pose proof (re_capacity _ Hok).
  destruct (so_generation _ _ (re_slots _ Hok i old Hi)) as [Hg0 Hg1].
  pose proof (count_bounds occupied (DomainRegistry.slots r)). pose proof (re_live _ Hok).
  apply (wp_index _ _ old); [lia|by rewrite Nat2Z.id|]. wp_simpl. unfold checked_add, MAX in *.
  rewrite (proj2 (Z.ltb_lt (generation old + 1) (2 ^ 32))) by lia. wp_simpl.
  apply wp_store; [lia|]. wp_simpl. apply wp_add; [lia|]. wp_simpl. rewrite Nat2Z.id.
  exists i, old. split; [|split; [|done]].
  - split; try done; [unfold MAX; lia|]. intros j sj Hj Ho. split; [|by eapply Hconf].
    specialize (Hshared sj (list_elem_of_lookup_2 _ _ _ Hj)). cbv beta in Hshared. rewrite Ho in Hshared.
    by apply Z.eqb_neq in Hshared.
  - unfold handle_at. f_equal. unfold wrap. rewrite Z.mod_small; [done|]. lia.
Qed.

Definition vacated (sl : DomainSlot.t) : DomainSlot.t :=
  DomainSlot.mk false (generation sl) (execution_references sl) (descriptor EMPTY).
Definition revoked (h : DomainHandle.t) (sl : DomainSlot.t) (r : DomainRegistry.t) : DomainRegistry.t :=
  DomainRegistry.mk (DomainRegistry.kernel_address_space_root r)
    (<[Z.to_nat (DomainHandle.slot h) := vacated sl]> (DomainRegistry.slots r)) (DomainRegistry.live r - 1).

Lemma revoke_ok r h :
  registry_ok r →
  wp (DomainRegistry.revoke h)
    (λ _ r', ∃ sl, names r h sl ∧ execution_references sl = 0 ∧ r' = revoked h sl r)
    (λ e r', r' = r ∧ (e = StaleDomain ∧ (∀ sl, ¬ names r h sl) ∨
       e = DomainBusy ∧ ∃ sl, names r h sl ∧ execution_references sl ≠ 0)) r.
Proof.
  intros Hok. unfold DomainRegistry.revoke, names. wp_simpl. cbv zeta. wp_simpl.
  destruct (DomainRegistry.slots r !! Z.to_nat (DomainHandle.slot h)) as [sl|] eqn:Hsl;
    [|split; [done|left; naive_solver]].
  destruct (occupied sl) eqn:Ho; cbn [negb orb]; wp_simpl.
  2:{ split; [done|]. left. split; [done|]. intros ? (? & ? & ?). simplify_eq. congruence. }
  destruct (Z.eqb_spec (generation sl) (DomainHandle.generation h)); cbn [negb]; wp_simpl.
  2:{ split; [done|]. left. split; [done|]. intros ? (? & ? & ?). simplify_eq. }
  destruct (Z.eqb_spec (execution_references sl) 0); cbn [negb]; wp_simpl; [|split; [done|right; eauto 6]].
  apply wp_sub; [|wp_simpl; by exists sl]. rewrite (re_live _ Hok).
  pose proof (count_pos occupied _ sl (list_elem_of_lookup_2 _ _ _ Hsl) Ho). lia.
Qed.

(** *** The invariant under one overwritten slot *)

Lemma registry_ok_insert r i old sl live :
  registry_ok r → DomainRegistry.slots r !! i = Some old → slot_ok r sl →
  (occupied sl = true → ∀ j sj, DomainRegistry.slots r !! j = Some sj → j ≠ i → occupied sj = true →
     apart (descriptor sj) (descriptor sl)) →
  live = DomainRegistry.live r - (if occupied old then 1 else 0) + (if occupied sl then 1 else 0) →
  registry_ok (DomainRegistry.mk (DomainRegistry.kernel_address_space_root r)
    (<[i := sl]> (DomainRegistry.slots r)) live).
Proof.
  intros [Hcap Hlive Hslots Hap] Hi Hsl Hnew ->. split; simpl.
  - by rewrite length_insert.
  - rewrite (count_insert _ _ _ _ _ Hi). lia.
  - intros j sj [(-> & <- & _)|(_ & Hj)]%list_lookup_insert_Some; [by destruct Hsl|].
    by destruct (Hslots j sj Hj).
  - intros j k sj sk Hj Hk Hne Ho Ho'.
    apply list_lookup_insert_Some in Hj as [(<- & <- & _)|(? & Hj)];
      apply list_lookup_insert_Some in Hk as [(<- & <- & _)|(? & Hk)].
    + done.
    + apply apart_sym. by eapply Hnew.
    + by eapply Hnew.
    + by eapply Hap.
Qed.

Lemma registered_ok r d i old : registry_ok r → registrable r d i old → registry_ok (registered i old d r).
Proof.
  intros Hok [Hi Hv Hg Hval Hk Hap]. eapply registry_ok_insert; [done..| |by eauto|by rewrite Hv; simpl; lia].
  destruct (so_generation _ _ (re_slots _ Hok i old Hi)). unfold MAX in Hg.
  split; simpl; try done; unfold in_width; lia.
Qed.

Lemma revoked_ok r h sl :
  registry_ok r → names r h sl → execution_references sl = 0 → registry_ok (revoked h sl r).
Proof.
  intros Hok (Hi & Ho & Hg) Hr. destruct (re_slots _ Hok _ _ Hi).
  eapply registry_ok_insert; [done..| |done|by rewrite Ho; simpl; lia]. by split.
Qed.

Lemma update_ok r h sl n :
  registry_ok r → names r h sl → 0 <= n <= 1 → registry_ok (update h (set_references n sl) r).
Proof.
  intros Hok (Hi & Ho & Hg) Hn. destruct (re_slots _ Hok _ _ Hi).
  eapply registry_ok_insert; [done..| | |simpl; lia].
  - split; simpl; try done. by rewrite Ho.
  - intros _ j sj Hj Hne Hoj. simpl. by eapply (re_apart _ Hok).
Qed.

End RingFacts.
