(* ===== verification/RingRuns.v ===== *)
(** * Runs of the domain registry and its CPUs

    The registry seen through its handles ([lookup_domain], [references]), the
    machine of one registry and any number of CPUs, and the invariant every call
    keeps. *)
From S2P Require Import Prelude Context RingAuthority RingFacts.

Module RingRuns.
Import DomainSlot RingFacts.

(** ** The registry by handle *)

Definition named (r : DomainRegistry.t) (h : DomainHandle.t) : option DomainSlot.t :=
  match DomainRegistry.slots r !! Z.to_nat (DomainHandle.slot h) with
  | Some sl => if occupied sl && (generation sl =? DomainHandle.generation h) then Some sl else None
  | None => None
  end.

(** The domain a handle names now. *)
Definition lookup_domain (r : DomainRegistry.t) (h : DomainHandle.t) : option DomainDescriptor.t :=
  descriptor <$> named r h.

(** The executions it is retained for. *)
Definition references (r : DomainRegistry.t) (h : DomainHandle.t) : Z :=
  match named r h with Some sl => execution_references sl | None => 0 end.

Lemma named_spec r h sl : named r h = Some sl ↔ names r h sl.
Proof.
  unfold named, names. destruct (DomainRegistry.slots r !! _) as [sl'|]; [|naive_solver].
  destruct (occupied sl') eqn:Ho; cbn [andb].
  - destruct (Z.eqb_spec (generation sl') (DomainHandle.generation h)); split;
      [intros [= <-]; auto|naive_solver|done|intros (? & ? & ?); simplify_eq].
  - split; [done|]. intros (? & ? & ?). simplify_eq. congruence.
Qed.

(** Handles of different slots are looked up in different slots. *)
Lemma same_slot h h' :
  handle_ok h → handle_ok h' → Z.to_nat (DomainHandle.slot h) = Z.to_nat (DomainHandle.slot h') →
  DomainHandle.slot h = DomainHandle.slot h'.
Proof. unfold handle_ok, in_width. lia. Qed.

Lemma handle_eq h h' :
  DomainHandle.slot h = DomainHandle.slot h' → DomainHandle.generation h = DomainHandle.generation h' → h = h'.
Proof. destruct h, h'. simpl. by intros -> ->. Qed.

Lemma named_insert root live r i sl h :
  (i < length (DomainRegistry.slots r))%nat →
  named (DomainRegistry.mk root (<[i := sl]> (DomainRegistry.slots r)) live) h =
    if decide (Z.to_nat (DomainHandle.slot h) = i)
    then (if occupied sl && (generation sl =? DomainHandle.generation h) then Some sl else None)
    else named r h.
Proof.
  intros Hi. unfold named. simpl. case_decide as Hd.
  - by rewrite Hd, list_lookup_insert_eq.
  - by rewrite list_lookup_insert_ne.
Qed.

Section updates.
Context (r : DomainRegistry.t) (Hok : registry_ok r).

Lemma handle_at_ok i sl : (i < length (DomainRegistry.slots r))%nat → handle_ok (handle_at i sl).
Proof. pose proof (re_capacity _ Hok). unfold handle_ok, in_width, handle_at. simpl. lia. Qed.

Lemma named_registered d i old h :
  registrable r d i old → handle_ok h →
  named (registered i old d r) h =
    if decide (h = handle_at i (fresh_slot old d)) then Some (fresh_slot old d) else named r h.
Proof.
  intros Hr Hh. pose proof (lookup_lt_Some _ _ _ (rg_slot _ _ _ _ Hr)) as Hi.
  unfold registered. rewrite named_insert by done. cbn [fresh_slot occupied generation andb].
  case_decide as Hd.
  - assert (Hs : DomainHandle.slot h = Z.of_nat i) by by apply handle_slot.
    assert (Hn : named r h = None).
    { unfold named. by rewrite Hd, (rg_slot _ _ _ _ Hr), (rg_vacant _ _ _ _ Hr). }
    rewrite Hn. destruct (Z.eqb_spec (generation old + 1) (DomainHandle.generation h)); case_decide as Hh'; try done.
    + destruct Hh'. destruct h. unfold handle_at. simpl in *. by f_equal.
    + by subst h.
  - case_decide as Hh'; [|done]. subst h. unfold handle_at in Hd. simpl in Hd. by rewrite Nat2Z.id in Hd.
Qed.

Lemma named_revoked h0 sl h :
  names r h0 sl → handle_ok h0 → handle_ok h →
  named (revoked h0 sl r) h = if decide (h = h0) then None else named r h.
Proof.
  intros (Hsl & Ho & Hg) Hh0 Hh. pose proof (lookup_lt_Some _ _ _ Hsl) as Hi.
  unfold revoked. rewrite named_insert by done. cbn [vacated occupied generation andb].
  case_decide as Hd; case_decide as He; try done; [|by subst].
  symmetry. unfold named. rewrite Hd, Hsl, Ho. cbn [andb].
  destruct (Z.eqb_spec (generation sl) (DomainHandle.generation h)); [|done].
  destruct He. apply handle_eq; [by apply same_slot|congruence].
Qed.

Lemma named_update h0 sl n h :
  names r h0 sl → handle_ok h0 → handle_ok h →
  named (update h0 (set_references n sl) r) h = if decide (h = h0) then Some (set_references n sl) else named r h.
Proof.
  intros (Hsl & Ho & Hg) Hh0 Hh. pose proof (lookup_lt_Some _ _ _ Hsl) as Hi.
  unfold update, DomainRegistry.with_slots. rewrite named_insert by done.
  cbn [set_references occupied generation]. rewrite Ho. cbn [andb].
  case_decide as Hd; case_decide as He; try done; [by subst; rewrite Hg, Z.eqb_refl| |by subst].
  destruct (Z.eqb_spec (generation sl) (DomainHandle.generation h)).
  - destruct He. apply handle_eq; [by apply same_slot|congruence].
  - symmetry. unfold named. rewrite Hd, Hsl, Ho. by rewrite (proj2 (Z.eqb_neq _ _)).
Qed.
End updates.

(** ** The frontier's operations *)

Import TransitionFrontier.

Lemma wp_on_registry {A} (m : M DomainRegistry.t AuthorityError A) Q R f r :
  wp (on_registry m) Q R (f, r) = wp m (λ a r', Q a (f, r')) (λ e r', R e (f, r')) r.
Proof. unfold wp, on_registry, zoom. simpl. by destruct (m r). Qed.

Lemma wp_descriptor h r (Q : DomainDescriptor.t → DomainRegistry.t → Prop)
    (R : AuthorityError → DomainRegistry.t → Prop) :
  (∀ sl, names r h sl → Q (descriptor sl) r) → R StaleDomain r → wp (DomainRegistry.descriptor h) Q R r.
Proof.
  intros HQ HR. destruct (descriptor_exact r h) as [(sl & Hn & Heq)|[_ Heq]]; eapply wp_eq; eauto.
  by apply HQ.
Qed.

(** The state a successful call leaves. *)
Definition pending_for (f : t) (h : DomainHandle.t) (d : DomainDescriptor.t) (gate : TransitionGate) :
    PendingTransition.t :=
  PendingTransition.mk (sequence f + 1) h (ring_of (DomainDescriptor.role d))
    (DomainDescriptor.address_space_root d) gate.
Definition prepared (f : t) (p : PendingTransition.t) : t :=
  mk (cpu_id f) (cpu_generation f) (kernel_address_space_root f) (PendingTransition.sequence p) (active f)
    (Some p) None.
Definition committed (f : t) (p : PendingTransition.t) : t :=
  mk (cpu_id f) (cpu_generation f) (kernel_address_space_root f) (sequence f)
    (ActiveDomain (PendingTransition.target p)) None (invocation f).
Definition aborted (f : t) : t :=
  mk (cpu_id f) (cpu_generation f) (kernel_address_space_root f) (sequence f) (active f) None (invocation f).
Definition entered (f : t) (h : DomainHandle.t) : t :=
  mk (cpu_id f) (cpu_generation f) (kernel_address_space_root f) (sequence f + 1) ActiveKernel (pending f)
    (Some (h, sequence f + 1)).

Lemma prepare_ok f r h gate :
  wp (prepare h gate)
    (λ lease v, ∃ sl, let p := pending_for f h (descriptor sl) gate in
       names r h sl ∧ execution_references sl = 0 ∧ active f = ActiveKernel ∧ pending f = None ∧
       valid_dispatch_gate Kernel (PendingTransition.target_ring p) gate = true ∧
       lease = TransitionLease.mk (cpu_id f) (cpu_generation f) p ∧
       v = (prepared f p, update h (set_references 1 sl) r))
    (λ _ v, v = (f, r)) (f, r).
Proof.
  unfold prepare. wp_simpl. cbn [fst snd]. cbv zeta.
  destruct (_ =? _); cbn [negb]; [|by wp_simpl]. case_bool_decide as Ha; cbn [negb]; [|by wp_simpl].
  case_bool_decide as Hp; [by wp_simpl|]. apply eq_None_not_Some in Hp. wp_simpl.
  rewrite wp_on_registry. apply wp_descriptor; [|done]. intros sl Hn.
  destruct (valid_dispatch_gate Kernel (ring_of (DomainDescriptor.role (descriptor sl))) gate) eqn:Hg;
    cbn [negb]; [|by wp_simpl].
  destruct (_ =? _); [by wp_simpl|]. wp_simpl. unfold checked_add.
  destruct (sequence f + 1 <? 2 ^ 64); [|done]. wp_simpl. rewrite wp_on_registry.
  destruct (retain_exact r h) as [(sl' & Hn' & Hr & Heq)|[e Heq]]; eapply wp_eq; eauto; simpl; [|done].
  assert (sl' = sl) as -> by (apply named_spec in Hn, Hn'; congruence). exists sl. auto 8.
Qed.

Lemma commit_ok f r lease root :
  wp (commit lease root)
    (λ c v, let p := TransitionLease.pending lease in pending f = Some p ∧
       c = CommittedTransition.mk (PendingTransition.target p) (PendingTransition.target_ring p)
         (PendingTransition.address_space_root p) (PendingTransition.gate p) (PendingTransition.sequence p) ∧
       (∃ sl, names r (PendingTransition.target p) sl ∧
          DomainDescriptor.address_space_root (descriptor sl) = PendingTransition.address_space_root p ∧
          ring_of (DomainDescriptor.role (descriptor sl)) = PendingTransition.target_ring p) ∧
       root = kernel_address_space_root f ∧
       valid_dispatch_gate Kernel (PendingTransition.target_ring p) (PendingTransition.gate p) = true ∧
       v = (committed f p, r))
    (λ _ v, v = (f, r)) (f, r).
Proof.
  unfold commit. wp_simpl. cbn [fst snd]. cbv zeta. destruct (negb _ || negb _); [by wp_simpl|].
  case_bool_decide as Hp; cbn [negb]; [|by wp_simpl]. wp_simpl.
  rewrite wp_on_registry. apply wp_descriptor; [|done]. intros sl Hn.
  destruct (Z.eqb_spec (DomainDescriptor.address_space_root (descriptor sl))
    (PendingTransition.address_space_root (TransitionLease.pending lease))) as [Hroot|]; cbn [negb orb]; [|by wp_simpl].
  case_bool_decide as Hring; cbn [negb]; [|by wp_simpl].
  destruct (Z.eqb_spec root (kernel_address_space_root f)); cbn [negb orb]; [|by wp_simpl].
  destruct (_ =? _); cbn [negb]; [|by wp_simpl].
  destruct (valid_dispatch_gate _ _ _) eqn:Hg; cbn [negb]; wp_simpl; [|done]. eauto 10.
Qed.

Lemma abort_ok f r lease sl :
  (∀ p, pending f = Some p → names r (PendingTransition.target p) sl ∧ execution_references sl = 1) →
  wp (abort lease)
    (λ _ v, let p := TransitionLease.pending lease in pending f = Some p ∧
       v = (aborted f, update (PendingTransition.target p) (set_references 0 sl) r))
    (λ _ v, v = (f, r)) (f, r).
Proof.
  intros Hheld. unfold abort. wp_simpl. cbn [fst snd]. cbv zeta. destruct (negb _ || negb _); [by wp_simpl|].
  case_bool_decide as Hp; cbn [negb]; [|by wp_simpl]. wp_simpl. destruct (Hheld _ Hp) as [Hn Hr].
  rewrite wp_on_registry. eapply wp_eq; [by apply release_exact|]. wp_simpl. done.
Qed.

Lemma enter_ok f r h src inst sl :
  (active f = ActiveDomain h → pending f = None → names r h sl ∧ execution_references sl = 1) →
  wp (enter_kernel h src inst)
    (λ i v, active f = ActiveDomain h ∧ pending f = None ∧ names r h sl ∧
       src = DomainDescriptor.address_space_root (descriptor sl) ∧ inst = kernel_address_space_root f ∧
       i = KernelInvocation.mk (cpu_id f) (cpu_generation f) h (sequence f + 1) ∧
       v = (entered f h, update h (set_references 0 sl) r))
    (λ _ v, v = (f, r)) (f, r).
Proof.
  intros Hheld. unfold enter_kernel. wp_simpl. cbn [fst snd]. cbv zeta.
  case_bool_decide as Hp; [by wp_simpl|]. apply eq_None_not_Some in Hp.
  case_bool_decide as Ha; cbn [negb]; [|by wp_simpl]. wp_simpl. destruct (Hheld Ha Hp) as [Hn Hr].
  rewrite wp_on_registry. apply wp_descriptor; [|done]. intros sl' Hn'.
  assert (sl' = sl) as -> by (apply named_spec in Hn, Hn'; congruence).
  destruct (Z.eqb_spec (DomainDescriptor.address_space_root (descriptor sl)) src); cbn [negb]; [|by wp_simpl].
  destruct (Z.eqb_spec inst (kernel_address_space_root f)); cbn [negb orb]; [|by wp_simpl].
  destruct (_ =? _); cbn [negb]; [|by wp_simpl]. wp_simpl. unfold checked_add.
  destruct (sequence f + 1 <? 2 ^ 64); [|done]. wp_simpl. rewrite wp_on_registry.
  eapply wp_eq; [by apply release_exact|]. wp_simpl. auto 8.
Qed.

(** ** One registry, many CPUs *)

Record world := World { registry : DomainRegistry.t; cpus : list t }.

(** The domain a CPU runs or is about to run. *)
Definition holds (f : t) : option DomainHandle.t :=
  match pending f with
  | Some p => Some (PendingTransition.target p)
  | None => match active f with ActiveDomain h => Some h | ActiveKernel => None end
  end.
Definition holding (h : DomainHandle.t) (f : t) : bool := bool_decide (holds f = Some h).

Record frontier_ok (r : DomainRegistry.t) (f : t) : Prop := {
  fo_sequence : 0 <= sequence f;
  fo_held : ∀ h, holds f = Some h → handle_ok h ∧ is_Some (lookup_domain r h);
  fo_pending : ∀ p, pending f = Some p →
    active f = ActiveKernel ∧ PendingTransition.sequence p = sequence f ∧
    ∃ d, lookup_domain r (PendingTransition.target p) = Some d ∧
      PendingTransition.address_space_root p = DomainDescriptor.address_space_root d ∧
      PendingTransition.target_ring p = ring_of (DomainDescriptor.role d);
}.

Record world_ok (w : world) : Prop := {
  wo_registry : registry_ok (registry w);
  wo_frontiers : ∀ k f, cpus w !! k = Some f → frontier_ok (registry w) f;
  wo_references : ∀ h, handle_ok h → references (registry w) h = count (holding h) (cpus w);
}.

Lemma frontier_ok_same r r' f :
  (∀ h, holds f = Some h → lookup_domain r' h = lookup_domain r h) → frontier_ok r f → frontier_ok r' f.
Proof.
  intros Hsame [Hs Hh Hp]. split; [done| |].
  - intros h Hf. rewrite Hsame by done. by apply Hh.
  - intros p Hf. rewrite Hsame; [by apply Hp|]. unfold holds. by rewrite Hf.
Qed.

(** A call on one CPU: the domains stay as they are, and the reference counts
    follow what that CPU holds. *)
Lemma cpu_move w k f f' r' :
  world_ok w → cpus w !! k = Some f → registry_ok r' → frontier_ok r' f' →
  (∀ h, handle_ok h → lookup_domain r' h = lookup_domain (registry w) h) →
  (∀ h, handle_ok h → references r' h = references (registry w) h
     - (if holding h f then 1 else 0) + (if holding h f' then 1 else 0)) →
  world_ok (World r' (<[k := f']> (cpus w))).
Proof.
  intros [Hr Hf Href] Hk Hr' Hf' Hlook Hrefs. split; simpl; [done| |].
  - intros j g [(-> & <- & _)|(_ & Hj)]%list_lookup_insert_Some; [done|].
    specialize (Hf j g Hj). eapply frontier_ok_same; [|done]. intros h Hh. apply Hlook. by apply Hf.
  - intros h Hh. rewrite Hrefs, Href, (count_insert _ _ _ f) by done. done.
Qed.

(** A change of the registry under which every held domain stays. *)
Lemma registry_move w r' :
  world_ok w → registry_ok r' →
  (∀ h, handle_ok h → references r' h = references (registry w) h) →
  (∀ h, handle_ok h → 0 < references (registry w) h → lookup_domain r' h = lookup_domain (registry w) h) →
  world_ok (World r' (cpus w)).
Proof.
  intros [Hr Hf Href] Hr' Hrefs Hlook. split; simpl; [done| |].
  - intros k f Hk. specialize (Hf k f Hk). eapply frontier_ok_same; [|done]. intros h Hh.
    destruct (fo_held _ _ Hf h Hh) as [Hok _]. apply Hlook; [done|]. rewrite Href by done.
    apply (count_pos _ _ f); [by eapply list_elem_of_lookup_2|]. by apply bool_decide_eq_true.
  - intros h Hh. by rewrite Hrefs, Href.
Qed.

Lemma register_world w d i old :
  world_ok w → registrable (registry w) d i old → world_ok (World (registered i old d (registry w)) (cpus w)).
Proof.
  intros Hw Hr. pose proof (wo_registry _ Hw) as Hok.
  assert (Hfresh : named (registry w) (handle_at i (fresh_slot old d)) = None).
  { unfold named, handle_at. simpl. by rewrite Nat2Z.id, (rg_slot _ _ _ _ Hr), (rg_vacant _ _ _ _ Hr). }
  apply registry_move; [done|by apply registered_ok|..].
  - intros h Hh. unfold references. rewrite named_registered by done.
    case_decide as Hd; [|done]. subst h. by rewrite Hfresh.
  - intros h Hh Hpos. unfold references, lookup_domain in *. rewrite named_registered by done.
    case_decide as Hd; [|done]. subst h. by rewrite Hfresh in Hpos.
Qed.

Lemma revoke_world w h sl :
  world_ok w → handle_ok h → names (registry w) h sl → execution_references sl = 0 →
  world_ok (World (revoked h sl (registry w)) (cpus w)).
Proof.
  intros Hw Hh Hn Hr. pose proof (wo_registry _ Hw) as Hok. pose proof (proj2 (named_spec _ _ _) Hn) as Hnd.
  apply registry_move; [done|by apply revoked_ok|..].
  - intros h' Hh'. unfold references. rewrite named_revoked by done. case_decide as Hd; [|done].
    subst h'. by rewrite Hnd.
  - intros h' Hh' Hpos. unfold references, lookup_domain in *. rewrite named_revoked by done.
    case_decide as Hd; [|done]. subst h'. rewrite Hnd in Hpos. lia.
Qed.

(** Setting a reference count. *)
Lemma references_update r h sl n h' :
  names r h sl → handle_ok h → handle_ok h' →
  references (update h (set_references n sl) r) h' = if decide (h' = h) then n else references r h'.
Proof. intros. unfold references. rewrite named_update by done. by case_decide. Qed.
Lemma lookup_update r h sl n h' :
  names r h sl → handle_ok h → handle_ok h' →
  lookup_domain (update h (set_references n sl) r) h' = lookup_domain r h'.
Proof.
  intros Hn Hh Hh'. unfold lookup_domain. rewrite named_update by done. case_decide; [|done]. subst.
  by rewrite (proj2 (named_spec _ _ _) Hn).
Qed.
Lemma names_lookup r h sl : names r h sl → lookup_domain r h = Some (descriptor sl).
Proof. intros Hn. unfold lookup_domain. by rewrite (proj2 (named_spec _ _ _) Hn). Qed.
Lemma names_references r h sl : names r h sl → references r h = execution_references sl.
Proof. intros Hn. unfold references. by rewrite (proj2 (named_spec _ _ _) Hn). Qed.

(** A held domain is live and retained exactly once. *)
Lemma held_once w k f h :
  world_ok w → cpus w !! k = Some f → holds f = Some h →
  handle_ok h ∧ ∃ sl, names (registry w) h sl ∧ execution_references sl = 1.
Proof.
  intros Hw Hk Hh. destruct (fo_held _ _ (wo_frontiers _ Hw k f Hk) h Hh) as [Hok [d Hd]]. split; [done|].
  unfold lookup_domain in Hd. destruct (named (registry w) h) as [sl|] eqn:Hn; [|done].
  apply named_spec in Hn. exists sl. split; [done|].
  pose proof (wo_references _ Hw h Hok) as Hr. rewrite (names_references _ _ _ Hn) in Hr.
  pose proof (count_pos (holding h) (cpus w) f (list_elem_of_lookup_2 _ _ _ Hk)
    (bool_decide_eq_true_2 _ Hh)).
  destruct Hn as (Hsl & _). destruct (so_references _ _ (re_slots _ (wo_registry _ Hw) _ _ Hsl)). lia.
Qed.

Lemma prepare_world w k f h gate sl :
  world_ok w → cpus w !! k = Some f → handle_ok h → names (registry w) h sl →
  execution_references sl = 0 → active f = ActiveKernel → pending f = None →
  world_ok (World (update h (set_references 1 sl) (registry w))
    (<[k := prepared f (pending_for f h (descriptor sl) gate)]> (cpus w))).
Proof.
  intros Hw Hk Hh Hn Hr Ha Hp. pose proof (wo_frontiers _ Hw k f Hk) as Hf.
  assert (Hlook : lookup_domain (update h (set_references 1 sl) (registry w)) h = Some (descriptor sl))
    by (rewrite lookup_update by done; by apply names_lookup).
  eapply cpu_move; [done..| | |by intros; apply lookup_update|].
  - apply update_ok; [apply Hw|done|done].
  - pose proof (fo_sequence _ _ Hf). split; simpl; [lia| |].
    + intros h' [= <-]. split; [done|]. by rewrite Hlook.
    + intros p [= <-]. split; [done|]. split; [done|]. by exists (descriptor sl).
  - intros h' Hh'. rewrite references_update by done. unfold holding, holds. rewrite Hp, Ha. simpl.
    case_decide as Hd.
    + subst h'. rewrite bool_decide_true, (names_references _ _ _ Hn) by done. lia.
    + rewrite bool_decide_false by congruence. lia.
Qed.

Lemma commit_world w k f p :
  world_ok w → cpus w !! k = Some f → pending f = Some p →
  world_ok (World (registry w) (<[k := committed f p]> (cpus w))).
Proof.
  intros Hw Hk Hp. pose proof (wo_frontiers _ Hw k f Hk) as Hf.
  assert (Hholds : holds (committed f p) = holds f) by (unfold holds; simpl; by rewrite Hp).
  eapply cpu_move; [done..|apply Hw| |done|].
  - split; [apply Hf| |done]. rewrite Hholds. apply Hf.
  - intros h Hh. unfold holding. rewrite Hholds. lia.
Qed.

(** Letting go of a held domain. *)
Lemma release_world w k f f' h sl :
  world_ok w → cpus w !! k = Some f → holds f = Some h → handle_ok h → names (registry w) h sl →
  execution_references sl = 1 → holds f' = None → pending f' = None → 0 <= sequence f' →
  world_ok (World (update h (set_references 0 sl) (registry w)) (<[k := f']> (cpus w))).
Proof.
  intros Hw Hk Hh Hok Hn Hr Hf' Hp' Hs. eapply cpu_move; [done..| | |by intros; apply lookup_update|].
  - apply update_ok; [apply Hw|done|done].
  - split; [done|by rewrite Hf'|by rewrite Hp'].
  - intros h' Hh'. rewrite references_update by done. unfold holding. rewrite Hh, Hf'. simpl.
    case_decide as Hd.
    + subst h'. rewrite bool_decide_true, (names_references _ _ _ Hn) by done. lia.
    + rewrite bool_decide_false by congruence. lia.
Qed.

(** ** Calls and histories *)

Inductive call :=
| Register (d : DomainDescriptor.t)
| Revoke (h : DomainHandle.t)
| Prepare (k : nat) (h : DomainHandle.t) (gate : TransitionGate)
| Commit (k : nat) (lease : TransitionLease.t) (root : Z)
| Abort (k : nat) (lease : TransitionLease.t)
| Enter (k : nat) (h : DomainHandle.t) (src inst : Z).

Inductive event :=
| Registered (h : DomainHandle.t)
| Revoked (h : DomainHandle.t)
| Prepared (k : nat) (lease : TransitionLease.t)
| Committed (k : nat) (c : CommittedTransition.t)
| Aborted (k : nat) (lease : TransitionLease.t)
| Entered (k : nat) (i : KernelInvocation.t).

(** Handles come from the registry, whose slot numbers have 16 bits. *)
Definition call_ok (c : call) : Prop :=
  match c with Revoke h | Prepare _ h _ => handle_ok h | _ => True end.

(** A call on CPU [k], if there is one. *)
Definition on_cpu {A} (k : nat) (m : M view AuthorityError A) (e : A → event) (w : world) :
    option (world * list event) :=
  match cpus w !! k with
  | None => Some (w, [])
  | Some f =>
      match m (f, registry w) with
      | Done a v => Some (World (snd v) (<[k := fst v]> (cpus w)), [e a])
      | Fail _ v => Some (World (snd v) (<[k := fst v]> (cpus w)), [])
      | Panic => None
      end
  end.

Definition on_table {A} (m : M DomainRegistry.t AuthorityError A) (e : A → event) (w : world) :
    option (world * list event) :=
  match m (registry w) with
  | Done a r => Some (World r (cpus w), [e a])
  | Fail _ r => Some (World r (cpus w), [])
  | Panic => None
  end.

Definition perform (c : call) : world → option (world * list event) :=
  match c with
  | Register d => on_table (DomainRegistry.register d) Registered
  | Revoke h => on_table (DomainRegistry.revoke h) (λ _, Revoked h)
  | Prepare k h gate => on_cpu k (prepare h gate) (Prepared k)
  | Commit k lease root => on_cpu k (commit lease root) (Committed k)
  | Abort k lease => on_cpu k (abort lease) (λ _, Aborted k lease)
  | Enter k h src inst => on_cpu k (enter_kernel h src inst) (Entered k)
  end.

Fixpoint history (cs : list call) (w : world) : option (world * list event) :=
  match cs with
  | [] => Some (w, [])
  | c :: cs' =>
      match perform c w with
      | Some (w', es) => match history cs' w' with Some (w'', es') => Some (w'', es ++ es') | None => None end
      | None => None
      end
  end.

(** ** What a call can do *)

Definition certificate (p : PendingTransition.t) : CommittedTransition.t :=
  CommittedTransition.mk (PendingTransition.target p) (PendingTransition.target_ring p)
    (PendingTransition.address_space_root p) (PendingTransition.gate p) (PendingTransition.sequence p).
Definition lease_of (f : t) (p : PendingTransition.t) : TransitionLease.t :=
  TransitionLease.mk (cpu_id f) (cpu_generation f) p.
Definition invocation_of (f : t) (h : DomainHandle.t) : KernelInvocation.t :=
  KernelInvocation.mk (cpu_id f) (cpu_generation f) h (sequence f + 1).

Inductive effect (w : world) : world → list event → Prop :=
| eff_none : effect w w []
| eff_register d i old :
    registrable (registry w) d i old →
    effect w (World (registered i old d (registry w)) (cpus w)) [Registered (handle_at i (fresh_slot old d))]
| eff_revoke h sl :
    handle_ok h → names (registry w) h sl → execution_references sl = 0 →
    effect w (World (revoked h sl (registry w)) (cpus w)) [Revoked h]
| eff_prepare k f h gate sl :
    cpus w !! k = Some f → handle_ok h → names (registry w) h sl → execution_references sl = 0 →
    active f = ActiveKernel → pending f = None →
    let p := pending_for f h (descriptor sl) gate in
    effect w (World (update h (set_references 1 sl) (registry w)) (<[k := prepared f p]> (cpus w)))
      [Prepared k (lease_of f p)]
| eff_commit k f p :
    cpus w !! k = Some f → pending f = Some p →
    valid_dispatch_gate Kernel (PendingTransition.target_ring p) (PendingTransition.gate p) = true →
    effect w (World (registry w) (<[k := committed f p]> (cpus w))) [Committed k (certificate p)]
| eff_abort k f lease sl :
    cpus w !! k = Some f → pending f = Some (TransitionLease.pending lease) →
    let h := PendingTransition.target (TransitionLease.pending lease) in
    names (registry w) h sl → execution_references sl = 1 →
    effect w (World (update h (set_references 0 sl) (registry w)) (<[k := aborted f]> (cpus w)))
      [Aborted k lease]
| eff_enter k f h sl :
    cpus w !! k = Some f → active f = ActiveDomain h → pending f = None →
    names (registry w) h sl → execution_references sl = 1 →
    effect w (World (update h (set_references 0 sl) (registry w)) (<[k := entered f h]> (cpus w)))
      [Entered k (invocation_of f h)].

Lemma effect_ok w w' es : world_ok w → effect w w' es → world_ok w'.
Proof.
  intros Hw He. destruct He as [|d i old Hr|h sl Hh Hn Hr|k f h gate sl Hk Hh Hn Hr Ha Hp p|k f p Hk Hp Hg
    |k f lease sl Hk Hp h Hn Hr|k f h sl Hk Ha Hp Hn Hr].
  - done.
  - by apply register_world.
  - by apply revoke_world.
  - by apply prepare_world.
  - by apply commit_world.
  - destruct (fo_pending _ _ (wo_frontiers _ Hw k f Hk) _ Hp) as (Ha & _).
    assert (Hh : holds f = Some h) by (unfold holds; by rewrite Hp).
    apply (release_world w k f); try done; [by eapply held_once|unfold holds; simpl; by rewrite Ha|].
    apply (wo_frontiers _ Hw k f Hk).
  - assert (Hh : holds f = Some h) by (unfold holds; by rewrite Hp, Ha).
    pose proof (fo_sequence _ _ (wo_frontiers _ Hw k f Hk)).
    apply (release_world w k f); try done; [by eapply held_once|unfold holds; simpl; by rewrite Hp|simpl; lia].
Qed.

Lemma unchanged w k f : cpus w !! k = Some f → World (registry w) (<[k := f]> (cpus w)) = w.
Proof. intros. rewrite list_insert_id by done. by destruct w. Qed.

Lemma on_cpu_effect {A} k (m : M view AuthorityError A) e w :
  (∀ f, cpus w !! k = Some f →
     wp m (λ a v, effect w (World (snd v) (<[k := fst v]> (cpus w))) [e a]) (λ _ v, v = (f, registry w))
       (f, registry w)) →
  ∃ w' es, on_cpu k m e w = Some (w', es) ∧ effect w w' es.
Proof.
  intros Hm. unfold on_cpu. destruct (cpus w !! k) as [f|] eqn:Hk; [|eauto using eff_none].
  specialize (Hm f eq_refl). unfold wp in Hm. destruct (m (f, registry w)) as [a v|er v|]; [by eauto| |done].
  subst v. simpl. rewrite unchanged by done. eauto using eff_none.
Qed.

(** Every call returns, and does one of these things or nothing. *)
Lemma perform_effect c w :
  world_ok w → call_ok c → ∃ w' es, perform c w = Some (w', es) ∧ effect w w' es.
Proof.
  intros Hw Hc. destruct c as [d|h|k h gate|k lease root|k lease|k h src inst]; simpl in Hc |- *.
  - pose proof (register_ok (registry w) d (wo_registry _ Hw)) as H. unfold on_table. unfold wp in H.
    destruct (DomainRegistry.register d (registry w)) as [h r|e r|]; [|subst; by destruct w; eauto using eff_none|done].
    destruct H as (i & old & Hr & -> & ->). eauto using eff_register.
  - pose proof (revoke_ok (registry w) h (wo_registry _ Hw)) as H. unfold on_table. unfold wp in H.
    destruct (DomainRegistry.revoke h (registry w)) as [u r|e r|]; [|destruct H as [-> _]; by destruct w; eauto using eff_none|done].
    destruct H as (sl & Hn & Hr & ->). eauto using eff_revoke.
  - apply on_cpu_effect. intros f Hk. eapply wp_mono; [apply prepare_ok| |done].
    intros lease v (sl & Hn & Hr & Ha & Hp & _ & -> & ->). by eapply eff_prepare.
  - apply on_cpu_effect. intros f Hk. eapply wp_mono; [apply commit_ok| |done].
    intros c v (Hp & -> & _ & _ & Hg & ->). by eapply eff_commit.
  - apply on_cpu_effect. intros f Hk. destruct (pending f) as [p|] eqn:Hp.
    + assert (Hh : holds f = Some (PendingTransition.target p)) by (unfold holds; by rewrite Hp).
      destruct (held_once w k f _ Hw Hk Hh) as (_ & sl & Hn & Hr).
      eapply wp_mono; [apply (abort_ok f (registry w) lease sl)| |done]; [intros ? Hp'; by simplify_eq|].
      cbv beta. intros _ v (Hp' & ->). rewrite Hp in Hp'. injection Hp' as ->. by eapply eff_abort.
    + eapply wp_mono; [apply (abort_ok f (registry w) lease DomainSlot.EMPTY)| |done]; [congruence|].
      cbv beta. intros _ v (Hp' & _). congruence.
  - apply on_cpu_effect. intros f Hk.
    assert (Hsl : ∃ sl, active f = ActiveDomain h → pending f = None →
      names (registry w) h sl ∧ execution_references sl = 1).
    { destruct (decide (active f = ActiveDomain h ∧ pending f = None)) as [[Ha Hp]|Hno].
      - assert (Hh : holds f = Some h) by (unfold holds; by rewrite Hp, Ha).
        destruct (held_once w k f h Hw Hk Hh) as (_ & sl & Hsl). by exists sl.
      - exists DomainSlot.EMPTY. naive_solver. }
    destruct Hsl as [sl Hsl]. eapply wp_mono; [apply (enter_ok f (registry w) h src inst sl Hsl)| |done].
    intros i v (Ha & Hp & Hn & _ & _ & -> & ->). eapply eff_enter; [done..|]. by apply Hsl.
Qed.

(** ** Induction over histories *)

(** A history run from [w], seen as the effects of its calls. *)
Inductive trace (w : world) : world → list event → Prop :=
| trace_nil : trace w w []
| trace_snoc w1 w2 es es' : trace w w1 es → effect w1 w2 es' → trace w w2 (es ++ es').

Lemma ring_trace_ok w w' es : world_ok w → trace w w' es → world_ok w'.
Proof. intros Hw. induction 1; [done|]. by eapply effect_ok. Qed.

Lemma ring_trace_app w1 w2 w3 es es' : trace w1 w2 es → trace w2 w3 es' → trace w1 w3 (es ++ es').
Proof.
  intros H1. induction 1 as [|w3 w4 es1 es2 _ IH He]; [by rewrite app_nil_r|].
  rewrite app_assoc. by eapply trace_snoc.
Qed.

Lemma ring_history_trace cs w :
  Forall call_ok cs → world_ok w → ∃ w' es, history cs w = Some (w', es) ∧ trace w w' es.
Proof.
  intros Hcs. revert w. induction Hcs as [|c cs Hc _ IH]; intros w Hw; simpl; [eauto using trace_nil|].
  destruct (perform_effect c w Hw Hc) as (w1 & es & -> & He).
  destruct (IH w1 (effect_ok _ _ _ Hw He)) as (w2 & es' & -> & Ht). do 2 eexists. split; [done|].
  eapply ring_trace_app; [|done]. apply (trace_snoc w w w1 [] es); [constructor|done].
Qed.

End RingRuns.
