(* ===== verification/RingProperties.v ===== *)
(** * The guarantees of privilege-domain dispatch

    From any boot and after any calls: CPUs run live domains with address spaces
    of their own, no hardware resource is granted to two of them, handles, leases
    and invocations are good exactly once. *)
From S2P Require Import Prelude Context RingAuthority RingFacts RingRuns.

Module RingProperties.
Import DomainSlot RingFacts RingRuns TransitionFrontier.

(** ** Boot *)

Definition booted (w : world) : Prop :=
  (∃ N root, DomainRegistry.new N root = Ok (registry w)) ∧
  Forall (λ f, ∃ id gen root, TransitionFrontier.new id gen root = Ok f) (cpus w).

Lemma new_registry N root r :
  DomainRegistry.new N root = Ok r →
  r = DomainRegistry.mk root (replicate N EMPTY) 0 ∧ Z.of_nat N <= 2 ^ 16.
Proof.
  unfold DomainRegistry.new, MAX. destruct (_ || _) eqn:Hc; [done|]. destruct (negb _); [done|].
  intros [= <-]. bool_to_prop. split; [done|lia].
Qed.

Lemma new_frontier id gen root f :
  TransitionFrontier.new id gen root = Ok f → f = TransitionFrontier.mk id gen root 0 ActiveKernel None None.
Proof. unfold TransitionFrontier.new. destruct (_ =? _); [done|]. destruct (negb _); [done|]. by intros [= <-]. Qed.

Lemma boot_lookup w h : booted w → named (registry w) h = None.
Proof.
  intros [(N & root & [-> _]%new_registry) _]. unfold named. simpl.
  destruct (replicate N EMPTY !! _) as [sl|] eqn:Hl; [|done]. by apply lookup_replicate in Hl as [-> _].
Qed.

Lemma boot_cpu w k f :
  booted w → cpus w !! k = Some f → sequence f = 0 ∧ active f = ActiveKernel ∧ pending f = None ∧ invocation f = None.
Proof.
  intros [_ Hf] Hk. destruct (Forall_lookup_1 _ _ _ _ Hf Hk) as (id & gen & root & ->%new_frontier). done.
Qed.

Lemma boot_world w : booted w → world_ok w.
Proof.
  intros Hb. split.
  - pose proof Hb as [(N & root & [-> HN]%new_registry) _]. split; simpl.
    + by rewrite length_replicate.
    + clear. induction N as [|N IH]; [done|]. simpl. by rewrite count_cons, <- IH.
    + intros i sl [-> _]%lookup_replicate. by split.
    + intros i j si sj [-> _]%lookup_replicate. done.
  - intros k f Hk. destruct (boot_cpu w k f Hb Hk) as (Hs & Ha & Hp & _). split; [lia| |by rewrite Hp].
    unfold holds. by rewrite Hp, Ha.
  - intros h Hh. unfold references. rewrite boot_lookup by done. symmetry. apply count_zero.
    intros f [k Hk]%list_elem_of_lookup. destruct (boot_cpu w k f Hb Hk) as (_ & Ha & Hp & _).
    apply bool_decide_eq_false. unfold holds. by rewrite Hp, Ha.
Qed.

(** ** Isolation *)

Lemma count_two {A} (p : A → bool) l i j x y :
  l !! i = Some x → l !! j = Some y → i ≠ j → p x = true → p y = true → 2 <= count p l.
Proof.
  revert i j. induction l as [|z l IH]; intros i j Hi Hj Hne Hx Hy; [done|]. rewrite count_cons.
  destruct i as [|i], j as [|j]; simplify_eq/=.
  - rewrite Hx. pose proof (count_pos p l y (list_elem_of_lookup_2 _ _ _ Hj) Hy). lia.
  - rewrite Hy. pose proof (count_pos p l x (list_elem_of_lookup_2 _ _ _ Hi) Hx). lia.
  - specialize (IH i j Hi Hj ltac:(lia) Hx Hy). destruct (p z); lia.
Qed.

Lemma active_holds w k f h :
  world_ok w → cpus w !! k = Some f → active f = ActiveDomain h → holds f = Some h.
Proof.
  intros Hw Hk Ha. unfold holds. rewrite Ha. destruct (pending f) as [p|] eqn:Hp; [|done].
  destruct (fo_pending _ _ (wo_frontiers _ Hw k f Hk) p Hp) as [? _]. congruence.
Qed.

Lemma holders_differ w i j f f' h :
  world_ok w → cpus w !! i = Some f → cpus w !! j = Some f' → i ≠ j → holds f = Some h → holds f' ≠ Some h.
Proof.
  intros Hw Hi Hj Hne Hf Hf'. destruct (held_once w i f h Hw Hi Hf) as (Hok & sl & Hn & Hr).
  pose proof (wo_references _ Hw h Hok) as Href. rewrite (names_references _ _ _ Hn) in Href.
  pose proof (count_two (holding h) (cpus w) i j f f' Hi Hj Hne) as H2.
  unfold holding in H2 at 1 2. rewrite !bool_decide_true in H2 by done. specialize (H2 eq_refl eq_refl). lia.
Qed.

(** Two live handles name one slot or domains that are apart. *)
Lemma named_apart r h h' sl sl' :
  registry_ok r → handle_ok h → handle_ok h' → names r h sl → names r h' sl' → h ≠ h' →
  apart (descriptor sl) (descriptor sl').
Proof.
  intros Hr Hh Hh' (Hs & Ho & Hg) (Hs' & Ho' & Hg') Hne. eapply (re_apart _ Hr); [done..| |done|done].
  intros Heq. apply Hne. apply handle_eq; [by apply same_slot|]. rewrite Heq in Hs. congruence.
Qed.

Lemma descriptor_named r h sl : names r h sl → DomainRegistry.descriptor h r = Done (descriptor sl) r.
Proof.
  intros Hn. destruct (descriptor_exact r h) as [(sl' & Hn' & Heq)|[Hno _]]; [|by destruct (Hno sl)].
  apply named_spec in Hn, Hn'. congruence.
Qed.

(** C9: running domains are isolated. After any calls from boot (none of which
    panics), a CPU that has left the kernel runs a domain that is still
    registered, cannot be revoked, and has an address space that is neither the
    kernel's nor that of a domain any other CPU runs; two CPUs never run the same
    domain. *)
Theorem running_domains_isolated w0 cs :
  booted w0 → Forall call_ok cs →
  ∃ w es, history cs w0 = Some (w, es) ∧
    ∀ i f h, cpus w !! i = Some f → active f = ActiveDomain h →
      ∃ d, DomainRegistry.descriptor h (registry w) = Done d (registry w) ∧
        DomainDescriptor.address_space_root d ≠ DomainRegistry.kernel_address_space_root (registry w) ∧
        DomainRegistry.revoke h (registry w) = Fail DomainBusy (registry w) ∧
        ∀ j f' h', cpus w !! j = Some f' → active f' = ActiveDomain h' → i ≠ j →
          h ≠ h' ∧ ∃ d', DomainRegistry.descriptor h' (registry w) = Done d' (registry w) ∧
            DomainDescriptor.address_space_root d ≠ DomainDescriptor.address_space_root d'.
Proof.
  intros Hb Hcs. destruct (ring_history_trace cs w0 Hcs (boot_world _ Hb)) as (w & es & Heq & Ht).
  pose proof (ring_trace_ok _ _ _ (boot_world _ Hb) Ht) as Hw. exists w, es. split; [done|]. intros i f h Hi Ha.
  pose proof (active_holds w i f h Hw Hi Ha) as Hh.
  destruct (held_once w i f h Hw Hi Hh) as (Hok & sl & Hn & Hr). exists (descriptor sl).
  split; [by apply descriptor_named|]. split.
  { pose proof Hn as (Hs & Ho & _). by apply (so_kernel _ _ (re_slots _ (wo_registry _ Hw) _ _ Hs)). }
  split.
  { pose proof (revoke_ok (registry w) h (wo_registry _ Hw)) as Hrev. unfold wp in Hrev.
    destruct (DomainRegistry.revoke h (registry w)) as [u r|e r|]; [|destruct Hrev as [-> [[-> Hno]|[-> _]]]|done].
    - destruct Hrev as (sl' & Hn' & Hr' & _). apply named_spec in Hn, Hn'. simplify_eq. congruence.
    - by destruct (Hno sl).
    - done. }
  intros j f' h' Hj Ha' Hne. pose proof (active_holds w j f' h' Hw Hj Ha') as Hh'.
  assert (h ≠ h') by (intros ->; by eapply (holders_differ w i j)). split; [done|].
  destruct (held_once w j f' h' Hw Hj Hh') as (Hok' & sl' & Hn' & _). exists (descriptor sl').
  split; [by apply descriptor_named|]. by destruct (named_apart _ _ _ _ _ (wo_registry _ Hw) Hok Hok' Hn Hn').
Qed.

(** ** Hardware requests *)

(** A broker's three requests share their shape. *)
Definition request (f : t) (i : KernelInvocation.t) (permits : HardwareAuthority.t → bool) :
    M DomainRegistry.t AuthorityError unit :=
  d ← Broker.authorized_caller f i;
  if negb (Broker.is_cell d) || negb (permits (DomainDescriptor.authority d))
  then throw HardwareRequestDenied else mret ().

Lemma request_exact f i permits r :
  request f i permits r =
    match validate_invocation f i with
    | Err e => Fail e r
    | Ok _ =>
      match lookup_domain r (KernelInvocation.caller i) with
      | None => Fail StaleDomain r
      | Some d => if Broker.is_cell d && permits (DomainDescriptor.authority d)
                  then Done () r else Fail HardwareRequestDenied r
      end
    end.
Proof.
  unfold request, Broker.authorized_caller, mbind, M_bind, lift.
  destruct (validate_invocation f i) as [[]|e]; [|done]. simpl.
  destruct (descriptor_exact r (KernelInvocation.caller i)) as [(sl & Hn & ->)|[Hno ->]].
  - rewrite (names_lookup _ _ _ Hn). by destruct (Broker.is_cell _), (permits _).
  - unfold lookup_domain. destruct (named r (KernelInvocation.caller i)) as [sl|] eqn:Hn; [|done].
    apply named_spec in Hn. by destruct (Hno sl).
Qed.

Lemma request_granted f i permits r :
  request f i permits r = Done () r → ∃ sl, names r (KernelInvocation.caller i) sl ∧
    permits (DomainDescriptor.authority (descriptor sl)) = true.
Proof.
  rewrite request_exact. unfold lookup_domain. destruct (validate_invocation f i); [|done].
  destruct (named r (KernelInvocation.caller i)) as [sl|] eqn:Hn; [|done]. simpl.
  destruct (_ && _) eqn:Hp; [|done]. intros _. apply named_spec in Hn. bool_to_prop. eauto.
Qed.

(** Requests of two callers are granted on authorities that do not conflict. *)
Lemma requests_apart r f f' i i' p p' :
  registry_ok r → handle_ok (KernelInvocation.caller i) → handle_ok (KernelInvocation.caller i') →
  KernelInvocation.caller i ≠ KernelInvocation.caller i' →
  request f i p r = Done () r → request f' i' p' r = Done () r →
  ∃ a a', p a = true ∧ p' a' = true ∧ HardwareAuthority.conflicts_with a a' = false.
Proof.
  intros Hr Hh Hh' Hne (sl & Hn & Hp)%request_granted (sl' & Hn' & Hp')%request_granted.
  destruct (named_apart _ _ _ _ _ Hr Hh Hh' Hn Hn' Hne) as [_ Hc]. eauto.
Qed.

(** C8: hardware authority is exclusive. After any calls from boot, requests of
    two different domains are never both granted for a common I/O port, a common
    MMIO byte, or a common DMA requester or IOMMU domain. *)
Theorem hardware_authority_exclusive w0 cs w es f f' i i' :
  booted w0 → Forall call_ok cs → history cs w0 = Some (w, es) →
  handle_ok (KernelInvocation.caller i) → handle_ok (KernelInvocation.caller i') →
  KernelInvocation.caller i ≠ KernelInvocation.caller i' →
  let r := registry w in
  (∀ port width port' width' x,
     Broker.authorize_io f i port width r = Done () r → Broker.authorize_io f' i' port' width' r = Done () r →
     port <= x < port + width → ¬ port' <= x < port' + width') ∧
  (∀ a len acc a' len' acc' x,
     Broker.authorize_mmio f i a len acc r = Done () r → Broker.authorize_mmio f' i' a' len' acc' r = Done () r →
     a <= x < a + len → ¬ a' <= x < a' + len') ∧
  (∀ dom gen req dom' gen' req',
     Broker.authorize_dma f i dom gen req r = Done () r → Broker.authorize_dma f' i' dom' gen' req' r = Done () r →
     dom ≠ dom' ∧ req ≠ req').
Proof.
  intros Hb Hcs Heq Hh Hh' Hne r. destruct (ring_history_trace cs w0 Hcs (boot_world _ Hb)) as (w1 & es1 & Heq1 & Ht).
  rewrite Heq in Heq1. injection Heq1 as <- <-.
  pose proof (wo_registry _ (ring_trace_ok _ _ _ (boot_world _ Hb) Ht)) as Hr.
  split; [|split].
  - intros port width port' width' x H1 H2 Hx Hx'.
    destruct (requests_apart r f f' i i' (λ a, HardwareAuthority.permits_io a port width)
      (λ a, HardwareAuthority.permits_io a port' width') Hr Hh Hh' Hne H1 H2) as (a & a' & Hp & Hp' & Hc).
    apply existsb_elem in Hp as (s & Hs%elem_of_flatten & Hp), Hp' as (s' & Hs'%elem_of_flatten & Hp').
    rewrite (conflicts_io a a' s s' x) in Hc; [done..| |]; by eapply io_contains_span.
  - intros a len acc a' len' acc' x H1 H2 Hx Hx'.
    destruct (requests_apart r f f' i i' (λ b, HardwareAuthority.permits_mmio b a len acc)
      (λ b, HardwareAuthority.permits_mmio b a' len' acc') Hr Hh Hh' Hne H1 H2) as (b & b' & Hp & Hp' & Hc).
    apply existsb_elem in Hp as (s & Hs%elem_of_flatten & Hp), Hp' as (s' & Hs'%elem_of_flatten & Hp').
    rewrite (conflicts_mmio b b' s s' x) in Hc; [done..| |]; by eapply mmio_contains_span.
  - intros dom gen req dom' gen' req' H1 H2.
    destruct (requests_apart r f f' i i' (λ a, HardwareAuthority.permits_dma a dom gen req)
      (λ a, HardwareAuthority.permits_dma a dom' gen' req') Hr Hh Hh' Hne H1 H2) as (a & a' & Hp & Hp' & Hc).
    unfold HardwareAuthority.conflicts_with, HardwareAuthority.permits_dma in *.
    destruct (HardwareAuthority.dma a), (HardwareAuthority.dma a'); try done. bool_to_prop. lia.
Qed.

(** ** One CPU's part of a history *)

Definition cpu_of (e : event) : option nat :=
  match e with
  | Prepared k _ | Committed k _ | Aborted k _ | Entered k _ => Some k
  | Registered _ | Revoked _ => None
  end.

Inductive cpu_effect (k : nat) (f : t) : t → list event → Prop :=
| ce_none es : (∀ e, e ∈ es → cpu_of e ≠ Some k) → cpu_effect k f f es
| ce_prepare p :
    active f = ActiveKernel → pending f = None → PendingTransition.sequence p = sequence f + 1 →
    cpu_effect k f (prepared f p) [Prepared k (lease_of f p)]
| ce_commit p :
    pending f = Some p →
    valid_dispatch_gate Kernel (PendingTransition.target_ring p) (PendingTransition.gate p) = true →
    cpu_effect k f (committed f p) [Committed k (certificate p)]
| ce_abort lease :
    pending f = Some (TransitionLease.pending lease) → cpu_effect k f (aborted f) [Aborted k lease]
| ce_enter h :
    active f = ActiveDomain h → pending f = None →
    cpu_effect k f (entered f h) [Entered k (invocation_of f h)].

Inductive cpu_trace (k : nat) (f : t) : t → list event → Prop :=
| cpu_trace_nil : cpu_trace k f f []
| cpu_trace_snoc f1 f2 es es' : cpu_trace k f f1 es → cpu_effect k f1 f2 es' → cpu_trace k f f2 (es ++ es').

(** A call on another CPU, or on none, is nothing to CPU [k]. *)
Lemma elsewhere (w : world) k j (f f' g : t) e :
  cpu_of e = Some j → cpus w !! j = Some f → <[j := f']> (cpus w) !! k = Some g →
  (k = j ∧ g = f') ∨ (cpus w !! k = Some g ∧ cpu_effect k g g [e]).
Proof.
  intros He Hj [(-> & <- & _)|(Hne & Hk)]%list_lookup_insert_Some; [by left|]. right. split; [done|].
  apply ce_none. intros e' ->%list_elem_of_singleton. rewrite He. congruence.
Qed.

Lemma effect_cpu w w' es k f' :
  effect w w' es → cpus w' !! k = Some f' → ∃ f, cpus w !! k = Some f ∧ cpu_effect k f f' es.
Proof.
  intros He. destruct He as [|d i old Hr|h sl Hh Hn Hr|j f h gate sl Hj Hh Hn Hr Ha Hp p|j f p Hj Hp Hg
    |j f lease sl Hj Hp h Hn Hr|j f h sl Hj Ha Hp Hn Hr]; simpl; intros Hk.
  - exists f'. split; [done|]. apply ce_none. by intros ? ?%elem_of_nil.
  - exists f'. split; [done|]. apply ce_none. by intros ? ->%list_elem_of_singleton.
  - exists f'. split; [done|]. apply ce_none. by intros ? ->%list_elem_of_singleton.
  - destruct (elsewhere w k j f _ f' (Prepared j (lease_of f p)) eq_refl Hj Hk) as [[-> ->]|[? ?]]; [|by eauto].
    exists f. split; [done|]. by apply ce_prepare.
  - destruct (elsewhere w k j f _ f' (Committed j (certificate p)) eq_refl Hj Hk) as [[-> ->]|[? ?]]; [|by eauto].
    exists f. split; [done|]. by apply ce_commit.
  - destruct (elsewhere w k j f _ f' (Aborted j lease) eq_refl Hj Hk) as [[-> ->]|[? ?]]; [|by eauto].
    exists f. split; [done|]. by apply ce_abort.
  - destruct (elsewhere w k j f _ f' (Entered j (invocation_of f h)) eq_refl Hj Hk) as [[-> ->]|[? ?]]; [|by eauto].
    exists f. split; [done|]. by apply ce_enter.
Qed.

Lemma trace_cpu w w' es k f' :
  trace w w' es → cpus w' !! k = Some f' → ∃ f, cpus w !! k = Some f ∧ cpu_trace k f f' es.
Proof.
  intros Ht. revert f'. induction Ht as [|w1 w2 es es' _ IH He]; intros f' Hk; [eauto using cpu_trace_nil|].
  destruct (effect_cpu _ _ _ _ _ He Hk) as (f1 & Hk1 & Hce). destruct (IH f1 Hk1) as (f & Hf & Hct).
  exists f. split; [done|]. by eapply cpu_trace_snoc.
Qed.

Lemma trace_length w w' es : trace w w' es → length (cpus w') = length (cpus w).
Proof.
  induction 1 as [|w1 w2 es es' _ IH He]; [done|]. rewrite <- IH. by destruct He; simpl; rewrite ?length_insert.
Qed.

(** *** Leases *)

(** The sequence numbers of the leases prepared on a CPU, and of those it spent. *)
Definition leased (k : nat) (es : list event) : list Z :=
  omap (λ e, match e with
             | Prepared j l => if decide (j = k) then Some (PendingTransition.sequence (TransitionLease.pending l)) else None
             | _ => None end) es.
Definition spent (k : nat) (es : list event) : list Z :=
  omap (λ e, match e with
             | Committed j c => if decide (j = k) then Some (CommittedTransition.sequence c) else None
             | Aborted j l => if decide (j = k) then Some (PendingTransition.sequence (TransitionLease.pending l)) else None
             | _ => None end) es.

Record lease_log (k : nat) (f : t) (es : list event) : Prop := {
  ll_pending : ∀ p, pending f = Some p → PendingTransition.sequence p = sequence f ∧
    ∃ l, Prepared k l ∈ es ∧ TransitionLease.pending l = p;
  ll_leased : ∀ n, n ∈ leased k es → n <= sequence f;
  ll_leased_once : NoDup (leased k es);
  ll_spent : ∀ n, n ∈ spent k es → n <= sequence f ∧ (is_Some (pending f) → n < sequence f);
  ll_spent_once : NoDup (spent k es);
  ll_origin : ∀ c, Committed k c ∈ es →
    valid_dispatch_gate Kernel (CommittedTransition.target_ring c) (CommittedTransition.gate c) = true ∧
    ∃ l, Prepared k l ∈ es ∧ c = certificate (TransitionLease.pending l);
}.

Lemma omap_none {A B} (g : A → option B) l : (∀ x, x ∈ l → g x = None) → omap g l = [].
Proof.
  induction l as [|x l IH]; intros H; [done|]. simpl. rewrite H by left. apply IH. intros y ?. apply H. by right.
Qed.

Lemma NoDup_snoc {A} (l : list A) x : NoDup l → x ∉ l → NoDup (l ++ [x]).
Proof.
  intros Hl Hx. apply NoDup_app. split; [done|]. split; [|apply NoDup_singleton].
  by intros y Hy ->%list_elem_of_singleton.
Qed.

Lemma lease_log_none k f es es' :
  (∀ e, e ∈ es' → cpu_of e ≠ Some k) → lease_log k f es → lease_log k f (es ++ es').
Proof.
  intros Hno [Hp Hl Hl1 Hs Hs1 Ho].
  assert (Hle : leased k (es ++ es') = leased k es).
  { unfold leased. rewrite omap_app, (omap_none _ es'); [apply app_nil_r|].
    intros [] He%Hno; try done. simpl in He. by rewrite decide_False by congruence. }
  assert (Hsp : spent k (es ++ es') = spent k es).
  { unfold spent. rewrite omap_app, (omap_none _ es'); [apply app_nil_r|].
    intros [] He%Hno; try done; simpl in He; by rewrite decide_False by congruence. }
  split; rewrite ?Hle, ?Hsp; try done.
  - intros p Hf. destruct (Hp p Hf) as (? & l & ? & ?). split; [done|]. exists l. set_solver.
  - intros c [Hc|Hc%Hno]%elem_of_app; [|done]. destruct (Ho c Hc) as (? & l & ? & ?). split; [done|]. exists l. set_solver.
Qed.

Lemma leased_snoc k es e : leased k (es ++ [e]) = leased k es ++ leased k [e].
Proof. unfold leased. apply omap_app. Qed.
Lemma spent_snoc k es e : spent k (es ++ [e]) = spent k es ++ spent k [e].
Proof. unfold spent. apply omap_app. Qed.

Lemma lease_log_step k f f' es es' :
  cpu_effect k f f' es' → lease_log k f es → lease_log k f' (es ++ es').
Proof.
  intros He Hlog. destruct He as [es' Hno|p Ha Hp Hsq|p Hp Hg|l Hp|h Ha Hp]; [by apply lease_log_none|..];
    destruct Hlog as [Hpn Hl Hl1 Hs Hs1 Ho]; split; rewrite ?leased_snoc, ?spent_snoc; simpl;
    rewrite ?decide_True by done; rewrite ?app_nil_r; try done.
  all: try (intros c [Hc|Hc%list_elem_of_singleton]%elem_of_app; [destruct (Ho c Hc) as (? & l' & ? & ?);
    split; [done|]; exists l'; set_solver|try done]).
  - (* prepare *) intros q [= <-]. split; [done|]. exists (lease_of f p). set_solver.
  - intros n [Hn%Hl| ->%list_elem_of_singleton]%elem_of_app; lia.
  - apply NoDup_snoc; [done|]. intros Hn%Hl. lia.
  - intros n Hn%Hs. lia.
  - (* commit *) intros n [Hn%Hs| ->%list_elem_of_singleton]%elem_of_app; [split; [lia|by intros []]|].
    destruct (Hpn p Hp) as [-> _]. split; [lia|by intros []].
  - apply NoDup_snoc; [done|]. intros [_ Hn]%Hs. destruct (Hpn p Hp) as [Hq _]. rewrite Hp in Hn.
    specialize (Hn ltac:(done)). lia.
  - injection Hc as ->. split; [done|]. destruct (Hpn p Hp) as (_ & l & ? & <-). exists l. set_solver.
  - (* abort *) intros n [Hn%Hs| ->%list_elem_of_singleton]%elem_of_app; [split; [lia|by intros []]|].
    destruct (Hpn _ Hp) as [-> _]. split; [lia|by intros []].
  - apply NoDup_snoc; [done|]. intros [_ Hn]%Hs. destruct (Hpn _ Hp) as [Hq _]. rewrite Hp in Hn.
    specialize (Hn ltac:(done)). lia.
  - (* enter *) rewrite Hp. done.
  - intros n Hn%Hl. lia.
  - intros n Hn%Hs. rewrite Hp. split; [lia|by intros []].
Qed.

(** a lease is spent once. On every CPU, after any calls from boot presenting
    any leases, each lease prepared there has a sequence number of its own and is
    committed or aborted at most once, never both; and every transition that was
    committed carries exactly what one of those leases named, through a gate that
    may leave the kernel for the target's ring. *)
Theorem lease_spent_once w0 cs k :
  booted w0 → Forall call_ok cs →
  ∃ w es, history cs w0 = Some (w, es) ∧
    (is_Some (cpus w !! k) → NoDup (leased k es) ∧ NoDup (spent k es) ∧
      ∀ c, Committed k c ∈ es →
        valid_dispatch_gate Kernel (CommittedTransition.target_ring c) (CommittedTransition.gate c) = true ∧
        ∃ l, Prepared k l ∈ es ∧ c = certificate (TransitionLease.pending l)).
Proof.
  intros Hb Hcs. destruct (ring_history_trace cs w0 Hcs (boot_world _ Hb)) as (w & es & Heq & Ht).
  exists w, es. split; [done|]. intros [f Hk].
  destruct (trace_cpu _ _ _ _ _ Ht Hk) as (f0 & Hk0 & Hct).
  destruct (boot_cpu w0 k f0 Hb Hk0) as (_ & _ & Hp & _).
  assert (Hlog : lease_log k f es).
  { clear Ht Hk Heq. induction Hct as [|f1 f2 es1 es2 _ IH He]; [|by eapply lease_log_step].
    split; try (by apply NoDup_nil_2); [by rewrite Hp|by intros ? ?%elem_of_nil..]. }
  split; [apply Hlog|]. split; apply Hlog.
Qed.

(** *** Invocations *)

Lemma validates f i :
  validate_invocation f i = Ok () ↔
  KernelInvocation.cpu_id i = cpu_id f ∧ KernelInvocation.cpu_generation i = cpu_generation f ∧
  active f = ActiveKernel ∧ pending f = None ∧
  invocation f = Some (KernelInvocation.caller i, KernelInvocation.entry_sequence i).
Proof.
  unfold validate_invocation.
  destruct (Z.eqb_spec (KernelInvocation.cpu_id i) (cpu_id f)); cbn [negb orb]; [|naive_solver].
  destruct (Z.eqb_spec (KernelInvocation.cpu_generation i) (cpu_generation f)); cbn [negb orb]; [|naive_solver].
  case_bool_decide; cbn [negb orb]; [|naive_solver]. case_bool_decide as Hp; cbn [orb].
  - split; [done|]. intros (_ & _ & _ & Hn & _). rewrite Hn in Hp. by destruct Hp.
  - apply eq_None_not_Some in Hp. case_bool_decide; cbn [negb]; naive_solver.
Qed.

(** Since an entry, CPU [k] either did nothing or prepared another transition,
    after which the entry's number is in the past. *)
Lemma since_entry k f h f' es :
  0 <= sequence f → pending f = None →
  cpu_trace k (entered f h) f' es →
  ((∀ l, Prepared k l ∉ es) ∧ f' = entered f h) ∨
  ((∃ l, Prepared k l ∈ es) ∧ sequence f + 1 < sequence f' ∧
    ∀ c n, invocation f' = Some (c, n) → sequence f + 1 < n).
Proof.
  intros Hs Hp0. induction 1 as [|f1 f2 es es' _ IH He]; [left; split; [by intros ? ?%elem_of_nil|done]|].
  destruct IH as [[Hno ->]|([l Hl] & Hseq & Hinv)].
  - destruct He as [es' Hn|p Ha Hp Hsq|p Hp Hg|l Hp|h' Ha Hp].
    + left. split; [|done]. intros l [?|Hl%Hn]%elem_of_app; [by eapply Hno|done].
    + right. simpl in *. split; [eexists; apply elem_of_app; right; left|]. split; [lia|done].
    + simpl in Hp. congruence.
    + simpl in Hp. congruence.
    + simpl in Ha. congruence.
  - right. split; [exists l; set_solver|]. destruct He as [es' Hn|p Ha Hp Hsq|p Hp Hg|l' Hp|h' Ha Hp]; simpl in *;
      try done; [split; [lia|done]|]. split; [lia|]. intros c n [= <- <-]. lia.
Qed.

(** an invocation is good until the next transition is prepared. Let a domain
    trap into the kernel on CPU [k] in any state reached from boot, and let any
    calls follow. The invocation is then accepted if and only if none of them
    prepared a transition on that CPU. *)
Theorem invocation_until_prepare w0 cs1 w1 es1 k h src inst w2 i cs2 :
  booted w0 → Forall call_ok cs1 → Forall call_ok cs2 →
  history cs1 w0 = Some (w1, es1) → perform (Enter k h src inst) w1 = Some (w2, [Entered k i]) →
  ∃ w3 es2 f, history cs2 w2 = Some (w3, es2) ∧ cpus w3 !! k = Some f ∧
    (validate_invocation f i = Ok () ↔ ∀ l, Prepared k l ∉ es2).
Proof.
  intros Hb Hc1 Hc2 H1 He. destruct (ring_history_trace cs1 w0 Hc1 (boot_world _ Hb)) as (w & es & Heq & Ht).
  rewrite H1 in Heq. injection Heq as <- <-. pose proof (ring_trace_ok _ _ _ (boot_world _ Hb) Ht) as Hw1.
  destruct (perform_effect (Enter k h src inst) w1 Hw1 I) as (w2' & es' & Hp' & Heff).
  rewrite He in Hp'. injection Hp' as <- <-. pose proof (effect_ok _ _ _ Hw1 Heff) as Hw2.
  destruct (ring_history_trace cs2 w2 Hc2 Hw2) as (w3 & es2 & H2 & Ht2).
  inversion Heff as [| | | | | |k' f h' sl Hk Ha Hp Hn Hr Hw2' Hes]; subst.
  pose proof (trace_length _ _ _ Ht2) as Hlen. simpl in Hlen. rewrite length_insert in Hlen.
  destruct (lookup_lt_is_Some_2 (cpus w3) k) as [f3 Hf3]; [apply lookup_lt_Some in Hk; lia|].
  exists w3, es2, f3. split; [done|]. split; [done|].
  destruct (trace_cpu _ _ _ _ _ Ht2 Hf3) as (f2 & Hf2 & Hct). simpl in Hf2.
  rewrite list_lookup_insert_eq in Hf2 by (by eapply lookup_lt_Some). injection Hf2 as <-.
  pose proof (fo_sequence _ _ (wo_frontiers _ Hw1 k f Hk)) as Hs.
  destruct (since_entry k f h' f3 es2 Hs Hp Hct) as [[Hno ->]|([l Hl] & Hseq & Hinv)]; rewrite validates.
  - split; [done|]. intros _. simpl. by rewrite Hp.
  - split; [|intros Hno; by destruct (Hno l)]. intros (_ & _ & _ & _ & Hi). simpl in Hi.
    specialize (Hinv _ _ Hi). lia.
Qed.

(** ** Handles *)

Definition issued (es : list event) : list DomainHandle.t :=
  omap (λ e, match e with Registered h => Some h | _ => None end) es.

Record handle_log (r : DomainRegistry.t) (es : list event) : Prop := {
  hl_live : ∀ h, handle_ok h → is_Some (named r h) ↔ Registered h ∈ es ∧ Revoked h ∉ es;
  hl_issued : ∀ h, Registered h ∈ es → handle_ok h ∧
    ∃ sl, DomainRegistry.slots r !! Z.to_nat (DomainHandle.slot h) = Some sl ∧
      DomainHandle.generation h <= generation sl;
  hl_revoked : ∀ h, Revoked h ∈ es → Registered h ∈ es;
  hl_once : NoDup (issued es);
}.

Lemma elem_of_issued es h : h ∈ issued es ↔ Registered h ∈ es.
Proof.
  unfold issued. rewrite list_elem_of_omap. split; [|by exists (Registered h)].
  intros ([] & He & Hh); by simplify_eq.
Qed.

(** Overwriting a slot never lowers its generation. *)
Lemma issued_insert r i old sl root live h :
  DomainRegistry.slots r !! i = Some old → generation old <= generation sl →
  (∃ s, DomainRegistry.slots r !! Z.to_nat (DomainHandle.slot h) = Some s ∧ DomainHandle.generation h <= generation s) →
  ∃ s, DomainRegistry.slots (DomainRegistry.mk root (<[i := sl]> (DomainRegistry.slots r)) live)
         !! Z.to_nat (DomainHandle.slot h) = Some s ∧ DomainHandle.generation h <= generation s.
Proof.
  intros Hi Hg (s & Hs & Hh). simpl. destruct (decide (Z.to_nat (DomainHandle.slot h) = i)) as [<-|Hne].
  - exists sl. rewrite list_lookup_insert_eq by (by eapply lookup_lt_Some). simplify_eq. split; [done|lia].
  - exists s. by rewrite list_lookup_insert_ne.
Qed.

(** Calls that neither register nor revoke leave the names alone. *)
Lemma handle_log_update r h sl n es es' :
  names r h sl → handle_ok h → (∀ e, e ∈ es' → is_Some (cpu_of e)) →
  handle_log r es → handle_log (update h (set_references n sl) r) (es ++ es').
Proof.
  intros Hn Hh Hes [Hl Hi Hr Ho].
  assert (Hin : ∀ e, cpu_of e = None → e ∈ es ++ es' ↔ e ∈ es).
  { intros e He. rewrite elem_of_app. split; [|by left]. intros [?|[k Hk]%Hes]; [done|congruence]. }
  split.
  - intros h' Hh'. rewrite !Hin, <- Hl by done. rewrite named_update by done. case_decide; [|done]. subst.
    by rewrite (proj2 (named_spec _ _ _) Hn).
  - intros h' Hr'. rewrite Hin in Hr' by done. destruct (Hi h' Hr') as [? Hs]. split; [done|].
    eapply issued_insert; [apply Hn|done|done].
  - intros h' Hr'. rewrite !Hin in * by done. by apply Hr.
  - unfold issued. rewrite omap_app, (omap_none _ es'), app_nil_r; [done|].
    intros [] He; destruct (Hes _ He); done.
Qed.

Lemma handle_log_register r d i old es :
  registry_ok r → registrable r d i old → handle_log r es →
  handle_log (registered i old d r) (es ++ [Registered (handle_at i (fresh_slot old d))]).
Proof.
  intros Hok Hr [Hl Hi Hrv Ho]. pose proof (rg_slot _ _ _ _ Hr) as Hslot.
  set (h0 := handle_at i (fresh_slot old d)).
  assert (Hh0 : handle_ok h0) by (eapply handle_at_ok; [done|by eapply lookup_lt_Some]).
  assert (Hslot0 : Z.to_nat (DomainHandle.slot h0) = i) by (unfold h0, handle_at; simpl; apply Nat2Z.id).
  assert (Hnew : Registered h0 ∉ es).
  { intros (_ & sl & Hs & Hg)%Hi. rewrite Hslot0 in Hs. simplify_eq. simpl in Hg. lia. }
  split.
  - intros h Hh. rewrite named_registered by done. fold h0. case_decide as Hd.
    + subst h. split; [|by eauto]. intros _. split; [set_solver|].
      intros [Hv|Hv%list_elem_of_singleton]%elem_of_app; [|done]. by apply Hnew, Hrv.
    + rewrite Hl by done. rewrite !elem_of_app, !list_elem_of_singleton. naive_solver.
  - intros h [Hin|[= ->]%list_elem_of_singleton]%elem_of_app.
    + destruct (Hi h Hin) as [? Hs]. split; [done|]. eapply issued_insert; [done|simpl; lia|done].
    + split; [done|]. exists (fresh_slot old d). rewrite Hslot0.
      split; [|done]. apply list_lookup_insert_eq. by eapply lookup_lt_Some.
  - intros h [Hin|Hin%list_elem_of_singleton]%elem_of_app; [|done]. apply elem_of_app. left. by apply Hrv.
  - unfold issued. rewrite omap_app. apply NoDup_snoc; [done|]. by rewrite elem_of_issued.
Qed.

Lemma handle_log_revoke r h0 sl es :
  handle_ok h0 → names r h0 sl → handle_log r es → handle_log (revoked h0 sl r) (es ++ [Revoked h0]).
Proof.
  intros Hh0 Hn [Hl Hi Hrv Ho]. pose proof (proj2 (named_spec _ _ _) Hn) as Hnd. split.
  - intros h Hh. rewrite named_revoked by done. rewrite !elem_of_app, !list_elem_of_singleton. case_decide as Hd.
    + subst h. split; [by intros []|]. intros [_ Hno]. destruct Hno. by right.
    + rewrite Hl by done. naive_solver.
  - intros h [Hin|?%list_elem_of_singleton]%elem_of_app; [|done]. destruct (Hi h Hin) as [? Hs]. split; [done|].
    eapply issued_insert; [apply Hn|done|done].
  - intros h [Hin|[= ->]%list_elem_of_singleton]%elem_of_app; apply elem_of_app; left; [by apply Hrv|].
    apply Hl; [done|]. by rewrite Hnd.
  - unfold issued. rewrite omap_app. simpl. by rewrite app_nil_r.
Qed.

Lemma handle_log_step w w' es es' :
  world_ok w → effect w w' es' → handle_log (registry w) es → handle_log (registry w') (es ++ es').
Proof.
  intros Hw He Hlog. destruct He as [|d i old Hr|h sl Hh Hn Hr|k f h gate sl Hk Hh Hn Hr Ha Hp p|k f p Hk Hp Hg
    |k f lease sl Hk Hp h Hn Hr|k f h sl Hk Ha Hp Hn Hr]; simpl.
  - by rewrite app_nil_r.
  - apply handle_log_register; [apply Hw|done|done].
  - by apply handle_log_revoke.
  - apply handle_log_update; [done|done| |done]. by intros e ->%list_elem_of_singleton.
  - destruct (fo_pending _ _ (wo_frontiers _ Hw k f Hk) p Hp) as (_ & _ & d & Hd & _).
    assert (Hh : holds f = Some (PendingTransition.target p)) by (unfold holds; by rewrite Hp).
    destruct (held_once w k f _ Hw Hk Hh) as (Hok & sl & Hn & Hr).
    assert (Hid : update (PendingTransition.target p) (set_references 1 sl) (registry w) = registry w).
    { unfold update, DomainRegistry.with_slots. destruct Hn as (Hs & _). rewrite list_insert_id; [by destruct (registry w)|].
      rewrite Hs. unfold set_references. rewrite <- Hr. by destruct sl. }
    rewrite <- Hid. apply handle_log_update; [done|done| |done]. by intros e ->%list_elem_of_singleton.
  - assert (Hh : holds f = Some h) by (unfold holds; by rewrite Hp).
    apply handle_log_update; [done|by eapply held_once| |done]. by intros e ->%list_elem_of_singleton.
  - assert (Hh : holds f = Some h) by (unfold holds; by rewrite Hp, Ha).
    apply handle_log_update; [done|by eapply held_once| |done]. by intros e ->%list_elem_of_singleton.
Qed.

(** the registry implements a set of handles. After any calls from boot, a
    handle resolves if and only if it was registered and has not been revoked
    since; no handle is issued twice, so a revoked one stays dead. *)
Theorem registry_refines_handles w0 cs :
  booted w0 → Forall call_ok cs →
  ∃ w es, history cs w0 = Some (w, es) ∧ NoDup (issued es) ∧
    ∀ h, handle_ok h →
      (∃ d, DomainRegistry.descriptor h (registry w) = Done d (registry w)) ↔ Registered h ∈ es ∧ Revoked h ∉ es.
Proof.
  intros Hb Hcs. destruct (ring_history_trace cs w0 Hcs (boot_world _ Hb)) as (w & es & Heq & Ht).
  exists w, es. split; [done|].
  assert (Hlog : handle_log (registry w) es).
  { clear Heq. induction Ht as [|w1 w2 es es' Ht IH He]; [|eapply handle_log_step; [by eapply ring_trace_ok, Ht; apply boot_world|done..]].
    split; try (by apply NoDup_nil_2); [|by intros ? ?%elem_of_nil..].
    intros h Hh. rewrite boot_lookup by done. split; [by intros []|by intros [?%elem_of_nil _]]. }
  split; [apply Hlog|]. intros h Hh. rewrite <- (hl_live _ _ Hlog h Hh).
  destruct (descriptor_exact (registry w) h) as [(sl & Hn & ->)|[Hno ->]].
  - rewrite (proj2 (named_spec _ _ _) Hn). split; by eauto.
  - split; [by intros []|]. intros [sl Hs%named_spec]. by destruct (Hno sl).
Qed.

(** ** Building an authority *)

Inductive grant :=
| GrantIo (r : IoPortRange.t)
| GrantMmio (r : MmioRange.t)
| GrantDma (g : DmaGrant.t).

Definition give (g : grant) : M HardwareAuthority.t AuthorityError unit :=
  match g with
  | GrantIo r => HardwareAuthority.grant_io r
  | GrantMmio r => HardwareAuthority.grant_mmio r
  | GrantDma d => HardwareAuthority.grant_dma d
  end.

(** Grants tried in turn, and those that were accepted. *)
Fixpoint gives (gs : list grant) (a : HardwareAuthority.t) (taken : list grant) :
    option (HardwareAuthority.t * list grant) :=
  match gs with
  | [] => Some (a, taken)
  | g :: gs' =>
      match give g a with
      | Done _ a' => gives gs' a' (taken ++ [g])
      | Fail _ a' => gives gs' a' taken
      | Panic => None
      end
  end.

(** Two accepted grants that touch a common resource. *)
Definition clash (g g' : grant) : bool :=
  match g, g' with
  | GrantIo r, GrantIo r' => IoPortRange.overlaps r r'
  | GrantMmio r, GrantMmio r' => MmioRange.overlaps r r'
  | GrantDma _, GrantDma _ => true
  | _, _ => false
  end.

Record authority_log (a : HardwareAuthority.t) (taken : list grant) : Prop := {
  al_io : ∀ r, Some r ∈ HardwareAuthority.io_ports a ↔ GrantIo r ∈ taken;
  al_mmio : ∀ r, Some r ∈ HardwareAuthority.mmio a ↔ GrantMmio r ∈ taken;
  al_dma : ∀ g, HardwareAuthority.dma a = Some g ↔ GrantDma g ∈ taken;
  al_disjoint : ∀ i j g g', taken !! i = Some g → taken !! j = Some g' → (i < j)%nat → clash g g' = false;
}.

(** Filling a vacant cell adds one element. *)
Lemma fill_vacant {A} (l : list (option A)) i x y :
  position HardwareAuthority.is_none l = Some i → Some y ∈ <[i := Some x]> l ↔ y = x ∨ Some y ∈ l.
Proof.
  intros [(o & Hi & Ho) _]%position_Some. destruct o; [done|]. pose proof (lookup_lt_Some _ _ _ Hi).
  rewrite !list_elem_of_lookup. setoid_rewrite list_lookup_insert_Some. split.
  - intros (j & [(-> & [= ->] & _)|(_ & Hj)]); eauto.
  - intros [->|[j Hj]]; [by exists i; left|]. exists j. right. split; [congruence|done].
Qed.

Lemma authority_log_snoc a a' taken g :
  authority_log a taken →
  (∀ r, Some r ∈ HardwareAuthority.io_ports a' ↔ GrantIo r = g ∨ Some r ∈ HardwareAuthority.io_ports a) →
  (∀ r, Some r ∈ HardwareAuthority.mmio a' ↔ GrantMmio r = g ∨ Some r ∈ HardwareAuthority.mmio a) →
  (∀ d, HardwareAuthority.dma a' = Some d ↔ GrantDma d = g ∨ HardwareAuthority.dma a = Some d) →
  (∀ g', g' ∈ taken → clash g' g = false) →
  authority_log a' (taken ++ [g]).
Proof.
  intros [Hi Hm Hd Hdis] Hi' Hm' Hd' Hc.
  split.
  - intros r. rewrite elem_of_app, list_elem_of_singleton, Hi', Hi. tauto.
  - intros r. rewrite elem_of_app, list_elem_of_singleton, Hm', Hm. tauto.
  - intros d. rewrite elem_of_app, list_elem_of_singleton, Hd', Hd. tauto.
  - intros i j x y Hx Hy Hij. pose proof (lookup_lt_Some _ _ _ Hy) as Hlt. rewrite length_app in Hlt. simpl in Hlt.
    rewrite lookup_app_l in Hx by lia. apply lookup_app_Some in Hy as [Hy|[Hge Hy]]; [by eapply Hdis|].
    apply list_lookup_singleton_Some in Hy as [_ <-]. apply Hc. by eapply list_elem_of_lookup_2.
Qed.

Lemma give_log g a taken :
  authority_log a taken →
  match give g a with
  | Done _ a' => authority_log a' (taken ++ [g])
  | Fail _ a' => a' = a
  | Panic => False
  end.
Proof.
  intros Hlog. destruct g as [r|r|d]; simpl; unfold HardwareAuthority.grant_io, HardwareAuthority.grant_mmio,
    HardwareAuthority.grant_dma, mbind, M_bind, get, ok_or, throw, mret, M_ret, put.
  - destruct (existsb _ _) eqn:Hov; [done|]. rewrite existsb_not_elem in Hov.
    destruct (position _ _) as [i|] eqn:Hpos; [|done]. apply (authority_log_snoc a); [done|..|].
    + intros r'. simpl. rewrite (fill_vacant _ _ _ _ Hpos). naive_solver.
    + naive_solver.
    + naive_solver.
    + intros [r'|r'|d'] Hin; try done. simpl. apply Hov. apply elem_of_flatten. by apply (al_io _ _ Hlog).
  - destruct (existsb _ _) eqn:Hov; [done|]. rewrite existsb_not_elem in Hov.
    destruct (position _ _) as [i|] eqn:Hpos; [|done]. apply (authority_log_snoc a); [done|..|].
    + naive_solver.
    + intros r'. simpl. rewrite (fill_vacant _ _ _ _ Hpos). naive_solver.
    + naive_solver.
    + intros [r'|r'|d'] Hin; try done. simpl. apply Hov. apply elem_of_flatten. by apply (al_mmio _ _ Hlog).
  - destruct (negb _); [done|]. destruct (HardwareAuthority.dma a) as [d'|] eqn:Hd; [done|]. simpl.
    apply (authority_log_snoc a); [done|naive_solver|naive_solver| |].
    + intros d'. simpl. rewrite Hd. naive_solver.
    + intros [r'|r'|d'] Hin; try done. apply (al_dma _ _ Hlog) in Hin. congruence.
Qed.

(** an authority permits exactly what was granted. Whatever grants are tried
    on an empty authority, accepted or refused, the accepted ones touch pairwise
    distinct resources, and the authority permits a request exactly when one
    accepted grant covers it whole. *)
Theorem authority_is_its_grants gs :
  ∃ a taken, gives gs HardwareAuthority.NONE [] = Some (a, taken) ∧
    (∀ i j g g', taken !! i = Some g → taken !! j = Some g' → (i < j)%nat → clash g g' = false) ∧
    (∀ port width, HardwareAuthority.permits_io a port width = true ↔
       ∃ r, GrantIo r ∈ taken ∧ IoPortRange.contains r port width = true) ∧
    (∀ address length access, HardwareAuthority.permits_mmio a address length access = true ↔
       ∃ r, GrantMmio r ∈ taken ∧ MmioRange.contains r address length access = true) ∧
    (∀ dom gen req, HardwareAuthority.permits_dma a dom gen req = true ↔
       GrantDma (DmaGrant.mk dom gen req) ∈ taken).
Proof.
  assert (Hrun : ∀ a taken, authority_log a taken →
    ∃ a' taken', gives gs a taken = Some (a', taken') ∧ authority_log a' taken').
  { induction gs as [|g gs IH]; intros a taken Hlog; simpl; [by eauto|].
    pose proof (give_log g a taken Hlog) as Hg. destruct (give g a); [by apply IH|subst; by apply IH|done]. }
  destruct (Hrun HardwareAuthority.NONE []) as (a & taken & Heq & Hlog).
  { split; [..|by intros]; intros r; (split; [|by intros ?%elem_of_nil]);
      [intros [k [[=] _]%lookup_replicate]%list_elem_of_lookup..|done]. }
  exists a, taken. split; [done|]. split; [apply Hlog|]. split; [|split].
  - intros port width. unfold HardwareAuthority.permits_io. rewrite existsb_elem.
    setoid_rewrite elem_of_flatten. by setoid_rewrite (al_io _ _ Hlog).
  - intros address len access. unfold HardwareAuthority.permits_mmio. rewrite existsb_elem.
    setoid_rewrite elem_of_flatten. by setoid_rewrite (al_mmio _ _ Hlog).
  - intros dom gen req. rewrite <- (al_dma _ _ Hlog). unfold HardwareAuthority.permits_dma.
    destruct (HardwareAuthority.dma a) as [[d g r]|]; [|done]. rewrite !andb_true_iff, !Z.eqb_eq. simpl. naive_solver.
Qed.

(** ** A concrete machine: two CPUs, two hardware cells *)

Definition demo_authority (port : Z) : HardwareAuthority.t :=
  match HardwareAuthority.grant_io (IoPortRange.mk port (port + 7)) HardwareAuthority.NONE with
  | Done _ a => a | _ => HardwareAuthority.NONE end.
Definition demo_world : world :=
  World (DomainRegistry.mk 0x1000 (replicate 4 EMPTY) 0)
    [TransitionFrontier.mk 0 1 0x1000 0 ActiveKernel None None;
     TransitionFrontier.mk 1 1 0x1000 0 ActiveKernel None None].
Definition serial : DomainHandle.t := DomainHandle.mk 0 1.
Definition keyboard : DomainHandle.t := DomainHandle.mk 1 1.
Definition demo_lease (cpu : Z) (h : DomainHandle.t) (root : Z) : TransitionLease.t :=
  TransitionLease.mk cpu 1 (PendingTransition.mk 1 h HardwareCell root Iretq).
Definition demo_run : list call :=
  [Register (DomainDescriptor.mk NativeHardwareCell 0x2000 (demo_authority 0x3f8));
   Register (DomainDescriptor.mk NativeHardwareCell 0x3000 (demo_authority 0x60));
   Prepare 0 serial Iretq; Commit 0 (demo_lease 0 serial 0x2000) 0x1000;
   Prepare 1 keyboard Iretq; Commit 1 (demo_lease 1 keyboard 0x3000) 0x1000].
Definition demo_traps : list call := [Enter 0 serial 0x2000 0x1000; Enter 1 keyboard 0x3000 0x1000].
Definition demo_invocation (cpu : Z) (h : DomainHandle.t) : KernelInvocation.t := KernelInvocation.mk cpu 1 h 2.
Definition after (cs : list call) (w : world) : world :=
  match history cs w with Some (w', _) => w' | None => w end.
Definition cpu_at (k : nat) (w : world) : t :=
  default (TransitionFrontier.mk 0 0 0 0 ActiveKernel None None) (cpus w !! k).

Lemma demo_booted : booted demo_world.
Proof.
  split; [by exists 4%nat, 0x1000|]. repeat constructor; [by exists 0, 1, 0x1000|by exists 1, 1, 0x1000].
Qed.
Lemma demo_run_ok : Forall call_ok demo_run.
Proof. by repeat constructor. Qed.

Lemma running_domains_isolated_witness :
  ∃ w es, history demo_run demo_world = Some (w, es) ∧
    ∃ d d', DomainRegistry.descriptor serial (registry w) = Done d (registry w) ∧
      DomainRegistry.descriptor keyboard (registry w) = Done d' (registry w) ∧
      DomainRegistry.revoke serial (registry w) = Fail DomainBusy (registry w) ∧
      DomainDescriptor.address_space_root d ≠ DomainDescriptor.address_space_root d'.
Proof.
  destruct (running_domains_isolated demo_world demo_run demo_booted demo_run_ok) as (w & es & Heq & H).
  exists w, es. split; [exact Heq|]. vm_compute in Heq. injection Heq as <- <-.
  destruct (H 0%nat _ serial eq_refl eq_refl) as (d & Hd & _ & Hr & H').
  destruct (H' 1%nat _ keyboard eq_refl eq_refl ltac:(done)) as (_ & d' & Hd' & Hne).
  exists d, d'. auto.
Defined.

Lemma hardware_authority_exclusive_witness :
  let w := after (demo_run ++ demo_traps) demo_world in
  let r := registry w in
  Broker.authorize_io (cpu_at 0 w) (demo_invocation 0 serial) 0x3f8 1 r = Done () r ∧
  Broker.authorize_io (cpu_at 1 w) (demo_invocation 1 keyboard) 0x60 1 r = Done () r ∧
  ∀ x, 0x3f8 <= x < 0x3f8 + 1 → ¬ 0x60 <= x < 0x60 + 1.
Proof.
  intros w r. split; [by vm_compute|]. split; [by vm_compute|]. intros x.
  destruct (hardware_authority_exclusive demo_world (demo_run ++ demo_traps) w
    (match history (demo_run ++ demo_traps) demo_world with Some (_, es) => es | None => [] end)
    (cpu_at 0 w) (cpu_at 1 w) (demo_invocation 0 serial) (demo_invocation 1 keyboard)) as [H _].
  - exact demo_booted.
  - by repeat constructor.
  - by vm_compute.
  - done.
  - done.
  - done.
  - apply (H 0x3f8 1 0x60 1 x); by vm_compute.
Defined.

Lemma lease_spent_once_witness :
  ∃ w es, history (demo_run ++ demo_traps) demo_world = Some (w, es) ∧
    (is_Some (cpus w !! 0%nat) → NoDup (leased 0 es) ∧ NoDup (spent 0 es) ∧
      ∀ c, Committed 0 c ∈ es →
        valid_dispatch_gate Kernel (CommittedTransition.target_ring c) (CommittedTransition.gate c) = true ∧
        ∃ l, Prepared 0 l ∈ es ∧ c = certificate (TransitionLease.pending l)).
Proof.
  apply (lease_spent_once demo_world (demo_run ++ demo_traps) 0); [exact demo_booted|by repeat constructor].
Defined.

Lemma invocation_until_prepare_witness :
  ∃ w3 es2 f, history [Prepare 0 serial Iretq] (after [Enter 0 serial 0x2000 0x1000] (after demo_run demo_world))
      = Some (w3, es2) ∧ cpus w3 !! 0%nat = Some f ∧
    (validate_invocation f (demo_invocation 0 serial) = Ok () ↔ ∀ l, Prepared 0 l ∉ es2).
Proof.
  apply (invocation_until_prepare demo_world demo_run (after demo_run demo_world)
    (match history demo_run demo_world with Some (_, es) => es | None => [] end) 0 serial 0x2000 0x1000
    (after [Enter 0 serial 0x2000 0x1000] (after demo_run demo_world)) (demo_invocation 0 serial)
    [Prepare 0 serial Iretq]).
  - exact demo_booted.
  - exact demo_run_ok.
  - by repeat constructor.
  - by vm_compute.
  - by vm_compute.
Defined.

Lemma registry_refines_handles_witness :
  ∃ w es, history (demo_run ++ demo_traps ++ [Revoke serial]) demo_world = Some (w, es) ∧ NoDup (issued es) ∧
    ∀ h, handle_ok h →
      (∃ d, DomainRegistry.descriptor h (registry w) = Done d (registry w)) ↔ Registered h ∈ es ∧ Revoked h ∉ es.
Proof.
  apply (registry_refines_handles demo_world (demo_run ++ demo_traps ++ [Revoke serial]));
    [exact demo_booted|by repeat constructor].
Defined.

End RingProperties.
