(* ===== verification/Bytes.v ===== *)
(** * Bytes, little-endian words and memory windows

    A byte is a [Z] in [[0, 256)].  [le_bytes] and [from_le_bytes] are the
    standard library's conversions, [window] reads and [splice] overwrites a run
    of cells of a memory. *)
From S2P Require Import Prelude.

Definition byte_at (x : Z) (i : nat) : Z := Z.shiftr x (8 * Z.of_nat i) mod 2 ^ 8.
Definition le_bytes (n : nat) (x : Z) : list Z := map (byte_at x) (seq 0 n).
Fixpoint from_le_bytes (bs : list Z) : Z :=
  match bs with [] => 0 | b :: bs' => b + 2 ^ 8 * from_le_bytes bs' end.

Definition bytes_ok (bs : list Z) : Prop := Forall (in_width 8) bs.

Lemma length_le_bytes n x : length (le_bytes n x) = n.
Proof. unfold le_bytes. by rewrite length_map, length_seq. Qed.

Lemma le_bytes_ok n x : bytes_ok (le_bytes n x).
Proof. apply Forall_map, Forall_true. intros i. by apply in_width_wrap. Qed.

Lemma le_bytes_S n x : le_bytes (S n) x = x mod 2 ^ 8 :: le_bytes n (x / 2 ^ 8).
Proof.
  unfold le_bytes. cbn [seq map]. f_equal.
  rewrite <- seq_shift, map_map. apply map_ext. intros i. unfold byte_at. f_equal.
  rewrite !Z.shiftr_div_pow2 by lia. rewrite Z.div_div by lia. f_equal. rewrite <- Z.pow_add_r by lia. f_equal. lia.
Qed.

Lemma from_le_bytes_bound bs : bytes_ok bs → in_width (8 * Z.of_nat (length bs)) (from_le_bytes bs).
Proof.
  induction 1 as [|b bs [Hb0 Hb1] _ [IH0 IH1]]; [done|]. cbn [from_le_bytes length].
  replace (8 * Z.of_nat (S (length bs))) with (8 + 8 * Z.of_nat (length bs)) by lia.
  unfold in_width. rewrite Z.pow_add_r by lia. nia.
Qed.

(** Words and their bytes. *)
Lemma from_le_le n x : in_width (8 * Z.of_nat n) x → from_le_bytes (le_bytes n x) = x.
Proof.
  revert x. induction n as [|n IH]; intros x [Hx0 Hx1].
  - simpl in *. lia.
  - rewrite le_bytes_S. cbn [from_le_bytes]. rewrite IH.
    + pose proof (Z.div_mod x (2 ^ 8)). lia.
    + replace (8 * Z.of_nat (S n)) with (8 + 8 * Z.of_nat n) in Hx1 by lia. rewrite Z.pow_add_r in Hx1 by lia.
      split; [by apply Z.div_pos|]. by apply Z.div_lt_upper_bound.
Qed.

Lemma le_from_le bs : bytes_ok bs → le_bytes (length bs) (from_le_bytes bs) = bs.
Proof.
  induction 1 as [|b bs [Hb0 Hb1] _ IH]; [done|]. cbn [from_le_bytes length]. rewrite le_bytes_S.
  rewrite (Z.add_comm b), Z.mul_comm, Z.add_comm, Z_mod_plus_full, Z.mod_small by lia. f_equal.
  by rewrite Z_div_plus_full, Z.div_small by lia.
Qed.

(** ** Windows *)

Definition window (off len : nat) (mem : list Z) : list Z := take len (drop off mem).
Definition splice (off : nat) (bs mem : list Z) : list Z :=
  take off mem ++ bs ++ drop (off + length bs) mem.

Section splice.
Implicit Types (mem bs : list Z).

Lemma length_splice off bs mem :
  (off + length bs <= length mem)%nat → length (splice off bs mem) = length mem.
Proof. intros. unfold splice. rewrite !length_app, length_take, length_drop. lia. Qed.

Lemma length_window off len mem : (off + len <= length mem)%nat → length (window off len mem) = len.
Proof. intros. unfold window. rewrite length_take, length_drop. lia. Qed.

Lemma lookup_splice off bs mem i :
  (off + length bs <= length mem)%nat →
  splice off bs mem !! i = if decide (off <= i < off + length bs)%nat then bs !! (i - off)%nat else mem !! i.
Proof.
  intros Hl. unfold splice. case_decide as Hd.
  - rewrite lookup_app_r by (rewrite length_take; lia). rewrite length_take, Nat.min_l by lia.
    by rewrite lookup_app_l by lia.
  - destruct (decide (i < off)%nat) as [Hi|Hi].
    + rewrite lookup_app_l by (rewrite length_take; lia). by rewrite lookup_take_lt.
    + rewrite lookup_app_r by (rewrite length_take; lia). rewrite length_take, Nat.min_l by lia.
      rewrite lookup_app_r by lia. rewrite lookup_drop. f_equal. lia.
Qed.

Lemma lookup_window off len mem i :
  window off len mem !! i = if decide (i < len)%nat then mem !! (off + i)%nat else None.
Proof.
  unfold window. case_decide.
  - by rewrite lookup_take_lt, lookup_drop.
  - by apply lookup_take_ge; lia.
Qed.

(** Reading back what was written, and what was not touched. *)
Lemma window_splice_same off bs mem :
  (off + length bs <= length mem)%nat → window off (length bs) (splice off bs mem) = bs.
Proof.
  intros. apply list_eq. intros i. rewrite lookup_window, lookup_splice by done.
  case_decide; [|by rewrite lookup_ge_None_2 by lia]. rewrite decide_True by lia. f_equal. lia.
Qed.

Lemma window_splice_other off len off' bs mem :
  (off' + length bs <= length mem)%nat → (off + len <= off' ∨ off' + length bs <= off)%nat →
  window off len (splice off' bs mem) = window off len mem.
Proof.
  intros. apply list_eq. intros i. rewrite !lookup_window, lookup_splice by done.
  case_decide; [|done]. by rewrite decide_False by lia.
Qed.

Lemma splice_app off bs bs' mem :
  (off + length bs + length bs' <= length mem)%nat →
  splice (off + length bs) bs' (splice off bs mem) = splice off (bs ++ bs') mem.
Proof.
  intros. apply list_eq. intros i. rewrite !lookup_splice by (rewrite ?length_splice, ?length_app; rewrite ?length_app; lia).
  rewrite length_app. repeat case_decide; try lia; try done.
  - rewrite lookup_app_r by lia. f_equal. lia.
  - by rewrite lookup_app_l by lia.
Qed.

(** A write within a window, seen through the window. *)
Lemma window_splice_in off len a bs mem :
  (a + length bs <= len)%nat → (off + len <= length mem)%nat →
  window off len (splice (off + a) bs mem) = splice a bs (window off len mem).
Proof.
  intros. apply list_eq. intros i. rewrite lookup_splice by (rewrite length_window; lia).
  rewrite !lookup_window, lookup_splice by lia. repeat case_decide; try lia; try done. f_equal. lia.
Qed.

Lemma splice_nil off mem : splice off [] mem = mem.
Proof. unfold splice. simpl. rewrite Nat.add_0_r. apply take_drop. Qed.

Lemma bytes_ok_splice off bs mem : bytes_ok bs → bytes_ok mem → bytes_ok (splice off bs mem).
Proof.
  intros Hb Hm. unfold splice, bytes_ok. apply Forall_app. split; [by apply Forall_take|].
  apply Forall_app. split; [done|by apply Forall_drop].
Qed.
Lemma bytes_ok_window off len mem : bytes_ok mem → bytes_ok (window off len mem).
Proof. intros. by apply Forall_take, Forall_drop. Qed.
End splice.
