(* ===== verification/Acpi.v ===== *)
(** * ACPI tables

    Models [kernel/boulder/src/boot/acpi.rs]: the root pointer, the search for a
    table, the interrupt description (MADT) and the description of the
    DMA-remapping units (DMAR) with the routing of a requester to its unit.
    A table is a list of bytes; physical memory is reached through the function
    [map] of the caller, a parameter, and read through [memory]. *)
From S2P Require Import Prelude Bytes.

(** ** Slices *)

(** [l.get(a..b)]. *)
Definition get_range {A} (l : list A) (a b : Z) : option (list A) :=
  if (0 <=? a) && (a <=? b) && (b <=? Z.of_nat (length l))
  then Some (take (Z.to_nat (b - a)) (drop (Z.to_nat a) l)) else None.
(** [&l[a..b]]: out of range panics. *)
Definition slice {S E A} (l : list A) (a b : Z) : M S E (list A) :=
  match get_range l a b with Some x => mret x | None => panic end.
Definition len {A} (l : list A) : Z := Z.of_nat (length l).

Definition RSDP_SIGNATURE : list Z := [0x52; 0x53; 0x44; 0x20; 0x50; 0x54; 0x52; 0x20].
Definition RSDP_V1_LENGTH : Z := 20.
Definition RSDP_V2_LENGTH : Z := 36.
Definition SDT_HEADER_LENGTH : Z := 36.
Definition MADT_HEADER_LENGTH : Z := 44.
Definition MAXIMUM_SDT_LENGTH : Z := 1024 * 1024.
Definition XSDT_SIGNATURE : list Z := [0x58; 0x53; 0x44; 0x54].
Definition RSDT_SIGNATURE : list Z := [0x52; 0x53; 0x44; 0x54].
Definition MADT_SIGNATURE : list Z := [0x41; 0x50; 0x49; 0x43].
Definition DMAR_SIGNATURE : list Z := [0x44; 0x4d; 0x41; 0x52].
Definition DMAR_HEADER_LENGTH : Z := 48.
Definition DMAR_DRHD_TYPE : Z := 0.
Definition DMAR_DRHD_HEADER_LENGTH : Z := 16.
Definition DMAR_SCOPE_HEADER_LENGTH : Z := 6.
Definition DMAR_SCOPE_ENDPOINT : Z := 1.
Definition DMAR_SCOPE_PCI_BRIDGE : Z := 2.
Definition DMAR_SCOPE_IO_APIC : Z := 3.
Definition DMAR_SCOPE_HPET : Z := 4.
Definition DMAR_INCLUDE_ALL : Z := 1.
Definition MAXIMUM_IO_APICS : Z := 8.
Definition MAXIMUM_INTERRUPT_OVERRIDES : Z := 24.
Definition MAXIMUM_PROCESSORS : Z := 256.
Definition MAXIMUM_DMAR_UNITS : Z := 16.
Definition MAXIMUM_DMAR_ENDPOINTS : Z := 64.

Inductive AcpiError :=
| Truncated | InvalidSignature | InvalidChecksum | InvalidLength | InvalidAddress | AddressUnavailable
| MissingMadt | MalformedMadt | MalformedDmar | InvalidInterruptFlags | DuplicateProcessor | CapacityExceeded.

(** [read_u16], [read_u32] and [read_u64] read two, four and eight bytes. *)
Definition read_le {S E} (width : Z) (bytes : list Z) (offset : Z) : M S E (option Z) :=
  last ← add 64 offset width;
  mret (from_le_bytes <$> get_range bytes offset last).
Definition read_u16 {S E} (bytes : list Z) (offset : Z) : M S E (option Z) := read_le 2 bytes offset.
Definition read_u32 {S E} (bytes : list Z) (offset : Z) : M S E (option Z) := read_le 4 bytes offset.
Definition read_u64 {S E} (bytes : list Z) (offset : Z) : M S E (option Z) := read_le 8 bytes offset.

Definition checksum_is_valid (bytes : list Z) : bool := fold_left (wrapping_add 8) bytes 0 =? 0.

(** [table.get(..4) == Some(signature)]. *)
Definition starts_with (bytes signature : list Z) : bool :=
  bool_decide (get_range bytes 0 (len signature) = Some signature).

(** ** The root pointer *)

Module Rsdp.
Record t := mk { revision : Z; rsdt_address : Z; xsdt_address : option Z }.

Definition parse (bytes : list Z) : M unit AcpiError t :=
  if len bytes <? RSDP_V1_LENGTH then throw Truncated else
  if negb (starts_with bytes RSDP_SIGNATURE) then throw InvalidSignature else
  v1 ← slice_to bytes RSDP_V1_LENGTH;
  if negb (checksum_is_valid v1) then throw InvalidChecksum else
  revision ← index bytes 15;
  rsdt ← read_u32 bytes 16;
  rsdt_address ← ok_or rsdt Truncated;
  xsdt_address ←
    (if 2 <=? revision then
       if len bytes <? RSDP_V2_LENGTH then throw Truncated else
       length_field ← read_u32 bytes 20;
       length ← ok_or length_field Truncated;
       if negb ((RSDP_V2_LENGTH <=? length) && (length <=? len bytes)) then throw InvalidLength else
       v2 ← slice_to bytes length;
       if negb (checksum_is_valid v2) then throw InvalidChecksum else
       xsdt ← read_u64 bytes 24;
       address ← ok_or xsdt Truncated;
       mret (if negb (address =? 0) then Some address else None)
     else mret None);
  if negb (bool_decide (is_Some xsdt_address)) && (rsdt_address =? 0) then throw InvalidAddress else
  mret (mk revision rsdt_address xsdt_address).
End Rsdp.

(** ** The interrupt description *)

Module IoApicDescriptor.
Record t := mk { id : Z; address : Z; global_system_interrupt_base : Z }.
Definition EMPTY : t := mk 0 0 0.
End IoApicDescriptor.

Inductive InterruptPolarity := PolarityConforms | ActiveHigh | ActiveLow.
Inductive InterruptTriggerMode := TriggerConforms | Edge | Level.

Module InterruptSourceOverride.
Record t := mk {
  bus : Z;
  source : Z;
  global_system_interrupt : Z;
  polarity : InterruptPolarity;
  trigger_mode : InterruptTriggerMode;
}.
Definition EMPTY : t := mk 0 0 0 PolarityConforms TriggerConforms.
End InterruptSourceOverride.

Module ProcessorDescriptor.
Record t := mk { firmware_uid : Z; apic_id : Z; enabled : bool; online_capable : bool; uses_x2apic : bool }.
Definition EMPTY : t := mk 0 0 false false false.
End ProcessorDescriptor.

Definition decode_polarity (flags : Z) : result InterruptPolarity AcpiError :=
  let bits := Z.land flags 3 in
  if bits =? 0 then Ok PolarityConforms else if bits =? 1 then Ok ActiveHigh
  else if bits =? 3 then Ok ActiveLow else Err InvalidInterruptFlags.
Definition decode_trigger_mode (flags : Z) : result InterruptTriggerMode AcpiError :=
  let bits := Z.land (Z.shiftr flags 2) 3 in
  if bits =? 0 then Ok TriggerConforms else if bits =? 1 then Ok Edge
  else if bits =? 3 then Ok Level else Err InvalidInterruptFlags.

(** An array filled from the front with the number of its elements in use:
    [push] is the common body of [push_io_apic], [push_override], [push_unit]
    and [push_endpoint], [get_mut(count)], the assignment and the increment. *)
Definition push {S A} (l : list A) (count : Z) (x : A) : M S AcpiError (list A * Z) :=
  if count <? len l then
    l' ← store l count x;
    count' ← add 64 count 1;
    mret (l', count')
  else throw CapacityExceeded.

Module MadtInfo.
Record t := mk {
  local_apic_address : Z;
  flags : Z;
  io_apics_array : list IoApicDescriptor.t;
  io_apic_count : Z;
  overrides : list InterruptSourceOverride.t;
  override_count : Z;
  processors_array : list ProcessorDescriptor.t;
  processor_count : Z;
}.

Definition new (local_apic_address flags : Z) : t :=
  mk local_apic_address flags
    (replicate (Z.to_nat MAXIMUM_IO_APICS) IoApicDescriptor.EMPTY) 0
    (replicate (Z.to_nat MAXIMUM_INTERRUPT_OVERRIDES) InterruptSourceOverride.EMPTY) 0
    (replicate (Z.to_nat MAXIMUM_PROCESSORS) ProcessorDescriptor.EMPTY) 0.

Definition io_apics {S E} (self : t) : M S E (list IoApicDescriptor.t) :=
  slice_to (io_apics_array self) (io_apic_count self).
Definition interrupt_source_overrides {S E} (self : t) : M S E (list InterruptSourceOverride.t) :=
  slice_to (overrides self) (override_count self).
Definition processors {S E} (self : t) : M S E (list ProcessorDescriptor.t) :=
  slice_to (processors_array self) (processor_count self).

Definition push_io_apic (descriptor : IoApicDescriptor.t) : M t AcpiError unit :=
  m ← get;
  '(l, n) ← push (io_apics_array m) (io_apic_count m) descriptor;
  put (mk (local_apic_address m) (flags m) l n (overrides m) (override_count m)
         (processors_array m) (processor_count m)).
Definition push_override (entry : InterruptSourceOverride.t) : M t AcpiError unit :=
  m ← get;
  '(l, n) ← push (overrides m) (override_count m) entry;
  put (mk (local_apic_address m) (flags m) (io_apics_array m) (io_apic_count m) l n
         (processors_array m) (processor_count m)).
Definition push_processor (processor : ProcessorDescriptor.t) : M t AcpiError unit :=
  m ← get;
  known ← processors m;
  if existsb (λ existing, ProcessorDescriptor.apic_id existing =? ProcessorDescriptor.apic_id processor) known
  then throw DuplicateProcessor else
  '(l, n) ← push (processors_array m) (processor_count m) processor;
  put (mk (local_apic_address m) (flags m) (io_apics_array m) (io_apic_count m)
         (overrides m) (override_count m) l n).
Definition set_local_apic_address (address : Z) : M t AcpiError unit :=
  modify (λ m, mk address (flags m) (io_apics_array m) (io_apic_count m) (overrides m) (override_count m)
                 (processors_array m) (processor_count m)).
End MadtInfo.

Section madt.
Import MadtInfo.

(** [read_*(entry, offset).ok_or(AcpiError::MalformedMadt)?]. *)
Definition madt_field {S} (width : Z) (entry : list Z) (offset : Z) : M S AcpiError Z :=
  v ← read_le width entry offset; ok_or v MalformedMadt.

(** The [match] on the type of one entry. *)
Definition madt_entry (entry_type : Z) (entry : list Z) : M t AcpiError unit :=
  if entry_type =? 0 then
    if len entry <? 8 then throw MalformedMadt else
    processor_flags ← madt_field 4 entry 4;
    uid ← index entry 2;
    id ← index entry 3;
    push_processor (ProcessorDescriptor.mk uid id (negb (Z.land processor_flags 1 =? 0))
                      (negb (Z.land processor_flags 2 =? 0)) false)
  else if entry_type =? 1 then
    if len entry <? 12 then throw MalformedMadt else
    id ← index entry 2;
    address ← madt_field 4 entry 4;
    base ← madt_field 4 entry 8;
    push_io_apic (IoApicDescriptor.mk id address base)
  else if entry_type =? 2 then
    if len entry <? 10 then throw MalformedMadt else
    interrupt_flags ← madt_field 2 entry 8;
    bus ← index entry 2;
    source ← index entry 3;
    gsi ← madt_field 4 entry 4;
    polarity ← lift (decode_polarity interrupt_flags);
    trigger_mode ← lift (decode_trigger_mode interrupt_flags);
    push_override (InterruptSourceOverride.mk bus source gsi polarity trigger_mode)
  else if entry_type =? 5 then
    if len entry <? 12 then throw MalformedMadt else
    address ← madt_field 8 entry 4;
    set_local_apic_address address
  else if entry_type =? 9 then
    if len entry <? 16 then throw MalformedMadt else
    processor_flags ← madt_field 4 entry 8;
    uid ← madt_field 4 entry 12;
    id ← madt_field 4 entry 4;
    push_processor (ProcessorDescriptor.mk uid id (negb (Z.land processor_flags 1 =? 0))
                      (negb (Z.land processor_flags 2 =? 0)) true)
  else mret ().

(** The [while] loop: an entry has at least two bytes, so a turn per byte is
    more than enough. *)
Fixpoint madt_loop (fuel : nat) (table : list Z) (offset : Z) : M t AcpiError unit :=
  match fuel with
  | O => panic
  | S fuel' =>
    if negb (offset <? len table) then mret () else
    left ← sub (len table) offset;
    if left <? 2 then throw MalformedMadt else
    entry_type ← index table offset;
    next ← add 64 offset 1;
    entry_length ← index table next;
    if entry_length <? 2 then throw MalformedMadt else
    last ← add 64 offset entry_length;
    if len table <? last then throw MalformedMadt else
    entry ← slice table offset last;
    madt_entry entry_type entry ;;
    madt_loop fuel' table last
  end.

Definition parse_madt (table : list Z) : M unit AcpiError t :=
  if (len table <? MADT_HEADER_LENGTH) || negb (starts_with table MADT_SIGNATURE)
  then throw MalformedMadt else
  address ← madt_field 4 table 36;
  flags ← madt_field 4 table 40;
  match madt_loop (S (length table)) table MADT_HEADER_LENGTH (new address flags) with
  | Panic => panic
  | Fail e _ => throw e
  | Done _ madt =>
    found ← io_apics madt;
    if bool_decide (found = []) then throw MalformedMadt else mret madt
  end.
End madt.

(** ** The remapping units *)

Module DmarEndpoint.
Record t := mk { segment : Z; bus : Z; slot : Z; function : Z }.
Definition EMPTY : t := mk 0 0 0 0.
#[global] Instance t_eq_dec : EqDecision t.
Proof. solve_decision. Defined.
End DmarEndpoint.

Module DmarRemappingUnit.
Record t := mk {
  segment : Z;
  register_base : Z;
  include_all : bool;
  endpoint_start : Z;
  endpoint_count : Z;
  unresolved_scope_count : Z;
}.
Definition EMPTY : t := mk 0 0 false 0 0 0.
#[global] Instance t_eq_dec : EqDecision t.
Proof. solve_decision. Defined.
Definition has_unresolved_scopes (self : t) : bool := negb (unresolved_scope_count self =? 0).
End DmarRemappingUnit.

Inductive DmarRouteError := AmbiguousExplicitScope | AmbiguousIncludeAll.

Module DmarInfo.
Record t := mk {
  host_address_width : Z;
  flags : Z;
  units : list DmarRemappingUnit.t;
  unit_count : Z;
  endpoints : list DmarEndpoint.t;
  endpoint_count : Z;
}.

Definition new (host_address_width flags : Z) : t :=
  mk host_address_width flags
    (replicate (Z.to_nat MAXIMUM_DMAR_UNITS) DmarRemappingUnit.EMPTY) 0
    (replicate (Z.to_nat MAXIMUM_DMAR_ENDPOINTS) DmarEndpoint.EMPTY) 0.

Definition remapping_units {S E} (self : t) : M S E (list DmarRemappingUnit.t) :=
  slice_to (units self) (unit_count self).

Definition explicit_endpoints_for {S E} (self : t) (unit : DmarRemappingUnit.t) :
    M S E (option (list DmarEndpoint.t)) :=
  known ← remapping_units self;
  mret (u ← List.find (λ k, bool_decide (k = unit)) known;
        let start := DmarRemappingUnit.endpoint_start u in
        last ← checked_add 64 start (DmarRemappingUnit.endpoint_count u);
        get_range (endpoints self) start last).

(** The loop over the units of the requester's segment, with the two
    candidates found so far. *)
Fixpoint route {S} (self : t) (endpoint : DmarEndpoint.t) (l : list DmarRemappingUnit.t)
    (explicit include_all : option DmarRemappingUnit.t) : M S DmarRouteError (option DmarRemappingUnit.t) :=
  match l with
  | [] => mret (match explicit with Some u => Some u | None => include_all end)
  | unit :: l' =>
    if negb (DmarRemappingUnit.segment unit =? DmarEndpoint.segment endpoint)
    then route self endpoint l' explicit include_all else
    let start := DmarRemappingUnit.endpoint_start unit in
    last ← add 64 start (DmarRemappingUnit.endpoint_count unit);
    scope ← slice (endpoints self) start last;
    if bool_decide (endpoint ∈ scope) then
      if bool_decide (is_Some explicit) then throw AmbiguousExplicitScope
      else route self endpoint l' (Some unit) include_all
    else if DmarRemappingUnit.include_all unit then
      if bool_decide (is_Some include_all) then throw AmbiguousIncludeAll
      else route self endpoint l' explicit (Some unit)
    else route self endpoint l' explicit include_all
  end.

Definition remapping_unit_for {S} (self : t) (endpoint : DmarEndpoint.t) :
    M S DmarRouteError (option DmarRemappingUnit.t) :=
  known ← remapping_units self;
  route self endpoint known None None.

Definition covers_endpoint {S E} (self : t) (endpoint : DmarEndpoint.t) : M S E bool :=
  routed ← attempt (remapping_unit_for self endpoint);
  mret (match routed with Ok unit => bool_decide (is_Some unit) | Err _ => false end).

Definition push_unit (unit : DmarRemappingUnit.t) : M t AcpiError () :=
  d ← get;
  '(l, n) ← push (units d) (unit_count d) unit;
  put (mk (host_address_width d) (flags d) l n (endpoints d) (endpoint_count d)).
Definition push_endpoint (endpoint : DmarEndpoint.t) : M t AcpiError () :=
  d ← get;
  '(l, n) ← push (endpoints d) (endpoint_count d) endpoint;
  put (mk (host_address_width d) (flags d) (units d) (unit_count d) l n).
End DmarInfo.

Section dmar.
Import DmarInfo.

Definition dmar_field {S} (width : Z) (structure : list Z) (offset : Z) : M S AcpiError Z :=
  v ← read_le width structure offset; ok_or v MalformedDmar.

(** [chunks_exact(2)] over the path of a scope: every hop is in range. *)
Fixpoint path_ok (path : list Z) : bool :=
  match path with
  | device :: function :: path' => negb ((32 <=? device) || (8 <=? function)) && path_ok path'
  | _ => true
  end.

(** One device scope: the new count of scopes left unresolved. *)
Definition parse_scope (segment endpoint_start unresolved : Z) (scope : list Z) : M t AcpiError Z :=
  reserved0 ← index scope 2;
  reserved1 ← (if negb (reserved0 =? 0) then mret 0 else index scope 3);
  if negb (reserved0 =? 0) || negb (reserved1 =? 0) then throw MalformedDmar else
  path_bytes ← sub (len scope) DMAR_SCOPE_HEADER_LENGTH;
  let path_count := path_bytes / 2 in
  path ← slice scope DMAR_SCOPE_HEADER_LENGTH (len scope);
  if negb (path_ok path) then throw MalformedDmar else
  kind ← index scope 0;
  if (kind =? DMAR_SCOPE_ENDPOINT) && (path_count =? 1) then
    enumeration ← index scope 4;
    if negb (enumeration =? 0) then throw MalformedDmar else
    bus ← index scope 5;
    slot ← index scope 6;
    function ← index scope 7;
    let endpoint := DmarEndpoint.mk segment bus slot function in
    d ← get;
    seen ← slice (endpoints d) endpoint_start (endpoint_count d);
    if bool_decide (endpoint ∈ seen) then throw MalformedDmar else
    push_endpoint endpoint ;; mret unresolved
  else if (kind =? DMAR_SCOPE_ENDPOINT) || (kind =? DMAR_SCOPE_PCI_BRIDGE)
          || negb ((kind =? DMAR_SCOPE_IO_APIC) || (kind =? DMAR_SCOPE_HPET)) then
    ok_or (checked_add 16 unresolved 1) CapacityExceeded
  else mret unresolved.

(** The [while] loop over the scopes of a structure. *)
Fixpoint scopes_loop (fuel : nat) (segment endpoint_start : Z) (structure : list Z) (offset unresolved : Z) :
    M t AcpiError Z :=
  match fuel with
  | O => panic
  | S fuel' =>
    if negb (offset <? len structure) then mret unresolved else
    left ← sub (len structure) offset;
    if left <? DMAR_SCOPE_HEADER_LENGTH then throw MalformedDmar else
    next ← add 64 offset 1;
    scope_length ← index structure next;
    if (scope_length <? DMAR_SCOPE_HEADER_LENGTH + 2)
       || negb ((scope_length - DMAR_SCOPE_HEADER_LENGTH) mod 2 =? 0)
       || match checked_add 64 offset scope_length with
          | None => true
          | Some last => len structure <? last
          end
    then throw MalformedDmar else
    last ← add 64 offset scope_length;
    scope ← slice structure offset last;
    unresolved' ← parse_scope segment endpoint_start unresolved scope;
    scopes_loop fuel' segment endpoint_start structure last unresolved'
  end.

(** [u16::try_from]. *)
Definition try_u16 {S} (x : Z) : M S AcpiError Z := if x <=? MAX 16 then mret x else throw CapacityExceeded.

Definition parse_drhd (structure : list Z) : M t AcpiError () :=
  if len structure <? DMAR_DRHD_HEADER_LENGTH then throw MalformedDmar else
  flags ← index structure 4;
  reserved ← (if negb (Z.land flags (bitnot 8 DMAR_INCLUDE_ALL) =? 0) then mret 0 else index structure 5);
  if negb (Z.land flags (bitnot 8 DMAR_INCLUDE_ALL) =? 0) || negb (reserved =? 0) then throw MalformedDmar else
  segment ← dmar_field 2 structure 6;
  register_base ← dmar_field 8 structure 8;
  if (register_base =? 0) || negb (Z.land register_base 0xfff =? 0) then throw MalformedDmar else
  d ← get;
  let endpoint_start := endpoint_count d in
  unresolved ← scopes_loop (S (length structure)) segment endpoint_start structure DMAR_DRHD_HEADER_LENGTH 0;
  d' ← get;
  endpoint_count ← ok_or (checked_sub (endpoint_count d') endpoint_start) MalformedDmar;
  start16 ← try_u16 endpoint_start;
  count16 ← try_u16 endpoint_count;
  push_unit (DmarRemappingUnit.mk segment register_base (negb (Z.land flags DMAR_INCLUDE_ALL =? 0))
               start16 count16 unresolved).

Fixpoint dmar_loop (fuel : nat) (table : list Z) (offset : Z) : M t AcpiError () :=
  match fuel with
  | O => panic
  | S fuel' =>
    if negb (offset <? len table) then mret () else
    left ← sub (len table) offset;
    if left <? 4 then throw MalformedDmar else
    structure_type ← dmar_field 2 table offset;
    next ← add 64 offset 2;
    length ← dmar_field 2 table next;
    if (length <? 4)
       || match checked_add 64 offset length with None => true | Some last => len table <? last end
    then throw MalformedDmar else
    last ← add 64 offset length;
    structure ← slice table offset last;
    (if structure_type =? DMAR_DRHD_TYPE then parse_drhd structure else mret ()) ;;
    dmar_loop fuel' table last
  end.

Definition parse_dmar (table : list Z) : M unit AcpiError t :=
  if (len table <? DMAR_HEADER_LENGTH) || negb (starts_with table DMAR_SIGNATURE)
  then throw MalformedDmar else
  width_field ← index table 36;
  host_address_width ←
    ok_or (match checked_add 8 width_field 1 with
           | Some width => if width <=? 64 then Some width else None
           | None => None
           end) MalformedDmar;
  flags ← index table 37;
  reserved ← (if negb (Z.land flags (bitnot 8 7) =? 0) then mret [] else slice table 38 DMAR_HEADER_LENGTH);
  if negb (Z.land flags (bitnot 8 7) =? 0) || existsb (λ byte, negb (byte =? 0)) reserved
  then throw MalformedDmar else
  match dmar_loop (S (length table)) table DMAR_HEADER_LENGTH (new host_address_width flags) with
  | Panic => panic
  | Fail e _ => throw e
  | Done _ dmar =>
    found ← remapping_units dmar;
    if bool_decide (found = []) then throw MalformedDmar else mret dmar
  end.
End dmar.

(** ** Finding a table *)

Section discovery.
(** [map] gives the virtual address of a physical range, or refuses; [memory]
    is the byte at a virtual address. *)
Variable map : Z → Z → option Z.
Variable memory : Z → Z.

Definition mapped_bytes (address length : Z) : M unit AcpiError (list Z) :=
  if (address =? 0) || (length =? 0) || negb (bool_decide (is_Some (checked_add 64 address length)))
  then throw InvalidAddress else
  pointer ← ok_or (map address length) AddressUnavailable;
  if pointer =? 0 then throw AddressUnavailable else
  mret (memory <$> seqZ pointer length).

Definition validated_table (address : Z) : M unit AcpiError (list Z) :=
  header ← mapped_bytes address SDT_HEADER_LENGTH;
  length_field ← read_u32 header 4;
  length ← ok_or length_field Truncated;
  if negb ((SDT_HEADER_LENGTH <=? length) && (length <=? MAXIMUM_SDT_LENGTH)) then throw InvalidLength else
  table ← mapped_bytes address length;
  if negb (checksum_is_valid table) then throw InvalidChecksum else mret table.

(** [chunks_exact(width)]; a remainder is dropped. *)
Fixpoint chunks_exact (fuel : nat) (width : nat) (l : list Z) : list (list Z) :=
  match fuel with
  | O => []
  | S fuel' =>
    if (length l <? width)%nat then [] else take width l :: chunks_exact fuel' width (drop width l)
  end.

(** The search of [find_madt] and [find_dmar] for a table with [signature]. *)
Fixpoint find_entry (signature : list Z) (entry_width : Z) (entries : list (list Z)) :
    M unit AcpiError (option Z) :=
  match entries with
  | [] => mret None
  | entry :: entries' =>
    field ← (if entry_width =? 8 then read_u64 entry 0 else read_u32 entry 0);
    address ← ok_or field Truncated;
    header ← mapped_bytes address SDT_HEADER_LENGTH;
    if starts_with header signature then mret (Some address)
    else find_entry signature entry_width entries'
  end.

Definition root_entries (root_address : Z) (expected_signature : list Z) (entry_width : Z) :
    M unit AcpiError (list (list Z)) :=
  root ← validated_table root_address;
  if negb (starts_with root expected_signature) then throw InvalidSignature else
  entries ← slice root SDT_HEADER_LENGTH (len root);
  odd ← rem (len entries) entry_width;
  if negb (odd =? 0) then throw InvalidLength else
  mret (chunks_exact (length entries) (Z.to_nat entry_width) entries).

Definition find_dmar (root_address : Z) (expected_signature : list Z) (entry_width : Z) :
    M unit AcpiError (option DmarInfo.t) :=
  entries ← root_entries root_address expected_signature entry_width;
  found ← find_entry DMAR_SIGNATURE entry_width entries;
  match found with
  | None => mret None
  | Some address => table ← validated_table address; dmar ← parse_dmar table; mret (Some dmar)
  end.

Definition find_madt (root_address : Z) (expected_signature : list Z) (entry_width : Z) :
    M unit AcpiError MadtInfo.t :=
  entries ← root_entries root_address expected_signature entry_width;
  found ← find_entry MADT_SIGNATURE entry_width entries;
  match found with
  | None => throw MissingMadt
  | Some address => table ← validated_table address; parse_madt table
  end.

Definition discover_dmar (rsdp : Rsdp.t) : M unit AcpiError (option DmarInfo.t) :=
  match Rsdp.xsdt_address rsdp with
  | Some xsdt_address => find_dmar xsdt_address XSDT_SIGNATURE 8
  | None => find_dmar (Rsdp.rsdt_address rsdp) RSDT_SIGNATURE 4
  end.
Definition discover_madt (rsdp : Rsdp.t) : M unit AcpiError MadtInfo.t :=
  match Rsdp.xsdt_address rsdp with
  | Some xsdt_address => find_madt xsdt_address XSDT_SIGNATURE 8
  | None => find_madt (Rsdp.rsdt_address rsdp) RSDT_SIGNATURE 4
  end.
End discovery.
