(* ===== verification/AcpiFacts.v ===== *)
(** * Facts of the ACPI tables

    The parsers of [Acpi] on arbitrary bytes: none of them panics, and what they
    accept is well formed. *)
From S2P Require Import Prelude Bytes Acpi.

(** ** Rules *)

Section rules.
Context {S E : Type}.
Implicit Types (s : S).

Lemma wp_index_in {A} (l : list A) i (Q : A → S → Prop) (R : E → S → Prop) s :
  0 <= i < len l → (∀ x, l !! Z.to_nat i = Some x → Q x s) → wp (index l i) Q R s.
Proof.
  intros Hi HQ. unfold len in Hi. destruct (lookup_lt_is_Some_2 l (Z.to_nat i)) as [x Hx]; [lia|].
  apply (wp_index _ _ x); [lia|done|]. by apply HQ.
Qed.
Lemma get_range_in {A} (l : list A) a b :
  0 <= a <= b → b <= len l → get_range l a b = Some (take (Z.to_nat (b - a)) (drop (Z.to_nat a) l)).
Proof.
  intros Ha Hb. unfold get_range. destruct (Z.leb_spec 0 a), (Z.leb_spec a b), (Z.leb_spec b (Z.of_nat (length l)));
    unfold len in *; (lia || done).
Qed.
Lemma wp_slice {A} (l : list A) a b (Q : list A → S → Prop) (R : E → S → Prop) s :
  0 <= a <= b → b <= len l → Q (take (Z.to_nat (b - a)) (drop (Z.to_nat a) l)) s → wp (slice l a b) Q R s.
Proof. intros Ha Hb HQ. unfold slice. by rewrite get_range_in, wp_ret. Qed.
Lemma wp_read_le n l o (Q : option Z → S → Prop) (R : E → S → Prop) s :
  bytes_ok l → o + n < 2 ^ 64 → Q None s → (∀ x, 0 <= x → Q (Some x) s) → wp (read_le n l o) Q R s.
Proof.
  intros Hl Ho Hnone Hsome. unfold read_le. rewrite wp_bind. apply wp_add; [done|]. rewrite wp_ret.
  unfold get_range. destruct (_ && _); [|done]. simpl. apply Hsome.
  apply (from_le_bytes_bound (take _ (drop _ l))). by apply Forall_take, Forall_drop.
Qed.
End rules.

Lemma len_slice {A} (l : list A) a b :
  0 <= a <= b → b <= len l → len (take (Z.to_nat (b - a)) (drop (Z.to_nat a) l)) = b - a.
Proof. intros. unfold len in *. rewrite length_take, length_drop. lia. Qed.
Lemma bytes_slice l n m : bytes_ok l → bytes_ok (take n (drop m l)).
Proof. intros. by apply Forall_take, Forall_drop. Qed.
Lemma byte_range l i x : bytes_ok l → l !! i = Some x → 0 <= x < 256.
Proof. intros Hl Hi. exact (Forall_lookup_1 _ _ _ _ Hl Hi). Qed.

(** A run of a list that an update beyond it leaves alone, and one that grows. *)
Lemma run_insert_beyond {A} (l : list A) a n i x : (a + n <= i)%nat → take n (drop a (<[i := x]> l)) = take n (drop a l).
Proof.
  intros Hi. apply list_eq. intros k. destruct (decide (k < n)%nat) as [Hk|Hk].
  - rewrite !lookup_take_lt, !lookup_drop by done. apply list_lookup_insert_ne. lia.
  - by rewrite !lookup_take_ge by lia.
Qed.
Lemma run_insert_next {A} (l : list A) a n x :
  (a + n < length l)%nat → take (S n) (drop a (<[(a + n)%nat := x]> l)) = take n (drop a l) ++ [x].
Proof.
  intros Hl. erewrite take_S_r; [by rewrite run_insert_beyond|]. rewrite lookup_drop. by apply list_lookup_insert_eq.
Qed.

(** ** Arrays filled from the front *)

Lemma wp_push {S A} (l : list A) n x (Q : list A * Z → S → Prop) (R : AcpiError → S → Prop) s :
  0 <= n <= len l → len l < 2 ^ 63 → R CapacityExceeded s →
  (n < len l → Q (<[Z.to_nat n := x]> l, n + 1) s) → wp (push l n x) Q R s.
Proof.
  intros Hn Hl HR HQ. unfold push. unfold len in *. destruct (Z.ltb_spec n (Z.of_nat (length l))) as [Hlt|]; [|by rewrite wp_throw].
  rewrite wp_bind. apply wp_store; [lia|]. rewrite wp_bind. apply wp_add; [lia|]. rewrite wp_ret. by apply HQ.
Qed.

(** ** The remapping units *)

Module DmarFacts.
Import DmarInfo.

(** The endpoints that a unit lists. *)
Definition listed (d : t) (start count : Z) : list DmarEndpoint.t :=
  take (Z.to_nat count) (drop (Z.to_nat start) (endpoints d)).
Definition scope_of (d : t) (u : DmarRemappingUnit.t) : list DmarEndpoint.t :=
  listed d (DmarRemappingUnit.endpoint_start u) (DmarRemappingUnit.endpoint_count u).
Definition endpoint_ok (segment : Z) (e : DmarEndpoint.t) : Prop :=
  DmarEndpoint.segment e = segment ∧ 0 <= DmarEndpoint.bus e < 256 ∧ 0 <= DmarEndpoint.slot e < 32 ∧
  0 <= DmarEndpoint.function e < 8.

(** A run of the endpoint array that one structure has filled. *)
Record run_ok (d : t) (start count segment : Z) : Prop := {
  ro_start : 0 <= start;
  ro_count : 0 <= count;
  ro_end : start + count <= endpoint_count d;
  ro_nodup : NoDup (listed d start count);
  ro_endpoints : Forall (endpoint_ok segment) (listed d start count);
}.
Record unit_ok (d : t) (u : DmarRemappingUnit.t) : Prop := {
  uo_run : run_ok d (DmarRemappingUnit.endpoint_start u) (DmarRemappingUnit.endpoint_count u) (DmarRemappingUnit.segment u);
  uo_base : DmarRemappingUnit.register_base u ≠ 0 ∧ Z.land (DmarRemappingUnit.register_base u) 0xfff = 0;
}.
Definition known (d : t) : list DmarRemappingUnit.t := take (Z.to_nat (unit_count d)) (units d).
Record dmar_ok (d : t) : Prop := {
  do_units : len (units d) = MAXIMUM_DMAR_UNITS;
  do_endpoints : len (endpoints d) = MAXIMUM_DMAR_ENDPOINTS;
  do_unit_count : 0 <= unit_count d <= MAXIMUM_DMAR_UNITS;
  do_endpoint_count : 0 <= endpoint_count d <= MAXIMUM_DMAR_ENDPOINTS;
  do_known : Forall (unit_ok d) (known d);
}.

Lemma dmar_new_ok w f : dmar_ok (new w f).
Proof. split; [done..|]. constructor. Qed.

(** What grows while a structure is read. *)
Record grown (d d' : t) : Prop := {
  gr_known : known d' = known d;
  gr_count : endpoint_count d <= endpoint_count d';
}.
#[export] Instance grown_preorder : PreOrder grown.
Proof. split; [by split|]. intros a b c [] []. split; [congruence|lia]. Qed.

Lemma listed_push d start count e n :
  0 <= start → 0 <= count → start + count <= n → listed (mk (host_address_width d) (flags d) (units d) (unit_count d)
    (<[Z.to_nat n := e]> (endpoints d)) (n + 1)) start count = listed d start count.
Proof. intros. unfold listed. simpl. apply run_insert_beyond. lia. Qed.

(** Pushing an endpoint that extends the current run. *)
Lemma push_endpoint_ok d start segment e :
  dmar_ok d → run_ok d start (endpoint_count d - start) segment → endpoint_ok segment e →
  e ∉ listed d start (endpoint_count d - start) →
  wp (push_endpoint e)
    (λ _ d', dmar_ok d' ∧ grown d d' ∧ run_ok d' start (endpoint_count d' - start) segment) (λ _ _, True) d.
Proof.
  intros Hd [Hs Hc He Hnd Hep] Hok Hnew. pose proof Hd as [Hu Hl Huc Hec Hkn]. unfold push_endpoint.
  rewrite wp_bind, wp_get, wp_bind. apply wp_push; [lia|rewrite Hl; done|done|]. intros Hlt. rewrite wp_put.
  set (n := endpoint_count d) in *. set (d' := mk _ _ _ _ _ _). assert (grown d d') as Hgr by (split; simpl; [done|lia]).
  assert (∀ a k, 0 <= a → 0 <= k → a + k <= n → listed d' a k = listed d a k) as Hsame by (intros; by apply listed_push).
  split; [|split; [done|]].
  - split; simpl; try done; [by unfold len in *; rewrite length_insert|lia|]. eapply Forall_impl; [exact Hkn|].
    intros u [[H1 H2 H3 H4 H5] H6]. split; [|done]. split; [done|done|simpl; lia| |]; rewrite Hsame by done; done.
  - change (endpoint_count d') with (n + 1).
    assert (listed d' start (n + 1 - start) = listed d start (n - start) ++ [e]) as Heq.
    { unfold listed. simpl. replace (Z.to_nat (n + 1 - start)) with (S (Z.to_nat (n - start))) by lia.
      replace (Z.to_nat n) with (Z.to_nat start + Z.to_nat (n - start))%nat at 1 by lia.
      apply run_insert_next. unfold len in *. lia. }
    split; simpl; [done|lia|lia| |]; rewrite Heq.
    + apply NoDup_app. split; [done|]. split; [|apply NoDup_singleton]. intros x Hx ->%list_elem_of_singleton. done.
    + apply Forall_app. split; [done|]. by constructor.
Qed.

Lemma path_head a b l : path_ok (a :: b :: l) = true → a < 32 ∧ b < 8.
Proof. simpl. intros Hp. bool_to_prop. lia. Qed.

(** The state of the parser inside one structure. *)
Definition reading (d0 : t) (start segment : Z) (d : t) : Prop :=
  dmar_ok d ∧ grown d0 d ∧ run_ok d start (endpoint_count d - start) segment.

Lemma parse_scope_ok d0 start segment unresolved scope d :
  bytes_ok scope → 8 <= len scope < 2 ^ 16 → reading d0 start segment d →
  wp (parse_scope segment start unresolved scope) (λ _, reading d0 start segment) (λ _ _, True) d.
Proof.
  intros Hb Hlen (Hd & Hgr & Hrun). unfold parse_scope. unfold DMAR_SCOPE_HEADER_LENGTH.
  rewrite wp_bind. apply wp_index_in; [lia|]. intros r0 _. rewrite wp_bind.
  assert (∀ Q : Z → t → Prop, (∀ r1, Q r1 d) → wp (if negb (r0 =? 0) then mret 0 else index scope 3) Q (λ (_ : AcpiError) _, True) d) as Hres.
  { intros Q HQ. destruct (negb _); [rewrite wp_ret; apply HQ|]. apply wp_index_in; [lia|]. intros; apply HQ. }
  apply Hres. intros r1. destruct (_ || _); [by rewrite wp_throw|]. rewrite wp_bind. apply wp_sub; [lia|]. cbv zeta.
  rewrite wp_bind. apply wp_slice; [lia|lia|]. destruct (path_ok _) eqn:Hpath; cbn [negb]; [|by rewrite wp_throw].
  rewrite wp_bind. apply wp_index_in; [lia|]. intros kind _.
  destruct (_ && _); [|destruct (_ || _); [rewrite wp_ok_or; by destruct (checked_add _ _ _)|by rewrite wp_ret]].
  rewrite wp_bind. apply wp_index_in; [lia|]. intros enum _. destruct (negb (enum =? 0)); [by rewrite wp_throw|].
  rewrite wp_bind. apply wp_index_in; [lia|]. intros bus Hbus. rewrite wp_bind. apply wp_index_in; [lia|]. intros slot Hslot.
  rewrite wp_bind. apply wp_index_in; [lia|]. intros function Hfun. rewrite wp_bind, wp_get, wp_bind.
  pose proof Hrun as [Hs Hc He _ _]. pose proof Hd as [_ Hl _ Hec _].
  apply wp_slice; [lia|lia|]. fold (listed d start (endpoint_count d - start)).
  destruct (bool_decide _) eqn:Hseen; [by rewrite wp_throw|]. apply bool_decide_eq_false in Hseen.
  rewrite wp_bind. eapply wp_mono; [eapply push_endpoint_ok; [done..| |exact Hseen]| |done].
  - assert (drop 6 scope = slot :: function :: drop 8 scope) as Hdrop.
    { rewrite (drop_S scope slot 6 Hslot), (drop_S scope function 7 Hfun). done. }
    change (Z.to_nat 6) with 6%nat in Hpath. rewrite Hdrop in Hpath.
    replace (Z.to_nat (len scope - 6)) with (S (S (Z.to_nat (len scope - 8)))) in Hpath by lia.
    apply path_head in Hpath as [? ?].
    pose proof (byte_range _ _ _ Hb Hbus). pose proof (byte_range _ _ _ Hb Hslot). pose proof (byte_range _ _ _ Hb Hfun).
    split_and!; simpl; (done || lia).
  - intros [] d' (Hd' & Hgr' & Hrun'). rewrite wp_ret. split; [done|]. split; [by etrans|done].
Qed.

Lemma scopes_loop_ok fuel d0 start segment structure offset unresolved d :
  bytes_ok structure → len structure < 2 ^ 16 → 0 <= offset <= len structure → len structure - offset < Z.of_nat fuel →
  reading d0 start segment d →
  wp (scopes_loop fuel segment start structure offset unresolved) (λ _, reading d0 start segment) (λ _ _, True) d.
Proof.
  intros Hb Hlen. revert offset unresolved d. induction fuel as [|fuel IH]; intros offset unresolved d Ho Hf Hd; [lia|].
  cbn [scopes_loop]. destruct (Z.ltb_spec offset (len structure)) as [Hlt|]; cbn [negb]; [|by rewrite wp_ret].
  rewrite wp_bind. apply wp_sub; [lia|]. unfold DMAR_SCOPE_HEADER_LENGTH.
  destruct (Z.ltb_spec (len structure - offset) 6); [by rewrite wp_throw|].
  rewrite wp_bind. apply wp_add; [lia|]. rewrite wp_bind. apply wp_index_in; [lia|]. intros n Hn.
  pose proof (byte_range _ _ _ Hb Hn) as Hr. destruct (_ || _) eqn:Hbad; [by rewrite wp_throw|].
  unfold checked_add in Hbad. destruct (Z.ltb_spec (offset + n) (2 ^ 64)); [|lia]. bool_to_prop.
  rewrite wp_bind. apply wp_add; [done|]. rewrite wp_bind. apply wp_slice; [lia|lia|]. rewrite wp_bind.
  eapply wp_mono; [apply parse_scope_ok; [by apply bytes_slice|rewrite len_slice by lia; lia|exact Hd]| |done].
  intros unresolved' d' Hd'. apply IH; [lia|lia|done].
Qed.

Lemma wp_dmar_field {S} n l o (Q : Z → S → Prop) (R : AcpiError → S → Prop) s :
  bytes_ok l → o + n < 2 ^ 64 → R MalformedDmar s → (∀ x, 0 <= x → Q x s) → wp (dmar_field n l o) Q R s.
Proof.
  intros Hl Ho HR HQ. unfold dmar_field. rewrite wp_bind. apply wp_read_le; [done|done|by rewrite wp_ok_or|].
  intros x Hx. rewrite wp_ok_or. by apply HQ.
Qed.

Lemma push_unit_ok d u :
  dmar_ok d → unit_ok d u → wp (push_unit u) (λ _ d', dmar_ok d') (λ _ _, True) d.
Proof.
  intros [Hu Hl Huc Hec Hkn] Hok. unfold push_unit. rewrite wp_bind, wp_get, wp_bind.
  apply wp_push; [lia|rewrite Hu; done|done|]. intros Hlt. rewrite wp_put.
  split; simpl; [by unfold len in *; rewrite length_insert|done|lia|lia|]. unfold known. simpl.
  replace (Z.to_nat (unit_count d + 1)) with (S (Z.to_nat (unit_count d))) by lia.
  pose proof (run_insert_next (units d) 0 (Z.to_nat (unit_count d)) u) as Hrun. rewrite !drop_0 in Hrun. simpl in Hrun.
  rewrite Hrun by (unfold len in *; lia). eapply (Forall_impl (unit_ok d)).
  - apply Forall_app. split; [done|]. by constructor.
  - intros x [[H1 H2 H3 H4 H5] H6]. by split; [split|].
Qed.

Lemma parse_drhd_ok structure d :
  bytes_ok structure → len structure < 2 ^ 16 → dmar_ok d → wp (parse_drhd structure) (λ _, dmar_ok) (λ _ _, True) d.
Proof.
  intros Hb Hlen Hd. unfold parse_drhd, DMAR_DRHD_HEADER_LENGTH.
  destruct (Z.ltb_spec (len structure) 16); [by rewrite wp_throw|].
  rewrite wp_bind. apply wp_index_in; [lia|]. intros flags _. rewrite wp_bind.
  assert (∀ Q : Z → t → Prop, (∀ r, Q r d) → wp (if negb (Z.land flags (bitnot 8 DMAR_INCLUDE_ALL) =? 0) then mret 0 else index structure 5)
    Q (λ (_ : AcpiError) _, True) d) as Hres.
  { intros Q HQ. destruct (negb _); [rewrite wp_ret; apply HQ|]. apply wp_index_in; [lia|]. intros; apply HQ. }
  apply Hres. intros r. destruct (_ || _); [by rewrite wp_throw|].
  rewrite wp_bind. apply wp_dmar_field; [done|done|done|]. intros segment _.
  rewrite wp_bind. apply wp_dmar_field; [done|done|done|]. intros base _.
  destruct (_ || _) eqn:Hbase; [by rewrite wp_throw|]. bool_to_prop. rewrite wp_bind, wp_get, wp_bind.
  pose proof Hd as [_ Hl _ Hec _].
  eapply wp_mono; [apply (scopes_loop_ok _ d (endpoint_count d) segment); [done|done|lia|unfold len in *; lia|]| |done].
  { split; [done|]. split; [done|]. rewrite Z.sub_diag. split; [lia|lia|lia|constructor|constructor]. }
  intros unresolved d' (Hd' & [Hkn Hcnt] & Hrun). rewrite wp_bind, wp_get, wp_bind, wp_ok_or.
  unfold checked_sub. destruct (Z.leb_spec (endpoint_count d) (endpoint_count d')); [|lia].
  assert (∀ x (Q : Z → t → Prop), Q x d' → wp (try_u16 x) Q (λ _ _, True) d') as Htry.
  { intros x Q HQ. unfold try_u16. destruct (_ <=? _); [by rewrite wp_ret|by rewrite wp_throw]. }
  rewrite wp_bind. apply Htry. rewrite wp_bind. apply Htry. apply push_unit_ok; [done|]. by split.
Qed.

Lemma dmar_loop_ok fuel table offset d :
  bytes_ok table → len table < 2 ^ 63 → 0 <= offset <= len table → len table - offset < Z.of_nat fuel → dmar_ok d →
  wp (dmar_loop fuel table offset) (λ _, dmar_ok) (λ _ _, True) d.
Proof.
  intros Hb Hlen. revert offset d. induction fuel as [|fuel IH]; intros offset d Ho Hf Hd; [lia|].
  cbn [dmar_loop]. destruct (Z.ltb_spec offset (len table)) as [Hlt|]; cbn [negb]; [|by rewrite wp_ret].
  rewrite wp_bind. apply wp_sub; [lia|]. destruct (Z.ltb_spec (len table - offset) 4); [by rewrite wp_throw|].
  rewrite wp_bind. apply wp_dmar_field; [done|lia|done|]. intros kind _. rewrite wp_bind. apply wp_add; [lia|].
  rewrite wp_bind. unfold dmar_field. rewrite wp_bind. unfold read_le. rewrite wp_bind. apply wp_add; [lia|]. rewrite wp_ret, wp_ok_or.
  rewrite get_range_in by lia. simpl fmap. set (field := take _ (drop _ table)).
  pose proof (from_le_bytes_bound field (bytes_slice _ _ _ Hb)) as Hn.
  assert (len field = 2) as Hf2 by (unfold field; rewrite len_slice by lia; lia). unfold len in Hf2. rewrite Hf2 in Hn.
  set (n := from_le_bytes field) in *. change (in_width 16 n) in Hn. destruct Hn as [Hn0 Hn1].
  destruct (_ || _) eqn:Hbad; [by rewrite wp_throw|]. unfold checked_add in Hbad. destruct (Z.ltb_spec (offset + n) (2 ^ 64)); [|lia].
  bool_to_prop. rewrite wp_bind. apply wp_add; [done|]. rewrite wp_bind. apply wp_slice; [lia|lia|]. rewrite wp_bind.
  assert (∀ Q : () → t → Prop, (∀ d', dmar_ok d' → Q () d') →
    wp (if kind =? DMAR_DRHD_TYPE then parse_drhd (take (Z.to_nat (offset + n - offset)) (drop (Z.to_nat offset) table)) else mret ())
      Q (λ _ _, True) d) as Hst.
  { intros Q HQ. destruct (_ =? _); [|rewrite wp_ret; by apply HQ].
    eapply wp_mono; [apply parse_drhd_ok; [by apply bytes_slice|rewrite len_slice by lia; lia|done]| |done].
    intros [] d' Hd'. by apply HQ. }
  apply Hst. intros d' Hd'. apply IH; [lia|lia|done].
Qed.

Lemma parse_dmar_ok table :
  bytes_ok table → len table < 2 ^ 63 →
  wp (parse_dmar table) (λ d _, dmar_ok d ∧ 0 < unit_count d) (λ _ _, True) ().
Proof.
  intros Hb Hlen. unfold parse_dmar, DMAR_HEADER_LENGTH. destruct (_ || _) eqn:Hg; [by rewrite wp_throw|]. bool_to_prop.
  rewrite wp_bind. apply wp_index_in; [lia|]. intros width _. rewrite wp_bind, wp_ok_or.
  destruct (match checked_add 8 width 1 with Some _ => _ | None => _ end) as [w|]; [|done].
  rewrite wp_bind. apply wp_index_in; [lia|]. intros flags _. rewrite wp_bind.
  assert (∀ Q : list Z → () → Prop, (∀ r, Q r ()) → wp (if negb (Z.land flags (bitnot 8 7) =? 0) then mret [] else slice table 38 48)
    Q (λ (_ : AcpiError) _, True) ()) as Hres.
  { intros Q HQ. destruct (negb _); [rewrite wp_ret; apply HQ|]. apply wp_slice; [lia|lia|]. apply HQ. }
  apply Hres. intros r. destruct (_ || _); [by rewrite wp_throw|].
  pose proof (dmar_loop_ok (S (length table)) table 48 (new w flags) Hb Hlen ltac:(lia) ltac:(unfold len in *; lia) (dmar_new_ok _ _)) as Hwp.
  unfold wp in Hwp. destruct (dmar_loop _ _ _ _) as [[] d|e d|]; [|by rewrite wp_throw|done].
  rewrite wp_bind. pose proof Hwp as [Hu Hl Huc Hec Hkn]. apply wp_slice_to; [unfold len in *; lia|].
  fold (known d). case_bool_decide as Hnil; [by rewrite wp_throw|]. rewrite wp_ret. split; [done|].
  destruct (decide (unit_count d = 0)) as [Hz|]; [|lia]. exfalso. apply Hnil. unfold known. by rewrite Hz.
Qed.
End DmarFacts.

(** ** Routing *)

Module RouteFacts.
Import DmarInfo DmarFacts.

(** The unit lists the endpoint; the unit takes what its segment leaves over. *)
Definition named (d : t) (e : DmarEndpoint.t) (u : DmarRemappingUnit.t) : bool :=
  (DmarRemappingUnit.segment u =? DmarEndpoint.segment e) && bool_decide (e ∈ scope_of d u).
Definition catches (d : t) (e : DmarEndpoint.t) (u : DmarRemappingUnit.t) : bool :=
  (DmarRemappingUnit.segment u =? DmarEndpoint.segment e) && negb (bool_decide (e ∈ scope_of d u)) &&
  DmarRemappingUnit.include_all u.
Definition namers (d : t) (e : DmarEndpoint.t) : list DmarRemappingUnit.t := List.filter (named d e) (known d).
Definition catchers (d : t) (e : DmarEndpoint.t) : list DmarRemappingUnit.t := List.filter (catches d e) (known d).

(** What routing answers. *)
Definition routed (es cs : list DmarRemappingUnit.t) (o : option DmarRemappingUnit.t) : Prop :=
  (length es <= 1)%nat ∧ (length cs <= 1)%nat ∧ o = head (es ++ cs).
Definition ambiguous (es cs : list DmarRemappingUnit.t) (e : DmarRouteError) : Prop :=
  match e with
  | AmbiguousExplicitScope => (2 <= length es)%nat
  | AmbiguousIncludeAll => (2 <= length cs)%nat
  end.

Lemma route_ok {S} d e l ex inc (s : S) :
  dmar_ok d → Forall (unit_ok d) l →
  let es := option_list ex ++ List.filter (named d e) l in
  let cs := option_list inc ++ List.filter (catches d e) l in
  wp (route d e l ex inc) (λ o s', s' = s ∧ routed es cs o) (λ f s', s' = s ∧ ambiguous es cs f) s.
Proof.
  intros Hd Hl. revert ex inc. induction Hl as [|u l Hu Hl IH]; intros ex inc es cs.
  - unfold es, cs. simpl. rewrite wp_ret, !app_nil_r. split; [done|]. destruct ex, inc; split_and!; simpl; lia || done.
  - unfold es, cs. cbn [route]. pose proof Hu as [[Hs Hc He _ _] _]. pose proof Hd as [_ Hlen _ Hec _]. unfold MAXIMUM_DMAR_ENDPOINTS in *.
    assert (∀ f, f u = false → List.filter f (u :: l) = List.filter f l) as Hskip by (intros f Hf; simpl; by rewrite Hf).
    assert (∀ f, f u = true → List.filter f (u :: l) = u :: List.filter f l) as Htake by (intros f Hf; simpl; by rewrite Hf).
    destruct (Z.eqb_spec (DmarRemappingUnit.segment u) (DmarEndpoint.segment e)) as [Hseg|Hseg]; cbn [negb].
    2:{ rewrite !Hskip by (unfold named, catches; by rewrite (proj2 (Z.eqb_neq _ _) Hseg)). apply IH. }
    rewrite wp_bind. apply wp_add; [lia|]. rewrite wp_bind. apply wp_slice; [lia|lia|].
    replace (DmarRemappingUnit.endpoint_start u + DmarRemappingUnit.endpoint_count u - DmarRemappingUnit.endpoint_start u)
      with (DmarRemappingUnit.endpoint_count u) by lia. fold (listed d (DmarRemappingUnit.endpoint_start u) (DmarRemappingUnit.endpoint_count u)).
    fold (scope_of d u). apply Z.eqb_eq in Hseg. destruct (bool_decide (e ∈ scope_of d u)) eqn:Hin.
    + rewrite (Htake (named d e)), (Hskip (catches d e)) by (unfold named, catches; by rewrite Hseg, Hin).
      destruct ex as [x|]; [rewrite bool_decide_true, wp_throw by eauto; split; [done|]; simpl; lia|]. apply (IH (Some u) inc).
    + rewrite (Hskip (named d e)) by (unfold named; by rewrite Hseg, Hin). destruct (DmarRemappingUnit.include_all u) eqn:Hall.
      * rewrite (Htake (catches d e)) by (unfold catches; by rewrite Hseg, Hin, Hall).
        destruct inc as [x|]; [rewrite bool_decide_true, wp_throw by eauto; split; [done|]; simpl; lia|]. apply (IH ex (Some u)).
      * rewrite (Hskip (catches d e)) by (unfold catches; by rewrite Hseg, Hin, Hall). apply IH.
Qed.

Lemma wp_known {S E} d (Q : list DmarRemappingUnit.t → S → Prop) (R : E → S → Prop) s :
  dmar_ok d → Q (known d) s → wp (remapping_units d) Q R s.
Proof. intros [Hu _ Huc _ _] HQ. apply wp_slice_to; [unfold len in *; lia|done]. Qed.

Lemma remapping_unit_ok {S} d e (s : S) :
  dmar_ok d →
  wp (remapping_unit_for d e) (λ o s', s' = s ∧ routed (namers d e) (catchers d e) o)
    (λ f s', s' = s ∧ ambiguous (namers d e) (catchers d e) f) s.
Proof.
  intros Hd. unfold remapping_unit_for. rewrite wp_bind. apply wp_known; [done|]. apply (route_ok d e (known d) None None); [done|apply Hd].
Qed.

Lemma find_same (u : DmarRemappingUnit.t) l :
  List.find (λ k, bool_decide (k = u)) l = if bool_decide (u ∈ l) then Some u else None.
Proof.
  induction l as [|x l IH]; simpl; [done|]. destruct (decide (x = u)) as [->|Hne].
  - rewrite !bool_decide_true; [done|left|done].
  - rewrite (bool_decide_false (x = u)), IH by done. repeat case_bool_decide; try done; [destruct H0; by right|].
    apply elem_of_cons in H0 as [?|?]; congruence.
Qed.

Lemma explicit_endpoints_ok {S E} d u (Q : option (list DmarEndpoint.t) → S → Prop) (R : E → S → Prop) s :
  dmar_ok d → (u ∈ known d → Q (Some (scope_of d u)) s) → (u ∉ known d → Q None s) → wp (explicit_endpoints_for d u) Q R s.
Proof.
  intros Hd Hin Hout. unfold explicit_endpoints_for. rewrite wp_bind. apply wp_known; [done|]. rewrite wp_ret, find_same.
  case_bool_decide as Hu; [|by apply Hout]. simpl. pose proof Hd as [_ Hl _ Hec Hkn].
  rewrite Forall_forall in Hkn. destruct (Hkn u Hu) as [[Hs Hc He _ _] _]. unfold MAXIMUM_DMAR_ENDPOINTS in *.
  unfold checked_add. destruct (Z.ltb_spec (DmarRemappingUnit.endpoint_start u + DmarRemappingUnit.endpoint_count u) (2 ^ 64)); [|lia].
  simpl. rewrite get_range_in by lia.
  replace (DmarRemappingUnit.endpoint_start u + DmarRemappingUnit.endpoint_count u - DmarRemappingUnit.endpoint_start u)
    with (DmarRemappingUnit.endpoint_count u) by lia. by apply Hin.
Qed.
End RouteFacts.

(** ** The interrupt description *)

Module MadtFacts.
Import MadtInfo.

Definition known (m : t) : list ProcessorDescriptor.t := take (Z.to_nat (processor_count m)) (processors_array m).
Record madt_ok (m : t) : Prop := {
  mo_io_apics : len (io_apics_array m) = MAXIMUM_IO_APICS;
  mo_overrides : len (overrides m) = MAXIMUM_INTERRUPT_OVERRIDES;
  mo_processors : len (processors_array m) = MAXIMUM_PROCESSORS;
  mo_io_apic_count : 0 <= io_apic_count m <= MAXIMUM_IO_APICS;
  mo_override_count : 0 <= override_count m <= MAXIMUM_INTERRUPT_OVERRIDES;
  mo_processor_count : 0 <= processor_count m <= MAXIMUM_PROCESSORS;
  mo_distinct : NoDup (ProcessorDescriptor.apic_id <$> known m);
}.

Lemma madt_new_ok a f : madt_ok (new a f).
Proof. split; [done..|]. constructor. Qed.

Lemma push_io_apic_ok m x : madt_ok m → wp (push_io_apic x) (λ _, madt_ok) (λ _ _, True) m.
Proof.
  intros [H1 H2 H3 H4 H5 H6 H7]. unfold push_io_apic. rewrite wp_bind, wp_get, wp_bind.
  apply wp_push; [lia|by rewrite H1|done|]. intros Hlt. rewrite wp_put.
  split; simpl; try done; [by unfold len in *; rewrite length_insert|lia].
Qed.
Lemma push_override_ok m x : madt_ok m → wp (push_override x) (λ _, madt_ok) (λ _ _, True) m.
Proof.
  intros [H1 H2 H3 H4 H5 H6 H7]. unfold push_override. rewrite wp_bind, wp_get, wp_bind.
  apply wp_push; [lia|by rewrite H2|done|]. intros Hlt. rewrite wp_put.
  split; simpl; try done; [by unfold len in *; rewrite length_insert|lia].
Qed.
Lemma push_processor_ok m x : madt_ok m → wp (push_processor x) (λ _, madt_ok) (λ _ _, True) m.
Proof.
  intros [H1 H2 H3 H4 H5 H6 H7]. unfold push_processor. rewrite wp_bind, wp_get, wp_bind. unfold processors.
  apply wp_slice_to; [unfold len in *; lia|]. fold (known m). destruct (existsb _ _) eqn:Hdup; [by rewrite wp_throw|].
  rewrite existsb_not_elem in Hdup. rewrite wp_bind. apply wp_push; [lia|by rewrite H3|done|]. intros Hlt. rewrite wp_put.
  split; simpl; try done; [by unfold len in *; rewrite length_insert|lia|]. unfold known. simpl.
  replace (Z.to_nat (processor_count m + 1)) with (S (Z.to_nat (processor_count m))) by lia.
  pose proof (run_insert_next (processors_array m) 0 (Z.to_nat (processor_count m)) x) as Hrun. rewrite !drop_0 in Hrun. simpl in Hrun.
  rewrite Hrun by (unfold len in *; lia). rewrite fmap_app. apply NoDup_app. split; [done|]. split; [|apply NoDup_singleton].
  intros id (y & -> & Hy)%list_elem_of_fmap Hx%list_elem_of_singleton. pose proof (Hdup y Hy) as Hne. apply Z.eqb_neq in Hne. done.
Qed.

Lemma wp_madt_field {S} n l o (Q : Z → S → Prop) (R : AcpiError → S → Prop) s :
  bytes_ok l → o + n < 2 ^ 64 → R MalformedMadt s → (∀ x, 0 <= x → Q x s) → wp (madt_field n l o) Q R s.
Proof.
  intros Hl Ho HR HQ. unfold madt_field. rewrite wp_bind. apply wp_read_le; [done|done|by rewrite wp_ok_or|].
  intros x Hx. rewrite wp_ok_or. by apply HQ.
Qed.

Lemma madt_entry_ok kind entry m :
  bytes_ok entry → madt_ok m → wp (madt_entry kind entry) (λ _, madt_ok) (λ _ _, True) m.
Proof.
  intros Hb Hm. unfold madt_entry.
  destruct (kind =? 0); [|destruct (kind =? 1); [|destruct (kind =? 2); [|destruct (kind =? 5); [|destruct (kind =? 9);
    [|by rewrite wp_ret]]]]]; (match goal with |- context [len entry <? ?n] => destruct (Z.ltb_spec (len entry) n) end;
    [by rewrite wp_throw|]).
  all: repeat (rewrite wp_bind; first
    [apply wp_madt_field; [done|done|done|]; intros ? _ | apply wp_index_in; [lia|]; intros ? _
    | rewrite wp_lift; match goal with |- match ?o with Ok _ => _ | Err _ => _ end => destruct o; [|done] end]).
  all: first [by apply push_processor_ok | by apply push_io_apic_ok | by apply push_override_ok | idtac].
  unfold set_local_apic_address. rewrite wp_modify. by destruct Hm; split.
Qed.

Lemma madt_loop_ok fuel table offset m :
  bytes_ok table → len table < 2 ^ 63 → 0 <= offset <= len table → len table - offset < Z.of_nat fuel → madt_ok m →
  wp (madt_loop fuel table offset) (λ _, madt_ok) (λ _ _, True) m.
Proof.
  intros Hb Hlen. revert offset m. induction fuel as [|fuel IH]; intros offset m Ho Hf Hm; [lia|].
  cbn [madt_loop]. destruct (Z.ltb_spec offset (len table)) as [Hlt|]; cbn [negb]; [|by rewrite wp_ret].
  rewrite wp_bind. apply wp_sub; [lia|]. destruct (Z.ltb_spec (len table - offset) 2); [by rewrite wp_throw|].
  rewrite wp_bind. apply wp_index_in; [lia|]. intros kind _. rewrite wp_bind. apply wp_add; [lia|].
  rewrite wp_bind. apply wp_index_in; [lia|]. intros n Hn. pose proof (byte_range _ _ _ Hb Hn) as Hr.
  destruct (Z.ltb_spec n 2); [by rewrite wp_throw|]. rewrite wp_bind. apply wp_add; [lia|].
  destruct (Z.ltb_spec (len table) (offset + n)); [by rewrite wp_throw|]. rewrite wp_bind. apply wp_slice; [lia|lia|].
  rewrite wp_bind. eapply wp_mono; [apply madt_entry_ok; [by apply bytes_slice|done]| |done].
  intros [] m' Hm'. apply IH; [lia|lia|done].
Qed.

Lemma parse_madt_ok table :
  bytes_ok table → len table < 2 ^ 63 →
  wp (parse_madt table) (λ m _, madt_ok m ∧ 0 < io_apic_count m) (λ _ _, True) ().
Proof.
  intros Hb Hlen. unfold parse_madt, MADT_HEADER_LENGTH. destruct (_ || _) eqn:Hg; [by rewrite wp_throw|]. bool_to_prop.
  rewrite wp_bind. apply wp_madt_field; [done|done|done|]. intros a _.
  rewrite wp_bind. apply wp_madt_field; [done|done|done|]. intros f _.
  pose proof (madt_loop_ok (S (length table)) table 44 (new a f) Hb Hlen ltac:(lia) ltac:(unfold len in *; lia) (madt_new_ok _ _)) as Hwp.
  unfold wp in Hwp. destruct (madt_loop _ _ _ _) as [[] m|e m|]; [|by rewrite wp_throw|done].
  rewrite wp_bind. pose proof Hwp as [H1 _ _ H4 _ _ _]. apply wp_slice_to; [unfold len in *; lia|].
  case_bool_decide as Hnil; [by rewrite wp_throw|]. rewrite wp_ret. split; [done|].
  destruct (decide (io_apic_count m = 0)) as [Hz|]; [|lia]. exfalso. apply Hnil. by rewrite Hz.
Qed.
End MadtFacts.

(** ** Finding a table *)

Module DiscoveryFacts.
Section discovery.
Context (map : Z → Z → option Z) (memory : Z → Z) (Hmem : ∀ a, in_width 8 (memory a)).

Lemma mapped_bytes_ok a n :
  wp (mapped_bytes map memory a n) (λ l _, bytes_ok l ∧ (0 <= n → len l = n)) (λ _ _, True) ().
Proof using Hmem.
  unfold mapped_bytes. destruct (_ || _); [by rewrite wp_throw|]. rewrite wp_bind, wp_ok_or.
  destruct (map a n) as [p|]; [|done]. destruct (p =? 0); [by rewrite wp_throw|]. rewrite wp_ret. split.
  - apply Forall_fmap, Forall_true. intros x. apply Hmem.
  - intros Hn. unfold len. rewrite length_fmap, length_seqZ. lia.
Qed.

Lemma validated_table_ok a :
  wp (validated_table map memory a)
    (λ l _, bytes_ok l ∧ SDT_HEADER_LENGTH <= len l <= MAXIMUM_SDT_LENGTH ∧ checksum_is_valid l = true) (λ _ _, True) ().
Proof using Hmem.
  unfold validated_table. rewrite wp_bind. eapply wp_mono; [apply mapped_bytes_ok| |done]. intros header [] [Hh _].
  unfold read_u32. rewrite wp_bind. apply wp_read_le; [done|done|by rewrite wp_bind, wp_ok_or|]. intros n Hn.
  rewrite wp_bind, wp_ok_or. destruct (negb (_ && _)) eqn:Hr; [by rewrite wp_throw|]. bool_to_prop.
  rewrite wp_bind. eapply wp_mono; [apply mapped_bytes_ok| |done]. intros table [] [Ht Hl]. specialize (Hl Hn).
  destruct (checksum_is_valid table) eqn:Hc; cbn [negb]; [|by rewrite wp_throw]. rewrite wp_ret. split; [done|]. rewrite Hl. split; [lia|done].
Qed.

Lemma chunks_bytes fuel width l : bytes_ok l → Forall bytes_ok (chunks_exact fuel width l).
Proof using Type.
  revert l. induction fuel as [|fuel IH]; intros l Hl; [constructor|]. simpl. case_match; [constructor|].
  constructor; [by apply Forall_take|]. by apply IH, Forall_drop.
Qed.

Lemma root_entries_ok a signature width :
  width ≠ 0 → wp (root_entries map memory a signature width) (λ l _, Forall bytes_ok l) (λ _ _, True) ().
Proof using Hmem.
  intros Hw. unfold root_entries. rewrite wp_bind. eapply wp_mono; [apply validated_table_ok| |done].
  intros root [] (Hb & Hl & _). destruct (negb _); [by rewrite wp_throw|]. unfold SDT_HEADER_LENGTH in *.
  rewrite wp_bind. apply wp_slice; [lia|lia|]. rewrite wp_bind. apply wp_rem; [done|].
  destruct (negb _); [by rewrite wp_throw|]. rewrite wp_ret. by apply chunks_bytes, bytes_slice.
Qed.

Lemma find_entry_ok signature width entries :
  Forall bytes_ok entries → wp (find_entry map memory signature width entries) (λ _ _, True) (λ _ _, True) ().
Proof using Hmem.
  induction 1 as [|entry entries He _ IH]; cbn [find_entry]; [by rewrite wp_ret|]. rewrite wp_bind.
  assert (∀ Q : option Z → () → Prop, (∀ o, Q o ()) → wp (if width =? 8 then read_u64 entry 0 else read_u32 entry 0) Q
    (λ (_ : AcpiError) _, True) ()) as Hread.
  { intros Q HQ. destruct (_ =? _); (apply wp_read_le; [done|done|apply HQ|intros; apply HQ]). }
  apply Hread. intros o. rewrite wp_bind, wp_ok_or. destruct o as [a|]; [|done]. rewrite wp_bind.
  eapply wp_mono; [apply mapped_bytes_ok| |done]. intros header [] _. destruct (starts_with _ _); [by rewrite wp_ret|apply IH].
Qed.

Lemma discover_dmar_ok rsdp :
  wp (discover_dmar map memory rsdp)
    (λ o _, ∀ d, o = Some d → DmarFacts.dmar_ok d ∧ 0 < DmarInfo.unit_count d) (λ _ _, True) ().
Proof using Hmem.
  assert (∀ a signature width, width ≠ 0 → wp (find_dmar map memory a signature width)
    (λ o _, ∀ d, o = Some d → DmarFacts.dmar_ok d ∧ 0 < DmarInfo.unit_count d) (λ _ _, True) ()) as Hfind.
  { intros a signature width Hw. unfold find_dmar. rewrite wp_bind. eapply wp_mono; [by apply root_entries_ok| |done].
    intros entries [] He. rewrite wp_bind. eapply wp_mono; [by apply find_entry_ok| |done]. intros [b|] [] _; [|by rewrite wp_ret].
    rewrite wp_bind. eapply wp_mono; [apply validated_table_ok| |done]. intros table [] (Ht & Hl & _). rewrite wp_bind.
    unfold MAXIMUM_SDT_LENGTH in Hl. eapply wp_mono; [apply DmarFacts.parse_dmar_ok; [done|lia]| |done].
    intros d [] Hd. rewrite wp_ret. by intros x [= <-]. }
  unfold discover_dmar. destruct (Rsdp.xsdt_address rsdp); by apply Hfind.
Qed.

Lemma discover_madt_ok rsdp :
  wp (discover_madt map memory rsdp)
    (λ m _, MadtFacts.madt_ok m ∧ 0 < MadtInfo.io_apic_count m) (λ _ _, True) ().
Proof using Hmem.
  assert (∀ a signature width, width ≠ 0 → wp (find_madt map memory a signature width)
    (λ m _, MadtFacts.madt_ok m ∧ 0 < MadtInfo.io_apic_count m) (λ _ _, True) ()) as Hfind.
  { intros a signature width Hw. unfold find_madt. rewrite wp_bind. eapply wp_mono; [by apply root_entries_ok| |done].
    intros entries [] He. rewrite wp_bind. eapply wp_mono; [by apply find_entry_ok| |done]. intros [b|] [] _; [|by rewrite wp_throw].
    rewrite wp_bind. eapply wp_mono; [apply validated_table_ok| |done]. intros table [] (Ht & Hl & _).
    unfold MAXIMUM_SDT_LENGTH in Hl. eapply wp_mono; [apply MadtFacts.parse_madt_ok; [done|lia]| |done]. done. }
  unfold discover_madt. destruct (Rsdp.xsdt_address rsdp); by apply Hfind.
Qed.
End discovery.

Lemma rsdp_parse_ok bytes :
  bytes_ok bytes → len bytes < 2 ^ 63 →
  wp (Rsdp.parse bytes) (λ r _, 0 <= Rsdp.rsdt_address r ∧ (Rsdp.xsdt_address r = None → Rsdp.rsdt_address r ≠ 0) ∧
    (∀ a, Rsdp.xsdt_address r = Some a → 2 <= Rsdp.revision r ∧ 0 < a)) (λ _ _, True) ().
Proof.
  intros Hb Hlen. unfold Rsdp.parse, RSDP_V1_LENGTH, RSDP_V2_LENGTH.
  destruct (Z.ltb_spec (len bytes) 20); [by rewrite wp_throw|]. destruct (negb _); [by rewrite wp_throw|].
  rewrite wp_bind. apply wp_slice_to; [unfold len in *; lia|]. destruct (negb _); [by rewrite wp_throw|].
  rewrite wp_bind. apply wp_index_in; [lia|]. intros revision _. unfold read_u32, read_u64.
  rewrite wp_bind. apply wp_read_le; [done|done|by rewrite wp_bind, wp_ok_or|]. intros rsdt Hrsdt. rewrite wp_bind, wp_ok_or, wp_bind.
  assert (∀ x, (∀ a, x = Some a → 2 <= revision ∧ 0 < a) →
    wp (if negb (bool_decide (is_Some x)) && (rsdt =? 0) then throw InvalidAddress else mret (Rsdp.mk revision rsdt x))
      (λ r _, 0 <= Rsdp.rsdt_address r ∧ (Rsdp.xsdt_address r = None → Rsdp.rsdt_address r ≠ 0) ∧
        (∀ a, Rsdp.xsdt_address r = Some a → 2 <= Rsdp.revision r ∧ 0 < a)) (λ _ _, True) ()) as Hend.
  { intros x Hx. destruct x as [a|]; simpl; [by rewrite wp_ret|]. destruct (Z.eqb_spec rsdt 0); [by rewrite wp_throw|by rewrite wp_ret]. }
  destruct (Z.leb_spec 2 revision); [|rewrite wp_ret; by apply Hend].
  destruct (Z.ltb_spec (len bytes) 36); [by rewrite wp_throw|].
  rewrite wp_bind. apply wp_read_le; [done|done|by rewrite wp_bind, wp_ok_or|]. intros n Hn. rewrite wp_bind, wp_ok_or.
  destruct (negb (_ && _)) eqn:Hr; [by rewrite wp_throw|]. bool_to_prop.
  rewrite wp_bind. apply wp_slice_to; [unfold len in *; lia|]. destruct (negb _); [by rewrite wp_throw|].
  rewrite wp_bind. apply wp_read_le; [done|done|by rewrite wp_bind, wp_ok_or|]. intros a Ha. rewrite wp_bind, wp_ok_or, wp_ret.
  apply Hend. destruct (Z.eqb_spec a 0); simpl; [done|]. intros x [= <-]. lia.
Qed.
End DiscoveryFacts.
