(* ===== verification/XhciDma.v ===== *)
(** * DMA storage for the xHCI controller

    Models [kernel/boulder/src/drivers/xhci_dma.rs]: the identity-DMA window, the
    arena of regions drawn from the kernel's frame pool, their zeroing, linking
    and release, and the bounded accesses to their bytes.

    An arena operation runs on the arena, the frame pool ([Frame]) and the
    physical memory seen through the direct map. *)
From S2P Require Import Prelude Bytes Paging Memory Frame ServiceCalculus.

Definition XHCI_BASE_REGION_COUNT : Z := 4.
Definition XHCI_MAXIMUM_REGION_COUNT : Z := XHCI_BASE_REGION_COUNT + 2.
Definition XHCI_MAXIMUM_SCRATCHPAD_BUFFERS : Z := 1023.
Definition FIXED_REGION_CAPACITY : Z := XHCI_MAXIMUM_REGION_COUNT.
Definition MAXIMUM_SCRATCHPAD_BUFFERS : Z := wrap 16 XHCI_MAXIMUM_SCRATCHPAD_BUFFERS.
Definition IDENTITY_ROOT_DOMAIN : Z := 0x5848434949444d41.
Definition ARENA_ROOT_DOMAIN : Z := 0x584843494152454e.

Definition mix : Z → Z → Z := Mixing.mix.
Definition canonical_root (root domain : Z) : Z := if root =? 0 then domain else root.

Module PciAddress.
Record t := mk { bus : Z; slot : Z; function : Z }.
#[global] Instance t_eq_dec : EqDecision t.
Proof. solve_decision. Defined.
End PciAddress.

(** ** The identity window *)

Module IdentityDma.

Record IdentityDmaObservation := { x86_cache_coherent : bool; requester_remapping_active : bool }.

Inductive IdentityDmaError :=
| InvalidGeneration | InvalidEvidenceRoot | UnalignedPhysicalAperture | EmptyPhysicalAperture
| PhysicalApertureOverflow | CpuApertureOverflow | DeviceLimitBelowAperture | X86CoherencyUnproven
| ActiveRequesterRemapping.

(** The window; its two flags are constants once it exists. *)
Record t := mk {
  device : PciAddress.t;
  physical_start : Z;
  physical_end : Z;
  direct_map_base : Z;
  cpu_start : Z;
  cpu_end : Z;
  device_address_limit : Z;
  generation : Z;
  evidence_root : Z;
  proof_root : Z;
}.

(** [physical_end - 1] is the only unchecked step; the aperture is not empty. *)
Definition establish (device : PciAddress.t) (physical_start physical_bytes direct_map_base
    device_address_limit generation evidence_root : Z) (observation : IdentityDmaObservation) :
    result t IdentityDmaError :=
  if generation =? 0 then Err InvalidGeneration else
  if evidence_root =? 0 then Err InvalidEvidenceRoot else
  if negb (physical_start mod PAGE_SIZE =? 0) || negb (physical_bytes mod PAGE_SIZE =? 0)
  then Err UnalignedPhysicalAperture else
  if physical_bytes =? 0 then Err EmptyPhysicalAperture else
  match checked_add 64 physical_start physical_bytes with
  | None => Err PhysicalApertureOverflow
  | Some physical_end =>
    if device_address_limit <? physical_end - 1 then Err DeviceLimitBelowAperture else
    match checked_add 64 direct_map_base physical_start, checked_add 64 direct_map_base physical_end with
    | Some cpu_start, Some cpu_end =>
      if (cpu_start =? 0) || (cpu_end <=? cpu_start) then Err CpuApertureOverflow else
      if negb (x86_cache_coherent observation) then Err X86CoherencyUnproven else
      if requester_remapping_active observation then Err ActiveRequesterRemapping else
      let root := mix (Z.lxor evidence_root IDENTITY_ROOT_DOMAIN) (PciAddress.bus device) in
      let root := mix root (PciAddress.slot device) in
      let root := mix root (PciAddress.function device) in
      let root := mix root physical_start in
      let root := mix root physical_end in
      let root := mix root device_address_limit in
      let root := mix root generation in
      Ok (mk device physical_start physical_end direct_map_base cpu_start cpu_end
            device_address_limit generation evidence_root (canonical_root root IDENTITY_ROOT_DOMAIN))
    | _, _ => Err CpuApertureOverflow
    end
  end.

End IdentityDma.

(** ** Regions *)

Inductive XhciDmaPurpose :=
| Dcbaa | CommandRing | EventRing | EventRingSegmentTable | ScratchpadPointerArray | ScratchpadBuffers.

#[global] Instance XhciDmaPurpose_eq_dec : EqDecision XhciDmaPurpose.
Proof. solve_decision. Defined.

Definition code (self : XhciDmaPurpose) : Z :=
  match self with
  | Dcbaa => 1 | CommandRing => 2 | EventRing => 3 | EventRingSegmentTable => 4
  | ScratchpadPointerArray => 5 | ScratchpadBuffers => 6
  end.

Inductive XhciDmaRegionPhase :=
| Empty | FrameOwned | Zeroed | Ready | Releasing | ReleaseDebt | Released.

#[global] Instance XhciDmaRegionPhase_eq_dec : EqDecision XhciDmaRegionPhase.
Proof. solve_decision. Defined.

Module XhciDmaRegionRecord.
Record t := mk {
  phase : XhciDmaRegionPhase;
  generation : Z;
  purpose : XhciDmaPurpose;
  device : PciAddress.t;
  physical_start : Z;
  physical_end : Z;
  device_address_start : Z;
  device_address_end : Z;
  cpu_start : Z;
  cpu_end : Z;
  page_count : Z;
  region_root : Z;
}.

Definition EMPTY : t := mk Empty 0 Dcbaa (PciAddress.mk 0 0 0) 0 0 0 0 0 0 0 0.

(** The subtraction is unchecked. *)
Definition byte_length {S E} (self : t) : M S E Z := sub (cpu_end self) (cpu_start self).

Definition with_phase (p : XhciDmaRegionPhase) (r : t) : t :=
  mk p (generation r) (purpose r) (device r) (physical_start r) (physical_end r)
    (device_address_start r) (device_address_end r) (cpu_start r) (cpu_end r) (page_count r) (region_root r).
End XhciDmaRegionRecord.

Definition region_root (secret : Z) (record : XhciDmaRegionRecord.t) : Z :=
  let root := mix (Z.lxor secret ARENA_ROOT_DOMAIN) (code (XhciDmaRegionRecord.purpose record)) in
  let root := mix root (XhciDmaRegionRecord.generation record) in
  let root := mix root (PciAddress.bus (XhciDmaRegionRecord.device record)) in
  let root := mix root (PciAddress.slot (XhciDmaRegionRecord.device record)) in
  let root := mix root (PciAddress.function (XhciDmaRegionRecord.device record)) in
  let root := mix root (XhciDmaRegionRecord.physical_start record) in
  let root := mix root (XhciDmaRegionRecord.physical_end record) in
  let root := mix root (XhciDmaRegionRecord.device_address_start record) in
  let root := mix root (XhciDmaRegionRecord.device_address_end record) in
  let root := mix root (XhciDmaRegionRecord.page_count record) in
  canonical_root root ARENA_ROOT_DOMAIN.

Inductive XhciDmaError :=
| InvalidSecret
| ScratchpadCountUnsupported (count : Z)
| FrameUnavailable (p : XhciDmaPurpose)
| PhysicalRangeOverflow (p : XhciDmaPurpose)
| OutsideIdentityAperture (p : XhciDmaPurpose)
| DeviceAddressLimit (p : XhciDmaPurpose)
| CpuAliasOverflow (p : XhciDmaPurpose)
| RegionCapacity
| MissingRegion (p : XhciDmaPurpose)
| StaleRegionToken
| InactiveRegion (p : XhciDmaPurpose)
| EmptyTransfer
| TransferOutsideRegion.

Inductive XhciDmaReleaseFault :=
| QuiescenceMismatch
| FrameAllocatorFault (purpose : XhciDmaPurpose) (source : FrameAllocatorError)
| AlreadyReleased.

Module XhciDmaReleaseReceipt.
Record t := mk { device : PciAddress.t; generation : Z; released_pages : Z; release_root : Z }.
End XhciDmaReleaseReceipt.

Module XhciDmaQuiescence.
Record t := mk { device : PciAddress.t; generation : Z; evidence_root : Z }.
End XhciDmaQuiescence.

Module XhciDmaRegionToken.
Record t := mk { generation : Z; purpose : XhciDmaPurpose }.
End XhciDmaRegionToken.

(** ** The arena *)

Module XhciDmaArena.
Import XhciDmaRegionRecord.

Record t := mk {
  identity : IdentityDma.t;
  records : list XhciDmaRegionRecord.t;
  record_count : Z;
  scratchpad_count : Z;
  supports_64_bit_addresses : bool;
  effective_device_limit : Z;
  secret : Z;
  arena_root : Z;
  released_pages : Z;
}.

Definition with_records (l : list XhciDmaRegionRecord.t) (a : t) : t :=
  mk (identity a) l (record_count a) (scratchpad_count a) (supports_64_bit_addresses a)
    (effective_device_limit a) (secret a) (arena_root a) (released_pages a).
Definition with_count (n : Z) (a : t) : t :=
  mk (identity a) (records a) n (scratchpad_count a) (supports_64_bit_addresses a)
    (effective_device_limit a) (secret a) (arena_root a) (released_pages a).
Definition with_arena_root (root : Z) (a : t) : t :=
  mk (identity a) (records a) (record_count a) (scratchpad_count a) (supports_64_bit_addresses a)
    (effective_device_limit a) (secret a) root (released_pages a).
Definition with_released (n : Z) (a : t) : t :=
  mk (identity a) (records a) (record_count a) (scratchpad_count a) (supports_64_bit_addresses a)
    (effective_device_limit a) (secret a) (arena_root a) n.

(** What an arena shares with the rest of the kernel. *)
Record platform := Platform { frames : BitmapFrameAllocator.t; memory : gmap Z Z }.
Definition system : Type := t * platform.

Definition arena {E} : M system E t := gets fst.
Definition set_arena {E} (a : t) : M system E unit := modify (λ s, (a, snd s)).
Definition set_memory {E} (m : gmap Z Z) : M system E unit :=
  modify (λ s, (fst s, Platform (frames (snd s)) m)).

(** The pool's methods lock the allocator for one call. *)
Definition on_frames {E A} (m : M BitmapFrameAllocator.t E A) : M system E A :=
  zoom (λ s, frames (snd s)) (λ f s, (fst s, Platform f (memory (snd s)))) m.

(** Byte stores through the direct map, in address order. *)
Definition store_byte (address byte : Z) (m : gmap Z Z) : gmap Z Z := <[address := byte]> m.
Fixpoint store_run (address : Z) (bytes : list Z) (m : gmap Z Z) : gmap Z Z :=
  match bytes with
  | [] => m
  | b :: bytes' => store_run (address + 1) bytes' (store_byte address b m)
  end.
Definition load_run (address : Z) (n : nat) (m : gmap Z Z) : list Z :=
  map (λ i, default 0 (m !! (address + Z.of_nat i))) (seq 0 n).

Definition zero_volatile {E} (cpu_start bytes : Z) : M system E unit :=
  s ← get; set_memory (store_run cpu_start (replicate (Z.to_nat bytes) 0) (memory (snd s))).

Definition validate_transfer (record : XhciDmaRegionRecord.t) (offset length : Z) :
    M system XhciDmaError unit :=
  match checked_add 64 offset length with
  | None => throw TransferOutsideRegion
  | Some end_ =>
    bound ← byte_length record;
    if bound <? end_ then throw TransferOutsideRegion else mret ()
  end.

Definition volatile_write_u64 (record : XhciDmaRegionRecord.t) (offset value : Z) :
    M system XhciDmaError unit :=
  validate_transfer record offset 8 ;;
  s ← get; set_memory (store_run (cpu_start record + offset) (le_bytes 8 value) (memory (snd s))).

Definition region (self : t) (p : XhciDmaPurpose) : option XhciDmaRegionRecord.t :=
  List.find (λ record, bool_decide (purpose record = p)) (take (Z.to_nat (record_count self)) (records self)).

Definition token (self : t) (p : XhciDmaPurpose) : option XhciDmaRegionToken.t :=
  (λ record, XhciDmaRegionToken.mk (generation record) p) <$> region self p.

Definition record_for_token (self : t) (tok : XhciDmaRegionToken.t) :
    result XhciDmaRegionRecord.t XhciDmaError :=
  if negb (XhciDmaRegionToken.generation tok =? IdentityDma.generation (identity self))
  then Err StaleRegionToken else
  match region self (XhciDmaRegionToken.purpose tok) with
  | None => Err (MissingRegion (XhciDmaRegionToken.purpose tok))
  | Some record =>
    match phase record with
    | Zeroed | Ready => Ok record
    | _ => Err (InactiveRegion (XhciDmaRegionToken.purpose tok))
    end
  end.

Definition write (tok : XhciDmaRegionToken.t) (offset : Z) (bytes : list Z) : M system XhciDmaError unit :=
  if bool_decide (bytes = []) then throw EmptyTransfer else
  a ← arena;
  record ← lift (record_for_token a tok);
  validate_transfer record offset (Z.of_nat (List.length bytes)) ;;
  s ← get; set_memory (store_run (cpu_start record + offset) bytes (memory (snd s))).

(** [read] for an output buffer of [length] bytes. *)
Definition read (tok : XhciDmaRegionToken.t) (offset length : Z) : M system XhciDmaError (list Z) :=
  if length =? 0 then throw EmptyTransfer else
  a ← arena;
  record ← lift (record_for_token a tok);
  validate_transfer record offset length ;;
  s ← get; mret (load_run (cpu_start record + offset) (Z.to_nat length) (memory (snd s))).

(** *** Building *)

(** [let record = &mut self.records[slot]; ...]. *)
Definition update_record {E} (slot : Z) (f : XhciDmaRegionRecord.t → XhciDmaRegionRecord.t) : M system E unit :=
  a ← arena;
  record ← index (records a) slot;
  l ← store (records a) slot (f record);
  set_arena (with_records l a).

Definition allocate_region (p : XhciDmaPurpose) (pages : Z) : M system XhciDmaError unit :=
  a ← arena;
  let slot := record_count a in
  if FIXED_REGION_CAPACITY <=? slot then throw RegionCapacity else
  physical ← map_err (λ _, FrameUnavailable p) (on_frames (BitmapFrameAllocator.allocate_contiguous pages 1));
  l ← store (records a) slot
    (XhciDmaRegionRecord.mk FrameOwned (IdentityDma.generation (identity a)) p (IdentityDma.device (identity a))
       physical physical physical physical 0 0 pages 0);
  count ← add 64 (record_count a) 1;
  set_arena (with_count count (with_records l a)) ;;
  bytes ← ok_or (checked_mul 64 pages PAGE_SIZE) (PhysicalRangeOverflow p);
  physical_end ← ok_or (checked_add 64 physical bytes) (PhysicalRangeOverflow p);
  if (physical <? IdentityDma.physical_start (identity a)) || (IdentityDma.physical_end (identity a) <? physical_end)
  then throw (OutsideIdentityAperture p) else
  last ← sub physical_end 1;
  if effective_device_limit a <? last then throw (DeviceAddressLimit p) else
  cpu_start ← ok_or (checked_add 64 (IdentityDma.direct_map_base (identity a)) physical) (CpuAliasOverflow p);
  cpu_end ← ok_or (checked_add 64 cpu_start bytes) (CpuAliasOverflow p);
  if (cpu_start <? IdentityDma.cpu_start (identity a)) || (IdentityDma.cpu_end (identity a) <? cpu_end)
  then throw (CpuAliasOverflow p) else
  zero_volatile cpu_start bytes ;;
  update_record slot (λ r,
    let zeroed := XhciDmaRegionRecord.mk Zeroed (generation r) (purpose r) (device r) (physical_start r)
      physical_end (device_address_start r) physical_end cpu_start cpu_end (page_count r)
      (XhciDmaRegionRecord.region_root r) in
    XhciDmaRegionRecord.mk Zeroed (generation r) (purpose r) (device r) (physical_start r)
      physical_end (device_address_start r) physical_end cpu_start cpu_end (page_count r)
      (XhciDma.region_root (secret a) zeroed)).

Definition initialize_scratchpad_links : M system XhciDmaError unit :=
  a ← arena;
  array ← ok_or (region a ScratchpadPointerArray) (MissingRegion ScratchpadPointerArray);
  buffers ← ok_or (region a ScratchpadBuffers) (MissingRegion ScratchpadBuffers);
  mfor (range 0 (scratchpad_count a)) (λ i,
    span ← mul 64 i PAGE_SIZE;
    address ← ok_or (checked_add 64 (device_address_start buffers) span) (PhysicalRangeOverflow ScratchpadBuffers);
    offset ← mul 64 i 8;
    volatile_write_u64 array offset address) ;;
  dcbaa ← ok_or (region a Dcbaa) (MissingRegion Dcbaa);
  volatile_write_u64 dcbaa 0 (device_address_start array).

Definition allocate_all_regions : M system XhciDmaError unit :=
  allocate_region Dcbaa 1 ;;
  allocate_region CommandRing 1 ;;
  allocate_region EventRing 1 ;;
  allocate_region EventRingSegmentTable 1 ;;
  a ← arena;
  (if negb (scratchpad_count a =? 0) then
     pointer_bytes ← ok_or (checked_mul 64 (scratchpad_count a) 8) (ScratchpadCountUnsupported (scratchpad_count a));
     allocate_region ScratchpadPointerArray (div_ceil pointer_bytes PAGE_SIZE) ;;
     allocate_region ScratchpadBuffers (scratchpad_count a) ;;
     initialize_scratchpad_links
   else mret ()) ;;
  a ← arena;
  retained ← slice_to (records a) (record_count a);
  set_arena (with_records (map (with_phase Ready) retained ++ drop (List.length retained) (records a)) a).

Definition finish_arena_root {E} : M system E unit :=
  a ← arena;
  let root := mix (Z.lxor (secret a) ARENA_ROOT_DOMAIN) (IdentityDma.proof_root (identity a)) in
  let root := mix root (IdentityDma.generation (identity a)) in
  let root := mix root (scratchpad_count a) in
  let root := mix root (Z.b2z (supports_64_bit_addresses a)) in
  retained ← slice_to (records a) (record_count a);
  let root := Mixing.absorb root (map XhciDmaRegionRecord.region_root retained) in
  set_arena (with_arena_root (canonical_root root ARENA_ROOT_DOMAIN) a).

(** *** Releasing *)

Definition settled (record : XhciDmaRegionRecord.t) : bool :=
  match phase record with Empty | Released => true | _ => false end.

Definition release_record (index' : Z) : M system XhciDmaReleaseFault unit :=
  a ← arena;
  record ← index (records a) index';
  if settled record then mret () else
  update_record index' (with_phase Releasing) ;;
  freed ← attempt (on_frames (BitmapFrameAllocator.deallocate_contiguous (physical_start record) (page_count record)));
  match freed with
  | Err source =>
    update_record index' (with_phase ReleaseDebt) ;;
    throw (FrameAllocatorFault (purpose record) source)
  | Ok _ =>
    update_record index' (with_phase Released) ;;
    a ← arena;
    total ← add 64 (released_pages a) (page_count record);
    set_arena (with_released total a)
  end.

Definition release_records : M system XhciDmaReleaseFault XhciDmaReleaseReceipt.t :=
  a ← arena;
  retained ← slice_to (records a) (record_count a);
  if forallb settled retained then throw AlreadyReleased else
  mfor (rev (range 0 (record_count a))) release_record ;;
  a ← arena;
  let root := mix (Z.lxor (arena_root a) ARENA_ROOT_DOMAIN) (IdentityDma.generation (identity a)) in
  let root := mix root (released_pages a) in
  let root := mix root (IdentityDma.proof_root (identity a)) in
  mret (XhciDmaReleaseReceipt.mk (IdentityDma.device (identity a)) (IdentityDma.generation (identity a))
          (released_pages a) (canonical_root root ARENA_ROOT_DOMAIN)).

(** [release] consumes the arena; a fault returns it, as the state left behind. *)
Definition release (q : XhciDmaQuiescence.t) : M system XhciDmaReleaseFault XhciDmaReleaseReceipt.t :=
  a ← arena;
  if negb (bool_decide (XhciDmaQuiescence.device q = IdentityDma.device (identity a)))
     || negb (XhciDmaQuiescence.generation q =? IdentityDma.generation (identity a))
     || (XhciDmaQuiescence.evidence_root q =? 0)
  then throw QuiescenceMismatch else
  release_records.

(** [XhciDmaReleaseDebt::retry]: the retained arena is released again. *)
Definition retry : XhciDmaQuiescence.t → M system XhciDmaReleaseFault XhciDmaReleaseReceipt.t := release.

(** The failure of a build: its cause, and the fault of the rollback if the arena
    is retained as a debt. *)
Record XhciDmaBuildFailure := BuildFailure { cause : XhciDmaError; debt : option XhciDmaReleaseFault }.

Definition rollback_build {E} (cause : XhciDmaError) : M system E XhciDmaBuildFailure :=
  a ← arena;
  if record_count a =? 0 then mret (BuildFailure cause None) else
  r ← attempt release_records;
  mret (BuildFailure cause (match r with Ok _ => None | Err fault => Some fault end)).

(** [allocate]: the arena of the initial state is replaced by the new one. *)
Definition allocate (identity : IdentityDma.t) (scratchpad_count : Z) (supports_64_bit_addresses : bool)
    (secret : Z) : M system XhciDmaBuildFailure unit :=
  set_arena (mk identity (replicate (Z.to_nat FIXED_REGION_CAPACITY) XhciDmaRegionRecord.EMPTY) 0
    scratchpad_count supports_64_bit_addresses
    (if supports_64_bit_addresses then IdentityDma.device_address_limit identity
     else Z.min (IdentityDma.device_address_limit identity) (MAX 32))
    secret 0 0) ;;
  validation ← attempt
    (if secret =? 0 then throw InvalidSecret
     else if MAXIMUM_SCRATCHPAD_BUFFERS <? scratchpad_count
     then throw (ScratchpadCountUnsupported scratchpad_count)
     else allocate_all_regions);
  match validation with
  | Err cause =>
    failure ← rollback_build cause;
    throw failure
  | Ok _ => finish_arena_root
  end.

End XhciDmaArena.
