(* ===== verification/XhciDmaFacts.v ===== *)
(** * Facts about the xHCI DMA arena

    The bytes of a region as a list ([load_run], [store_run]), the frames that an
    arena holds in the pool ([owns]), and the specification of every step that
    builds or releases an arena. *)
From S2P Require Import Prelude Bytes Paging Memory Frame ServiceCalculus XhciDma.

(** ** Runs of memory *)

Module Runs.
Import XhciDmaArena.

Lemma lookup_store_run a bs m j :
  store_run a bs m !! j = if decide (a <= j < a + Z.of_nat (length bs)) then bs !! Z.to_nat (j - a) else m !! j.
Proof.
  revert a m. induction bs as [|b bs IH]; intros a m; cbn [store_run length].
  - rewrite decide_False by lia. done.
  - rewrite IH. unfold store_byte. destruct (decide (j = a)) as [->|].
    + rewrite decide_False, decide_True by lia. rewrite Z.sub_diag. apply lookup_insert_eq.
    + rewrite lookup_insert_ne by done. case_decide; case_decide; try lia; try done.
      replace (Z.to_nat (j - a)) with (S (Z.to_nat (j - (a + 1)))) by lia. done.
Qed.

Lemma length_load_run a n m : length (load_run a n m) = n.
Proof. unfold load_run. by rewrite length_map, length_seq. Qed.

Lemma lookup_load_run a n m i : (i < n)%nat → load_run a n m !! i = Some (default 0 (m !! (a + Z.of_nat i))).
Proof.
  intros Hi. unfold load_run.
  change (map ?f ?l) with (f <$> l). rewrite list_lookup_fmap, lookup_seq_lt by done. done.
Qed.

Lemma load_run_ext a n m m' :
  (∀ j, a <= j < a + Z.of_nat n → m' !! j = m !! j) → load_run a n m' = load_run a n m.
Proof.
  intros H. apply list_eq. intros i. destruct (decide (i < n)%nat).
  - rewrite !lookup_load_run by done. by rewrite H by lia.
  - by rewrite !lookup_ge_None_2 by (rewrite length_load_run; lia).
Qed.

Lemma load_store_in a n off bs m :
  (off + length bs <= n)%nat →
  load_run a n (store_run (a + Z.of_nat off) bs m) = splice off bs (load_run a n m).
Proof.
  intros Hn. apply list_eq. intros i. rewrite lookup_splice by (by rewrite length_load_run).
  destruct (decide (i < n)%nat).
  - rewrite lookup_load_run, lookup_store_run by done. case_decide; case_decide; try lia.
    + replace (Z.to_nat _) with (i - off)%nat by lia.
      destruct (lookup_lt_is_Some_2 bs (i - off)) as [b Hb]; [lia|]. by rewrite Hb.
    + by rewrite lookup_load_run.
  - rewrite lookup_ge_None_2 by (rewrite length_load_run; lia). rewrite decide_False by lia.
    by rewrite lookup_ge_None_2 by (rewrite length_load_run; lia).
Qed.

Lemma load_store_out a n a' bs m :
  a + Z.of_nat n <= a' ∨ a' + Z.of_nat (length bs) <= a → load_run a n (store_run a' bs m) = load_run a n m.
Proof. intros H. apply load_run_ext. intros j Hj. rewrite lookup_store_run. by rewrite decide_False by lia. Qed.

Lemma load_store_same a bs m : load_run a (length bs) (store_run a bs m) = bs.
Proof.
  apply list_eq. intros i. destruct (decide (i < length bs)%nat).
  - rewrite lookup_load_run, lookup_store_run, decide_True by lia. replace (Z.to_nat _) with i by lia.
    destruct (lookup_lt_is_Some_2 bs i) as [b Hb]; [lia|]. by rewrite Hb.
  - by rewrite !lookup_ge_None_2 by (rewrite ?length_load_run; lia).
Qed.

Lemma window_load a n off k m :
  (off + k <= n)%nat → window off k (load_run a n m) = load_run (a + Z.of_nat off) k m.
Proof.
  intros Hk. apply list_eq. intros i. rewrite lookup_window. case_decide.
  - rewrite !lookup_load_run by lia. do 3 f_equal. lia.
  - by rewrite lookup_ge_None_2 by (rewrite length_load_run; lia).
Qed.
End Runs.

(** ** The bytes of a region *)

Module ArenaBytes.
Import XhciDmaArena XhciDmaRegionRecord Runs.

Definition extent (r : XhciDmaRegionRecord.t) : nat := Z.to_nat (cpu_end r - cpu_start r).
Definition bytes_of (r : XhciDmaRegionRecord.t) (m : gmap Z Z) : list Z := load_run (cpu_start r) (extent r) m.

Definition cpu_apart (r r' : XhciDmaRegionRecord.t) : Prop :=
  cpu_end r <= cpu_start r' ∨ cpu_end r' <= cpu_start r.

Record geometry_ok (r : XhciDmaRegionRecord.t) : Prop := {
  ge_cpu : 0 <= cpu_start r <= cpu_end r ∧ cpu_end r < 2 ^ 64;
  ge_device : u64 (device_address_start r);
}.

(** The regions that can be named are in order and do not share bytes. *)
Definition arena_sane (a : XhciDmaArena.t) : Prop :=
  ∀ p r, region a p = Some r →
    geometry_ok r ∧ ∀ q r', p ≠ q → region a q = Some r' → cpu_apart r r'.

Lemma region_purpose a p r : region a p = Some r → purpose r = p.
Proof. unfold region. intros [_ H]%find_some. by apply bool_decide_eq_true in H. Qed.

Definition active (r : XhciDmaRegionRecord.t) : Prop := phase r = Zeroed ∨ phase r = Ready.

Lemma record_for_token_ok a p r :
  region a p = Some r → generation r = IdentityDma.generation (identity a) → active r →
  record_for_token a (XhciDmaRegionToken.mk (generation r) p) = Ok r.
Proof.
  intros Hr Hg Ha. unfold record_for_token. cbn [XhciDmaRegionToken.generation XhciDmaRegionToken.purpose].
  rewrite Hg, Z.eqb_refl. cbn [negb]. rewrite Hr. by destruct Ha as [-> | ->].
Qed.

Lemma record_for_token_inv a tok r :
  record_for_token a tok = Ok r →
  region a (XhciDmaRegionToken.purpose tok) = Some r ∧ active r ∧
  XhciDmaRegionToken.generation tok = IdentityDma.generation (identity a).
Proof.
  unfold record_for_token, active.
  destruct (Z.eqb_spec (XhciDmaRegionToken.generation tok) (IdentityDma.generation (identity a))); cbn [negb]; [|done].
  destruct (region a _) as [r'|]; [|done]. destruct (phase r') eqn:Hp; intros [=]; subst; rewrite Hp; auto.
Qed.

Lemma validate_ok r off len s :
  geometry_ok r → 0 <= off → 0 <= len →
  wp (validate_transfer r off len)
    (λ _ s', s' = s ∧ off + len <= cpu_end r - cpu_start r)
    (λ e s', s' = s ∧ e = TransferOutsideRegion ∧ cpu_end r - cpu_start r < off + len) s.
Proof.
  intros [[Hc0 Hc1] _] Ho Hn. unfold validate_transfer, checked_add.
  destruct (Z.ltb_spec (off + len) (2 ^ 64)); wp_simpl; [|split; [done|split; [done|lia]]].
  unfold byte_length. apply wp_sub; [lia|]. wp_simpl.
  destruct (Z.ltb_spec (cpu_end r - cpu_start r) (off + len)); wp_simpl; split; try done; lia.
Qed.

(** The errors of an access. *)
Definition access_refused (a : XhciDmaArena.t) (tok : XhciDmaRegionToken.t) (off len : Z) (e : XhciDmaError) : Prop :=
  match e with
  | EmptyTransfer => len = 0
  | StaleRegionToken => XhciDmaRegionToken.generation tok ≠ IdentityDma.generation (identity a)
  | MissingRegion p => p = XhciDmaRegionToken.purpose tok ∧ region a p = None
  | InactiveRegion p => p = XhciDmaRegionToken.purpose tok ∧ ∃ r, region a p = Some r ∧ ¬ active r
  | TransferOutsideRegion => ∃ r, region a (XhciDmaRegionToken.purpose tok) = Some r ∧ cpu_end r - cpu_start r < off + len
  | _ => False
  end.

Lemma record_for_token_err a tok e off len : record_for_token a tok = Err e → access_refused a tok off len e.
Proof.
  unfold record_for_token, access_refused, active.
  destruct (Z.eqb_spec (XhciDmaRegionToken.generation tok) (IdentityDma.generation (identity a))); cbn [negb];
    [|by intros [= <-]].
  destruct (region a _) as [r'|] eqn:Hr; [|by intros [= <-]].
  destruct (phase r') eqn:Hp; intros [= <-]; (split; [done|]; exists r'; rewrite Hp; split; [done|by intros [?|?]]).
Qed.

Lemma write_ok tok off bs a pf :
  arena_sane a → 0 <= off →
  wp (write tok off bs)
    (λ _ s', ∃ r, record_for_token a tok = Ok r ∧ bs ≠ [] ∧ off + Z.of_nat (length bs) <= cpu_end r - cpu_start r ∧
       s' = (a, Platform (frames pf) (store_run (cpu_start r + off) bs (memory pf))))
    (λ e s', s' = (a, pf) ∧ access_refused a tok off (Z.of_nat (length bs)) e) (a, pf).
Proof.
  intros Ha Ho. unfold write. case_bool_decide as Hb; wp_simpl; [by subst|]. unfold arena. wp_simpl. cbn [fst].
  destruct (record_for_token a tok) as [r|e] eqn:Ht; [|split; [done|by eapply record_for_token_err]].
  pose proof (record_for_token_inv _ _ _ Ht) as (Hr & _). wp_simpl.
  eapply wp_mono; [apply validate_ok; [by eapply Ha|done|lia]|..]; cbv beta.
  - intros _ s' [-> Hl]. wp_simpl. unfold set_memory. wp_simpl. cbn [fst snd]. by exists r.
  - intros e s' (-> & -> & ?). split; [done|]. by exists r.
Qed.

Lemma read_ok tok off len a pf :
  arena_sane a → 0 <= off → 0 <= len →
  wp (read tok off len)
    (λ out s', ∃ r, record_for_token a tok = Ok r ∧ len ≠ 0 ∧ off + len <= cpu_end r - cpu_start r ∧
       out = load_run (cpu_start r + off) (Z.to_nat len) (memory pf) ∧ s' = (a, pf))
    (λ e s', s' = (a, pf) ∧ access_refused a tok off len e) (a, pf).
Proof.
  intros Ha Ho Hn. unfold read. destruct (Z.eqb_spec len 0) as [|Hz]; wp_simpl; [done|]. unfold arena. wp_simpl. cbn [fst].
  destruct (record_for_token a tok) as [r|e] eqn:Ht; [|split; [done|by eapply record_for_token_err]].
  pose proof (record_for_token_inv _ _ _ Ht) as (Hr & _). wp_simpl.
  eapply wp_mono; [apply validate_ok; [by eapply Ha|done|done]|..]; cbv beta.
  - intros _ s' [-> Hl]. wp_simpl. cbn [fst snd]. by exists r.
  - intros e s' (-> & -> & ?). split; [done|]. by exists r.
Qed.

(** A write changes the bytes of its own region only. *)
Lemma bytes_after_store r r' off bs m :
  geometry_ok r → 0 <= off → off + Z.of_nat (length bs) <= cpu_end r - cpu_start r →
  bytes_of r (store_run (cpu_start r + off) bs m) = splice (Z.to_nat off) bs (bytes_of r m) ∧
  (geometry_ok r' → cpu_apart r r' → bytes_of r' (store_run (cpu_start r + off) bs m) = bytes_of r' m).
Proof.
  intros Hr Ho Hl. unfold bytes_of, extent. split.
  - replace (cpu_start r + off) with (cpu_start r + Z.of_nat (Z.to_nat off)) by lia. apply load_store_in. lia.
  - intros [[? ?] _] Hap. apply load_store_out. unfold cpu_apart in Hap. lia.
Qed.
End ArenaBytes.
