(* ===== verification/XhciDmaBuild.v ===== *)
(** * Building and releasing an xHCI DMA arena

    The frames of an arena in the kernel's pool: every step of a build takes free
    frames and accounts for them in a record, and a release returns exactly the
    frames of the records. *)
From S2P Require Import Prelude Bytes Paging Memory Frame ServiceCalculus XhciDma XhciDmaFacts.

Module ArenaFrames.
Import XhciDmaArena XhciDmaRegionRecord FrameFacts FrameOps.

(** ** Frames held by records *)

Definition first_frame (r : XhciDmaRegionRecord.t) : Z := physical_start r / PAGE_SIZE.
Definition covers (r : XhciDmaRegionRecord.t) (j : Z) : bool :=
  between (first_frame r) (first_frame r + page_count r) j.
Definition holds (r : XhciDmaRegionRecord.t) (j : Z) : bool := negb (settled r) && covers r j.
Definition held (l : list XhciDmaRegionRecord.t) (j : Z) : bool := existsb (λ r, holds r j) l.
Definition owned (a : XhciDmaArena.t) : list XhciDmaRegionRecord.t := take (Z.to_nat (record_count a)) (records a).

(** A record of whole frames. *)
Record whole_frames (r : XhciDmaRegionRecord.t) : Prop := {
  wh_start : u64 (physical_start r);
  wh_align : physical_start r mod PAGE_SIZE = 0;
  wh_pages : 0 < page_count r < 2 ^ 52;
}.

(** The pool as the arena's owner relies on it. *)
Record owns (f : BitmapFrameAllocator.t) (l : list XhciDmaRegionRecord.t) : Prop := {
  ow_wf : wf f;
  ow_whole : Forall (λ r, settled r = false → whole_frames r) l;
  ow_range : ∀ j, held l j = true → 0 <= j < BitmapFrameAllocator.frame_count f;
  ow_releasable : ∀ j, held l j = true → releasable f j;
  ow_apart : ∀ i k r r', l !! i = Some r → l !! k = Some r' → i ≠ k → ∀ j, holds r j = true → holds r' j = false;
}.

(** The pool [f] is [f0] less the frames of [l]. *)
Record grew (f0 f : BitmapFrameAllocator.t) (l : list XhciDmaRegionRecord.t) : Prop := {
  gr_count : BitmapFrameAllocator.frame_count f = BitmapFrameAllocator.frame_count f0;
  gr_reserved : BitmapFrameAllocator.reserved f = BitmapFrameAllocator.reserved f0;
  gr_bits : ∀ j, 0 <= j → alloc_bit f j = alloc_bit f0 j || held l j;
  gr_free : ∀ j, held l j = true → is_free f0 j;
}.

(** The same frames are free. *)
Record same_pool (f0 f : BitmapFrameAllocator.t) : Prop := {
  sp_wf : wf f;
  sp_count : BitmapFrameAllocator.frame_count f = BitmapFrameAllocator.frame_count f0;
  sp_reserved : BitmapFrameAllocator.reserved f = BitmapFrameAllocator.reserved f0;
  sp_bits : ∀ j, 0 <= j → alloc_bit f j = alloc_bit f0 j;
  sp_free : BitmapFrameAllocator.free_frames f = BitmapFrameAllocator.free_frames f0;
}.

Lemma held_elem l j : held l j = true ↔ ∃ r, r ∈ l ∧ holds r j = true.
Proof. apply existsb_elem. Qed.

Lemma held_app l k j : held (l ++ k) j = held l j || held k j.
Proof. apply existsb_app. Qed.

Lemma held_cons r l j : held (r :: l) j = holds r j || held l j.
Proof. done. Qed.

Lemma whole_first r : whole_frames r → physical_start r = first_frame r * PAGE_SIZE ∧ 0 <= first_frame r.
Proof.
  intros [[Hs _] Ha _]. unfold first_frame. pose proof (Z.div_mod (physical_start r) PAGE_SIZE ltac:(done)).
  split; [lia|]. by apply Z.div_pos.
Qed.

(** ** One record more *)

Lemma owns_snoc f f' l r :
  owns f l → settled r = false → whole_frames r →
  first_frame r + page_count r <= BitmapFrameAllocator.frame_count f →
  (∀ j, covers r j = true → alloc_bit f j = false) → moves true (first_frame r) (page_count r) f f' →
  owns f' (l ++ [r]).
Proof.
  intros [Hwf Hwh Hrg Hrel Hap] Hs Hr Hc Hfree [Mwf Mc Mb Mr]. pose proof (whole_first r Hr) as [_ H0].
  assert (Hnew : ∀ j, holds r j = covers r j) by (intros; unfold holds; by rewrite Hs).
  assert (Hcov : ∀ j, covers r j = true → 0 <= j < BitmapFrameAllocator.frame_count f)
    by (intros j Hj%between_spec; lia).
  split; [done| |..].
  - apply Forall_app. split; [done|]. apply Forall_singleton. done.
  - intros j. rewrite held_app, Mc. intros [Hj|Hj]%orb_true_iff; [by apply Hrg|].
    apply Hcov. rewrite <- Hnew. unfold held in Hj. cbn in Hj. by rewrite orb_false_r in Hj.
  - intros j. rewrite held_app. unfold releasable, res_bit. rewrite Mr. intros [Hj|Hj]%orb_true_iff.
    + destruct (Hrel j Hj) as [Hb Hres]. split; [|done]. rewrite Mb by (apply Hrg in Hj; lia). rewrite Hb. by destruct (between _ _ _).
    + unfold held in Hj. cbn in Hj. rewrite orb_false_r, Hnew in Hj. pose proof (Hcov j Hj).
      split; [rewrite Mb by lia; unfold covers in Hj; by rewrite Hj|].
      destruct (bit (BitmapFrameAllocator.reserved f) j) eqn:Hres; [|done].
      pose proof (wf_res f Hwf j ltac:(lia) Hres) as Hal. rewrite Hfree in Hal by done. done.
  - assert (Hx : ∀ i r', l !! i = Some r' → ∀ j, holds r' j = true → covers r j = true → False).
    { intros i r' Hi j Hj Hcj. assert (Hh : held l j = true) by (apply held_elem; exists r'; split; [by eapply list_elem_of_lookup_2|done]).
      destruct (Hrel j Hh) as [Hb _]. by rewrite Hfree in Hb. }
    intros i k ra rb Hi Hk Hne j Hj. apply lookup_snoc_Some in Hi, Hk. apply not_true_iff_false. intros Hj'.
    destruct Hi as [[_ Hi]|[-> <-]], Hk as [[_ Hk]|[-> <-]].
    + by rewrite (Hap i k ra rb) in Hj'.
    + rewrite Hnew in Hj'. by eapply (Hx i ra).
    + rewrite Hnew in Hj. by eapply (Hx k rb).
    + done.
Qed.

Lemma grew_snoc f0 f f' l r :
  grew f0 f l → wf f → settled r = false → 0 <= first_frame r →
  first_frame r + page_count r <= BitmapFrameAllocator.frame_count f →
  (∀ j, covers r j = true → alloc_bit f j = false) → moves true (first_frame r) (page_count r) f f' →
  grew f0 f' (l ++ [r]).
Proof.
  intros [Gc Gr Gb Gf] Hwf Hs H0 Hc Hfree [Mwf Mc Mb Mr].
  assert (Hone : ∀ j, held [r] j = covers r j) by (intros; unfold held, holds; cbn; by rewrite Hs, orb_false_r).
  split; [congruence|congruence|..].
  - intros j Hj. rewrite Mb, held_app, Hone, Gb by done. unfold covers. by destruct (between _ _ _), (alloc_bit f0 j), (held l j).
  - intros j. rewrite held_app, Hone. intros [Hj|Hj]%orb_true_iff; [by apply Gf|].
    pose proof (proj1 (between_spec _ _ _) Hj). split; [lia|]. specialize (Hfree j Hj). rewrite Gb in Hfree by lia.
    by apply orb_false_iff in Hfree as [? _].
Qed.

(** ** One record less *)

Definition retire (r : XhciDmaRegionRecord.t) : XhciDmaRegionRecord.t :=
  if settled r then r else with_phase Released r.
Fixpoint pages (l : list XhciDmaRegionRecord.t) : Z :=
  match l with [] => 0 | r :: l' => (if settled r then 0 else page_count r) + pages l' end.

Lemma wp_on_frames {E A} (m : M BitmapFrameAllocator.t E A) Q R a f mem :
  wp (on_frames m) Q R (a, Platform f mem) =
  wp m (λ x f', Q x (a, Platform f' mem)) (λ e f', R e (a, Platform f' mem)) f.
Proof. unfold wp, on_frames, zoom. cbn [fst snd frames memory]. by destruct (m f). Qed.

Lemma wp_update_record {E} i g r a pf (Q : unit → system → Prop) (R : E → system → Prop) :
  0 <= i → records a !! Z.to_nat i = Some r →
  Q () (with_records (<[Z.to_nat i := g r]> (records a)) a, pf) → wp (update_record i g) Q R (a, pf).
Proof.
  intros Hi Hr HQ. unfold update_record, arena. wp_simpl. cbn [fst]. eapply wp_index; [done|done|]. wp_simpl.
  apply wp_store; [apply lookup_lt_Some in Hr; lia|]. wp_simpl. unfold set_arena. by wp_simpl.
Qed.

(** Releasing one record. *)
Definition retired (i : nat) (r : XhciDmaRegionRecord.t) (a : XhciDmaArena.t) : XhciDmaArena.t :=
  with_released (released_pages a + page_count r) (with_records (<[i := with_phase Released r]> (records a)) a).

Lemma release_record_ok i r a f mem (R : XhciDmaReleaseFault → system → Prop) :
  owns f (owned a) → 0 <= i → owned a !! Z.to_nat i = Some r → settled r = false →
  released_pages a + page_count r < 2 ^ 64 →
  wp (release_record i)
    (λ _ s', ∃ f', s' = (retired (Z.to_nat i) r a, Platform f' mem) ∧ moves false (first_frame r) (page_count r) f f')
    R (a, Platform f mem).
Proof.
  intros Ho Hi Hr Hs Hp. pose proof Hr as Hr0. apply lookup_take_Some in Hr0 as [Hrec _].
  pose proof (Forall_lookup_1 _ _ _ _ (ow_whole _ _ Ho) Hr) as Hwh. specialize (Hwh Hs). pose proof Hwh as [Hst Hal Hpg].
  unfold release_record, arena. wp_simpl. cbn [fst]. eapply wp_index; [done|done|]. wp_simpl. rewrite Hs.
  wp_simpl. eapply wp_update_record; [done|done|]. wp_simpl. rewrite wp_on_frames.
  assert (Hlen : (Z.to_nat i < length (records a))%nat) by by apply lookup_lt_Some in Hrec.
  assert (Hheld : ∀ j, covers r j = true → held (owned a) j = true).
  { intros j Hj. apply held_elem. exists r. split; [by eapply list_elem_of_lookup_2|]. unfold holds. by rewrite Hs. }
  eapply wp_mono; [apply deallocate_contiguous_ok; [apply Ho|done|unfold in_width; lia]|..]; cbv beta; cbv zeta; fold (first_frame r).
  - intros [] f' (_ & _ & _ & _ & Hm & _). cbv iota.
    wp_simpl. eapply wp_update_record; [done|cbn [records with_records]; by apply list_lookup_insert_eq|]. wp_simpl.
    cbn [fst]. cbn [released_pages with_records].
    apply wp_add; [done|]. wp_simpl. unfold set_arena. wp_simpl. cbn [snd].
    exists f'. split; [|done]. unfold retired. f_equal. cbn [records with_records]. by rewrite list_insert_insert_eq.
  - intros e f' [-> He]. exfalso. destruct e; try done; try lia.
    + destruct (whole_first r Hwh) as [_ H0].
      assert (Hlast : covers r (first_frame r + page_count r - 1) = true) by (apply between_spec; lia).
      apply Hheld, (ow_range _ _ Ho) in Hlast. lia.
    + destruct He as (j & Hj & Hb). assert (Hc : covers r j = true) by by apply between_spec.
      apply Hheld, (ow_releasable _ _ Ho) in Hc as [_ Hc]. congruence.
    + destruct He as (j & Hj & _ & Hb). assert (Hc : covers r j = true) by by apply between_spec.
      apply Hheld, (ow_releasable _ _ Ho) in Hc as [Hc _]. congruence.
Qed.

Lemma held_retired l i r j :
  l !! i = Some r → (∀ k r', l !! k = Some r' → k ≠ i → holds r j = true → holds r' j = false) →
  held (<[i := with_phase Released r]> l) j = held l j && negb (holds r j).
Proof.
  intros Hi Hap. apply Bool.eq_iff_eq_true. rewrite andb_true_iff, negb_true_iff, !held_elem. split.
  - intros (r' & (k & Hk)%list_elem_of_lookup & Hh). destruct (decide (k = i)) as [->|Hne].
    + rewrite list_lookup_insert_eq in Hk by (by apply lookup_lt_Some in Hi). by simplify_eq.
    + rewrite list_lookup_insert_ne in Hk by done. split; [exists r'; split; [by eapply list_elem_of_lookup_2|done]|].
      destruct (holds r j) eqn:Hr; [|done]. rewrite (Hap k r' Hk Hne eq_refl) in Hh. done.
  - intros ((r' & (k & Hk)%list_elem_of_lookup & Hh) & Hr). exists r'. split; [|done].
    destruct (decide (k = i)) as [->|Hne]; [congruence|]. apply (list_elem_of_lookup_2 _ k).
    by rewrite list_lookup_insert_ne.
Qed.

Lemma owns_retired f f' l i r :
  owns f l → l !! i = Some r → settled r = false → moves false (first_frame r) (page_count r) f f' →
  owns f' (<[i := with_phase Released r]> l).
Proof.
  intros [Hwf Hwh Hrg Hrel Hap] Hi Hs [Mwf Mc Mb Mr].
  assert (Hr : ∀ j, holds r j = covers r j) by (intros; unfold holds; by rewrite Hs).
  assert (Hh : ∀ j, held (<[i := with_phase Released r]> l) j = held l j && negb (holds r j)).
  { intros j. apply held_retired; [done|]. intros k r' Hk Hne. by eapply (Hap i k). }
  split; [done| |..].
  - apply Forall_insert; [done|]. intros [=].
  - intros j. rewrite Hh, Mc. intros [Hj _]%andb_true_iff. by apply Hrg.
  - intros j. rewrite Hh. intros [Hj Hn]%andb_true_iff. unfold releasable, res_bit. rewrite Mr.
    destruct (Hrel j Hj) as [Hb Hres]. split; [|done]. rewrite Mb by (apply Hrg in Hj; lia).
    apply negb_true_iff in Hn. rewrite Hr in Hn. unfold covers in Hn. by rewrite Hn.
  - intros k1 k2 r1 r2 Hk1 Hk2 Hne j. apply list_lookup_insert_Some in Hk1, Hk2.
    destruct Hk1 as [(_ & <- & _)|[_ Hk1]]; [done|]. destruct Hk2 as [(_ & <- & _)|[_ Hk2]]; [done|].
    by apply (Hap k1 k2).
Qed.

(** The system once the records from [i] on are released. *)
Record released_from (a0 : XhciDmaArena.t) (f0 : BitmapFrameAllocator.t) (mem : gmap Z Z) (i : nat) (s : system) : Prop := {
  rf_state : s = (with_released (released_pages a0 + pages (drop i (owned a0))) (with_records (records (fst s)) a0),
                  Platform (frames (snd s)) mem);
  rf_length : length (records (fst s)) = length (records a0);
  rf_below : ∀ k, (k < i)%nat → records (fst s) !! k = records a0 !! k;
  rf_from : ∀ k, (i <= k)%nat → (k < Z.to_nat (record_count a0))%nat → records (fst s) !! k = retire <$> records a0 !! k;
  rf_owns : owns (frames (snd s)) (owned (fst s));
  rf_count : BitmapFrameAllocator.frame_count (frames (snd s)) = BitmapFrameAllocator.frame_count f0;
  rf_reserved : BitmapFrameAllocator.reserved (frames (snd s)) = BitmapFrameAllocator.reserved f0;
  rf_bits : ∀ j, 0 <= j → alloc_bit (frames (snd s)) j = alloc_bit f0 j && negb (held (drop i (owned a0)) j);
}.

Lemma pages_bounds l :
  Forall (λ r, settled r = false → whole_frames r) l → 0 <= pages l <= 2 ^ 52 * Z.of_nat (length l).
Proof.
  induction 1 as [|r l Hr _ IH]; [done|]. cbn [pages length].
  destruct (settled r); [lia|]. destruct (Hr eq_refl) as [_ _ ?]. lia.
Qed.

Lemma retire_owned a i r :
  (i < Z.to_nat (record_count a))%nat → owned (with_records (<[i := r]> (records a)) a) = <[i := r]> (owned a).
Proof. intros Hi. unfold owned. cbn [records record_count with_records]. by apply take_insert_lt. Qed.

(** One turn of the release loop. *)
Lemma release_step a0 f0 mem i s (R : XhciDmaReleaseFault → system → Prop) :
  owns f0 (owned a0) → (length (records a0) = 6)%nat → 0 <= record_count a0 <= 6 →
  0 <= released_pages a0 <= 2 ^ 60 →
  0 <= i < record_count a0 → released_from a0 f0 mem (Z.to_nat (i + 1)) s →
  wp (release_record i) (λ _ s', released_from a0 f0 mem (Z.to_nat i) s') R s.
Proof.
  intros Ho0 Hl6 Hc6 Hrp Hi Hf. replace (Z.to_nat (i + 1)) with (S (Z.to_nat i)) in Hf by lia.
  destruct Hf as [Hst Hlen Hbel Hfrom Ho Hct Hrs Hb].
  destruct s as [a [f m]]. cbn [fst snd frames memory] in *.
  destruct (lookup_lt_is_Some_2 (records a0) (Z.to_nat i)) as [r Hr]; [lia|].
  assert (Hra : records a !! Z.to_nat i = Some r) by (rewrite Hbel by lia; done).
  assert (Hro : owned a0 !! Z.to_nat i = Some r) by (unfold owned; rewrite lookup_take_lt by lia; done).
  injection Hst as Ha Hm. subst m.
  assert (Hdrop : drop (Z.to_nat i) (owned a0) = r :: drop (S (Z.to_nat i)) (owned a0)) by by apply drop_S.
  assert (Hca : record_count a = record_count a0) by by rewrite Ha.
  assert (Hrel : released_pages a = released_pages a0 + pages (drop (S (Z.to_nat i)) (owned a0))) by by rewrite Ha at 1.
  destruct (settled r) eqn:Hs.
  - unfold release_record, arena. wp_simpl. cbn [fst]. eapply wp_index; [lia|done|]. rewrite Hs. wp_simpl.
    split; cbn [fst snd frames memory]; try done.
    + rewrite Hdrop. cbn [pages]. by rewrite Hs, Z.add_0_l, <- Ha.
    + intros k Hk. apply Hbel. lia.
    + intros k Hk Hkc. destruct (decide (k = Z.to_nat i)) as [->|]; [|apply Hfrom; lia].
      rewrite Hra, Hr. cbn. unfold retire. by rewrite Hs.
    + intros j Hj. rewrite Hb, Hdrop, held_cons by done. unfold holds. by rewrite Hs.
  - pose proof (pages_bounds _ (Forall_drop _ (S (Z.to_nat i)) _ (ow_whole _ _ Ho0))) as Hpg.
    rewrite length_drop in Hpg. unfold owned in Hpg at 3. rewrite length_take in Hpg.
    pose proof (Forall_lookup_1 _ _ _ _ (ow_whole _ _ Ho0) Hro Hs) as [_ _ Hpr].
    assert (Hroa : owned a !! Z.to_nat i = Some r) by (unfold owned; rewrite lookup_take_lt by lia; done).
    eapply wp_mono; [apply (release_record_ok i r a f mem (λ _ _, False)); [done|lia|done|done|lia]| |done]; cbv beta.
    intros _ s' (f' & -> & Hm). pose proof (owns_retired _ _ _ _ _ Ho Hroa Hs Hm) as Ho'. destruct Hm as [Mwf Mc Mb Mr].
    unfold retired. split; cbn [fst snd frames memory records with_released with_records]; try congruence.
    + f_equal. rewrite Hrel, Hdrop. cbn [pages]. rewrite Hs. rewrite Ha at 2. unfold with_released, with_records. cbn.
      f_equal. lia.
    + by rewrite length_insert.
    + intros k Hk. rewrite list_lookup_insert_ne by lia. apply Hbel. lia.
    + intros k Hk Hkc. destruct (decide (k = Z.to_nat i)) as [->|].
      * rewrite list_lookup_insert_eq by lia. rewrite Hr. cbn. unfold retire. by rewrite Hs.
      * rewrite list_lookup_insert_ne by done. apply Hfrom; lia.
    + unfold owned in *. cbn [records record_count with_released with_records].
      rewrite take_insert_lt by lia. done.
    + intros j Hj. rewrite Mb, Hb, Hdrop, held_cons by done. unfold holds. rewrite Hs. cbn [negb andb]. unfold covers.
      by destruct (between _ _ _), (alloc_bit f0 j), (held _ j).
Qed.

(** ** A whole release *)

Record housed (a : XhciDmaArena.t) (f : BitmapFrameAllocator.t) : Prop := {
  ho_owns : owns f (owned a);
  ho_length : length (records a) = 6%nat;
  ho_count : 0 <= record_count a <= 6;
  ho_released : 0 <= released_pages a <= 2 ^ 60;
}.

(** The frames of [l] are given back and nothing else changes hands. *)
Record returned (f : BitmapFrameAllocator.t) (l : list XhciDmaRegionRecord.t) (f' : BitmapFrameAllocator.t) : Prop := {
  re_wf : wf f';
  re_count : BitmapFrameAllocator.frame_count f' = BitmapFrameAllocator.frame_count f;
  re_reserved : BitmapFrameAllocator.reserved f' = BitmapFrameAllocator.reserved f;
  re_bits : ∀ j, 0 <= j → alloc_bit f' j = alloc_bit f j && negb (held l j);
}.

Record emptied (a : XhciDmaArena.t) (f : BitmapFrameAllocator.t) (mem : gmap Z Z) (s : system) : Prop := {
  em_owned : owned (fst s) = map retire (owned a);
  em_returned : returned f (owned a) (frames (snd s));
  em_memory : memory (snd s) = mem;
  em_identity : identity (fst s) = identity a;
  em_pages : released_pages (fst s) = released_pages a + pages (owned a);
  em_shape : length (records (fst s)) = 6%nat ∧ record_count (fst s) = record_count a;
}.

Lemma released_all a f mem s :
  length (records a) = 6%nat → 0 <= record_count a <= 6 →
  released_from a f mem 0 s → emptied a f mem s.
Proof.
  intros Hl Hc [Hst Hlen Hbel Hfrom Ho Hct Hrs Hb]. destruct s as [a' [f' m']]. cbn [fst snd frames memory] in *.
  injection Hst as Ha ->. rewrite drop_0 in *.
  assert (Hrc : record_count a' = record_count a) by by rewrite Ha.
  split; cbn [fst snd frames memory]; try done; try (split; congruence).
  - apply list_eq. intros k. unfold owned. rewrite Hrc. change (map retire ?l) with (retire <$> l).
    rewrite list_lookup_fmap. destruct (decide (k < Z.to_nat (record_count a))%nat) as [Hk|Hk].
    + rewrite !lookup_take_lt by done. apply Hfrom; [lia|done].
    + by rewrite !lookup_take_ge by lia.
  - split; [apply Ho|done..].
  - by rewrite Ha.
  - by rewrite Ha.
Qed.

Lemma release_records_ok a f mem :
  housed a f →
  wp release_records
    (λ receipt s', emptied a f mem s' ∧ forallb settled (owned a) = false ∧
       XhciDmaReleaseReceipt.device receipt = IdentityDma.device (identity a) ∧
       XhciDmaReleaseReceipt.generation receipt = IdentityDma.generation (identity a) ∧
       XhciDmaReleaseReceipt.released_pages receipt = released_pages (fst s'))
    (λ e s', e = AlreadyReleased ∧ s' = (a, Platform f mem) ∧ forallb settled (owned a) = true) (a, Platform f mem).
Proof.
  intros [Ho Hl Hc Hr]. unfold release_records, arena. wp_simpl. cbn [fst]. apply wp_slice_to; [lia|]. fold (owned a).
  destruct (forallb settled (owned a)) eqn:Hs; wp_simpl; [done|].
  apply (wp_for_down (λ i s, released_from a f mem (Z.to_nat i) s)); [lia| | |].
  - assert (Hd : drop (Z.to_nat (record_count a)) (owned a) = [])
      by (unfold owned; apply drop_ge; rewrite length_take; lia).
    split; cbn [fst snd frames memory]; try done; try lia.
    + rewrite Hd. cbn [pages]. rewrite Z.add_0_r. by destruct a.
    + intros j Hj. rewrite Hd. by rewrite andb_true_r.
  - intros i s' Hi Hf. by apply release_step.
  - intros s' Hf. apply released_all in Hf; [|done..]. wp_simpl.
    destruct (em_identity _ _ _ _ Hf). cbn [XhciDmaReleaseReceipt.device XhciDmaReleaseReceipt.generation
      XhciDmaReleaseReceipt.released_pages]. done.
Qed.

(** A release undoes the growth of the pool. *)
Lemma returned_same f0 f f' l : wf f0 → grew f0 f l → returned f l f' → same_pool f0 f'.
Proof.
  intros Hwf [Gc Gr Gb Gf] [Rwf Rc Rr Rb].
  assert (Hb : ∀ j, 0 <= j → alloc_bit f' j = alloc_bit f0 j).
  { intros j Hj. rewrite Rb, Gb by done. destruct (held l j) eqn:Hh.
    - destruct (Gf j Hh) as [_ ->]. done.
    - by rewrite orb_false_r, andb_true_r. }
  split; [done|congruence|congruence|done|]. rewrite (wf_free f' Rwf), (wf_free f0 Hwf). unfold free_count.
  rewrite Rc, Gc. apply count_ext. intros j Hj%elem_of_range. by rewrite Hb by lia.
Qed.

(** ** Allocating a region *)

Definition appended (r : XhciDmaRegionRecord.t) (a : XhciDmaArena.t) : XhciDmaArena.t :=
  with_count (record_count a + 1) (with_records (<[Z.to_nat (record_count a) := r]> (records a)) a).

Lemma owned_appended r a :
  0 <= record_count a < Z.of_nat (length (records a)) → owned (appended r a) = owned a ++ [r].
Proof.
  intros Hc. unfold owned, appended. cbn [records record_count with_count with_records].
  replace (Z.to_nat (record_count a + 1)) with (S (Z.to_nat (record_count a))) by lia.
  rewrite (take_S_r _ _ r) by (apply list_lookup_insert_eq; lia). by rewrite take_insert_ge.
Qed.

(** The record of [n] frames at frame [c], before and after its aliases are checked. *)
Definition raw (a : XhciDmaArena.t) (p : XhciDmaPurpose) (n c : Z) : XhciDmaRegionRecord.t :=
  XhciDmaRegionRecord.mk FrameOwned (IdentityDma.generation (identity a)) p (IdentityDma.device (identity a))
    (c * PAGE_SIZE) (c * PAGE_SIZE) (c * PAGE_SIZE) (c * PAGE_SIZE) 0 0 n 0.
Definition made_with (root : Z) (a : XhciDmaArena.t) (p : XhciDmaPurpose) (n c : Z) : XhciDmaRegionRecord.t :=
  let base := IdentityDma.direct_map_base (identity a) in
  XhciDmaRegionRecord.mk Zeroed (IdentityDma.generation (identity a)) p (IdentityDma.device (identity a))
    (c * PAGE_SIZE) (c * PAGE_SIZE + n * PAGE_SIZE) (c * PAGE_SIZE) (c * PAGE_SIZE + n * PAGE_SIZE)
    (base + c * PAGE_SIZE) (base + c * PAGE_SIZE + n * PAGE_SIZE) n root.
Definition made (a : XhciDmaArena.t) (p : XhciDmaPurpose) (n c : Z) : XhciDmaRegionRecord.t :=
  made_with (XhciDma.region_root (secret a) (made_with 0 a p n c)) a p n c.

(** The region lies in the window and below the controller's limit. *)
Record inside (a : XhciDmaArena.t) (r : XhciDmaRegionRecord.t) : Prop := {
  is_physical : IdentityDma.physical_start (identity a) <= physical_start r ∧
    physical_end r <= IdentityDma.physical_end (identity a);
  is_device : physical_end r - 1 <= effective_device_limit a;
  is_cpu : IdentityDma.cpu_start (identity a) <= cpu_start r ∧ cpu_end r <= IdentityDma.cpu_end (identity a);
  is_width : cpu_end r < 2 ^ 64;
}.

(** The pool handed out [n] free frames at [c]. *)
Definition granted (f : BitmapFrameAllocator.t) (n c : Z) (f' : BitmapFrameAllocator.t) : Prop :=
  0 < n ∧ 0 <= c ∧ c + n <= BitmapFrameAllocator.frame_count f ∧
  (∀ j, c <= j < c + n → alloc_bit f j = false) ∧ moves true c n f f'.

(** Why no region was made: nothing taken, or frames that the window does not admit. *)
Definition region_refused (a : XhciDmaArena.t) (p : XhciDmaPurpose) (n : Z) (e : XhciDmaError) (f : BitmapFrameAllocator.t)
    (mem : gmap Z Z) (s' : system) : Prop :=
  (s' = (a, Platform f mem) ∧
     (e = RegionCapacity ∧ 6 <= record_count a ∨ e = FrameUnavailable p ∧ ∀ c, ¬ fits f n 1 c)) ∨
  ∃ c f', s' = (appended (raw a p n c) a, Platform f' mem) ∧ record_count a < 6 ∧ granted f n c f' ∧
    ¬ inside a (made a p n c) ∧
    (e = PhysicalRangeOverflow p ∨ e = OutsideIdentityAperture p ∨ e = DeviceAddressLimit p ∨ e = CpuAliasOverflow p).

Lemma allocate_region_ok p n a f mem :
  housed a f → 0 < n < 2 ^ 52 → 0 <= IdentityDma.direct_map_base (identity a) →
  wp (allocate_region p n)
    (λ _ s', ∃ c f', s' = (appended (made a p n c) a, Platform f'
         (store_run (cpu_start (made a p n c)) (replicate (Z.to_nat (n * PAGE_SIZE)) 0) mem)) ∧
       record_count a < 6 ∧ granted f n c f' ∧ inside a (made a p n c))
    (λ e s', region_refused a p n e f mem s') (a, Platform f mem).
Proof.
  intros [Ho Hl Hc Hr] Hn Hb0. unfold allocate_region, arena. wp_simpl. cbn [fst]. cbv zeta.
  change FIXED_REGION_CAPACITY with 6.
  destruct (Z.leb_spec 6 (record_count a)); wp_simpl; [left; auto|]. rewrite wp_on_frames.
  eapply wp_mono; [apply allocate_contiguous_ok; [apply Ho|unfold in_width; lia|done]|..]; cbv beta.
  2:{ intros _ f' (-> & [?|[?|?]]); [lia|done|]. left. auto. }
  intros x f' (c & Hn0 & _ & (Hc0 & _ & Hcn & Hfree) & -> & Hm & _). wp_simpl.
  apply wp_store; [lia|]. wp_simpl. apply wp_add; [lia|]. wp_simpl. unfold set_arena. wp_simpl. cbn [snd].
  fold (raw a p n c). fold (appended (raw a p n c) a).
  assert (Hg : granted f n c f').
  { split; [done|]. split; [done|]. split; [done|]. split; [|done]. intros j Hj. by apply Hfree. }
  pose proof (shape_count f (ow_wf _ _ Ho)) as Hfc.
  unfold checked_mul, checked_add, PAGE_SIZE.
  destruct (Z.ltb_spec (n * 4096) (2 ^ 64)); [|lia]. wp_simpl.
  set (a1 := appended (raw a p n c) a).
  assert (Href : ∀ e, (e = PhysicalRangeOverflow p ∨ e = OutsideIdentityAperture p ∨ e = DeviceAddressLimit p ∨
    e = CpuAliasOverflow p) → ¬ inside a (made a p n c) → region_refused a p n e f mem (a1, Platform f' mem)).
  { intros e He Hi. right. by exists c, f'. }
  destruct (Z.ltb_spec (c * 4096 + n * 4096) (2 ^ 64)); wp_simpl.
  2:{ apply Href; [auto|]. intros [_ _ _ Hw]. cbn in Hw. unfold PAGE_SIZE in Hw. lia. }
  destruct ((c * 4096 <? _) || _) eqn:Hap; wp_simpl.
  { apply Href; [auto|]. intros [[Hp1 Hp2] _ _ _]. cbn in Hp1, Hp2. unfold PAGE_SIZE in *. bool_to_prop. lia. }
  apply orb_false_iff in Hap as [Hp1%Z.ltb_ge Hp2%Z.ltb_ge].
  apply wp_sub; [lia|]. wp_simpl.
  destruct (Z.ltb_spec (effective_device_limit a) (c * 4096 + n * 4096 - 1)); wp_simpl.
  { apply Href; [auto|]. intros [_ Hd _ _]. cbn in Hd. unfold PAGE_SIZE in *. lia. }
  destruct (Z.ltb_spec (IdentityDma.direct_map_base (identity a) + c * 4096) (2 ^ 64)); wp_simpl.
  2:{ apply Href; [auto|]. intros [_ _ _ Hw]. cbn in Hw. unfold PAGE_SIZE in Hw. lia. }
  destruct (Z.ltb_spec (IdentityDma.direct_map_base (identity a) + c * 4096 + n * 4096) (2 ^ 64)); wp_simpl.
  2:{ apply Href; [auto|]. intros [_ _ _ Hw]. cbn in Hw. unfold PAGE_SIZE in Hw. lia. }
  destruct ((_ <? IdentityDma.cpu_start _) || _) eqn:Hcp; wp_simpl.
  { apply Href; [auto|]. intros [_ _ [Hp3 Hp4] _]. cbn in Hp3, Hp4. unfold PAGE_SIZE in *. bool_to_prop. lia. }
  apply orb_false_iff in Hcp as [Hp3%Z.ltb_ge Hp4%Z.ltb_ge]. clear Href.
  unfold zero_volatile, set_memory. wp_simpl. cbn [fst snd frames memory].
  eapply (wp_update_record _ _ (raw a p n c)); [lia|by apply list_lookup_insert_eq; lia|].
  exists c, f'. split; [|split; [done|split; [done|by split]]].
  f_equal. unfold appended, a1. cbn [records with_count with_records appended]. rewrite list_insert_insert_eq. reflexivity.
Qed.

End ArenaFrames.
