(* ===== verification/XhciDmaStages.v ===== *)
(** * The stages of an arena's construction

    What holds after each region of a build: the frames taken, the regions made of
    them, their bytes and the rest of the memory; then the scratchpad pointers, and
    the outcome of a whole build. *)
From S2P Require Import Prelude Bytes Paging Memory Frame ServiceCalculus XhciDma XhciDmaFacts XhciDmaBuild.

Module ArenaStages.
Import XhciDmaArena XhciDmaRegionRecord FrameFacts FrameOps Runs ArenaBytes ArenaFrames.

(** ** Regions that do not share frames do not share bytes *)

Lemma covers_apart r r' :
  0 < page_count r → 0 < page_count r' → (∀ j, covers r j = true → covers r' j = false) →
  first_frame r + page_count r <= first_frame r' ∨ first_frame r' + page_count r' <= first_frame r.
Proof.
  intros Hn Hn' H. destruct (decide (first_frame r + page_count r <= first_frame r')); [by left|]. right.
  destruct (decide (first_frame r' + page_count r' <= first_frame r)); [done|exfalso].
  assert (Hc : covers r (Z.max (first_frame r) (first_frame r')) = true) by (apply between_spec; lia).
  apply H, between_spec_false in Hc. lia.
Qed.

(** A region as [allocate_region] makes it, up to its phase. *)
Definition furnished (a : XhciDmaArena.t) (r : XhciDmaRegionRecord.t) : Prop :=
  ∃ c, 0 <= c ∧ 0 < page_count r ∧ r = with_phase (phase r) (made a (purpose r) (page_count r) c) ∧
    settled r = false ∧ inside a r.

Lemma furnished_frames a r :
  furnished a r →
  cpu_start r = IdentityDma.direct_map_base (identity a) + first_frame r * PAGE_SIZE ∧
  cpu_end r = cpu_start r + page_count r * PAGE_SIZE ∧ 0 <= first_frame r ∧ 0 < page_count r ∧
  physical_start r = first_frame r * PAGE_SIZE ∧ device_address_start r = physical_start r.
Proof.
  intros (c & Hc & Hn & Hr & _). assert (Hf : first_frame r = c) by (unfold first_frame; rewrite Hr; cbn; by apply Z.div_mul).
  rewrite Hf. rewrite Hr at 1 2 3 6 7 8. cbn [cpu_start cpu_end physical_start device_address_start with_phase made made_with].
  done.
Qed.

Lemma furnished_geometry a r :
  0 <= IdentityDma.direct_map_base (identity a) → furnished a r → geometry_ok r.
Proof.
  intros Hb Hf. destruct (furnished_frames a r Hf) as (Hs & He & H0 & Hn & Hp & Hd).
  destruct Hf as (c & _ & _ & _ & _ & [_ _ _ Hw]). unfold PAGE_SIZE in *. split; [lia|].
  unfold in_width. lia.
Qed.

Lemma furnished_apart a r r' :
  furnished a r → furnished a r' → (∀ j, holds r j = true → holds r' j = false) → cpu_apart r r'.
Proof.
  intros Hf Hf' Hd. destruct (furnished_frames a r Hf) as (Hs & He & H0 & Hn & _).
  destruct (furnished_frames a r' Hf') as (Hs' & He' & H0' & Hn' & _).
  destruct Hf as (_ & _ & _ & _ & Hst & _), Hf' as (_ & _ & _ & _ & Hst' & _).
  unfold holds in Hd. rewrite Hst, Hst' in Hd. cbn [negb andb] in Hd.
  unfold cpu_apart, PAGE_SIZE in *. destruct (covers_apart r r' Hn Hn' Hd); lia.
Qed.

Lemma with_phase_made_with root a p n c : with_phase Zeroed (made_with root a p n c) = made_with root a p n c.
Proof. done. Qed.
Lemma with_phase_made a p n c :
  with_phase (phase (made a p n c)) (made a (purpose (made a p n c)) (page_count (made a p n c)) c) = made a p n c.
Proof. unfold made. apply with_phase_made_with. Qed.

(** ** After each region *)

Definition label (r : XhciDmaRegionRecord.t) : XhciDmaPurpose * Z := (purpose r, page_count r).

(** The parts of an arena that a build does not change. *)
Definition same_terms (a0 a : XhciDmaArena.t) : Prop :=
  identity a = identity a0 ∧ scratchpad_count a = scratchpad_count a0 ∧
  supports_64_bit_addresses a = supports_64_bit_addresses a0 ∧
  effective_device_limit a = effective_device_limit a0 ∧ secret a = secret a0 ∧ released_pages a = released_pages a0.

Record stage (a0 : XhciDmaArena.t) (f0 : BitmapFrameAllocator.t) (m0 : gmap Z Z)
    (plan : list (XhciDmaPurpose * Z)) (s : system) : Prop := {
  sg_terms : same_terms a0 (fst s);
  sg_housed : housed (fst s) (frames (snd s));
  sg_grew : grew f0 (frames (snd s)) (owned (fst s));
  sg_plan : map label (owned (fst s)) = plan;
  sg_made : Forall (furnished a0) (owned (fst s));
  sg_zero : Forall (λ r, bytes_of r (memory (snd s)) = replicate (extent r) 0) (owned (fst s));
  sg_rest : ∀ x, (∀ r, r ∈ owned (fst s) → ¬ (cpu_start r <= x < cpu_end r)) → memory (snd s) !! x = m0 !! x;
}.

(** Memory outside the aliases of the frames that were free. *)
Definition spared (a0 : XhciDmaArena.t) (f0 : BitmapFrameAllocator.t) (m0 m : gmap Z Z) : Prop :=
  ∀ x, (∀ j, is_free f0 j → ¬ (IdentityDma.direct_map_base (identity a0) + j * PAGE_SIZE <= x
                                < IdentityDma.direct_map_base (identity a0) + (j + 1) * PAGE_SIZE)) →
    m !! x = m0 !! x.

(** A build that stopped: its frames are still accounted for. *)
Record stopped (a0 : XhciDmaArena.t) (f0 : BitmapFrameAllocator.t) (m0 : gmap Z Z) (s : system) : Prop := {
  so_housed : housed (fst s) (frames (snd s));
  so_grew : grew f0 (frames (snd s)) (owned (fst s));
  so_unsettled : Forall (λ r, settled r = false) (owned (fst s));
  so_spared : spared a0 f0 m0 (memory (snd s));
}.

Lemma stage_spared a0 f0 m0 plan s : stage a0 f0 m0 plan s → spared a0 f0 m0 (memory (snd s)).
Proof.
  intros Hs x Hx. apply (sg_rest _ _ _ _ _ Hs). intros r Hr Hin.
  pose proof (proj1 (Forall_forall _ _) (sg_made _ _ _ _ _ Hs) r Hr) as Hf.
  destruct (furnished_frames a0 r Hf) as (Hst & He & H0 & Hn & _). destruct Hf as (_ & _ & _ & _ & Hset & _).
  set (j := (x - IdentityDma.direct_map_base (identity a0)) / PAGE_SIZE).
  pose proof (Z.div_mod (x - IdentityDma.direct_map_base (identity a0)) PAGE_SIZE ltac:(done)) as Hd.
  pose proof (Z.mod_pos_bound (x - IdentityDma.direct_map_base (identity a0)) PAGE_SIZE ltac:(done)) as Hm.
  fold j in Hd. unfold PAGE_SIZE in *. apply (Hx j); [|lia]. apply (gr_free _ _ _ (sg_grew _ _ _ _ _ Hs)).
  apply held_elem. exists r. split; [done|]. unfold holds. rewrite Hset. apply between_spec. lia.
Qed.

Lemma stage_stopped a0 f0 m0 plan s : stage a0 f0 m0 plan s → stopped a0 f0 m0 s.
Proof.
  intros Hs. split; [apply Hs|apply Hs| |by eapply stage_spared].
  eapply Forall_impl; [apply (sg_made _ _ _ _ _ Hs)|]. by intros r (_ & _ & _ & _ & ? & _).
Qed.

(** The pool and the records once more frames are taken. *)
Lemma housed_appended f0 f f' a p n c r :
  housed a f → grew f0 f (owned a) → granted f n c f' → record_count a < 6 → n < 2 ^ 52 →
  (r = raw a p n c ∨ r = made a p n c) →
  housed (appended r a) f' ∧ grew f0 f' (owned (appended r a)) ∧ owned (appended r a) = owned a ++ [r].
Proof.
  intros [Ho Hl Hc Hr] Hg (Hn & Hc0 & Hcn & Hfree & Hm) Hc6 Hn52 Hcase.
  pose proof (owned_appended r a ltac:(lia)) as Hown.
  assert (Hff : first_frame r = c) by (unfold first_frame; destruct Hcase as [-> | ->]; cbn; by apply Z.div_mul).
  assert (Hpc : page_count r = n) by by destruct Hcase as [-> | ->].
  assert (Hps : physical_start r = c * PAGE_SIZE) by by destruct Hcase as [-> | ->].
  assert (Hset : settled r = false) by by destruct Hcase as [-> | ->].
  pose proof (shape_count f (ow_wf _ _ Ho)) as Hfc.
  assert (Hwh : whole_frames r).
  { split; rewrite ?Hps, ?Hpc; [unfold in_width, PAGE_SIZE; lia|by apply Z.mod_mul|lia]. }
  assert (Hfr : ∀ j, covers r j = true → alloc_bit f j = false).
  { intros j Hj%between_spec. apply Hfree. lia. }
  rewrite <- Hff in Hm at 1. rewrite <- Hpc in Hm.
  split; [|split; [|done]].
  - split; [|cbn; by rewrite length_insert|cbn; lia|done]. rewrite Hown.
    eapply owns_snoc; try done. lia.
  - rewrite Hown. eapply grew_snoc; try done; [apply Ho|lia|lia].
Qed.

Lemma made_terms a0 a p n c : same_terms a0 a → made a p n c = made a0 p n c.
Proof. intros (Hi & _ & _ & _ & Hs & _). unfold made, made_with. by rewrite Hi, Hs. Qed.
Lemma inside_terms a0 a r : same_terms a0 a → inside a r ↔ inside a0 r.
Proof. intros (Hi & _ & _ & Hl & _). split; intros []; rewrite ?Hi, ?Hl in *; split; rewrite ?Hi, ?Hl; done. Qed.

Lemma count_owned a : length (records a) = 6%nat → 0 <= record_count a <= 6 → Z.of_nat (length (owned a)) = record_count a.
Proof. intros. unfold owned. rewrite length_take. lia. Qed.

(** What stops a build at the region [p]. *)
Definition region_error (p : XhciDmaPurpose) (e : XhciDmaError) : Prop :=
  e ∈ [FrameUnavailable p; PhysicalRangeOverflow p; OutsideIdentityAperture p; DeviceAddressLimit p; CpuAliasOverflow p].

Lemma stopped_refused a0 f0 m0 plan p n e s s' :
  stage a0 f0 m0 plan s → (length plan < 6)%nat → n < 2 ^ 52 →
  region_refused (fst s) p n e (frames (snd s)) (memory (snd s)) s' → stopped a0 f0 m0 s' ∧ region_error p e.
Proof.
  intros Hs Hp Hn Href. destruct s as [a [f mem]]. cbn [fst snd frames memory] in *.
  pose proof (sg_housed _ _ _ _ _ Hs) as Hh. cbn [fst snd frames] in Hh.
  assert (Hcnt : record_count a < 6).
  { rewrite <- (count_owned a) by apply Hh. rewrite <- (sg_plan _ _ _ _ _ Hs), length_map in Hp. cbn [fst] in Hp. lia. }
  destruct Href as [(-> & [[_ ?]|[-> _]])|(c & f' & -> & _ & Hg & _ & He)]; [lia|..].
  - split; [by eapply stage_stopped|]. apply list_elem_of_here.
  - split; [|unfold region_error; destruct He as [->|[->|[->| ->]]]; set_solver].
    destruct (housed_appended f0 f f' a p n c (raw a p n c)) as (Hh' & Hg' & Hown); try done; [apply Hs|by left|].
    split; cbn [fst snd frames memory]; [done|done| |by apply (stage_spared _ _ _ _ _ Hs)].
    rewrite Hown. apply Forall_app. split; [apply (so_unsettled _ _ _ _ (stage_stopped _ _ _ _ _ Hs))|].
    by apply Forall_singleton.
Qed.

Lemma stage_region a0 f0 m0 plan p n s :
  0 <= IdentityDma.direct_map_base (identity a0) → 0 < n < 2 ^ 52 → (length plan < 6)%nat →
  stage a0 f0 m0 plan s →
  wp (allocate_region p n) (λ _ s', stage a0 f0 m0 (plan ++ [(p, n)]) s')
    (λ e s', stopped a0 f0 m0 s' ∧ region_error p e) s.
Proof.
  intros Hb Hn Hpl Hs. pose proof Hs as [Ht Hh Hg Hp Hm Hz Hr]. destruct s as [a [f mem]]. cbn [fst snd frames memory] in *.
  assert (Hid : identity a = identity a0) by apply Ht.
  eapply wp_mono; [apply allocate_region_ok; [done|done|by rewrite Hid]|..]; cbv beta.
  2:{ intros e s' Href. eapply (stopped_refused a0 f0 m0 plan p n e (a, Platform f mem)); try done. lia. }
  intros _ s' (c & f' & -> & Hc6 & Hgr & Hin). rewrite (made_terms a0) in * by done. apply (inside_terms a0) in Hin; [|done].
  destruct (housed_appended f0 f f' a p n c (made a0 p n c)) as (Hh' & Hg' & Hown); try done; [lia| |].
  { right. symmetry. by apply made_terms. }
  set (r := made a0 p n c) in *. assert (Hfr : furnished a0 r).
  { exists c. destruct Hgr as (? & ? & _). split; [done|]. split; [done|]. split; [|by split].
    symmetry. apply with_phase_made. }
  pose proof (furnished_geometry a0 r Hb Hfr) as Hgeo. destruct (furnished_frames a0 r Hfr) as (Hcs & Hce & _).
  assert (Hlen : Z.of_nat (length (replicate (Z.to_nat (n * PAGE_SIZE)) 0)) = cpu_end r - cpu_start r).
  { rewrite length_replicate, Hce. change (page_count r) with n. unfold PAGE_SIZE. lia. }
  assert (Hap : ∀ r', r' ∈ owned a → cpu_apart r r').
  { intros r' (i & Hi)%list_elem_of_lookup. apply (furnished_apart a0); [done|by eapply Forall_lookup_1|].
    pose proof (ow_apart _ _ (ho_owns _ _ Hh')) as Hap. rewrite Hown in Hap.
    apply (Hap (length (owned a)) i); [by apply list_lookup_middle|by apply lookup_app_l_Some|].
    apply lookup_lt_Some in Hi. lia. }
  split; cbn [fst snd frames memory]; try done; rewrite ?Hown.
  - rewrite map_app, Hp. done.
  - apply Forall_app. split; [done|by apply Forall_singleton].
  - apply Forall_app. split.
    + apply Forall_forall. intros r' Hr'. rewrite <- (proj1 (Forall_forall _ _) Hz r' Hr').
      unfold bytes_of. apply load_store_out. rewrite Hlen. destruct (Hap r' Hr'); unfold extent; [right; lia|left].
      pose proof (furnished_geometry a0 r' Hb (proj1 (Forall_forall _ _) Hm r' Hr')) as [? _]. lia.
    + apply Forall_singleton. unfold bytes_of.
      replace (extent r) with (length (replicate (Z.to_nat (n * PAGE_SIZE)) 0)) at 1 by (unfold extent; lia).
      rewrite load_store_same. f_equal. unfold extent. rewrite <- Hlen, length_replicate. lia.
  - intros x Hx. rewrite lookup_store_run, decide_False.
    + apply Hr. intros r' Hr'. apply Hx. apply elem_of_app. by left.
    + intros Hin'. apply (Hx r); [apply elem_of_app; right; by apply list_elem_of_singleton|]. lia.
Qed.

(** ** Scratchpad pointers *)

Definition zeros (r : XhciDmaRegionRecord.t) : list Z := replicate (extent r) 0.

(** The pointers to [n] consecutive pages. *)
Fixpoint pointers (base : Z) (n : nat) : list Z :=
  match n with O => [] | S n' => pointers base n' ++ le_bytes 8 (base + Z.of_nat n' * PAGE_SIZE) end.

Lemma length_pointers base n : length (pointers base n) = (8 * n)%nat.
Proof. induction n as [|n IH]; [done|]. cbn [pointers]. rewrite length_app, IH, length_le_bytes. lia. Qed.

Lemma write_word r off v a f mem (Q : unit → system → Prop) R :
  geometry_ok r → 0 <= off → off + 8 <= cpu_end r - cpu_start r →
  Q () (a, Platform f (store_run (cpu_start r + off) (le_bytes 8 v) mem)) →
  wp (volatile_write_u64 r off v) Q R (a, Platform f mem).
Proof.
  intros Hg Ho Hl HQ. unfold volatile_write_u64. wp_simpl.
  eapply wp_mono; [by apply validate_ok|..]; cbv beta.
  - intros _ s' [-> _]. wp_simpl. unfold set_memory. by wp_simpl.
  - intros e s' (_ & _ & ?). lia.
Qed.

(** The writes of the loop: the array holds the first [i] pointers. *)
Record pointed (x : XhciDmaRegionRecord.t) (base : Z) (i : nat) (mem mem' : gmap Z Z) : Prop := {
  pt_array : bytes_of x mem' = splice 0 (pointers base i) (bytes_of x mem);
  pt_other : ∀ y, ¬ (cpu_start x <= y < cpu_end x) → mem' !! y = mem !! y;
}.

Lemma pointed_step x base i mem mem' :
  geometry_ok x → 8 * Z.of_nat i + 8 <= cpu_end x - cpu_start x → pointed x base i mem mem' →
  pointed x base (S i) mem
    (store_run (cpu_start x + Z.of_nat i * 8) (le_bytes 8 (base + Z.of_nat i * PAGE_SIZE)) mem').
Proof.
  intros Hg Hl [Ha Ho]. pose proof (length_load_run (cpu_start x) (extent x) mem) as Hlm. fold (bytes_of x mem) in Hlm.
  unfold extent in Hlm. split.
  - destruct (bytes_after_store x x (Z.of_nat i * 8) (le_bytes 8 (base + Z.of_nat i * PAGE_SIZE)) mem' Hg) as [-> _];
      [lia|rewrite length_le_bytes; lia|]. rewrite Ha.
    cbn [pointers]. replace (Z.to_nat (Z.of_nat i * 8)) with (0 + length (pointers base i))%nat by (rewrite length_pointers; lia).
    apply splice_app. rewrite length_pointers, length_le_bytes. lia.
  - intros y Hy. rewrite lookup_store_run, decide_False; [by apply Ho|]. rewrite length_le_bytes. lia.
Qed.

Section links.
Context (a : XhciDmaArena.t) (f : BitmapFrameAllocator.t) (mem : gmap Z Z) (x b d : XhciDmaRegionRecord.t).
Context (Hx : region a ScratchpadPointerArray = Some x) (Hb : region a ScratchpadBuffers = Some b).
Context (Hd : region a Dcbaa = Some d) (Hgx : geometry_ok x) (Hgd : geometry_ok d) (Hap : cpu_apart d x).
Context (Hn : 0 <= scratchpad_count a <= 1023) (Hlx : 8 * scratchpad_count a <= cpu_end x - cpu_start x).
Context (Hld : 8 <= cpu_end d - cpu_start d).
Context (Hbs : 0 <= device_address_start b) (Hbe : device_address_start b + scratchpad_count a * PAGE_SIZE < 2 ^ 64).

Lemma links_ok (R : XhciDmaError → system → Prop) :
  wp initialize_scratchpad_links
    (λ _ s', ∃ mem', s' = (a, Platform f mem') ∧
       bytes_of x mem' = splice 0 (pointers (device_address_start b) (Z.to_nat (scratchpad_count a))) (bytes_of x mem) ∧
       bytes_of d mem' = splice 0 (le_bytes 8 (device_address_start x)) (bytes_of d mem) ∧
       ∀ y, ¬ (cpu_start x <= y < cpu_end x) → ¬ (cpu_start d <= y < cpu_end d) → mem' !! y = mem !! y)
    R (a, Platform f mem).
Proof.
  unfold initialize_scratchpad_links, arena. wp_simpl. cbn [fst]. rewrite Hx, Hb. wp_simpl.
  apply (wp_for_range (λ i s, ∃ mem', s = (a, Platform f mem') ∧
    pointed x (device_address_start b) (Z.to_nat i) mem mem')).
  - exists mem. split; [done|]. split; [|done]. cbn [Z.to_nat pointers]. by rewrite splice_nil.
  - intros i s' Hi (mem' & -> & Hp). unfold PAGE_SIZE in *. wp_simpl. apply wp_mul; [lia|]. wp_simpl.
    unfold checked_add. rewrite (proj2 (Z.ltb_lt (device_address_start b + i * 4096) (2 ^ 64))) by lia. wp_simpl.
    apply wp_mul; [lia|]. wp_simpl. apply write_word; [done|lia|lia|]. eexists. split; [done|].
    replace (Z.to_nat (i + 1)) with (S (Z.to_nat i)) by lia.
    replace i with (Z.of_nat (Z.to_nat i)) at 2 3 by lia. apply pointed_step; [done|lia|done].
  - rewrite Z.max_r by lia. intros s' (mem' & -> & [Hpa Hpo]). wp_simpl. rewrite Hd. wp_simpl.
    apply write_word; [done|lia|lia|]. eexists. split; [done|].
    destruct (bytes_after_store d x 0 (le_bytes 8 (device_address_start x)) mem' Hgd) as [Hd1 Hd2];
      [lia|rewrite length_le_bytes; lia|].
    rewrite Hd1, Hd2, Hpa by done. split; [done|]. split.
    + f_equal. apply load_run_ext. intros y Hy. apply Hpo. unfold extent, cpu_apart in *. destruct Hgd, Hgx. lia.
    + intros y Hyx Hyd. rewrite lookup_store_run, decide_False; [by apply Hpo|]. rewrite length_le_bytes. lia.
Qed.
End links.

End ArenaStages.
