(* ===== verification/XhciDmaProperties.v ===== *)
(** * The guarantees of the xHCI DMA arena

    A build either yields a complete arena - its regions apart, inside the window,
    zeroed and linked - or gives every frame back; a release returns exactly the
    frames of the arena; accesses stay within their region. *)
From S2P Require Import Prelude Bytes Paging Memory Frame ServiceCalculus XhciDma XhciDmaFacts XhciDmaBuild XhciDmaStages.

Module ArenaAssembly.
Import XhciDmaArena XhciDmaRegionRecord FrameFacts FrameOps Runs ArenaBytes ArenaFrames ArenaStages.

(** ** Regions by purpose *)

Lemma region_elem a p r : region a p = Some r → r ∈ owned a ∧ purpose r = p.
Proof.
  unfold region. fold (owned a). intros [Hr Hp]%find_some. apply bool_decide_eq_true in Hp.
  split; [by apply list_elem_of_In|done].
Qed.

Lemma find_purpose l r :
  NoDup (map purpose l) → r ∈ l → List.find (λ r', bool_decide (purpose r' = purpose r)) l = Some r.
Proof.
  induction l as [|r' l IH]; cbn [map List.find]; [by intros _ ?%elem_of_nil|].
  intros [Hnot Hnd]%NoDup_cons [->|Hr]%elem_of_cons; [by rewrite bool_decide_true|].
  rewrite bool_decide_false; [by apply IH|]. intros Heq. apply Hnot. rewrite Heq. by apply list_elem_of_fmap_2.
Qed.

Lemma region_intro a r : NoDup (map purpose (owned a)) → r ∈ owned a → region a (purpose r) = Some r.
Proof. unfold region. fold (owned a). apply find_purpose. Qed.

Lemma label_purposes l : map purpose l = map fst (map label l).
Proof. by rewrite map_map. Qed.

(** ** Readiness *)

Definition all_ready (a : XhciDmaArena.t) : XhciDmaArena.t :=
  with_records (map (with_phase Ready) (owned a) ++ drop (length (owned a)) (records a)) a.

Lemma owned_ready a : owned (all_ready a) = map (with_phase Ready) (owned a).
Proof.
  unfold owned at 1, all_ready. cbn [records record_count with_records].
  unfold owned at 2. rewrite length_take. rewrite take_app.
  assert (Hl : length (map (with_phase Ready) (owned a)) = (Z.to_nat (record_count a) `min` length (records a))%nat)
    by (rewrite length_map; unfold owned; apply length_take).
  rewrite Hl. rewrite take_ge by (rewrite Hl; lia).
  destruct (decide (Z.to_nat (record_count a) <= length (records a))%nat).
  - rewrite Nat.min_l by lia. by rewrite Nat.sub_diag, take_0, app_nil_r.
  - rewrite Nat.min_r by lia. by rewrite drop_all, take_nil, app_nil_r.
Qed.

Lemma holds_ready r j : settled r = false → holds (with_phase Ready r) j = holds r j.
Proof. intros Hs. unfold holds. by rewrite Hs. Qed.

Lemma held_ready l j : Forall (λ r, settled r = false) l → held (map (with_phase Ready) l) j = held l j.
Proof. induction 1 as [|r l Hs _ IH]; [done|]. cbn [map]. by rewrite !held_cons, IH, holds_ready. Qed.

Lemma housed_ready a f :
  housed a f → Forall (λ r, settled r = false) (owned a) → housed (all_ready a) f.
Proof.
  intros [[Hwf Hwh Hrg Hrel Hap] Hl Hc Hr] Hs.
  assert (Ho : owns f (owned (all_ready a))).
  { rewrite owned_ready. split; [done| |..].
    - apply Forall_map. pose proof Hwh as Hw. apply Forall_forall. intros r Hr' _.
      destruct (proj1 (Forall_forall _ _) Hwh r Hr') as [? ? ?]; [by apply (proj1 (Forall_forall _ _) Hs)|]. by split.
    - intros j. rewrite held_ready by done. apply Hrg.
    - intros j. rewrite held_ready by done. apply Hrel.
    - intros i k r r' Hi Hk Hne j. apply list_lookup_fmap_Some in Hi as (q & -> & Hq), Hk as (q' & -> & Hq').
      rewrite !holds_ready by (by eapply (Forall_lookup_1 (λ r, settled r = false))). by apply (Hap i k). }
  split; [done| |done|done]. cbn. rewrite length_app, length_map, length_drop. unfold owned. rewrite length_take. lia.
Qed.

Lemma with_phase_ready (M : XhciDmaPurpose → Z → XhciDmaRegionRecord.t) r :
  r = with_phase (phase r) (M (purpose r) (page_count r)) →
  with_phase Ready r = with_phase (phase (with_phase Ready r))
    (M (purpose (with_phase Ready r)) (page_count (with_phase Ready r))).
Proof.
  intros Hr. change (phase (with_phase Ready r)) with Ready. change (purpose (with_phase Ready r)) with (purpose r).
  change (page_count (with_phase Ready r)) with (page_count r). rewrite Hr at 1. done.
Qed.

Lemma furnished_ready a r : furnished a r → furnished a (with_phase Ready r).
Proof.
  intros (c & Hc & Hn & Hr & Hs & [Hp Hd Hcp Hw]). exists c. split; [done|]. split; [done|].
  split; [|by split]. by apply (with_phase_ready (λ p n, made a p n c)).
Qed.

Lemma region_ready a p : region (all_ready a) p = with_phase Ready <$> region a p.
Proof.
  unfold region. fold (owned (all_ready a)) (owned a). rewrite owned_ready.
  induction (owned a) as [|r l IH]; [done|]. cbn [map List.find]. change (purpose (with_phase Ready r)) with (purpose r).
  by destruct (bool_decide _).
Qed.
(** ** A complete arena *)

Definition base_plan : list (XhciDmaPurpose * Z) :=
  [(Dcbaa, 1); (CommandRing, 1); (EventRing, 1); (EventRingSegmentTable, 1)].
Definition scratch_plan (n : Z) : list (XhciDmaPurpose * Z) :=
  [(ScratchpadPointerArray, div_ceil (n * 8) PAGE_SIZE); (ScratchpadBuffers, n)].
Definition plan (n : Z) : list (XhciDmaPurpose * Z) := base_plan ++ if n =? 0 then [] else scratch_plan n.

(** The bytes of a region: zero, but for the pointers of the scratchpad. *)
Definition image (a : XhciDmaArena.t) (r : XhciDmaRegionRecord.t) : list Z :=
  match purpose r with
  | Dcbaa =>
      match region a ScratchpadPointerArray with
      | Some x => splice 0 (le_bytes 8 (device_address_start x)) (zeros r)
      | None => zeros r
      end
  | ScratchpadPointerArray =>
      match region a ScratchpadBuffers with
      | Some b => splice 0 (pointers (device_address_start b) (Z.to_nat (scratchpad_count a))) (zeros r)
      | None => zeros r
      end
  | _ => zeros r
  end.

Record assembled (a0 : XhciDmaArena.t) (f0 : BitmapFrameAllocator.t) (m0 : gmap Z Z) (s : system) : Prop := {
  as_terms : same_terms a0 (fst s);
  as_housed : housed (fst s) (frames (snd s));
  as_grew : grew f0 (frames (snd s)) (owned (fst s));
  as_plan : map label (owned (fst s)) = plan (scratchpad_count a0);
  as_made : Forall (furnished a0) (owned (fst s));
  as_image : Forall (λ r, bytes_of r (memory (snd s)) = image (fst s) r) (owned (fst s));
  as_rest : ∀ x, (∀ r, r ∈ owned (fst s) → ¬ (cpu_start r <= x < cpu_end r)) → memory (snd s) !! x = m0 !! x;
}.

Lemma plan_purposes n : NoDup (map fst (plan n)).
Proof. unfold plan. destruct (n =? 0); cbn [map fst app base_plan scratch_plan]; apply (bool_decide_unpack _); reflexivity. Qed.

Lemma planned_purposes n l : map label l = plan n → NoDup (map purpose l).
Proof. intros H. rewrite label_purposes, H. apply plan_purposes. Qed.

Lemma planned_region a n i p k :
  map label (owned a) = plan n → plan n !! i = Some (p, k) →
  ∃ r, region a p = Some r ∧ r ∈ owned a ∧ page_count r = k.
Proof.
  intros Hp Hi. rewrite <- Hp in Hi. apply list_lookup_fmap_Some in Hi as (r & Hl & Hi).
  injection Hl as -> ->. assert (Hr : r ∈ owned a) by by eapply list_elem_of_lookup_2.
  exists r. split; [|done]. apply region_intro; [by eapply planned_purposes|done].
Qed.

Lemma assembled_apart a0 f l r r' :
  Forall (furnished a0) l → owns f l → NoDup (map purpose l) → r ∈ l → r' ∈ l → purpose r ≠ purpose r' → cpu_apart r r'.
Proof.
  intros Hm Ho Hnd Hr Hr' Hne.
  apply (furnished_apart a0); [by apply (proj1 (Forall_forall _ _) Hm)|by apply (proj1 (Forall_forall _ _) Hm)|].
  apply list_elem_of_lookup in Hr as [i Hi], Hr' as [k Hk]. apply (ow_apart _ _ Ho i k); [done|done|]. by intros ->; simplify_eq.
Qed.

(** The arena that is complete is one whose regions can be used. *)
Lemma assembled_sane a0 f0 m0 s :
  0 <= IdentityDma.direct_map_base (identity a0) → assembled a0 f0 m0 s → arena_sane (fst s).
Proof.
  intros Hb [_ Hh _ Hp Hm _ _] p r Hr. apply region_elem in Hr as [Hr <-].
  split; [apply (furnished_geometry a0); [done|by apply (proj1 (Forall_forall _ _) Hm)]|].
  intros q r' Hne Hr'. apply region_elem in Hr' as [Hr' <-].
  eapply assembled_apart; try done; [apply Hh|by eapply planned_purposes].
Qed.

Lemma image_ready a r : image (all_ready a) (with_phase Ready r) = image a r.
Proof.
  unfold image. rewrite !region_ready. change (purpose (with_phase Ready r)) with (purpose r).
  change (zeros (with_phase Ready r)) with (zeros r).
  destruct (purpose r); try done; by destruct (region a _).
Qed.

Lemma assembled_ready a0 f0 m0 a pf :
  assembled a0 f0 m0 (a, pf) →
  assembled a0 f0 m0 (all_ready a, pf) ∧ Forall (λ r, phase r = Ready) (owned (all_ready a)).
Proof.
  intros [Ht Hh Hg Hp Hm Hi Hr]. cbn [fst snd] in *.
  assert (Hs : Forall (λ r, settled r = false) (owned a)) by (eapply Forall_impl; [apply Hm|]; by intros r (_ & _ & _ & _ & ? & _)).
  split; [|rewrite owned_ready; apply Forall_map, Forall_true; done].
  split; cbn [fst snd]; [done|by apply housed_ready| |..]; rewrite ?owned_ready.
  - destruct Hg as [Gc Gr Gb Gf]. split; [done|done|..]; intros j; rewrite held_ready by done; [apply Gb|apply Gf].
  - rewrite <- Hp, map_map. done.
  - apply Forall_map. eapply Forall_impl; [apply Hm|]. intros r. apply furnished_ready.
  - apply Forall_map. eapply Forall_impl; [apply Hi|]. intros r Hb. cbn. rewrite image_ready. done.
  - intros x Hx. apply Hr. intros r Hr'. apply (Hx (with_phase Ready r)). by apply list_elem_of_fmap_2.
Qed.

(** ** The whole build *)

Definition build_error (e : XhciDmaError) : Prop := ∃ p, region_error p e.

(** Without a scratchpad, the zeroed regions are the arena. *)
Lemma stage_assembled a0 f0 m0 s :
  scratchpad_count a0 = 0 → stage a0 f0 m0 base_plan s → assembled a0 f0 m0 s.
Proof.
  intros Hn [Ht Hh Hg Hp Hm Hz Hr].
  assert (Hpl : map label (owned (fst s)) = plan (scratchpad_count a0)) by by rewrite Hn.
  split; try done. apply Forall_forall. intros r Hin. rewrite (proj1 (Forall_forall _ _) Hz r Hin). fold (zeros r).
  assert (Hnone : ∀ p, p = ScratchpadPointerArray ∨ p = ScratchpadBuffers → region (fst s) p = None).
  { intros p Hp'. destruct (region (fst s) p) as [x|] eqn:Hx; [|done]. apply region_elem in Hx as [Hx <-].
    assert (Hl : label x ∈ base_plan) by (rewrite <- Hp; by apply list_elem_of_fmap_2).
    unfold base_plan, label in Hl. exfalso. destruct Hp' as [Hp'|Hp']; rewrite Hp' in Hl; set_solver. }
  unfold image. rewrite !Hnone by auto. by destruct (purpose r).
Qed.

Lemma linked_assembled a0 f0 m0 n s :
  0 <= IdentityDma.direct_map_base (identity a0) → scratchpad_count a0 = n → 0 < n <= 1023 →
  stage a0 f0 m0 (base_plan ++ scratch_plan n) s →
  wp initialize_scratchpad_links (λ _ s', assembled a0 f0 m0 s') (λ _ _, False) s.
Proof.
  intros Hb Hn Hn' [Ht Hh Hg Hp Hm Hz Hr]. destruct s as [a [f mem]]. cbn [fst snd frames memory] in *.
  assert (Hp' : map label (owned a) = plan n) by (rewrite Hp; unfold plan; by destruct (Z.eqb_spec n 0); [lia|]).
  assert (Hsc : scratchpad_count a = n) by (rewrite <- Hn; apply Ht).
  assert (Hlk : ∀ i pk, (base_plan ++ scratch_plan n) !! i = Some pk → plan n !! i = Some pk) by (by rewrite <- Hp, Hp').
  destruct (planned_region a n 0 Dcbaa 1) as (d & Hd & Hdi & Hdk); [done|by apply Hlk|].
  destruct (planned_region a n 4 ScratchpadPointerArray (div_ceil (n * 8) PAGE_SIZE)) as (x & Hx & Hxi & Hxk); [done|by apply Hlk|].
  destruct (planned_region a n 5 ScratchpadBuffers n) as (b & Hbf & Hbi & Hbk); [done|by apply Hlk|].
  pose proof (proj1 (Forall_forall _ _) Hm) as Hf.
  destruct (furnished_frames a0 d (Hf d Hdi)) as (Hds & Hde & _).
  destruct (furnished_frames a0 x (Hf x Hxi)) as (Hxs & Hxe & _).
  destruct (furnished_frames a0 b (Hf b Hbi)) as (Hbs & Hbe & Hb0 & _ & Hbp & Hbd).
  destruct (Hf b Hbi) as (_ & _ & _ & _ & _ & [_ _ _ Hbw]).
  assert (Hceil : n * 8 <= div_ceil (n * 8) PAGE_SIZE * PAGE_SIZE).
  { unfold div_ceil, PAGE_SIZE. pose proof (Z.div_mod (n * 8 + 4096 - 1) 4096). pose proof (Z.mod_pos_bound (n * 8 + 4096 - 1) 4096). lia. }
  assert (Hdx : cpu_apart d x).
  { eapply (assembled_apart a0 f); try done; [apply Hh|by eapply planned_purposes|].
    apply region_elem in Hd as [_ ->], Hx as [_ ->]. done. }
  unfold PAGE_SIZE in *.
  eapply (wp_mono _ _ _ (λ _ _, False)); [apply (links_ok a f mem x b d); try done; unfold PAGE_SIZE; try lia; apply (furnished_geometry a0); auto| |done].
  cbv beta. intros _ s' (mem' & -> & Hbx & Hbd' & Hrest).
  assert (Hzx : bytes_of x mem = zeros x) by by apply (proj1 (Forall_forall _ _) Hz).
  assert (Hzd : bytes_of d mem = zeros d) by by apply (proj1 (Forall_forall _ _) Hz).
  split; cbn [fst snd frames memory]; try done; [by rewrite Hn| |].
  - apply Forall_forall. intros r Hin. pose proof (region_intro a r (planned_purposes _ _ Hp') Hin) as Hreg.
    assert (Hkeep : purpose r ≠ Dcbaa → purpose r ≠ ScratchpadPointerArray → bytes_of r mem' = zeros r).
    { intros Hrd Hrx. unfold zeros. rewrite <- (proj1 (Forall_forall _ _) Hz r Hin). apply load_run_ext. intros y Hy.
      destruct (region_elem _ _ _ Hd) as [_ Hpd], (region_elem _ _ _ Hx) as [_ Hpx].
      pose proof (furnished_geometry a0 r Hb (Hf r Hin)) as [Hgr _].
      assert (cpu_apart r d) by (eapply (assembled_apart a0 f); try done; [apply Hh|by eapply planned_purposes|congruence]).
      assert (cpu_apart r x) by (eapply (assembled_apart a0 f); try done; [apply Hh|by eapply planned_purposes|congruence]).
      unfold cpu_apart, extent in *. apply Hrest; lia. }
    unfold image. rewrite Hx, Hbf. destruct (purpose r) eqn:Hpr; try (by apply Hkeep).
    + rewrite Hd in Hreg. simplify_eq. by rewrite Hbd', Hzd.
    + rewrite Hx in Hreg. simplify_eq. by rewrite Hbx, Hzx.
  - intros y Hy. rewrite Hrest; [by apply Hr|by apply Hy|by apply Hy].
Qed.

Lemma stage_next a0 f0 m0 pl p n (k : M system XhciDmaError unit) Q s :
  0 <= IdentityDma.direct_map_base (identity a0) → 0 < n < 2 ^ 52 → (length pl < 6)%nat → stage a0 f0 m0 pl s →
  (∀ s', stage a0 f0 m0 (pl ++ [(p, n)]) s' → wp k Q (λ e s', stopped a0 f0 m0 s' ∧ build_error e) s') →
  wp (allocate_region p n ;; k) Q (λ e s', stopped a0 f0 m0 s' ∧ build_error e) s.
Proof.
  intros Hb Hn Hl Hs Hk. wp_simpl. eapply wp_mono; [by apply (stage_region a0 f0 m0 pl)|..]; cbv beta.
  - intros _ s' Hs'. by apply Hk.
  - intros e s' [? ?]. split; [done|by exists p].
Qed.

Lemma mark_ready_ok a0 f0 m0 s R :
  assembled a0 f0 m0 s →
  wp (E:=XhciDmaError) (a ← arena;
      retained ← slice_to (records a) (record_count a);
      set_arena (with_records (map (with_phase Ready) retained ++ drop (length retained) (records a)) a))
    (λ _ s', assembled a0 f0 m0 s' ∧ Forall (λ r, phase r = Ready) (owned (fst s'))) R s.
Proof.
  intros Ha. destruct s as [a pf]. pose proof (as_housed _ _ _ _ Ha) as [_ Hl Hc _]. cbn [fst snd] in *.
  unfold arena. wp_simpl. cbn [fst]. apply wp_slice_to; [lia|]. wp_simpl. unfold set_arena. wp_simpl. cbn [snd fst].
  fold (owned a). fold (all_ready a). by apply assembled_ready.
Qed.

Lemma allocate_all_ok a0 f0 m0 s :
  0 <= IdentityDma.direct_map_base (identity a0) → 0 <= scratchpad_count a0 <= 1023 → stage a0 f0 m0 [] s →
  wp allocate_all_regions
    (λ _ s', assembled a0 f0 m0 s' ∧ Forall (λ r, phase r = Ready) (owned (fst s')))
    (λ e s', stopped a0 f0 m0 s' ∧ build_error e) s.
Proof.
  intros Hb Hn H0. unfold allocate_all_regions.
  apply (stage_next a0 f0 m0 []); [done|done|cbn; lia|done|]. intros s1 H1.
  apply (stage_next a0 f0 m0 [(Dcbaa, 1)]); [done|done|cbn; lia|done|]. intros s2 H2.
  apply (stage_next a0 f0 m0 [(Dcbaa, 1); (CommandRing, 1)]); [done|done|cbn; lia|done|]. intros s3 H3.
  apply (stage_next a0 f0 m0 [(Dcbaa, 1); (CommandRing, 1); (EventRing, 1)]); [done|done|cbn; lia|done|]. intros s4 H4.
  cbn [app] in H4. fold base_plan in H4. clear s1 H1 s2 H2 s3 H3 s H0.
  rewrite wp_bind. unfold arena at 1. rewrite wp_gets. assert (Hsc : scratchpad_count (fst s4) = scratchpad_count a0) by apply H4. rewrite Hsc.
  destruct (Z.eqb_spec (scratchpad_count a0) 0) as [Hz|Hnz]; cbn [negb].
  all: rewrite wp_bind.
  { wp_simpl. apply (mark_ready_ok a0 f0 m0). by apply stage_assembled. }
  unfold checked_mul. rewrite (proj2 (Z.ltb_lt (scratchpad_count a0 * 8) (2 ^ 64))) by lia.
  rewrite wp_bind, wp_ok_or.
  assert (Hceil : 0 < div_ceil (scratchpad_count a0 * 8) PAGE_SIZE < 2 ^ 52).
  { unfold div_ceil, PAGE_SIZE. split; [apply Z.div_str_pos; lia|]. apply Z.div_lt_upper_bound; lia. }
  apply (stage_next a0 f0 m0 base_plan); [done|done|cbn; lia|done|]. intros s5 H5.
  apply (stage_next a0 f0 m0 (base_plan ++ [(ScratchpadPointerArray, div_ceil (scratchpad_count a0 * 8) PAGE_SIZE)]));
    [done|lia|cbn; lia|done|]. intros s6 H6. rewrite <- app_assoc in H6. cbn [app] in H6.
  eapply wp_mono; [apply (linked_assembled a0 f0 m0 (scratchpad_count a0)); [done|done|lia|exact H6]| |done].
  cbv beta. intros _ s7 H7. by apply (mark_ready_ok a0 f0 m0).
Qed.

(** The arena before its first region. *)
Definition blank_arena (identity : IdentityDma.t) (n : Z) (wide : bool) (secret : Z) : XhciDmaArena.t :=
  XhciDmaArena.mk identity (replicate 6 EMPTY) 0 n wide
    (if wide then IdentityDma.device_address_limit identity
     else Z.min (IdentityDma.device_address_limit identity) (MAX 32)) secret 0 0.

Lemma blank_stage id n wide secret f m : wf f → stage (blank_arena id n wide secret) f m [] (blank_arena id n wide secret, Platform f m).
Proof.
  intros Hf. split; cbn [fst snd frames memory owned blank_arena record_count records Z.to_nat take map]; try done.
  split; [done|done| |done]. intros j _. by rewrite orb_false_r.
Qed.

Lemma canonical_root_nonzero root domain : domain ≠ 0 → canonical_root root domain ≠ 0.
Proof. intros. unfold canonical_root. by destruct (Z.eqb_spec root 0). Qed.

Lemma finish_root_ok {E} a pf (R : E → system → Prop) :
  length (records a) = 6%nat → 0 <= record_count a <= 6 →
  wp finish_arena_root (λ _ s', ∃ root, root ≠ 0 ∧ s' = (with_arena_root root a, pf)) R (a, pf).
Proof.
  intros Hl Hc. unfold finish_arena_root, arena. wp_simpl. cbn [fst]. apply wp_slice_to; [lia|]. wp_simpl.
  unfold set_arena. wp_simpl. cbn [snd]. eexists. split; [|reflexivity].
  by apply canonical_root_nonzero.
Qed.

Lemma rooted_assembled a0 f0 m0 root a pf :
  assembled a0 f0 m0 (a, pf) → assembled a0 f0 m0 (with_arena_root root a, pf).
Proof. intros [Ht [Ho Hl Hc Hr] Hg Hp Hm Hi Hx]. by split. Qed.

(** The outcome of a build. *)
Definition build_failed (id : IdentityDma.t) (n secret : Z) (e : XhciDmaError) : Prop :=
  match e with
  | InvalidSecret => secret = 0
  | ScratchpadCountUnsupported k => secret ≠ 0 ∧ k = n ∧ 1023 < n
  | _ => secret ≠ 0 ∧ n <= 1023 ∧ build_error e
  end.

Lemma rollback_ok {E} a0 f0 m0 e s (R : E → system → Prop) :
  wf f0 → stopped a0 f0 m0 s →
  wp (rollback_build e)
    (λ failure s', failure = BuildFailure e None ∧ same_pool f0 (frames (snd s')) ∧ spared a0 f0 m0 (memory (snd s')))
    R s.
Proof.
  intros Hwf [Hh Hg Hu Hsp]. destruct s as [a [f m]]. cbn [fst snd frames memory] in *.
  unfold rollback_build, arena. wp_simpl. cbn [fst].
  destruct (Z.eqb_spec (record_count a) 0) as [H0|H0]; wp_simpl.
  - split; [done|]. cbn [snd frames memory]. split; [|done]. apply (returned_same f0 f f (owned a)); [done|done|].
    assert (Hnil : owned a = []) by (unfold owned; by rewrite H0). rewrite Hnil.
    split; [apply Hh|done|done|]. intros j _. by rewrite andb_true_r.
  - eapply wp_mono; [by apply release_records_ok|..]; cbv beta.
    + intros receipt s' (Hem & _). wp_simpl. split; [done|].
      rewrite (em_memory _ _ _ _ Hem). split; [|done]. eapply returned_same; [done|done|apply Hem].
    + intros x s' (_ & _ & Hall). exfalso. pose proof (count_owned a (ho_length _ _ Hh) (ho_count _ _ Hh)) as Hc.
      destruct (owned a) as [|r l]; [cbn in Hc; lia|]. cbn in Hall. apply andb_true_iff in Hall as [Hr _].
      apply Forall_cons in Hu as [Hr' _]. congruence.
Qed.

End ArenaAssembly.

(** ** The claims *)

Module XhciDmaClaims.
Import XhciDmaArena XhciDmaRegionRecord FrameFacts FrameOps Runs ArenaBytes ArenaFrames ArenaStages ArenaAssembly.

(** A build from its parts. *)
Lemma build_ok id n wide secret a pf :
  wf (frames pf) → 0 <= IdentityDma.direct_map_base id → u16 n →
  let a0 := blank_arena id n wide secret in
  wp (allocate id n wide secret)
    (λ _ s', secret ≠ 0 ∧ n <= 1023 ∧ assembled a0 (frames pf) (memory pf) s' ∧
       Forall (λ r, phase r = Ready) (owned (fst s')) ∧ arena_root (fst s') ≠ 0)
    (λ failure s', debt failure = None ∧ same_pool (frames pf) (frames (snd s')) ∧
       spared a0 (frames pf) (memory pf) (memory (snd s')) ∧ build_failed id n secret (cause failure)) (a, pf).
Proof.
  intros Hwf Hb [Hn0 Hn1] a0. destruct pf as [f m]. cbn [frames memory] in *. unfold allocate, set_arena. wp_simpl. cbn [snd].
  change (replicate (Z.to_nat FIXED_REGION_CAPACITY) EMPTY) with (replicate 6 EMPTY).
  fold (blank_arena id n wide secret). fold a0.
  pose proof (blank_stage id n wide secret f m Hwf) as H0. fold a0 in H0.
  assert (Hroll : ∀ e s, stopped a0 f m s → build_failed id n secret e →
    wp (A:=unit) (failure ← rollback_build e; throw failure)
      (λ _ s', secret ≠ 0 ∧ n <= 1023 ∧ assembled a0 f m s' ∧
         Forall (λ r, phase r = Ready) (owned (fst s')) ∧ arena_root (fst s') ≠ 0)
      (λ failure s', debt failure = None ∧ same_pool f (frames (snd s')) ∧
         spared a0 f m (memory (snd s')) ∧ build_failed id n secret (cause failure)) s).
  { intros e s Hs He. wp_simpl.
    eapply (wp_mono _ _ _ (λ _ _, False)); [by apply (rollback_ok a0 f m)|cbv beta|done].
    intros x s' (-> & Hsame & Hsp). by rewrite wp_throw. }
  destruct (Z.eqb_spec secret 0) as [Hs|Hs].
  { rewrite wp_throw. by apply Hroll; [eapply stage_stopped|]. }
  change MAXIMUM_SCRATCHPAD_BUFFERS with 1023. destruct (Z.ltb_spec 1023 n) as [Hn|Hn].
  { rewrite wp_throw. by apply Hroll; [eapply stage_stopped|]. }
  eapply wp_mono; [apply (allocate_all_ok a0 f m); [done|done|exact H0]|..]; cbv beta.
  - intros _ s' [Ha Hr]. destruct s' as [a' pf']. pose proof (as_housed _ _ _ _ Ha) as [_ Hl Hc _]. cbn [fst] in *.
    eapply (wp_mono _ _ _ (λ _ _, False)); [by apply finish_root_ok|cbv beta|done].
    intros _ s2 (root & Hroot & ->). split; [done|]. split; [done|]. split; [by apply rooted_assembled|]. by split.
  - intros e s' [Hst (p & He)]. apply Hroll; [done|]. unfold region_error in He.
    assert (build_error e) by by exists p. unfold build_failed. by destruct e; set_solver.
Qed.

(** C26: A build yields a complete arena or nothing.  On success the secret and the
    scratchpad count were admissible and the arena has exactly the planned regions,
    each ready, made of frames that were free, inside the identity window and below
    the controller's address limit; every region is zero but for the scratchpad
    pointers, and no other byte of memory changed.  On failure no release debt is
    left, exactly the frames free before are free again, only memory aliasing free
    frames was written, and the cause is the one the failing check names.  It never
    panics. *)
Theorem build_all_or_nothing id n wide secret a pf :
  wf (frames pf) → 0 <= IdentityDma.direct_map_base id → u16 n →
  let a0 := blank_arena id n wide secret in
  match allocate id n wide secret (a, pf) with
  | Done _ s' => secret ≠ 0 ∧ n <= 1023 ∧ assembled a0 (frames pf) (memory pf) s' ∧
      Forall (λ r, phase r = Ready) (owned (fst s')) ∧ arena_root (fst s') ≠ 0
  | Fail failure s' => debt failure = None ∧ same_pool (frames pf) (frames (snd s')) ∧
      spared a0 (frames pf) (memory pf) (memory (snd s')) ∧ build_failed id n secret (cause failure)
  | Panic => False
  end.
Proof. apply build_ok. Qed.

(** ** Releasing what was built *)

Definition total_pages (n : Z) : Z := if n =? 0 then 4 else 4 + div_ceil (n * 8) PAGE_SIZE + n.

Lemma pages_labels l : Forall (λ r, settled r = false) l → pages l = foldr (λ x acc, snd x + acc) 0 (map label l).
Proof. induction 1 as [|r l Hr _ IH]; [done|]. cbn [pages map foldr]. by rewrite Hr, IH. Qed.

Lemma assembled_pages a0 f0 m0 s :
  assembled a0 f0 m0 s → pages (owned (fst s)) = total_pages (scratchpad_count a0).
Proof.
  intros [_ _ _ Hp Hm _ _]. rewrite pages_labels, Hp.
  - unfold plan, total_pages. destruct (_ =? 0); cbn; lia.
  - eapply Forall_impl; [apply Hm|]. by intros r (_ & _ & _ & _ & ? & _).
Qed.

(** Evidence that the controller of the arena is quiet. *)
Definition quiet (q : XhciDmaQuiescence.t) (a : XhciDmaArena.t) : Prop :=
  XhciDmaQuiescence.device q = IdentityDma.device (identity a) ∧
  XhciDmaQuiescence.generation q = IdentityDma.generation (identity a) ∧ XhciDmaQuiescence.evidence_root q ≠ 0.

Lemma wp_release q a pf Q R :
  (quiet q a → wp release_records Q R (a, pf)) → (¬ quiet q a → R QuiescenceMismatch (a, pf)) →
  wp (release q) Q R (a, pf).
Proof.
  intros HQ HR. unfold release, arena. wp_simpl. cbn [fst]. unfold quiet in *.
  case_bool_decide; cbn [negb orb]; [|wp_simpl; apply HR; tauto].
  destruct (Z.eqb_spec (XhciDmaQuiescence.generation q) (IdentityDma.generation (identity a))); cbn [negb orb];
    [|wp_simpl; apply HR; tauto].
  destruct (Z.eqb_spec (XhciDmaQuiescence.evidence_root q) 0); wp_simpl; [apply HR; tauto|]. by apply HQ.
Qed.

Lemma assembled_housed a0 f0 m0 a pf f :
  assembled a0 f0 m0 (a, pf) → wf f → BitmapFrameAllocator.frame_count f = BitmapFrameAllocator.frame_count f0 →
  (∀ j, held (owned a) j = true → releasable f j) → housed a f.
Proof.
  intros Ha Hwf Hc Hrel. pose proof (as_housed _ _ _ _ Ha) as [[_ Hwh Hrg _ Hap] Hl Hcnt Hr]. cbn [fst snd] in *.
  split; [|done|done|done]. split; try done. rewrite Hc, <- (gr_count _ _ _ (as_grew _ _ _ _ Ha)). exact Hrg.
Qed.

Lemma retired_settled l : forallb settled (map retire l) = true.
Proof. induction l as [|r l IH]; [done|]. cbn. rewrite IH, andb_true_r. unfold retire. by destruct (settled r) eqn:Hs. Qed.

(** Releasing again finds nothing. *)
Lemma release_twice a f mem q s :
  emptied a f mem s → 0 <= record_count a <= 6 → quiet q (fst s) → release q s = Fail AlreadyReleased s.
Proof.
  intros Hem Hc Hq. destruct s as [a' pf']. destruct (em_shape _ _ _ _ Hem) as [Hl Hrc].
  pose proof (em_owned _ _ _ _ Hem) as Hown. cbn [fst] in *.
  apply wp_exact_fail, wp_release; [|done]. intros _. unfold release_records, arena. wp_simpl. cbn [fst].
  apply wp_slice_to; [lia|]. fold (owned a'). rewrite Hown, retired_settled. by wp_simpl.
Qed.

(** Releasing returns exactly the frames of the build.  Whatever has happened to
    the memory and to the rest of the pool since, as long as the arena's frames are
    still allocated, a release with evidence for the right controller succeeds: it
    frees the frames of the arena's regions and no others, reports their number,
    leaves the memory alone, and a second release is refused without effect.  If the
    pool was not used in between, the same frames are free as before the build.
    Without that evidence nothing is released. *)
Theorem release_returns_frames id n wide secret a pf s q f mem :
  wf (frames pf) → 0 <= IdentityDma.direct_map_base id → u16 n →
  allocate id n wide secret (a, pf) = Done () s →
  wf f → BitmapFrameAllocator.frame_count f = BitmapFrameAllocator.frame_count (frames pf) →
  (∀ j, held (owned (fst s)) j = true → releasable f j) →
  match release q (fst s, Platform f mem) with
  | Done receipt s' =>
      quiet q (fst s) ∧ returned f (owned (fst s)) (frames (snd s')) ∧ memory (snd s') = mem ∧
      XhciDmaReleaseReceipt.released_pages receipt = total_pages n ∧
      (f = frames (snd s) → same_pool (frames pf) (frames (snd s'))) ∧ release q s' = Fail AlreadyReleased s'
  | Fail e s' => e = QuiescenceMismatch ∧ ¬ quiet q (fst s) ∧ s' = (fst s, Platform f mem)
  | Panic => False
  end.
Proof.
  intros Hwf Hb Hn Hall Hwf' Hc Hrel. apply (wp_Done _ _ _ _ _ _ (build_ok id n wide secret a pf Hwf Hb Hn)) in Hall.
  destruct Hall as (_ & _ & Ha & Hrd & _). destruct s as [a1 pf1]. cbn [fst snd] in *.
  pose proof (assembled_housed _ _ _ _ _ f Ha Hwf' Hc Hrel) as Hh.
  apply wp_release; [|done]. intros Hq. eapply wp_mono; [by apply release_records_ok|..]; cbv beta.
  - intros receipt s' (Hem & _ & _ & _ & Hpg). split; [done|]. split; [apply Hem|]. split; [apply Hem|].
    split; [|split].
    + pose proof (assembled_pages _ _ _ _ Ha) as Hpa. cbn [fst] in Hpa. rewrite Hpg, (em_pages _ _ _ _ Hem), Hpa.
      destruct (as_terms _ _ _ _ Ha) as (_ & _ & _ & _ & _ & Hrp). cbn [fst] in Hrp. by rewrite Hrp.
    + intros ->. eapply returned_same; [done|apply Ha|apply Hem].
    + eapply release_twice; [done|apply Hh|]. unfold quiet. by rewrite (em_identity _ _ _ _ Hem).
  - intros e s' (-> & -> & Hset). exfalso. pose proof (count_owned a1 (ho_length _ _ Hh) (ho_count _ _ Hh)) as Hl.
    pose proof (as_plan _ _ _ _ Ha) as Hp. cbn [fst] in *. destruct (owned a1) as [|r l]; [done|].
    apply Forall_cons in Hrd as [Hr _]. unfold settled in Hset. cbn in Hset. by rewrite Hr in Hset.
Qed.

(** ** Accesses *)

Lemma assembled_current a0 f0 m0 s p r :
  assembled a0 f0 m0 s → region (fst s) p = Some r → generation r = IdentityDma.generation (identity (fst s)).
Proof.
  intros Ha Hr. apply region_elem in Hr as [Hr _].
  destruct (proj1 (Forall_forall _ _) (as_made _ _ _ _ Ha) r Hr) as (c & _ & _ & Heq & _).
  destruct (as_terms _ _ _ _ Ha) as [-> _]. rewrite Heq. done.
Qed.

Lemma write_then_read r tok off bs a pf :
  arena_sane a → record_for_token a tok = Ok r → bs ≠ [] → 0 <= off →
  off + Z.of_nat (length bs) <= cpu_end r - cpu_start r →
  let s := (a, Platform (frames pf) (store_run (cpu_start r + off) bs (memory pf))) in
  read tok off (Z.of_nat (length bs)) s = Done bs s.
Proof.
  intros Ha Hr Hne Ho Hl s. apply wp_exact. eapply wp_mono; [apply read_ok; [done|done|lia]|..]; cbv beta.
  - intros out s' (r' & Hr' & _ & _ & -> & ->). rewrite Hr in Hr'. simplify_eq. split; [|done].
    rewrite Nat2Z.id. apply load_store_same.
  - intros e s' [_ He]. exfalso. pose proof (record_for_token_inv _ _ _ Hr) as (Hreg & Hact & Hgen).
    unfold access_refused in He. rewrite ?Hreg in He. destruct e; try done.
    + destruct He as [-> He]. congruence.
    + destruct He as (-> & x & Hx & Hn). rewrite Hreg in Hx. by simplify_eq.
    + destruct bs; done.
    + destruct He as (x & Hx & ?). simplify_eq. lia.
Qed.

(** Accesses to an arena are confined and faithful.  In whatever memory, a write
    through a token either stores its bytes inside the region that the token names -
    every byte outside the addressed run keeps its value, the pool and the records
    are untouched, and reading the same run back yields the bytes - or it is refused
    without any effect, and then because the transfer is empty, the token stale, its
    region missing or inactive, or the run outside the region. *)
Theorem access_confined id n wide secret a pf s tok off bs pf' :
  wf (frames pf) → 0 <= IdentityDma.direct_map_base id → u16 n →
  allocate id n wide secret (a, pf) = Done () s → 0 <= off →
  match write tok off bs (fst s, pf') with
  | Done _ s' => ∃ r, r ∈ owned (fst s) ∧ purpose r = XhciDmaRegionToken.purpose tok ∧
      off + Z.of_nat (length bs) <= page_count r * PAGE_SIZE ∧
      fst s' = fst s ∧ frames (snd s') = frames pf' ∧
      (∀ x, ¬ (cpu_start r + off <= x < cpu_start r + off + Z.of_nat (length bs)) → memory (snd s') !! x = memory pf' !! x) ∧
      read tok off (Z.of_nat (length bs)) s' = Done bs s'
  | Fail e s' => s' = (fst s, pf') ∧ access_refused (fst s) tok off (Z.of_nat (length bs)) e
  | Panic => False
  end.
Proof.
  intros Hwf Hb Hn Hall Ho. apply (wp_Done _ _ _ _ _ _ (build_ok id n wide secret a pf Hwf Hb Hn)) in Hall.
  destruct Hall as (_ & _ & Ha & _). pose proof (assembled_sane (blank_arena id n wide secret) _ _ _ Hb Ha) as Hs.
  apply (wp_mono _ _ _ _ _ _ (write_ok tok off bs (fst s) pf' Hs Ho)); [|done].
  intros _ s' (r & Ht & Hne & Hl & ->). exists r. pose proof (record_for_token_inv _ _ _ Ht) as (Hreg & _).
  apply region_elem in Hreg as [Hin Hp].
  destruct (furnished_frames _ _ (proj1 (Forall_forall _ _) (as_made _ _ _ _ Ha) r Hin)) as (_ & He & _).
  split; [done|]. split; [done|]. split; [lia|]. split; [done|]. split; [done|].
  split; [|by apply (write_then_read r)]. intros x Hx. cbn [snd memory]. rewrite lookup_store_run. by rewrite decide_False.
Qed.

(** ** The window *)

(** An identity window is established only over an aperture that it can serve.
    The window is page aligned, not empty, and has no address beyond 64 bits or the
    device's limit; each of its physical addresses has exactly the alias
    [direct_map_base + p], which lies in the window's own CPU range; and the
    observation said that the platform is coherent and that no remapping is active.
    Anything else is refused. *)
Theorem window_serves_aperture device start bytes base limit gen evidence observation :
  u64 start → u64 bytes → u64 base →
  match IdentityDma.establish device start bytes base limit gen evidence observation with
  | Ok w =>
      (gen ≠ 0 ∧ evidence ≠ 0 ∧ IdentityDma.proof_root w ≠ 0 ∧
       IdentityDma.x86_cache_coherent observation = true ∧ IdentityDma.requester_remapping_active observation = false) ∧
      (IdentityDma.physical_start w = start ∧ IdentityDma.physical_end w = start + bytes ∧
       IdentityDma.physical_start w mod PAGE_SIZE = 0 ∧ IdentityDma.physical_end w mod PAGE_SIZE = 0) ∧
      start < start + bytes ∧
      ∀ p, start <= p < start + bytes →
        p <= limit ∧ IdentityDma.cpu_start w <= IdentityDma.direct_map_base w + p < IdentityDma.cpu_end w ∧
        0 < IdentityDma.direct_map_base w + p < 2 ^ 64
  | Err e =>
      gen = 0 ∨ evidence = 0 ∨ start mod PAGE_SIZE ≠ 0 ∨ bytes mod PAGE_SIZE ≠ 0 ∨ bytes = 0 ∨
      2 ^ 64 <= base + start + bytes ∨ 2 ^ 64 <= start + bytes ∨ limit < start + bytes - 1 ∨ base + start = 0 ∨
      IdentityDma.x86_cache_coherent observation = false ∨ IdentityDma.requester_remapping_active observation = true
  end.
Proof.
  intros [Hs0 Hs1] [Hy0 Hy1] [Hb0 Hb1]. unfold IdentityDma.establish, checked_add.
  destruct (Z.eqb_spec gen 0); [tauto|]. destruct (Z.eqb_spec evidence 0); [tauto|].
  destruct (Z.eqb_spec (start mod PAGE_SIZE) 0) as [Ha|]; cbn [negb orb]; [|tauto].
  destruct (Z.eqb_spec (bytes mod PAGE_SIZE) 0) as [Ha'|]; cbn [negb]; [|tauto].
  destruct (Z.eqb_spec bytes 0); [tauto|]. destruct (Z.ltb_spec (start + bytes) (2 ^ 64)); [|tauto].
  destruct (Z.ltb_spec limit (start + bytes - 1)); [tauto|].
  destruct (Z.ltb_spec (base + start) (2 ^ 64)); [|lia]. destruct (Z.ltb_spec (base + (start + bytes)) (2 ^ 64)); [|lia].
  destruct (Z.eqb_spec (base + start) 0); cbn [orb]; [tauto|].
  destruct (Z.leb_spec (base + (start + bytes)) (base + start)); [lia|].
  destruct (IdentityDma.x86_cache_coherent observation); cbn [negb]; [|tauto].
  destruct (IdentityDma.requester_remapping_active observation); [tauto|].
  cbv zeta. cbn [IdentityDma.proof_root IdentityDma.physical_start IdentityDma.physical_end IdentityDma.cpu_start
    IdentityDma.cpu_end IdentityDma.direct_map_base].
  split; [repeat (split; [done|]); split; [by apply canonical_root_nonzero|done]|].
  split; [|split; [lia|intros p Hp; lia]]. repeat (split; [done|]). rewrite Z.add_mod, Ha, Ha' by done. done.
Qed.

(** ** Witnesses *)

Definition demo_device : PciAddress.t := PciAddress.mk 0 5 0.
Definition demo_window : IdentityDma.t :=
  IdentityDma.mk demo_device 0 65536 1048576 1048576 1114112 4294967295 7 4660 1.
Definition demo_start : system := (blank_arena demo_window 0 true 0, Platform FrameProperties.boot ∅).

(** A build with two scratchpad buffers in a pool of sixteen frames. *)
Lemma demo_done : ∃ s, allocate demo_window 2 true 42 demo_start = Done () s.
Proof.
  assert (H : (match allocate demo_window 2 true 42 demo_start with Done _ _ => true | _ => false end) = true)
    by (vm_compute; reflexivity).
  destruct (allocate demo_window 2 true 42 demo_start) as [[] s| |]; [by exists s|done..].
Qed.

Lemma demo_base : 0 <= IdentityDma.direct_map_base demo_window.
Proof. cbn. lia. Qed.
Lemma demo_count : u16 2.
Proof. split; lia. Qed.

Lemma build_all_or_nothing_witness :
  ∃ s, allocate demo_window 2 true 42 demo_start = Done () s ∧
    assembled (blank_arena demo_window 2 true 42) FrameProperties.boot ∅ s.
Proof.
  destruct demo_done as [s Hs]. exists s. split; [exact Hs|].
  pose proof (build_all_or_nothing demo_window 2 true 42 (fst demo_start) (snd demo_start) FrameProperties.boot_wf
    demo_base demo_count) as H.
  cbv zeta in H.
  change (fst demo_start, snd demo_start) with demo_start in H. rewrite Hs in H. apply H.
Defined.

Definition demo_quiet : XhciDmaQuiescence.t := XhciDmaQuiescence.mk demo_device 7 77.

Lemma release_returns_frames_witness :
  ∃ s receipt s', allocate demo_window 2 true 42 demo_start = Done () s ∧ release demo_quiet s = Done receipt s' ∧
    same_pool FrameProperties.boot (frames (snd s')) ∧ XhciDmaReleaseReceipt.released_pages receipt = 7.
Proof.
  destruct demo_done as [s Hs]. exists s.
  pose proof (build_ok demo_window 2 true 42 (fst demo_start) (snd demo_start) FrameProperties.boot_wf demo_base demo_count) as Hw.
  apply (fun H => wp_Done _ _ _ _ _ _ H Hs) in Hw as (_ & _ & Ha & _).
  pose proof (as_housed _ _ _ _ Ha) as [Ho _ _ _]. pose proof (as_terms _ _ _ _ Ha) as [Hid _].
  pose proof (release_returns_frames demo_window 2 true 42 (fst demo_start) (snd demo_start) s demo_quiet (frames (snd s))
    (memory (snd s)) FrameProperties.boot_wf demo_base demo_count Hs (ow_wf _ _ Ho) (gr_count _ _ _ (as_grew _ _ _ _ Ha))
    (ow_releasable _ _ Ho)) as H.
  assert (Hsurj : (fst s, Platform (frames (snd s)) (memory (snd s))) = s) by by destruct s as [? []]. rewrite Hsurj in H.
  destruct (release demo_quiet s) as [receipt s'|e s'|].
  - exists receipt, s'. split; [exact Hs|]. split; [reflexivity|]. destruct H as (_ & _ & _ & Hp & Hsame & _).
    split; [apply Hsame; reflexivity|exact Hp].
  - destruct H as (_ & Hn & _). exfalso. apply Hn. unfold quiet. rewrite Hid.
    split; [reflexivity|]. split; [reflexivity|discriminate].
  - destruct H.
Defined.

Definition demo_token : XhciDmaRegionToken.t := XhciDmaRegionToken.mk 7 CommandRing.

Lemma access_confined_witness :
  ∃ s s', allocate demo_window 2 true 42 demo_start = Done () s ∧ write demo_token 16 [1; 2; 3] s = Done () s' ∧
    read demo_token 16 3 s' = Done [1; 2; 3] s'.
Proof.
  assert (Hok : (match allocate demo_window 2 true 42 demo_start with
    | Done _ s => match write demo_token 16 [1; 2; 3] s with Done _ _ => true | _ => false end
    | _ => false end) = true) by (vm_compute; reflexivity).
  destruct demo_done as [s Hs]. rewrite Hs in Hok. exists s.
  pose proof (access_confined demo_window 2 true 42 (fst demo_start) (snd demo_start) s demo_token 16 [1; 2; 3] (snd s)
    FrameProperties.boot_wf demo_base demo_count Hs ltac:(lia)) as H.
  replace (fst s, snd s) with s in H by by destruct s.
  destruct (write demo_token 16 [1; 2; 3] s) as [[] s'| |]; [|discriminate Hok..].
  exists s'. split; [exact Hs|]. split; [reflexivity|]. destruct H as (r & _ & _ & _ & _ & _ & _ & H). exact H.
Defined.

Lemma window_serves_aperture_witness :
  match IdentityDma.establish demo_device 4096 61440 1048576 4294967295 7 4660
    {| IdentityDma.x86_cache_coherent := true; IdentityDma.requester_remapping_active := false |} with
  | Ok w => IdentityDma.physical_end w = 65536 ∧ IdentityDma.cpu_start w <= IdentityDma.direct_map_base w + 5000
  | Err _ => False
  end.
Proof.
  pose proof (window_serves_aperture demo_device 4096 61440 1048576 4294967295 7 4660
    {| IdentityDma.x86_cache_coherent := true; IdentityDma.requester_remapping_active := false |}
    ltac:(split; lia) ltac:(split; lia) ltac:(split; lia)) as H.
  destruct (IdentityDma.establish _ _ _ _ _ _ _ _) as [w|e].
  - destruct H as (_ & (_ & -> & _) & _ & Hp). split; [reflexivity|]. apply (Hp 5000). lia.
  - exfalso. unfold PAGE_SIZE in H. cbn in H. intuition (congruence || lia).
Defined.
End XhciDmaClaims.
