(* ===== verification/VtdScope.v ===== *)
(** * Admissible requesters of a remapping unit

    Models the first part of [kernel/boulder/src/hw/vtd_backend.rs]: the three
    policies under which one PCI requester may be given a unit that the firmware
    described, and the choice between them. *)
From S2P Require Import Prelude Acpi XhciDma.

(** The errors of the policies share names, so each enum has a module of its own. *)
Module SingleRequesterScopeError.
Inductive t := IncludeAll | IncompleteScope | UnitNotPresent | NotExactlyOneEndpoint | EndpointMismatch | AmbiguousRouting.
End SingleRequesterScopeError.
Module IsolatedIncludeAllScopeError.
Inductive t := NotIncludeAll | NonZeroSegment | IncompleteScope | UnitNotPresent | ExplicitEndpointsPresent | RouteMismatch.
End IsolatedIncludeAllScopeError.
Module IsolatedSharedUnitScopeError.
Inductive t :=
| IncludeAll | NonZeroSegment | IncompleteScope | UnitNotPresent | MissingEndpoints | EndpointMismatch | AmbiguousRouting.
End IsolatedSharedUnitScopeError.

(** The three scope structs hold a unit and a requester. *)
Record RequesterScope := Scope { scope_unit : DmarRemappingUnit.t; scope_requester : PciAddress.t }.

(** The PCI function as an endpoint of a segment. *)
Definition endpoint_of (segment : Z) (requester : PciAddress.t) : DmarEndpoint.t :=
  DmarEndpoint.mk segment (PciAddress.bus requester) (PciAddress.slot requester) (PciAddress.function requester).

(** [dmar.remapping_unit_for(endpoint).ok() != Some(Some(unit))]. *)
Definition misrouted {S E} (dmar : DmarInfo.t) (endpoint : DmarEndpoint.t) (unit : DmarRemappingUnit.t) : M S E bool :=
  routed ← attempt (DmarInfo.remapping_unit_for dmar endpoint);
  mret (match routed with Ok found => negb (bool_decide (found = Some unit)) | Err _ => true end).

Module SingleRequesterScope.
Import SingleRequesterScopeError.
Definition from_dmar (dmar : DmarInfo.t) (unit : DmarRemappingUnit.t) (requester : PciAddress.t) :
    M () SingleRequesterScopeError.t RequesterScope :=
  if DmarRemappingUnit.include_all unit then throw IncludeAll else
  if DmarRemappingUnit.has_unresolved_scopes unit then throw IncompleteScope else
  found ← DmarInfo.explicit_endpoints_for dmar unit;
  endpoints ← ok_or found UnitNotPresent;
  if negb (len endpoints =? 1) then throw NotExactlyOneEndpoint else
  let expected := endpoint_of (DmarRemappingUnit.segment unit) requester in
  only ← index endpoints 0;
  if negb (bool_decide (only = expected)) then throw EndpointMismatch else
  wrong ← misrouted dmar expected unit;
  if (wrong : bool) then throw AmbiguousRouting else mret (Scope unit requester).
End SingleRequesterScope.

Module IsolatedIncludeAllRequesterScope.
Import IsolatedIncludeAllScopeError.
Definition from_dmar (dmar : DmarInfo.t) (unit : DmarRemappingUnit.t) (requester : PciAddress.t) :
    M () IsolatedIncludeAllScopeError.t RequesterScope :=
  if negb (DmarRemappingUnit.include_all unit) then throw NotIncludeAll else
  if negb (DmarRemappingUnit.segment unit =? 0) then throw NonZeroSegment else
  if DmarRemappingUnit.has_unresolved_scopes unit then throw IncompleteScope else
  found ← DmarInfo.explicit_endpoints_for dmar unit;
  endpoints ← ok_or found UnitNotPresent;
  if negb (bool_decide (endpoints = [])) then throw ExplicitEndpointsPresent else
  wrong ← misrouted dmar (endpoint_of 0 requester) unit;
  if (wrong : bool) then throw RouteMismatch else mret (Scope unit requester).
End IsolatedIncludeAllRequesterScope.

Module IsolatedSharedUnitRequesterScope.
Import IsolatedSharedUnitScopeError.
Definition from_dmar (dmar : DmarInfo.t) (unit : DmarRemappingUnit.t) (requester : PciAddress.t) :
    M () IsolatedSharedUnitScopeError.t RequesterScope :=
  if DmarRemappingUnit.include_all unit then throw IncludeAll else
  if negb (DmarRemappingUnit.segment unit =? 0) then throw NonZeroSegment else
  if DmarRemappingUnit.has_unresolved_scopes unit then throw IncompleteScope else
  found ← DmarInfo.explicit_endpoints_for dmar unit;
  endpoints ← ok_or found UnitNotPresent;
  if bool_decide (endpoints = []) then throw MissingEndpoints else
  let expected := endpoint_of 0 requester in
  if negb (bool_decide (expected ∈ endpoints)) then throw EndpointMismatch else
  wrong ← misrouted dmar expected unit;
  if (wrong : bool) then throw AmbiguousRouting else mret (Scope unit requester).
End IsolatedSharedUnitRequesterScope.

Module VtdRequesterScope.
Inductive t :=
| Explicit (scope : RequesterScope)
| IsolatedIncludeAll (scope : RequesterScope)
| IsolatedSharedUnit (scope : RequesterScope).

Definition inner (self : t) : RequesterScope :=
  match self with Explicit s | IsolatedIncludeAll s | IsolatedSharedUnit s => s end.
Definition requester (self : t) : PciAddress.t := scope_requester (inner self).
Definition unit (self : t) : DmarRemappingUnit.t := scope_unit (inner self).
End VtdRequesterScope.

Module VtdRequesterScopeSelectionError.
Inductive t :=
| Routing (e : DmarRouteError)
| NoRemappingUnit
| Explicit (e : SingleRequesterScopeError.t)
| IncludeAll (e : IsolatedIncludeAllScopeError.t)
| SharedUnit (e : IsolatedSharedUnitScopeError.t).
End VtdRequesterScopeSelectionError.

Section select.
Import VtdRequesterScopeSelectionError.
Definition select_requester_scope (dmar : DmarInfo.t) (requester : PciAddress.t) :
    M () VtdRequesterScopeSelectionError.t VtdRequesterScope.t :=
  routed ← map_err Routing (DmarInfo.remapping_unit_for dmar (endpoint_of 0 requester));
  unit ← ok_or routed NoRemappingUnit;
  if DmarRemappingUnit.include_all unit then
    scope ← map_err IncludeAll (IsolatedIncludeAllRequesterScope.from_dmar dmar unit requester);
    mret (VtdRequesterScope.IsolatedIncludeAll scope)
  else
    found ← DmarInfo.explicit_endpoints_for dmar unit;
    let endpoint_count := match found with Some endpoints => len endpoints | None => 0 end in
    if endpoint_count =? 1 then
      scope ← map_err Explicit (SingleRequesterScope.from_dmar dmar unit requester);
      mret (VtdRequesterScope.Explicit scope)
    else
      scope ← map_err SharedUnit (IsolatedSharedUnitRequesterScope.from_dmar dmar unit requester);
      mret (VtdRequesterScope.IsolatedSharedUnit scope).
End select.
