(* ===== verification/AcpiProperties.v ===== *)
(** * What the firmware tables guarantee

    The theorems about the ACPI parsers on arbitrary bytes, about the routing of
    a requester to its remapping unit, and about the choice of a requester scope;
    with small tables on which they apply. *)
From S2P Require Import Prelude Bytes Acpi AcpiFacts XhciDma VtdScope.

Module AcpiClaims.
Import DmarInfo DmarFacts RouteFacts.

(** C18: On any bytes that the mapping of physical memory yields, the search for
    the DMA-remapping description returns.  A description that it accepts has a
    unit, and every unit has a page-aligned register base and a run of endpoints
    inside the endpoint array: distinct, of the unit's segment, with a valid slot
    and function. *)
Theorem discover_dmar_decided map memory rsdp :
  (∀ a, in_width 8 (memory a)) →
  match discover_dmar map memory rsdp () with
  | Done o _ => ∀ d, o = Some d →
      known d ≠ [] ∧ Forall (unit_ok d) (known d) ∧ 0 <= endpoint_count d <= len (endpoints d)
  | Fail _ _ => True
  | Panic => False
  end.
Proof.
  intros Hm. pose proof (DiscoveryFacts.discover_dmar_ok map memory Hm rsdp) as Hwp. unfold wp in Hwp.
  destruct (discover_dmar _ _ _ _) as [o []|e []|]; [|done|done]. intros d Hd. destruct (Hwp d Hd) as [[Hu Hl Huc Hec Hkn] Hpos].
  split; [|split; [done|by rewrite Hl]]. unfold known. intros Hnil. apply (f_equal length) in Hnil.
  rewrite length_take in Hnil. unfold len in *. simpl in Hnil. lia.
Qed.

(** C29: On any bytes the search for the interrupt description returns.  A
    description that it accepts has an I/O APIC, its counts are within their
    arrays, and no two of its processors share an APIC identifier. *)
Theorem discover_madt_decided map memory rsdp :
  (∀ a, in_width 8 (memory a)) →
  match discover_madt map memory rsdp () with
  | Done m _ =>
      0 < MadtInfo.io_apic_count m <= len (MadtInfo.io_apics_array m) ∧
      0 <= MadtInfo.override_count m <= len (MadtInfo.overrides m) ∧
      0 <= MadtInfo.processor_count m <= len (MadtInfo.processors_array m) ∧
      NoDup (ProcessorDescriptor.apic_id <$> MadtFacts.known m)
  | Fail _ _ => True
  | Panic => False
  end.
Proof.
  intros Hm. pose proof (DiscoveryFacts.discover_madt_ok map memory Hm rsdp) as Hwp. unfold wp in Hwp.
  destruct (discover_madt _ _ _ _) as [m []|e []|]; [|done|done]. destruct Hwp as [[H1 H2 H3 H4 H5 H6 H7] Hpos].
  rewrite H1, H2, H3. split; [lia|]. split; [done|]. by split.
Qed.

Lemma parsed_ok table d : bytes_ok table → len table < 2 ^ 63 → parse_dmar table () = Done d () → dmar_ok d.
Proof. intros Hb Hl Hp. by destruct (wp_Done _ _ _ _ _ _ (parse_dmar_ok table Hb Hl) Hp). Qed.

(** C19: Routing over a parsed description always answers.  A requester goes to
    the one unit that lists it, else to the one unit of its segment that takes
    everything left over, else to none; and routing refuses exactly when two
    units list the requester or two take what is left over. *)
Theorem dmar_route_exact table d e :
  bytes_ok table → len table < 2 ^ 63 → parse_dmar table () = Done d () →
  match remapping_unit_for d e () with
  | Done o _ => (length (namers d e) <= 1)%nat ∧ (length (catchers d e) <= 1)%nat ∧ o = head (namers d e ++ catchers d e)
  | Fail AmbiguousExplicitScope _ => (2 <= length (namers d e))%nat
  | Fail AmbiguousIncludeAll _ => (2 <= length (catchers d e))%nat
  | Panic => False
  end.
Proof.
  intros Hb Hl Hp. pose proof (remapping_unit_ok d e () (parsed_ok _ _ Hb Hl Hp)) as Hwp. unfold wp in Hwp.
  destruct (remapping_unit_for d e ()) as [o []|[] []|]; by destruct Hwp.
Qed.

(** ** The choice of a scope *)

(** The unit that routing gives. *)
Lemma routed_known d e u :
  routed (namers d e) (catchers d e) (Some u) →
  u ∈ known d ∧ DmarRemappingUnit.segment u = DmarEndpoint.segment e ∧
  (e ∈ scope_of d u ∨ (e ∉ scope_of d u) ∧ DmarRemappingUnit.include_all u = true ∧ namers d e = []).
Proof.
  intros (_ & _ & Hhead). destruct (namers d e) as [|x l] eqn:Hn; simpl in Hhead.
  - destruct (catchers d e) as [|y l'] eqn:Hc; [done|]. injection Hhead as <-.
    assert (u ∈ catchers d e) as [Hin Hu]%list_elem_of_In%filter_In by (rewrite Hc; left).
    unfold catches in Hu. bool_to_prop. apply list_elem_of_In in Hin. split; [done|]. split; [done|]. right.
    match goal with H : bool_decide _ = false |- _ => apply bool_decide_eq_false in H end. done.
  - injection Hhead as <-. assert (u ∈ namers d e) as [Hin Hu]%list_elem_of_In%filter_In by (rewrite Hn; left).
    unfold named in Hu. bool_to_prop. apply list_elem_of_In in Hin.
    match goal with H : bool_decide _ = true |- _ => apply bool_decide_eq_true in H end. auto.
Qed.

Lemma misrouted_ok {E} d e u (Q : bool → () → Prop) (R : E → () → Prop) :
  dmar_ok d → Q true () → (routed (namers d e) (catchers d e) (Some u) → Q false ()) → wp (misrouted d e u) Q R ().
Proof.
  intros Hd Ht Hf. unfold misrouted. rewrite wp_bind, wp_attempt.
  eapply wp_mono; [by apply remapping_unit_ok| |by intros f [] _; rewrite wp_ret].
  intros o [] [_ Ho]. rewrite wp_ret. case_bool_decide as Hu; [|done]. rewrite Hu in Ho. by apply Hf.
Qed.

(** What each policy checks of the unit. *)
Definition scope_sound (d : t) (requester : PciAddress.t) (s : VtdRequesterScope.t) : Prop :=
  let u := VtdRequesterScope.unit s in
  let e := endpoint_of 0 requester in
  VtdRequesterScope.requester s = requester ∧ u ∈ known d ∧ DmarRemappingUnit.unresolved_scope_count u = 0 ∧
  DmarRemappingUnit.segment u = 0 ∧ routed (namers d e) (catchers d e) (Some u) ∧
  match s with
  | VtdRequesterScope.Explicit _ => DmarRemappingUnit.include_all u = false ∧ scope_of d u = [e]
  | VtdRequesterScope.IsolatedIncludeAll _ => DmarRemappingUnit.include_all u = true ∧ scope_of d u = [] ∧ namers d e = []
  | VtdRequesterScope.IsolatedSharedUnit _ =>
      DmarRemappingUnit.include_all u = false ∧ e ∈ scope_of d u ∧ length (scope_of d u) ≠ 1%nat
  end.

Lemma unresolved_zero u : DmarRemappingUnit.has_unresolved_scopes u = false → DmarRemappingUnit.unresolved_scope_count u = 0.
Proof. unfold DmarRemappingUnit.has_unresolved_scopes. intros Hu. bool_to_prop. done. Qed.

Section policies.
Context (d : t) (requester : PciAddress.t) (u : DmarRemappingUnit.t).
Context (Hd : dmar_ok d) (Hr : routed (namers d (endpoint_of 0 requester)) (catchers d (endpoint_of 0 requester)) (Some u)).

Lemma include_all_sound {E} (R : E → () → Prop) f :
  (∀ e, R (f e) ()) →
  wp (map_err f (IsolatedIncludeAllRequesterScope.from_dmar d u requester))
    (λ s _, scope_sound d requester (VtdRequesterScope.IsolatedIncludeAll s)) R ().
Proof using Hd Hr.
  intros HR. rewrite wp_map_err. unfold IsolatedIncludeAllRequesterScope.from_dmar.
  destruct (DmarRemappingUnit.include_all u) eqn:Hall; cbn [negb]; [|rewrite wp_throw; apply HR].
  destruct (Z.eqb_spec (DmarRemappingUnit.segment u) 0) as [Hseg|]; cbn [negb]; [|rewrite wp_throw; apply HR].
  destruct (DmarRemappingUnit.has_unresolved_scopes u) eqn:Hun; [rewrite wp_throw; apply HR|].
  rewrite wp_bind. apply explicit_endpoints_ok; [done| |]; intros Hk; rewrite wp_bind, wp_ok_or; [|apply HR].
  case_bool_decide as Hnil; cbn [negb]; [|rewrite wp_throw; apply HR].
  rewrite wp_bind. apply misrouted_ok; [done|rewrite wp_throw; apply HR|]. intros _. rewrite wp_ret.
  split; [done|]. split; [done|]. split; [by apply unresolved_zero|]. split; [done|]. split; [done|].
  split; [done|]. split; [done|]. destruct (routed_known _ _ _ Hr) as (_ & _ & [Hin|(_ & _ & ?)]); [|done].
  rewrite Hnil in Hin. inversion Hin.
Qed.

Lemma single_sound {E} (R : E → () → Prop) f :
  (∀ e, R (f e) ()) →
  wp (map_err f (SingleRequesterScope.from_dmar d u requester))
    (λ s _, scope_sound d requester (VtdRequesterScope.Explicit s)) R ().
Proof using Hd Hr.
  intros HR. rewrite wp_map_err. unfold SingleRequesterScope.from_dmar.
  destruct (DmarRemappingUnit.include_all u) eqn:Hall; [rewrite wp_throw; apply HR|].
  destruct (DmarRemappingUnit.has_unresolved_scopes u) eqn:Hun; [rewrite wp_throw; apply HR|].
  destruct (routed_known _ _ _ Hr) as (_ & Hseg & _). simpl in Hseg. rewrite Hseg.
  rewrite wp_bind. apply explicit_endpoints_ok; [done| |]; intros Hk; rewrite wp_bind, wp_ok_or; [|apply HR].
  destruct (Z.eqb_spec (len (scope_of d u)) 1) as [Hone|]; cbn [negb]; [|rewrite wp_throw; apply HR]. cbv zeta.
  rewrite wp_bind. apply wp_index_in; [lia|]. intros x Hx. case_bool_decide as Heq; cbn [negb]; [|rewrite wp_throw; apply HR].
  rewrite wp_bind. apply misrouted_ok; [done|rewrite wp_throw; apply HR|]. intros _. rewrite wp_ret.
  split; [done|]. split; [done|]. split; [by apply unresolved_zero|]. split; [done|]. split; [done|]. split; [done|].
  unfold len in Hone. change (VtdRequesterScope.unit _) with u. destruct (scope_of d u) as [|y [|? ?]]; simpl in Hone; [lia| |lia].
  injection Hx as ->. by rewrite Heq.
Qed.

Lemma shared_sound {E} (R : E → () → Prop) f :
  length (scope_of d u) ≠ 1%nat → (∀ e, R (f e) ()) →
  wp (map_err f (IsolatedSharedUnitRequesterScope.from_dmar d u requester))
    (λ s _, scope_sound d requester (VtdRequesterScope.IsolatedSharedUnit s)) R ().
Proof using Hd Hr.
  intros Hlen HR. rewrite wp_map_err. unfold IsolatedSharedUnitRequesterScope.from_dmar.
  destruct (DmarRemappingUnit.include_all u) eqn:Hall; [rewrite wp_throw; apply HR|].
  destruct (Z.eqb_spec (DmarRemappingUnit.segment u) 0) as [Hseg|]; cbn [negb]; [|rewrite wp_throw; apply HR].
  destruct (DmarRemappingUnit.has_unresolved_scopes u) eqn:Hun; [rewrite wp_throw; apply HR|].
  rewrite wp_bind. apply explicit_endpoints_ok; [done| |]; intros Hk; rewrite wp_bind, wp_ok_or; [|apply HR].
  case_bool_decide; [rewrite wp_throw; apply HR|]. cbv zeta. case_bool_decide as Hin; cbn [negb]; [|rewrite wp_throw; apply HR].
  rewrite wp_bind. apply misrouted_ok; [done|rewrite wp_throw; apply HR|]. intros _. rewrite wp_ret.
  split; [done|]. split; [done|]. split; [by apply unresolved_zero|]. by split_and!.
Qed.
End policies.

(** C11: The choice of a requester scope always returns.  A scope it gives is for
    the requester asked about and for the unit that routing assigns to it; that
    unit has no scope the parser left unresolved; and the policy fits: an
    explicit unit lists this requester and nothing else, a catch-all unit lists
    nothing and no unit lists the requester, a shared unit lists it. *)
Theorem requester_scope_sound table d requester :
  bytes_ok table → len table < 2 ^ 63 → parse_dmar table () = Done d () →
  match select_requester_scope d requester () with
  | Done s _ => scope_sound d requester s
  | Fail _ _ => True
  | Panic => False
  end.
Proof.
  intros Hb Hl Hp. pose proof (parsed_ok _ _ Hb Hl Hp) as Hd.
  cut (wp (select_requester_scope d requester) (λ s _, scope_sound d requester s) (λ _ _, True) ()).
  { unfold wp. by destruct (select_requester_scope d requester ()) as [s []|e []|]. }
  unfold select_requester_scope. rewrite wp_bind, wp_map_err. eapply wp_mono; [by apply remapping_unit_ok| |done].
  intros o [] [_ Hr]. rewrite wp_bind, wp_ok_or. destruct o as [u|]; [|done]. destruct (DmarRemappingUnit.include_all u) eqn:Hall.
  { rewrite wp_bind. eapply wp_mono; [by apply (include_all_sound d requester u Hd Hr (λ _ _, True))| |done].
    intros s [] Hs. by rewrite wp_ret. }
  rewrite wp_bind. destruct (routed_known _ _ _ Hr) as (Hk & _ & _).
  apply explicit_endpoints_ok; [done| |by intros Hno]. intros _. cbv zeta.
  destruct (Z.eqb_spec (len (scope_of d u)) 1) as [Hone|Hne]; rewrite wp_bind.
  - eapply wp_mono; [by apply (single_sound d requester u Hd Hr (λ _ _, True))| |done]. intros s [] Hs. by rewrite wp_ret.
  - eapply wp_mono; [apply (shared_sound d requester u Hd Hr (λ _ _, True)); [|done]| |done].
    + intros Heq. apply Hne. unfold len. by rewrite Heq.
    + intros s [] Hs. by rewrite wp_ret.
Qed.
End AcpiClaims.

(** ** Tables on which they apply *)

Module AcpiTables.
Import DmarInfo DmarFacts RouteFacts AcpiClaims.

(** A table with its signature, its length and a checksum. *)
Definition sealed (signature body : list Z) : list Z :=
  let plain c := signature ++ le_bytes 4 (36 + len body) ++ [1; c] ++ replicate 26 0 ++ body in
  plain ((- fold_left Z.add (plain 0) 0) mod 2 ^ 8).

(** One unit that lists the function 00:02.0. *)
Definition drhd0 : list Z :=
  [0; 0; 24; 0; 0; 0; 0; 0] ++ le_bytes 8 0xfed90000 ++ [1; 8; 0; 0; 0; 0; 2; 0].
Definition dmar0 : list Z := sealed DMAR_SIGNATURE ([38; 0] ++ replicate 10 0 ++ drhd0).
(** A processor, an I/O APIC and an override. *)
Definition madt0 : list Z :=
  sealed MADT_SIGNATURE (le_bytes 4 0xfee00000 ++ le_bytes 4 1 ++ [0; 8; 0; 0; 1; 0; 0; 0] ++
    [1; 12; 0; 0] ++ le_bytes 4 0xfec00000 ++ le_bytes 4 0 ++ [2; 10; 0; 0; 2; 0; 0; 0; 0; 0]).
Definition rsdt0 : list Z := sealed RSDT_SIGNATURE (le_bytes 4 0x2000 ++ le_bytes 4 0x3000).
Definition rsdp0 : Rsdp.t := Rsdp.mk 0 0x1000 None.
Definition map0 (a n : Z) : option Z := Some a.
Definition memory0 (a : Z) : Z :=
  let at_ base l := default 0 (l !! Z.to_nat (a - base)) in
  if a <? 0x2000 then at_ 0x1000 rsdt0 else if a <? 0x3000 then at_ 0x2000 dmar0 else at_ 0x3000 madt0.

Lemma bytes_check l : forallb (λ b, (0 <=? b) && (b <? 256)) l = true → bytes_ok l.
Proof.
  intros Hl. apply Forall_forall. intros x Hx. rewrite List.forallb_forall in Hl.
  apply list_elem_of_In in Hx. specialize (Hl x Hx). bool_to_prop. unfold in_width. lia.
Qed.
Lemma dmar0_bytes : bytes_ok dmar0.
Proof. apply bytes_check. vm_compute. reflexivity. Qed.
Lemma dmar0_short : len dmar0 < 2 ^ 63.
Proof. vm_compute. reflexivity. Qed.
Lemma memory0_bytes a : in_width 8 (memory0 a).
Proof.
  assert (∀ l i, bytes_ok l → in_width 8 (default 0 (l !! i))) as Hd.
  { intros l i Hl. destruct (l !! i) as [x|] eqn:Hi; [exact (Forall_lookup_1 _ _ _ _ Hl Hi)|done]. }
  unfold memory0. repeat case_match; apply Hd; apply bytes_check; vm_compute; reflexivity.
Qed.

Definition parsed0 : t := match parse_dmar dmar0 () with Done d _ => d | _ => new 0 0 end.
Lemma parsed0_done : parse_dmar dmar0 () = Done parsed0 ().
Proof. vm_compute. reflexivity. Qed.
Definition requester0 : PciAddress.t := PciAddress.mk 0 2 0.

Lemma discover_dmar_decided_witness :
  ∃ d, discover_dmar map0 memory0 rsdp0 () = Done (Some d) () ∧ Forall (unit_ok d) (known d).
Proof.
  pose proof (discover_dmar_decided map0 memory0 rsdp0 memory0_bytes) as Hdec.
  assert (match discover_dmar map0 memory0 rsdp0 () with Done (Some _) _ => true | _ => false end = true) as Hd
    by (vm_compute; reflexivity).
  destruct (discover_dmar map0 memory0 rsdp0 ()) as [[d|] []|e []|]; [|discriminate Hd..].
  exists d. split; [reflexivity|]. exact (proj1 (proj2 (Hdec d eq_refl))).
Defined.

Lemma discover_madt_decided_witness :
  ∃ m, discover_madt map0 memory0 rsdp0 () = Done m () ∧ NoDup (ProcessorDescriptor.apic_id <$> MadtFacts.known m).
Proof.
  pose proof (discover_madt_decided map0 memory0 rsdp0 memory0_bytes) as Hdec.
  assert (match discover_madt map0 memory0 rsdp0 () with Done _ _ => true | _ => false end = true) as Hd
    by (vm_compute; reflexivity).
  destruct (discover_madt map0 memory0 rsdp0 ()) as [m []|e []|]; [|discriminate Hd..].
  exists m. split; [reflexivity|]. exact (proj2 (proj2 (proj2 Hdec))).
Defined.

Lemma dmar_route_exact_witness :
  ∃ u, remapping_unit_for parsed0 (endpoint_of 0 requester0) () = Done (Some u) () ∧
    (length (namers parsed0 (endpoint_of 0 requester0)) <= 1)%nat.
Proof.
  pose proof (dmar_route_exact dmar0 parsed0 (endpoint_of 0 requester0) dmar0_bytes dmar0_short parsed0_done) as Hdec.
  assert (match remapping_unit_for parsed0 (endpoint_of 0 requester0) () with Done (Some _) _ => true | _ => false end = true)
    as Hd by (vm_compute; reflexivity).
  destruct (remapping_unit_for parsed0 (endpoint_of 0 requester0) ()) as [[u|] []|e []|]; [|discriminate Hd..].
  exists u. split; [reflexivity|exact (proj1 Hdec)].
Defined.

Lemma requester_scope_sound_witness :
  ∃ s, select_requester_scope parsed0 requester0 () = Done s () ∧ scope_sound parsed0 requester0 s.
Proof.
  pose proof (requester_scope_sound dmar0 parsed0 requester0 dmar0_bytes dmar0_short parsed0_done) as Hdec.
  assert (match select_requester_scope parsed0 requester0 () with Done (VtdRequesterScope.Explicit _) _ => true | _ => false end = true)
    as Hd by (vm_compute; reflexivity).
  destruct (select_requester_scope parsed0 requester0 ()) as [s []|e []|]; [|discriminate Hd..].
  exists s. split; [reflexivity|exact Hdec].
Defined.
End AcpiTables.
