(* ===== verification/XhciRing.v ===== *)
(** * The xHCI command and event rings

    Models [kernel/boulder/src/drivers/xhci_ring.rs]: transfer request blocks
    (TRBs), their publication in storage shared with the controller, and the
    machine that submits one command at a time and consumes its completion.

    The storage is an interface ([XhciRingStorage], the source's trait): the
    machine is written against it, and its laws are those the trait documents. *)
From S2P Require Import Prelude Bytes Paging ServiceCalculus XhciDma.

Definition TRB_BYTES : Z := 16.
Definition TRBS_PER_PAGE : Z := PAGE_SIZE / TRB_BYTES.
Definition COMMAND_LINK_INDEX : Z := TRBS_PER_PAGE - 1.
Definition COMMAND_CAPACITY : Z := COMMAND_LINK_INDEX.
Definition EVENT_CAPACITY : Z := TRBS_PER_PAGE.
Definition TRB_CYCLE : Z := Z.shiftl 1 0.
Definition LINK_TOGGLE_CYCLE : Z := Z.shiftl 1 1.
Definition TRB_TYPE_SHIFT : Z := 10.
Definition TRB_TYPE_MASK : Z := Z.shiftl 0x3f TRB_TYPE_SHIFT.
Definition TRB_TYPE_LINK : Z := 6.
Definition TRB_TYPE_NO_OP_COMMAND : Z := 23.
Definition TRB_TYPE_COMMAND_COMPLETION_EVENT : Z := 33.
Definition COMPLETION_CODE_SUCCESS : Z := 1.
Definition RING_ROOT_DOMAIN : Z := 0x5848434952494e47.
Definition RECEIPT_ROOT_DOMAIN : Z := 0x58484349434d4452.
Definition COMPLETION_ROOT_DOMAIN : Z := 0x5848434945564e54.

(** ** Storage *)

Class XhciRingStorage (S E : Type) := {
  region : S → XhciDmaPurpose → option XhciDmaRegionRecord.t;
  write : XhciDmaPurpose → Z → list Z → M S E unit;
  read : XhciDmaPurpose → Z → Z → M S E (list Z);
}.
Arguments region {S E _} _ _.

(** The DMA arena as the rings' storage. *)
#[export] Instance arena_storage : XhciRingStorage XhciDmaArena.system XhciDmaError := {|
  region := λ s purpose, XhciDmaArena.region (fst s) purpose;
  write := λ purpose offset bytes,
    a ← XhciDmaArena.arena;
    token ← ok_or (XhciDmaArena.token a purpose) (XhciDma.MissingRegion purpose);
    XhciDmaArena.write token offset bytes;
  read := λ purpose offset length,
    a ← XhciDmaArena.arena;
    token ← ok_or (XhciDmaArena.token a purpose) (XhciDma.MissingRegion purpose);
    XhciDmaArena.read token offset length;
|}.

Inductive XhciRingGeometryError :=
| MissingRegion (p : XhciDmaPurpose)
| RegionNotReady (p : XhciDmaPurpose)
| RegionGenerationMismatch (p : XhciDmaPurpose)
| RegionMustBeOnePage (p : XhciDmaPurpose)
| RegionAddressUnaligned (p : XhciDmaPurpose)
| RegionAddressOverflow (p : XhciDmaPurpose)
| RegionsOverlap.

Inductive XhciRingError (E : Type) :=
| InvalidSecret
| GenerationMismatch (expected observed : Z)
| Geometry (g : XhciRingGeometryError)
| Storage (e : E)
| CommandBusy
| CommandSequenceExhausted
| NoOutstandingCommand
| ReceiptMismatch
| EventPointerReservedBits (bits : Z)
| UnexpectedEventType (ty : Z)
| CompletionPointerMismatch (expected observed : Z)
| CompletionVirtualFunctionMismatch (vf : Z)
| CompletionSlotMismatch (slot : Z).
Arguments InvalidSecret {E}.
Arguments GenerationMismatch {E} _ _.
Arguments Geometry {E} _.
Arguments Storage {E} _.
Arguments CommandBusy {E}.
Arguments CommandSequenceExhausted {E}.
Arguments NoOutstandingCommand {E}.
Arguments ReceiptMismatch {E}.
Arguments EventPointerReservedBits {E} _.
Arguments UnexpectedEventType {E} _.
Arguments CompletionPointerMismatch {E} _ _.
Arguments CompletionVirtualFunctionMismatch {E} _.
Arguments CompletionSlotMismatch {E} _.

(** ** Transfer request blocks *)

Module RawTrb.
Record t := mk { parameter : Z; status : Z; control : Z }.

#[global] Instance t_eq_dec : EqDecision t.
Proof. solve_decision. Defined.

Definition ZERO : t := mk 0 0 0.

Definition trb_type (self : t) : Z :=
  wrap 8 (Z.shiftr (Z.land (control self) TRB_TYPE_MASK) TRB_TYPE_SHIFT).

Definition cycle (self : t) : bool := negb (Z.land (control self) TRB_CYCLE =? 0).

Definition encode (self : t) : list Z :=
  le_bytes 8 (parameter self) ++ le_bytes 4 (status self) ++ le_bytes 4 (control self).

Definition decode (bytes : list Z) : t :=
  mk (from_le_bytes (take 8 bytes)) (from_le_bytes (take 4 (drop 8 bytes)))
    (from_le_bytes (take 4 (drop 12 bytes))).
End RawTrb.

(** ** Roots *)

Definition mix : Z → Z → Z := Mixing.mix.
Definition canonical_root (root domain : Z) : Z := if root =? 0 then domain else root.

Definition receipt_root (ring_root generation sequence index : Z) (cycle : bool) (address : Z) : Z :=
  let root := mix (Z.lxor ring_root RECEIPT_ROOT_DOMAIN) generation in
  let root := mix root sequence in
  let root := mix root index in
  let root := mix root (Z.b2z cycle) in
  let root := mix root address in
  canonical_root root RECEIPT_ROOT_DOMAIN.

(** ** Publication *)

Section storage.
Context {S E : Type} `{XhciRingStorage S E}.
Abbreviation StorageM := (M S (XhciRingError E)).

Definition store_bytes (purpose : XhciDmaPurpose) (offset : Z) (bytes : list Z) : StorageM unit :=
  map_err Storage (write purpose offset bytes).

(** The control word goes first without its cycle bit, then the payload, and the
    cycle bit is committed last. *)
Definition publish_trb (purpose : XhciDmaPurpose) (offset : Z) (trb : RawTrb.t) (publish_cycle : bool) :
    StorageM unit :=
  let bytes := RawTrb.encode trb in
  let invisible_control :=
    if publish_cycle then Z.land (RawTrb.control trb) (bitnot 32 TRB_CYCLE)
    else Z.lor (RawTrb.control trb) TRB_CYCLE in
  control_offset ← add 64 offset 12;
  store_bytes purpose control_offset (le_bytes 4 invisible_control) ;;
  store_bytes purpose offset (take 12 bytes) ;;
  store_bytes purpose control_offset (le_bytes 4 (RawTrb.control trb)).

Definition read_trb (purpose : XhciDmaPurpose) (offset : Z) : StorageM RawTrb.t :=
  bytes ← map_err Storage (read purpose offset TRB_BYTES);
  mret (RawTrb.decode bytes).

Definition zero_ring (purpose : XhciDmaPurpose) : StorageM unit :=
  mfor (range 0 TRBS_PER_PAGE) (λ index,
    offset ← mul 64 index TRB_BYTES;
    store_bytes purpose offset (RawTrb.encode RawTrb.ZERO)).

Definition write_link (command_device_base : Z) (cycle : bool) : StorageM unit :=
  let link := RawTrb.mk command_device_base 0
    (Z.lor (Z.lor (Z.b2z cycle) LINK_TOGGLE_CYCLE) (Z.shiftl TRB_TYPE_LINK TRB_TYPE_SHIFT)) in
  publish_trb CommandRing (COMMAND_LINK_INDEX * TRB_BYTES) link cycle.

Definition write_erst (event_device_base : Z) : StorageM unit :=
  store_bytes EventRingSegmentTable 0
    (le_bytes 8 event_device_base ++ le_bytes 4 EVENT_CAPACITY ++ replicate 4 0).

(** ** Regions *)

Definition validated_region (purpose : XhciDmaPurpose) (expected_generation : option Z) :
    StorageM XhciDmaRegionRecord.t :=
  s ← get;
  record ← ok_or (region s purpose) (Geometry (MissingRegion purpose));
  if negb (bool_decide (XhciDmaRegionRecord.phase record = Ready))
  then throw (Geometry (RegionNotReady purpose)) else
  if negb (bool_decide (XhciDmaRegionRecord.purpose record = purpose))
     || match expected_generation with
        | Some value => negb (value =? XhciDmaRegionRecord.generation record)
        | None => false end
  then throw (Geometry (RegionGenerationMismatch purpose)) else
  length ← (if negb (XhciDmaRegionRecord.page_count record =? 1) then mret 0
            else XhciDmaRegionRecord.byte_length record);
  if negb (XhciDmaRegionRecord.page_count record =? 1) || negb (length =? PAGE_SIZE)
  then throw (Geometry (RegionMustBeOnePage purpose)) else
  if negb (XhciDmaRegionRecord.device_address_start record mod PAGE_SIZE =? 0)
  then throw (Geometry (RegionAddressUnaligned purpose)) else
  expected_end ← ok_or (checked_add 64 (XhciDmaRegionRecord.device_address_start record) PAGE_SIZE)
    (Geometry (RegionAddressOverflow purpose));
  if negb (expected_end =? XhciDmaRegionRecord.device_address_end record)
  then throw (Geometry (RegionMustBeOnePage purpose)) else
  mret record.

Definition overlaps (l r : XhciDmaRegionRecord.t) : bool :=
  (XhciDmaRegionRecord.device_address_start l <? XhciDmaRegionRecord.device_address_end r)
    && (XhciDmaRegionRecord.device_address_start r <? XhciDmaRegionRecord.device_address_end l).
End storage.

(** ** The machine *)

Module XhciNoOpCommandReceipt.
Record t := mk {
  generation : Z;
  sequence : Z;
  command_index : Z;
  producer_cycle : bool;
  command_device_address : Z;
  receipt_root : Z;
}.
#[global] Instance t_eq_dec : EqDecision t.
Proof. solve_decision. Defined.
End XhciNoOpCommandReceipt.

(** The machine's copy of the receipt: the two structs have the same fields. *)
Module OutstandingCommand.
Record t := mk {
  generation : Z;
  sequence : Z;
  command_index : Z;
  producer_cycle : bool;
  command_device_address : Z;
  receipt_root : Z;
}.
End OutstandingCommand.

Module XhciCommandCompletionEvidence.
Record t := mk {
  generation : Z;
  sequence : Z;
  completion_code : Z;
  completion_parameter : Z;
  consumed_event_index : Z;
  consumed_event_cycle : bool;
  next_event_dequeue_pointer : Z;
  completion_root : Z;
}.

Definition successful (self : t) : bool := completion_code self =? COMPLETION_CODE_SUCCESS.
End XhciCommandCompletionEvidence.

Module XhciRingRegisterProgram.
Record t := mk {
  command_ring_control : Z;
  event_ring_segment_table_size : Z;
  event_ring_segment_table_base : Z;
  event_ring_dequeue_pointer : Z;
}.
End XhciRingRegisterProgram.

Definition receipt_matches (expected : OutstandingCommand.t) (receipt : XhciNoOpCommandReceipt.t) : bool :=
  (OutstandingCommand.generation expected =? XhciNoOpCommandReceipt.generation receipt)
    && (OutstandingCommand.sequence expected =? XhciNoOpCommandReceipt.sequence receipt)
    && (OutstandingCommand.command_index expected =? XhciNoOpCommandReceipt.command_index receipt)
    && Bool.eqb (OutstandingCommand.producer_cycle expected) (XhciNoOpCommandReceipt.producer_cycle receipt)
    && (OutstandingCommand.command_device_address expected
          =? XhciNoOpCommandReceipt.command_device_address receipt)
    && (OutstandingCommand.receipt_root expected =? XhciNoOpCommandReceipt.receipt_root receipt).

Module XhciRingMachine.

Record t := mk {
  generation : Z;
  command_device_base : Z;
  event_device_base : Z;
  erst_device_base : Z;
  producer_index : Z;
  producer_cycle : bool;
  event_index : Z;
  event_cycle : bool;
  next_sequence : Z;
  outstanding : option OutstandingCommand.t;
  ring_root : Z;
}.

Definition register_program (self : t) : XhciRingRegisterProgram.t :=
  XhciRingRegisterProgram.mk (Z.lor (command_device_base self) TRB_CYCLE) 1 (erst_device_base self)
    (event_device_base self).

Section machine.
Context {S E : Type} `{XhciRingStorage S E}.

Definition initialize_inner (secret : Z) (expected_generation : option Z) : M S (XhciRingError E) t :=
  if secret =? 0 then throw InvalidSecret else
  command ← validated_region CommandRing None;
  let generation := XhciDmaRegionRecord.generation command in
  (match expected_generation with
   | Some expected => if negb (expected =? generation) then throw (GenerationMismatch expected generation)
                      else mret ()
   | None => mret ()
   end) ;;
  event ← validated_region EventRing (Some generation);
  erst ← validated_region EventRingSegmentTable (Some generation);
  if overlaps command event || overlaps command erst || overlaps event erst
  then throw (Geometry RegionsOverlap) else
  zero_ring CommandRing ;;
  zero_ring EventRing ;;
  write_link (XhciDmaRegionRecord.device_address_start command) true ;;
  write_erst (XhciDmaRegionRecord.device_address_start event) ;;
  let root := mix (Z.lxor secret RING_ROOT_DOMAIN) generation in
  let root := mix root (XhciDmaRegionRecord.region_root command) in
  let root := mix root (XhciDmaRegionRecord.region_root event) in
  let root := mix root (XhciDmaRegionRecord.region_root erst) in
  let root := mix root (XhciDmaRegionRecord.device_address_start command) in
  let root := mix root (XhciDmaRegionRecord.device_address_start event) in
  let root := mix root (XhciDmaRegionRecord.device_address_start erst) in
  let root := mix root COMMAND_CAPACITY in
  let root := mix root EVENT_CAPACITY in
  mret (mk generation (XhciDmaRegionRecord.device_address_start command)
          (XhciDmaRegionRecord.device_address_start event) (XhciDmaRegionRecord.device_address_start erst)
          0 true 0 true 1 None (canonical_root root RING_ROOT_DOMAIN)).

Definition initialize (secret : Z) : M S (XhciRingError E) t := initialize_inner secret None.
Definition initialize_for_generation (expected_generation secret : Z) : M S (XhciRingError E) t :=
  initialize_inner secret (Some expected_generation).

(** A machine with the storage it is called with. *)
Definition view : Type := t * S.
Definition on_storage {A} (m : M S (XhciRingError E) A) : M view (XhciRingError E) A :=
  zoom snd (λ s v, (fst v, s)) m.

Definition submit_no_op : M view (XhciRingError E) XhciNoOpCommandReceipt.t :=
  v ← get;
  let self := fst v in
  if bool_decide (is_Some (outstanding self)) then throw CommandBusy else
  if next_sequence self =? MAX 32 then throw CommandSequenceExhausted else
  let index := producer_index self in
  next ← add 64 index 1;
  (if next =? COMMAND_LINK_INDEX
   then on_storage (write_link (command_device_base self) (producer_cycle self)) else mret ()) ;;
  let trb := RawTrb.mk 0 0
    (Z.lor (Z.b2z (producer_cycle self)) (Z.shiftl TRB_TYPE_NO_OP_COMMAND TRB_TYPE_SHIFT)) in
  offset ← mul 64 index TRB_BYTES;
  on_storage (publish_trb CommandRing offset trb (producer_cycle self)) ;;
  command_device_address ← ok_or (checked_add 64 (command_device_base self) offset)
    (Geometry (RegionAddressOverflow CommandRing));
  let sequence := next_sequence self in
  let root := receipt_root (ring_root self) (generation self) sequence (producer_index self)
    (producer_cycle self) command_device_address in
  let command := OutstandingCommand.mk (generation self) sequence (producer_index self)
    (producer_cycle self) command_device_address root in
  next_sequence' ← add 32 (next_sequence self) 1;
  next_index ← add 16 (producer_index self) 1;
  let wrapped := next_index =? COMMAND_LINK_INDEX in
  modify (λ v, (mk (generation self) (command_device_base self) (event_device_base self)
    (erst_device_base self) (if wrapped then 0 else next_index)
    (if wrapped then negb (producer_cycle self) else producer_cycle self) (event_index self)
    (event_cycle self) next_sequence' (Some command) (ring_root self), snd v)) ;;
  mret (XhciNoOpCommandReceipt.mk (generation self) sequence (producer_index self)
    (producer_cycle self) command_device_address root).

Definition poll_no_op_completion (receipt : XhciNoOpCommandReceipt.t) :
    M view (XhciRingError E) (option XhciCommandCompletionEvidence.t) :=
  v ← get;
  let self := fst v in
  expected ← ok_or (outstanding self) NoOutstandingCommand;
  if negb (receipt_matches expected receipt) then throw ReceiptMismatch else
  event_offset ← mul 64 (event_index self) TRB_BYTES;
  event ← on_storage (read_trb EventRing event_offset);
  if negb (Bool.eqb (RawTrb.cycle event) (event_cycle self)) then mret None else
  let event_type := RawTrb.trb_type event in
  if negb (event_type =? TRB_TYPE_COMMAND_COMPLETION_EVENT) then throw (UnexpectedEventType event_type) else
  if negb (Z.land (RawTrb.parameter event) 0xf =? 0)
  then throw (EventPointerReservedBits (wrap 8 (Z.land (RawTrb.parameter event) 0xf))) else
  if negb (RawTrb.parameter event =? OutstandingCommand.command_device_address expected)
  then throw (CompletionPointerMismatch (OutstandingCommand.command_device_address expected)
                (RawTrb.parameter event)) else
  let virtual_function := wrap 8 (Z.land (Z.shiftr (RawTrb.control event) 16) 0xff) in
  if negb (virtual_function =? 0) then throw (CompletionVirtualFunctionMismatch virtual_function) else
  let slot := wrap 8 (Z.shiftr (RawTrb.control event) 24) in
  if negb (slot =? 0) then throw (CompletionSlotMismatch slot) else
  next ← add 16 (event_index self) 1;
  let wrapped := next =? EVENT_CAPACITY in
  let event_index' := if wrapped then 0 else next in
  modify (λ v, (mk (generation self) (command_device_base self) (event_device_base self)
    (erst_device_base self) (producer_index self) (producer_cycle self) event_index'
    (if wrapped then negb (event_cycle self) else event_cycle self) (next_sequence self) None
    (ring_root self), snd v)) ;;
  span ← mul 64 event_index' TRB_BYTES;
  next_event_dequeue_pointer ← add 64 (event_device_base self) span;
  let root := mix (Z.lxor (ring_root self) COMPLETION_ROOT_DOMAIN) (OutstandingCommand.receipt_root expected) in
  let root := mix root (RawTrb.parameter event) in
  let root := mix root (RawTrb.status event) in
  let root := mix root (RawTrb.control event) in
  let root := mix root (event_index self) in
  let root := mix root (Z.b2z (event_cycle self)) in
  let root := mix root next_event_dequeue_pointer in
  mret (Some (XhciCommandCompletionEvidence.mk (generation self) (OutstandingCommand.sequence expected)
    (wrap 8 (Z.shiftr (RawTrb.status event) 24)) (Z.land (RawTrb.status event) 0xffffff)
    (event_index self) (event_cycle self) next_event_dequeue_pointer
    (canonical_root root COMPLETION_ROOT_DOMAIN))).

End machine.
End XhciRingMachine.
