(* ===== verification/XhciRingFacts.v ===== *)
(** * TRBs in memory

    The codec, the cycle bit as a bit of one byte, and what a publication does to
    the memory it writes: byte by byte for the controller that watches it, and as
    a whole for the machine. *)
From S2P Require Import Prelude Bytes Paging ServiceCalculus XhciDma XhciRing.

Module TrbFacts.

Record trb_ok (t : RawTrb.t) : Prop := {
  tr_parameter : u64 (RawTrb.parameter t);
  tr_status : u32 (RawTrb.status t);
  tr_control : u32 (RawTrb.control t);
}.

Lemma length_encode t : length (RawTrb.encode t) = 16%nat.
Proof. unfold RawTrb.encode. by rewrite !length_app, !length_le_bytes. Qed.

Lemma encode_ok t : bytes_ok (RawTrb.encode t).
Proof. unfold RawTrb.encode, bytes_ok. rewrite !Forall_app. repeat split; apply le_bytes_ok. Qed.

(** The pieces of an encoded block. *)
Lemma encode_parts t :
  take 8 (RawTrb.encode t) = le_bytes 8 (RawTrb.parameter t) ∧
  take 4 (drop 8 (RawTrb.encode t)) = le_bytes 4 (RawTrb.status t) ∧
  take 4 (drop 12 (RawTrb.encode t)) = le_bytes 4 (RawTrb.control t).
Proof.
  unfold RawTrb.encode. split; [|split].
  - by rewrite take_app_length' by (by rewrite length_le_bytes).
  - rewrite drop_app_length' by (by rewrite length_le_bytes).
    by rewrite take_app_length' by (by rewrite length_le_bytes).
  - rewrite app_assoc, drop_app_length' by (by rewrite length_app, !length_le_bytes).
    by rewrite take_ge by (by rewrite length_le_bytes).
Qed.

Lemma decode_encode_trb t : trb_ok t → RawTrb.decode (RawTrb.encode t) = t.
Proof.
  intros [Hp Hs Hc]. unfold RawTrb.decode. destruct (encode_parts t) as (-> & -> & ->).
  rewrite !from_le_le by done. by destruct t.
Qed.

Lemma encode_decode_trb bs : length bs = 16%nat → bytes_ok bs → RawTrb.encode (RawTrb.decode bs) = bs.
Proof.
  intros Hl Hb. unfold RawTrb.encode, RawTrb.decode. simpl RawTrb.parameter. simpl RawTrb.status. simpl RawTrb.control.
  assert (Hle : ∀ n l, length l = n → bytes_ok l → le_bytes n (from_le_bytes l) = l)
    by (intros n l <- ?; by apply le_from_le).
  rewrite !Hle; try (rewrite ?length_take, ?length_drop, Hl; reflexivity); try (by repeat apply Forall_take; try apply Forall_drop).
  rewrite <- (take_drop 8 bs) at 4. f_equal. rewrite <- (take_drop 4 (drop 8 bs)) at 2. f_equal.
  rewrite drop_drop. apply take_ge. rewrite length_drop, Hl. done.
Qed.

(** ** The cycle bit *)

(** It is the low bit of byte 12. *)
Definition cycle_bit (bs : list Z) : bool := match bs !! 12%nat with Some b => Z.odd b | None => false end.

Lemma land_1_odd x : negb (Z.land x TRB_CYCLE =? 0) = Z.odd x.
Proof.
  change TRB_CYCLE with (Z.ones 1). rewrite Z.land_ones, Zmod_odd by done. by destruct (Z.odd x).
Qed.

Lemma odd_from_le b bs : Z.odd (from_le_bytes (b :: bs)) = Z.odd b.
Proof.
  cbn [from_le_bytes]. rewrite Z.odd_add, Z.odd_mul. by rewrite Bool.xorb_false_r.
Qed.

Lemma cycle_decode bs : length bs = 16%nat → RawTrb.cycle (RawTrb.decode bs) = cycle_bit bs.
Proof.
  intros Hl. unfold RawTrb.cycle, RawTrb.decode, cycle_bit. cbn [RawTrb.control]. rewrite land_1_odd.
  destruct (lookup_lt_is_Some_2 bs 12) as [b Hb]; [lia|]. rewrite Hb.
  rewrite (drop_S _ b) by done. rewrite firstn_cons. apply odd_from_le.
Qed.

Lemma cycle_bit_encode t : trb_ok t → cycle_bit (RawTrb.encode t) = RawTrb.cycle t.
Proof. intros Ht. by rewrite <- cycle_decode, decode_encode_trb by (done || apply length_encode). Qed.

(** ** The control word made invisible *)

Definition invisible (control : Z) (cycle : bool) : Z :=
  if cycle then Z.land control (bitnot 32 TRB_CYCLE) else Z.lor control TRB_CYCLE.

Lemma le_bytes_4 x : ∃ tl, le_bytes 4 x = x mod 2 ^ 8 :: tl ∧ tl = le_bytes 3 (x / 2 ^ 8).
Proof. rewrite le_bytes_S. eauto. Qed.

Lemma odd_mod_256 x : Z.odd (x mod 2 ^ 8) = Z.odd x.
Proof. rewrite (Z.div_mod x (2 ^ 8)) at 2 by done. by rewrite Z.odd_add, Z.odd_mul. Qed.

Lemma invisible_odd control cycle : Z.odd (invisible control cycle) = negb cycle.
Proof.
  unfold invisible. rewrite <- Z.bit0_odd. destruct cycle.
  - rewrite Z.land_spec. change (Z.testbit (bitnot 32 TRB_CYCLE) 0) with false. apply andb_false_r.
  - rewrite Z.lor_spec. change (Z.testbit TRB_CYCLE 0) with true. apply orb_true_r.
Qed.

(** Only the low byte differs from the final control word. *)
Lemma invisible_high control cycle : u32 control → invisible control cycle / 2 ^ 8 = control / 2 ^ 8.
Proof.
  intros Hc. rewrite <- !Z.shiftr_div_pow2 by done. apply Z.bits_inj'. intros n Hn.
  rewrite !Z.shiftr_spec by done. unfold invisible. destruct cycle.
  - rewrite Z.land_spec. destruct (Z.lt_ge_cases (n + 8) 32).
    + rewrite testbit_bitnot by lia. change TRB_CYCLE with (Z.ones 1).
      rewrite Z.ones_spec_high, Z.ones_spec_low by lia. by rewrite andb_true_r.
    + rewrite (testbit_out_of_width 32 control) by done. done.
  - rewrite Z.lor_spec. change TRB_CYCLE with (Z.ones 1). rewrite Z.ones_spec_high by lia. by rewrite orb_false_r.
Qed.

(** ** The stages of a publication *)

Lemma cycle_bit_splice a bs slot :
  length slot = 16%nat → (a + length bs <= 16)%nat →
  cycle_bit (splice a bs slot) =
    if decide (a <= 12 < a + length bs)%nat
    then match bs !! (12 - a)%nat with Some b => Z.odd b | None => false end else cycle_bit slot.
Proof.
  intros Hl Ha. unfold cycle_bit. rewrite lookup_splice by lia. by case_decide.
Qed.

Section publication.
Context (t : RawTrb.t) (c : bool) (Ht : trb_ok t) (Hc : RawTrb.cycle t = c).
Let hidden : list Z := le_bytes 4 (invisible (RawTrb.control t) c).
Let final : list Z := le_bytes 4 (RawTrb.control t).
Let payload : list Z := take 12 (RawTrb.encode t).

Lemma length_payload : length payload = 12%nat.
Proof. unfold payload. by rewrite length_take, length_encode. Qed.

Lemma encode_split : RawTrb.encode t = payload ++ final.
Proof.
  rewrite <- (take_drop 12 (RawTrb.encode t)). unfold payload, final. f_equal.
Qed.

(** Hiding: every prefix of the first write leaves an invisible block. *)
Lemma hide_stage slot k :
  length slot = 16%nat → cycle_bit slot ≠ c → cycle_bit (splice 12 (take k hidden) slot) ≠ c.
Proof.
  intros Hl Hn. rewrite cycle_bit_splice by (rewrite ?length_take; unfold hidden; rewrite ?length_le_bytes; lia).
  case_decide as Hd; [|done]. destruct k as [|k]; [simpl in Hd; lia|].
  unfold hidden. destruct (le_bytes_4 (invisible (RawTrb.control t) c)) as (tl & -> & _). simpl.
  rewrite odd_mod_256, invisible_odd. by destruct c.
Qed.

(** Filling: the payload does not touch the cycle bit. *)
Lemma fill_stage slot k :
  length slot = 16%nat → cycle_bit slot ≠ c → cycle_bit (splice 0 (take k payload) slot) ≠ c.
Proof.
  intros Hl Hn. pose proof length_payload. rewrite cycle_bit_splice by (rewrite ?length_take; lia).
  rewrite decide_False; [done|]. rewrite length_take. lia.
Qed.

(** Committing: the first byte already makes the block complete. *)
Lemma commit_stage slot k :
  length slot = 16%nat →
  splice 12 (take (S k) final) (splice 0 payload (splice 12 hidden slot)) = RawTrb.encode t.
Proof.
  intros Hl. pose proof length_payload as Hp. rewrite encode_split.
  assert (Hh : length hidden = 4%nat) by apply length_le_bytes.
  assert (Hf : length final = 4%nat) by apply length_le_bytes.
  assert (Htl : ∀ i, (1 <= i)%nat → hidden !! i = final !! i).
  { intros [|i] Hi; [lia|]. unfold hidden, final.
    destruct (le_bytes_4 (invisible (RawTrb.control t) c)) as (? & -> & ->).
    destruct (le_bytes_4 (RawTrb.control t)) as (? & -> & ->). simpl.
    rewrite invisible_high by apply Ht. done. }
  apply list_eq. intros i.
  rewrite !lookup_splice by (rewrite ?length_splice, ?length_take; rewrite ?length_splice; lia).
  rewrite length_take. repeat case_decide; try lia.
  - rewrite lookup_take_lt, lookup_app_r, Hp by lia. done.
  - rewrite lookup_app_l, Nat.sub_0_r by lia. done.
  - rewrite lookup_app_r, Htl, Hp by lia. done.
  - rewrite !lookup_ge_None_2; [done|rewrite length_app; lia|lia].
Qed.
End publication.

End TrbFacts.
