(* ===== verification/XhciRingRuns.v ===== *)
(** * The rings against their storage

    Two storages for the ring machine: one that records every memory the
    controller could see while a write is in progress ([Watched]), and any storage
    that keeps the trait's contract ([XhciRingStorageLaws]).  Against the first a
    publication is never torn, against the second the command ring is a queue. *)
From S2P Require Import Prelude Bytes Paging ServiceCalculus XhciDma XhciDmaFacts XhciRing XhciRingFacts.

(** ** A storage under observation *)

Module Watched.
Import TrbFacts.

(** A command ring, the memories seen so far, and how many writes still succeed. *)
Record t := mk { memory : list Z; seen : list (list Z); budget : nat }.

(** The memories that a write exposes, one per byte, in byte order. *)
Definition exposures (off : nat) (bs mem : list Z) : list (list Z) :=
  map (λ k, splice off (take k bs) mem) (seq 1 (length bs)).

#[global] Instance storage : XhciRingStorage t unit := {|
  region := λ _ _, None;
  write := λ p off bs,
    s ← get;
    if bool_decide (p = CommandRing) && (0 <=? off)
       && (off + Z.of_nat (length bs) <=? Z.of_nat (length (memory s))) then
      match budget s with
      | O => throw ()
      | S n => put (mk (splice (Z.to_nat off) bs (memory s))
                 (seen s ++ exposures (Z.to_nat off) bs (memory s)) n)
      end
    else throw ();
  read := λ _ _ _, throw ();
|}.

(** What a controller may see of the block at [off]: nothing, or all of it. *)
Definition whole (off : nat) (trb : RawTrb.t) (c : bool) (mem : list Z) : Prop :=
  RawTrb.decode (window off 16 mem) = trb ∨ RawTrb.cycle (RawTrb.decode (window off 16 mem)) ≠ c.

Lemma whole_hidden off trb c mem :
  (off + 16 <= length mem)%nat → cycle_bit (window off 16 mem) ≠ c → whole off trb c mem.
Proof. intros Hl Hn. right. by rewrite cycle_decode by (by apply length_window). Qed.

Lemma elem_of_exposures off bs mem m :
  m ∈ exposures off bs mem → ∃ k, m = splice off (take (S k) bs) mem ∧ (S k <= length bs)%nat.
Proof.
  intros (k & -> & Hk)%list_elem_of_fmap. apply elem_of_seq in Hk. destruct k as [|k]; [lia|]. exists k.
  split; [done|lia].
Qed.

(** One write within the block. *)
Lemma wp_write_block off a bs mem sn n (Q : unit → t → Prop) (R : unit → t → Prop) :
  (a + length bs <= 16)%nat → (off + 16 <= length mem)%nat →
  (∀ n', n = S n' → Q () (mk (splice (off + a) bs mem) (sn ++ exposures (off + a) bs mem) n')) →
  R () (mk mem sn n) →
  wp (write (S:=t) CommandRing (Z.of_nat (off + a)) bs) Q R (mk mem sn n).
Proof.
  intros Ha Ho HQ HR. cbn [write storage]. wp_simpl. cbn [memory seen budget].
  rewrite (proj2 (Z.leb_le 0 _)), (proj2 (Z.leb_le _ (Z.of_nat (length mem)))) by lia. cbn [bool_decide].
  rewrite bool_decide_true by done. cbn [andb]. rewrite Nat2Z.id. destruct n as [|n']; wp_simpl; [done|]. by apply HQ.
Qed.

Section publication.
Context (off : nat) (trb : RawTrb.t) (c : bool) (mem : list Z).
Context (Ht : trb_ok trb) (Hc : RawTrb.cycle trb = c) (Hl : (off + 16 <= length mem)%nat).
Context (Hw : Z.of_nat (length mem) < 2 ^ 64) (Hold : cycle_bit (window off 16 mem) ≠ c).

(** A memory whose other bytes are those of [mem]. *)
Definition around (m : list Z) : Prop :=
  length m = length mem ∧ ∀ i, ¬ (off <= i < off + 16)%nat → m !! i = mem !! i.

Lemma around_splice a bs m : (a + length bs <= 16)%nat → around m → around (splice (off + a) bs m).
Proof.
  intros Ha [Hm1 Hm2]. split; [rewrite length_splice; lia|]. intros i Hi.
  rewrite lookup_splice by lia. rewrite decide_False by lia. by apply Hm2.
Qed.

Definition sighted (m : list Z) : Prop := whole off trb c m ∧ around m.

(** A write that keeps the block hidden at each of its bytes. *)
Lemma sighted_hidden a bs m :
  (a + length bs <= 16)%nat → around m →
  (∀ k, cycle_bit (splice a (take k bs) (window off 16 m)) ≠ c) →
  Forall sighted (exposures (off + a) bs m).
Proof.
  intros Ha Hm Hk. apply Forall_forall. intros x (k & -> & Hlen)%elem_of_exposures.
  assert (Hx : around (splice (off + a) (take (S k) bs) m))
    by (apply around_splice; [rewrite length_take; lia|done]).
  split; [|done]. apply whole_hidden; [destruct Hx; lia|]. destruct Hm as [Hm _].
  rewrite window_splice_in by (rewrite ?length_take; lia). apply Hk.
Qed.

Lemma publish_watched n :
  wp (publish_trb (S:=t) CommandRing (Z.of_nat off) trb c)
    (λ _ s', window off 16 (memory s') = RawTrb.encode trb ∧ around (memory s') ∧ Forall sighted (seen s'))
    (λ _ s', cycle_bit (window off 16 (memory s')) ≠ c ∧ around (memory s') ∧ Forall sighted (seen s'))
    (mk mem [mem] n).
Proof.
  set (slot := window off 16 mem). assert (Hs : length slot = 16%nat) by by apply length_window.
  assert (Hmem : around mem) by done.
  assert (Hs0 : Forall sighted [mem]) by (apply Forall_singleton; split; [by apply whole_hidden|done]).
  unfold publish_trb. cbv zeta. wp_simpl. fold (invisible (RawTrb.control trb) c).
  set (hidden := le_bytes 4 (invisible (RawTrb.control trb) c)).
  set (final := le_bytes 4 (RawTrb.control trb)). set (payload := take 12 (RawTrb.encode trb)).
  assert (Hh : length hidden = 4%nat) by apply length_le_bytes.
  assert (Hf : length final = 4%nat) by apply length_le_bytes.
  assert (Hp : length payload = 12%nat) by apply length_payload.
  apply wp_add; [lia|]. wp_simpl. unfold store_bytes. wp_simpl.
  replace (Z.of_nat off + 12) with (Z.of_nat (off + 12)) by lia.
  set (m1 := splice (off + 12) hidden mem).
  assert (Hm1 : around m1) by (apply around_splice; [lia|done]).
  assert (Hw1 : window off 16 m1 = splice 12 hidden slot) by (apply window_splice_in; lia).
  assert (Hc1 : cycle_bit (splice 12 hidden slot) ≠ c).
  { rewrite <- (take_ge hidden 4) by lia. by apply hide_stage. }
  assert (Hs1 : Forall sighted ([mem] ++ exposures (off + 12) hidden mem)).
  { apply Forall_app. split; [done|]. apply sighted_hidden; [lia|done|]. intros k. by apply hide_stage. }
  apply wp_write_block; [lia|done| |done]. intros n1 ->. fold m1. wp_simpl.
  replace (Z.of_nat off) with (Z.of_nat (off + 0)) by lia.
  set (m2 := splice (off + 0) payload m1).
  assert (Hm2 : around m2) by (apply around_splice; [lia|done]).
  assert (Hlen1 : length m1 = length mem) by apply Hm1.
  assert (Hw2 : window off 16 m2 = splice 0 payload (splice 12 hidden slot))
    by (rewrite <- Hw1; apply window_splice_in; lia).
  assert (Hl1 : length (splice 12 hidden slot) = 16%nat) by (rewrite length_splice; lia).
  assert (Hc2 : cycle_bit (window off 16 m2) ≠ c).
  { rewrite Hw2. rewrite <- (take_ge payload 12) by lia. by apply fill_stage. }
  assert (Hs2 : Forall sighted (([mem] ++ exposures (off + 12) hidden mem) ++ exposures (off + 0) payload m1)).
  { apply Forall_app. split; [done|]. apply sighted_hidden; [lia|done|]. intros k. rewrite Hw1. by apply fill_stage. }
  apply wp_write_block; [lia|lia| |cbn [memory seen]; by rewrite Hw1]. intros n2 ->. fold m2. wp_simpl.
  assert (Hlen2 : length m2 = length mem) by apply Hm2.
  assert (Hfin : ∀ k, window off 16 (splice (off + 12) (take (S k) final) m2) = RawTrb.encode trb).
  { intros k. rewrite window_splice_in by (rewrite ?length_take; lia). rewrite Hw2. by apply commit_stage. }
  apply wp_write_block; [lia|lia| |done]. intros n3 ->. cbn [memory seen].
  split; [rewrite <- (take_ge final 4) by lia; apply Hfin|]. split; [apply around_splice; [lia|done]|].
  apply Forall_app. split; [done|]. apply Forall_forall. intros x (k & -> & Hk)%elem_of_exposures.
  split; [|apply around_splice; [rewrite length_take; lia|done]]. left. rewrite Hfin. by apply decode_encode_trb.
Qed.
End publication.
End Watched.

(** ** Storage that keeps the trait's contract *)

(** A region that the machine may use. *)
Definition ready {S E} `{XhciRingStorage S E} (s : S) (p : XhciDmaPurpose) : Prop :=
  ∃ r, region s p = Some r ∧ XhciDmaRegionRecord.phase r = Ready.

(** A ready region is accessible within its bounds. *)
Class XhciRingStorageLaws (S E : Type) `{XhciRingStorage S E} := {
  sane : S → Prop;
  contents : S → XhciDmaPurpose → list Z;
  region_law : ∀ s p r, sane s → region s p = Some r →
    u64 (XhciDmaRegionRecord.device_address_start r) ∧
    0 <= XhciDmaRegionRecord.cpu_start r ∧
    XhciDmaRegionRecord.cpu_end r = XhciDmaRegionRecord.cpu_start r + Z.of_nat (length (contents s p)) ∧
    XhciDmaRegionRecord.cpu_end r < 2 ^ 64;
  write_law : ∀ s p off bs, sane s → 0 <= off → bytes_ok bs →
    wp (write p off bs)
      (λ _ s', sane s' ∧ (∀ q, region s' q = region s q) ∧
         (Z.to_nat off + length bs <= length (contents s p))%nat ∧
         ∀ q, contents s' q = if decide (q = p) then splice (Z.to_nat off) bs (contents s p) else contents s q)
      (λ _ s', s' = s ∧
         (ready s p → bs ≠ [] → (Z.to_nat off + length bs <= length (contents s p))%nat → False)) s;
  read_law : ∀ s p off n, sane s → 0 <= off → 0 <= n →
    wp (read p off n)
      (λ bs s', s' = s ∧ (Z.to_nat off + Z.to_nat n <= length (contents s p))%nat ∧
         bs = window (Z.to_nat off) (Z.to_nat n) (contents s p))
      (λ _ s', s' = s ∧
         (ready s p → 0 < n → (Z.to_nat off + Z.to_nat n <= length (contents s p))%nat → False)) s;
}.

(** The DMA arena keeps it. *)
Module ArenaLaws.
Import XhciDmaArena ArenaBytes Runs.

Definition arena_contents (s : system) (p : XhciDmaPurpose) : list Z :=
  match XhciDmaArena.region (fst s) p with Some r => bytes_of r (memory (snd s)) | None => [] end.

(** The records belong to the arena's own generation. *)
Definition current (a : XhciDmaArena.t) : Prop :=
  ∀ p r, XhciDmaArena.region a p = Some r →
    XhciDmaRegionRecord.generation r = IdentityDma.generation (identity a).

(** An access to a ready region is refused for its bounds alone. *)
Lemma refused_bounds a pf p r off len e :
  current a → arena_sane a → XhciDmaArena.region a p = Some r →
  access_refused a (XhciDmaRegionToken.mk (XhciDmaRegionRecord.generation r) p) (Z.of_nat off) (Z.of_nat len) e →
  ready (a, pf) p → len ≠ 0%nat → (off + len <= extent r)%nat → False.
Proof.
  intros Hc Hs Hr Href (r' & Hr' & Hready) Hl Hb. cbn [XhciRing.region arena_storage fst] in Hr'.
  rewrite Hr in Hr'. simplify_eq. destruct (Hs p r' Hr) as [[[? ?] _] _]. unfold extent in Hb.
  unfold access_refused in Href. cbn [XhciDmaRegionToken.generation XhciDmaRegionToken.purpose] in Href.
  rewrite (Hc p r' Hr) in Href. rewrite ?Hr in Href. destruct e; try done; try lia.
  - destruct Href as [-> ?]. congruence.
  - destruct Href as (-> & r & Hr2 & Hn). rewrite Hr in Hr2. simplify_eq. apply Hn. by right.
  - destruct Href as (r & Hr2 & ?). simplify_eq. lia.
Qed.

Lemma arena_write_law s p off bs :
  arena_sane (fst s) → current (fst s) → 0 <= off →
  wp (XhciRing.write p off bs)
    (λ _ s', (arena_sane (fst s') ∧ current (fst s')) ∧ (∀ q, XhciRing.region s' q = XhciRing.region s q) ∧
       (Z.to_nat off + length bs <= length (arena_contents s p))%nat ∧
       ∀ q, arena_contents s' q =
         if decide (q = p) then splice (Z.to_nat off) bs (arena_contents s p) else arena_contents s q)
    (λ _ s', s' = s ∧
       (ready s p → bs ≠ [] → (Z.to_nat off + length bs <= length (arena_contents s p))%nat → False)) s.
Proof.
  destruct s as [a pf]. cbn [fst]. intros Ha Hcur Ho. cbn [XhciRing.write arena_storage]. unfold arena. wp_simpl. cbn [fst].
  unfold token. destruct (XhciDmaArena.region a p) as [r|] eqn:Hr; cbn [fmap option_fmap option_map]; wp_simpl.
  2:{ split; [done|]. intros (r & Hr' & _). cbn in Hr'. congruence. }
  eapply wp_mono; [by apply write_ok|..]; cbv beta.
  2:{ intros e s' [-> He]. split; [done|]. intros Hrd Hne. unfold arena_contents. cbn [fst snd]. rewrite Hr.
      unfold bytes_of. rewrite length_load_run. apply (refused_bounds a pf p r _ _ e); try done.
      - by rewrite Z2Nat.id.
      - by destruct bs. }
  intros _ s' (r' & Ht & _ & Hl & ->). cbn [fst].
  apply record_for_token_inv in Ht as (Hr' & _ & _). cbn [XhciDmaRegionToken.purpose] in Hr'.
  rewrite Hr in Hr'. simplify_eq. destruct (Ha p r' Hr) as [Hg Hap].
  split; [by split|]. split; [done|]. unfold arena_contents. cbn [fst snd memory]. rewrite Hr.
  split; [unfold bytes_of, extent; rewrite length_load_run; lia|]. intros q. case_decide as Hq.
  - subst q. rewrite Hr. by apply bytes_after_store.
  - destruct (XhciDmaArena.region a q) as [rq|] eqn:Hrq; [|done].
    apply bytes_after_store; [done|done|done|by eapply Ha|]. by eapply Hap.
Qed.

Lemma arena_read_law s p off n :
  arena_sane (fst s) → current (fst s) → 0 <= off → 0 <= n →
  wp (XhciRing.read p off n)
    (λ bs s', s' = s ∧ (Z.to_nat off + Z.to_nat n <= length (arena_contents s p))%nat ∧
       bs = window (Z.to_nat off) (Z.to_nat n) (arena_contents s p))
    (λ _ s', s' = s ∧
       (ready s p → 0 < n → (Z.to_nat off + Z.to_nat n <= length (arena_contents s p))%nat → False)) s.
Proof.
  destruct s as [a pf]. cbn [fst]. intros Ha Hcur Ho Hn. cbn [XhciRing.read arena_storage]. unfold arena. wp_simpl. cbn [fst].
  unfold token. destruct (XhciDmaArena.region a p) as [r|] eqn:Hr; cbn [fmap option_fmap option_map]; wp_simpl.
  2:{ split; [done|]. intros (r & Hr' & _). cbn in Hr'. congruence. }
  eapply wp_mono; [by apply read_ok|..]; cbv beta.
  2:{ intros e s' [-> He]. split; [done|]. intros Hrd Hne. unfold arena_contents. cbn [fst snd]. rewrite Hr.
      unfold bytes_of. rewrite length_load_run. apply (refused_bounds a pf p r _ _ e); try done.
      - by rewrite !Z2Nat.id.
      - lia. }
  intros out s' (r' & Ht & _ & Hl & -> & ->).
  apply record_for_token_inv in Ht as (Hr' & _ & _). cbn [XhciDmaRegionToken.purpose] in Hr'.
  rewrite Hr in Hr'. simplify_eq. split; [done|]. unfold arena_contents. cbn [fst snd]. rewrite Hr.
  unfold bytes_of, extent. rewrite length_load_run. split; [lia|].
  rewrite window_load by lia. by rewrite Z2Nat.id.
Qed.

#[export] Instance arena_laws : XhciRingStorageLaws system XhciDmaError.
Proof.
  refine {| sane := λ s, arena_sane (fst s) ∧ current (fst s); contents := arena_contents |}.
  - intros [a pf] p r [Ha _] Hr. cbn [fst] in *. destruct (Ha p r Hr) as [[[Hc0 Hc1] Hd] _].
    unfold arena_contents. cbn [fst snd]. cbn [XhciRing.region arena_storage fst] in Hr. rewrite Hr.
    unfold bytes_of, extent. rewrite length_load_run. split; [done|]. lia.
  - intros s p off bs [Ha Hc] Ho _. by apply arena_write_law.
  - intros s p off n [Ha Hc]. by apply arena_read_law.
Defined.
End ArenaLaws.

Module Publication.
Import TrbFacts.

Section laws.
Context {S E : Type} `{XhciRingStorageLaws S E}.

(** Two storages that differ only within one block of one region. *)
Record only_block (p : XhciDmaPurpose) (off : nat) (s s' : S) : Prop := {
  ob_sane : sane s';
  ob_region : ∀ q, region s' q = region s q;
  ob_other : ∀ q, q ≠ p → contents s' q = contents s q;
  ob_length : length (contents s' p) = length (contents s p);
  ob_outside : ∀ i, ¬ (off <= i < off + 16)%nat → contents s' p !! i = contents s p !! i;
}.

Lemma only_block_refl p off s : sane s → only_block p off s s.
Proof. by split. Qed.

Lemma only_block_trans p off s1 s2 s3 : only_block p off s1 s2 → only_block p off s2 s3 → only_block p off s1 s3.
Proof.
  intros [] []. split; [done|congruence| |congruence|].
  - intros q Hq. rewrite ob_other1, ob_other0 by done. done.
  - intros i Hi. rewrite ob_outside1, ob_outside0 by done. done.
Qed.

Lemma only_block_ready p q off s s' : only_block p off s s' → ready s q → ready s' q.
Proof. intros Hb (r & Hr & Hp). exists r. by rewrite (ob_region _ _ _ _ Hb). Qed.

Lemma only_block_window p off s s' o len :
  only_block p off s s' → (o + len <= off ∨ off + 16 <= o)%nat →
  window o len (contents s' p) = window o len (contents s p).
Proof.
  intros Hb Ho. apply list_eq. intros i. rewrite !lookup_window. case_decide; [|done].
  apply (ob_outside _ _ _ _ Hb). lia.
Qed.

(** One write within a block. *)
Lemma wp_store_block p off a bs s (Q : unit → S → Prop) (R : XhciRingError E → S → Prop) :
  sane s → (a + length bs <= 16)%nat → bytes_ok bs →
  (∀ s', only_block p off s s' → (off + a + length bs <= length (contents s p))%nat →
     contents s' p = splice (off + a) bs (contents s p) → Q () s') →
  (∀ e, (ready s p → bs ≠ [] → (off + a + length bs <= length (contents s p))%nat → False) → R (Storage e) s) →
  wp (store_bytes p (Z.of_nat (off + a)) bs) Q R s.
Proof.
  intros Hs Ha Hb HQ HR. unfold store_bytes. wp_simpl.
  eapply wp_mono; [apply (write_law s p (Z.of_nat (off + a)) bs Hs); [lia|done]|..]; cbv beta.
  - rewrite Nat2Z.id. intros [] s' (Hs' & Hr & Hl & Hc). apply HQ; [|done|by rewrite Hc, decide_True].
    split; [done|done|..].
    + intros q Hq. by rewrite Hc, decide_False.
    + rewrite Hc, decide_True by done. by apply length_splice.
    + intros i Hi. rewrite Hc, decide_True by done. rewrite lookup_splice by done. by rewrite decide_False by lia.
  - intros e s' [-> Hn]. apply HR. by rewrite Nat2Z.id in Hn.
Qed.

(** A publication that succeeds stores the block; one that fails leaves it
    as it was, or hidden. *)
Lemma publish_ok p off trb c s :
  sane s → trb_ok trb → RawTrb.cycle trb = c → Z.of_nat off + 16 < 2 ^ 64 →
  (off + 16 <= length (contents s p))%nat →
  wp (publish_trb p (Z.of_nat off) trb c)
    (λ _ s', only_block p off s s' ∧ window off 16 (contents s' p) = RawTrb.encode trb)
    (λ e s', only_block p off s s' ∧
       (s' = s ∨ cycle_bit (window off 16 (contents s' p)) ≠ c) ∧ (∃ x, e = Storage x) ∧ ¬ ready s p) s.
Proof.
  intros Hs Ht Hc Ho Hl. set (slot := window off 16 (contents s p)).
  assert (Hlen : length slot = 16%nat) by by apply length_window.
  unfold publish_trb. cbv zeta. wp_simpl. fold (invisible (RawTrb.control trb) c).
  set (hidden := le_bytes 4 (invisible (RawTrb.control trb) c)).
  set (final := le_bytes 4 (RawTrb.control trb)). set (payload := take 12 (RawTrb.encode trb)).
  assert (Hh : length hidden = 4%nat) by apply length_le_bytes.
  assert (Hf : length final = 4%nat) by apply length_le_bytes.
  assert (Hp : length payload = 12%nat) by apply length_payload.
  apply wp_add; [lia|]. wp_simpl. replace (Z.of_nat off + 12) with (Z.of_nat (off + 12)) by lia.
  apply wp_store_block; [done|lia|apply le_bytes_ok| |intros e Hno; split; [by apply only_block_refl|]; split; [by left|]; split; [eauto|]; intros Hrd; apply Hno; [done|by destruct hidden|lia]].
  intros s1 Hb1 _ Hc1.
  assert (Hw1 : window off 16 (contents s1 p) = splice 12 hidden slot) by (rewrite Hc1; apply window_splice_in; lia).
  assert (Hn1 : cycle_bit (splice 12 hidden slot) ≠ c).
  { rewrite cycle_bit_splice, decide_True by lia. unfold hidden.
    destruct (le_bytes_4 (invisible (RawTrb.control trb) c)) as (tl & -> & _). simpl.
    rewrite odd_mod_256, invisible_odd. by destruct c. }
  wp_simpl. replace (Z.of_nat off) with (Z.of_nat (off + 0)) by lia.
  apply wp_store_block; [apply Hb1|lia|apply Forall_take, encode_ok| |intros e Hno; split; [done|]; split; [right; by rewrite Hw1|]; split; [eauto|]; intros Hrd; apply Hno; [by eapply only_block_ready|by destruct payload|rewrite (ob_length _ _ _ _ Hb1); lia]].
  intros s2 Hb2 _ Hc2. pose proof (ob_length _ _ _ _ Hb1) as Hl1. pose proof (ob_length _ _ _ _ Hb2) as Hl2.
  assert (Hw2 : window off 16 (contents s2 p) = splice 0 payload (splice 12 hidden slot))
    by (rewrite Hc2, window_splice_in, Hw1 by lia; done).
  pose proof (only_block_trans _ _ _ _ _ Hb1 Hb2) as Hb12.
  wp_simpl. apply wp_store_block; [apply Hb2|lia|apply le_bytes_ok| |intros e Hno; split; [done|]; split; [right|]; [|split; [eauto|]; intros Hrd; apply Hno; [by eapply only_block_ready|by destruct final|lia]]].
  - intros s3 Hb3 _ Hc3. split; [by eapply only_block_trans|].
    rewrite Hc3, window_splice_in, Hw2 by lia. rewrite <- (take_ge final 4) by lia. by apply commit_stage.
  - rewrite Hw2. rewrite cycle_bit_splice by (rewrite ?length_splice; lia). by rewrite decide_False by lia.
Qed.

End laws.
End Publication.
