(* ===== verification/XhciRingQueue.v ===== *)
(** * The xHCI command ring as a queue

    The controller's side of the ring ([fetch], from the ring discipline of the
    xHCI specification), the queue that the ring's memory represents
    ([ring_queue]), and the effect of a submission, a fetch, a poll and an
    initialisation on it, for any storage that keeps the trait's contract. *)
From S2P Require Import Prelude Bytes Paging ServiceCalculus XhciDma XhciRing XhciRingFacts XhciRingRuns.

Module XhciRingQueue.
Import TrbFacts Publication XhciRingMachine.

(** ** The controller's side of the command ring *)

(** The ring discipline of the xHCI specification: a consumer at an index, with
    the cycle state it expects, takes the block there if its cycle bit agrees,
    and follows a link block to the segment it names, toggling its state if the
    block says so. *)
Definition block_at (mem : list Z) (i : nat) : RawTrb.t := RawTrb.decode (window (16 * i) 16 mem).
Definition is_link (t : RawTrb.t) : bool := RawTrb.trb_type t =? TRB_TYPE_LINK.
Definition toggles (t : RawTrb.t) : bool := negb (Z.land (RawTrb.control t) LINK_TOGGLE_CYCLE =? 0).

Definition take_block (base : Z) (mem : list Z) (i : nat) (c : bool) : option (RawTrb.t * Z * (nat * bool)) :=
  let t := block_at mem i in
  if Bool.eqb (RawTrb.cycle t) c && negb (is_link t)
  then Some (t, base + 16 * Z.of_nat i, (S i, c)) else None.

Definition fetch (base : Z) (mem : list Z) (pos : nat * bool) : option (RawTrb.t * Z * (nat * bool)) :=
  let (i, c) := pos in
  let t := block_at mem i in
  if Bool.eqb (RawTrb.cycle t) c && is_link t then
    take_block base mem (Z.to_nat ((RawTrb.parameter t - base) / 16)) (if toggles t then negb c else c)
  else take_block base mem i c.

(** ** Positions

    The [n]-th command ever submitted goes to block [n mod 255] with the cycle
    bit of its lap. *)

Definition lap : nat := 255.
Definition phase (n : nat) : bool := Nat.even (n / lap).
Definition place (n : nat) : nat := n mod lap.

Definition noop (c : bool) : RawTrb.t :=
  RawTrb.mk 0 0 (Z.lor (Z.b2z c) (Z.shiftl TRB_TYPE_NO_OP_COMMAND TRB_TYPE_SHIFT)).
Definition link (base : Z) (c : bool) : RawTrb.t :=
  RawTrb.mk base 0 (Z.lor (Z.lor (Z.b2z c) LINK_TOGGLE_CYCLE) (Z.shiftl TRB_TYPE_LINK TRB_TYPE_SHIFT)).

Lemma noop_ok c : trb_ok (noop c) ∧ RawTrb.cycle (noop c) = c ∧ is_link (noop c) = false.
Proof. by destruct c. Qed.
Lemma link_ok base c :
  u64 base → trb_ok (link base c) ∧ RawTrb.cycle (link base c) = c ∧ is_link (link base c) = true ∧
    toggles (link base c) = true.
Proof. intros Hb. by destruct c; split. Qed.

Lemma place_lt n : (place n < 255)%nat.
Proof. apply Nat.mod_upper_bound. done. Qed.

Lemma place_S n : place (S n) = if decide (place n = 254)%nat then 0%nat else S (place n).
Proof.
  unfold place, lap. pose proof (Nat.div_mod n 255). pose proof (Nat.mod_upper_bound n 255).
  case_decide.
  - symmetry. apply (Nat.mod_unique _ _ (S (n / 255))); lia.
  - symmetry. apply (Nat.mod_unique _ _ (n / 255)); lia.
Qed.

Lemma phase_S n : phase (S n) = if decide (place n = 254)%nat then negb (phase n) else phase n.
Proof.
  unfold place, phase, lap. pose proof (Nat.div_mod n 255). pose proof (Nat.mod_upper_bound n 255).
  case_decide.
  - rewrite <- (Nat.div_unique (S n) 255 (S (n / 255)) 0) by lia.
    by rewrite Nat.even_succ, <- Nat.negb_even.
  - by rewrite <- (Nat.div_unique (S n) 255 (n / 255) (S (n mod 255))) by lia.
Qed.

Lemma phase_lap n : phase (n + 255) = negb (phase n) ∧ place (n + 255) = place n.
Proof.
  unfold phase, place, lap. replace (n + 255)%nat with (n + 1 * 255)%nat by lia.
  rewrite Nat.div_add, Nat.Div0.mod_add by done. split; [|done].
  by rewrite Nat.add_1_r, Nat.even_succ, <- Nat.negb_even.
Qed.

(** Commands less than a lap apart do not share a block. *)
Lemma place_inj n k : (n < k < n + 255)%nat → place n ≠ place k.
Proof.
  unfold place, lap. intros Hk Heq. pose proof (Nat.div_mod n 255). pose proof (Nat.div_mod k 255).
  assert (255 * (k / 255) = 255 * (n / 255) + (k - n))%nat by lia. lia.
Qed.

(** ** The ring as a queue *)

(** [N] commands were submitted and [C] of them fetched: the blocks of those in
    between are complete, all others are invisible to the controller, and the
    link block leads from the last full lap to the next. *)
Record ring_queue (base : Z) (mem : list Z) (N C : nat) : Prop := {
  rq_length : (4096 <= length mem)%nat;
  rq_count : (C <= N <= C + 253)%nat;
  rq_pending : ∀ n, (C <= n < N)%nat → window (16 * place n) 16 mem = RawTrb.encode (noop (phase n));
  rq_free : ∀ n, (N <= n < C + 255)%nat → cycle_bit (window (16 * place n) 16 mem) ≠ phase n;
  rq_link : (255 <= N)%nat → place N ≠ 254%nat →
    window (16 * 255) 16 mem = RawTrb.encode (link base (phase (N - 255)));
}.

(** The consumer's position once it has taken [C] commands: at the block of the
    next one, or still before the link block. *)
Definition at_position (C : nat) (pos : nat * bool) : Prop :=
  pos = (place C, phase C) ∨ place C = 0%nat ∧ (0 < C)%nat ∧ pos = (255%nat, negb (phase C)).

Lemma block_encoded mem i t : trb_ok t → window (16 * i) 16 mem = RawTrb.encode t → block_at mem i = t.
Proof. intros Ht Hw. unfold block_at. rewrite Hw. by apply decode_encode_trb. Qed.

Lemma block_cycle mem i :
  (16 * i + 16 <= length mem)%nat → RawTrb.cycle (block_at mem i) = cycle_bit (window (16 * i) 16 mem).
Proof. intros. unfold block_at. apply cycle_decode. by apply length_window. Qed.

Definition next_fetch (base : Z) (N C : nat) : option (RawTrb.t * Z * (nat * bool)) :=
  if decide (C < N)%nat then Some (noop (phase C), base + 16 * Z.of_nat (place C), (S (place C), phase C)) else None.

Lemma block_free base mem N C :
  ring_queue base mem N C → ¬ (C < N)%nat → RawTrb.cycle (block_at mem (place C)) ≠ phase C.
Proof.
  intros Hq Hn. pose proof (rq_length _ _ _ _ Hq). pose proof (rq_count _ _ _ _ Hq). pose proof (place_lt C).
  rewrite block_cycle by lia. apply (rq_free _ _ _ _ Hq). lia.
Qed.

Lemma take_queue base mem N C :
  ring_queue base mem N C → take_block base mem (place C) (phase C) = next_fetch base N C.
Proof.
  intros Hq. unfold take_block, next_fetch. case_decide as Hn.
  - destruct (noop_ok (phase C)) as (Hok & Hc & Hl).
    rewrite (block_encoded mem _ (noop (phase C)) Hok) by (apply (rq_pending _ _ _ _ Hq); lia).
    rewrite Hc, Hl. by rewrite Bool.eqb_reflx.
  - pose proof (block_free _ _ _ _ Hq Hn) as Hne. apply Bool.eqb_false_iff in Hne. by rewrite Hne.
Qed.

Lemma place_0 n : place n = 0%nat → (0 < n)%nat → (255 <= n)%nat ∧ ∀ k, (k < 255)%nat → place (n + k) = k ∧ phase (n + k) = phase n.
Proof.
  unfold place, phase, lap. intros Hp Hn. pose proof (Nat.div_mod n 255) as Hd.
  split; [destruct (n / 255)%nat; lia|]. intros k Hk. split.
  - symmetry. apply (Nat.mod_unique _ _ (n / 255)); lia.
  - by rewrite <- (Nat.div_unique (n + k) 255 (n / 255) k) by lia.
Qed.

(** What the controller sees: the oldest unfetched command, or nothing. *)
Lemma fetch_queue base mem N C pos :
  u64 base → ring_queue base mem N C → at_position C pos → fetch base mem pos = next_fetch base N C.
Proof.
  intros Hb Hq [->|(Hp & Hpos & ->)]; unfold fetch.
  - rewrite (take_queue _ _ _ _ Hq). destruct (decide (C < N)%nat) as [Hn|Hn].
    + destruct (noop_ok (phase C)) as (Hok & Hc & Hl).
      rewrite (block_encoded mem _ (noop (phase C)) Hok) by (apply (rq_pending _ _ _ _ Hq); lia).
      by rewrite Hl, andb_false_r.
    + pose proof (block_free _ _ _ _ Hq Hn) as Hne. apply Bool.eqb_false_iff in Hne. by rewrite Hne.
  - destruct (place_0 C Hp Hpos) as [H255 Hk]. pose proof (rq_count _ _ _ _ Hq) as Hcount.
    destruct (Hk (N - C)%nat ltac:(lia)) as [HpN HphN]. replace (C + (N - C))%nat with N in HpN, HphN by lia.
    assert (Hph : phase (N - 255) = negb (phase C)).
    { destruct (phase_lap (N - 255)) as [Hl _]. replace (N - 255 + 255)%nat with N in Hl by lia.
      rewrite HphN in Hl. rewrite Hl. by rewrite negb_involutive. }
    destruct (link_ok base (negb (phase C)) Hb) as (Hok & Hc & Hl & Ht).
    rewrite (block_encoded mem 255 (link base (negb (phase C))) Hok)
      by (rewrite <- Hph; apply (rq_link _ _ _ _ Hq); lia).
    rewrite Hc, Hl, Ht, Bool.eqb_reflx. cbn [andb]. rewrite negb_involutive.
    cbn [RawTrb.parameter link]. rewrite Z.sub_diag. change (Z.to_nat (0 / 16)) with 0%nat.
    rewrite <- Hp. by apply take_queue.
Qed.

Lemma fetched_queue base mem N C :
  ring_queue base mem N C → (C < N)%nat →
  ring_queue base mem N (S C) ∧ at_position (S C) (S (place C), phase C).
Proof.
  intros [Hl Hc Hp Hf Hk] Hn. split.
  - split; [done|lia|intros; apply Hp; lia| |done]. intros n Hn'.
    destruct (decide (n = C + 255)%nat) as [->|]; [|apply Hf; lia].
    destruct (phase_lap C) as [-> ->]. rewrite Hp by lia. destruct (noop_ok (phase C)) as (Hok & Hcy & _).
    rewrite cycle_bit_encode, Hcy by done. by destruct (phase C).
  - unfold at_position. rewrite place_S, phase_S. case_decide as Hd; [|by left]. right.
    rewrite Hd, negb_involutive. split; [done|]. split; [lia|done].
Qed.

(** ** Submitting *)

Section machine.
Context {S E : Type} `{XhciRingStorageLaws S E}.

(** The machine after [N] submissions. *)
Record machine_at (m : XhciRingMachine.t) (N : nat) : Prop := {
  ma_base : 0 <= command_device_base m ∧ command_device_base m + 4096 < 2 ^ 64;
  ma_index : producer_index m = Z.of_nat (place N);
  ma_cycle : producer_cycle m = phase N;
  ma_sequence : next_sequence m = Z.of_nat N + 1 ∧ Z.of_nat N < MAX 32;
  ma_event : 0 <= event_index m < 256;
  ma_event_base : 0 <= event_device_base m ∧ event_device_base m + 4096 < 2 ^ 64;
}.

Definition ring_at (m : XhciRingMachine.t) (s : S) (N C : nat) : Prop :=
  sane s ∧ machine_at m N ∧ ring_queue (command_device_base m) (contents s CommandRing) N C.

(** Rewriting the link block before the last command of a lap. *)
Lemma queue_relink base s s' N C :
  only_block CommandRing (16 * 255) s s' → place N = 254%nat →
  ring_queue base (contents s CommandRing) N C → ring_queue base (contents s' CommandRing) N C.
Proof.
  intros Hb Hp [Hl Hc Hpd Hf Hk]. split; [by rewrite (ob_length _ _ _ _ Hb)|done| | |done].
  - intros n Hn. pose proof (place_lt n). rewrite (only_block_window _ _ _ _ _ _ Hb) by lia. by apply Hpd.
  - intros n Hn. pose proof (place_lt n). rewrite (only_block_window _ _ _ _ _ _ Hb) by lia. by apply Hf.
Qed.

(** Writing the block of command [N] leaves the others of the lap alone. *)
Lemma queue_other s s' N C :
  only_block CommandRing (16 * place N) s s' → (C <= N < C + 255)%nat →
  ∀ n, (C <= n < C + 255)%nat → n ≠ N →
    window (16 * place n) 16 (contents s' CommandRing) = window (16 * place n) 16 (contents s CommandRing).
Proof.
  intros Hb HN n ? ?. apply (only_block_window _ _ _ _ _ _ Hb). pose proof (place_lt n).
  assert (place n ≠ place N) by (destruct (decide (n < N)%nat); [apply place_inj; lia|apply not_eq_sym, place_inj; lia]).
  lia.
Qed.

(** A failed publication of the next command. *)
Lemma queue_refused base s s' N C :
  only_block CommandRing (16 * place N) s s' →
  (s' = s ∨ cycle_bit (window (16 * place N) 16 (contents s' CommandRing)) ≠ phase N) →
  ring_queue base (contents s CommandRing) N C → ring_queue base (contents s' CommandRing) N C.
Proof.
  intros Hb [->|Hn]; [done|]. intros [Hl Hc Hpd Hf Hk]. pose proof (place_lt N).
  pose proof (queue_other s s' N C Hb ltac:(lia)) as Hne.
  split; [by rewrite (ob_length _ _ _ _ Hb)|done|..].
  - intros n ?. rewrite Hne by lia. by apply Hpd.
  - intros n ?. destruct (decide (n = N)) as [->|]; [done|]. rewrite Hne by lia. by apply Hf.
  - intros ? ?. rewrite (only_block_window _ _ _ _ _ _ Hb) by lia. by apply Hk.
Qed.

(** A successful one. *)
Lemma queue_submitted base s s' N C :
  only_block CommandRing (16 * place N) s s' →
  window (16 * place N) 16 (contents s' CommandRing) = RawTrb.encode (noop (phase N)) →
  (place N = 254%nat → window (16 * 255) 16 (contents s CommandRing) = RawTrb.encode (link base (phase N))) →
  (N <= C + 252)%nat →
  ring_queue base (contents s CommandRing) N C → ring_queue base (contents s' CommandRing) (Datatypes.S N) C.
Proof.
  intros Hb Hw Hlink HN [Hl Hc Hpd Hf Hk]. pose proof (place_lt N).
  pose proof (queue_other s s' N C Hb ltac:(lia)) as Hne.
  split; [by rewrite (ob_length _ _ _ _ Hb)|lia|..].
  - intros n ?. destruct (decide (n = N)) as [->|]; [done|]. rewrite Hne by lia. apply Hpd. lia.
  - intros n ?. rewrite Hne by lia. apply Hf. lia.
  - intros H255 Hp'. rewrite (only_block_window _ _ _ _ _ _ Hb) by lia. rewrite place_S in Hp'.
    case_decide as Hd.
    + rewrite Hlink by done. do 2 f_equal. destruct (phase_lap (Datatypes.S N - 255)) as [Hph _].
      replace (Datatypes.S N - 255 + 255)%nat with (Datatypes.S N) in Hph by lia.
      rewrite phase_S, decide_True in Hph by done. by destruct (phase N), (phase (Datatypes.S N - 255)).
    + assert (N ≠ 254%nat) by (intros ->; done). rewrite Hk by lia. do 2 f_equal.
      replace (Datatypes.S N - 255)%nat with (Datatypes.S (N - 255)) by lia. rewrite phase_S, decide_False; [done|].
      destruct (phase_lap (N - 255)) as [_ Hpl]. replace (N - 255 + 255)%nat with N in Hpl by lia. congruence.
Qed.

Lemma wp_on_storage {A} (k : M S (XhciRingError E) A) Q R m s :
  wp (on_storage k) Q R (m, s) = wp k (λ a s', Q a (m, s')) (λ e s', R e (m, s')) s.
Proof. unfold wp, on_storage, zoom. simpl. by destruct (k s). Qed.

Lemma wp_if_storage (b : bool) (k : M S (XhciRingError E) unit) Q R m s :
  wp (if b then on_storage k else mret ()) Q R (m, s) =
  wp (if b then k else mret ()) (λ a s', Q a (m, s')) (λ e s', R e (m, s')) s.
Proof. destruct b; [apply wp_on_storage|done]. Qed.

(** The rest of the storage is untouched. *)
Definition others_same (s s' : S) : Prop :=
  (∀ q, region s' q = region s q) ∧ ∀ q, q ≠ CommandRing → contents s' q = contents s q.

Lemma only_block_others off s s' : only_block CommandRing off s s' → others_same s s'.
Proof. by intros []. Qed.
Lemma others_same_trans s1 s2 s3 : others_same s1 s2 → others_same s2 s3 → others_same s1 s3.
Proof. intros [H1 H2] [H3 H4]. split; [congruence|]. intros q Hq. by rewrite H4, H2. Qed.

(** The machine and the receipt after a submission. *)
Definition receipt_for (m : XhciRingMachine.t) : XhciNoOpCommandReceipt.t :=
  let address := command_device_base m + producer_index m * 16 in
  XhciNoOpCommandReceipt.mk (generation m) (next_sequence m) (producer_index m) (producer_cycle m) address
    (receipt_root (ring_root m) (generation m) (next_sequence m) (producer_index m) (producer_cycle m) address).
Definition outstanding_for (r : XhciNoOpCommandReceipt.t) : OutstandingCommand.t :=
  OutstandingCommand.mk (XhciNoOpCommandReceipt.generation r) (XhciNoOpCommandReceipt.sequence r)
    (XhciNoOpCommandReceipt.command_index r) (XhciNoOpCommandReceipt.producer_cycle r)
    (XhciNoOpCommandReceipt.command_device_address r) (XhciNoOpCommandReceipt.receipt_root r).
Definition submitted (m : XhciRingMachine.t) : XhciRingMachine.t :=
  let wrapped := producer_index m + 1 =? 255 in
  XhciRingMachine.mk (generation m) (command_device_base m) (event_device_base m) (erst_device_base m)
    (if wrapped then 0 else producer_index m + 1)
    (if wrapped then negb (producer_cycle m) else producer_cycle m)
    (event_index m) (event_cycle m) (next_sequence m + 1) (Some (outstanding_for (receipt_for m))) (ring_root m).

Lemma submitted_at m N : machine_at m N → Z.of_nat N + 1 < MAX 32 → machine_at (submitted m) (Datatypes.S N).
Proof.
  intros [Hb Hi Hc Hs He Heb] HN. pose proof (place_lt N). unfold submitted.
  assert (Hw : (producer_index m + 1 =? 255) = bool_decide (place N = 254%nat)).
  { rewrite Hi. destruct (Z.eqb_spec (Z.of_nat (place N) + 1) 255); symmetry;
      [apply bool_decide_eq_true|apply bool_decide_eq_false]; lia. }
  split; cbn [command_device_base producer_index producer_cycle next_sequence event_index event_device_base]; try done.
  - rewrite Hw, place_S. case_bool_decide; case_decide; try done; lia.
  - rewrite Hw, phase_S, Hc. case_bool_decide; by case_decide.
  - lia.
Qed.

(** What is in the storage once the link block has been dealt with. *)
Definition relinked (m : XhciRingMachine.t) (s s' : S) (N : nat) : Prop :=
  sane s' ∧ others_same s s' ∧ (place N = 254%nat →
    window (16 * 255) 16 (contents s' CommandRing) = RawTrb.encode (link (command_device_base m) (phase N))).

Lemma relink_ok m s N C :
  ring_at m s N C →
  wp (if producer_index m + 1 =? COMMAND_LINK_INDEX
      then write_link (command_device_base m) (producer_cycle m) else mret ())
    (λ _ s', ring_at m s' N C ∧ relinked m s s' N)
    (λ e s', ring_at m s' N C ∧ others_same s s' ∧ (∃ x, e = Storage x) ∧ ¬ ready s CommandRing) s.
Proof.
  intros (Hs & Hm & Hq). pose proof Hm as [[Hb0 Hb1] Hi Hc _ _ _]. pose proof (place_lt N).
  change COMMAND_LINK_INDEX with 255. rewrite Hi.
  destruct (Z.eqb_spec (Z.of_nat (place N) + 1) 255).
  - assert (Hp : place N = 254%nat) by lia.
    assert (Hu : u64 (command_device_base m)) by (unfold in_width; lia).
    destruct (link_ok (command_device_base m) (phase N) Hu) as (Hok & Hcy & _).
    unfold write_link. rewrite Hc. fold (link (command_device_base m) (phase N)).
    change (COMMAND_LINK_INDEX * TRB_BYTES) with (Z.of_nat (16 * 255)).
    eapply wp_mono; [apply publish_ok; [done|done|done|done|]|..]; cbv beta.
    + pose proof (rq_length _ _ _ _ Hq). lia.
    + intros _ s' (Hb & Hw). split; [|split; [apply Hb|split; [by eapply only_block_others|done]]].
      split; [apply Hb|]. split; [done|]. by eapply queue_relink.
    + intros er s' (Hb & _ & He & Hn). split; [|split; [by eapply only_block_others|done]].
      split; [apply Hb|]. split; [done|]. by eapply queue_relink.
  - wp_simpl. split; [done|]. split; [done|]. split; [done|]. intros ?. lia.
Qed.

(** Why a submission is refused. *)
Definition submit_refusal (m : XhciRingMachine.t) (s : S) (e : XhciRingError E) : Prop :=
  match e with
  | CommandBusy => is_Some (outstanding m)
  | CommandSequenceExhausted => outstanding m = None ∧ next_sequence m = MAX 32
  | Storage _ => ¬ ready s CommandRing
  | _ => False
  end.

Lemma others_ready s s' p : others_same s s' → ready s p → ready s' p.
Proof. intros [Hr _] (r & Hrg & Hp). exists r. by rewrite Hr. Qed.

(** A submission appends one command to the queue, or changes nothing the
    controller can see. *)
Lemma submit_ok m s N C :
  ring_at m s N C → (N <= C + 252)%nat →
  wp submit_no_op
    (λ r v, outstanding m = None ∧ r = receipt_for m ∧ fst v = submitted m ∧
       ring_at (submitted m) (snd v) (Datatypes.S N) C ∧ others_same s (snd v))
    (λ e v, fst v = m ∧ ring_at m (snd v) N C ∧ others_same s (snd v) ∧ submit_refusal m s e ∧
       (¬ ready s CommandRing ∨ snd v = s)) (m, s).
Proof.
  intros Hr HN. pose proof Hr as (Hs & Hm & Hq). pose proof Hm as [[Hb0 Hb1] Hi Hc [Hsq HNmax] _ _].
  pose proof (place_lt N). unfold MAX in HNmax. unfold submit_no_op. wp_simpl. cbn [fst snd]. cbv zeta.
  case_bool_decide as Hout; [wp_simpl; repeat (split; [done|]); by right|]. apply eq_None_not_Some in Hout.
  destruct (Z.eqb_spec (next_sequence m) (MAX 32)) as [|Hnm]; [wp_simpl; repeat (split; [done|]); by right|]. wp_simpl.
  apply wp_add; [lia|]. wp_simpl.
  rewrite wp_if_storage. eapply wp_mono; [by apply relink_ok| |intros e s' (? & ? & (x & ->) & ?); repeat (split; [done|]); by left].
  cbv beta. intros _ s1 (Hr1 & Hs1 & Ho1 & Hl1). wp_simpl. change TRB_BYTES with 16.
  apply wp_mul; [lia|]. wp_simpl. rewrite wp_on_storage. rewrite Hc. fold (noop (phase N)).
  replace (producer_index m * 16) with (Z.of_nat (16 * place N)) by lia.
  destruct (noop_ok (phase N)) as (Hok & Hcy & _). destruct Hr1 as (_ & _ & Hq1).
  pose proof (rq_length _ _ _ _ Hq1) as Hlen.
  eapply wp_mono; [apply publish_ok; [done|done|done|lia|lia]|..]; cbv beta.
  - intros _ s2 (Hb & Hw). wp_simpl. unfold checked_add.
    rewrite (proj2 (Z.ltb_lt (command_device_base m + _) (2 ^ 64))) by lia. wp_simpl.
    unfold MAX in Hnm. apply wp_add; [lia|]. wp_simpl. apply wp_add; [lia|]. wp_simpl. cbn [fst snd].
    assert (Hrc : receipt_for m = XhciNoOpCommandReceipt.mk (generation m) (next_sequence m) (producer_index m)
      (phase N) (command_device_base m + Z.of_nat (16 * place N)) (receipt_root (ring_root m) (generation m)
      (next_sequence m) (producer_index m) (phase N) (command_device_base m + Z.of_nat (16 * place N)))).
    { unfold receipt_for. cbv zeta. rewrite Hc.
      replace (producer_index m * 16) with (Z.of_nat (16 * place N)) by lia. reflexivity. }
    rewrite <- Hrc. change COMMAND_LINK_INDEX with 255.
    match goal with |- context [XhciRingMachine.mk ?a ?b ?c ?d ?e ?f ?g ?h ?i ?j ?k] =>
      replace (XhciRingMachine.mk a b c d e f g h i j k) with (submitted m)
        by (unfold submitted, outstanding_for; rewrite Hrc, Hc; reflexivity) end.
    clear Hrc. split; [done|]. split; [done|]. split; [done|]. split; [|by eapply others_same_trans, only_block_others].
    split; [apply Hb|]. split; [apply submitted_at; [done|unfold MAX; lia]|by eapply queue_submitted].
  - intros e s2 (Hb & Hw & (x & ->) & Hno). cbn [fst snd]. split; [done|].
    assert (Hnr : ¬ ready s CommandRing) by (intros Hrd; by eapply Hno, others_ready).
    split; [|split; [by eapply others_same_trans, only_block_others|split; [done|by left]]].
    split; [apply Hb|]. split; [done|]. by eapply queue_refused.
Qed.

(** ** Polling *)

(** The block that the machine reads next from the event ring. *)
Definition event_block (m : XhciRingMachine.t) (s : S) : RawTrb.t :=
  block_at (contents s EventRing) (Z.to_nat (event_index m)).

(** The event that reports the completion of [r]. *)
Record completes (m : XhciRingMachine.t) (r : XhciNoOpCommandReceipt.t) (e : RawTrb.t) : Prop := {
  co_cycle : RawTrb.cycle e = event_cycle m;
  co_type : RawTrb.trb_type e = TRB_TYPE_COMMAND_COMPLETION_EVENT;
  co_address : RawTrb.parameter e = XhciNoOpCommandReceipt.command_device_address r;
  co_reserved : RawTrb.parameter e mod 16 = 0;
  co_function : Z.shiftr (RawTrb.control e) 16 mod 2 ^ 8 = 0;
  co_slot : Z.shiftr (RawTrb.control e) 24 mod 2 ^ 8 = 0;
}.

(** The machine once it has consumed an event. *)
Definition consumed (m : XhciRingMachine.t) : XhciRingMachine.t :=
  let wrapped := event_index m + 1 =? 256 in
  XhciRingMachine.mk (generation m) (command_device_base m) (event_device_base m) (erst_device_base m)
    (producer_index m) (producer_cycle m) (if wrapped then 0 else event_index m + 1)
    (if wrapped then negb (event_cycle m) else event_cycle m) (next_sequence m) None (ring_root m).

Lemma consumed_at m N : machine_at m N → machine_at (consumed m) N.
Proof.
  intros [Hb Hi Hc Hs He Heb]. split; try done. cbn [consumed event_index].
  destruct (Z.eqb_spec (event_index m + 1) 256); lia.
Qed.

(** What the evidence of a completion says. *)
Definition evidence_of (m : XhciRingMachine.t) (r : XhciNoOpCommandReceipt.t) (e : RawTrb.t)
    (v : XhciCommandCompletionEvidence.t) : Prop :=
  XhciCommandCompletionEvidence.generation v = generation m ∧
  XhciCommandCompletionEvidence.sequence v = XhciNoOpCommandReceipt.sequence r ∧
  XhciCommandCompletionEvidence.completion_code v = Z.shiftr (RawTrb.status e) 24 mod 2 ^ 8 ∧
  XhciCommandCompletionEvidence.completion_parameter v = RawTrb.status e mod 2 ^ 24 ∧
  XhciCommandCompletionEvidence.consumed_event_index v = event_index m ∧
  XhciCommandCompletionEvidence.consumed_event_cycle v = event_cycle m ∧
  XhciCommandCompletionEvidence.next_event_dequeue_pointer v
    = event_device_base m + event_index (consumed m) * 16.

Lemma receipt_matches_spec o r : receipt_matches o r = true ↔ o = outstanding_for r.
Proof.
  unfold receipt_matches, outstanding_for. destruct o, r. cbn. rewrite !andb_true_iff, !Z.eqb_eq, Bool.eqb_true_iff.
  split; [intros (((((-> & ->) & ->) & ->) & ->) & ->); done|]. intros [=]. by subst.
Qed.

Lemma land_low x k : 0 <= k → Z.land x (Z.ones k) = x mod 2 ^ k.
Proof. apply Z.land_ones. Qed.

(** Why a poll is refused. *)
Definition poll_refusal (m : XhciRingMachine.t) (s : S) (r : XhciNoOpCommandReceipt.t) (e : XhciRingError E) : Prop :=
  match e with
  | Storage _ => ready s EventRing → (length (contents s EventRing) < 4096)%nat
  | NoOutstandingCommand => outstanding m = None
  | ReceiptMismatch => is_Some (outstanding m) ∧ outstanding m ≠ Some (outstanding_for r)
  | UnexpectedEventType ty => ty = RawTrb.trb_type (event_block m s) ∧ ty ≠ TRB_TYPE_COMMAND_COMPLETION_EVENT
  | EventPointerReservedBits b => b = RawTrb.parameter (event_block m s) mod 16 ∧ b ≠ 0
  | CompletionPointerMismatch x o =>
      x = XhciNoOpCommandReceipt.command_device_address r ∧ o = RawTrb.parameter (event_block m s) ∧ o ≠ x
  | CompletionVirtualFunctionMismatch f => f = Z.shiftr (RawTrb.control (event_block m s)) 16 mod 2 ^ 8 ∧ f ≠ 0
  | CompletionSlotMismatch l => l = Z.shiftr (RawTrb.control (event_block m s)) 24 mod 2 ^ 8 ∧ l ≠ 0
  | _ => False
  end.

Lemma read_event m s (Q : RawTrb.t → S → Prop) (R : XhciRingError E → S → Prop) :
  sane s → 0 <= event_index m < 256 →
  (∀ e, (ready s EventRing → (length (contents s EventRing) < 4096)%nat) → R (Storage e) s) → Q (event_block m s) s →
  wp (read_trb EventRing (event_index m * 16)) Q R s.
Proof.
  intros Hs He HR HQ. unfold read_trb. wp_simpl.
  eapply wp_mono; [apply (read_law s EventRing (event_index m * 16) TRB_BYTES Hs); [lia|done]|..]; cbv beta.
  - intros bs s' (-> & _ & ->). wp_simpl. unfold event_block, block_at in HQ.
    change (Z.to_nat TRB_BYTES) with 16%nat. by replace (Z.to_nat (event_index m * 16)) with (16 * Z.to_nat (event_index m))%nat by lia.
  - intros e s' [-> Hn]. apply HR. intros Hrd. apply Nat.lt_nge. intros Hl. apply Hn; [done|done|].
    change (Z.to_nat TRB_BYTES) with 16%nat. lia.
Qed.

Lemma poll_ok m s N r :
  sane s → machine_at m N →
  wp (poll_no_op_completion r)
    (λ out v, snd v = s ∧ outstanding m = Some (outstanding_for r) ∧
       match out with
       | None => fst v = m ∧ RawTrb.cycle (event_block m s) ≠ event_cycle m
       | Some ev => fst v = consumed m ∧ completes m r (event_block m s) ∧ evidence_of m r (event_block m s) ev
       end)
    (λ e v, v = (m, s) ∧ poll_refusal m s r e) (m, s).
Proof.
  intros Hs [_ _ _ _ [He0 He1] [Hb0 Hb1]]. unfold poll_no_op_completion. wp_simpl. cbn [fst snd]. cbv zeta.
  unfold poll_refusal. destruct (outstanding m) as [o|] eqn:Ho; [|by wp_simpl]. wp_simpl.
  pose proof (receipt_matches_spec o r) as Hm. destruct (receipt_matches o r); cbn [negb]; wp_simpl.
  2:{ split; [done|]. split; [done|]. intros [=]. destruct Hm as [_ Hm]. by discriminate Hm. }
  destruct Hm as [Hm _]. specialize (Hm eq_refl). subst o. change TRB_BYTES with 16.
  apply wp_mul; [lia|]. wp_simpl. rewrite wp_on_storage. apply read_event; [done|done|by intros e He|].
  set (e := event_block m s). clearbody e. clear Ho. wp_simpl. cbn [OutstandingCommand.command_device_address outstanding_for].
  change 0xf with (Z.ones 4). rewrite !land_low by done.
  assert (Hw4 : wrap 8 (RawTrb.parameter e mod 2 ^ 4) = RawTrb.parameter e mod 16)
    by (apply Z.mod_small; pose proof (Z.mod_pos_bound (RawTrb.parameter e) 16); lia).
  change 0xff with (Z.ones 8). rewrite !land_low by done.
  assert (Hw8 : wrap 8 (Z.shiftr (RawTrb.control e) 16 mod 2 ^ 8) = Z.shiftr (RawTrb.control e) 16 mod 2 ^ 8)
    by by apply Z.mod_mod.
  rewrite Hw4, Hw8. clear Hw4 Hw8.
  destruct (Bool.eqb (RawTrb.cycle e) (event_cycle m)) eqn:Hc; cbn [negb]; wp_simpl.
  2:{ split; [done|]. split; [done|]. split; [done|]. by apply Bool.eqb_false_iff. }
  apply Bool.eqb_prop in Hc.
  destruct (Z.eqb_spec (RawTrb.trb_type e) TRB_TYPE_COMMAND_COMPLETION_EVENT) as [Hty|]; cbn [negb]; wp_simpl; [|done].
  destruct (Z.eqb_spec (RawTrb.parameter e mod 2 ^ 4) 0) as [Hrs|]; cbn [negb]; wp_simpl; [|done].
  destruct (Z.eqb_spec (RawTrb.parameter e) (XhciNoOpCommandReceipt.command_device_address r)) as [Had|];
    cbn [negb]; wp_simpl; [|done].
  destruct (Z.eqb_spec (Z.shiftr (RawTrb.control e) 16 mod 2 ^ 8) 0) as [Hvf|]; cbn [negb]; wp_simpl; [|done].
  unfold wrap. destruct (Z.eqb_spec (Z.shiftr (RawTrb.control e) 24 mod 2 ^ 8) 0) as [Hsl|]; cbn [negb]; wp_simpl; [|done].
  apply wp_add; [lia|]. wp_simpl. change EVENT_CAPACITY with 256. cbn [fst snd].
  apply wp_mul; [destruct (_ =? 256); lia|]. wp_simpl.
  apply wp_add; [destruct (Z.eqb_spec (event_index m + 1) 256); lia|]. wp_simpl. cbn [fst snd].
  split; [done|]. split; [done|]. split; [done|]. split; [by split|].
  unfold evidence_of. cbn [XhciCommandCompletionEvidence.generation XhciCommandCompletionEvidence.sequence
    XhciCommandCompletionEvidence.completion_code XhciCommandCompletionEvidence.completion_parameter
    XhciCommandCompletionEvidence.consumed_event_index XhciCommandCompletionEvidence.consumed_event_cycle
    XhciCommandCompletionEvidence.next_event_dequeue_pointer OutstandingCommand.sequence outstanding_for consumed event_index].
  change 0xffffff with (Z.ones 24). rewrite land_low by done. done.
Qed.

(** ** Initialising *)

(** A region that the rings may use. *)
Record usable (s : S) (p : XhciDmaPurpose) (r : XhciDmaRegionRecord.t) : Prop := {
  us_region : region s p = Some r;
  us_phase : XhciDmaRegionRecord.phase r = Ready;
  us_length : length (contents s p) = 4096%nat;
  us_start : 0 <= XhciDmaRegionRecord.device_address_start r;
  us_align : XhciDmaRegionRecord.device_address_start r mod 4096 = 0;
  us_end : XhciDmaRegionRecord.device_address_end r = XhciDmaRegionRecord.device_address_start r + 4096 ∧
    XhciDmaRegionRecord.device_address_end r < 2 ^ 64;
}.

(** No write happened. *)
Definition geometry_error (e : XhciRingError E) : Prop :=
  match e with InvalidSecret | GenerationMismatch _ _ | Geometry _ => True | _ => False end.

(** What the machine requires of a region, with its generation if one is expected. *)
Definition valid (s : S) (p : XhciDmaPurpose) (g : option Z) (r : XhciDmaRegionRecord.t) : Prop :=
  usable s p r ∧ XhciDmaRegionRecord.purpose r = p ∧ XhciDmaRegionRecord.page_count r = 1 ∧
  ∀ x, g = Some x → XhciDmaRegionRecord.generation r = x.

Lemma validated_ok p g s :
  sane s →
  wp (validated_region p g) (λ r s', s' = s ∧ valid s p g r)
    (λ e s', s' = s ∧ geometry_error e ∧ ∀ r, ¬ valid s p g r) s.
Proof.
  intros Hs. unfold validated_region. wp_simpl.
  destruct (region s p) as [r|] eqn:Hr; wp_simpl.
  2:{ split; [done|]. split; [done|]. intros r [[Hr' _ _ _ _ _] _]. congruence. }
  destruct (region_law s p r Hs Hr) as ([Hd0 Hd1] & Hc0 & Hc1 & Hc2).
  assert (Hone : ∀ r', valid s p g r' → r' = r) by (intros r' [[Hr' _ _ _ _ _] _]; congruence).
  assert (Hbad : ∀ e, geometry_error e → ¬ valid s p g r → s = s ∧ geometry_error e ∧ ∀ r, ¬ valid s p g r).
  { intros e He Hn. split; [done|]. split; [done|]. intros r' Hv. by rewrite (Hone r' Hv) in Hv. }
  case_bool_decide as Hph; cbn [negb]; wp_simpl; [|apply Hbad; [done|]; by intros [[_ ? _ _ _ _] _]].
  destruct (_ || _) eqn:Hg; wp_simpl.
  { apply Hbad; [done|]. intros (_ & Hp & _ & Hgen). rewrite bool_decide_true in Hg by done. cbn in Hg.
    destruct g as [x|]; [|done]. rewrite (Hgen x eq_refl), Z.eqb_refl in Hg. done. }
  apply orb_false_elim in Hg as [Hp Hg]. apply negb_false_iff, bool_decide_eq_true in Hp.
  destruct (Z.eqb_spec (XhciDmaRegionRecord.page_count r) 1) as [Hpc|]; cbn [negb orb]; wp_simpl;
    [|apply Hbad; [done|]; by intros (_ & _ & ? & _)].
  unfold XhciDmaRegionRecord.byte_length. apply wp_sub; [lia|]. wp_simpl.
  destruct (Z.eqb_spec (XhciDmaRegionRecord.cpu_end r - XhciDmaRegionRecord.cpu_start r) PAGE_SIZE) as [Hl|Hl];
    cbn [negb orb]; wp_simpl; unfold PAGE_SIZE in *; [|apply Hbad; [done|]; intros [[_ _ ? _ _ _] _]; lia].
  destruct (Z.eqb_spec (XhciDmaRegionRecord.device_address_start r mod 4096) 0); cbn [negb]; wp_simpl;
    [|apply Hbad; [done|]; by intros [[_ _ _ _ ? _] _]].
  unfold checked_add. destruct (Z.ltb_spec (XhciDmaRegionRecord.device_address_start r + 4096) (2 ^ 64)); wp_simpl;
    [|apply Hbad; [done|]; intros [[_ _ _ _ _ [? ?]] _]; lia].
  destruct (Z.eqb_spec (XhciDmaRegionRecord.device_address_start r + 4096) (XhciDmaRegionRecord.device_address_end r));
    cbn [negb]; wp_simpl; [|apply Hbad; [done|]; intros [[_ _ _ _ _ [? ?]] _]; lia].
  split; [done|]. split; [split; try done; lia|]. split; [done|]. split; [done|].
  intros x ->. destruct (Z.eqb_spec x (XhciDmaRegionRecord.generation r)); done.
Qed.

(** Storages with the same regions and, but for [p], the same bytes. *)
Record only_region (p : XhciDmaPurpose) (s s' : S) : Prop := {
  or_sane : sane s';
  or_region : ∀ q, region s' q = region s q;
  or_other : ∀ q, q ≠ p → contents s' q = contents s q;
  or_length : ∀ q, length (contents s' q) = length (contents s q);
}.

Lemma only_region_store p s off bs Q (R : XhciRingError E → S → Prop) :
  sane s → bytes_ok bs → ready s p → bs ≠ [] → (off + length bs <= length (contents s p))%nat →
  (∀ s', only_region p s s' → contents s' p = splice off bs (contents s p) → Q () s') →
  wp (store_bytes p (Z.of_nat off) bs) Q R s.
Proof.
  intros Hs Hb Hrd Hne Hbd HQ. unfold store_bytes. wp_simpl.
  eapply wp_mono; [apply (write_law s p (Z.of_nat off) bs Hs); [lia|done]|..]; cbv beta.
  - rewrite Nat2Z.id. intros [] s' (Hs' & Hr & Hl & Hc). apply HQ; [|by rewrite Hc, decide_True].
    split; [done|done|..].
    + intros q Hq. by rewrite Hc, decide_False.
    + intros q. rewrite Hc. case_decide; [subst; by apply length_splice|done].
  - rewrite Nat2Z.id. by intros e s' [-> []].
Qed.

Lemma only_region_ready p q s s' : only_region p s s' → ready s q → ready s' q.
Proof. intros Ho (r & Hr & Hp). exists r. by rewrite (or_region _ _ _ Ho). Qed.

Lemma only_region_trans p s1 s2 s3 : only_region p s1 s2 → only_region p s2 s3 → only_region p s1 s3.
Proof.
  intros [] []. split; [done|congruence| |congruence]. intros q Hq. by rewrite or_other1, or_other0.
Qed.

Lemma zero_encoding : RawTrb.encode RawTrb.ZERO = replicate 16 0.
Proof. done. Qed.

Lemma zero_ring_ok p s (R : XhciRingError E → S → Prop) :
  sane s → ready s p → length (contents s p) = 4096%nat →
  wp (zero_ring p) (λ _ s', only_region p s s' ∧ contents s' p = replicate 4096 0) R s.
Proof.
  intros Hs Hrd Hl. unfold zero_ring. change TRBS_PER_PAGE with 256.
  apply (wp_for_range (λ i s', 0 <= i ∧ only_region p s s' ∧
    ∀ j, (j < 16 * Z.to_nat i)%nat → contents s' p !! j = Some 0)).
  - split; [done|]. split; [by split|]. intros; lia.
  - intros i s' Hi (_ & Ho & Hz). change TRB_BYTES with 16. wp_simpl. apply wp_mul; [lia|]. wp_simpl.
    rewrite zero_encoding. replace (i * 16) with (Z.of_nat (16 * Z.to_nat i)) by lia.
    pose proof (or_length _ _ _ Ho p) as Hlp.
    assert (Hl2 : (16 * Z.to_nat i + length (replicate 16 0%Z) <= length (contents s' p))%nat) by (rewrite length_replicate; lia).
    apply only_region_store; [apply Ho|by apply Forall_replicate|by eapply only_region_ready|done|done|].
    intros s2 Ho2 Hc. split; [lia|]. split; [by eapply only_region_trans|]. intros j Hj.
    rewrite Hc, lookup_splice by done. rewrite length_replicate in *. case_decide.
    + rewrite lookup_replicate. split; [done|lia].
    + apply Hz. lia.
  - intros s' (_ & Ho & Hz). split; [done|]. apply list_eq. intros j.
    pose proof (or_length _ _ _ Ho p) as Hl'. rewrite Hl in Hl'. destruct (Nat.lt_ge_cases j 4096).
    + rewrite Hz by lia. symmetry. apply lookup_replicate. split; [done|lia].
    + rewrite !lookup_ge_None_2; [done|rewrite length_replicate; lia|lia].
Qed.

Lemma cycle_bit_zero i : (16 * i + 16 <= 4096)%nat → cycle_bit (window (16 * i) 16 (replicate 4096 0)) = false.
Proof.
  intros Hi. unfold cycle_bit. rewrite lookup_window, decide_True by lia.
  by rewrite lookup_replicate_2 by lia.
Qed.

Lemma fresh_queue base mem :
  length mem = 4096%nat → (∀ i, (i < 16 * 255)%nat → mem !! i = Some 0) → ring_queue base mem 0 0.
Proof.
  intros Hl Hz. split; [lia|lia|lia| |lia]. intros n Hn. unfold place, phase, lap.
  rewrite Nat.mod_small, Nat.div_small by lia. cbn [Nat.even].
  replace (window (16 * n) 16 mem) with (window (16 * n) 16 (replicate 4096 0)); [by rewrite cycle_bit_zero by lia|].
  apply list_eq. intros j. rewrite !lookup_window. case_decide; [|done].
  by rewrite Hz, lookup_replicate_2 by lia.
Qed.

Definition apart (l r : XhciDmaRegionRecord.t) : Prop :=
  XhciDmaRegionRecord.device_address_end l <= XhciDmaRegionRecord.device_address_start r ∨
  XhciDmaRegionRecord.device_address_end r <= XhciDmaRegionRecord.device_address_start l.

Lemma overlaps_apart l r : if overlaps l r then ¬ apart l r else apart l r.
Proof.
  unfold overlaps, apart. destruct (Z.ltb_spec (XhciDmaRegionRecord.device_address_start l)
    (XhciDmaRegionRecord.device_address_end r)); cbn [andb]; [|lia].
  destruct (Z.ltb_spec (XhciDmaRegionRecord.device_address_start r) (XhciDmaRegionRecord.device_address_end l)); lia.
Qed.

(** A storage in which the rings can be laid out. *)
Definition fit (expected : option Z) (s : S) : Prop :=
  ∃ c e t, valid s CommandRing expected c ∧
    valid s EventRing (Some (XhciDmaRegionRecord.generation c)) e ∧
    valid s EventRingSegmentTable (Some (XhciDmaRegionRecord.generation c)) t ∧
    apart c e ∧ apart c t ∧ apart e t.

Lemma valid_eq s p g g' r r' : valid s p g r → valid s p g' r' → r = r'.
Proof. intros [[Hr _ _ _ _ _] _] [[Hr' _ _ _ _ _] _]. congruence. Qed.

(** The entry of the event ring segment table. *)
Definition erst_entry (event_base : Z) : list Z := le_bytes 8 event_base ++ le_bytes 4 256 ++ replicate 4 0.

(** What an initialisation leaves: three usable regions that are apart, an empty
    command ring closed by its link block, an event ring without events and the
    table that names it. *)
Record initialized (expected : option Z) (s : S) (m : XhciRingMachine.t) (s' : S) : Prop := {
  in_regions : ∃ c e t, usable s CommandRing c ∧ usable s EventRing e ∧ usable s EventRingSegmentTable t ∧
    apart c e ∧ apart c t ∧ apart e t ∧
    XhciDmaRegionRecord.generation c = generation m ∧ XhciDmaRegionRecord.generation e = generation m ∧
    XhciDmaRegionRecord.generation t = generation m ∧
    command_device_base m = XhciDmaRegionRecord.device_address_start c ∧
    event_device_base m = XhciDmaRegionRecord.device_address_start e ∧
    erst_device_base m = XhciDmaRegionRecord.device_address_start t;
  in_generation : ∀ g, expected = Some g → generation m = g;
  in_ring : ring_at m s' 0 0;
  in_idle : outstanding m = None ∧ event_index m = 0 ∧ event_cycle m = true;
  in_same : ∀ q, region s' q = region s q ∧ length (contents s' q) = length (contents s q);
  in_link : window (16 * 255) 16 (contents s' CommandRing) = RawTrb.encode (link (command_device_base m) true);
  in_events : contents s' EventRing = replicate 4096 0;
  in_erst : take 16 (contents s' EventRingSegmentTable) = erst_entry (event_device_base m);
}.

(** The writes of an initialisation, once the regions are validated. *)
Lemma layout_ok command_base event_base s :
  sane s → u64 command_base →
  (∀ q, q = CommandRing ∨ q = EventRing ∨ q = EventRingSegmentTable →
     length (contents s q) = 4096%nat ∧ ready s q) →
  wp (zero_ring CommandRing ;; zero_ring EventRing ;; write_link command_base true ;; write_erst event_base)
    (λ _ s', sane s' ∧ (∀ q, region s' q = region s q ∧ length (contents s' q) = length (contents s q)) ∧
       ring_queue command_base (contents s' CommandRing) 0 0 ∧
       window (16 * 255) 16 (contents s' CommandRing) = RawTrb.encode (link command_base true) ∧
       contents s' EventRing = replicate 4096 0 ∧ take 16 (contents s' EventRingSegmentTable) = erst_entry event_base)
    (λ _ _, False) s.
Proof.
  intros Hs Hu Hl. wp_simpl.
  eapply wp_mono; [apply (zero_ring_ok _ _ (λ _ _, False)); [done|by apply Hl; left|by apply Hl; left]| |done].
  cbv beta. intros _ s1 (Ho1 & Hc1). wp_simpl.
  pose proof (or_length _ _ _ Ho1) as Hl1.
  eapply wp_mono; [apply (zero_ring_ok _ _ (λ _ _, False)); [apply Ho1|eapply only_region_ready; [done|apply Hl; auto]|rewrite Hl1; by apply Hl; right; left]| |done].
  cbv beta. intros _ s2 (Ho2 & Hc2). wp_simpl.
  pose proof (or_length _ _ _ Ho2) as Hl2. pose proof (or_other _ _ _ Ho2 CommandRing ltac:(done)) as Hcr2.
  unfold write_link. fold (link command_base true). change (COMMAND_LINK_INDEX * TRB_BYTES) with (Z.of_nat (16 * 255)).
  destruct (link_ok command_base true Hu) as (Hok & Hcy & _).
  eapply wp_mono; [apply publish_ok; [apply Ho2|done|done|done|rewrite Hl2, Hl1; destruct (Hl CommandRing); auto; lia]| |].
  2:{ intros e s3 (_ & _ & _ & Hno). apply Hno. eapply only_region_ready; [done|].
      eapply only_region_ready; [done|]. apply Hl. auto. }
  cbv beta. intros _ s3 (Hb3 & Hw3). wp_simpl. unfold write_erst. change 0 with (Z.of_nat 0) at 1.
  pose proof (ob_other _ _ _ _ Hb3) as Hq3. pose proof (ob_length _ _ _ _ Hb3) as Hl3.
  assert (Hlen : ∀ q, length (contents s3 q) = length (contents s q)).
  { intros q. destruct (decide (q = CommandRing)) as [->|]; [by rewrite Hl3, Hl2, Hl1|]. by rewrite Hq3, Hl2, Hl1. }
  apply only_region_store; [apply Hb3| | |done|rewrite Hlen; destruct (Hl EventRingSegmentTable) as [-> _]; auto; cbn; lia|].
  2:{ eapply only_block_ready, only_region_ready, only_region_ready; [done..|]. apply Hl. auto. }
  { apply Forall_app_2; [apply le_bytes_ok|]. apply Forall_app_2; [apply le_bytes_ok|by apply Forall_replicate]. }
  intros s4 Ho4 Hc4. pose proof (or_other _ _ _ Ho4) as Hq4. pose proof (or_length _ _ _ Ho4) as Hl4.
  split; [apply Ho4|]. split; [|split; [|split; [|split]]].
  - intros q. split; [|by rewrite Hl4, Hlen].
    by rewrite (or_region _ _ _ Ho4), (ob_region _ _ _ _ Hb3), (or_region _ _ _ Ho2), (or_region _ _ _ Ho1).
  - apply fresh_queue; [rewrite Hl4, Hlen; apply Hl; auto|]. intros i Hi. rewrite Hq4 by done.
    rewrite (ob_outside _ _ _ _ Hb3) by lia. rewrite Hcr2, Hc1. apply lookup_replicate_2. lia.
  - by rewrite Hq4.
  - by rewrite Hq4, Hq3, Hc2 by done.
  - rewrite Hc4. unfold splice. by rewrite take_0, app_nil_l, take_app_length'.
Qed.

Lemma wp_group {A} (a b c d : M S (XhciRingError E) unit) (k : M S (XhciRingError E) A) Q R s :
  wp (a ;; b ;; c ;; d) (λ _ s', wp k Q R s') R s → wp (a ;; b ;; c ;; d ;; k) Q R s.
Proof.
  unfold wp, mbind, M_bind. destruct (a s) as [[] s1| |]; [|done..]. destruct (b s1) as [[] s2| |]; [|done..].
  destruct (c s2) as [[] s3| |]; [|done..]. by destruct (d s3) as [[] s4| |].
Qed.

Lemma validated_then {A} p g s (k : XhciDmaRegionRecord.t → M S (XhciRingError E) A) Q (R : XhciRingError E → S → Prop) :
  sane s → (∀ r, valid s p g r → wp (k r) Q R s) →
  (∀ e, geometry_error e → (∀ r, ¬ valid s p g r) → R e s) → wp (validated_region p g ≫= k) Q R s.
Proof.
  intros Hs HQ HR. wp_simpl. eapply wp_mono; [by apply validated_ok|..]; cbv beta.
  - intros r s' [-> Hv]. by apply HQ.
  - intros e s' (-> & He & Hn). by apply HR.
Qed.

Lemma generation_ok expected c s (Q : unit → S → Prop) (R : XhciRingError E → S → Prop) :
  let g := XhciDmaRegionRecord.generation c in
  valid s CommandRing None c → (valid s CommandRing expected c → Q () s) →
  (∀ x, (∀ r, ¬ valid s CommandRing expected r) → R (GenerationMismatch x g) s) →
  wp (match expected with
      | Some x => if negb (x =? g) then throw (GenerationMismatch x g) else mret ()
      | None => mret ()
      end) Q R s.
Proof.
  intros g Hv HQ HR. destruct expected as [x|]; wp_simpl; [|by apply HQ].
  destruct (Z.eqb_spec x g) as [Hx|Hx]; cbn [negb]; wp_simpl.
  - apply HQ. destruct Hv as (? & ? & ? & _). repeat (split; [done|]). intros y [= <-]. by symmetry.
  - apply HR. intros r Hr. rewrite <- (valid_eq _ _ _ _ _ _ Hv Hr) in Hr. destruct Hr as (_ & _ & _ & Hr).
    by specialize (Hr x eq_refl).
Qed.

(** The writes of an initialisation over valid regions. *)
Lemma lay_out_ok expected c e t root s :
  sane s → valid s CommandRing expected c →
  valid s EventRing (Some (XhciDmaRegionRecord.generation c)) e →
  valid s EventRingSegmentTable (Some (XhciDmaRegionRecord.generation c)) t →
  apart c e → apart c t → apart e t →
  let cb := XhciDmaRegionRecord.device_address_start c in
  let eb := XhciDmaRegionRecord.device_address_start e in
  let m := mk (XhciDmaRegionRecord.generation c) cb eb (XhciDmaRegionRecord.device_address_start t)
    0 true 0 true 1 None root in
  wp (zero_ring CommandRing ;; zero_ring EventRing ;; write_link cb true ;; write_erst eb)
    (λ _ s', initialized expected s m s') (λ _ _, False) s.
Proof.
  intros Hs (Hc & _ & _ & Hgc) (He & _ & _ & Hge) (Ht & _ & _ & Hgt) Hce Hct Het cb eb m.
  assert (Hcb : 0 <= cb ∧ cb + 4096 < 2 ^ 64) by (destruct Hc as [_ _ _ ? _ [? ?]]; unfold cb; lia).
  assert (Heb : 0 <= eb ∧ eb + 4096 < 2 ^ 64) by (destruct He as [_ _ _ ? _ [? ?]]; unfold eb; lia).
  eapply wp_mono; [apply layout_ok; [done|unfold in_width; lia|]| |done].
  { intros q [->|[->| ->]]; (split; [apply Hc || apply He || apply Ht|]);
      eexists; split; (apply Hc || apply He || apply Ht). }
  cbv beta. intros _ s' (Hs' & Hsame & Hq & Hlink & Hev & Her).
  split; cbn [m generation command_device_base event_device_base erst_device_base outstanding event_index event_cycle];
    try done.
  exists c, e, t. rewrite (Hge _ eq_refl), (Hgt _ eq_refl). repeat (split; [done|]). done.
Qed.

Lemma initialize_inner_ok secret expected s :
  sane s →
  wp (initialize_inner secret expected)
    (λ m s', secret ≠ 0 ∧ fit expected s ∧ initialized expected s m s')
    (λ e s', geometry_error e ∧ s' = s ∧ (secret = 0 ∨ ¬ fit expected s)) s.
Proof.
  intros Hs. unfold initialize_inner. destruct (Z.eqb_spec secret 0) as [|Hsec]; wp_simpl.
  { split; [done|]. split; [done|by left]. }
  assert (Hbad : ∀ e, geometry_error e → ¬ fit expected s → geometry_error e ∧ s = s ∧ (secret = 0 ∨ ¬ fit expected s)) by auto.
  rewrite <- wp_bind. apply validated_then; [done| |].
  2:{ intros e He Hn. apply Hbad; [done|]. intros (c & _ & _ & (Hc & Hp & Hk & _) & _). by apply (Hn c). }
  intros c Hvc0. cbv zeta. rewrite wp_bind. apply generation_ok; [done| |].
  2:{ intros x Hn. apply Hbad; [done|]. intros (c' & _ & _ & Hc' & _). by apply (Hn c'). }
  intros Hvc. clear Hvc0. apply validated_then; [done| |].
  2:{ intros e He Hn. apply Hbad; [done|]. intros (c' & e' & _ & Hc' & He' & _).
      rewrite <- (valid_eq _ _ _ _ _ _ Hvc Hc') in He'. by apply (Hn e'). }
  intros e Hve. apply validated_then; [done| |].
  2:{ intros x Hx Hn. apply Hbad; [done|]. intros (c' & e' & t' & Hc' & _ & Ht' & _).
      rewrite <- (valid_eq _ _ _ _ _ _ Hvc Hc') in Ht'. by apply (Hn t'). }
  intros t Hvt.
  assert (Hap : fit expected s → apart c e ∧ apart c t ∧ apart e t).
  { intros (c' & e' & t' & Hc' & He' & Ht' & ?). by rewrite (valid_eq _ _ _ _ _ _ Hvc Hc'),
      (valid_eq _ _ _ _ _ _ Hve He'), (valid_eq _ _ _ _ _ _ Hvt Ht'). }
  pose proof (overlaps_apart c e) as Hce. pose proof (overlaps_apart c t) as Hct. pose proof (overlaps_apart e t) as Het.
  destruct (overlaps c e); cbn [orb]; [apply Hbad; [done|]; naive_solver|].
  destruct (overlaps c t); cbn [orb]; [apply Hbad; [done|]; naive_solver|].
  destruct (overlaps e t); [apply Hbad; [done|]; naive_solver|]. clear Hap Hbad.
  apply wp_group. eapply wp_mono; [by eapply lay_out_ok| |done].
  cbv beta. intros _ s' Hi. split; [done|]. split; [by exists c, e, t|exact Hi].
Qed.

End machine.

End XhciRingQueue.
