(* ===== verification/XhciRingProperties.v ===== *)
(** * The guarantees of the xHCI rings

    Over every run of the machine, the controller and the storage they share: the
    command ring is a queue, completions are correlated exactly, and the machine
    decides every call; a publication is never seen half done; TRBs survive their
    encoding; and the arena that the driver builds can always host the rings. *)
From S2P Require Import Prelude Bytes Paging Memory Frame ServiceCalculus XhciDma XhciDmaFacts XhciDmaBuild XhciDmaStages XhciDmaProperties XhciRing XhciRingFacts XhciRingRuns XhciRingQueue.

Module XhciRingHistory.
Import TrbFacts Publication XhciRingMachine XhciRingQueue.

Section history.
Context {S E : Type} `{XhciRingStorageLaws S E}.

(** ** Runs *)

(** The machine and the storage, the controller's place in the command ring, and
    what was submitted, fetched and completed so far. *)
Record run := Run {
  machine : XhciRingMachine.t;
  storage : S;
  place_of : nat * bool;
  sent : list XhciNoOpCommandReceipt.t;
  fetched : list (RawTrb.t * Z);
  completed : list XhciCommandCompletionEvidence.t;
}.

Definition commands (x : run) : list Z := contents (storage x) CommandRing.
Definition next_command (x : run) : option (RawTrb.t * Z * (nat * bool)) :=
  fetch (command_device_base (machine x)) (commands x) (place_of x).

(** The driver's calls, the controller's fetches, and the writes of the device: they
    reach every region but the command ring, which the controller only reads. *)
Inductive step : run → run → Prop :=
| step_submitted x r m s :
    submit_no_op (machine x, storage x) = Done r (m, s) →
    step x (Run m s (place_of x) (sent x ++ [r]) (fetched x) (completed x))
| step_refused x e m s :
    submit_no_op (machine x, storage x) = Fail e (m, s) →
    step x (Run m s (place_of x) (sent x) (fetched x) (completed x))
| step_polled x r o m s :
    poll_no_op_completion r (machine x, storage x) = Done o (m, s) →
    step x (Run m s (place_of x) (sent x) (fetched x) (completed x ++ option_list o))
| step_poll_refused x r e m s :
    poll_no_op_completion r (machine x, storage x) = Fail e (m, s) →
    step x (Run m s (place_of x) (sent x) (fetched x) (completed x))
| step_fetch x t a p :
    next_command x = Some (t, a, p) →
    step x (Run (machine x) (storage x) p (sent x) (fetched x ++ [(t, a)]) (completed x))
| step_device x s :
    sane s → (∀ q, region s q = region (storage x) q ∧ length (contents s q) = length (contents (storage x) q)) →
    contents s CommandRing = commands x →
    step x (Run (machine x) s (place_of x) (sent x) (fetched x) (completed x)).

(** The assumption on the controller: an event that completes the outstanding command
    appears where the machine looks only once every command sent was fetched.  A
    controller that forged one earlier would let the driver overtake its fetches. *)
Definition fetched_first (x : run) : Prop :=
  ∀ r, outstanding (machine x) = Some (outstanding_for r) →
    completes (machine x) r (event_block (machine x) (storage x)) → length (fetched x) = length (sent x).

(** The steps of the system with such a controller. *)
Definition faithful_step (x x' : run) : Prop := fetched_first x ∧ step x x'.

Definition start (m : XhciRingMachine.t) (s : S) : run := Run m s (0%nat, true) [] [] [].

(** ** What holds at every point of a run *)

(** The command that a receipt is for, as the controller receives it. *)
Definition delivery (r : XhciNoOpCommandReceipt.t) : RawTrb.t * Z :=
  (noop (XhciNoOpCommandReceipt.producer_cycle r), XhciNoOpCommandReceipt.command_device_address r).

Record receipt_at (base : Z) (k : nat) (r : XhciNoOpCommandReceipt.t) : Prop := {
  ra_sequence : XhciNoOpCommandReceipt.sequence r = Z.of_nat k + 1;
  ra_delivery : delivery r = (noop (phase k), base + 16 * Z.of_nat (place k));
}.

Record run_ok (x : run) : Prop := {
  ro_ring : ring_at (machine x) (storage x) (length (sent x)) (length (fetched x));
  ro_place : at_position (length (fetched x)) (place_of x);
  ro_behind : (length (sent x) <= length (fetched x) + 1)%nat;
  ro_sent : ∀ k r, sent x !! k = Some r → receipt_at (command_device_base (machine x)) k r;
  ro_fetched : fetched x = map delivery (take (length (fetched x)) (sent x));
  ro_completed : map XhciCommandCompletionEvidence.sequence (completed x)
    = map XhciNoOpCommandReceipt.sequence (take (length (completed x)) (sent x));
  ro_count : (length (completed x) <= length (fetched x))%nat;
  ro_outstanding :
    match outstanding (machine x) with
    | None => length (completed x) = length (sent x)
    | Some o => length (sent x) = Datatypes.S (length (completed x)) ∧
                ∃ r, last (sent x) = Some r ∧ o = outstanding_for r
    end;
  ro_ready : ready (storage x) CommandRing ∧ ready (storage x) EventRing ∧
    (4096 <= length (contents (storage x) EventRing))%nat;
}.

Lemma outstanding_for_inj r r' : outstanding_for r = outstanding_for r' → r = r'.
Proof. destruct r, r'. unfold outstanding_for. cbn. by intros [=]; subst. Qed.

Lemma receipt_for_at m N : machine_at m N → receipt_at (command_device_base m) N (receipt_for m).
Proof.
  intros [_ Hi Hc [Hs _] _ _]. split; [exact Hs|]. unfold delivery, receipt_for. cbv zeta.
  cbn [XhciNoOpCommandReceipt.producer_cycle XhciNoOpCommandReceipt.command_device_address]. rewrite Hc, Hi.
  f_equal. lia.
Qed.

Lemma ready_same s s' p : (∀ q, region s' q = region s q) → ready s p → ready s' p.
Proof. intros Hr (r & Hrg & Hp). exists r. by rewrite Hr. Qed.

(** Before a submission everything sent was fetched and completed. *)
Lemma idle_counts x :
  run_ok x → outstanding (machine x) = None →
  length (fetched x) = length (sent x) ∧ length (completed x) = length (sent x).
Proof.
  intros Hx Ho. pose proof (ro_outstanding _ Hx) as Hc. rewrite Ho in Hc.
  destruct (ro_ring _ Hx) as (_ & _ & Hq). pose proof (rq_count _ _ _ _ Hq). pose proof (ro_count _ Hx). lia.
Qed.

Lemma submitted_ok x r m s :
  run_ok x → submit_no_op (machine x, storage x) = Done r (m, s) →
  run_ok (Run m s (place_of x) (sent x ++ [r]) (fetched x) (completed x)).
Proof.
  intros Hx Hsub. pose proof Hx as [Hring Hpl Hbe Hsent Hf Hcm Hct Hout Hrd].
  pose proof (submit_ok _ _ _ _ Hring ltac:(lia)) as Hwp. apply (wp_Done _ _ _ _ _ _ Hwp) in Hsub.
  destruct Hsub as (Hidle & -> & Hm & Hring' & [Hreg Hoth]). cbn [fst snd] in *. subst m.
  destruct (idle_counts x Hx Hidle) as [HCN HKN].
  assert (Htake : ∀ n, (n <= length (sent x))%nat → take n (sent x ++ [receipt_for (machine x)]) = take n (sent x))
    by (intros; by apply take_app_le).
  split; cbn [machine storage place_of sent fetched completed]; rewrite ?length_app, ?Nat.add_1_r; try done; try lia.
  - change (command_device_base (submitted (machine x))) with (command_device_base (machine x)).
    intros k r Hk. apply lookup_snoc_Some in Hk as [[_ Hk]|[-> <-]]; [by apply Hsent|].
    apply receipt_for_at. apply Hring.
  - by rewrite Htake by lia.
  - by rewrite Htake by lia.
  - cbn [submitted outstanding]. split; [lia|]. exists (receipt_for (machine x)). by rewrite last_snoc.
  - destruct Hrd as (Hr1 & Hr2 & Hlen). split; [by eapply ready_same|]. split; [by eapply ready_same|]. by rewrite Hoth.
Qed.

Lemma refused_ok x e m s :
  run_ok x → submit_no_op (machine x, storage x) = Fail e (m, s) →
  run_ok (Run m s (place_of x) (sent x) (fetched x) (completed x)).
Proof.
  intros Hx Hsub. pose proof Hx as [Hring Hpl Hbe Hsent Hf Hcm Hct Hout Hrd].
  pose proof (submit_ok _ _ _ _ Hring ltac:(lia)) as Hwp. apply (wp_Fail _ _ _ _ _ _ Hwp) in Hsub.
  destruct Hsub as (Hm & Hring' & [Hreg Hoth] & _ & _). cbn [fst snd] in *. subst m.
  split; cbn [machine storage place_of sent fetched completed]; try done.
  destruct Hrd as (Hr1 & Hr2 & Hlen). split; [by eapply ready_same|]. split; [by eapply ready_same|]. by rewrite Hoth.
Qed.

Lemma polled_ok x r o m s :
  run_ok x → fetched_first x → poll_no_op_completion r (machine x, storage x) = Done o (m, s) →
  run_ok (Run m s (place_of x) (sent x) (fetched x) (completed x ++ option_list o)).
Proof.
  intros Hx Hfirst Hpoll. pose proof Hx as [Hring Hpl Hbe Hsent Hf Hcm Hct Hout Hrd].
  pose proof Hring as (Hs & Hm & Hq). pose proof (poll_ok _ _ _ r Hs Hm) as Hwp.
  apply (wp_Done _ _ _ _ _ _ Hwp) in Hpoll. destruct Hpoll as (Hst & Ho & Hcase). cbn [fst snd] in *. subst s.
  destruct o as [ev|]; cbn [option_list].
  2:{ destruct Hcase as [-> _]. rewrite app_nil_r. by destruct x. }
  change (option_list (Some ev)) with [ev]. destruct Hcase as (-> & Hcom & Hev). rewrite Ho in Hout. destruct Hout as [HN (r' & Hlast & Hr')].
  apply outstanding_for_inj in Hr' as <-. specialize (Hfirst r Ho Hcom).
  assert (HsK : sent x !! length (completed x) = Some r).
  { rewrite last_lookup in Hlast. rewrite HN in Hlast. done. }
  split; cbn [machine storage place_of sent fetched completed]; rewrite ?length_app; cbn [length]; try done; try lia.
  - split; [done|]. split; [by apply consumed_at|done].
  - rewrite map_app, Hcm, Nat.add_1_r, (take_S_r _ _ r) by done. rewrite map_app. f_equal. cbn.
    destruct Hev as (_ & -> & _). done.
  - cbn [consumed outstanding]. lia.
Qed.

Lemma poll_refused_ok x r e m s :
  run_ok x → poll_no_op_completion r (machine x, storage x) = Fail e (m, s) →
  run_ok (Run m s (place_of x) (sent x) (fetched x) (completed x)).
Proof.
  intros Hx Hpoll. destruct (ro_ring _ Hx) as (Hs & Hm & _). pose proof (poll_ok _ _ _ r Hs Hm) as Hwp.
  apply (wp_Fail _ _ _ _ _ _ Hwp) in Hpoll. destruct Hpoll as [[= -> ->] _]. by destruct x.
Qed.

Lemma next_command_ok x :
  run_ok x →
  next_command x = next_fetch (command_device_base (machine x)) (length (sent x)) (length (fetched x)).
Proof.
  intros Hx. destruct (ro_ring _ Hx) as (_ & Hm & Hq). destruct (ma_base _ _ Hm).
  apply fetch_queue; [unfold in_width; lia|done|apply Hx].
Qed.

Lemma fetch_ok x t a p :
  run_ok x → next_command x = Some (t, a, p) →
  run_ok (Run (machine x) (storage x) p (sent x) (fetched x ++ [(t, a)]) (completed x)).
Proof.
  intros Hx Hn. rewrite (next_command_ok x Hx) in Hn. pose proof Hx as [(Hs & Hm & Hq) Hpl Hbe Hsent Hf Hcm Hct Hout Hrd].
  unfold next_fetch in Hn. case_decide as Hlt; [|done]. injection Hn as <- <- <-.
  destruct (fetched_queue _ _ _ _ Hq Hlt) as [Hq' Hp'].
  destruct (lookup_lt_is_Some_2 (sent x) (length (fetched x)) Hlt) as [r Hr].
  split; cbn [machine storage place_of sent fetched completed]; rewrite ?length_app; cbn [length];
    rewrite ?Nat.add_1_r; try done; try lia.
  rewrite (take_S_r _ _ r) by done. rewrite map_app, <- Hf. f_equal. cbn. f_equal.
  symmetry. by destruct (Hsent _ _ Hr).
Qed.

Lemma device_ok x s :
  run_ok x → sane s →
  (∀ q, region s q = region (storage x) q ∧ length (contents s q) = length (contents (storage x) q)) →
  contents s CommandRing = commands x →
  run_ok (Run (machine x) s (place_of x) (sent x) (fetched x) (completed x)).
Proof.
  intros [(Hs & Hm & Hq) Hpl Hbe Hsent Hf Hcm Hct Hout (Hr1 & Hr2 & Hlen)] Hs' Hsame Hcmd.
  split; cbn [machine storage place_of sent fetched completed]; try done.
  - split; [done|]. split; [done|]. by rewrite Hcmd.
  - split; [eapply ready_same; [|done]; apply Hsame|]. split; [eapply ready_same; [|done]; apply Hsame|].
    destruct (Hsame EventRing) as [_ ->]. done.
Qed.

Lemma ring_step_ok x x' : faithful_step x x' → run_ok x → run_ok x'.
Proof.
  intros [Hfirst Hst] Hx. revert Hfirst Hx. destruct Hst; intros Hfirst Hx;
    [by apply submitted_ok|by eapply refused_ok|by eapply polled_ok|by eapply poll_refused_ok|by apply fetch_ok|
    by apply device_ok].
Qed.

Lemma ring_start_ok secret g m s s0 :
  sane s0 → initialize_inner secret g s0 = Done m s → run_ok (start m s).
Proof.
  intros Hs Hi. apply (wp_Done _ _ _ _ _ _ (initialize_inner_ok secret g s0 Hs)) in Hi as (_ & _ & Hi).
  destruct (in_regions _ _ _ _ Hi) as (c & e & t & Hc & He & _).
  split; cbn [start machine storage place_of sent fetched completed length]; try done.
  - apply Hi.
  - by left.
  - lia.
  - by rewrite (proj1 (in_idle _ _ _ _ Hi)).
  - split; [exists c; rewrite (proj1 (in_same _ _ _ _ Hi CommandRing)); split; apply Hc|].
    split; [exists e; rewrite (proj1 (in_same _ _ _ _ Hi EventRing)); split; apply He|].
    rewrite (proj2 (in_same _ _ _ _ Hi EventRing)), (us_length _ _ _ He). done.
Qed.

Lemma sequences_distinct x : run_ok x → NoDup (map XhciNoOpCommandReceipt.sequence (sent x)).
Proof.
  intros Hx. apply NoDup_alt. intros i j y Hi Hj.
  apply list_lookup_fmap_Some in Hi as (r & -> & Hr), Hj as (r' & Heq & Hr').
  pose proof (ra_sequence _ _ _ (ro_sent _ Hx _ _ Hr)). pose proof (ra_sequence _ _ _ (ro_sent _ Hx _ _ Hr')). lia.
Qed.

Lemma run_reachable secret g m s s0 x :
  sane s0 → initialize_inner secret g s0 = Done m s → rtc faithful_step (start m s) x → run_ok x.
Proof. intros Hs Hi Hr. eapply (rtc_invariant faithful_step run_ok); [apply ring_step_ok|exact Hr|by eapply ring_start_ok]. Qed.

End history.
End XhciRingHistory.

(** ** The arena as a host *)

Module ArenaHost.
Import XhciDmaArena XhciDmaRegionRecord ArenaBytes ArenaFrames ArenaStages ArenaAssembly ArenaLaws XhciRingQueue Runs.

Lemma furnished_device_apart a r r' :
  furnished a r → furnished a r' → (∀ j, holds r j = true → holds r' j = false) → apart r r'.
Proof.
  intros Hf Hf' Hd. destruct (furnished_frames a r Hf) as (_ & _ & H0 & Hn & Hp & Hdv).
  destruct (furnished_frames a r' Hf') as (_ & _ & H0' & Hn' & Hp' & Hdv').
  destruct Hf as (c & _ & _ & Hr & Hst & _), Hf' as (c' & _ & _ & Hr' & Hst' & _).
  assert (He : device_address_end r = device_address_start r + page_count r * PAGE_SIZE) by by rewrite Hr.
  assert (He' : device_address_end r' = device_address_start r' + page_count r' * PAGE_SIZE) by by rewrite Hr'.
  unfold holds in Hd. rewrite Hst, Hst' in Hd. cbn [negb andb] in Hd.
  unfold apart, PAGE_SIZE in *. destruct (covers_apart r r' Hn Hn' Hd); lia.
Qed.

Section assembled.
Context (a0 : XhciDmaArena.t) (f0 : BitmapFrameAllocator.t) (m0 : gmap Z Z) (s : system).
Context (Hb : 0 <= IdentityDma.direct_map_base (identity a0)) (Ha : assembled a0 f0 m0 s).
Context (Hready : Forall (λ r, XhciDmaRegionRecord.phase r = Ready) (owned (fst s))).

Lemma assembled_base p k :
  (k < 4)%nat → base_plan !! k = Some (p, 1) →
  ∃ r, XhciDmaArena.region (fst s) p = Some r ∧ r ∈ owned (fst s) ∧ page_count r = 1.
Proof.
  intros Hk Hp. apply (planned_region _ (scratchpad_count a0) k); [apply Ha|]. unfold plan.
  by rewrite lookup_app_l by (cbn; lia).
Qed.

Lemma assembled_valid p k g :
  (k < 4)%nat → base_plan !! k = Some (p, 1) → (∀ x, g = Some x → x = IdentityDma.generation (identity (fst s))) →
  ∃ r, valid s p g r ∧ r ∈ owned (fst s) ∧ XhciDmaRegionRecord.generation r = IdentityDma.generation (identity (fst s)).
Proof.
  intros Hk Hp Hg. destruct (assembled_base p k Hk Hp) as (r & Hr & Hin & Hpc). exists r.
  pose proof (proj1 (Forall_forall _ _) (as_made _ _ _ _ Ha) r Hin) as Hf.
  pose proof (XhciDmaClaims.assembled_current _ _ _ _ _ _ Ha Hr) as Hgen.
  destruct (furnished_frames a0 r Hf) as (Hcs & Hce & H0 & Hn & Hps & Hdv).
  destruct Hf as (c & _ & _ & Heq & _ & [_ _ _ Hw]).
  assert (He : device_address_end r = device_address_start r + page_count r * PAGE_SIZE) by by rewrite Heq.
  split; [|done]. split; [|split; [by apply region_elem in Hr as [_ ?]|split; [done|intros x Hx; rewrite Hgen; symmetry; by apply Hg]]].
  unfold PAGE_SIZE in *. split.
  - exact Hr.
  - by apply (proj1 (Forall_forall _ _) Hready).
  - cbn [contents arena_laws]. unfold arena_contents. rewrite Hr. unfold bytes_of. rewrite length_load_run.
    unfold extent. lia.
  - lia.
  - rewrite Hdv, Hps. by apply Z.mod_mul.
  - lia.
Qed.

Lemma assembled_device_apart r r' :
  r ∈ owned (fst s) → r' ∈ owned (fst s) → purpose r ≠ purpose r' → apart r r'.
Proof.
  intros Hr Hr' Hne. pose proof (proj1 (Forall_forall _ _) (as_made _ _ _ _ Ha)) as Hm.
  apply (furnished_device_apart a0); [by apply Hm|by apply Hm|].
  apply list_elem_of_lookup in Hr as [i Hi], Hr' as [k Hk].
  apply (ow_apart _ _ (ho_owns _ _ (as_housed _ _ _ _ Ha)) i k); [done|done|]. intros ->. simplify_eq.
Qed.

Lemma assembled_fit : sane s ∧ fit None s.
Proof.
  split.
  - split; [by eapply assembled_sane|]. intros p r Hr. by eapply XhciDmaClaims.assembled_current.
  - destruct (assembled_valid CommandRing 1 None) as (c & Hc & Hci & Hcg); [lia|done|done|].
    destruct (assembled_valid EventRing 2 (Some (XhciDmaRegionRecord.generation c))) as (e & He & Hei & _);
      [lia|done|intros x [= <-]; done|].
    destruct (assembled_valid EventRingSegmentTable 3 (Some (XhciDmaRegionRecord.generation c))) as (t & Ht & Hti & _);
      [lia|done|intros x [= <-]; done|].
    exists c, e, t. split; [done|]. split; [done|]. split; [done|].
    destruct Hc as (_ & Hpc & _), He as (_ & Hpe & _), Ht as (_ & Hpt & _).
    split; [|split]; apply assembled_device_apart; congruence.
Qed.
End assembled.
End ArenaHost.

(** ** The claims *)

Module XhciRingClaims.
Import TrbFacts Publication XhciRingMachine XhciRingQueue XhciRingHistory ArenaLaws ArenaHost.

Section claims.
Context {S E : Type} `{XhciRingStorageLaws S E}.
Implicit Types (s : S) (x : run (S:=S)).

(** C22: The command ring is a queue, for a controller that posts the completion of a
    command only after it has fetched it ([fetched_first], assumed of every state of
    the run) and that never writes the command ring.  In every run that starts with a
    successful initialisation - submissions, polls, fetches by the cycle bits, and
    otherwise arbitrary device writes, the event ring included - the controller has
    fetched exactly the commands submitted first, in order, with the addresses on
    their receipts; what it would fetch next is the oldest unfetched command, and
    nothing if there is none, across any number of laps.  Completions are reported in
    submission order, each command at most once, and at most one command is
    outstanding. *)
Theorem command_ring_is_queue secret expected s0 m s x :
  sane s0 → initialize_inner secret expected s0 = Done m s → rtc faithful_step (start m s) x →
  fetched x = map delivery (take (length (fetched x)) (sent x)) ∧
  fst <$> next_command x = delivery <$> sent x !! length (fetched x) ∧
  map XhciCommandCompletionEvidence.sequence (completed x)
    = map XhciNoOpCommandReceipt.sequence (take (length (completed x)) (sent x)) ∧
  (length (fetched x) <= length (sent x) <= length (completed x) + 1)%nat ∧
  (length (completed x) <= length (sent x))%nat ∧ NoDup (map XhciNoOpCommandReceipt.sequence (sent x)).
Proof.
  intros Hs Hi Hr. pose proof (run_reachable _ _ _ _ _ _ Hs Hi Hr) as Hx.
  pose proof (ro_ring _ Hx) as (_ & _ & Hq). pose proof (rq_count _ _ _ _ Hq). pose proof (ro_count _ Hx).
  pose proof (ro_outstanding _ Hx) as Ho.
  split; [apply Hx|]. split; [|split; [apply Hx|split; [|split; [lia|by apply sequences_distinct]]]].
  - rewrite next_command_ok by done. unfold next_fetch. case_decide as Hlt.
    + destruct (lookup_lt_is_Some_2 _ _ Hlt) as [r Hl]. rewrite Hl. cbn. by rewrite (ra_delivery _ _ _ (ro_sent _ Hx _ _ Hl)).
    + by rewrite lookup_ge_None_2 by lia.
  - destruct (outstanding (machine x)); [destruct Ho; lia|lia].
Qed.

Lemma idle_submits x :
  run_ok x → outstanding (machine x) = None → Z.of_nat (length (sent x)) + 1 < MAX 32 →
  ∃ r m1 s1, submit_no_op (machine x, storage x) = Done r (m1, s1) ∧ outstanding m1 = Some (outstanding_for r).
Proof.
  intros Hx Hidle Hseq. pose proof (ro_ring _ Hx) as Hring. pose proof Hring as (_ & Hm & _).
  destruct (ro_ready _ Hx) as (Hrc & _ & _). pose proof (ro_behind _ Hx) as Hbe.
  pose proof (submit_ok _ _ _ _ Hring ltac:(lia)) as Hwp.
  unfold wp in Hwp. destruct (submit_no_op (machine x, storage x)) as [r [m1 s1]|e v|]; [|exfalso|done].
  - destruct Hwp as (_ & -> & Hm1 & _). cbn [fst] in Hm1. exists (receipt_for (machine x)), m1, s1. by rewrite Hm1.
  - destruct Hwp as (_ & _ & _ & Href & _). unfold submit_refusal in Href.
    pose proof (ma_sequence _ _ Hm) as [Hsq _]. destruct e; try done; [rewrite Hidle in Href; by destruct Href|].
    destruct Href as [_ Href]. lia.
Qed.

Lemma completion_polled m s N r :
  sane s → machine_at m N → ready s EventRing → (4096 <= length (contents s EventRing))%nat →
  outstanding m = Some (outstanding_for r) → completes m r (event_block m s) →
  ∃ ev, poll_no_op_completion r (m, s) = Done (Some ev) (consumed m, s) ∧
    evidence_of m r (event_block m s) ev ∧ outstanding (consumed m) = None.
Proof.
  intros Hs Hm Hre Hlen Ho Hcom. pose proof (poll_ok _ s _ r Hs Hm) as Hwp. unfold wp in Hwp.
  destruct (poll_no_op_completion r (m, s)) as [o [m2 s2']|e v|]; [|exfalso|done]; cbn [fst snd] in Hwp.
  - destruct Hwp as (-> & _ & Hcase). destruct o as [ev|]; [|by destruct Hcase as [_ []]; apply Hcom].
    destruct Hcase as (-> & _ & Hev). by exists ev.
  - destruct Hwp as [_ Href]. unfold poll_refusal in Href. destruct Hcom as [_ Hty Had Hrs Hvf Hsl].
    destruct e; try done; try (destruct Href; congruence).
    + specialize (Href Hre). lia.
    + congruence.
    + by destruct Href as (-> & -> & ?).
Qed.

(** The event with which a controller reports that it completed [r]. *)
Definition completion_event (m : XhciRingMachine.t) (r : XhciNoOpCommandReceipt.t) : RawTrb.t :=
  RawTrb.mk (XhciNoOpCommandReceipt.command_device_address r) (Z.shiftl COMPLETION_CODE_SUCCESS 24)
    (Z.lor (Z.b2z (event_cycle m)) (Z.shiftl TRB_TYPE_COMMAND_COMPLETION_EVENT TRB_TYPE_SHIFT)).

Lemma completion_event_completes m r :
  u64 (XhciNoOpCommandReceipt.command_device_address r) → XhciNoOpCommandReceipt.command_device_address r mod 16 = 0 →
  trb_ok (completion_event m r) ∧ completes m r (completion_event m r).
Proof.
  intros Hu Ha. unfold completion_event. split; [split; [exact Hu|done|by destruct (event_cycle m)]|].
  split; try done; unfold RawTrb.cycle, RawTrb.trb_type; cbn [RawTrb.control]; by destruct (event_cycle m).
Qed.

(** Written where the machine looks, it changes nothing else. *)
Lemma event_posted m s N r :
  sane s → machine_at m N → ready s EventRing → (4096 <= length (contents s EventRing))%nat →
  u64 (XhciNoOpCommandReceipt.command_device_address r) → XhciNoOpCommandReceipt.command_device_address r mod 16 = 0 →
  ∃ s', only_block EventRing (16 * Z.to_nat (event_index m)) s s' ∧ completes m r (event_block m s').
Proof.
  intros Hs Hm Hre Hlen Hu Ha. destruct (completion_event_completes m r Hu Ha) as [Hok Hc].
  pose proof (ma_event _ _ Hm). set (off := (16 * Z.to_nat (event_index m))%nat).
  pose proof (publish_ok EventRing off (completion_event m r) (event_cycle m) s Hs Hok (co_cycle _ _ _ Hc)
    ltac:(lia) ltac:(lia)) as Hwp. unfold wp in Hwp.
  destruct (publish_trb EventRing _ _ _ s) as [[] s'|e s'|]; [|by destruct Hwp as (_ & _ & _ & [])|done].
  destruct Hwp as [Hb Hw]. exists s'. split; [exact Hb|]. unfold event_block, block_at. fold off. rewrite Hw.
  by rewrite decode_encode_trb.
Qed.

(** Once everything is fetched, the controller may complete the outstanding command. *)
Lemma completion_step x r :
  run_ok x → outstanding (machine x) = Some (outstanding_for r) → length (fetched x) = length (sent x) →
  u64 (XhciNoOpCommandReceipt.command_device_address r) → XhciNoOpCommandReceipt.command_device_address r mod 16 = 0 →
  ∃ x', rtc faithful_step x x' ∧ sent x' = sent x ∧ fetched x' = fetched x ∧
    length (completed x') = Datatypes.S (length (completed x)).
Proof.
  intros Hx Ho Hall Hu Ha. destruct (ro_ring _ Hx) as (Hs & Hm & _), (ro_ready _ Hx) as (_ & Hre & Hlen).
  destruct (event_posted _ _ _ r Hs Hm Hre Hlen Hu Ha) as (s' & [Hs' Hreg Hoth Hl _] & Hcom).
  assert (Hsame : ∀ q, region s' q = region (storage x) q ∧ length (contents s' q) = length (contents (storage x) q)).
  { intros q. split; [apply Hreg|]. destruct (decide (q = EventRing)) as [->|]; [done|by rewrite Hoth]. }
  assert (Hcmd : contents s' CommandRing = commands x) by by apply Hoth.
  pose proof (device_ok x s' Hx Hs' Hsame Hcmd) as Hx'. destruct (ro_ready _ Hx') as (_ & Hre' & Hlen').
  destruct (completion_polled _ _ _ r Hs' Hm Hre' Hlen' Ho Hcom) as (ev & Hpoll & _).
  eexists. split; [|split; [|split]].
  - eapply rtc_l; [split; [|exact (step_device x s' Hs' Hsame Hcmd)]; by intros r' _ _|].
    eapply rtc_once. split; [by intros r' _ _|]. exact (step_polled (Run _ _ _ _ _ _) r _ _ _ Hpoll).
  - done.
  - done.
  - cbn [completed]. rewrite length_app, Nat.add_1_r. done.
Qed.

(** A fresh machine has no event to consume, and its first command lies on a block. *)
Lemma fresh_ring g s0 m s :
  initialized g s0 m s → machine_at m 0 →
  RawTrb.cycle (event_block m s) ≠ event_cycle m ∧
  u64 (XhciNoOpCommandReceipt.command_device_address (receipt_for m)) ∧
  XhciNoOpCommandReceipt.command_device_address (receipt_for m) mod 16 = 0.
Proof.
  intros Hi Hm. destruct (in_idle _ _ _ _ Hi) as (_ & Hei & Hec). destruct (ma_base _ _ Hm).
  destruct (in_regions _ _ _ _ Hi) as (c & _ & _ & Hc & _ & _ & _ & _ & _ & _ & _ & _ & Hbase & _).
  split; [unfold event_block; by rewrite (in_events _ _ _ _ Hi), Hei, Hec|].
  unfold receipt_for. cbn [XhciNoOpCommandReceipt.command_device_address]. rewrite (ma_index _ _ Hm).
  change (Z.of_nat (place 0)) with 0. rewrite Z.mul_0_l, Z.add_0_r. split; [unfold in_width; lia|].
  pose proof (us_align _ _ _ Hc) as Hal. rewrite <- Hbase in Hal.
  apply Z.mod_divide in Hal as [k ->]; [|done]. apply Z.mod_divide; [done|]. exists (k * 256). lia.
Qed.

(** From a fresh machine, a command can be submitted, fetched, completed and polled. *)
Lemma round_trip secret expected s0 m s :
  sane s0 → initialize_inner secret expected s0 = Done m s →
  ∃ x, rtc faithful_step (start m s) x ∧
    length (sent x) = 1%nat ∧ length (fetched x) = 1%nat ∧ length (completed x) = 1%nat.
Proof.
  intros Hs Hi. pose proof (ring_start_ok _ _ _ _ _ Hs Hi) as Hx.
  apply (wp_Done _ _ _ _ _ _ (initialize_inner_ok secret expected s0 Hs)) in Hi as (_ & _ & Hi).
  destruct (in_idle _ _ _ _ Hi) as (Hout & _ & _).
  destruct (fresh_ring _ _ _ _ Hi (proj1 (proj2 (ro_ring _ Hx)))) as (Hquiet & Hu & Ha).
  destruct (idle_submits (start m s) Hx Hout) as (r & m1 & s1 & Hsub & Ho); [cbn; unfold MAX; lia|].
  pose proof (submitted_ok _ _ _ _ Hx Hsub) as Hx1. pose proof (next_command_ok _ Hx1) as Hn.
  cbn [start sent fetched app length] in Hn. unfold next_fetch in Hn. rewrite decide_True in Hn by lia.
  pose proof (fetch_ok _ _ _ _ Hx1 Hn) as Hx2.
  pose proof (submit_ok _ _ _ _ (ro_ring _ Hx) ltac:(cbn; lia)) as Hwp. apply (wp_Done _ _ _ _ _ _ Hwp) in Hsub as Hs1.
  destruct Hs1 as (_ & Hr & Hm1 & _ & [_ Hoth]). cbn [start machine storage fst snd] in Hr, Hm1, Hoth. subst r m1.
  destruct (completion_step _ (receipt_for m) Hx2 Ho eq_refl Hu Ha) as (x & Hrun & Hsent & Hfet & Hcomp).
  exists x. rewrite Hsent, Hfet, Hcomp. split; [|split; [done|split; done]].
  eapply rtc_l; [split; [|exact (step_submitted _ _ _ _ Hsub)]|].
  { intros r Hr. cbn [start machine] in Hr. congruence. }
  eapply rtc_l; [split; [|exact (step_fetch _ _ _ _ Hn)]|exact Hrun].
  intros r _ [Hcy _ _ _ _ _]. destruct Hquiet. unfold event_block in *. cbn [machine storage] in Hcy.
  rewrite Hoth in Hcy by done. exact Hcy.
Qed.

(** A command goes through.  Whenever the machine is idle and has a sequence
    number left, a submission succeeds, the controller's next fetch delivers that very
    command, and once the device has written its completion event where the machine
    looks - whatever else it wrote outside the command ring - a poll with the receipt
    returns the evidence for it and leaves the machine idle again. *)
Theorem command_completes secret expected s0 m s x :
  sane s0 → initialize_inner secret expected s0 = Done m s → rtc faithful_step (start m s) x →
  outstanding (machine x) = None → Z.of_nat (length (sent x)) + 1 < MAX 32 →
  ∃ r m1 s1, submit_no_op (machine x, storage x) = Done r (m1, s1) ∧
    fst <$> fetch (command_device_base m1) (contents s1 CommandRing) (place_of x) = Some (delivery r) ∧
    ∀ s2, sane s2 →
      (∀ q, region s2 q = region s1 q ∧ length (contents s2 q) = length (contents s1 q)) →
      completes m1 r (event_block m1 s2) →
      ∃ ev, poll_no_op_completion r (m1, s2) = Done (Some ev) (consumed m1, s2) ∧
        evidence_of m1 r (event_block m1 s2) ev ∧ outstanding (consumed m1) = None.
Proof.
  intros Hs Hi Hr Hidle Hseq. pose proof (run_reachable _ _ _ _ _ _ Hs Hi Hr) as Hx.
  destruct (idle_submits x Hx Hidle Hseq) as (r & m1 & s1 & Hsub & Ho). exists r, m1, s1. split; [done|].
  pose proof (submitted_ok x r m1 s1 Hx Hsub) as Hx1. split.
  - pose proof (next_command_ok _ Hx1) as Hn. unfold next_command, commands in Hn.
    cbn [machine storage place_of sent fetched] in Hn. rewrite Hn. unfold next_fetch.
    destruct (idle_counts x Hx Hidle) as [HCN _]. rewrite length_app. cbn [length]. rewrite decide_True by lia.
    assert (Hl : (sent x ++ [r]) !! length (fetched x) = Some r) by (rewrite HCN; by apply list_lookup_middle).
    cbn. f_equal. symmetry. apply (ra_delivery _ _ _ (ro_sent _ Hx1 _ r Hl)).
  - intros s2 Hs2 Hsame Hcom. destruct (ro_ring _ Hx1) as (_ & Hm & _). destruct (ro_ready _ Hx1) as (_ & Hre & Hlen).
    cbn [machine storage sent] in *. apply (completion_polled _ _ (length (sent x ++ [r]))); try done.
    + eapply ready_same; [|exact Hre]. apply Hsame.
    + destruct (Hsame EventRing) as [_ ->]. done.
Qed.

(** Completions are correlated exactly.  At every point of a run a poll returns
    evidence only if the receipt is that of the outstanding command and the event
    there has the expected cycle, is a command completion, carries the command's
    address without reserved bits, and names neither a virtual function nor a slot;
    the evidence then repeats the event, and the machine moves to the next event,
    toggling its cycle at the end of the ring.  Without a new event it returns
    nothing, and in every other case it is refused with the first check that fails;
    neither changes the machine or the storage.  It never fails on the storage. *)
Theorem completion_correlated secret expected s0 m s x r :
  sane s0 → initialize_inner secret expected s0 = Done m s → rtc faithful_step (start m s) x →
  let e := event_block (machine x) (storage x) in
  match poll_no_op_completion r (machine x, storage x) with
  | Done (Some ev) v =>
      outstanding (machine x) = Some (outstanding_for r) ∧ completes (machine x) r e ∧
      evidence_of (machine x) r e ev ∧ v = (consumed (machine x), storage x)
  | Done None v =>
      outstanding (machine x) = Some (outstanding_for r) ∧ RawTrb.cycle e ≠ event_cycle (machine x) ∧
      v = (machine x, storage x)
  | Fail err v => poll_refusal (machine x) (storage x) r err ∧ (∀ y, err ≠ Storage y) ∧ v = (machine x, storage x)
  | Panic => False
  end.
Proof.
  intros Hs Hi Hr e. pose proof (run_reachable _ _ _ _ _ _ Hs Hi Hr) as Hx.
  destruct (ro_ring _ Hx) as (Hsx & Hm & _). destruct (ro_ready _ Hx) as (_ & Hre & Hlen).
  pose proof (poll_ok _ _ _ r Hsx Hm) as Hwp. unfold wp in Hwp.
  destruct (poll_no_op_completion r (machine x, storage x)) as [[ev|] [m' s']|err v|]; cbn [fst snd] in Hwp.
  - by destruct Hwp as (-> & Ho & -> & Hc & He).
  - by destruct Hwp as (-> & Ho & -> & Hc).
  - destruct Hwp as [-> Href]. split; [done|]. split; [|done]. intros y ->. specialize (Href Hre). lia.
  - done.
Qed.

(** Initialisation lays the rings out or touches nothing.  It succeeds exactly
    when the secret is not zero and the storage has three valid regions of the right
    generation that are apart; then the command ring is empty and closed by its
    toggling link block, the event ring holds no event, the segment table names it,
    and the machine is idle at the start of both rings.  Otherwise it reports a
    geometry error and the storage is unchanged; it never fails half way. *)
Theorem initialization_decided secret expected s :
  sane s →
  match initialize_inner secret expected s with
  | Done m s' => secret ≠ 0 ∧ fit expected s ∧ initialized expected s m s'
  | Fail e s' => geometry_error e ∧ s' = s ∧ (secret = 0 ∨ ¬ fit expected s)
  | Panic => False
  end.
Proof. intros Hs. apply (initialize_inner_ok secret expected s Hs). Qed.
End claims.

(** C27: A publication is never seen half done.  Written into a slot that the
    controller does not own yet, a block becomes visible only complete: in every
    memory that the publication exposes, byte by byte, the slot either still carries
    the other cycle bit or decodes to the whole block, and no byte outside the slot
    changes.  If the publication fails on the way, the slot stays invisible. *)
Theorem publication_never_torn off trb c mem n :
  trb_ok trb → RawTrb.cycle trb = c → (off + 16 <= length mem)%nat → Z.of_nat (length mem) < 2 ^ 64 →
  RawTrb.cycle (RawTrb.decode (window off 16 mem)) ≠ c →
  let sighted m := Watched.whole off trb c m ∧ length m = length mem ∧
    ∀ i, ¬ (off <= i < off + 16)%nat → m !! i = mem !! i in
  match publish_trb CommandRing (Z.of_nat off) trb c (Watched.mk mem [mem] n) with
  | Done _ s' => RawTrb.decode (window off 16 (Watched.memory s')) = trb ∧ Forall sighted (Watched.seen s')
  | Fail _ s' => RawTrb.cycle (RawTrb.decode (window off 16 (Watched.memory s'))) ≠ c ∧ Forall sighted (Watched.seen s')
  | Panic => False
  end.
Proof.
  intros Ht Hc Hl Hw Hold sighted. rewrite cycle_decode in Hold by by apply length_window.
  apply (wp_mono _ _ _ _ _ _ (Watched.publish_watched off trb c mem Ht Hc Hl Hw Hold n)).
  - intros _ s' (Hwin & _ & Hs). split; [rewrite Hwin; by apply decode_encode_trb|exact Hs].
  - intros e s' (Hn & [Hlen _] & Hs). split; [|exact Hs]. rewrite cycle_decode by (apply length_window; lia). done.
Qed.

(** The arena that the driver builds hosts the rings.  After a successful build,
    initialising the rings on the arena with any nonzero secret succeeds: the regions
    that the build made are the ones the ring machine requires, and its writes stay
    inside them. *)
Theorem arena_hosts_rings id n wide secret a pf s key :
  FrameFacts.wf (XhciDmaArena.frames pf) → 0 <= IdentityDma.direct_map_base id → u16 n →
  XhciDmaArena.allocate id n wide secret (a, pf) = Done () s → key ≠ 0 →
  ∃ m s', initialize (E:=XhciDmaError) key s = Done m s' ∧ initialized (E:=XhciDmaError) None s m s' ∧
    generation m = IdentityDma.generation id ∧ fit (E:=XhciDmaError) None s.
Proof.
  intros Hwf Hb Hn Hall Hk.
  apply (wp_Done _ _ _ _ _ _ (XhciDmaClaims.build_ok id n wide secret a pf Hwf Hb Hn)) in Hall.
  destruct Hall as (_ & _ & Ha & Hrd & _).
  destruct (assembled_fit (ArenaAssembly.blank_arena id n wide secret) _ _ s Hb Ha Hrd) as [Hs Hf].
  pose proof (initialize_inner_ok key None s Hs) as Hwp. unfold wp in Hwp.
  change (initialize_inner key None) with (initialize (S:=XhciDmaArena.system) (E:=XhciDmaError) key) in Hwp.
  destruct (initialize key s) as [m s'|e s'|]; [|by destruct Hwp as (_ & _ & [?|?])|done].
  destruct Hwp as (_ & _ & Hi). exists m, s'. split; [done|]. split; [done|]. split; [|done].
  destruct (in_regions _ _ _ _ Hi) as (c & _ & _ & [Hc _ _ _ _ _] & _ & _ & _ & _ & _ & <- & _).
  rewrite (XhciDmaClaims.assembled_current _ _ _ _ _ _ Ha Hc).
  by destruct (ArenaAssembly.as_terms _ _ _ _ Ha) as [-> _].
Qed.

(** ** Witnesses *)

(** The rings on an arena of the DMA model. *)
Lemma demo_rings :
  ∃ (s0 s : XhciDmaArena.system) m,
    XhciDmaArena.allocate XhciDmaClaims.demo_window 2 true 42 XhciDmaClaims.demo_start = Done () s0 ∧
    sane (E:=XhciDmaError) s0 ∧ initialize_inner (E:=XhciDmaError) 9 None s0 = Done m s ∧ outstanding m = None.
Proof.
  destruct XhciDmaClaims.demo_done as [s0 H0]. pose proof (XhciDmaClaims.build_ok XhciDmaClaims.demo_window 2 true 42
    (fst XhciDmaClaims.demo_start) (snd XhciDmaClaims.demo_start) FrameProperties.boot_wf XhciDmaClaims.demo_base
    XhciDmaClaims.demo_count) as Hw.
  apply (fun H => wp_Done _ _ _ _ _ _ H H0) in Hw as (_ & _ & Ha & Hrd & _).
  destruct (assembled_fit (ArenaAssembly.blank_arena XhciDmaClaims.demo_window 2 true 42) _ _ s0 XhciDmaClaims.demo_base Ha Hrd) as [Hs Hf].
  pose proof (initialize_inner_ok 9 None s0 Hs) as Hwp. unfold wp in Hwp.
  destruct (initialize_inner 9 None s0) as [m s|e s|] eqn:Hi; [| |destruct Hwp].
  2:{ destruct Hwp as (_ & _ & [Hn|Hn]); [discriminate Hn|destruct (Hn Hf)]. }
  exists s0, s, m. split; [exact H0|]. split; [exact Hs|]. split; [exact Hi|].
  destruct Hwp as (_ & _ & Hin). apply (in_idle _ _ _ _ Hin).
Qed.

(** A command submitted, fetched, completed by the controller and polled. *)
Lemma demo_run :
  ∃ (s0 s : XhciDmaArena.system) m x,
    sane (E:=XhciDmaError) s0 ∧ initialize_inner (E:=XhciDmaError) 9 None s0 = Done m s ∧
    rtc (faithful_step (E:=XhciDmaError)) (start m s) x ∧
    length (sent x) = 1%nat ∧ length (fetched x) = 1%nat ∧ length (completed x) = 1%nat.
Proof.
  destruct demo_rings as (s0 & s & m & _ & Hs & Hi & _). exists s0, s, m.
  destruct (round_trip 9 None s0 m s Hs Hi) as (x & Hx). exists x. split; [exact Hs|]. split; [exact Hi|exact Hx].
Qed.

Lemma command_ring_is_queue_witness :
  ∃ x : run (S:=XhciDmaArena.system), length (fetched x) = 1%nat ∧ fetched x = map delivery (take 1 (sent x)) ∧
    fst <$> next_command (E:=XhciDmaError) x = None ∧ length (completed x) = 1%nat ∧
    map XhciCommandCompletionEvidence.sequence (completed x) = map XhciNoOpCommandReceipt.sequence (take 1 (sent x)).
Proof.
  destruct demo_run as (s0 & s & m & x & Hs & Hi & Hr & Hlen & Hf & Hc). exists x.
  destruct (command_ring_is_queue 9 None s0 m s x Hs Hi Hr) as (Hq & Hn & Hk & _). rewrite Hf in Hq, Hn. rewrite Hc in Hk.
  split; [exact Hf|]. split; [exact Hq|]. split; [rewrite Hn, lookup_ge_None_2 by lia; reflexivity|].
  split; [exact Hc|exact Hk].
Defined.

Lemma command_completes_witness :
  ∃ (m m1 : XhciRingMachine.t) (s s1 : XhciDmaArena.system) r,
    outstanding m = None ∧ submit_no_op (E:=XhciDmaError) (m, s) = Done r (m1, s1).
Proof.
  destruct demo_rings as (s0 & s & m & _ & Hs & Hi & Ho).
  destruct (command_completes 9 None s0 m s (start m s) Hs Hi (rtc_refl _ _) Ho ltac:(cbn; unfold MAX; lia))
    as (r & m1 & s1 & Hsub & _).
  exists m, m1, s, s1, r. split; [exact Ho|exact Hsub].
Defined.

Lemma completion_correlated_witness :
  ∃ (m : XhciRingMachine.t) (s : XhciDmaArena.system) r v,
    poll_no_op_completion (E:=XhciDmaError) r (m, s) = Fail NoOutstandingCommand v ∧ v = (m, s).
Proof.
  destruct demo_rings as (s0 & s & m & _ & Hs & Hi & Ho). set (r := receipt_for m).
  pose proof (completion_correlated 9 None s0 m s (start m s) r Hs Hi (rtc_refl _ _)) as H.
  exists m, s, r. cbv zeta in H. cbn [start machine storage] in H.
  destruct (poll_no_op_completion r (m, s)) as [[ev|] v|e v|] eqn:Hp.
  - destruct H as (H & _). congruence.
  - destruct H as (H & _). congruence.
  - exists v. destruct H as (Href & _ & Hv). split; [|exact Hv]. f_equal.
    unfold poll_no_op_completion, mbind, M_bind in Hp. cbn [get fst snd] in Hp. rewrite Ho in Hp. cbn in Hp. congruence.
  - destruct H.
Defined.

Lemma initialization_decided_witness :
  ∃ s0 s m, initialize_inner (E:=XhciDmaError) (S:=XhciDmaArena.system) 9 None s0 = Done m s ∧
    initialized (E:=XhciDmaError) None s0 m s.
Proof.
  destruct demo_rings as (s0 & s & m & _ & Hs & Hi & _). exists s0, s, m. split; [exact Hi|].
  pose proof (initialization_decided 9 None s0 Hs) as H. rewrite Hi in H. apply H.
Defined.

Definition demo_memory : list Z := replicate 64 0.

Lemma publication_never_torn_witness :
  match publish_trb CommandRing 16 (noop true) true (Watched.mk demo_memory [demo_memory] 3) with
  | Done _ s' => RawTrb.decode (window 16 16 (Watched.memory s')) = noop true ∧
      Forall (Watched.whole 16 (noop true) true) (Watched.seen s')
  | _ => False
  end.
Proof.
  pose proof (publication_never_torn 16 (noop true) true demo_memory 3 (proj1 (noop_ok true)) (proj1 (proj2 (noop_ok true)))
    ltac:(cbn; lia) ltac:(cbn; lia) ltac:(discriminate)) as H. cbv zeta in H. change (Z.of_nat 16) with 16 in H.
  destruct (publish_trb CommandRing 16 (noop true) true (Watched.mk demo_memory [demo_memory] 3)) as [[] s'|e s'|] eqn:Hp.
  - destruct H as [Hd Hs]. split; [exact Hd|]. eapply Forall_impl; [exact Hs|]. intros mem (Hw & _). exact Hw.
  - vm_compute in Hp. discriminate Hp.
  - exact H.
Defined.

Lemma arena_hosts_rings_witness :
  ∃ s m s', XhciDmaArena.allocate XhciDmaClaims.demo_window 2 true 42 XhciDmaClaims.demo_start = Done () s ∧
    initialize (E:=XhciDmaError) 9 s = Done m s' ∧ generation m = 7.
Proof.
  destruct XhciDmaClaims.demo_done as [s Hs]. exists s.
  destruct (arena_hosts_rings XhciDmaClaims.demo_window 2 true 42 (fst XhciDmaClaims.demo_start)
    (snd XhciDmaClaims.demo_start) s 9 FrameProperties.boot_wf XhciDmaClaims.demo_base XhciDmaClaims.demo_count Hs
    ltac:(discriminate)) as (m & s' & Hi & _ & Hg & _).
  exists m, s'. split; [exact Hs|]. split; [exact Hi|exact Hg].
Defined.
End XhciRingClaims.
