(* ===== verification/Slpt.v ===== *)
(** * VT-d second-level page tables

    Models [kernel/boulder/src/hw/vtd_slpt.rs]: the ledger of mappings of one
    remapping domain and the radix tree of table frames that the hardware walks.
    Table memory and invalidation are interfaces, the source's traits
    [SlptPageMemory] and [SlptInvalidator]; an operation runs on the ledger
    together with one implementation of each. *)
From S2P Require Import Prelude.

Definition PAGE_SHIFT : Z := 12.
Definition PAGE_SIZE : Z := Z.shiftl 1 PAGE_SHIFT.
Definition ENTRIES_PER_TABLE : Z := 512.
Definition MAXIMUM_LEVELS : Z := 5.
Definition PHYSICAL_PAGE_MASK : Z := 0x000ffffffffff000.
Definition READ : Z := 1.
Definition WRITE : Z := Z.shiftl 1 1.
Definition PERMISSION_MASK : Z := Z.lor READ WRITE.

(** [SlptMemoryError] and [SlptInvalidationError] wrap a code. *)
Abbreviation SlptMemoryError := Z (only parsing).
Abbreviation SlptInvalidationError := Z (only parsing).

(** A frame is its physical address. *)
Abbreviation SlptFrame := Z (only parsing).
Definition from_physical_address (address : Z) : option SlptFrame :=
  if negb (address =? 0) && (Z.land address (PAGE_SIZE - 1) =? 0)
     && (Z.land address (bitnot 64 PHYSICAL_PAGE_MASK) =? 0)
  then Some address else None.

(** ** The two traits *)

Class SlptPageMemory (S : Type) := {
  allocate_table : M S SlptMemoryError SlptFrame;
  zero_table : SlptFrame → M S SlptMemoryError unit;
  read_entry : S → SlptFrame → Z → result Z SlptMemoryError;
  write_entry : SlptFrame → Z → Z → M S SlptMemoryError unit;
  release_table : SlptFrame → M S SlptMemoryError unit;
}.

Class SlptInvalidator (I : Type) := {
  invalidate_after_page_table_change : Z → M I SlptInvalidationError unit;
}.

(** ** Types *)

Inductive MappingPhase := AwaitingMapInvalidation | Active | AwaitingUnmapInvalidation | AwaitingCleanup.
#[global] Instance MappingPhase_eq_dec : EqDecision MappingPhase.
Proof. solve_decision. Defined.

Inductive SlptState := Operational | Poisoned.
#[global] Instance SlptState_eq_dec : EqDecision SlptState.
Proof. solve_decision. Defined.

(** The constructor [Poisoned] of the source's fault enum is [PoisonedFault]. *)
Inductive SlptFault :=
| InvalidAddressWidth | UnsupportedAddressWidth | InvalidRoot | RootNotEmpty | InvalidIova
| InvalidPhysicalAddress | InvalidPermissions | CapacityExhausted | IovaOverlap | PhysicalAlias
| ForeignEntry | MalformedEntry | FrameAlias | UnknownMapping | InvalidPhase | StaleReceipt
| EntryMismatch | Memory (e : SlptMemoryError) | RollbackFailed | PoisonedFault.
#[global] Instance SlptFault_eq_dec : EqDecision SlptFault.
Proof. solve_decision. Defined.

Module SlptConfig.
Record t := mk {
  supported_adjusted_guest_widths : Z;
  maximum_guest_address_width : Z;
  address_width_encoding : Z;
}.

Definition adjusted_guest_address_width (self : t) : option Z :=
  if address_width_encoding self =? 0 then Some 30
  else if address_width_encoding self =? 1 then Some 39
  else if address_width_encoding self =? 2 then Some 48
  else if address_width_encoding self =? 3 then Some 57
  else None.

Definition validate (self : t) : result Z SlptFault :=
  match adjusted_guest_address_width self with
  | None => Err InvalidAddressWidth
  | Some width =>
    if (Z.land (supported_adjusted_guest_widths self) (Z.shiftl 1 (address_width_encoding self)) =? 0)
       || (maximum_guest_address_width self <? 30) || (64 <? maximum_guest_address_width self)
       || (maximum_guest_address_width self <? width)
    then Err UnsupportedAddressWidth else Ok width
  end.
End SlptConfig.

Module DmaPermissions.
Record t := mk { read : bool; write : bool }.
Definition READ_ONLY : t := mk true false.
Definition WRITE_ONLY : t := mk false true.
Definition READ_WRITE : t := mk true true.

Definition bits (self : t) : result Z SlptFault :=
  let bits := Z.lor (if read self then READ else 0) (if write self then WRITE else 0) in
  if bits =? 0 then Err InvalidPermissions else Ok bits.
End DmaPermissions.

(** [MapReceipt] and [UnmapReceipt] wrap a handle. *)
Module MappingHandle.
Record t := mk { slot : Z; generation : Z }.
#[global] Instance t_eq_dec : EqDecision t.
Proof. solve_decision. Defined.
End MappingHandle.

Inductive PendingCause := Invalidation (e : SlptInvalidationError) | Cleanup (e : SlptMemoryError).
Inductive MapOutcome := MapActive (h : MappingHandle.t) | MapPending (receipt : MappingHandle.t) (cause : PendingCause).
Inductive UnmapOutcome := Complete | UnmapPending (receipt : MappingHandle.t) (cause : PendingCause).
Inductive ReclaimError := ReclaimMemory (e : SlptMemoryError) | ReclaimInvalidation (e : SlptInvalidationError) | Fatal.

Module PagePath.
Record t := mk { frames : list SlptFrame; indices : list Z; depth : Z }.
Definition EMPTY_FRAME : SlptFrame := 0.
Definition empty (depth : Z) : t :=
  mk (replicate (Z.to_nat MAXIMUM_LEVELS) EMPTY_FRAME) (replicate (Z.to_nat MAXIMUM_LEVELS) 0) depth.
End PagePath.

Module MappingRecord.
Record t := mk {
  iova : Z;
  physical_address : Z;
  leaf : Z;
  path : PagePath.t;
  cleanup_depth : Z;
  phase : MappingPhase;
}.
Definition with_phase (p : MappingPhase) (r : t) : t :=
  mk (iova r) (physical_address r) (leaf r) (path r) (cleanup_depth r) p.
Definition with_cleanup (n : Z) (r : t) : t :=
  mk (iova r) (physical_address r) (leaf r) (path r) n (phase r).
End MappingRecord.

Module MappingSlot.
Record t := mk { generation : Z; record : option MappingRecord.t; retired : bool }.
Definition EMPTY : t := mk 1 None false.
End MappingSlot.

Module NewLink.
Record t := mk { parent : SlptFrame; index : Z; child : SlptFrame }.
Definition EMPTY : t := mk 0 0 0.
End NewLink.

Definition decode_table_pointer (entry : Z) : result SlptFrame SlptFault :=
  if negb (Z.land entry PERMISSION_MASK =? PERMISSION_MASK)
     || negb (Z.land entry (bitnot 64 (Z.lor PHYSICAL_PAGE_MASK PERMISSION_MASK)) =? 0)
     || (Z.land entry PHYSICAL_PAGE_MASK =? 0)
  then Err MalformedEntry
  else match from_physical_address (Z.land entry PHYSICAL_PAGE_MASK) with
       | Some frame => Ok frame
       | None => Err MalformedEntry
       end.

Definition validate_mapped_physical_address (address : Z) : result unit SlptFault :=
  if negb (Z.land address (PAGE_SIZE - 1) =? 0) || negb (Z.land address (bitnot 64 PHYSICAL_PAGE_MASK) =? 0)
  then Err InvalidPhysicalAddress else Ok ().

(** ** The ledger *)

Module Slpt.

Record t := mk {
  root : SlptFrame;
  adjusted_width : Z;
  levels : Z;
  slots : list MappingSlot.t;
  state : SlptState;
}.

Definition with_slots (l : list MappingSlot.t) (a : t) : t := mk (root a) (adjusted_width a) (levels a) l (state a).
Definition with_state (s : SlptState) (a : t) : t := mk (root a) (adjusted_width a) (levels a) (slots a) s.

Definition validate_iova (self : t) (iova : Z) : result unit SlptFault :=
  if negb (Z.land iova (PAGE_SIZE - 1) =? 0) then Err InvalidIova else
  match checked_add 64 iova (PAGE_SIZE - 1) with
  | None => Err InvalidIova
  | Some last =>
    if (adjusted_width self <? 64) && (Z.shiftl 1 (adjusted_width self) <=? last) then Err InvalidIova else Ok ()
  end.

Fixpoint slots_know {T E} (frame : SlptFrame) (l : list MappingSlot.t) : M T E bool :=
  match l with
  | [] => mret false
  | slot :: l' =>
    match MappingSlot.record slot with
    | Some record =>
      let path := MappingRecord.path record in
      retained_depth ← sub (PagePath.depth path) (MappingRecord.cleanup_depth record);
      retained ← slice_to (PagePath.frames path) retained_depth;
      if existsb (Z.eqb frame) retained then mret true else slots_know frame l'
    | None => slots_know frame l'
    end
  end.

Definition frame_is_known {T E} (self : t) (frame : SlptFrame) : M T E bool :=
  if frame =? root self then mret true else slots_know frame (slots self).

Definition record_index (self : t) (handle : MappingHandle.t) : result Z SlptFault :=
  match slots self !! Z.to_nat (MappingHandle.slot handle) with
  | None => Err UnknownMapping
  | Some slot =>
    if negb (MappingSlot.generation slot =? MappingHandle.generation handle)
       || negb (bool_decide (is_Some (MappingSlot.record slot)))
    then Err UnknownMapping else Ok (MappingHandle.slot handle)
  end.

Definition record (self : t) (handle : MappingHandle.t) : result MappingRecord.t SlptFault :=
  match record_index self handle with
  | Err e => Err e
  | Ok i =>
    match slots self !! Z.to_nat i with
    | Some slot => match MappingSlot.record slot with Some r => Ok r | None => Err UnknownMapping end
    | None => Err UnknownMapping
    end
  end.

Definition phase (self : t) (handle : MappingHandle.t) : result MappingPhase SlptFault :=
  match record self handle with Ok r => Ok (MappingRecord.phase r) | Err e => Err e end.

Definition address_width_encoding {T E} (self : t) : M T E Z := sub (levels self) 2.

Section operations.
Context {S I : Type} `{SlptPageMemory S} `{SlptInvalidator I}.

(** A ledger with its memory and its invalidator. *)
Record world := World { slpt : t; memory : S; invalidator : I }.

Definition on_memory {E A} (m : M S E A) : M world E A :=
  zoom memory (λ s w, World (slpt w) s (invalidator w)) m.
Definition on_invalidator {E A} (m : M I E A) : M world E A :=
  zoom invalidator (λ i w, World (slpt w) (memory w) i) m.
Definition self {E} : M world E t := gets slpt.
Definition set_self {E} (a : t) : M world E unit := modify (λ w, World a (memory w) (invalidator w)).
Definition poison {E} : M world E unit := a ← self; set_self (with_state Poisoned a).

(** [memory.read_entry(frame, index)]. *)
Definition load (frame : SlptFrame) (index : Z) : M world SlptMemoryError Z :=
  w ← get; lift (read_entry (memory w) frame index).

Definition ensure_operational : M world SlptFault unit :=
  a ← self; if bool_decide (state a = Operational) then mret () else throw PoisonedFault.

Fixpoint attach_loop (mem : S) (frame : SlptFrame) (l : list Z) : result unit SlptFault :=
  match l with
  | [] => Ok ()
  | index :: l' =>
    match read_entry mem frame index with
    | Err e => Err (Memory e)
    | Ok entry => if negb (entry =? 0) then Err RootNotEmpty else attach_loop mem frame l'
    end
  end.

Definition attach (MAPPINGS : Z) (mem : S) (frame : SlptFrame) (config : SlptConfig.t) : result t SlptFault :=
  if (MAPPINGS =? 0) || (MAX 16 <? MAPPINGS) || (frame =? 0) then Err InvalidRoot else
  match SlptConfig.validate config with
  | Err e => Err e
  | Ok width =>
    match attach_loop mem frame (range 0 ENTRIES_PER_TABLE) with
    | Err e => Err e
    | Ok _ => Ok (mk frame width (div_ceil (width - PAGE_SHIFT) 9)
                    (replicate (Z.to_nat MAPPINGS) MappingSlot.EMPTY) Operational)
    end
  end.

Fixpoint table_is_empty_loop (mem : S) (frame : SlptFrame) (l : list Z) : result bool SlptMemoryError :=
  match l with
  | [] => Ok true
  | index :: l' =>
    match read_entry mem frame index with
    | Err e => Err e
    | Ok entry => if negb (entry =? 0) then Ok false else table_is_empty_loop mem frame l'
    end
  end.
Definition table_is_empty (mem : S) (frame : SlptFrame) : result bool SlptMemoryError :=
  table_is_empty_loop mem frame (range 0 ENTRIES_PER_TABLE).

(** The subtractions are unchecked. *)
Definition index_at {T E} (self : t) (iova position : Z) : M T E Z :=
  top ← sub (levels self) 1;
  remaining_levels ← sub top position;
  mret (Z.land (Z.shiftr iova (PAGE_SHIFT + remaining_levels * 9)) 0x1ff).

(** [self.slots[index].record.as_mut().unwrap()]. *)
Definition update_record {E} (index' : Z) (f : MappingRecord.t → MappingRecord.t) : M world E unit :=
  a ← self;
  slot ← index (slots a) index';
  match MappingSlot.record slot with
  | None => panic
  | Some r =>
    l ← store (slots a) index'
      (MappingSlot.mk (MappingSlot.generation slot) (Some (f r)) (MappingSlot.retired slot));
    set_self (with_slots l a)
  end.

(** *** Paths *)

(** What [build_path] borrows mutably beside the ledger. *)
Record build := Build { path : PagePath.t; new_links : list NewLink.t; new_link_count : Z }.
Definition building : Type := world * build.

Definition on_world {E A} (m : M world E A) : M building E A := zoom fst (λ w b, (w, snd b)) m.
Definition set_index {E} (position v : Z) : M building E unit :=
  s ← get; let b := snd s in
  l ← store (PagePath.indices (path b)) position v;
  modify (λ s, (fst s, Build (PagePath.mk (PagePath.frames (path b)) l (PagePath.depth (path b)))
                         (new_links b) (new_link_count b))).
Definition set_frame {E} (position v : Z) : M building E unit :=
  s ← get; let b := snd s in
  l ← store (PagePath.frames (path b)) position v;
  modify (λ s, (fst s, Build (PagePath.mk l (PagePath.indices (path b)) (PagePath.depth (path b)))
                         (new_links b) (new_link_count b))).
Definition push_link {E} (link : NewLink.t) : M building E unit :=
  s ← get; let b := snd s in
  l ← store (new_links b) (new_link_count b) link;
  count ← add 64 (new_link_count b) 1;
  modify (λ s, (fst s, Build (path b) l count)).
Definition frame_at {E} (position : Z) : M building E SlptFrame :=
  s ← get; index (PagePath.frames (path (snd s))) position.
(** [path.frames[..=position].contains(&child)]. *)
Definition on_path {E} (child : SlptFrame) (position : Z) : M building E bool :=
  s ← get;
  prefix ← slice_to (PagePath.frames (path (snd s))) (position + 1);
  mret (existsb (Z.eqb child) prefix).

(** Release a table that could not be linked, and report why. *)
Definition discard {A} (child : SlptFrame) (error : SlptMemoryError) : M world SlptFault A :=
  released ← attempt (on_memory (release_table child));
  match released with
  | Err _ => throw RollbackFailed
  | Ok _ => throw (Memory error)
  end.

(** The branch of an absent entry. *)
Definition grow (parent : SlptFrame) (index position : Z) : M building SlptFault SlptFrame :=
  child ← on_world (map_err Memory (on_memory allocate_table));
  a ← on_world self;
  known ← (if child =? 0 then mret true else frame_is_known a child);
  aliased ← (if (known : bool) then mret true else on_path child position);
  if (aliased : bool) then on_world poison ;; throw FrameAlias else
  zeroed ← on_world (attempt (on_memory (zero_table child)));
  match zeroed with
  | Err error => on_world (discard child error)
  | Ok _ =>
    linked ← on_world (attempt (on_memory (write_entry parent index (Z.lor child PERMISSION_MASK))));
    match linked with
    | Err error => on_world (discard child error)
    | Ok _ => push_link (NewLink.mk parent (wrap 16 index) child) ;; mret child
    end
  end.

(** The branch of a present entry. *)
Definition follow (entry : Z) : M building SlptFault SlptFrame :=
  a ← on_world self;
  match decode_table_pointer entry with
  | Ok child =>
    known ← frame_is_known a child;
    if (known : bool) then mret child else on_world poison ;; throw ForeignEntry
  | Err error => on_world poison ;; throw error
  end.

Definition descend (iova position : Z) : M building SlptFault unit :=
  a ← on_world self;
  index ← index_at a iova position;
  set_index position (wrap 16 index) ;;
  if position + 1 =? levels a then mret () else
  parent ← frame_at position;
  entry ← on_world (map_err Memory (load parent index));
  child ← (if entry =? 0 then grow parent index position else follow entry);
  seen ← on_path child position;
  if (seen : bool) then on_world poison ;; throw MalformedEntry else
  set_frame (position + 1) child.

Definition build_path (iova : Z) : M building SlptFault unit :=
  a ← on_world self;
  mfor (range 0 (levels a)) (descend iova).

Definition rollback_link (link : NewLink.t) : M world SlptFault unit :=
  map_err Memory (on_memory (write_entry (NewLink.parent link) (NewLink.index link) 0)) ;;
  released ← attempt (on_memory (release_table (NewLink.child link)));
  match released with
  | Ok _ => mret ()
  | Err error =>
    restored ← attempt (on_memory (write_entry (NewLink.parent link) (NewLink.index link)
                                     (Z.lor (NewLink.child link) PERMISSION_MASK)));
    match restored with Err _ => throw RollbackFailed | Ok _ => throw (Memory error) end
  end.

Definition rollback_new_links (links : list NewLink.t) (count : Z) : M world SlptFault unit :=
  retained ← slice_to links count;
  mfor (rev retained) rollback_link.

(** Undo the new links after [error]; [poison_on_success] is the source's
    [self.state = Poisoned] between the rollback and the return. *)
Definition undo {A} (b : build) (poison_on_success : bool) (error : SlptFault) : M world SlptFault A :=
  undone ← attempt (rollback_new_links (new_links b) (new_link_count b));
  match undone with
  | Err _ => poison ;; throw RollbackFailed
  | Ok _ => (if poison_on_success then poison else mret ()) ;; throw error
  end.

(** *** Mapping *)

Fixpoint check_conflicts (l : list MappingSlot.t) (iova physical_address : Z) : result unit SlptFault :=
  match l with
  | [] => Ok ()
  | slot :: l' =>
    match MappingSlot.record slot with
    | Some r =>
      if MappingRecord.iova r =? iova then Err IovaOverlap
      else if MappingRecord.physical_address r =? physical_address then Err PhysicalAlias
      else check_conflicts l' iova physical_address
    | None => check_conflicts l' iova physical_address
    end
  end.

Definition slot_free (slot : MappingSlot.t) : bool :=
  negb (bool_decide (is_Some (MappingSlot.record slot))) && negb (MappingSlot.retired slot).

(** The end of [map_page]: the record is installed and the mapping published. *)
Definition install (iova physical_address leaf slot_index : Z) (path : PagePath.t) : M world SlptFault MapOutcome :=
  a ← self;
  slot ← index (slots a) slot_index;
  let handle := MappingHandle.mk (wrap 16 slot_index) (MappingSlot.generation slot) in
  l ← store (slots a) slot_index (MappingSlot.mk (MappingSlot.generation slot)
    (Some (MappingRecord.mk iova physical_address leaf path 0 AwaitingMapInvalidation))
    (MappingSlot.retired slot));
  set_self (with_slots l a) ;;
  invalidated ← attempt (on_invalidator (invalidate_after_page_table_change iova));
  match invalidated with
  | Ok _ => update_record slot_index (MappingRecord.with_phase Active) ;; mret (MapActive handle)
  | Err error => mret (MapPending handle (Invalidation error))
  end.

(** The part of [map_page] after a successful [build_path]. *)
Definition publish (iova physical_address permission_bits slot_index : Z) (b : build) :
    M world SlptFault MapOutcome :=
  a ← self;
  leaf_position ← sub (levels a) 1;
  leaf_table ← index (PagePath.frames (path b)) leaf_position;
  leaf_index ← index (PagePath.indices (path b)) leaf_position;
  existing ← attempt (load leaf_table leaf_index);
  match existing with
  | Err error => undo b false (Memory error)
  | Ok existing_leaf =>
    if negb (existing_leaf =? 0) then undo b true ForeignEntry else
    let leaf := Z.lor physical_address permission_bits in
    written ← attempt (on_memory (write_entry leaf_table leaf_index leaf));
    match written with
    | Err error => undo b false (Memory error)
    | Ok _ => install iova physical_address leaf slot_index (path b)
    end
  end.

Definition map_page (iova physical_address : Z) (permissions : DmaPermissions.t) : M world SlptFault MapOutcome :=
  ensure_operational ;;
  a ← self;
  lift (validate_iova a iova) ;;
  lift (validate_mapped_physical_address physical_address) ;;
  permission_bits ← lift (DmaPermissions.bits permissions);
  lift (check_conflicts (slots a) iova physical_address) ;;
  slot_index ← ok_or (Z.of_nat <$> position slot_free (slots a)) CapacityExhausted;
  let p := PagePath.empty (levels a) in
  frames ← store (PagePath.frames p) 0 (root a);
  let b := Build (PagePath.mk frames (PagePath.indices p) (PagePath.depth p))
             (replicate (Z.to_nat (MAXIMUM_LEVELS - 1)) NewLink.EMPTY) 0 in
  w ← get;
  (** [path], [new_links] and [new_link_count] outlive a failed [build_path]. *)
  match build_path iova (w, b) with
  | Panic => panic
  | Fail error (w', b') => put w' ;; undo b' (bool_decide (error = RollbackFailed)) error
  | Done _ (w', b') => put w' ;; publish iova physical_address permission_bits slot_index b'
  end.

(** [self.record_index(handle)?] and [self.slots[index].record.ok_or(UnknownMapping)?]. *)
Definition find_record (handle : MappingHandle.t) : M world SlptFault (Z * MappingRecord.t) :=
  a ← self;
  i ← lift (record_index a handle);
  slot ← index (slots a) i;
  r ← ok_or (MappingSlot.record slot) UnknownMapping;
  mret (i, r).

Definition finish_map (receipt : MappingHandle.t) : M world SlptFault MapOutcome :=
  ensure_operational ;;
  '(i, r) ← find_record receipt;
  if negb (bool_decide (MappingRecord.phase r = AwaitingMapInvalidation)) then throw StaleReceipt else
  invalidated ← attempt (on_invalidator (invalidate_after_page_table_change (MappingRecord.iova r)));
  match invalidated with
  | Ok _ => update_record i (MappingRecord.with_phase Active) ;; mret (MapActive receipt)
  | Err error => mret (MapPending receipt (Invalidation error))
  end.

(** *** Unmapping *)

Definition retire_slot {E} (index' : Z) : M world E unit :=
  a ← self;
  slot ← index (slots a) index';
  l ← store (slots a) index'
    (if MappingSlot.generation slot =? MAX 32
     then MappingSlot.mk (MappingSlot.generation slot) None true
     else MappingSlot.mk (MappingSlot.generation slot + 1) None (MappingSlot.retired slot));
  set_self (with_slots l a).

(** The reclaim of one empty table: unlink, invalidate, release. *)
Definition reclaim_child (slot_index : Z) (r : MappingRecord.t) (child_position child : Z) :
    M world ReclaimError unit :=
  parent_position ← sub child_position 1;
  parent ← index (PagePath.frames (MappingRecord.path r)) parent_position;
  parent_index ← index (PagePath.indices (MappingRecord.path r)) parent_position;
  let pointer := Z.lor child PERMISSION_MASK in
  entry ← map_err ReclaimMemory (load parent parent_index);
  if negb (entry =? pointer) then throw Fatal else
  map_err ReclaimMemory (on_memory (write_entry parent parent_index 0)) ;;
  invalidated ← attempt (on_invalidator (invalidate_after_page_table_change (MappingRecord.iova r)));
  match invalidated with
  | Err error =>
    restored ← attempt (on_memory (write_entry parent parent_index pointer));
    match restored with Err _ => throw Fatal | Ok _ => throw (ReclaimInvalidation error) end
  | Ok _ =>
    freed ← attempt (on_memory (release_table child));
    match freed with
    | Err error =>
      restored ← attempt (on_memory (write_entry parent parent_index pointer));
      match restored with Err _ => throw Fatal | Ok _ => throw (ReclaimMemory error) end
    | Ok _ =>
      bumped ← add 8 (MappingRecord.cleanup_depth r) 1;
      update_record slot_index (MappingRecord.with_cleanup bumped)
    end
  end.

(** One turn of the reclaim loop: whether it goes on. *)
Definition reclaim_step (slot_index : Z) : M world ReclaimError bool :=
  a ← self;
  slot ← index (slots a) slot_index;
  match MappingSlot.record slot with
  | None => panic
  | Some r =>
    let depth := PagePath.depth (MappingRecord.path r) in
    let released := MappingRecord.cleanup_depth r in
    next ← add 64 released 1;
    if depth <=? next then mret false else
    top ← sub depth 1;
    child_position ← sub top released;
    child ← index (PagePath.frames (MappingRecord.path r)) child_position;
    w ← get;
    empty ← map_err ReclaimMemory (lift (table_is_empty (memory w) child));
    if negb empty then mret false else
    reclaim_child slot_index r child_position child ;; mret true
  end.

(** [loop]; a path has at most [MAXIMUM_LEVELS] tables. *)
Fixpoint reclaim_loop (fuel : nat) (slot_index : Z) : M world ReclaimError unit :=
  match fuel with
  | O => panic
  | Datatypes.S fuel' =>
    more ← reclaim_step slot_index;
    if (more : bool) then reclaim_loop fuel' slot_index else mret ()
  end.
Definition reclaim_empty_tables (slot_index : Z) : M world ReclaimError unit :=
  reclaim_loop (Z.to_nat MAXIMUM_LEVELS) slot_index.

(** The end of [finish_unmap]. *)
Definition reclaim_and_retire (receipt : MappingHandle.t) (i : Z) : M world SlptFault UnmapOutcome :=
  reclaimed ← attempt (reclaim_empty_tables i);
  match reclaimed with
  | Ok _ => retire_slot i ;; mret Complete
  | Err (ReclaimMemory error) => mret (UnmapPending receipt (Cleanup error))
  | Err (ReclaimInvalidation error) => mret (UnmapPending receipt (Invalidation error))
  | Err Fatal => poison ;; throw RollbackFailed
  end.

Definition finish_unmap (receipt : MappingHandle.t) : M world SlptFault UnmapOutcome :=
  ensure_operational ;;
  '(i, r) ← find_record receipt;
  if bool_decide (MappingRecord.phase r = AwaitingUnmapInvalidation) then
    invalidated ← attempt (on_invalidator (invalidate_after_page_table_change (MappingRecord.iova r)));
    match invalidated with
    | Err error => mret (UnmapPending receipt (Invalidation error))
    | Ok _ => update_record i (MappingRecord.with_phase AwaitingCleanup) ;; reclaim_and_retire receipt i
    end
  else if negb (bool_decide (MappingRecord.phase r = AwaitingCleanup)) then throw StaleReceipt
  else reclaim_and_retire receipt i.

(** The common body of [unmap_page] and [cancel_pending_map]. *)
Definition withdraw (expected : MappingPhase) (fault : SlptFault) (handle : MappingHandle.t) :
    M world SlptFault UnmapOutcome :=
  ensure_operational ;;
  '(i, r) ← find_record handle;
  if negb (bool_decide (MappingRecord.phase r = expected)) then throw fault else
  leaf_position ← sub (PagePath.depth (MappingRecord.path r)) 1;
  leaf_table ← index (PagePath.frames (MappingRecord.path r)) leaf_position;
  leaf_index ← index (PagePath.indices (MappingRecord.path r)) leaf_position;
  entry ← map_err Memory (load leaf_table leaf_index);
  if negb (entry =? MappingRecord.leaf r) then poison ;; throw EntryMismatch else
  map_err Memory (on_memory (write_entry leaf_table leaf_index 0)) ;;
  update_record i (MappingRecord.with_phase AwaitingUnmapInvalidation) ;;
  finish_unmap handle.

Definition unmap_page (handle : MappingHandle.t) : M world SlptFault UnmapOutcome :=
  withdraw Active InvalidPhase handle.
Definition cancel_pending_map (receipt : MappingHandle.t) : M world SlptFault UnmapOutcome :=
  withdraw AwaitingMapInvalidation StaleReceipt receipt.

End operations.
Arguments world : clear implicits.
Arguments building : clear implicits.
End Slpt.
