(* ===== verification/SlptCalls.v ===== *)
(** * What the page-table core asks of its invalidator

    Independent of the laws of memory and invalidator: mapping a page invalidates
    once, at the end, and its outcome tells how; a page reported as unmapped had
    every invalidation succeed. *)
From S2P Require Import Prelude Slpt.
Import Slpt.

(** [m] keeps the part [p] of its state. *)
Definition quiet {T I E A} (p : T → I) (m : M T E A) : Prop :=
  ∀ s, match m s with Done _ s' | Fail _ s' => p s' = p s | Panic => True end.

Section quiet.
Context {T I E : Type} (p : T → I).

Lemma quiet_bind {A B} (m : M T E A) (k : A → M T E B) :
  quiet p m → (∀ a, quiet p (k a)) → quiet p (m ≫= k).
Proof.
  intros Hm Hk s. unfold mbind, M_bind. specialize (Hm s). destruct (m s) as [a s1|e s1|]; [|done|done].
  specialize (Hk a s1). destruct (k a s1); congruence.
Qed.
Lemma quiet_ret {A} (a : A) : quiet p (mret (M := M T E) a).
Proof. by intros s. Qed.
Lemma quiet_throw {A} (e : E) : quiet p (throw (A := A) e).
Proof. by intros s. Qed.
Lemma quiet_panic {A} : quiet p (panic (E := E) (A := A)).
Proof. by intros s. Qed.
Lemma quiet_get : quiet p (get (E := E)).
Proof. by intros s. Qed.
Lemma quiet_gets {A} (f : T → A) : quiet p (gets (E := E) f).
Proof. by intros s. Qed.
Lemma quiet_modify f : (∀ s, p (f s) = p s) → quiet p (modify (E := E) f).
Proof. intros Hf s. apply Hf. Qed.
Lemma quiet_lift {A} (r : result A E) : quiet p (lift r).
Proof. by destruct r. Qed.
Lemma quiet_ok_or {A} (o : option A) (e : E) : quiet p (ok_or o e).
Proof. by destruct o. Qed.
Lemma quiet_index {A} (l : list A) i : quiet p (index (E := E) l i).
Proof. unfold index. by repeat case_match. Qed.
Lemma quiet_store {A} (l : list A) i x : quiet p (store (E := E) l i x).
Proof. unfold store. by destruct (_ && _). Qed.
Lemma quiet_slice_to {A} (l : list A) n : quiet p (slice_to (E := E) l n).
Proof. unfold slice_to. by destruct (_ && _). Qed.
Lemma quiet_sub x y : quiet p (sub (E := E) x y).
Proof. unfold sub. by destruct (checked_sub _ _). Qed.
Lemma quiet_add w x y : quiet p (add (E := E) w x y).
Proof. unfold add. by destruct (checked_add _ _ _). Qed.
Lemma quiet_attempt {E' A} (m : M T E' A) : quiet p m → quiet p (attempt (E' := E) m).
Proof. intros Hm s. specialize (Hm s). unfold attempt. by destruct (m s). Qed.
Lemma quiet_map_err {E' A} (f : E' → E) (m : M T E' A) : quiet p m → quiet p (map_err f m).
Proof. intros Hm s. specialize (Hm s). unfold map_err. by destruct (m s). Qed.
Lemma quiet_mfor {A} (l : list A) (f : A → M T E unit) : (∀ x, quiet p (f x)) → quiet p (mfor l f).
Proof. intros Hf. induction l as [|x l IH]; [apply quiet_ret|]. simpl. by apply quiet_bind. Qed.
Lemma quiet_zoom {S J A} (q : S → J) sel upd (m : M S E A) :
  quiet q m → (∀ s x, q x = q (sel s) → p (upd x s) = p s) → quiet p (zoom sel upd m).
Proof. intros Hm Hu s. specialize (Hm (sel s)). unfold zoom. destruct (m (sel s)); auto. Qed.
End quiet.

Create HintDb quiet.
#[export] Hint Resolve quiet_ret quiet_throw quiet_panic quiet_get quiet_gets quiet_lift quiet_ok_or quiet_index
  quiet_store quiet_slice_to quiet_sub quiet_add : quiet.
Ltac quiet :=
  repeat first
    [ solve [auto with quiet nocore]
    | apply quiet_bind; [|intros ?]
    | apply quiet_attempt
    | apply quiet_map_err
    | apply quiet_mfor; intros ?
    | apply quiet_modify; reflexivity
    | match goal with
      | |- quiet _ (if ?b then _ else _) => destruct b
      | |- quiet _ (match ?x with _ => _ end) => destruct x
      end ].

Section calls.
Context {S I : Type} {HM : SlptPageMemory S} {HI : SlptInvalidator I}.
Implicit Types (w : world S I).
#[local] Abbreviation inv := (@invalidator S I).
#[local] Abbreviation binv := (λ s : building S I, invalidator (fst s)).

Lemma quiet_memory {E A} (m : M S E A) : quiet inv (on_memory m).
Proof. unfold on_memory. by apply (quiet_zoom _ (λ _ : S, ())); [intros s; destruct (m s)|]. Qed.
Lemma quiet_self {E} : quiet inv (self (E := E)).
Proof. apply quiet_gets. Qed.
Lemma quiet_set_self {E} a : quiet inv (set_self (E := E) a).
Proof. by apply quiet_modify. Qed.
Lemma quiet_world {E A} (m : M (world S I) E A) : quiet inv m → quiet binv (on_world m).
Proof. intros Hm. unfold on_world. by apply (quiet_zoom _ inv). Qed.
#[local] Hint Resolve quiet_memory quiet_self quiet_set_self quiet_world : quiet.

Lemma quiet_poison {E} : quiet inv (poison (E := E)).
Proof. unfold poison. quiet. Qed.
Lemma quiet_load f i : quiet inv (load f i).
Proof. unfold load. quiet. Qed.
Lemma quiet_slot_update {E} i f : quiet inv (update_record (E := E) i f).
Proof. unfold update_record. quiet. Qed.
Lemma quiet_slots_know {T E J} (p : T → J) f l : quiet p (slots_know (E := E) f l).
Proof. induction l as [|s l IH]; simpl; quiet. Qed.
Lemma quiet_known {T E J} (p : T → J) a f : quiet p (frame_is_known (E := E) a f).
Proof. unfold frame_is_known. quiet. apply quiet_slots_know. Qed.
#[local] Hint Resolve quiet_poison quiet_load quiet_slot_update quiet_known : quiet.

Lemma quiet_set_frame {E} i v : quiet binv (set_frame (E := E) i v).
Proof. unfold set_frame. quiet. Qed.
Lemma quiet_set_index {E} i v : quiet binv (set_index (E := E) i v).
Proof. unfold set_index. quiet. Qed.
Lemma quiet_push_link {E} x : quiet binv (push_link (E := E) x).
Proof. unfold push_link. quiet. Qed.
Lemma quiet_on_path {E} c i : quiet binv (on_path (E := E) c i).
Proof. unfold on_path. quiet. Qed.
Lemma quiet_discard {A} c e : quiet inv (discard (A := A) c e).
Proof. unfold discard. quiet. Qed.
#[local] Hint Resolve quiet_set_frame quiet_set_index quiet_push_link quiet_on_path quiet_discard : quiet.
Lemma quiet_grow f x i : quiet binv (grow f x i).
Proof. unfold grow. quiet; apply quiet_world; quiet. Qed.
Lemma quiet_follow e : quiet binv (follow e).
Proof. unfold follow. quiet. Qed.
#[local] Hint Resolve quiet_grow quiet_follow : quiet.
Lemma quiet_build_path v : quiet binv (build_path v).
Proof. unfold build_path, descend, index_at, frame_at. quiet; apply quiet_world; quiet. Qed.

Lemma quiet_undo {A} b flag e : quiet inv (undo (A := A) b flag e).
Proof. unfold undo, rollback_new_links, rollback_link. quiet. Qed.
#[local] Hint Resolve quiet_undo : quiet.

(** How the single invalidation of a mapping call ended. *)
Definition told (v : Z) (o : MapOutcome) (i i' : I) : Prop :=
  match o with
  | MapActive _ => invalidate_after_page_table_change v i = Done () i'
  | MapPending _ _ => ∃ e, invalidate_after_page_table_change v i = Fail e i'
  end.
Definition tells {E} (v : Z) (m : M (world S I) E MapOutcome) : Prop :=
  ∀ w, match m w with Done o w' => told v o (inv w) (inv w') | Fail _ w' => inv w' = inv w | Panic => True end.

Lemma tells_bind {E A} v (m : M (world S I) E A) k : quiet inv m → (∀ a, tells v (k a)) → tells v (m ≫= k).
Proof.
  intros Hm Hk w. unfold mbind, M_bind. specialize (Hm w). destruct (m w) as [a w1|e w1|]; [|done|done].
  specialize (Hk a w1). rewrite <-Hm. exact Hk.
Qed.
Lemma tells_throw {E} v (e : E) : tells v (throw e).
Proof. by intros w. Qed.
Lemma tells_undo v b flag e : tells v (undo b flag e).
Proof.
  intros w. pose proof (quiet_undo (A := MapOutcome) b flag e w) as Hq. destruct (undo b flag e w) as [o w1|f w1|] eqn:Hu; [|done|done].
  exfalso. unfold undo, mbind, M_bind, attempt in Hu. destruct (rollback_new_links _ _ w) as [x w2|x w2|]; [|done|done].
  by destruct flag.
Qed.

Lemma tells_install v pa leaf i path : tells v (install v pa leaf i path).
Proof.
  unfold install. do 4 (apply tells_bind; [solve [quiet]|intros ?; cbv zeta]).
  intros w. unfold mbind at 1, M_bind at 1, attempt, on_invalidator, zoom.
  destruct (invalidate_after_page_table_change v (inv w)) as [[] x|e x|] eqn:Hi; [|by exists e|done].
  unfold mbind, M_bind. pose proof (quiet_slot_update (E := SlptFault) i (MappingRecord.with_phase Active)
    (World (slpt w) (memory w) x)) as Hq.
  destruct (update_record _ _ _) as [[] w2|f w2|] eqn:Hup; [|exfalso|done].
  - simpl in *. by rewrite Hq.
  - unfold update_record, mbind, M_bind, index, store, set_self, modify in Hup. simpl in Hup. by repeat case_match.
Qed.

Lemma tells_publish v pa bits i b : tells v (publish v pa bits i b).
Proof.
  unfold publish. do 4 (apply tells_bind; [solve [quiet]|intros ?]). apply tells_bind; [solve [quiet]|intros [entry|e]; [|apply tells_undo]].
  destruct (negb _); [apply tells_undo|]. cbv zeta. apply tells_bind; [solve [quiet]|intros [x|e]; [apply tells_install|apply tells_undo]].
Qed.

(** A page is mapped with exactly one invalidation, of its own address; a call
    that fails made none. *)
Lemma map_page_tells v pa perm : tells v (map_page v pa perm).
Proof.
  unfold map_page. do 7 (apply tells_bind; [solve [quiet]|intros ?]). cbv zeta. apply tells_bind; [solve [quiet]|intros frames].
  intros w. unfold mbind at 1, M_bind at 1. simpl.
  match goal with |- context [build_path v ?s] => pose proof (quiet_build_path v s) as Hq; destruct (build_path v s) as [x [w1 b]|e [w1 b]|] end;
    [| |done]; simpl in Hq; unfold mbind, M_bind; simpl; rewrite <-Hq.
  - apply tells_publish.
  - apply tells_undo.
Qed.

(** ** Unmapping *)

(** A property of invalidators that successful calls keep. *)
Section calm.
Context (L : I → Prop) (HL : ∀ v i i', L i → invalidate_after_page_table_change v i = Done () i' → L i').

(** It survives a call of [m] that returns a value in [D]. *)
Definition calm {E A} (D : A → Prop) (m : M (world S I) E A) : Prop :=
  ∀ w, L (inv w) → match m w with Done a w' => D a → L (inv w') | _ => True end.

Lemma calm_bind {E A B} D (m : M (world S I) E A) (k : A → M (world S I) E B) :
  quiet inv m → (∀ a, calm D (k a)) → calm D (m ≫= k).
Proof.
  intros Hm Hk w Hw. unfold mbind, M_bind. specialize (Hm w). destruct (m w) as [a w1|e w1|]; [|done|done].
  apply (Hk a w1). by rewrite Hm.
Qed.
Lemma calm_seq {E A B} D (m : M (world S I) E A) (k : A → M (world S I) E B) :
  calm (λ _, True) m → (∀ a, calm D (k a)) → calm D (m ≫= k).
Proof.
  intros Hm Hk w Hw. unfold mbind, M_bind. specialize (Hm w Hw). destruct (m w) as [a w1|e w1|]; [|done|done].
  apply (Hk a w1). by apply Hm.
Qed.
Lemma calm_quiet {E A} D (m : M (world S I) E A) : quiet inv m → calm D m.
Proof. intros Hm w Hw. specialize (Hm w). destruct (m w); [|done|done]. by rewrite Hm. Qed.
Lemma calm_throw {E A} D (e : E) : calm (A := A) D (throw e).
Proof. by intros w Hw. Qed.
(** An invalidation whose failure leads to no value in [D]. *)
Lemma calm_invalidate {E A} D v (k : result unit SlptInvalidationError → M (world S I) E A) :
  calm D (k (Ok ())) → (∀ e w, match k (Err e) w with Done a _ => ¬ D a | _ => True end) →
  calm D (attempt (on_invalidator (invalidate_after_page_table_change v)) ≫= k).
Proof using HL.
  intros Hok Herr w Hw. unfold mbind, M_bind, attempt, on_invalidator, zoom.
  destruct (invalidate_after_page_table_change v (inv w)) as [[] x|e x|] eqn:Hi; [| |done].
  - apply (Hok (World (slpt w) (memory w) x)). simpl. by eapply HL.
  - specialize (Herr e (World (slpt w) (memory w) x)). destruct (k (Err e) _); [|done|done]. by intros Ha.
Qed.

#[local] Hint Resolve quiet_memory quiet_self quiet_set_self quiet_world quiet_poison quiet_load quiet_slot_update : quiet.
Lemma calm_reclaim_child i r pos c : calm (λ _, True) (reclaim_child i r pos c).
Proof using HL.
  unfold reclaim_child. do 3 (apply calm_bind; [solve [quiet]|intros ?; cbv zeta]). apply calm_bind; [solve [quiet]|intros entry].
  destruct (negb _); [apply calm_throw|]. apply calm_bind; [solve [quiet]|intros ?]. apply calm_invalidate.
  - apply calm_quiet. quiet.
  - intros e w. unfold mbind, M_bind, attempt. by destruct (on_memory _ w).
Qed.
Lemma calm_reclaim_loop n i : calm (λ _, True) (reclaim_loop n i).
Proof using HL.
  induction n as [|n IH]; [by intros w Hw|]. simpl. apply calm_seq.
  - unfold reclaim_step. do 2 (apply calm_bind; [solve [quiet]|intros ?]). case_match; [|by intros w Hw]. cbv zeta.
    apply calm_bind; [solve [quiet]|intros next]. destruct (_ <=? _); [by apply calm_quiet, quiet_ret|].
    do 5 (apply calm_bind; [solve [quiet]|intros ?]). destruct (negb _); [by apply calm_quiet, quiet_ret|].
    apply calm_seq; [apply calm_reclaim_child|]. intros ?. by apply calm_quiet, quiet_ret.
  - intros []; [done|]. by apply calm_quiet, quiet_ret.
Qed.

Definition complete (o : UnmapOutcome) : Prop := o = Complete.

Lemma calm_reclaim_and_retire h i : calm complete (reclaim_and_retire h i).
Proof using HL.
  intros w Hw. unfold reclaim_and_retire, reclaim_empty_tables, mbind, M_bind, attempt.
  pose proof (calm_reclaim_loop (Z.to_nat MAXIMUM_LEVELS) i w Hw) as Hc.
  destruct (reclaim_loop _ i w) as [[] w1|[e|e|] w1|]; try done.
  - assert (quiet inv (retire_slot (E := SlptFault) i)) as Hq by (unfold retire_slot; quiet). specialize (Hq w1).
    destruct (retire_slot i w1) as [[] w2|e w2|]; try done. intros _. simpl. rewrite Hq. by apply Hc.
Qed.
Lemma finish_unmap_calm h : calm complete (finish_unmap h).
Proof using HL.
  unfold finish_unmap. apply calm_bind; [unfold ensure_operational; quiet|intros ?].
  apply calm_bind; [unfold find_record; quiet|intros [i r]]. case_bool_decide.
  - apply calm_invalidate; [|by intros e w]. apply calm_bind; [quiet|intros ?]. apply calm_reclaim_and_retire.
  - destruct (negb _); [apply calm_throw|apply calm_reclaim_and_retire].
Qed.
Lemma withdraw_calm ph f h : calm complete (withdraw ph f h).
Proof using HL.
  unfold withdraw. apply calm_bind; [unfold ensure_operational; quiet|intros ?].
  apply calm_bind; [unfold find_record; quiet|intros [i r]]. destruct (negb _); [apply calm_throw|].
  do 3 (apply calm_bind; [solve [quiet]|intros ?]). apply calm_bind; [solve [quiet]|intros entry].
  destruct (negb _); [apply calm_bind; [solve [quiet]|intros ?; apply calm_throw]|].
  do 2 (apply calm_bind; [solve [quiet]|intros ?]). apply finish_unmap_calm.
Qed.
End calm.
End calls.
