(* ===== verification/SlptTree.v ===== *)
(** * The radix tree of table frames

    What the remapping hardware does with the tables of [Slpt]: the walk of an
    index path from the root frame.  [tree] says that the tables form a tree
    with given inner nodes and leaves; the lemmas say how the four writes of the
    code (link, unlink, publish a leaf, clear a leaf) change it, and
    [walk_tree] that the hardware then sees exactly the leaves. *)
From S2P Require Import Prelude Slpt.

Definition frame_ok (f : SlptFrame) : Prop := u64 f ∧ from_physical_address f = Some f.

(** ** Entries *)

Lemma masked_id c : u64 c → Z.land c (bitnot 64 PHYSICAL_PAGE_MASK) = 0 → Z.land c PHYSICAL_PAGE_MASK = c.
Proof.
  intros Hc Hz. apply Z.bits_inj'. intros n Hn.
  assert (Z.testbit (Z.land c (bitnot 64 PHYSICAL_PAGE_MASK)) n = false) as Hb by (by rewrite Hz, Z.bits_0).
  revert Hb. unfold bitnot. rewrite !Z.land_spec, Z.lxor_spec, Z.testbit_ones by lia.
  destruct (Z.lt_ge_cases n 64).
  - replace ((0 <=? n) && (n <? 64)) with true by (symmetry; apply andb_true_iff; lia).
    destruct (Z.testbit c n), (Z.testbit PHYSICAL_PAGE_MASK n); done.
  - intros _. replace (Z.testbit c n) with false; [done|]. symmetry.
    by apply (testbit_out_of_width 64).
Qed.

Lemma frame_ok_spec f : frame_ok f ↔ u64 f ∧ f ≠ 0 ∧ Z.land f PHYSICAL_PAGE_MASK = f.
Proof.
  unfold frame_ok, from_physical_address. split.
  - intros [Hf Hs]. destruct (_ && _) eqn:Hb; [|done]. bool_to_prop. split_and!; [done..|by apply masked_id].
  - intros (Hf & H0 & Hm). split; [done|].
    assert (Z.land f (PAGE_SIZE - 1) = 0) as ->
      by (rewrite <-Hm, <-Z.land_assoc; change (Z.land PHYSICAL_PAGE_MASK (PAGE_SIZE - 1)) with 0; apply Z.land_0_r).
    assert (Z.land f (bitnot 64 PHYSICAL_PAGE_MASK) = 0) as ->
      by (rewrite <-Hm, <-Z.land_assoc; change (Z.land PHYSICAL_PAGE_MASK (bitnot 64 PHYSICAL_PAGE_MASK)) with 0;
          apply Z.land_0_r).
    destruct (Z.eqb_spec f 0); done.
Qed.

(** An address with permission bits, as a table pointer or a leaf. *)
Section entry.
Context (f bits : Z) (Hf : u64 f) (Hm : Z.land f PHYSICAL_PAGE_MASK = f) (Hbits : 0 <= bits < 4).

Lemma bits_cases : bits = 0 ∨ bits = 1 ∨ bits = 2 ∨ bits = 3.
Proof. lia. Qed.
Lemma entry_address : Z.land (Z.lor f bits) PHYSICAL_PAGE_MASK = f.
Proof.
  rewrite Z.land_lor_distr_l, Hm.
  destruct bits_cases as [-> | [-> | [-> | ->]]]; apply Z.lor_0_r.
Qed.
Lemma entry_permissions : Z.land (Z.lor f bits) PERMISSION_MASK = bits.
Proof.
  rewrite Z.land_lor_distr_l, <-Hm, <-Z.land_assoc.
  change (Z.land PHYSICAL_PAGE_MASK PERMISSION_MASK) with 0. rewrite Z.land_0_r, Z.lor_0_l.
  by destruct bits_cases as [-> | [-> | [-> | ->]]].
Qed.
Lemma entry_reserved : Z.land (Z.lor f bits) (bitnot 64 (Z.lor PHYSICAL_PAGE_MASK PERMISSION_MASK)) = 0.
Proof.
  rewrite Z.land_lor_distr_l, <-Hm, <-Z.land_assoc.
  change (Z.land PHYSICAL_PAGE_MASK _) with 0. rewrite Z.land_0_r.
  by destruct bits_cases as [-> | [-> | [-> | ->]]].
Qed.
Lemma entry_u64 : u64 (Z.lor f bits).
Proof. apply in_width_lor; [done| |lia]. split; [lia|]. destruct Hbits. by apply Z.lt_trans with 4. Qed.
End entry.

Lemma decode_table_pointer_link f : frame_ok f → decode_table_pointer (Z.lor f PERMISSION_MASK) = Ok f.
Proof.
  intros Hf. pose proof Hf as [Hu Hs]. apply frame_ok_spec in Hf as (_ & H0 & Hm).
  assert (0 <= PERMISSION_MASK < 4) as Hp by done.
  unfold decode_table_pointer.
  rewrite entry_permissions, entry_reserved, entry_address, Hs by done.
  destruct (Z.eqb_spec f 0); done.
Qed.

Lemma link_nonzero f : Z.lor f PERMISSION_MASK ≠ 0.
Proof. intros H. apply Z.lor_eq_0_iff in H as [_ H]. done. Qed.

(** ** The walk *)

(** The second-level walk of the hardware: at each level the entry selected by
    the index must grant some access; inner entries name the next table, the
    last one is the translation. *)
Fixpoint walk (t : gmap Z (list Z)) (f : SlptFrame) (q : list Z) : option Z :=
  match q with
  | [] => None
  | i :: q' =>
    l ← t !! f; e ← (l : list Z) !! Z.to_nat i;
    if Z.land e PERMISSION_MASK =? 0 then None else
    match q' with [] => Some e | _ => walk t (Z.land e PHYSICAL_PAGE_MASK) q' end
  end.

Definition index_ok (i : Z) : Prop := 0 <= i < ENTRIES_PER_TABLE.

(** ** Trees *)

Section tree.
Context (root : SlptFrame) (L : nat).
Implicit Types (t : gmap Z (list Z)) (node leaves : gmap (list Z) Z) (p q : list Z).

(** The entry that belongs at the end of the path [q]. *)
Definition expect node leaves q : Z :=
  if decide (length q = L) then default 0 (leaves !! q)
  else match node !! q with Some c => Z.lor c PERMISSION_MASK | None => 0 end.

Definition shows (l : list Z) node leaves p : Prop :=
  length l = Z.to_nat ENTRIES_PER_TABLE ∧
  ∀ i, index_ok i → l !! Z.to_nat i = Some (expect node leaves (p ++ [i])).

Record tree t node leaves : Prop := {
  tree_root : node !! [] = Some root;
  tree_parent p i : is_Some (node !! (p ++ [i])) → is_Some (node !! p);
  tree_index p i : is_Some (node !! (p ++ [i])) → index_ok i;
  tree_depth p f : node !! p = Some f → (length p < L)%nat;
  tree_inj p q f : node !! p = Some f → node !! q = Some f → p = q;
  tree_frame p f : node !! p = Some f → frame_ok f;
  tree_leaf p i v : leaves !! (p ++ [i]) = Some v →
    length (p ++ [i]) = L ∧ index_ok i ∧ is_Some (node !! p) ∧ Z.land v PERMISSION_MASK ≠ 0;
  tree_no_leaf : leaves !! [] = None;
  tree_table p f : node !! p = Some f → ∃ l, t !! f = Some l ∧ shows l node leaves p;
}.

Lemma tree_prefix t node leaves p q : tree t node leaves → is_Some (node !! (p ++ q)) → is_Some (node !! p).
Proof.
  intros Ht. induction q as [|i q IH] using rev_ind; [by rewrite app_nil_r|].
  rewrite app_assoc. intros Hs. apply IH.
  by eapply tree_parent.
Qed.

Lemma leaf_prefix t node leaves p q v :
  tree t node leaves → leaves !! (p ++ q) = Some v → q ≠ [] → is_Some (node !! p).
Proof.
  intros Ht Hv Hq. destruct q as [|i q _] using rev_ind; [done|].
  rewrite app_assoc in Hv. eapply tree_leaf in Hv as (_ & _ & Hn & _); [|done]. by eapply tree_prefix.
Qed.

Lemma walk_tree t node leaves p f q :
  tree t node leaves → node !! p = Some f → length (p ++ q) = L → q ≠ [] → Forall index_ok q →
  walk t f q = leaves !! (p ++ q).
Proof.
  intros Ht. revert p f. induction q as [|i q IH]; intros p f Hp Hlen Hne Hq; [done|].
  apply Forall_cons in Hq as [Hi Hq].
  destruct (tree_table _ _ _ Ht _ _ Hp) as (l & Hl & _ & Hshow). simpl. rewrite Hl. simpl.
  rewrite (Hshow i Hi). simpl. unfold expect.
  rewrite length_app in Hlen. simpl in Hlen. destruct q as [|j q].
  - rewrite decide_True by (rewrite length_app; simpl in *; lia).
    destruct (leaves !! (p ++ [i])) as [v|] eqn:Hv; simpl; [|done].
    apply (tree_leaf _ _ _ Ht) in Hv as (_ & _ & _ & Hv). by rewrite (proj2 (Z.eqb_neq _ _) Hv).
  - rewrite decide_False by (rewrite length_app; simpl in *; lia).
    rewrite (cons_middle i p (j :: q)), app_assoc. destruct (node !! (p ++ [i])) as [c|] eqn:Hc.
    + destruct (proj1 (frame_ok_spec c) (tree_frame _ _ _ Ht _ _ Hc)) as (Hu & _ & Hm).
      rewrite entry_permissions, entry_address by done. simpl (_ =? 0). cbv iota.
      apply IH; [done| |done|done]. rewrite !length_app. simpl in *. lia.
    + simpl. destruct (leaves !! _) as [v|] eqn:Hv; [|done].
      destruct (leaf_prefix _ _ _ _ _ _ Ht Hv) as [? ?]; [done|congruence].
Qed.

(** A table outside the tree may change or disappear. *)
Lemma tree_outside t t' node leaves :
  tree t node leaves → (∀ p f, node !! p = Some f → t' !! f = t !! f) → tree t' node leaves.
Proof. intros [] Heq. split; try done. intros p f Hp. rewrite (Heq p f Hp). naive_solver. Qed.

Lemma not_node t node leaves c p : tree t node leaves → t !! c = None → node !! p ≠ Some c.
Proof. intros Ht Hc Hp. destruct (tree_table _ _ _ Ht _ _ Hp) as (? & ? & _). congruence. Qed.

(** ** The four writes *)

(** Writing one entry of the table at [p] moves the tables from one
    expectation to another that differs at that entry only. *)
Lemma shows_insert l node leaves node' leaves' p p' i v :
  shows l node leaves p' → index_ok i → expect node' leaves' (p ++ [i]) = v →
  (∀ q, q ≠ p ++ [i] → expect node' leaves' q = expect node leaves q) →
  shows (if decide (p' = p) then <[Z.to_nat i := v]> l else l) node' leaves' p'.
Proof.
  intros [Hlen Hl] Hi Hv Hsame. destruct (decide (p' = p)) as [->|Hne]; split.
  - by rewrite length_insert.
  - intros j Hj. destruct (decide (j = i)) as [->|Hji].
    + rewrite list_lookup_insert_eq; [by rewrite Hv|]. unfold index_ok in *. lia.
    + rewrite list_lookup_insert_ne by (unfold index_ok in *; lia). rewrite Hl, Hsame; [done| |done].
      intros Heq. by apply app_inj_2 in Heq as [_ [=]].
  - done.
  - intros j Hj. rewrite Hl, Hsame; [done| |done]. intros Heq. by apply app_inj_2 in Heq as [? _].
Qed.

Lemma tables_insert t node leaves node' leaves' p f l i v :
  tree t node leaves → node !! p = Some f → t !! f = Some l → index_ok i →
  expect node' leaves' (p ++ [i]) = v →
  (∀ q, q ≠ p ++ [i] → expect node' leaves' q = expect node leaves q) →
  ∀ p' f', node !! p' = Some f' →
    ∃ l', <[f := <[Z.to_nat i := v]> l]> t !! f' = Some l' ∧ shows l' node' leaves' p'.
Proof.
  intros Ht Hp Hl Hi Hv Hsame p' f' Hp'.
  destruct (tree_table _ _ _ Ht _ _ Hp') as (l' & Hl' & Hshow).
  pose proof (shows_insert _ _ _ _ _ p _ i v Hshow Hi Hv Hsame) as Hs.
  destruct (decide (p' = p)) as [->|Hne].
  - simplify_eq. rewrite lookup_insert_eq. eauto.
  - rewrite lookup_insert_ne; [eauto|]. intros ->. by apply Hne, (tree_inj _ _ _ Ht _ _ f').
Qed.

Lemma snoc_ne p i : p ++ [i] ≠ p.
Proof. intros Heq. apply (f_equal length) in Heq. rewrite length_app in Heq. simpl in Heq. lia. Qed.

Section write.
Context t node leaves p f l i
  (Ht : tree t node leaves) (Hp : node !! p = Some f) (Hl : t !! f = Some l) (Hi : index_ok i).

Lemma entry_shown : l !! Z.to_nat i = Some (expect node leaves (p ++ [i])).
Proof. destruct (tree_table _ _ _ Ht _ _ Hp) as (l' & ? & _ & Hs). simplify_eq. by apply Hs. Qed.

Lemma tree_set_leaf v :
  length (p ++ [i]) = L → Z.land v PERMISSION_MASK ≠ 0 →
  tree (<[f := <[Z.to_nat i := v]> l]> t) node (<[p ++ [i] := v]> leaves).
Proof.
  intros Hlen Hv. pose proof Ht as [? ? ? ? ? ? Hleaf ? ?]. split; try done.
  - intros q j w [[Heq ->]|[Hne Hw]]%lookup_insert_Some; [|by apply Hleaf].
    apply app_inj_2 in Heq as [<- [= <-]]; [eauto|done].
  - rewrite lookup_insert_ne; [done|]. by destruct p.
  - eapply tables_insert; [done..| |].
    + unfold expect. by rewrite decide_True, lookup_insert_eq.
    + intros q Hq. unfold expect. by rewrite lookup_insert_ne.
Qed.

Lemma tree_clear_leaf :
  length (p ++ [i]) = L →
  tree (<[f := <[Z.to_nat i := 0]> l]> t) node (delete (p ++ [i]) leaves).
Proof.
  intros Hlen. pose proof Ht as [? ? ? ? ? ? Hleaf ? ?]. split; try done.
  - intros q j w [_ Hw]%lookup_delete_Some. by apply Hleaf.
  - by rewrite lookup_delete_None; right.
  - eapply tables_insert; [done..| |].
    + unfold expect. by rewrite decide_True, lookup_delete_eq.
    + intros q Hq. unfold expect. by rewrite lookup_delete_ne.
Qed.

Lemma tree_link c :
  (length (p ++ [i]) < L)%nat → node !! (p ++ [i]) = None → frame_ok c →
  (∀ q, node !! q ≠ Some c) → t !! c = Some (replicate (Z.to_nat ENTRIES_PER_TABLE) 0) →
  tree (<[f := <[Z.to_nat i := Z.lor c PERMISSION_MASK]> l]> t) (<[p ++ [i] := c]> node) leaves.
Proof.
  intros Hlen Hnone Hc Hfresh Hzero. pose proof Ht as [Hroot Hparent Hindex Hdepth Hinj Hframe Hleaf Hno Htable].
  assert (∀ j, node !! ((p ++ [i]) ++ [j]) = None ∧ leaves !! ((p ++ [i]) ++ [j]) = None) as Hbelow.
  { intros j. split; apply eq_None_not_Some; intros [x Hx].
    - destruct (Hparent (p ++ [i]) j); [by eexists|congruence].
    - destruct (Hleaf _ _ _ Hx) as (_ & _ & [y Hy] & _). congruence. }
  split.
  - rewrite lookup_insert_ne; [done|by destruct p].
  - intros q j [x [[Heq _]|[_ Hx]]%lookup_insert_Some].
    + apply app_inj_2 in Heq as [<- _]; [|done]. rewrite lookup_insert_ne by apply snoc_ne. by eexists.
    + apply lookup_insert_is_Some. destruct (decide (p ++ [i] = q)); [by left|right]. eauto.
  - intros q j [x [[Heq _]|[_ Hx]]%lookup_insert_Some]; [|eauto]. by apply app_inj_2 in Heq as [_ [= <-]].
  - intros q g [[<- _]|[_ Hg]]%lookup_insert_Some; eauto.
  - intros q q' g [[<- <-]|[_ Hg]]%lookup_insert_Some [[<- Hcg]|[_ Hg']]%lookup_insert_Some; subst; try done.
    + by apply Hfresh in Hg'.
    + by apply Hfresh in Hg.
    + eauto.
  - intros q g [[<- <-]|[_ Hg]]%lookup_insert_Some; eauto.
  - intros q j v Hv. destruct (Hleaf _ _ _ Hv) as (? & ? & ? & ?). split_and!; [done..| |done].
    apply lookup_insert_is_Some. destruct (decide (p ++ [i] = q)); [by left|by right].
  - done.
  - intros q g [[<- <-]|[_ Hg]]%lookup_insert_Some.
    + exists (replicate (Z.to_nat ENTRIES_PER_TABLE) 0). rewrite lookup_insert_ne; [|intros ->; by apply (Hfresh p)].
      split; [done|]. split; [by rewrite length_replicate|]. intros j Hj.
      rewrite lookup_replicate_2 by (unfold index_ok in Hj; lia). unfold expect.
      destruct (Hbelow j) as [Hn Hv]. rewrite lookup_insert_ne, Hn, Hv by (intros Heq; symmetry in Heq; by apply snoc_ne in Heq).
      by case_decide.
    + eapply (tables_insert t node leaves); [done..| | |done].
      * unfold expect. by rewrite decide_False, lookup_insert_eq by lia.
      * intros r Hr. unfold expect. by rewrite lookup_insert_ne.
Qed.

Lemma tree_unlink c lc :
  node !! (p ++ [i]) = Some c → t !! c = Some lc →
  (∀ j, index_ok j → lc !! Z.to_nat j = Some 0) →
  tree (<[f := <[Z.to_nat i := 0]> l]> t) (delete (p ++ [i]) node) leaves.
Proof.
  intros Hc Hlc Hzero. pose proof Ht as [Hroot Hparent Hindex Hdepth Hinj Hframe Hleaf Hno Htable].
  destruct (Htable _ _ Hc) as (lc' & Hlc' & _ & Hshow). simplify_eq.
  assert (∀ j, index_ok j → expect node leaves ((p ++ [i]) ++ [j]) = 0) as Hbelow
    by (intros j Hj; specialize (Hshow j Hj); rewrite Hzero in Hshow by done; congruence).
  split.
  - rewrite lookup_delete_ne; [done|by destruct p].
  - intros q j [x [Hne Hx]%lookup_delete_Some]. rewrite lookup_delete_ne; [eauto|]. intros <-.
    pose proof (Hbelow j (Hindex _ _ (ex_intro _ _ Hx))) as Hb. unfold expect in Hb.
    rewrite decide_False, Hx in Hb; [by apply link_nonzero in Hb|]. apply Hdepth in Hx. lia.
  - intros q j [x [_ Hx]%lookup_delete_Some]. eauto.
  - intros q g [_ Hg]%lookup_delete_Some. eauto.
  - intros q q' g [_ Hg]%lookup_delete_Some [_ Hg']%lookup_delete_Some. eauto.
  - intros q g [_ Hg]%lookup_delete_Some. eauto.
  - intros q j v Hv. destruct (Hleaf _ _ _ Hv) as (Hlen & Hj & Hq & Hperm). split_and!; [done..| |done].
    rewrite lookup_delete_ne; [done|]. intros <-. pose proof (Hbelow j Hj) as Hb. unfold expect in Hb.
    rewrite decide_True, Hv in Hb by done. simpl in Hb. by subst v.
  - done.
  - intros q g [Hne Hg]%lookup_delete_Some. eapply (tables_insert t node leaves); [done..| | |done].
    + unfold expect. rewrite decide_False, lookup_delete_eq; [done|]. apply Hdepth in Hc. lia.
    + intros r Hr. unfold expect. by rewrite lookup_delete_ne.
Qed.
End write.
End tree.
