(* ===== verification/SlptLedger.v ===== *)
(** * The mapping ledger and its tree

    The laws of the two interfaces of [Slpt], the index path of an address, and
    the invariant [ledger] that ties the records to the tree of [SlptTree]: a
    live record owns its leaf and every table above it; the tables that a dying
    record still remembers are either gone or in place. *)
From S2P Require Import Prelude Slpt SlptTree.
Import Slpt.

(** ** Interfaces *)

(** The trait documentation of [SlptPageMemory]: a failing operation leaves
    ownership and contents unchanged and allocated frames are exclusive.
    [tables] are the frames the memory holds for this core, with contents. *)
Class SlptMemoryLaws (S : Type) `{SlptPageMemory S} := {
  mem_ok : S → Prop;
  tables : S → gmap Z (list Z);
  table_law s f l : mem_ok s → tables s !! f = Some l → length l = Z.to_nat ENTRIES_PER_TABLE;
  allocate_law s : mem_ok s →
    wp allocate_table
      (λ f s', mem_ok s' ∧ frame_ok f ∧ tables s !! f = None ∧
               ∃ l, length l = Z.to_nat ENTRIES_PER_TABLE ∧ tables s' = <[f := l]> (tables s))
      (λ _ s', mem_ok s' ∧ tables s' = tables s) s;
  zero_law s f l : mem_ok s → tables s !! f = Some l →
    wp (zero_table f)
      (λ _ s', mem_ok s' ∧ tables s' = <[f := replicate (Z.to_nat ENTRIES_PER_TABLE) 0]> (tables s))
      (λ _ s', mem_ok s' ∧ tables s' = tables s) s;
  read_law s f i v : mem_ok s → index_ok i → read_entry s f i = Ok v →
    ∃ l, tables s !! f = Some l ∧ l !! Z.to_nat i = Some v;
  write_law s f l i v : mem_ok s → tables s !! f = Some l → index_ok i → u64 v →
    wp (write_entry f i v)
      (λ _ s', mem_ok s' ∧ tables s' = <[f := <[Z.to_nat i := v]> l]> (tables s))
      (λ _ s', mem_ok s' ∧ tables s' = tables s) s;
  release_law s f l : mem_ok s → tables s !! f = Some l →
    wp (release_table f)
      (λ _ s', mem_ok s' ∧ tables s' = delete f (tables s))
      (λ _ s', mem_ok s' ∧ tables s' = tables s) s;
}.

(** [cached i v e]: the hardware may still use the translation [e] for the page
    at [v].  A successful invalidation forgets its page; nothing else is
    promised, a global invalidation included.  [ages] relates an invalidator to
    what calls may make of it: it stays usable and caches no more than before. *)
Class SlptInvalidatorLaws (I : Type) `{SlptInvalidator I} := {
  inval_ok : I → Prop;
  cached : I → Z → Z → Prop;
  ages : relation I;
  ages_preorder :: PreOrder ages;
  ages_ok i i' : ages i i' → inval_ok i → inval_ok i';
  ages_cached i i' v e : ages i i' → cached i' v e → cached i v e;
  invalidate_law i iova : inval_ok i →
    wp (invalidate_after_page_table_change iova)
      (λ _ i', ages i i' ∧ ∀ e, ¬ cached i' iova e) (λ _ i', ages i i') i;
}.

(** ** Index paths *)

Definition path_of (levels iova : Z) : list Z :=
  (λ k, Z.land (Z.shiftr iova (PAGE_SHIFT + (levels - 1 - k) * 9)) 0x1ff) <$> range 0 levels.

Lemma path_of_length levels iova : 0 <= levels → length (path_of levels iova) = Z.to_nat levels.
Proof. intros. unfold path_of, range. rewrite length_fmap, length_seqZ. lia. Qed.

Lemma path_of_lookup levels iova k :
  (k < Z.to_nat levels)%nat →
  path_of levels iova !! k = Some (Z.land (Z.shiftr iova (PAGE_SHIFT + (levels - 1 - Z.of_nat k) * 9)) 0x1ff).
Proof.
  intros Hk. unfold path_of, range. rewrite list_lookup_fmap, lookup_seqZ_lt by lia. simpl. by rewrite Z.add_0_l.
Qed.

Lemma index_bound x : index_ok (Z.land x 0x1ff).
Proof.
  change 0x1ff with (Z.ones 9). rewrite Z.land_ones by lia. unfold index_ok, ENTRIES_PER_TABLE.
  change (2 ^ 9) with 512. apply Z.mod_pos_bound. lia.
Qed.

Lemma path_of_ok levels iova : Forall index_ok (path_of levels iova).
Proof. apply Forall_fmap, Forall_true. intros k. apply index_bound. Qed.

Lemma path_of_testbit levels iova n :
  0 <= levels → PAGE_SHIFT <= n < PAGE_SHIFT + 9 * levels →
  ∃ x, path_of levels iova !! Z.to_nat (levels - 1 - (n - PAGE_SHIFT) / 9) = Some x ∧
       Z.testbit iova n = Z.testbit x ((n - PAGE_SHIFT) mod 9).
Proof.
  unfold PAGE_SHIFT. intros Hl Hn.
  pose proof (Z.div_mod (n - 12) 9 ltac:(lia)) as Hdm. pose proof (Z.mod_pos_bound (n - 12) 9 ltac:(lia)) as Hm.
  rewrite path_of_lookup by lia. eexists. split; [done|].
  rewrite Z.land_spec, Z.shiftr_spec by lia. change 0x1ff with (Z.ones 9). rewrite Z.testbit_ones by lia.
  replace ((0 <=? (n - 12) mod 9) && ((n - 12) mod 9 <? 9)) with true by (symmetry; apply andb_true_iff; lia).
  rewrite andb_true_r. f_equal. unfold PAGE_SHIFT. lia.
Qed.

Lemma path_of_inj levels x y :
  0 <= levels → in_width (PAGE_SHIFT + 9 * levels) x → in_width (PAGE_SHIFT + 9 * levels) y →
  Z.land x (PAGE_SIZE - 1) = 0 → Z.land y (PAGE_SIZE - 1) = 0 →
  path_of levels x = path_of levels y → x = y.
Proof.
  intros Hl Hx Hy Hax Hay Heq. apply Z.bits_inj'. intros n Hn.
  destruct (Z.lt_ge_cases n PAGE_SHIFT) as [Hlow|Hhigh].
  - assert (∀ z, Z.land z (PAGE_SIZE - 1) = 0 → Z.testbit z n = false) as Hz; [|by rewrite !Hz].
    intros z Hz. apply (f_equal (λ u, Z.testbit u n)) in Hz. change (PAGE_SIZE - 1) with (Z.ones 12) in Hz.
    rewrite Z.land_spec, Z.bits_0, Z.testbit_ones in Hz by lia. unfold PAGE_SHIFT in *.
    replace ((0 <=? n) && (n <? 12)) with true in Hz by (symmetry; apply andb_true_iff; lia).
    by rewrite andb_true_r in Hz.
  - destruct (Z.lt_ge_cases n (PAGE_SHIFT + 9 * levels)) as [Hin|Hout].
    + destruct (path_of_testbit levels x n) as (u & Hu & ->); [done..|].
      destruct (path_of_testbit levels y n) as (w & Hw & ->); [done..|]. congruence.
    + by rewrite !(testbit_out_of_width (PAGE_SHIFT + 9 * levels)).
Qed.

(** ** Well-formed ledgers *)

Definition depth (a : t) : nat := Z.to_nat (levels a).

Record config_ok (a : t) : Prop := {
  cfg_levels : 2 <= levels a <= MAXIMUM_LEVELS;
  cfg_width : adjusted_width a = PAGE_SHIFT + 9 * levels a;
  cfg_root : frame_ok (root a);
  cfg_slots : Z.of_nat (length (slots a)) <= MAX 16;
}.

Definition holds (a : t) (i : nat) (r : MappingRecord.t) : Prop :=
  ∃ s, slots a !! i = Some s ∧ MappingSlot.record s = Some r.

Definition live (r : MappingRecord.t) : Prop :=
  MappingRecord.phase r = AwaitingMapInvalidation ∨ MappingRecord.phase r = Active.

Definition rpath (a : t) (r : MappingRecord.t) : list Z := path_of (levels a) (MappingRecord.iova r).
Definition rframes (r : MappingRecord.t) : list Z := PagePath.frames (MappingRecord.path r).

(** How many tables of its path a record still retains. *)
Definition retained_depth (a : t) (r : MappingRecord.t) : nat := Z.to_nat (levels a - MappingRecord.cleanup_depth r).

Definition iova_ok (a : t) (iova : Z) : Prop := u64 iova ∧ validate_iova a iova = Ok ().

Record record_ok (a : t) (r : MappingRecord.t) : Prop := {
  rec_iova : iova_ok a (MappingRecord.iova r);
  rec_leaf : ∃ bits, 0 < bits < 4 ∧ MappingRecord.leaf r = Z.lor (MappingRecord.physical_address r) bits;
  rec_physical : u64 (MappingRecord.physical_address r) ∧
    validate_mapped_physical_address (MappingRecord.physical_address r) = Ok ();
  rec_depth : PagePath.depth (MappingRecord.path r) = levels a;
  rec_frames : length (rframes r) = Z.to_nat MAXIMUM_LEVELS;
  rec_indices : take (depth a) (PagePath.indices (MappingRecord.path r)) = rpath a r;
  rec_cleanup : 0 <= MappingRecord.cleanup_depth r < levels a;
  rec_live : live r → MappingRecord.cleanup_depth r = 0;
}.

(** The record's tables down to level [k] are where its path says. *)
Definition on_tree (a : t) (node : gmap (list Z) Z) (r : MappingRecord.t) (k : nat) : Prop :=
  ∀ j, (j <= k)%nat → node !! take j (rpath a r) = rframes r !! j.

Record ledger (a : t) (node leaves : gmap (list Z) Z) : Prop := {
  lg_record i r : holds a i r → record_ok a r;
  lg_iova i j r r' : holds a i r → holds a j r' → MappingRecord.iova r = MappingRecord.iova r' → i = j;
  lg_physical i j r r' : holds a i r → holds a j r' →
    MappingRecord.physical_address r = MappingRecord.physical_address r' → i = j;
  lg_live i r : holds a i r → live r →
    on_tree a node r (depth a - 1) ∧ leaves !! rpath a r = Some (MappingRecord.leaf r);
  lg_path i r k f p : holds a i r → (k < retained_depth a r)%nat → rframes r !! k = Some f →
    node !! p = Some f → on_tree a node r k;
  lg_leaf q v : leaves !! q = Some v → ∃ i r, holds a i r ∧ live r ∧ rpath a r = q ∧ MappingRecord.leaf r = v;
}.

Definition retained (a : t) (f : Z) : Prop :=
  ∃ i r k, holds a i r ∧ (k < retained_depth a r)%nat ∧ rframes r !! k = Some f.

(** The table [f] at [p] is retained by a record other than the one in [skip]. *)
Definition supported (a : t) (skip : option nat) (p : list Z) (f : Z) : Prop :=
  p = [] ∨ ∃ i r k, Some i ≠ skip ∧ holds a i r ∧ (k < retained_depth a r)%nat ∧ take k (rpath a r) = p ∧ rframes r !! k = Some f.

(** Every frame of the memory is in the tree and serves some record. *)
Record closed (a : t) (skip : option nat) (t : gmap Z (list Z)) (node : gmap (list Z) Z) : Prop := {
  cl_dom f : is_Some (t !! f) → ∃ p, node !! p = Some f;
  cl_support p f : node !! p = Some f → supported a skip p f;
}.

(** ** Updates of one slot *)

Definition put_slot (a : t) (i : nat) (s : MappingSlot.t) : t := with_slots (<[i := s]> (slots a)) a.

Lemma holds_put a i s j r :
  (i < length (slots a))%nat →
  holds (put_slot a i s) j r ↔ (j = i ∧ MappingSlot.record s = Some r) ∨ (j ≠ i ∧ holds a j r).
Proof.
  intros Hi. unfold holds, put_slot. simpl. destruct (decide (j = i)) as [->|Hne].
  - rewrite list_lookup_insert_eq by done. naive_solver.
  - rewrite list_lookup_insert_ne by done. naive_solver.
Qed.

Lemma holds_bound a i r : holds a i r → (i < length (slots a))%nat.
Proof. intros (s & Hs & _). by eapply lookup_lt_Some. Qed.
Lemma holds_unique a i r r' : holds a i r → holds a i r' → r = r'.
Proof. intros (? & ? & ?) (? & ? & ?). congruence. Qed.

Lemma record_ok_put a i s r : record_ok (put_slot a i s) r ↔ record_ok a r.
Proof. split; intros []; by split. Qed.
Lemma config_ok_put a i s : config_ok a → config_ok (put_slot a i s).
Proof. intros []. split; try done. simpl. by rewrite length_insert. Qed.

Lemma iova_width a v : config_ok a → iova_ok a v → in_width (PAGE_SHIFT + 9 * levels a) v ∧ Z.land v (PAGE_SIZE - 1) = 0.
Proof.
  intros [Hl Hw _ _] [Hu Hv]. unfold validate_iova in Hv. rewrite Hw in Hv.
  destruct (negb _) eqn:Ha; [done|]. unfold checked_add in Hv. destruct (_ <? 2 ^ 64); [|done].
  unfold MAXIMUM_LEVELS, PAGE_SHIFT in *.
  destruct (12 + 9 * levels a <? 64) eqn:H64; [|bool_to_prop; lia]. simpl in Hv.
  destruct (_ <=? _) eqn:Hlast; [done|]. bool_to_prop. rewrite Z.shiftl_1_l in Hlast.
  split; [|done]. destruct Hu. split; [done|]. change (PAGE_SIZE - 1) with 4095 in Hlast. lia.
Qed.

Lemma rpath_inj a r r' :
  config_ok a → record_ok a r → record_ok a r' → rpath a r = rpath a r' →
  MappingRecord.iova r = MappingRecord.iova r'.
Proof.
  intros Hc Hr Hr' Heq. pose proof (cfg_levels _ Hc).
  destruct (iova_width a _ Hc (rec_iova _ _ Hr)), (iova_width a _ Hc (rec_iova _ _ Hr')).
  eapply (path_of_inj (levels a)); [lia|done..].
Qed.

Lemma rpath_length a r : config_ok a → length (rpath a r) = depth a.
Proof. intros Hc. pose proof (cfg_levels _ Hc). apply path_of_length. lia. Qed.

Lemma rframes_lookup a r k : record_ok a r → config_ok a → (k < depth a)%nat → is_Some (rframes r !! k).
Proof.
  intros Hr Hc Hk. apply lookup_lt_is_Some. rewrite (rec_frames _ _ Hr). pose proof (cfg_levels _ Hc).
  unfold depth in Hk. lia.
Qed.

Lemma retained_depth_le a r : record_ok a r → (retained_depth a r <= depth a)%nat.
Proof. intros Hr. pose proof (rec_cleanup _ _ Hr). unfold retained_depth, depth. lia. Qed.

Lemma rpath_same a i s x y : MappingRecord.iova x = MappingRecord.iova y → rpath (put_slot a i s) x = rpath a y.
Proof. unfold rpath. by intros ->. Qed.
Lemma rframes_same x y : MappingRecord.path x = MappingRecord.path y → rframes x = rframes y.
Proof. unfold rframes. by intros ->. Qed.
Lemma on_tree_same a i s node x y k :
  MappingRecord.iova x = MappingRecord.iova y → MappingRecord.path x = MappingRecord.path y →
  on_tree a node y k → on_tree (put_slot a i s) node x k.
Proof. intros Hi Hp Hon j Hj. rewrite (rpath_same a i s x y Hi), (rframes_same x y Hp). by apply Hon. Qed.

Section ledger.
Context (a : t) (Hc : config_ok a).
Implicit Types (node leaves : gmap (list Z) Z).

(** New nodes that no record retains change nothing for the records. *)
Lemma ledger_extends node node' leaves :
  ledger a node leaves → node ⊆ node' →
  (∀ p f, node' !! p = Some f → node !! p = Some f ∨ ¬ retained a f) → ledger a node' leaves.
Proof.
  intros [Hrec Hiova Hphys Hlive Hpath Hleaf] Hsub Hnew.
  assert (∀ i r k, holds a i r → (k < depth a)%nat → on_tree a node r k → on_tree a node' r k) as Hmono.
  { intros i r k Hr Hk Hon j Hj. destruct (rframes_lookup a r j) as [f Hf]; [by eapply Hrec|done|lia|].
    rewrite Hf. eapply lookup_weaken; [|done]. by rewrite Hon. }
  pose proof (cfg_levels _ Hc) as Hlv. split; try done.
  - intros i r Hr Hl. destruct (Hlive i r Hr Hl). split; [|done].
    eapply Hmono; [done| |done]. unfold depth. lia.
  - intros i r k f p Hr Hk Hf Hp. destruct (Hnew p f Hp) as [Hold|Hnot].
    + eapply Hmono; [done| |by eapply Hpath]. pose proof (retained_depth_le a r (Hrec _ _ Hr)). lia.
    + destruct Hnot. by exists i, r, k.
Qed.

Lemma ledger_insert node leaves i s r :
  ledger a node leaves → (i < length (slots a))%nat → (∀ r', ¬ holds a i r') →
  MappingSlot.record s = Some r → record_ok a r → live r → on_tree a node r (depth a - 1) →
  (∀ j r', holds a j r' → MappingRecord.iova r' ≠ MappingRecord.iova r ∧
                          MappingRecord.physical_address r' ≠ MappingRecord.physical_address r) →
  ledger (put_slot a i s) node (<[rpath a r := MappingRecord.leaf r]> leaves).
Proof.
  intros [Hrec Hiova Hphys Hlive Hpath Hleaf] Hi Hnone Hs Hok Hl Hon Hdiff.
  assert (∀ j r', holds a j r' → rpath a r ≠ rpath a r') as Hne.
  { intros j r' Hr' Heq. destruct (Hdiff j r' Hr') as [Hd _]. apply Hd. symmetry. eapply rpath_inj; eauto. }
  pose proof (λ j x, proj1 (holds_put a i s j x Hi)) as Hput. split.
  - intros j r' [[-> ?]|[_ Hr']]%Hput; apply record_ok_put; [by simplify_eq|eauto].
  - intros j k r1 r2 [[-> ?]|[_ H1]]%Hput [[-> ?]|[_ H2]]%Hput Heq; simplify_eq; try done; [| |eauto].
    + by destruct (Hdiff _ _ H2) as [[] _].
    + by destruct (Hdiff _ _ H1) as [[] _].
  - intros j k r1 r2 [[-> ?]|[_ H1]]%Hput [[-> ?]|[_ H2]]%Hput Heq; simplify_eq; try done; [| |eauto].
    + by destruct (Hdiff _ _ H2) as [_ []].
    + by destruct (Hdiff _ _ H1) as [_ []].
  - intros j r' [[-> ?]|[_ Hr']]%Hput Hl'; simplify_eq.
    + split; [done|]. apply lookup_insert_eq.
    + change (rpath (put_slot a i s) r') with (rpath a r'). rewrite lookup_insert_ne by eauto.
      by apply (Hlive j r').
  - intros j r' k f p [[-> ?]|[_ Hr']]%Hput Hk Hf Hp; simplify_eq.
    + intros k' Hk'. apply Hon. pose proof (retained_depth_le a r Hok).
      change (retained_depth (put_slot a i s) r) with (retained_depth a r) in Hk. lia.
    + by eapply (Hpath j r' k f p).
  - intros q v [[<- <-]|[Hq Hv]]%lookup_insert_Some.
    + exists i, r. split; [|done]. apply holds_put; [done|]. by left.
    + destruct (Hleaf q v Hv) as (j & r' & Hr' & ? & ? & ?). exists j, r'. split; [|done].
      apply holds_put; [done|]. right. split; [|done]. intros ->. by apply (Hnone r').
Qed.

(** Replacing a record by one with the same mapping. *)
Section replace.
Context node leaves leaves' i s r r'
  (Hled : ledger a node leaves) (Hr : holds a i r) (Hs : MappingSlot.record s = Some r')
  (Hi : MappingRecord.iova r' = MappingRecord.iova r)
  (Hph : MappingRecord.physical_address r' = MappingRecord.physical_address r)
  (Hlf : MappingRecord.leaf r' = MappingRecord.leaf r)
  (Hpa : MappingRecord.path r' = MappingRecord.path r)
  (Hok : record_ok a r').

Lemma replaced j x :
  holds (put_slot a i s) j x →
  ∃ y, holds a j y ∧ MappingRecord.iova x = MappingRecord.iova y ∧
       MappingRecord.physical_address x = MappingRecord.physical_address y ∧
       MappingRecord.path x = MappingRecord.path y ∧ (j ≠ i → x = y) ∧ (j = i → x = r' ∧ y = r).
Proof.
  intros [[-> ?]|[Hne Hx]]%holds_put; [| |by eapply holds_bound].
  - simplify_eq. exists r. by split_and!.
  - exists x. by split_and!.
Qed.

Lemma ledger_replace :
  (MappingRecord.cleanup_depth r <= MappingRecord.cleanup_depth r') →
  (live r' → live r) →
  (∀ j x, holds a j x → live x → j ≠ i ∨ live r' → leaves' !! rpath a x = Some (MappingRecord.leaf x)) →
  (∀ q v, leaves' !! q = Some v → leaves !! q = Some v ∧ (q = rpath a r → live r')) →
  ledger (put_slot a i s) node leaves'.
Proof.
  intros Hcl Hlv Hkeep Hsub. destruct Hled as [Hrec Hiova Hphys Hlive Hpath Hleaf]. split.
  - intros j x Hx. apply record_ok_put. destruct (replaced j x Hx) as (y & Hy & _ & _ & _ & Hsame & Hsw).
    destruct (decide (j = i)) as [e|n]; [destruct (Hsw e); by subst|rewrite (Hsame n); eauto].
  - intros j k x y (x' & Hx & Hx1 & _)%replaced (y' & Hy & Hy1 & _)%replaced Heq.
    eapply Hiova; [done..|congruence].
  - intros j k x y (x' & Hx & _ & Hx1 & _)%replaced (y' & Hy & _ & Hy1 & _)%replaced Heq.
    eapply Hphys; [done..|congruence].
  - intros j x (y & Hy & Hyi & _ & Hyp & Hsame & Hsw)%replaced Hl.
    assert (live y ∧ (j ≠ i ∨ live r') ∧ MappingRecord.leaf x = MappingRecord.leaf y) as (Hly & Hor & Hle).
    { destruct (decide (j = i)) as [e|n]; [destruct (Hsw e); subst; auto|rewrite (Hsame n) in *; auto]. }
    rewrite (rpath_same a i s x y Hyi), Hle. split; [|by eapply Hkeep].
    eapply on_tree_same; [done..|]. by apply (Hlive j y).
  - intros j x k f p (y & Hy & Hyi & _ & Hyp & Hsame & Hsw)%replaced Hk Hf Hp.
    eapply on_tree_same; [done..|]. rewrite (rframes_same x y Hyp) in Hf. eapply (Hpath j y k f p); [done| |done..].
    change (retained_depth (put_slot a i s) x) with (retained_depth a x) in Hk. unfold retained_depth in *.
    destruct (decide (j = i)) as [e|n]; [destruct (Hsw e); subst; lia|by rewrite <-(Hsame n)].
  - intros q v Hv. destruct (Hsub q v Hv) as [Hold Himp]. destruct (Hleaf q v Hold) as (j & x & Hx & Hl & Hq & Hvx).
    destruct (decide (j = i)) as [->|Hne].
    + pose proof (holds_unique _ _ _ _ Hx Hr) as ->. exists i, r'. split_and!.
      * apply holds_put; [by eapply holds_bound|]. by left.
      * by apply Himp.
      * unfold rpath. rewrite Hi. by subst q.
      * congruence.
    + exists j, x. split_and!; try done. apply holds_put; [by eapply holds_bound|]. by right.
Qed.
End replace.

(** A table without entries is on no live path and above no table. *)
Definition childless node leaves (q : list Z) : Prop :=
  ∀ x, node !! (q ++ [x]) = None ∧ leaves !! (q ++ [x]) = None.

Lemma take_path r j :
  (j < depth a)%nat → ∃ x, take (S j) (rpath a r) = take j (rpath a r) ++ [x].
Proof.
  intros Hj. destruct (lookup_lt_is_Some_2 (rpath a r) j) as [x Hx]; [by rewrite rpath_length|].
  exists x. by apply take_S_r.
Qed.
Lemma take_path_all r : take (depth a) (rpath a r) = rpath a r.
Proof. apply take_ge. by rewrite rpath_length. Qed.
Lemma take_path_length r j : (j <= depth a)%nat → length (take j (rpath a r)) = j.
Proof. intros Hj. rewrite length_take, rpath_length by done. lia. Qed.
Lemma depth_bounds : (2 <= depth a <= 5)%nat.
Proof. pose proof (cfg_levels _ Hc) as Hl. unfold MAXIMUM_LEVELS in Hl. unfold depth. lia. Qed.

Lemma on_tree_above node leaves r k q :
  record_ok a r → on_tree a node r k → (k < depth a)%nat → childless node leaves q →
  ∀ j, (j < k)%nat → take j (rpath a r) ≠ q.
Proof.
  intros Hr Hon Hk Hq j Hj Heq. destruct (take_path r j) as [x Hx]; [lia|].
  destruct (rframes_lookup a r (S j) Hr Hc) as [f Hf]; [lia|].
  specialize (Hon (S j) ltac:(lia)). rewrite Hx, Heq, Hf in Hon. destruct (Hq x). congruence.
Qed.

Lemma ledger_prune node leaves q c :
  (∀ p p' f, node !! p = Some f → node !! p' = Some f → p = p') →
  ledger a node leaves → node !! q = Some c → childless node leaves q → ledger a (delete q node) leaves.
Proof.
  intros Hinj [Hrec Hiova Hphys Hlive Hpath Hleaf] Hq Hless. pose proof depth_bounds as Hd. split; try done.
  - intros i r Hr Hl. destruct (Hlive i r Hr Hl) as [Hon Hlf]. split; [|done]. intros j Hj.
    rewrite lookup_delete_ne; [by apply Hon|]. intros ->. destruct (decide (j = depth a - 1)%nat) as [->|Hne].
    + destruct (take_path r (depth a - 1)) as [x Hx]; [lia|].
      replace (S (depth a - 1)) with (depth a) in Hx by lia. rewrite take_path_all in Hx. rewrite Hx in Hlf.
      destruct (Hless x). congruence.
    + eapply (on_tree_above node leaves r (depth a - 1)); [by eapply Hrec|done|lia|done| |done]. lia.
  - intros i r k f p Hr Hk Hf [Hne Hp]%lookup_delete_Some.
    pose proof (Hpath i r k f p Hr Hk Hf Hp) as Hon. pose proof (retained_depth_le a r (Hrec _ _ Hr)).
    intros j Hj. rewrite lookup_delete_ne; [by apply Hon|]. intros ->. destruct (decide (j = k)) as [->|Hjk].
    + apply Hne. eapply Hinj; [|done]. by rewrite (Hon k (le_n k)).
    + eapply (on_tree_above node leaves r k); [by eapply Hrec|done|lia|done| |done]. lia.
Qed.

Lemma ledger_retire node leaves i s r :
  ledger a node leaves → holds a i r → ¬ live r → MappingSlot.record s = None →
  ledger (put_slot a i s) node leaves.
Proof.
  intros [Hrec Hiova Hphys Hlive Hpath Hleaf] Hr Hl Hs. pose proof (holds_bound _ _ _ Hr) as Hi.
  assert (∀ j x, holds (put_slot a i s) j x → holds a j x) as Hput.
  { intros j x [[_ ?]|[_ ?]]%holds_put; [congruence|done|done]. }
  split; [intros j x Hx%Hput; apply record_ok_put; eauto|eauto..|]. intros q v Hv. destruct (Hleaf q v Hv) as (j & x & Hx & Hlx & ? & ?). exists j, x. split; [|done].
  apply holds_put; [done|]. right. split; [|done]. intros ->. by rewrite (holds_unique _ _ _ _ Hx Hr) in Hlx.
Qed.

(** ** Support *)

Lemma supported_put skip i s r p f :
  holds a i r → (∀ k, take k (rpath a r) = p → rframes r !! k = Some f → (k < retained_depth a r)%nat → p ≠ [] →
     ∃ r', MappingSlot.record s = Some r' ∧ MappingRecord.iova r' = MappingRecord.iova r ∧
           MappingRecord.path r' = MappingRecord.path r ∧ (k < retained_depth a r')%nat) →
  supported a skip p f → supported (put_slot a i s) skip p f.
Proof.
  intros Hr Hnew [->|(j & x & k & Hsk & Hx & Hk & Hp & Hf)]; [by left|].
  destruct (decide (p = [])) as [->|Hpne]; [by left|]. right. pose proof (holds_bound _ _ _ Hr) as Hi.
  destruct (decide (j = i)) as [->|Hne].
  - rewrite (holds_unique _ _ _ _ Hx Hr) in *. destruct (Hnew k) as (r' & Hs & Hiv & Hpt & Hk'); [done..|].
    exists i, r', k. split; [done|]. split; [apply holds_put; [done|]; by left|]. split; [done|].
    by rewrite (rpath_same a i s r' r Hiv), (rframes_same r' r Hpt).
  - exists j, x, k. split; [done|]. split; [apply holds_put; [done|]; by right|]. done.
Qed.

Lemma closed_rephase skip t node i s r ph :
  closed a skip t node → holds a i r → MappingSlot.record s = Some (MappingRecord.with_phase ph r) →
  closed (put_slot a i s) skip t node.
Proof.
  intros [Hdom Hsup] Hr Hs. split; [done|]. intros p f Hp. eapply supported_put; [done| |by apply Hsup].
  intros k _ _ Hk _. eauto.
Qed.

Lemma closed_retire t node i s r :
  closed a (Some i) t node → holds a i r → closed (put_slot a i s) None t node.
Proof.
  intros [Hdom Hsup] Hr. split; [done|]. intros p f Hp.
  destruct (Hsup p f Hp) as [->|(j & x & k & Hsk & Hx & Hk)]; [by left|right]. exists j, x, k. split; [done|].
  split; [|done]. apply holds_put; [by eapply holds_bound|]. right. split; [congruence|done].
Qed.

Lemma closed_insert t node t' node' i s r :
  closed a None t node → (i < length (slots a))%nat → (∀ r', ¬ holds a i r') →
  MappingSlot.record s = Some r → (∀ f, is_Some (t' !! f) → ∃ p, node' !! p = Some f) →
  (∀ p f, node' !! p = Some f → node !! p = Some f ∨
    ∃ k, (k < retained_depth a r)%nat ∧ take k (rpath a r) = p ∧ rframes r !! k = Some f) →
  closed (put_slot a i s) None t' node'.
Proof.
  intros [Hdom Hsup] Hi Hnone Hs Hdom' Hnew. split; [done|]. intros p f Hp.
  destruct (Hnew p f Hp) as [Hold|(k & Hk & Hkp & Hkf)].
  - destruct (Hsup p f Hold) as [->|(j & x & k & Hsk & Hx & Hk)]; [by left|right]. exists j, x, k.
    split; [done|]. split; [|done]. apply holds_put; [done|]. right. split; [|done]. intros ->. by apply (Hnone x).
  - right. exists i, r, k. split; [done|]. split; [|done]. apply holds_put; [done|]. by left.
Qed.

(** Releasing the deepest retained table of [r]. *)
Lemma closed_release t node i s r k f l c x :
  closed a None t node → holds a i r → S k = retained_depth a r → (0 < k)%nat →
  MappingSlot.record s = Some (MappingRecord.with_cleanup (MappingRecord.cleanup_depth r + 1) r) →
  (∀ p p' f, node !! p = Some f → node !! p' = Some f → p = p') →
  node !! take k (rpath a r) = Some c → is_Some (t !! f) →
  closed (put_slot a i s) None (delete c (<[f := <[x := 0]> l]> t)) (delete (take k (rpath a r)) node).
Proof.
  intros [Hdom Hsup] Hr Hk Hk0 Hs Hinj Hc' Hf. split.
  - intros g [lg [Hg Hlg]%lookup_delete_Some]. destruct (Hdom g) as [p Hp].
    { destruct (decide (f = g)) as [->|]; [done|]. rewrite lookup_insert_ne in Hlg by done. by eexists. }
    exists p. rewrite lookup_delete_ne; [done|]. intros <-. congruence.
  - intros p g [Hne Hp]%lookup_delete_Some. eapply supported_put; [done| |by apply Hsup].
    intros k' Hk' _ Hlt _. eexists. split; [exact Hs|]. split; [done|]. split; [done|].
    assert (k' ≠ k) by (intros ->; done). unfold retained_depth in *. simpl. lia.
Qed.

(** When the deepest retained table of a dying record has an entry, another
    record retains that table and every one above it. *)
Lemma supporter t node leaves i r k x :
  tree (root a) (depth a) t node leaves → ledger a node leaves → closed a None t node →
  holds a i r → ¬ live r → S k = retained_depth a r →
  expect (depth a) node leaves (take k (rpath a r) ++ [x]) ≠ 0 →
  ∃ j r', j ≠ i ∧ holds a j r' ∧ (k < retained_depth a r')%nat ∧
          take k (rpath a r') = take k (rpath a r) ∧ on_tree a node r' k.
Proof.
  intros Ht Hled Hcl Hr Hl Hk Hx. pose proof depth_bounds as Hd.
  assert (S k <= depth a)%nat as Hkd by (rewrite Hk; apply retained_depth_le; by eapply lg_record).
  assert (length (take k (rpath a r) ++ [x]) = S k) as Hlen by (rewrite length_app, take_path_length by lia; simpl; lia).
  assert (take k (take k (rpath a r) ++ [x]) = take k (rpath a r)) as Htake
    by (rewrite take_app_le by (rewrite take_path_length; lia); by rewrite take_take, Nat.min_id).
  unfold expect in Hx. rewrite Hlen in Hx. case_decide as Hfull.
  - destruct (leaves !! _) as [v|] eqn:Hv; [|done].
    destruct (lg_leaf _ _ _ Hled _ _ Hv) as (j & r' & Hr' & Hl' & Hq & _). exists j, r'.
    pose proof (lg_record _ _ _ Hled _ _ Hr') as Hok. pose proof (rec_live _ _ Hok Hl') as H0. split_and!.
    + intros ->. by rewrite (holds_unique _ _ _ _ Hr' Hr) in Hl'.
    + done.
    + unfold retained_depth. rewrite H0. unfold depth in *. lia.
    + by rewrite Hq.
    + intros y Hy. apply (lg_live _ _ _ Hled _ _ Hr' Hl'). lia.
  - destruct (node !! _) as [c|] eqn:Hc'; [|done].
    destruct (cl_support _ _ _ _ Hcl _ _ Hc') as [Hnil|(j & r' & k' & _ & Hr' & Hk' & Hp & Hf)]; [by destruct (take k (rpath a r))|].
    pose proof (lg_record _ _ _ Hled _ _ Hr') as Hok. pose proof (retained_depth_le a r' Hok).
    assert (k' = S k) as -> by (rewrite <-Hlen, <-Hp, take_path_length; lia).
    pose proof (lg_path _ _ _ Hled _ _ _ _ _ Hr' Hk' Hf Hc') as Hon. exists j, r'. split_and!.
    + intros ->. rewrite (holds_unique _ _ _ _ Hr' Hr) in Hk'. lia.
    + done.
    + lia.
    + rewrite <-Htake, <-Hp, take_take. f_equal. lia.
    + intros y Hy. apply Hon. lia.
Qed.

Lemma closed_skip t node leaves i r k x :
  tree (root a) (depth a) t node leaves → ledger a node leaves → closed a None t node →
  holds a i r → ¬ live r → S k = retained_depth a r →
  expect (depth a) node leaves (take k (rpath a r) ++ [x]) ≠ 0 → closed a (Some i) t node.
Proof.
  intros Ht Hled Hcl Hr Hl Hk Hx. pose proof Hcl as [Hdom Hsup]. split; [done|]. intros p f Hp.
  destruct (Hsup p f Hp) as [->|(j & r1 & k1 & _ & Hr1 & Hk1 & Hp1 & Hf1)]; [by left|right].
  destruct (decide (j = i)) as [->|Hne]; [|exists j, r1, k1; split; [congruence|done]].
  pose proof (holds_unique _ _ _ _ Hr1 Hr) as ->.
  destruct (supporter t node leaves i r k x) as (j & r' & Hne & Hr' & Hk' & Htake & Hon); [done..|].
  assert (take k1 (rpath a r') = p) as Hp'.
  { rewrite <-Hp1. apply (f_equal (take k1)) in Htake. by rewrite !take_take, Nat.min_l in Htake by lia. }
  exists j, r', k1. split; [congruence|]. split_and!; [done|lia|done|]. rewrite <-(Hon k1), Hp' by lia. done.
Qed.

Lemma closed_top t node i r :
  closed a None t node → holds a i r → (retained_depth a r <= 1)%nat → closed a (Some i) t node.
Proof.
  intros [Hdom Hsup] Hr Hk. split; [done|]. intros p f Hp.
  destruct (Hsup p f Hp) as [->|(j & r1 & k1 & _ & Hr1 & Hk1 & Hp1 & Hf1)]; [by left|].
  destruct (decide (j = i)) as [->|Hne]; [|right; exists j, r1, k1; split; [congruence|done]].
  rewrite (holds_unique _ _ _ _ Hr1 Hr) in *. left. by assert (k1 = 0%nat) as -> by lia.
Qed.
End ledger.
