(* ===== verification/SlptPath.v ===== *)
(** * Building and undoing a path

    Symbolic execution of [build_path] and [rollback_new_links] of [Slpt]
    against the memory laws: a build extends the tree along the index path of
    its address, and a rollback gives back the very tables it started from,
    unless a release or a write fails on the way. *)
From S2P Require Import Prelude Slpt SlptTree SlptLedger.
Import Slpt.

Lemma wp_zoom {S T E A} (sel : S → T) upd (m : M T E A) Q R s :
  wp (zoom sel upd m) Q R s = wp m (λ a t, Q a (upd t s)) (λ e t, R e (upd t s)) (sel s).
Proof. unfold wp, zoom. by destruct (m (sel s)). Qed.

Section path.
Context {S I : Type} {HM : SlptPageMemory S} {HML : SlptMemoryLaws S}.
Implicit Types (w : world S I).

Definition T w : gmap Z (list Z) := tables (memory w).

(** Only the memory moved, to the tables [t]. *)
Definition moved w w' (t : gmap Z (list Z)) : Prop :=
  slpt w' = slpt w ∧ invalidator w' = invalidator w ∧ mem_ok (memory w') ∧ T w' = t.

Lemma moved_trans w w' w'' t t' : moved w w' t → moved w' w'' t' → moved w w'' t'.
Proof. intros (? & ? & ? & ?) (? & ? & ? & ?). split_and!; congruence. Qed.
Lemma moved_refl w : mem_ok (memory w) → moved w w (T w).
Proof. intros Hw. by repeat (split; [done|]). Qed.

Section memory.
Context {E : Type} (w : world S I) (Hw : mem_ok (memory w)).

Lemma wp_allocate (Q : Z → world S I → Prop) R :
  (∀ c l w', frame_ok c → T w !! c = None → length l = Z.to_nat ENTRIES_PER_TABLE →
     moved w w' (<[c := l]> (T w)) → Q c w') →
  (∀ e w', moved w w' (T w) → R e w') → wp (on_memory allocate_table) Q R w.
Proof.
  intros HQ HR. unfold on_memory. rewrite wp_zoom. eapply wp_mono; [by apply allocate_law| |].
  - intros c s (? & ? & ? & l & ? & ?). by apply (HQ c l).
  - intros e s [? ?]. by apply HR.
Qed.

Lemma wp_zero f l (Q : unit → world S I → Prop) R :
  T w !! f = Some l →
  (∀ w', moved w w' (<[f := replicate (Z.to_nat ENTRIES_PER_TABLE) 0]> (T w)) → Q () w') →
  (∀ e w', moved w w' (T w) → R e w') → wp (on_memory (zero_table f)) Q R w.
Proof.
  intros Hf HQ HR. unfold on_memory. rewrite wp_zoom. eapply wp_mono; [by eapply zero_law| |].
  - intros [] s [? ?]. by apply HQ.
  - intros e s [? ?]. by apply HR.
Qed.

Lemma wp_write f l i v (Q : unit → world S I → Prop) R :
  T w !! f = Some l → index_ok i → u64 v →
  (∀ w', moved w w' (<[f := <[Z.to_nat i := v]> l]> (T w)) → Q () w') →
  (∀ e w', moved w w' (T w) → R e w') → wp (on_memory (write_entry f i v)) Q R w.
Proof.
  intros Hf Hi Hv HQ HR. unfold on_memory. rewrite wp_zoom. eapply wp_mono; [by eapply write_law| |].
  - intros [] s [? ?]. by apply HQ.
  - intros e s [? ?]. by apply HR.
Qed.

Lemma slpt_wp_release f l (Q : unit → world S I → Prop) R :
  T w !! f = Some l →
  (∀ w', moved w w' (delete f (T w)) → Q () w') →
  (∀ e w', moved w w' (T w) → R e w') → wp (on_memory (release_table f)) Q R w.
Proof.
  intros Hf HQ HR. unfold on_memory. rewrite wp_zoom. eapply wp_mono; [by eapply release_law| |].
  - intros [] s [? ?]. by apply HQ.
  - intros e s [? ?]. by apply HR.
Qed.

Lemma wp_load f i (Q : Z → world S I → Prop) R :
  index_ok i → (∀ l v, T w !! f = Some l → l !! Z.to_nat i = Some v → Q v w) →
  (∀ e, R e w) → wp (load f i) Q R w.
Proof.
  intros Hi HQ HR. unfold load. wp_simpl. destruct (read_entry _ _ _) eqn:Hread; [|done].
  eapply read_law in Hread as (l & ? & ?); eauto.
Qed.
End memory.

Lemma wp_self {E} w (Q : t → world S I → Prop) (R : E → world S I → Prop) : wp self Q R w = Q (slpt w) w.
Proof. reflexivity. Qed.
Lemma wp_poison {E} w (Q : unit → world S I → Prop) (R : E → world S I → Prop) :
  wp poison Q R w = Q () (World (with_state Poisoned (slpt w)) (memory w) (invalidator w)).
Proof. reflexivity. Qed.
Lemma wp_on_world {E A} (m : M (world S I) E A) w b Q R :
  wp (on_world m) Q R (w, b) = wp m (λ a w', Q a (w', b)) (λ e w', R e (w', b)) w.
Proof. unfold on_world. by rewrite wp_zoom. Qed.

(** ** Links *)

#[local] Abbreviation zeros := (replicate (Z.to_nat ENTRIES_PER_TABLE) 0).

Section links.
Context (a : t) (Hc : config_ok a) (leaves : gmap (list Z) Z).
Implicit Types (t : gmap Z (list Z)) (n : gmap (list Z) Z).
#[local] Abbreviation tree := (tree (root a) (depth a)).

(** The tables and nodes reached by linking fresh tables one after another. *)
Inductive linked t0 n0 : gmap Z (list Z) → gmap (list Z) Z → list NewLink.t → Prop :=
| linked_nil : linked t0 n0 t0 n0 []
| linked_snoc t n links p f l i c :
    linked t0 n0 t n links →
    n !! p = Some f → t !! f = Some l → l !! Z.to_nat i = Some 0 → index_ok i →
    (length (p ++ [i]) < depth a)%nat → n !! (p ++ [i]) = None →
    t !! c = None → frame_ok c → ¬ retained a c →
    linked t0 n0 (<[f := <[Z.to_nat i := Z.lor c PERMISSION_MASK]> l]> (<[c := zeros]> t))
      (<[p ++ [i] := c]> n) (links ++ [NewLink.mk f i c]).

(** What stays true of the records at every stage. *)
Definition grown n0 t n : Prop :=
  tree t n leaves ∧ n0 ⊆ n ∧ ∀ p f, n !! p = Some f → n0 !! p = Some f ∨ ¬ retained a f.

Lemma grown_ledger n0 t n : ledger a n0 leaves → grown n0 t n → ledger a n leaves.
Proof. intros Hl (_ & Hsub & Hnew). by eapply ledger_extends. Qed.

Lemma grown_outside n0 t n c l : grown n0 t n → t !! c = None → grown n0 (<[c := l]> t) n.
Proof.
  intros (Ht & Hsub & Hnew) Hnone. split_and!; [|done..]. eapply tree_outside; [done|].
  intros p f Hp. apply lookup_insert_ne. intros ->. by eapply not_node.
Qed.

Lemma grown_link n0 t n p f l i c :
  grown n0 t n → n !! p = Some f → t !! f = Some l → index_ok i →
  (length (p ++ [i]) < depth a)%nat → n !! (p ++ [i]) = None → t !! c = None → frame_ok c → ¬ retained a c →
  grown n0 (<[f := <[Z.to_nat i := Z.lor c PERMISSION_MASK]> l]> (<[c := zeros]> t)) (<[p ++ [i] := c]> n).
Proof.
  intros Hg Hp Hf Hi Hlen Hnone Hc' Hok Hret.
  pose proof (grown_outside n0 t n c zeros Hg Hc') as (Ht & Hsub & Hnew). destruct Hg as (Ht0 & _).
  split_and!.
  - eapply tree_link; try done.
    + rewrite lookup_insert_ne; [done|]. intros ->. congruence.
    + intros q. by apply (not_node _ _ _ _ _ _ q Ht0).
    + apply lookup_insert_eq.
  - etrans; [done|]. by apply insert_subseteq.
  - intros q g [[<- <-]|[_ Hg]]%lookup_insert_Some; [by right|by apply Hnew].
Qed.

Lemma linked_grown t0 n0 t n links : tree t0 n0 leaves → linked t0 n0 t n links → grown n0 t n.
Proof.
  intros Ht. induction 1 as [|t n links p f l i c Hlk IH]; [split_and!; [done..|auto]|].
  by eapply grown_link.
Qed.

Lemma linked_dom t0 n0 t n links f : linked t0 n0 t n links → t !! f = None → t0 !! f = None.
Proof.
  induction 1 as [|t n links p g l i c Hlk IH]; [done|].
  intros [[Hf _]%lookup_insert_None _]%lookup_insert_None. auto.
Qed.

Lemma linked_nodes t0 n0 t n links :
  (∀ f, is_Some (t0 !! f) → ∃ p, n0 !! p = Some f) → linked t0 n0 t n links →
  ∀ f, is_Some (t !! f) → ∃ p, n !! p = Some f.
Proof.
  intros H0. induction 1 as [|t n links p g l i c Hlk IH Hp Hg Hl0 Hi Hlen Hnone Hc']; [done|].
  intros f [x Hf]. destruct (decide (f = c)) as [->|Hne]; [exists (p ++ [i]); apply lookup_insert_eq|].
  destruct (IH f) as [q Hq].
  - destruct (decide (f = g)) as [->|Hgf]; [by eexists|]. rewrite !lookup_insert_ne in Hf by done. by eexists.
  - exists q. rewrite lookup_insert_ne; [done|]. intros <-. congruence.
Qed.

(** No new table is one that a record still retains. *)
Lemma linked_new t0 n0 t n links f :
  linked t0 n0 t n links → is_Some (t !! f) → is_Some (t0 !! f) ∨ ¬ retained a f.
Proof.
  induction 1 as [|t n links p g l i c Hlk IH Hp Hg Hl0 Hi Hlen Hnone Hc' Hok Hret]; [by left|].
  intros [x [[<- _]|[_ [[<- _]|[_ Hf]]%lookup_insert_Some]]%lookup_insert_Some]; [by apply IH|by right|by apply IH].
Qed.

(** A table that is not part of the story can be carried along. *)
Lemma linked_extra t0 n0 t n links x lx :
  linked t0 n0 t n links → t !! x = None → linked (<[x := lx]> t0) n0 (<[x := lx]> t) n links.
Proof.
  induction 1 as [|t n links p f l i c Hlk IH Hp Hf Hl0 Hi Hlen Hnone Hc']; [constructor|].
  intros [[Hx Hxc]%lookup_insert_None Hxf]%lookup_insert_None.
  rewrite insert_insert_ne by done. rewrite (insert_insert_ne t x c) by done.
  econstructor; [by apply IH|done|by rewrite lookup_insert_ne|done..|by rewrite lookup_insert_ne|done|done].
Qed.

(** Undoing the last link; when it fails, the link stands or its table is left
    outside the tree. *)
Lemma rollback_link_ok n0 t n p f l i c w :
  grown n0 t n → n !! p = Some f → t !! f = Some l → l !! Z.to_nat i = Some 0 → index_ok i →
  (length (p ++ [i]) < depth a)%nat → n !! (p ++ [i]) = None → t !! c = None → frame_ok c → ¬ retained a c →
  mem_ok (memory w) → T w = <[f := <[Z.to_nat i := Z.lor c PERMISSION_MASK]> l]> (<[c := zeros]> t) →
  wp (rollback_link (NewLink.mk f i c)) (λ _ w', moved w w' t)
    (λ _ w', ∃ t' n', moved w w' t' ∧ grown n0 t' n') w.
Proof.
  intros Hg Hp Hf Hl0 Hi Hlen Hnone Hc' Hok Hret Hw HT.
  pose proof (grown_link _ _ _ _ _ _ _ _ Hg Hp Hf Hi Hlen Hnone Hc' Hok Hret) as Hg'. rewrite <-HT in Hg'.
  pose proof (grown_outside _ _ _ c zeros Hg Hc') as Hgo.
  assert (u64 (Z.lor c PERMISSION_MASK)) as Hu.
  { apply frame_ok_spec in Hok as (? & _ & ?). by apply entry_u64. }
  assert (f ≠ c) as Hfc by (intros ->; congruence).
  assert (<[f := l]> (<[c := zeros]> t) = <[c := zeros]> t) as Hback
    by (apply insert_id; by rewrite lookup_insert_ne).
  unfold rollback_link. cbn [NewLink.parent NewLink.index NewLink.child]. wp_simpl.
  eapply wp_write; [done|rewrite HT; apply lookup_insert_eq|done|done| |eauto].
  intros w1 Hm1. rewrite HT, insert_insert_eq, list_insert_insert_eq, (list_insert_id l), Hback in Hm1 by done.
  pose proof Hm1 as (_ & _ & Hw1 & HT1). wp_simpl.
  eapply slpt_wp_release; [done|rewrite HT1; apply lookup_insert_eq|..].
  - intros w2 Hm2. rewrite HT1, delete_insert_id in Hm2 by done. wp_simpl. by eapply moved_trans.
  - intros e w2 Hm2. rewrite HT1 in Hm2. pose proof (moved_trans _ _ _ _ _ Hm1 Hm2) as Hm.
    destruct Hm2 as (_ & _ & Hw2 & HT2). wp_simpl.
    eapply (wp_write _ Hw2 f l); [by rewrite HT2, lookup_insert_ne|done|done|..].
    + intros w3 Hm3. rewrite HT2, <-HT in Hm3. wp_simpl. eexists _, _. split; [by eapply moved_trans|done].
    + intros e' w3 Hm3. rewrite HT2 in Hm3. wp_simpl. eexists _, _. split; [by eapply moved_trans|done].
Qed.

Lemma slpt_rollback_ok t0 n0 t n links w :
  tree t0 n0 leaves → linked t0 n0 t n links → mem_ok (memory w) → T w = t →
  wp (mfor (rev links) rollback_link) (λ _ w', moved w w' t0)
    (λ _ w', ∃ t' n', moved w w' t' ∧ grown n0 t' n') w.
Proof.
  intros Ht0 Hlk. revert w. induction Hlk as [|t n links p f l i c Hlk IH Hp Hf Hl0 Hi Hlen Hnone Hc' Hok Hret];
    intros w Hw HT; [simpl; rewrite wp_ret, <-HT; by apply moved_refl|].
  rewrite rev_app_distr. cbn [rev app mfor]. rewrite wp_bind. eapply wp_mono.
  - eapply (rollback_link_ok n0 t n p f l i c); try done. by eapply linked_grown.
  - intros [] w1 Hm1. eapply wp_mono; [apply IH; apply Hm1| |].
    + intros [] w2 Hm2. by eapply moved_trans.
    + intros e w2 (t' & n' & Hm2 & Hg2). exists t', n'. split; [by eapply moved_trans|done].
  - done.
Qed.

(** ** Known frames *)

Lemma existsb_take f k (l : list Z) :
  existsb (Z.eqb f) (take k l) = true ↔ ∃ j, (j < k)%nat ∧ l !! j = Some f.
Proof.
  rewrite existsb_exists. split.
  - intros (x & Hx & ->%Z.eqb_eq). apply list_elem_of_In, list_elem_of_lookup in Hx as [j Hj].
    apply lookup_take_Some in Hj as [? ?]. eauto.
  - intros (j & Hj & Hl). exists f. split; [|apply Z.eqb_refl].
    apply list_elem_of_In, list_elem_of_lookup. exists j. by apply lookup_take_Some.
Qed.

Definition slot_retains (f : Z) (s : MappingSlot.t) : Prop :=
  ∃ r k, MappingSlot.record s = Some r ∧ (k < retained_depth a r)%nat ∧ rframes r !! k = Some f.

Lemma slots_know_ok {X E} f l (Q : bool → X → Prop) (R : E → X → Prop) x :
  Forall (λ s, ∀ r, MappingSlot.record s = Some r → record_ok a r) l →
  (∀ b : bool, b = true ↔ Exists (slot_retains f) l → Q b x) → wp (slots_know f l) Q R x.
Proof.
  pose proof (cfg_levels _ Hc) as Hlv. unfold MAXIMUM_LEVELS in Hlv.
  induction l as [|s l IH]; intros Hall HQ.
  - simpl. rewrite wp_ret. apply HQ. by rewrite Exists_nil.
  - apply Forall_cons in Hall as [Hs Hall]. simpl. destruct (MappingSlot.record s) as [r|] eqn:Hr.
    + pose proof (Hs r eq_refl) as Hok. pose proof (rec_cleanup _ _ Hok). pose proof (rec_frames _ _ Hok) as Hlen.
      rewrite (rec_depth _ _ Hok). change (PagePath.frames (MappingRecord.path r)) with (rframes r).
      rewrite !wp_bind. apply wp_sub; [lia|]. rewrite !wp_bind.
      apply wp_slice_to; [rewrite Hlen; unfold MAXIMUM_LEVELS; lia|].
      destruct (existsb _ _) eqn:Hex.
      * rewrite wp_ret. apply HQ. split; [intros _|done]. left.
        apply existsb_take in Hex as (j & Hj & Hf). by exists r, j.
      * apply IH; [done|]. intros b Hb. apply HQ. rewrite Exists_cons, Hb. split; [by right|].
        intros [(r' & k & Hr' & Hk & Hf)|?]; [|done]. simplify_eq.
        assert (existsb (Z.eqb f) (take (retained_depth a r) (rframes r)) = true) as Ht by (apply existsb_take; eauto).
        unfold retained_depth in Ht. congruence.
    + apply IH; [done|]. intros b Hb. apply HQ. rewrite Exists_cons, Hb. split; [by right|].
      intros [(r' & k & Hr' & _)|?]; [congruence|done].
Qed.

Lemma frame_is_known_ok {X E} f (Q : bool → X → Prop) (R : E → X → Prop) x :
  (∀ i r, holds a i r → record_ok a r) →
  (∀ b : bool, b = true ↔ f = root a ∨ retained a f → Q b x) → wp (frame_is_known a f) Q R x.
Proof.
  intros Hrec HQ. unfold frame_is_known. destruct (Z.eqb_spec f (root a)) as [->|Hne].
  { rewrite wp_ret. apply HQ. naive_solver. }
  apply slots_know_ok.
  - apply Forall_lookup. intros i s Hs r Hr. apply (Hrec i). by exists s.
  - intros b Hb. apply HQ. rewrite Hb, Exists_exists. split.
    + intros (s & Hs & r & k & Hr & Hk & Hf). apply list_elem_of_lookup in Hs as [i Hi].
      right. exists i, r, k. split; [by exists s|done].
    + intros [?|(i & r & k & (s & Hs & Hr) & Hk & Hf)]; [done|]. exists s.
      split; [by eapply list_elem_of_lookup_2|]. by exists r, k.
Qed.

(** ** Building *)

Section build.
Context (w0 : world S I) (t0 : gmap Z (list Z)) (n0 : gmap (list Z) Z) (iova : Z)
  (Ht0 : tree t0 n0 leaves) (Hled : ledger a n0 leaves) (Hcl : closed a None t0 n0).
#[local] Abbreviation idx := (path_of (levels a) iova).

Definition links_of (b : build) : list NewLink.t := take (Z.to_nat (new_link_count b)) (new_links b).

(** The parts of a build that do not depend on the position. *)
Record shape (w : world S I) (b : build) (count : Z) : Prop := {
  sh_inv : invalidator w = invalidator w0;
  sh_mem : mem_ok (memory w);
  sh_links : length (new_links b) = Z.to_nat (MAXIMUM_LEVELS - 1);
  sh_count : 0 <= new_link_count b <= count;
}.

(** How a build ends early: the links made so far, over the original tables or
    over those and one table that could not be given back. *)
Definition failed (e : SlptFault) (s : building S I) : Prop :=
  ∃ t n, shape (fst s) (snd s) (MAXIMUM_LEVELS - 1) ∧
    linked t n0 (T (fst s)) n (links_of (snd s)) ∧
    (t = t0 ∨ ∃ c l, t0 !! c = None ∧ t = <[c := l]> t0) ∧
    (slpt (fst s) = a ∧ (t = t0 ∨ e = RollbackFailed) ∨ slpt (fst s) = with_state Poisoned a).

Lemma failed_clean e w b n :
  shape w b (MAXIMUM_LEVELS - 1) → linked t0 n0 (T w) n (links_of b) →
  slpt w = a ∨ slpt w = with_state Poisoned a → failed e (w, b).
Proof. intros Hs Hlk Ha. exists t0, n. split_and!; [done|done|by left|]. destruct Ha; auto. Qed.

Lemma failed_extra e w w' b n c l :
  shape w b (MAXIMUM_LEVELS - 1) → linked t0 n0 (T w) n (links_of b) → T w !! c = None →
  invalidator w' = invalidator w → mem_ok (memory w') → T w' = <[c := l]> (T w) →
  (slpt w' = a ∧ e = RollbackFailed) ∨ slpt w' = with_state Poisoned a → failed e (w', b).
Proof.
  intros [] Hlk Hc' Hi Hm HT Ha. exists (<[c := l]> t0), n. split_and!.
  - split; simpl; [congruence|done..].
  - simpl. rewrite HT. by apply linked_extra.
  - right. exists c, l. split; [|done]. by eapply linked_dom.
  - simpl. naive_solver.
Qed.

Lemma links_push b x :
  length (new_links b) = Z.to_nat (MAXIMUM_LEVELS - 1) → 0 <= new_link_count b < MAXIMUM_LEVELS - 1 →
  take (Z.to_nat (new_link_count b + 1)) (<[Z.to_nat (new_link_count b) := x]> (new_links b)) = links_of b ++ [x].
Proof.
  unfold MAXIMUM_LEVELS. intros Hlen Hb. replace (Z.to_nat (new_link_count b + 1)) with (Datatypes.S (Z.to_nat (new_link_count b))) by lia.
  rewrite (take_S_r _ _ x) by (apply list_lookup_insert_eq; lia). by rewrite take_insert_ge.
Qed.

Lemma index_wrap i : index_ok i → wrap 16 i = i.
Proof.
  intros [? Hi]. apply wrap_small. split; [done|]. unfold ENTRIES_PER_TABLE in Hi.
  change (2 ^ 16) with 65536. lia.
Qed.

(** Giving back a table that was not linked. *)
Lemma discard_ok w w1 b n c l err (Q : Z → world S I → Prop) :
  shape w b (MAXIMUM_LEVELS - 1) → linked t0 n0 (T w) n (links_of b) → slpt w = a → T w !! c = None →
  moved w w1 (<[c := l]> (T w)) → wp (discard c err) Q (λ e w', failed e (w', b)) w1.
Proof.
  intros Hs Hlk Ha Hc' Hm1. pose proof Hm1 as (_ & _ & Hw1 & HT1). unfold discard. wp_simpl.
  eapply slpt_wp_release; [done|rewrite HT1; apply lookup_insert_eq|..].
  - intros w2 Hm2. rewrite HT1, delete_insert_id in Hm2 by done. wp_simpl.
    pose proof (moved_trans _ _ _ _ _ Hm1 Hm2) as (Ha2 & Hi2 & Hw2 & HT2).
    eapply failed_clean; [|by rewrite HT2|left; congruence]. destruct Hs. split; [congruence|done..].
  - intros e w2 Hm2. rewrite HT1 in Hm2. wp_simpl.
    pose proof (moved_trans _ _ _ _ _ Hm1 Hm2) as (Ha2 & Hi2 & Hw2 & HT2).
    eapply (failed_extra _ w); [done..|]. left. split; [congruence|done].
Qed.

Lemma grow_ok (k : nat) w b n parent i l (Q : Z → building S I → Prop) :
  (Datatypes.S k < depth a)%nat → slpt w = a → shape w b (Z.of_nat k) → linked t0 n0 (T w) n (links_of b) →
  length (PagePath.frames (path b)) = Z.to_nat MAXIMUM_LEVELS →
  n !! take k idx = Some parent → T w !! parent = Some l → l !! Z.to_nat i = Some 0 → index_ok i →
  n !! (take k idx ++ [i]) = None → length (take k idx) = k →
  (∀ c w' b', slpt w' = a → shape w' b' (Z.of_nat k + 1) → path b' = path b → frame_ok c →
     linked t0 n0 (T w') (<[take k idx ++ [i] := c]> n) (links_of b') → (∀ q, n !! q ≠ Some c) → Q c (w', b')) →
  wp (grow parent i (Z.of_nat k)) Q failed (w, b).
Proof.
  intros Hk Ha Hs Hlk Hfr Hp Hl Hl0 Hi Hnone Hlen HQ. pose proof Hs as [Hinv Hw Hlinks Hcount].
  pose proof (depth_bounds a Hc) as Hd.
  assert (shape w b (MAXIMUM_LEVELS - 1)) as Hs' by (split; [done..|]; unfold MAXIMUM_LEVELS; lia).
  unfold grow. rewrite wp_bind, wp_on_world, wp_map_err. apply wp_allocate; [done| |].
  2:{ intros e w1 (Ha1 & Hi1 & Hw1 & HT1). eapply failed_clean; [|by rewrite HT1|left; congruence].
      destruct Hs'. split; [congruence|done..]. }
  intros c lc w1 Hok Hc' _ Hm1. pose proof Hm1 as (Ha1 & Hi1 & Hw1 & HT1).
  assert (failed FrameAlias (World (with_state Poisoned a) (memory w1) (invalidator w1), b)) as Halias
    by (eapply (failed_extra _ w); [done..|by right]).
  rewrite wp_bind, wp_on_world, wp_self, Ha1, Ha, wp_bind.
  destruct (Z.eqb_spec c 0) as [->|Hc0]; [by apply frame_ok_spec in Hok as (_ & ? & _)|].
  apply frame_is_known_ok; [by eapply lg_record|]. intros known Hknown. rewrite wp_bind.
  destruct known.
  { wp_simpl. rewrite wp_on_world, wp_poison, Ha1, Ha. wp_simpl. done. }
  assert (¬ retained a c) as Hret by naive_solver.
  unfold on_path. wp_simpl. apply wp_slice_to; [cbn [snd]; rewrite Hfr; unfold MAXIMUM_LEVELS; simpl; lia|]. wp_simpl.
  destruct (existsb _ _); [by rewrite wp_bind, wp_on_world, wp_poison, Ha1, Ha|].
  rewrite wp_bind, wp_on_world, wp_attempt.
  eapply wp_zero; [done|rewrite HT1; apply lookup_insert_eq|..].
  2:{ intros e w2 Hm2. rewrite HT1 in Hm2. rewrite wp_on_world.
      eapply discard_ok; [done..|]. by eapply moved_trans. }
  intros w2 Hm2. rewrite HT1, insert_insert_eq in Hm2. pose proof (moved_trans _ _ _ _ _ Hm1 Hm2) as Hm.
  clear Hm1 Hm2 HT1 Ha1 Hi1. pose proof Hm as (Ha2 & Hi2 & Hw2 & HT2).
  assert (parent ≠ c) as Hpc by (intros ->; congruence).
  rewrite wp_bind, wp_on_world, wp_attempt.
  eapply wp_write; [done|by rewrite HT2, lookup_insert_ne|done| |..].
  { apply frame_ok_spec in Hok as (? & _ & ?). by apply entry_u64. }
  2:{ intros e w3 Hm3. rewrite HT2 in Hm3. rewrite wp_on_world.
      eapply discard_ok; [done..|]. by eapply moved_trans. }
  intros w3 Hm3. rewrite HT2 in Hm3. pose proof (moved_trans _ _ _ _ _ Hm Hm3) as (Ha3 & Hi3 & Hw3 & HT3).
  unfold push_link. wp_simpl. apply wp_store; [cbn [snd]; rewrite Hlinks; unfold MAXIMUM_LEVELS; simpl; lia|]. wp_simpl.
  apply wp_add; [apply Z.lt_trans with 10; [simpl; lia|done]|]. wp_simpl. rewrite index_wrap by done.
  simpl. apply HQ; try done.
  - congruence.
  - split; simpl; [congruence|done|by rewrite length_insert|lia].
  - unfold links_of at 1. simpl. rewrite links_push by (done || unfold MAXIMUM_LEVELS; lia). rewrite HT3.
    eapply linked_snoc; try done. rewrite length_app, Hlen. simpl. lia.
  - intros q. eapply not_node; [|done]. by eapply linked_grown.
Qed.

(** The state of the build before position [k]. *)
Record stage (k : nat) (n : gmap (list Z) Z) (s : building S I) : Prop := {
  st_slpt : slpt (fst s) = a;
  st_shape : shape (fst s) (snd s) (Z.min (Z.of_nat k) (levels a - 1));
  st_frames : length (PagePath.frames (path (snd s))) = Z.to_nat MAXIMUM_LEVELS;
  st_indices : length (PagePath.indices (path (snd s))) = Z.to_nat MAXIMUM_LEVELS;
  st_depth : PagePath.depth (path (snd s)) = levels a;
  st_linked : linked t0 n0 (T (fst s)) n (links_of (snd s));
  st_on j : (j <= k)%nat → (j < depth a)%nat → n !! take j idx = PagePath.frames (path (snd s)) !! j;
  st_index j : (j < k)%nat → PagePath.indices (path (snd s)) !! j = idx !! j;
  st_new p f : n !! p = Some f → n0 !! p = Some f ∨ ∃ j, (j <= k)%nat ∧ (j < depth a)%nat ∧ p = take j idx;
}.

Lemma idx_length : length idx = depth a.
Proof. apply path_of_length. pose proof (cfg_levels _ Hc). lia. Qed.
Lemma idx_take j : (j <= depth a)%nat → length (take j idx) = j.
Proof. intros. rewrite length_take, idx_length. lia. Qed.
Lemma idx_snoc j i : idx !! j = Some i → take (Datatypes.S j) idx = take j idx ++ [i].
Proof. apply take_S_r. Qed.
Lemma idx_index j i : idx !! j = Some i → index_ok i.
Proof. intros Hj. by eapply (proj1 (Forall_lookup _ _) (path_of_ok (levels a) iova)). Qed.
Lemma idx_at j : (j < depth a)%nat → idx !! j = Some (Z.land (Z.shiftr iova (PAGE_SHIFT + (levels a - 1 - Z.of_nat j) * 9)) 0x1ff).
Proof. intros. by apply path_of_lookup. Qed.

Lemma index_at_ok {X E} j (Q : Z → X → Prop) (R : E → X → Prop) x :
  (j < depth a)%nat → (∀ i, idx !! j = Some i → Q i x) → wp (index_at a iova (Z.of_nat j)) Q R x.
Proof.
  intros Hj HQ. pose proof (cfg_levels _ Hc). unfold depth in Hj. unfold index_at. wp_simpl.
  apply wp_sub; [lia|]. wp_simpl. apply wp_sub; [lia|]. wp_simpl. apply HQ. by apply idx_at.
Qed.

Lemma follow_ok k n w b parent i l entry (Q : Z → building S I → Prop) (R : SlptFault → building S I → Prop) :
  stage k n (w, b) → (Datatypes.S k < depth a)%nat → idx !! k = Some i → n !! take k idx = Some parent →
  T w !! parent = Some l → l !! Z.to_nat i = Some entry → entry ≠ 0 →
  (∀ c, n !! take (Datatypes.S k) idx = Some c → Q c (w, b)) → wp (follow entry) Q R (w, b).
Proof.
  intros Hst Hk Hi Hp Hl He Hne HQ.
  destruct (linked_grown _ _ _ _ _ Ht0 (st_linked _ _ _ Hst)) as (Ht & _). simpl in Ht.
  pose proof (entry_shown _ _ _ _ _ _ _ _ i Ht Hp Hl (idx_index _ _ Hi)) as Hex. rewrite He in Hex. injection Hex as ->.
  rewrite <-(idx_snoc _ _ Hi) in *. unfold expect in *. rewrite idx_take in * by lia.
  rewrite decide_False in * by lia. destruct (n !! take (Datatypes.S k) idx) as [c|] eqn:Hn; [|done].
  unfold follow. rewrite wp_bind, wp_on_world, wp_self, (st_slpt _ _ _ Hst : slpt w = a).
  rewrite decode_table_pointer_link by (by eapply tree_frame). rewrite wp_bind.
  apply frame_is_known_ok; [by eapply lg_record|]. intros known Hknown.
  assert (known = true) as ->; [|wp_simpl; by apply HQ].
  apply Hknown. destruct (st_new _ _ _ Hst _ _ Hn) as [Hold|(j & Hj & Hjd & Heq)].
  - destruct (cl_support _ _ _ _ Hcl _ _ Hold) as [Hnil|(j & r & k' & _ & Hr & Hk' & _ & Hf)].
    + apply (f_equal length) in Hnil. rewrite idx_take in Hnil by lia. done.
    + right. by exists j, r, k'.
  - apply (f_equal length) in Heq. rewrite !idx_take in Heq by lia. lia.
Qed.

Lemma set_index_ok k n w b i (Q : unit → building S I → Prop) (R : SlptFault → building S I → Prop) :
  stage k n (w, b) → (k < depth a)%nat → idx !! k = Some i →
  (∀ b', stage k n (w, b') → PagePath.indices (path b') !! k = Some i → Q () (w, b')) →
  wp (set_index (Z.of_nat k) (wrap 16 i)) Q R (w, b).
Proof.
  intros [] Hk Hi HQ. simpl in *. pose proof (depth_bounds a Hc). unfold set_index. wp_simpl.
  apply wp_store; [cbn [snd]; rewrite st_indices0; unfold MAXIMUM_LEVELS; simpl; lia|]. wp_simpl. simpl.
  rewrite index_wrap by (by eapply idx_index). rewrite Nat2Z.id. apply HQ.
  - split; simpl; try done.
    + by destruct st_shape0.
    + by rewrite length_insert.
    + intros j Hj. rewrite list_lookup_insert_ne by lia. auto.
  - simpl. apply list_lookup_insert_eq. rewrite st_indices0. unfold MAXIMUM_LEVELS. lia.
Qed.

(** The child found or made for position [k + 1] becomes part of the path. *)
Lemma attach_child_ok k n n' w b w' b' c i (R : SlptFault → building S I → Prop) :
  stage k n (w, b) → (Datatypes.S k < depth a)%nat → idx !! k = Some i → PagePath.indices (path b) !! k = Some i →
  slpt w' = a → shape w' b' (Z.of_nat k + 1) → path b' = path b → linked t0 n0 (T w') n' (links_of b') →
  n ⊆ n' → n' !! take (Datatypes.S k) idx = Some c →
  (∀ p f, n' !! p = Some f → n !! p = Some f ∨ p = take (Datatypes.S k) idx) →
  wp (seen ← on_path c (Z.of_nat k);
      if (seen : bool) then on_world poison ;; throw MalformedEntry else set_frame (Z.of_nat k + 1) c)
    (λ _ s, ∃ n, stage (Datatypes.S k) n s) R (w', b').
Proof.
  intros [] Hk Hi Hik Ha Hsh Hpath Hlk Hsub Hc' Hnew. simpl in *. pose proof (depth_bounds a Hc).
  assert (∀ j, (j <= k)%nat → n' !! take j idx = PagePath.frames (path b) !! j) as Hon.
  { intros j Hj. destruct (lookup_lt_is_Some_2 (PagePath.frames (path b)) j) as [f Hf];
      [rewrite st_frames0; unfold MAXIMUM_LEVELS; lia|].
    rewrite Hf. eapply lookup_weaken; [|done]. rewrite st_on0 by lia. done. }
  destruct (linked_grown _ _ _ _ _ Ht0 Hlk) as (Ht & _).
  unfold on_path. wp_simpl. cbn [snd]. rewrite Hpath.
  apply wp_slice_to; [rewrite st_frames0; unfold MAXIMUM_LEVELS; lia|]. wp_simpl.
  destruct (existsb _ _) eqn:Hex.
  { exfalso. apply existsb_take in Hex as (j & Hj & Hf). rewrite <-Hon in Hf by lia.
    pose proof (tree_inj _ _ _ _ _ Ht _ _ _ Hf Hc') as Heq. apply (f_equal length) in Heq.
    rewrite !idx_take in Heq by lia. lia. }
  unfold set_frame. wp_simpl. cbn [snd]. rewrite Hpath.
  apply wp_store; [rewrite st_frames0; unfold MAXIMUM_LEVELS; lia|]. wp_simpl. cbn [fst snd].
  replace (Z.to_nat (Z.of_nat k + 1)) with (Datatypes.S k) by lia. exists n'. split; simpl; try done.
  - destruct Hsh. split; simpl; [done..|]. unfold depth in *. lia.
  - by rewrite length_insert.
  - intros j Hj Hjd. destruct (decide (j = Datatypes.S k)) as [->|Hne].
    + rewrite list_lookup_insert_eq; [done|]. rewrite st_frames0. unfold MAXIMUM_LEVELS. lia.
    + rewrite list_lookup_insert_ne by done. apply Hon. lia.
  - intros j Hj. destruct (decide (j = k)) as [->|]; [congruence|]. apply st_index0. lia.
  - intros p f Hp. destruct (Hnew p f Hp) as [Hold| ->].
    + destruct (st_new0 p f Hold) as [?|(j & ? & ? & ?)]; [by left|right]. exists j. eauto with lia.
    + right. by exists (Datatypes.S k).
Qed.

Lemma stage_failed e k n w b : (k < depth a)%nat → stage k n (w, b) → failed e (w, b).
Proof.
  intros Hk [Ha [? ? ? ?] _ _ _ Hlk _ _ _]. simpl in *. pose proof (depth_bounds a Hc).
  eapply failed_clean; [|done|by left]. split; [done..|]. unfold MAXIMUM_LEVELS. lia.
Qed.

Lemma descend_ok k n s :
  stage k n s → (k < depth a)%nat →
  wp (descend iova (Z.of_nat k)) (λ _ s', ∃ n', stage (Datatypes.S k) n' s') failed s.
Proof.
  destruct s as [w b]. intros Hst Hk. pose proof (cfg_levels _ Hc). unfold descend.
  rewrite wp_bind, wp_on_world, wp_self, (st_slpt _ _ _ Hst : slpt w = a), wp_bind.
  apply index_at_ok; [done|]. intros i Hi. rewrite wp_bind. eapply set_index_ok; [done..|].
  clear Hst b. intros b Hst Hik.
  destruct (Z.eqb_spec (Z.of_nat k + 1) (levels a)) as [Hlast|Hmore].
  { rewrite wp_ret. exists n. destruct Hst. split; try done.
    - destruct st_shape0. split; [done..|lia].
    - intros j Hj Hjd. apply st_on0; [|done]. unfold depth in Hjd. lia.
    - intros j Hj. destruct (decide (j = k)) as [->|]; [simpl in *; congruence|]. apply st_index0. lia.
    - intros p f Hp. destruct (st_new0 p f Hp) as [?|(j & ? & ? & ?)]; [by left|right]. exists j. eauto with lia. }
  assert (Datatypes.S k < depth a)%nat as Hk' by (unfold depth in *; lia). pose proof (depth_bounds a Hc) as Hd.
  destruct (lookup_lt_is_Some_2 (PagePath.frames (path b)) k) as [parent Hparent].
  { pose proof (st_frames _ _ _ Hst) as Hlen. simpl in Hlen. rewrite Hlen. unfold MAXIMUM_LEVELS. lia. }
  assert (n !! take k idx = Some parent) as Hnp by (rewrite (st_on _ _ _ Hst) by lia; done).
  unfold frame_at. wp_simpl. cbn [snd]. apply wp_index with parent; [lia|by rewrite Nat2Z.id|].
  wp_simpl. rewrite wp_on_world, wp_map_err. pose proof (idx_index _ _ Hi) as Hio.
  apply wp_load; [apply (sh_mem _ _ _ (st_shape _ _ _ Hst))|done| |intros e; by apply (stage_failed _ k n)].
  intros l entry Hl He.
  destruct (linked_grown _ _ _ _ _ Ht0 (st_linked _ _ _ Hst)) as (Ht & _). simpl in Ht.
  pose proof (entry_shown _ _ _ _ _ _ _ _ i Ht Hnp Hl Hio) as Hex. rewrite He in Hex. injection Hex as Hex.
  rewrite <-(idx_snoc _ _ Hi) in Hex. destruct (Z.eqb_spec entry 0) as [He0|Hne].
  - rewrite He0 in Hex, He. clear He0. unfold expect in Hex. rewrite idx_take, decide_False in Hex by lia.
    destruct (n !! take (Datatypes.S k) idx) as [c|] eqn:Hn; [symmetry in Hex; by apply link_nonzero in Hex|].
    rewrite wp_bind. eapply (grow_ok k w b n parent i l); try done.
    + apply (st_slpt _ _ _ Hst).
    + destruct (st_shape _ _ _ Hst). split; [done..|]. simpl in *. lia.
    + apply (st_linked _ _ _ Hst).
    + apply (st_frames _ _ _ Hst).
    + by rewrite <-(idx_snoc _ _ Hi).
    + apply idx_take. lia.
    + intros c w' b' Ha' Hsh' Hp' Hok Hlk' Hfresh. rewrite <-(idx_snoc _ _ Hi) in Hlk'.
      eapply (attach_child_ok k n _ w b); try done.
      * by apply insert_subseteq.
      * apply lookup_insert_eq.
      * intros p f [[<- _]|[_ ?]]%lookup_insert_Some; auto.
  - rewrite wp_bind. eapply (follow_ok k n w b parent i l); try done. intros c Hn.
    eapply (attach_child_ok k n n w b); try done.
    + apply (st_slpt _ _ _ Hst).
    + destruct (st_shape _ _ _ Hst). split; [done..|]. simpl in *. lia.
    + apply (st_linked _ _ _ Hst).
    + auto.
Qed.

Lemma build_path_ok s :
  stage 0 n0 s → wp (build_path iova) (λ _ s', ∃ n, stage (depth a) n s') failed s.
Proof.
  intros Hst. unfold build_path. destruct s as [w b]. rewrite wp_bind, wp_on_world, wp_self.
  rewrite (st_slpt _ _ _ Hst : slpt w = a). pose proof (cfg_levels _ Hc).
  apply (wp_for_range (λ k s, ∃ n, stage (Z.to_nat k) n s)).
  - by exists n0.
  - intros k s Hk (n & Hn). pose proof (descend_ok _ n s Hn ltac:(unfold depth; lia)) as Hwp.
    rewrite Z2Nat.id in Hwp by lia. eapply wp_mono; [exact Hwp| |done].
    intros [] s' Hs'. by replace (Z.to_nat (k + 1)) with (Datatypes.S (Z.to_nat k)) by lia.
  - intros s Hs. unfold depth. by replace (Z.max 0 (levels a)) with (levels a) in Hs by lia.
Qed.
End build.


End links.

End path.
