(* ===== verification/SlptOps.v ===== *)
(** * The operations of the page-table core

    The invariant of a ledger with its memory and its invalidator, and what
    every call of [Slpt] does under it: no call panics, a call that fails leaves
    everything as it was or poisons the core, and in every case the tables still
    show the hardware exactly the live records. *)
From S2P Require Import Prelude Slpt SlptTree SlptLedger SlptPath.
Import Slpt.

Section ops.
Context {S I : Type} {HM : SlptPageMemory S} {HML : SlptMemoryLaws S}
  {HI : SlptInvalidator I} {HIL : SlptInvalidatorLaws I}.
Implicit Types (w : world S I).

Record good w (n leaves : gmap (list Z) Z) : Prop := {
  gd_config : config_ok (slpt w);
  gd_mem : mem_ok (memory w);
  gd_tree : tree (root (slpt w)) (depth (slpt w)) (T w) n leaves;
  gd_ledger : ledger (slpt w) n leaves;
}.

(** What the hardware may have cached belongs to a record whose unmapping has
    not been confirmed. *)
Definition tlb_ok (a : t) (i : I) : Prop :=
  inval_ok i ∧ ∀ v e, cached i v e → ∃ k r, holds a k r ∧ MappingRecord.iova r = v ∧ MappingRecord.leaf r = e ∧
                               MappingRecord.phase r ≠ AwaitingCleanup.

Definition inv w : Prop :=
  ∃ n leaves, good w n leaves ∧ (state (slpt w) = Operational → closed (slpt w) None (T w) n) ∧
              tlb_ok (slpt w) (invalidator w).

Lemma inv_inval w : inv w → inval_ok (invalidator w).
Proof. by intros (_ & _ & _ & _ & ? & _). Qed.

(** ** Rules *)

Definition set_slpt (a : t) w : world S I := World a (memory w) (invalidator w).
Definition forgets (v : Z) w w' : Prop :=
  slpt w' = slpt w ∧ memory w' = memory w ∧ ages (invalidator w) (invalidator w') ∧
  ∀ e, ¬ cached (invalidator w') v e.
Definition keeps w w' : Prop :=
  slpt w' = slpt w ∧ memory w' = memory w ∧ ages (invalidator w) (invalidator w').

Lemma wp_invalidate v w (Q : unit → world S I → Prop) R :
  inval_ok (invalidator w) →
  (∀ w', forgets v w w' → Q () w') → (∀ e w', keeps w w' → R e w') →
  wp (on_invalidator (invalidate_after_page_table_change v)) Q R w.
Proof.
  intros Hok HQ HR. unfold on_invalidator. rewrite wp_zoom. eapply wp_mono; [by apply invalidate_law| |].
  - intros [] i [Hi Hc]. by apply HQ.
  - intros e i Hi. by apply HR.
Qed.

Lemma slpt_wp_update_record {E} i f s r w (Q : unit → world S I → Prop) (R : E → world S I → Prop) :
  slots (slpt w) !! i = Some s → MappingSlot.record s = Some r →
  Q () (set_slpt (put_slot (slpt w) i (MappingSlot.mk (MappingSlot.generation s) (Some (f r)) (MappingSlot.retired s))) w) →
  wp (update_record (Z.of_nat i) f) Q R w.
Proof.
  intros Hs Hr HQ. pose proof (lookup_lt_Some _ _ _ Hs). unfold update_record. rewrite wp_bind, wp_self, wp_bind.
  apply wp_index with s; [lia|by rewrite Nat2Z.id|]. rewrite Hr, wp_bind.
  apply wp_store; [lia|]. by rewrite Nat2Z.id.
Qed.

(** [h] names the record [r] in slot [i]. *)
Definition names (a : t) (h : MappingHandle.t) (i : nat) (s : MappingSlot.t) (r : MappingRecord.t) : Prop :=
  MappingHandle.slot h = Z.of_nat i ∧ slots a !! i = Some s ∧
  MappingSlot.generation s = MappingHandle.generation h ∧ MappingSlot.record s = Some r.

Lemma names_holds a h i s r : names a h i s r → holds a i r.
Proof. intros (_ & ? & _ & ?). by exists s. Qed.

Lemma wp_find_record h w (Q : Z * MappingRecord.t → world S I → Prop) (R : SlptFault → world S I → Prop) :
  0 <= MappingHandle.slot h →
  (∀ i s r, names (slpt w) h i s r → Q (Z.of_nat i, r) w) →
  ((∀ i s r, ¬ names (slpt w) h i s r) → R UnknownMapping w) → wp (find_record h) Q R w.
Proof.
  intros Hh HQ HR. unfold find_record. rewrite wp_bind, wp_self, wp_bind, wp_lift. unfold record_index.
  destruct (slots (slpt w) !! _) as [s|] eqn:Hs.
  2:{ apply HR. intros i s r (Hi & Hl & _). rewrite Hi, Nat2Z.id in Hs. congruence. }
  destruct (_ || _) eqn:Hb.
  { apply HR. intros i s' r (Hi & Hl & Hg & Hr). rewrite Hi, Nat2Z.id in Hs. simplify_eq.
    rewrite Hg, Z.eqb_refl, bool_decide_true in Hb by (rewrite Hr; eauto). done. }
  apply orb_false_iff in Hb as [Hg%negb_false_iff%Z.eqb_eq Hr%negb_false_iff%bool_decide_eq_true].
  destruct Hr as [r Hr]. rewrite wp_bind. apply wp_index with s; [done..|].
  rewrite wp_bind, wp_ok_or, Hr, wp_ret.
  specialize (HQ (Z.to_nat (MappingHandle.slot h)) s r). rewrite Z2Nat.id in HQ by done. apply HQ.
  split; [by rewrite Z2Nat.id|done].
Qed.

Lemma wp_ensure w (Q : unit → world S I → Prop) (R : SlptFault → world S I → Prop) :
  (state (slpt w) = Operational → Q () w) → (state (slpt w) = Poisoned → R PoisonedFault w) →
  wp ensure_operational Q R w.
Proof.
  intros HQ HR. unfold ensure_operational. rewrite wp_bind, wp_self.
  case_bool_decide; [by apply HQ|]. apply HR. by destruct (state (slpt w)).
Qed.

(** ** Refusals *)

(** A call that fails changed nothing, or poisoned the core and kept the
    records, the leaves and what the hardware may have cached. *)
Definition refused w w' : Prop :=
  (slpt w' = slpt w ∧ T w' = T w ∨ slpt w' = with_state Poisoned (slpt w)) ∧
  invalidator w' = invalidator w ∧ inv w'.

Lemma ledger_state a s n leaves : ledger a n leaves → ledger (with_state s a) n leaves.
Proof. intros [Hrec ? ? ? ? ?]. split; try done. intros i r Hr. destruct (Hrec i r Hr). by split. Qed.
Lemma config_state a s : config_ok a → config_ok (with_state s a).
Proof. intros []. by split. Qed.

Lemma inv_refused w : inv w → refused w w.
Proof. intros Hw. split_and!; auto. Qed.

Lemma inv_poisoned w w' n leaves :
  config_ok (slpt w) → slpt w' = with_state Poisoned (slpt w) → invalidator w' = invalidator w →
  mem_ok (memory w') → tree (root (slpt w)) (depth (slpt w)) (T w') n leaves → ledger (slpt w) n leaves →
  tlb_ok (slpt w) (invalidator w) → refused w w'.
Proof.
  intros Hc Ha Hi Hm Ht Hl Htlb. split_and!; [by right|done|]. exists n, leaves. split_and!.
  - split; rewrite ?Ha; [by apply config_state|done|done|by apply ledger_state].
  - by rewrite Ha.
  - rewrite Ha, Hi. exact Htlb.
Qed.

Lemma inv_moved w w' : inv w → moved w w' (T w) → refused w w'.
Proof.
  intros (n & leaves & [Hc Hm Ht Hl] & Hcl & Htlb) (Ha & Hi & Hm' & HT). split_and!; [by left|done|].
  exists n, leaves. split_and!.
  - split; rewrite ?Ha, ?HT; done.
  - by rewrite Ha, HT.
  - by rewrite Ha, Hi.
Qed.

Lemma undo_ok {A} w0 n0 leaves w b e (flag : bool) (Q : A → world S I → Prop) :
  good w0 n0 leaves → inv w0 → tlb_ok (slpt w0) (invalidator w0) →
  failed (slpt w0) w0 (T w0) n0 e (w, b) → (e = RollbackFailed → flag = true) →
  wp (undo b flag e) Q (λ _ w', refused w0 w') w.
Proof.
  intros [Hc _ Ht Hl] Hinv Htlb (t & n & [Hi Hm Hlinks Hcount] & Hlk & Hcase & Ha) Hflag. simpl in *.
  assert (tree (root (slpt w0)) (depth (slpt w0)) t n0 leaves) as Ht'.
  { destruct Hcase as [->|(c & l & Hcn & ->)]; [done|]. eapply tree_outside; [done|].
    intros p f Hp. apply lookup_insert_ne. intros ->. by eapply not_node. }
  assert (∀ w' m, with_state Poisoned (slpt w) = slpt w' → invalidator w' = invalidator w →
            mem_ok (memory w') → grown (slpt w0) leaves n0 (T w') m → refused w0 w') as Hpoison.
  { intros w' m Ha' Hi' Hm' Hg. eapply inv_poisoned; [done| |congruence|done|apply Hg|by eapply grown_ledger|done].
    rewrite <-Ha'. by destruct Ha as [[-> _]| ->]. }
  unfold undo, rollback_new_links. rewrite wp_bind, wp_attempt, wp_bind.
  apply wp_slice_to; [rewrite Hlinks; unfold MAXIMUM_LEVELS in *; lia|].
  eapply wp_mono; [by eapply slpt_rollback_ok| |].
  - intros [] w1 (Ha1 & Hi1 & Hm1 & HT1). rewrite wp_bind.
    assert (grown (slpt w0) leaves n0 (T w1) n0) as Hg by (rewrite HT1; split_and!; [done..|auto]).
    destruct flag.
    + rewrite wp_poison, wp_throw. apply (Hpoison _ n0); [by rewrite Ha1|done..].
    + rewrite wp_ret, wp_throw. destruct Ha as [[Ha Hor]|Ha].
      * apply inv_moved; [done|]. split_and!; [congruence..|]. destruct Hor as [->|He]; [done|by specialize (Hflag He)].
      * apply (Hpoison _ n0); [|done..]. rewrite Ha1, Ha. done.
  - intros e' w1 (t' & n' & (Ha1 & Hi1 & Hm1 & HT1) & Hg). rewrite wp_bind, wp_poison, wp_throw.
    rewrite <-HT1 in Hg. apply (Hpoison _ n'); [by rewrite Ha1|done..].
Qed.

(** ** Mapping *)

Lemma check_conflicts_ok l v pa :
  check_conflicts l v pa = Ok () →
  ∀ (i : nat) s r, l !! i = Some s → MappingSlot.record s = Some r →
    MappingRecord.iova r ≠ v ∧ MappingRecord.physical_address r ≠ pa.
Proof.
  induction l as [|x l IH]; [done|]. simpl. intros Hok i s r Hi Hr.
  destruct (MappingSlot.record x) as [y|] eqn:Hx.
  - destruct (Z.eqb_spec (MappingRecord.iova y) v); [done|].
    destruct (Z.eqb_spec (MappingRecord.physical_address y) pa); [done|].
    destruct i as [|i]; simpl in Hi; [by simplify_eq|eauto].
  - destruct i as [|i]; simpl in Hi; [simplify_eq; congruence|eauto].
Qed.

(** The outcome of a call that maps: the slot, its new record, its handle. *)
Definition mapped w (v pa : Z) (perm : DmaPermissions.t) (o : MapOutcome) w' : Prop :=
  ∃ i s r bits,
    slots (slpt w) !! i = Some s ∧ slot_free s = true ∧
    slpt w' = put_slot (slpt w) i (MappingSlot.mk (MappingSlot.generation s) (Some r) (MappingSlot.retired s)) ∧
    MappingRecord.iova r = v ∧ MappingRecord.physical_address r = pa ∧
    DmaPermissions.bits perm = Ok bits ∧ MappingRecord.leaf r = Z.lor pa bits ∧
    let h := MappingHandle.mk (Z.of_nat i) (MappingSlot.generation s) in
    (o = MapActive h ∧ MappingRecord.phase r = Active ∨
     ∃ e, o = MapPending h (Invalidation e) ∧ MappingRecord.phase r = AwaitingMapInvalidation).

(** A map takes no table that a record still retains. *)
Definition renews w w' : Prop := ∀ f, is_Some (T w' !! f) → is_Some (T w !! f) ∨ ¬ retained (slpt w) f.

Lemma bits_ok perm bits : DmaPermissions.bits perm = Ok bits → 0 < bits < 4.
Proof. destruct perm as [[] []]; unfold DmaPermissions.bits; simpl; intros [= <-]; done. Qed.

Lemma physical_ok pa : u64 pa → validate_mapped_physical_address pa = Ok () → Z.land pa PHYSICAL_PAGE_MASK = pa.
Proof.
  intros Hu Hv. unfold validate_mapped_physical_address in Hv. destruct (_ || _) eqn:Hb; [done|].
  bool_to_prop. by apply masked_id.
Qed.

Lemma leaf_ok pa bits :
  u64 pa → validate_mapped_physical_address pa = Ok () → 0 < bits < 4 →
  u64 (Z.lor pa bits) ∧ Z.land (Z.lor pa bits) PERMISSION_MASK ≠ 0.
Proof.
  intros Hu Hv Hb. pose proof (physical_ok pa Hu Hv) as Hm. split; [apply entry_u64; (done || lia)|].
  rewrite entry_permissions by (done || lia). lia.
Qed.

(** Changing the phase of a live record to a live one. *)
Lemma inv_rephase_live w w' i s r ph :
  inv w → slots (slpt w) !! i = Some s → MappingSlot.record s = Some r → live r →
  ph = AwaitingMapInvalidation ∨ ph = Active →
  slpt w' = put_slot (slpt w) i (MappingSlot.mk (MappingSlot.generation s) (Some (MappingRecord.with_phase ph r)) (MappingSlot.retired s)) →
  memory w' = memory w → ages (invalidator w) (invalidator w') → inv w'.
Proof.
  intros (n & leaves & [Hc Hm Ht Hl] & Hcl & Hi & Htlb) Hs Hr Hlive Hph Ha Hmem Hcache.
  assert (holds (slpt w) i r) as Hh by (by exists s).
  assert (record_ok (slpt w) (MappingRecord.with_phase ph r)) as Hok
    by (destruct (lg_record _ _ _ Hl _ _ Hh); split; auto).
  assert (T w' = T w) as HT by (unfold T; by rewrite Hmem). exists n, leaves. split_and!.
  - split; rewrite ?Ha, ?HT, ?Hmem; [by apply config_ok_put|done|done|].
    eapply (ledger_replace (slpt w)); try done.
    intros j x Hx Hlx _. by apply (lg_live _ _ _ Hl _ _ Hx Hlx).
  - rewrite Ha, HT. intros Hst. eapply closed_rephase; [exact (Hcl Hst)|exact Hh|done].
  - split; [by eapply ages_ok|]. intros x e Hx%(ages_cached _ _ _ _ Hcache). destruct (Htlb x e Hx) as (k & y & Hy & Hyi & Hyl & Hyp). rewrite Ha.
    destruct (decide (k = i)) as [->|Hne].
    + rewrite (holds_unique _ _ _ _ Hy Hh) in *. exists i, (MappingRecord.with_phase ph r).
      split; [apply holds_put; [by eapply holds_bound|by left]|]. split_and!; [done..|]. simpl. destruct Hph; by subst ph.
    + exists k, y. split; [apply holds_put; [by eapply holds_bound|by right]|done].
Qed.

Lemma inv_keeps w w' : inv w → keeps w w' → inv w'.
Proof.
  intros (n & leaves & [Hc Hm Ht Hl] & Hcl & Hi & Htlb) (Ha & Hmem & Hcache).
  assert (T w' = T w) as HT by (unfold T; by rewrite Hmem). exists n, leaves. split_and!.
  - split; rewrite ?Ha, ?HT, ?Hmem; done.
  - by rewrite Ha, HT.
  - split; [by eapply ages_ok|]. rewrite Ha. intros x e Hx%(ages_cached _ _ _ _ Hcache). by apply Htlb.
Qed.

Lemma forgets_keeps v w w' : forgets v w w' → keeps w w'.
Proof. by intros (? & ? & ? & _). Qed.

(** The state after [build_path] has succeeded and the leaf is written. *)
Lemma inv_inserted w n0 leaves n w1 b w2 i s r l f k :
  good w n0 leaves → closed (slpt w) None (T w) n0 → tlb_ok (slpt w) (invalidator w) →
  stage (slpt w) w (T w) n0 (MappingRecord.iova r) (depth (slpt w)) n (w1, b) →
  slots (slpt w) !! i = Some s → slot_free s = true →
  record_ok (slpt w) r → live r → rframes r = PagePath.frames (path b) → MappingRecord.phase r ≠ AwaitingCleanup →
  (∀ j x, holds (slpt w) j x → MappingRecord.iova x ≠ MappingRecord.iova r ∧
                               MappingRecord.physical_address x ≠ MappingRecord.physical_address r) →
  n !! take (depth (slpt w) - 1) (rpath (slpt w) r) = Some f → T w1 !! f = Some l →
  rpath (slpt w) r !! (depth (slpt w) - 1)%nat = Some k →
  slpt w2 = put_slot (slpt w) i (MappingSlot.mk (MappingSlot.generation s) (Some r) (MappingSlot.retired s)) →
  invalidator w2 = invalidator w → mem_ok (memory w2) →
  T w2 = <[f := <[Z.to_nat k := MappingRecord.leaf r]> l]> (T w1) → inv w2.
Proof.
  intros [Hc Hm Ht Hl] Hcl Htlb Hst Hs Hfree Hok Hlive Hfr Hph Hdiff Hf Hlf Hk Ha Hi Hm2 HT2.
  pose proof (depth_bounds _ Hc) as Hd. pose proof (lookup_lt_Some _ _ _ Hs) as Hlt.
  assert (∀ r', ¬ holds (slpt w) i r') as Hnone.
  { intros r' (s' & Hs' & Hr'). simplify_eq. unfold slot_free in Hfree. rewrite Hr', bool_decide_true in Hfree by eauto. done. }
  pose proof (linked_grown _ _ _ _ _ _ _ Ht (st_linked _ _ _ _ _ _ _ _ Hst)) as Hg. simpl in Hg.
  assert (take (depth (slpt w) - 1) (rpath (slpt w) r) ++ [k] = rpath (slpt w) r) as Hfull.
  { rewrite <-(take_S_r _ _ _ Hk). replace (Datatypes.S (depth (slpt w) - 1)) with (depth (slpt w)) by lia.
    by apply take_path_all. }
  destruct (rec_leaf _ _ Hok) as (bits & Hbits & Hleaf). destruct (rec_physical _ _ Hok) as [Hpu Hpv].
  destruct (leaf_ok _ _ Hpu Hpv Hbits) as [_ Hperm]. rewrite <-Hleaf in Hperm.
  assert (on_tree (slpt w) n r (depth (slpt w) - 1)) as Hon.
  { intros j Hj. rewrite Hfr. apply (st_on _ _ _ _ _ _ _ _ Hst); lia. }
  exists n, (<[rpath (slpt w) r := MappingRecord.leaf r]> leaves). split_and!.
  - split; rewrite ?Ha; [by apply config_ok_put|done| |].
    + rewrite HT2, <-Hfull at 1. eapply tree_set_leaf; [apply Hg|done|done| |by rewrite Hfull, rpath_length|done].
      by eapply (proj1 (Forall_lookup _ _) (path_of_ok _ _)).
    + eapply ledger_insert; try done. by eapply grown_ledger.
  - intros _. rewrite Ha, HT2. eapply closed_insert; [exact Hcl|done|done|done| |].
    + intros g Hgs. eapply (linked_nodes _ (T w) n0 (T w1)); [apply Hcl|apply (st_linked _ _ _ _ _ _ _ _ Hst)|].
      destruct (decide (f = g)) as [->|]; [by eexists|]. by rewrite lookup_insert_ne in Hgs.
    + intros p g Hp. destruct (st_new _ _ _ _ _ _ _ _ Hst p g Hp) as [?|(j & _ & Hj & ->)]; [by left|right].
      exists j. unfold retained_depth. rewrite (rec_live _ _ Hok Hlive). split; [unfold depth in *; lia|].
      split; [done|]. rewrite <-Hon by lia. done.
  - rewrite Ha, Hi. split; [apply Htlb|]. intros x e Hx. destruct (proj2 Htlb x e Hx) as (j & y & Hy & ?). exists j, y. split; [|done].
    apply holds_put; [done|]. right. split; [|done]. intros ->. by apply (Hnone y).
Qed.

(** The rest of [map_page] once the path is built. *)
Lemma stage_start w n0 leaves v :
  good w n0 leaves →
  stage (slpt w) w (T w) n0 v 0 n0
    (w, Build (PagePath.mk (<[0%nat := root (slpt w)]> (PagePath.frames (PagePath.empty (levels (slpt w)))))
                 (PagePath.indices (PagePath.empty (levels (slpt w)))) (levels (slpt w)))
          (replicate (Z.to_nat (MAXIMUM_LEVELS - 1)) NewLink.EMPTY) 0).
Proof.
  intros [Hc Hm Ht Hl]. split; simpl; try done.
  - pose proof (cfg_levels _ Hc). split; simpl; [done..|lia].
  - constructor.
  - intros j Hj _. assert (j = 0%nat) as -> by lia. apply Ht.
  - intros j Hj. lia.
  - intros p f Hp. by left.
Qed.

Lemma stage_record w n0 leaves v n w1 b pa bits :
  good w n0 leaves → stage (slpt w) w (T w) n0 v (depth (slpt w)) n (w1, b) →
  iova_ok (slpt w) v → u64 pa → validate_mapped_physical_address pa = Ok () → 0 < bits < 4 →
  record_ok (slpt w) (MappingRecord.mk v pa (Z.lor pa bits) (path b) 0 AwaitingMapInvalidation).
Proof.
  intros [Hc _ _ _] [] Hv Hpu Hpv Hb. simpl in *. pose proof (cfg_levels _ Hc) as Hlv.
  unfold MAXIMUM_LEVELS in Hlv. split; simpl; try done.
  - eauto.
  - apply list_eq. intros j. unfold rpath. simpl. destruct (decide (j < depth (slpt w))%nat) as [Hj|Hj].
    + rewrite lookup_take_lt by done. auto.
    + rewrite lookup_take_ge by lia. symmetry. apply lookup_ge_None. rewrite path_of_length by lia. unfold depth in Hj. lia.
  - lia.
Qed.

Lemma slpt_install_ok w n0 leaves n w1 b w2 i s v pa bits perm l f k :
  good w n0 leaves → closed (slpt w) None (T w) n0 → tlb_ok (slpt w) (invalidator w) →
  stage (slpt w) w (T w) n0 v (depth (slpt w)) n (w1, b) →
  slots (slpt w) !! i = Some s → slot_free s = true → iova_ok (slpt w) v → u64 pa →
  validate_mapped_physical_address pa = Ok () → DmaPermissions.bits perm = Ok bits →
  check_conflicts (slots (slpt w)) v pa = Ok () →
  n !! take (depth (slpt w) - 1) (path_of (levels (slpt w)) v) = Some f → T w1 !! f = Some l →
  path_of (levels (slpt w)) v !! (depth (slpt w) - 1)%nat = Some k →
  slpt w2 = slpt w → invalidator w2 = invalidator w → mem_ok (memory w2) →
  T w2 = <[f := <[Z.to_nat k := Z.lor pa bits]> l]> (T w1) →
  wp (install v pa (Z.lor pa bits) (Z.of_nat i) (path b))
    (λ o w', (mapped w v pa perm o w' ∧ inv w') ∧ renews w w') (λ _ w', refused w w') w2.
Proof.
  intros Hgood Hcl Htlb Hst Hs Hfree Hv Hpu Hpv Hbits Hconf Hf Hl Hk Ha Hi Hm HT.
  pose proof (lookup_lt_Some _ _ _ Hs) as Hlt. pose proof (cfg_slots _ (gd_config _ _ _ Hgood)) as Hcap.
  set (r := MappingRecord.mk v pa (Z.lor pa bits) (path b) 0 AwaitingMapInvalidation).
  set (s' := MappingSlot.mk (MappingSlot.generation s) (Some r) (MappingSlot.retired s)).
  assert (wrap 16 (Z.of_nat i) = Z.of_nat i) as Hwrap
    by (apply wrap_small; split; [lia|]; unfold MAX in Hcap; lia).
  set (w3 := set_slpt (put_slot (slpt w) i s') w2).
  assert (inv w3) as Hinv3.
  { eapply (inv_inserted w n0 leaves n w1 b w3 i s r l f k); try done.
    - eapply stage_record; try done. by eapply bits_ok.
    - by left.
    - intros j x (sx & Hsx & Hx). by eapply check_conflicts_ok. }
  assert (slots (slpt w3) !! i = Some s') as Hs3 by (by apply list_lookup_insert_eq).
  assert (∀ w4, memory w4 = memory w2 → renews w w4) as Hnew.
  { intros w4 Hm4 g Hg. unfold T in Hg. rewrite Hm4 in Hg. fold (T w2) in Hg. rewrite HT in Hg.
    apply (linked_new _ _ _ _ _ _ _ (st_linked _ _ _ _ _ _ _ _ Hst)). simpl.
    destruct (decide (f = g)) as [->|]; [by eexists|]. by rewrite lookup_insert_ne in Hg. }
  unfold install. rewrite wp_bind, wp_self, Ha, wp_bind. apply wp_index with s; [lia|by rewrite Nat2Z.id|].
  rewrite wp_bind. apply wp_store; [lia|]. rewrite Nat2Z.id, Hwrap, wp_bind. fold r s'.
  change (wp (set_self ?a) ?Q ?R w2) with (Q () w3). cbv beta. rewrite wp_bind, wp_attempt.
  apply wp_invalidate; [by rewrite <-Hi in Htlb; apply Htlb|..].
  - intros w4 Hforget. pose proof (forgets_keeps _ _ _ Hforget) as (Ha4 & Hm4 & Hc4). rewrite wp_bind.
    apply (slpt_wp_update_record i _ s' r); [by rewrite Ha4|done|]. rewrite wp_ret, Ha4. split; [split|by apply Hnew].
    + exists i, s, (MappingRecord.with_phase Active r), bits. split_and!; try done; [|by left].
      simpl. unfold put_slot. simpl. by rewrite list_insert_insert_eq.
    + eapply (inv_rephase_live w3 _ i s' r Active); try done; [by left|by right].
  - intros e w4 Hkeep. rewrite wp_ret. pose proof Hkeep as (Ha4 & Hm4 & _).
    split; [|by apply Hnew]. split; [|by eapply inv_keeps].
    exists i, s, r, bits. split_and!; try done. right. by exists e.
Qed.

(** No record has the address, so its leaf is free. *)
Lemma free_leaf w n0 n leaves v pa k :
  good w n0 leaves → iova_ok (slpt w) v → check_conflicts (slots (slpt w)) v pa = Ok () →
  path_of (levels (slpt w)) v !! (depth (slpt w) - 1)%nat = Some k →
  expect (depth (slpt w)) n leaves (take (depth (slpt w) - 1) (path_of (levels (slpt w)) v) ++ [k]) = 0.
Proof.
  intros [Hc _ _ Hl] Hv Hconf Hk. pose proof (depth_bounds _ Hc) as Hd. pose proof (cfg_levels _ Hc) as Hlv.
  assert (length (path_of (levels (slpt w)) v) = depth (slpt w)) as Hlen by (apply path_of_length; lia).
  rewrite <-(take_S_r _ _ _ Hk). replace (Datatypes.S (depth (slpt w) - 1)) with (depth (slpt w)) by lia.
  rewrite take_ge by lia. unfold expect. rewrite decide_True by done.
  destruct (leaves !! _) as [e|] eqn:He; [exfalso|done].
  destruct (lg_leaf _ _ _ Hl _ _ He) as (j & x & Hx & _ & Hpath & _). pose proof Hx as (sx & Hsx & Hrx).
  destruct (check_conflicts_ok _ _ _ Hconf _ _ _ Hsx Hrx) as [Hne _]. apply Hne.
  destruct (iova_width _ _ Hc Hv), (iova_width _ _ Hc (rec_iova _ _ (lg_record _ _ _ Hl _ _ Hx))).
  eapply (path_of_inj (levels (slpt w))); [lia|done..].
Qed.

Lemma slpt_publish_ok w n0 leaves n w1 b i s v pa bits perm :
  inv w → good w n0 leaves → closed (slpt w) None (T w) n0 → tlb_ok (slpt w) (invalidator w) →
  stage (slpt w) w (T w) n0 v (depth (slpt w)) n (w1, b) →
  slots (slpt w) !! i = Some s → slot_free s = true → iova_ok (slpt w) v → u64 pa →
  validate_mapped_physical_address pa = Ok () → DmaPermissions.bits perm = Ok bits →
  check_conflicts (slots (slpt w)) v pa = Ok () →
  wp (publish v pa bits (Z.of_nat i) b)
    (λ o w', (mapped w v pa perm o w' ∧ inv w') ∧ renews w w') (λ _ w', refused w w') w1.
Proof.
  intros Hinv Hgood Hcl Htlb Hst Hs Hfree Hv Hpu Hpv Hbits Hconf.
  pose proof Hgood as [Hc Hm Ht Hl]. pose proof (depth_bounds _ Hc) as Hd. pose proof (cfg_levels _ Hc) as Hlv.
  assert (Z.to_nat (levels (slpt w) - 1) = depth (slpt w) - 1)%nat as Hpos by (unfold depth; lia).
  destruct (leaf_ok pa bits Hpu Hpv (bits_ok _ _ Hbits)) as [Hlu _].
  pose proof Hst as [Ha1 Hsh Hfr Hin _ Hlk Hon Hidx _]. cbn [fst snd] in *. pose proof Hsh as [Hi1 Hm1 Hlinks Hcount].
  destruct (linked_grown _ _ _ _ _ _ _ Ht Hlk) as (Ht1 & _).
  destruct (lookup_lt_is_Some_2 (PagePath.frames (path b)) (depth (slpt w) - 1)) as [f Hf];
    [rewrite Hfr; unfold MAXIMUM_LEVELS; lia|].
  destruct (lookup_lt_is_Some_2 (path_of (levels (slpt w)) v) (depth (slpt w) - 1)) as [k Hk];
    [rewrite path_of_length by lia; unfold depth in *; lia|].
  assert (index_ok k) as Hko by (by eapply (proj1 (Forall_lookup _ _) (path_of_ok _ _))).
  assert (n !! take (depth (slpt w) - 1) (path_of (levels (slpt w)) v) = Some f) as Hnf by (rewrite Hon by lia; done).
  assert (∀ e, failed (slpt w) w (T w) n0 e (w1, b)) as Hfail.
  { intros e. eapply failed_clean; [|done|by left]. split; [done..|]. unfold MAXIMUM_LEVELS in *. lia. }
  unfold publish. rewrite wp_bind, wp_self, Ha1, wp_bind. apply wp_sub; [lia|]. rewrite wp_bind.
  apply wp_index with f; [lia|by rewrite Hpos|]. rewrite wp_bind.
  apply wp_index with k; [lia|by rewrite Hpos, Hidx by lia|]. rewrite wp_bind, wp_attempt.
  apply wp_load; [done|done| |intros e; by eapply undo_ok].
  intros l entry Hlt Hle.
  pose proof (entry_shown _ _ _ _ _ _ _ _ k Ht1 Hnf Hlt Hko) as Hex. rewrite Hle in Hex. injection Hex as ->.
  rewrite (free_leaf w n0 n leaves v pa k) by done. cbn [negb Z.eqb]. rewrite wp_bind, wp_attempt.
  eapply wp_write; [done..| |].
  - intros w2 (Ha2 & Hi2 & Hm2 & HT2).
    eapply (slpt_install_ok w n0 leaves n w1 b w2 i s v pa bits perm l f k); try done; congruence.
  - intros e w2 (Ha2 & Hi2 & Hm2 & HT2). eapply undo_ok; [done..| |done].
    eapply failed_clean; [|by rewrite HT2|left; congruence].
    split; [congruence|done|done|]. unfold MAXIMUM_LEVELS in *. lia.
Qed.

Lemma map_page_all w v pa perm :
  inv w → u64 v → u64 pa →
  wp (map_page v pa perm) (λ o w', (mapped w v pa perm o w' ∧ inv w') ∧ renews w w') (λ _ w', refused w w') w.
Proof.
  intros Hinv Hv Hpa. pose proof (inv_refused w Hinv) as Hself. unfold map_page.
  rewrite wp_bind. apply wp_ensure; [|done]. intros Hop. rewrite wp_bind, wp_self, wp_bind, wp_lift.
  destruct (validate_iova (slpt w) v) as [[]|] eqn:Hvok; [|done]. rewrite wp_bind, wp_lift.
  destruct (validate_mapped_physical_address pa) as [[]|] eqn:Hpok; [|done]. rewrite wp_bind, wp_lift.
  destruct (DmaPermissions.bits perm) as [bits|] eqn:Hbits; [|done]. rewrite wp_bind, wp_lift.
  destruct (check_conflicts (slots (slpt w)) v pa) as [[]|] eqn:Hconf; [|done]. rewrite wp_bind, wp_ok_or.
  destruct (position slot_free (slots (slpt w))) as [i|] eqn:Hpos; [|done]. cbn [fmap option_fmap option_map].
  destruct (proj1 (position_Some _ _ _) Hpos) as [(s & Hs & Hfree) _].
  rewrite wp_bind. apply wp_store; [by simpl|]. rewrite wp_bind, wp_get.
  pose proof Hinv as (n0 & leaves & Hgood & Hcl & Htlb). specialize (Hcl Hop). pose proof Hgood as [Hc Hm Ht Hl].
  pose proof (build_path_ok _ Hc leaves w (T w) n0 v Ht Hl Hcl _ (stage_start w n0 leaves v Hgood)) as Hbuild.
  unfold wp at 1 in Hbuild. change (Z.to_nat 0) with 0%nat. cbv zeta.
  change (PagePath.depth (PagePath.empty (levels (slpt w)))) with (levels (slpt w)).
  destruct (build_path v _) as [[] [w1 b]|e [w1 b]|]; [| |done].
  - destruct Hbuild as [n Hst]. rewrite wp_bind, wp_put. eapply slpt_publish_ok; try done.
  - rewrite wp_bind, wp_put. eapply undo_ok; [done..|]. by rewrite bool_decide_eq_true.
Qed.

Lemma map_page_ok w v pa perm :
  inv w → u64 v → u64 pa →
  wp (map_page v pa perm) (λ o w', mapped w v pa perm o w' ∧ inv w') (λ _ w', refused w w') w.
Proof.
  intros Hinv Hv Hpa. eapply wp_mono; [by apply map_page_all| |done]. by intros o w' [? _].
Qed.

(** ** Finishing a map *)

Definition shows_less w w' : Prop := ages (invalidator w) (invalidator w').

(** An unmap takes no table either. *)
Definition settles w w' : Prop := shows_less w w' ∧ ∀ f, T w !! f = None → T w' !! f = None.

Lemma settles_same w w' : shows_less w w' → T w' = T w → settles w w'.
Proof. intros Hless HT. split; [done|]. by rewrite HT. Qed.
Lemma settles_trans w1 w2 w3 : settles w1 w2 → settles w2 w3 → settles w1 w3.
Proof. intros [H1 H2] [H3 H4]. split; [by unfold shows_less in *; etrans|auto]. Qed.

Lemma finish_map_ok w h :
  inv w → 0 <= MappingHandle.slot h →
  wp (finish_map h)
    (λ o w', inv w' ∧ memory w' = memory w ∧ shows_less w w' ∧ ∃ i s r, names (slpt w) h i s r ∧
      MappingRecord.phase r = AwaitingMapInvalidation ∧
      (o = MapActive h ∧ slpt w' = put_slot (slpt w) i (MappingSlot.mk (MappingSlot.generation s)
         (Some (MappingRecord.with_phase Active r)) (MappingSlot.retired s)) ∨
       ∃ e, o = MapPending h (Invalidation e) ∧ slpt w' = slpt w))
    (λ _ w', w' = w) w.
Proof.
  intros Hinv Hh. unfold finish_map. rewrite wp_bind. apply wp_ensure; [|done]. intros _.
  rewrite wp_bind. apply wp_find_record; [done| |done]. intros i s r Hn. pose proof Hn as (_ & Hs & _ & Hr).
  case_bool_decide as Hph; [|done]. cbn [negb]. rewrite wp_bind, wp_attempt. apply wp_invalidate; [by apply inv_inval|..].
  - intros w1 Hf. pose proof (forgets_keeps _ _ _ Hf) as (Ha1 & Hm1 & Hc1). rewrite wp_bind.
    apply (slpt_wp_update_record i _ s r); [by rewrite Ha1|done|]. rewrite wp_ret, Ha1. split_and!; [|done..|].
    + eapply (inv_rephase_live w _ i s r Active); try done; [by left|by right].
    + exists i, s, r. split_and!; [done..|by left].
  - intros e w1 Hk. rewrite wp_ret. pose proof Hk as (Ha1 & Hm1 & Hc1). split_and!; [by eapply inv_keeps|done..|].
    exists i, s, r. split_and!; [done..|]. right. by exists e.
Qed.

(** ** Reclaiming tables *)

Lemma inv_same w w' :
  inv w → slpt w' = slpt w → T w' = T w → mem_ok (memory w') → shows_less w w' → inv w'.
Proof.
  intros (n & leaves & [Hc Hm Ht Hl] & Hcl & Hi & Htlb) Ha HT Hm' Hless. exists n, leaves. split_and!.
  - split; rewrite ?Ha, ?HT; done.
  - by rewrite Ha, HT.
  - split; [by eapply ages_ok|]. rewrite Ha. intros x e Hx%(ages_cached _ _ _ _ Hless). by apply Htlb.
Qed.

(** What reading a whole table tells. *)
Lemma table_is_empty_ok (m : S) f :
  mem_ok m →
  match table_is_empty m f with
  | Ok true => ∃ l, tables m !! f = Some l ∧ ∀ j, index_ok j → l !! Z.to_nat j = Some 0
  | Ok false => ∃ l j v, tables m !! f = Some l ∧ index_ok j ∧ l !! Z.to_nat j = Some v ∧ v ≠ 0
  | Err _ => True
  end.
Proof.
  intros Hm. unfold table_is_empty.
  assert (∀ l, Forall index_ok l →
    match table_is_empty_loop m f l with
    | Ok true => Forall (λ j, ∃ l, tables m !! f = Some l ∧ l !! Z.to_nat j = Some 0) l
    | Ok false => ∃ l j v, tables m !! f = Some l ∧ index_ok j ∧ l !! Z.to_nat j = Some v ∧ v ≠ 0
    | Err _ => True
    end) as Hloop.
  { induction l as [|j l IH]; intros Hall; simpl; [done|]. apply Forall_cons in Hall as [Hj Hall].
    destruct (read_entry m f j) as [v|] eqn:Hread; [|done].
    destruct (read_law m f j v Hm Hj Hread) as (lf & Hlf & Hv).
    destruct (Z.eqb_spec v 0) as [->|Hne]; simpl; [|by exists lf, j, v].
    specialize (IH Hall). destruct (table_is_empty_loop m f l) as [[]|]; [|done..]. constructor; eauto. }
  specialize (Hloop (range 0 ENTRIES_PER_TABLE)). destruct (table_is_empty_loop _ _ _) as [[]|]; [| |done].
  - assert (Forall index_ok (range 0 ENTRIES_PER_TABLE)) as Hr
      by (apply Forall_forall; intros j Hj%elem_of_range; exact Hj).
    specialize (Hloop Hr). rewrite Forall_forall in Hloop.
    destruct (Hloop 0) as (l & Hl & _); [by apply elem_of_range|]. exists l. split; [done|]. intros j Hj.
    destruct (Hloop j) as (l' & Hl' & Hv); [by apply elem_of_range|]. congruence.
  - apply Hloop, Forall_forall. intros j Hj%elem_of_range. exact Hj.
Qed.

Definition set_record (a : t) (i : nat) (s : MappingSlot.t) (r : MappingRecord.t) : t :=
  put_slot a i (MappingSlot.mk (MappingSlot.generation s) (Some r) (MappingSlot.retired s)).

(** The record [r] in slot [i] waits for the cleanup of its tables. *)
Definition waiting w (i : nat) s r : Prop :=
  inv w ∧ state (slpt w) = Operational ∧ slots (slpt w) !! i = Some s ∧ MappingSlot.record s = Some r ∧
  MappingRecord.phase r = AwaitingCleanup.

(** Slot [i] can be retired. *)
Definition retirable w (i : nat) : Prop :=
  ∃ n leaves, good w n leaves ∧ closed (slpt w) (Some i) (T w) n ∧ tlb_ok (slpt w) (invalidator w).

Definition sound w : Prop := ∃ n leaves, good w n leaves ∧ tlb_ok (slpt w) (invalidator w).

Lemma waiting_not_live w i s r : waiting w i s r → ¬ live r.
Proof. intros (_ & _ & _ & _ & Hp) [Hl|Hl]; congruence. Qed.

(** Unlinking the empty table at [q ++ [x]] from the table [f] at [q]. *)
Lemma good_unlinked w n leaves w' q x f l c lc :
  good w n leaves → n !! q = Some f → T w !! f = Some l → n !! (q ++ [x]) = Some c → T w !! c = Some lc →
  (∀ j, index_ok j → lc !! Z.to_nat j = Some 0) →
  slpt w' = slpt w → mem_ok (memory w') →
  T w' = <[f := <[Z.to_nat x := 0]> l]> (T w) ∨ T w' = delete c (<[f := <[Z.to_nat x := 0]> l]> (T w)) →
  good w' (delete (q ++ [x]) n) leaves.
Proof.
  intros [Hc Hm Ht Hl] Hq Hf Hqx Hlc Hzero Ha Hm' HT'.
  assert (index_ok x) as Hx by (eapply tree_index; [done|]; by eexists).
  pose proof (tree_unlink _ _ _ _ _ _ _ _ _ Ht Hq Hf Hx c lc Hqx Hlc Hzero) as Ht'.
  destruct (tree_table _ _ _ _ _ Ht _ _ Hqx) as (lc' & Hlc' & _ & Hshow). simplify_eq.
  assert (childless n leaves (q ++ [x])) as Hless.
  { intros y. assert (index_ok y → expect (depth (slpt w)) n leaves ((q ++ [x]) ++ [y]) = 0) as Hexp
      by (intros Hy; specialize (Hshow y Hy); rewrite Hzero in Hshow by done; congruence).
    unfold expect in Hexp. split; apply eq_None_not_Some; intros [g Hg].
    - rewrite decide_False, Hg in Hexp by (pose proof (tree_depth _ _ _ _ _ Ht _ _ Hg); lia).
      by eapply link_nonzero, Hexp, tree_index; [|by eexists].
    - destruct (tree_leaf _ _ _ _ _ Ht _ _ _ Hg) as (Hlen & Hy & _ & Hperm).
      rewrite decide_True, Hg in Hexp by done. specialize (Hexp Hy). simpl in Hexp. by subst g. }
  split; rewrite ?Ha; [done|done| |].
  - destruct HT' as [-> | ->]; [done|]. eapply tree_outside; [exact Ht'|]. intros p g Hg.
    apply lookup_delete_ne. intros <-. apply lookup_delete_Some in Hg as [Hne Hg].
    apply Hne. by eapply (tree_inj _ _ _ _ _ Ht).
  - eapply ledger_prune; [done|apply (tree_inj _ _ _ _ _ Ht)|done|done|done].
Qed.

Definition step_failed w (e : ReclaimError) w' : Prop :=
  slpt w' = slpt w ∧ shows_less w w' ∧
  match e with Fatal => sound w' | _ => inv w' ∧ T w' = T w end.

(** Putting the pointer back after a failed invalidation or release. *)
Lemma restore_ok {A} w w1 q x f l c lc n leaves e (Q : A → world S I → Prop) :
  inv w → good w n leaves → n !! q = Some f → T w !! f = Some l → n !! (q ++ [x]) = Some c → T w !! c = Some lc →
  (∀ j, index_ok j → lc !! Z.to_nat j = Some 0) → l !! Z.to_nat x = Some (Z.lor c PERMISSION_MASK) →
  slpt w1 = slpt w → mem_ok (memory w1) → T w1 = <[f := <[Z.to_nat x := 0]> l]> (T w) → shows_less w w1 →
  e ≠ Fatal →
  wp (restored ← attempt (on_memory (write_entry f x (Z.lor c PERMISSION_MASK)));
      match restored with Err _ => throw Fatal | Ok _ => throw e end) Q (step_failed w) w1.
Proof.
  intros Hinv Hgood Hq Hf Hqx Hlc Hzero Hlx Ha1 Hm1 HT1 Hless He. pose proof Hgood as [Hc Hm Ht Hl].
  pose proof (tree_frame _ _ _ _ _ Ht _ _ Hqx) as Hok. apply frame_ok_spec in Hok as (Hu & _ & Hmask).
  assert (index_ok x) as Hx by (eapply tree_index; [done|]; by eexists).
  rewrite wp_bind, wp_attempt. eapply wp_write; [done|rewrite HT1; apply lookup_insert_eq|done|by apply entry_u64|..].
  - intros w2 (Ha2 & Hi2 & Hm2 & HT2). rewrite wp_throw.
    rewrite HT1, insert_insert_eq, list_insert_insert_eq, (list_insert_id l), insert_id in HT2 by done.
    assert (shows_less w w2) as Hless2 by (unfold shows_less; by rewrite Hi2).
    assert (inv w2) by (eapply (inv_same w); [done|congruence|done..]).
    split; [congruence|]. split; [done|]. by destruct e.
  - intros e' w2 (Ha2 & Hi2 & Hm2 & HT2). rewrite wp_throw.
    assert (shows_less w w2) as Hless2 by (unfold shows_less; by rewrite Hi2).
    split; [congruence|]. split; [done|]. destruct Hinv as (_ & _ & _ & _ & Htlb).
    eexists _, leaves. split; [eapply (good_unlinked w n leaves w2 q x f l c lc); try done; [congruence|left; congruence]|].
    rewrite Ha2, Ha1. destruct Htlb as [Hi Htlb]. split; [by eapply ages_ok|].
    intros y z Hy. by eapply Htlb, ages_cached.
Qed.

(** The deepest retained table of a waiting record, when the memory has it. *)
Lemma deepest_ok w i s r n leaves k c :
  waiting w i s r → good w n leaves → closed (slpt w) None (T w) n →
  Datatypes.S k = retained_depth (slpt w) r → rframes r !! k = Some c → is_Some (T w !! c) →
  on_tree (slpt w) n r k.
Proof.
  intros (_ & _ & Hs & Hr & _) [_ _ _ Hl] Hcl Hk Hc' Hdom. destruct (cl_dom _ _ _ _ Hcl c Hdom) as [p Hp].
  eapply (lg_path _ _ _ Hl i); [by exists s|lia|done..].
Qed.

Lemma no_leaf_dying a n leaves i r :
  config_ok a → ledger a n leaves → holds a i r → ¬ live r → leaves !! rpath a r = None.
Proof.
  intros Hc Hl Hh Hnl. apply eq_None_not_Some. intros [v Hv].
  destruct (lg_leaf _ _ _ Hl _ _ Hv) as (j & y & Hy & Hly & Hp & _).
  pose proof (rpath_inj _ _ _ Hc (lg_record _ _ _ Hl _ _ Hy) (lg_record _ _ _ Hl _ _ Hh) Hp) as Heq.
  pose proof (lg_iova _ _ _ Hl _ _ _ _ Hy Hh Heq) as ->. by rewrite (holds_unique _ _ _ _ Hy Hh) in Hly.
Qed.

(** After the deepest table was unlinked, invalidated and released. *)
Lemma slpt_released_ok w w' w'' i s r n leaves k x f l c lc :
  waiting w i s r → good w n leaves → closed (slpt w) None (T w) n →
  Datatypes.S (Datatypes.S k) = retained_depth (slpt w) r → rpath (slpt w) r !! k = Some x →
  n !! take k (rpath (slpt w) r) = Some f → T w !! f = Some l →
  n !! take (Datatypes.S k) (rpath (slpt w) r) = Some c → T w !! c = Some lc →
  (∀ j, index_ok j → lc !! Z.to_nat j = Some 0) →
  slpt w' = slpt w → mem_ok (memory w') → T w' = delete c (<[f := <[Z.to_nat x := 0]> l]> (T w)) →
  shows_less w w' → w'' = set_slpt (set_record (slpt w) i s (MappingRecord.with_cleanup (MappingRecord.cleanup_depth r + 1) r)) w' →
  inv w''.
Proof.
  intros Hw Hgood Hcl Hk Hx Hf Hlf Hc' Hlc Hzero Ha Hm HT Hless ->.
  pose proof (take_S_r _ _ _ Hx) as Hsnoc. rewrite Hsnoc in Hc'.
  pose proof (waiting_not_live _ _ _ _ Hw) as Hnl. pose proof Hw as ((_ & _ & _ & _ & Htlb) & Hop & Hs & Hr & Hph).
  pose proof (good_unlinked w n leaves w' _ x f l c lc Hgood Hf Hlf Hc' Hlc Hzero Ha Hm (or_intror HT)) as [Hc1 Hm1 Ht1 Hl1].
  rewrite Ha in Hc1, Ht1, Hl1. destruct Hgood as [Hc _ Ht Hl].
  assert (holds (slpt w) i r) as Hh by (by exists s). pose proof (lg_record _ _ _ Hl _ _ Hh) as Hok.
  assert (record_ok (slpt w) (MappingRecord.with_cleanup (MappingRecord.cleanup_depth r + 1) r)) as Hok'.
  { destruct Hok. split; try done. unfold retained_depth in Hk. simpl. lia. }
  exists (delete (take k (rpath (slpt w) r) ++ [x]) n), leaves. split_and!.
  - split; [by apply config_ok_put|done|done|]. eapply (ledger_replace (slpt w)); try done.
    + simpl. lia.
    + intros j y Hy Hly _. by apply (lg_live _ _ _ Hl1 _ _ Hy Hly).
    + intros q v Hv. split; [done|]. intros ->. by rewrite (no_leaf_dying _ n _ i) in Hv.
  - intros _. change (T (set_slpt _ w')) with (T w'). rewrite HT, <-Hsnoc. rewrite <-Hsnoc in Hc'.
    eapply closed_release; [done|done|done|lia|done|apply (tree_inj _ _ _ _ _ Ht)|done|by eexists].
  - split; [by eapply ages_ok, Htlb|]. intros y e Hy%(ages_cached _ _ _ _ Hless). destruct (proj2 Htlb y e Hy) as (j & z & Hz & Hzi & Hzl & Hzp). exists j, z. split; [|done].
    apply holds_put; [by eapply holds_bound|]. right. split; [|done]. intros ->.
    rewrite (holds_unique _ _ _ _ Hz Hh) in Hzp. done.
Qed.

Definition stepped w i s r (more : bool) w' : Prop :=
  if more then
    inv w' ∧ settles w w' ∧
    slpt w' = set_record (slpt w) i s (MappingRecord.with_cleanup (MappingRecord.cleanup_depth r + 1) r)
  else w' = w ∧ retirable w i.

Lemma failed_here w e : inv w → e ≠ Fatal → step_failed w e w.
Proof. intros Hinv He. split; [done|]. split; [by unfold shows_less|]. by destruct e. Qed.

Lemma reclaim_child_ok w i s r n leaves k c lc :
  waiting w i s r → good w n leaves → closed (slpt w) None (T w) n →
  Datatypes.S (Datatypes.S k) = retained_depth (slpt w) r → rframes r !! Datatypes.S k = Some c →
  T w !! c = Some lc → (∀ j, index_ok j → lc !! Z.to_nat j = Some 0) →
  wp (reclaim_child (Z.of_nat i) r (Z.of_nat (Datatypes.S k)) c) (λ _, stepped w i s r true) (step_failed w) w.
Proof.
  intros Hw Hgood Hcl Hk Hc' Hlc Hzero.
  pose proof (deepest_ok w i s r n leaves _ c Hw Hgood Hcl Hk Hc' (ex_intro _ _ Hlc)) as Hon.
  pose proof Hw as (Hinv & Hop & Hs & Hr & Hph). pose proof Hgood as [Hc Hm Ht Hl].
  assert (holds (slpt w) i r) as Hh by (by exists s). pose proof (lg_record _ _ _ Hl _ _ Hh) as Hok.
  pose proof (retained_depth_le _ _ Hok) as Hrd. pose proof (depth_bounds _ Hc) as Hd. pose proof (rec_cleanup _ _ Hok) as Hcd.
  destruct (rframes_lookup _ r k Hok Hc) as [f Hf]; [lia|].
  destruct (lookup_lt_is_Some_2 (rpath (slpt w) r) k) as [x Hx]; [rewrite rpath_length by done; lia|].
  assert (PagePath.indices (MappingRecord.path r) !! k = Some x) as Hix
    by (rewrite <-Hx, <-(rec_indices _ _ Hok), lookup_take_lt by lia; done).
  assert (n !! take k (rpath (slpt w) r) = Some f) as Hnf by (rewrite Hon by lia; done).
  assert (n !! take (Datatypes.S k) (rpath (slpt w) r) = Some c) as Hnc by (rewrite Hon by lia; done).
  pose proof Hnc as Hnc'. rewrite (take_S_r _ _ _ Hx) in Hnc'.
  assert (index_ok x) as Hxo by (eapply tree_index; [done|]; by eexists).
  unfold reclaim_child. rewrite wp_bind. apply wp_sub; [lia|].
  replace (Z.of_nat (Datatypes.S k) - 1) with (Z.of_nat k) by lia.
  rewrite wp_bind. apply wp_index with f; [lia|by rewrite Nat2Z.id|].
  rewrite wp_bind. apply wp_index with x; [lia|by rewrite Nat2Z.id|].
  rewrite wp_bind, wp_map_err. apply wp_load; [done|done| |intros e; by apply failed_here].
  intros l entry Hlf Hle. pose proof (entry_shown _ _ _ _ _ _ _ _ x Ht Hnf Hlf Hxo) as Hex. rewrite Hle in Hex.
  unfold expect in Hex. rewrite decide_False, Hnc' in Hex
    by (pose proof (tree_depth _ _ _ _ _ Ht _ _ Hnc'); lia).
  injection Hex as ->. rewrite Z.eqb_refl. cbn [negb]. rewrite wp_bind, wp_map_err.
  eapply wp_write; [done..| |].
  2:{ intros e w1 (Ha1 & Hi1 & Hm1 & HT1). assert (shows_less w w1) as Hless by (unfold shows_less; by rewrite Hi1).
      split; [done|]. split; [done|]. split; [by eapply inv_same|done]. }
  intros w1 (Ha1 & Hi1 & Hm1 & HT1). rewrite wp_bind, wp_attempt. apply wp_invalidate; [rewrite Hi1; by apply inv_inval|..].
  2:{ intros e w2 (Ha2 & Hm2 & Hless2). assert (T w2 = T w1) as HT2 by (unfold T; by rewrite Hm2).
      eapply (restore_ok w w2 _ x f l c lc n leaves); try done; try congruence. unfold shows_less. by rewrite <-Hi1. }
  intros w2 (Ha2 & Hm2 & Hforget & _). assert (T w2 = T w1) as HT2 by (unfold T; by rewrite Hm2).
  assert (shows_less w w2) as Hless2 by (unfold shows_less; by rewrite <-Hi1).
  rewrite wp_bind, wp_attempt. eapply slpt_wp_release; [congruence| | |].
  { rewrite HT2, HT1, lookup_insert_ne; [done|]. intros ->.
    pose proof (tree_inj _ _ _ _ _ Ht _ _ _ Hnf Hnc') as Heq. symmetry in Heq. by apply snoc_ne in Heq. }
  - intros w3 (Ha3 & Hi3 & Hm3 & HT3). rewrite wp_bind. apply wp_add.
    { unfold retained_depth, depth in *. apply Z.lt_trans with 10; [lia|done]. }
    apply (slpt_wp_update_record i _ s r); [by rewrite Ha3, Ha2, Ha1|done|].
    assert (shows_less w w3) as Hless3 by (unfold shows_less; by rewrite Hi3).
    split; [|split; [split; [exact Hless3|]|by rewrite Ha3, Ha2, Ha1]].
    2:{ intros g Hg. change (T (set_slpt _ w3)) with (T w3). rewrite HT3, HT2, HT1. apply lookup_delete_None. right.
        rewrite lookup_insert_ne; [done|congruence]. }
    eapply (slpt_released_ok w w3 _ i s r n leaves k x f l c lc); try done; [congruence|congruence|].
    by rewrite Ha3, Ha2, Ha1.
  - intros e w3 (Ha3 & Hi3 & Hm3 & HT3).
    eapply (restore_ok w w3 _ x f l c lc n leaves); try done; try congruence. unfold shows_less. by rewrite Hi3.
Qed.

Lemma reclaim_step_ok w i s r :
  waiting w i s r → wp (reclaim_step (Z.of_nat i)) (stepped w i s r) (step_failed w) w.
Proof.
  intros Hw. pose proof (waiting_not_live _ _ _ _ Hw) as Hnl.
  pose proof Hw as (Hinv & Hop & Hs & Hr & Hph). pose proof Hinv as (n & leaves & Hgood & Hcl & Htlb).
  specialize (Hcl Hop). pose proof Hgood as [Hc Hm Ht Hl]. pose proof (cfg_levels _ Hc) as Hlv.
  assert (holds (slpt w) i r) as Hh by (by exists s). pose proof (lg_record _ _ _ Hl _ _ Hh) as Hok.
  pose proof (rec_cleanup _ _ Hok) as Hcd. pose proof (rec_frames _ _ Hok) as Hfl. unfold MAXIMUM_LEVELS in *.
  unfold reclaim_step. rewrite wp_bind, wp_self, wp_bind. apply wp_index with s; [lia|by rewrite Nat2Z.id|].
  rewrite Hr, (rec_depth _ _ Hok), wp_bind. change (PagePath.frames (MappingRecord.path r)) with (rframes r).
  apply wp_add; [apply Z.lt_trans with 10; [lia|done]|].
  destruct (Z.leb_spec (levels (slpt w)) (MappingRecord.cleanup_depth r + 1)) as [Htop|Hdeep].
  { rewrite wp_ret. split; [done|]. exists n, leaves. split_and!; [done| |done].
    eapply closed_top; [done..|]. unfold retained_depth. lia. }
  rewrite wp_bind. apply wp_sub; [lia|]. rewrite wp_bind. apply wp_sub; [lia|]. rewrite wp_bind.
  set (k := Z.to_nat (levels (slpt w) - 1 - MappingRecord.cleanup_depth r - 1)).
  assert (Datatypes.S (Datatypes.S k) = retained_depth (slpt w) r) as Hk by (unfold k, retained_depth; lia).
  assert (Z.to_nat (levels (slpt w) - 1 - MappingRecord.cleanup_depth r) = Datatypes.S k) as HkZ by (unfold k; lia).
  destruct (lookup_lt_is_Some_2 (rframes r) (Datatypes.S k)) as [c Hc']; [lia|].
  apply wp_index with c; [lia|by rewrite HkZ|]. rewrite wp_bind, wp_get, wp_bind, wp_map_err, wp_lift.
  pose proof (table_is_empty_ok (memory w) c Hm) as Hempty.
  destruct (table_is_empty (memory w) c) as [[]|e]; cbn [negb].
  3:{ by apply failed_here. }
  2:{ rewrite wp_ret. split; [done|]. destruct Hempty as (lc & j & v & Hlc & Hj & Hv & Hne).
      pose proof (deepest_ok w i s r n leaves _ c Hw Hgood Hcl Hk Hc' (ex_intro _ _ Hlc)) as Hon.
      assert (n !! take (Datatypes.S k) (rpath (slpt w) r) = Some c) as Hnc by (by rewrite Hon).
      pose proof (entry_shown _ _ _ _ _ _ _ _ j Ht Hnc Hlc Hj) as Hex. rewrite Hv in Hex. injection Hex as ->.
      exists n, leaves. split_and!; [done| |done]. by eapply closed_skip. }
  destruct Hempty as (lc & Hlc & Hzero). rewrite wp_bind.
  replace (levels (slpt w) - 1 - MappingRecord.cleanup_depth r) with (Z.of_nat (Datatypes.S k)) by lia.
  eapply wp_mono; [by eapply reclaim_child_ok| |done]. by intros [] w'.
Qed.

Lemma set_record_same a i s r : slots a !! i = Some s → MappingSlot.record s = Some r → set_record a i s r = a.
Proof.
  intros Hs Hr. unfold set_record, put_slot. rewrite list_insert_id; [by destruct a|]. rewrite Hs. f_equal.
  destruct s. simpl in *. by subst.
Qed.
Lemma set_record_twice a i s r r' :
  (i < length (slots a))%nat →
  set_record (set_record a i s r) i (MappingSlot.mk (MappingSlot.generation s) (Some r) (MappingSlot.retired s)) r' =
  set_record a i s r'.
Proof. intros Hi. unfold set_record, put_slot, with_slots. simpl. by rewrite list_insert_insert_eq. Qed.

Definition trimmed (r r' : MappingRecord.t) : Prop := ∃ m, r' = MappingRecord.with_cleanup m r.
Lemma trimmed_refl r : trimmed r r.
Proof. exists (MappingRecord.cleanup_depth r). by destruct r. Qed.
Lemma trimmed_trans r m r' : trimmed (MappingRecord.with_cleanup m r) r' → trimmed r r'.
Proof. intros [m' ->]. by exists m'. Qed.

Lemma waiting_step w w' i s r :
  waiting w i s r → stepped w i s r true w' →
  let r' := MappingRecord.with_cleanup (MappingRecord.cleanup_depth r + 1) r in
  waiting w' i (MappingSlot.mk (MappingSlot.generation s) (Some r') (MappingSlot.retired s)) r'.
Proof.
  intros (_ & Hop & Hs & Hr & Hph) (Hinv & _ & Ha). split_and!; try done; rewrite ?Ha; [done|].
  apply list_lookup_insert_eq. by eapply lookup_lt_Some.
Qed.

(** The loop ends within one turn per retained table. *)
Lemma reclaim_loop_ok fuel w i s r :
  waiting w i s r → (retained_depth (slpt w) r <= fuel)%nat →
  wp (reclaim_loop fuel (Z.of_nat i))
    (λ _ w', inv w' ∧ settles w w' ∧ retirable w' i ∧ ∃ r', trimmed r r' ∧ slpt w' = set_record (slpt w) i s r')
    (λ e w', shows_less w w' ∧ match e with Fatal => sound w' | _ => inv w' ∧ settles w w' end ∧
             ∃ r', trimmed r r' ∧ slpt w' = set_record (slpt w) i s r') w.
Proof.
  revert w s r. induction fuel as [|fuel IH]; intros w s r Hw Hfuel.
  { exfalso. destruct Hw as ((n & leaves & [Hc _ _ Hl] & _) & _ & Hs & Hr & _).
    pose proof (rec_cleanup _ _ (lg_record _ _ _ Hl i r (ex_intro _ s (conj Hs Hr)))).
    unfold retained_depth in Hfuel. lia. }
  pose proof Hw as (Hinv & _ & Hs & Hr & _). pose proof (lookup_lt_Some _ _ _ Hs) as Hlt.
  simpl. rewrite wp_bind. eapply wp_mono; [by apply reclaim_step_ok| |].
  - intros [] w1 Hst.
    + pose proof (waiting_step _ _ _ _ _ Hw Hst) as Hw1. destruct Hst as (_ & Hless & Ha1).
      eapply wp_mono; [apply IH; [exact Hw1|]| |].
      * rewrite Ha1. unfold retained_depth in *. simpl. lia.
      * intros [] w2 (Hinv2 & Hless2 & Hret & r' & Htr & Ha2). split; [done|].
        split; [by eapply settles_trans|]. split; [done|]. exists r'.
        split; [by eapply trimmed_trans|]. rewrite Ha2, Ha1. by apply set_record_twice.
      * intros e w2 (Hless2 & He & r' & Htr & Ha2).
        split; [by destruct Hless; unfold shows_less in *; etrans|].
        split; [destruct e; [destruct He; split; [done|by eapply settles_trans]..|done]|]. exists r'. split; [by eapply trimmed_trans|]. rewrite Ha2, Ha1. by apply set_record_twice.
    + destruct Hst as [-> Hret]. rewrite wp_ret. split; [done|].
      split; [apply settles_same; [by unfold shows_less|done]|]. split; [done|].
      exists r. split; [apply trimmed_refl|]. by rewrite set_record_same.
  - intros e w1 (Ha1 & Hless & He). split; [done|]. split.
    { destruct e; [destruct He; split; [done|by apply settles_same]..|exact He]. }
    exists r. split; [apply trimmed_refl|]. by rewrite set_record_same, Ha1.
Qed.

(** ** Unmapping *)

Definition retire (s : MappingSlot.t) : MappingSlot.t :=
  if MappingSlot.generation s =? MAX 32 then MappingSlot.mk (MappingSlot.generation s) None true
  else MappingSlot.mk (MappingSlot.generation s + 1) None (MappingSlot.retired s).

Lemma wp_retire_slot {E} i s w (Q : unit → world S I → Prop) (R : E → world S I → Prop) :
  slots (slpt w) !! i = Some s → Q () (set_slpt (put_slot (slpt w) i (retire s)) w) →
  wp (retire_slot (Z.of_nat i)) Q R w.
Proof.
  intros Hs HQ. pose proof (lookup_lt_Some _ _ _ Hs). unfold retire_slot. rewrite wp_bind, wp_self, wp_bind.
  apply wp_index with s; [lia|by rewrite Nat2Z.id|]. rewrite wp_bind. apply wp_store; [lia|]. by rewrite Nat2Z.id.
Qed.

Lemma inv_retired w i s r :
  retirable w i → slots (slpt w) !! i = Some s → MappingSlot.record s = Some r →
  MappingRecord.phase r = AwaitingCleanup → inv (set_slpt (put_slot (slpt w) i (retire s)) w).
Proof.
  intros (n & leaves & [Hc Hm Ht Hl] & Hcl & Htlb) Hs Hr Hph. assert (holds (slpt w) i r) as Hh by (by exists s).
  assert (MappingSlot.record (retire s) = None) as Hnone by (unfold retire; by destruct (_ =? _)).
  exists n, leaves. split_and!.
  - split; [by apply config_ok_put|done|done|]. eapply ledger_retire; [done|done| |done].
    intros [Hp|Hp]; congruence.
  - intros _. by eapply closed_retire.
  - split; [apply Htlb|]. intros x e Hx. destruct (proj2 Htlb x e Hx) as (j & y & Hy & ? & ? & Hyp). exists j, y. split; [|done].
    apply holds_put; [by eapply holds_bound|]. right. split; [|done]. intros ->.
    rewrite (holds_unique _ _ _ _ Hy Hh) in Hyp. done.
Qed.

Lemma inv_sound_poisoned w : sound w → inv (set_slpt (with_state Poisoned (slpt w)) w).
Proof.
  intros (n & leaves & [Hc Hm Ht Hl] & Htlb). exists n, leaves. split_and!; [|done|exact Htlb].
  split; [by apply config_state|done|done|by apply ledger_state].
Qed.

(** [r'] is [r] further on its way out. *)
Definition aged (r r' : MappingRecord.t) : Prop :=
  ∃ m ph, r' = MappingRecord.with_cleanup m (MappingRecord.with_phase ph r) ∧
          (ph = AwaitingUnmapInvalidation ∨ ph = AwaitingCleanup).

Definition unmapped w h i s r o w' : Prop :=
  inv w' ∧ settles w w' ∧
  (o = Complete ∧ slpt w' = put_slot (slpt w) i (retire s) ∨
   ∃ cause r', o = UnmapPending h cause ∧ aged r r' ∧ slpt w' = set_record (slpt w) i s r').

Definition lost w i s r w' : Prop :=
  inv w' ∧ shows_less w w' ∧ ∃ r', aged r r' ∧ slpt w' = with_state Poisoned (set_record (slpt w) i s r').

Lemma trimmed_aged r r' : MappingRecord.phase r = AwaitingCleanup → trimmed r r' → aged r r'.
Proof. intros Hph [m ->]. exists m, AwaitingCleanup. split; [|by right]. destruct r. simpl in *. by subst. Qed.
Lemma aged_trans r ph r' : aged (MappingRecord.with_phase ph r) r' → aged r r'.
Proof. intros (m & ph' & -> & Hph). by exists m, ph'. Qed.

Lemma reclaim_and_retire_ok w h i s r :
  waiting w i s r →
  wp (reclaim_and_retire h (Z.of_nat i)) (unmapped w h i s r) (λ _, lost w i s r) w.
Proof.
  intros Hw. pose proof Hw as ((n & leaves & [Hc _ _ Hl] & _) & _ & Hs & Hr & Hph).
  pose proof (lookup_lt_Some _ _ _ Hs) as Hlt.
  unfold reclaim_and_retire, reclaim_empty_tables. rewrite wp_bind, wp_attempt.
  eapply wp_mono; [apply reclaim_loop_ok; [exact Hw|]| |].
  - pose proof (retained_depth_le _ _ (lg_record _ _ _ Hl i r (ex_intro _ s (conj Hs Hr)))).
    pose proof (depth_bounds _ Hc). unfold MAXIMUM_LEVELS. lia.
  - intros [] w1 (Hinv1 & Hless & Hret & r' & Htr & Ha1). rewrite wp_bind.
    assert (slots (slpt w1) !! i = Some (MappingSlot.mk (MappingSlot.generation s) (Some r') (MappingSlot.retired s))) as Hs1
      by (rewrite Ha1; by apply list_lookup_insert_eq).
    eapply wp_retire_slot; [exact Hs1|]. rewrite wp_ret. split; [|split; [exact Hless|left; split; [done|]]].
    + eapply inv_retired; [done..|]. by destruct Htr as [m ->].
    + simpl. rewrite Ha1. unfold set_record, put_slot, with_slots. simpl. by rewrite list_insert_insert_eq.
  - intros e w1 (Hless & He & r' & Htr & Ha1). pose proof (trimmed_aged _ _ Hph Htr) as Hag.
    destruct e as [e|e|]; rewrite ?wp_ret, ?wp_bind, ?wp_poison, ?wp_throw.
    + destruct He. split; [done|]. split; [done|]. right. by exists (Cleanup e), r'.
    + destruct He. split; [done|]. split; [done|]. right. by exists (Invalidation e), r'.
    + split; [by apply inv_sound_poisoned|]. split; [exact Hless|]. exists r'. split; [done|]. simpl. by rewrite Ha1.
Qed.

(** The invalidation after an unmap succeeded. *)
Lemma inv_confirmed w w' i s r :
  inv w → slots (slpt w) !! i = Some s → MappingSlot.record s = Some r →
  MappingRecord.phase r = AwaitingUnmapInvalidation → forgets (MappingRecord.iova r) w w' →
  inv (set_slpt (set_record (slpt w) i s (MappingRecord.with_phase AwaitingCleanup r)) w').
Proof.
  intros (n & leaves & [Hc Hm Ht Hl] & Hcl & Htlb) Hs Hr Hph (Ha & Hmem & Hage & Hforget).
  assert (holds (slpt w) i r) as Hh by (by exists s).
  assert (¬ live r) as Hnl by (intros [?|?]; congruence).
  assert (¬ live (MappingRecord.with_phase AwaitingCleanup r)) as Hnl' by (by intros [?|?]).
  assert (record_ok (slpt w) (MappingRecord.with_phase AwaitingCleanup r)) as Hok
    by (destruct (lg_record _ _ _ Hl _ _ Hh); split; done).
  assert (T (set_slpt (set_record (slpt w) i s (MappingRecord.with_phase AwaitingCleanup r)) w') = T w) as HT
    by (unfold T; simpl; by rewrite Hmem).
  exists n, leaves. split_and!.
  - split; [by apply config_ok_put|simpl; congruence|by rewrite HT|].
    eapply (ledger_replace (slpt w)); try done.
    + intros j x Hx Hlx _. by apply (lg_live _ _ _ Hl _ _ Hx Hlx).
    + intros q v Hv. split; [done|]. intros ->. by rewrite (no_leaf_dying _ n _ i) in Hv.
  - rewrite HT. intros Hst. eapply closed_rephase; [exact (Hcl Hst)|exact Hh|done].
  - split; [by eapply ages_ok, Htlb|]. intros x e Hx. pose proof (ages_cached _ _ _ _ Hage Hx) as Hold.
    destruct (proj2 Htlb x e Hold) as (j & y & Hy & Hyi & Hyr). exists j, y. split; [|done].
    apply holds_put; [by eapply holds_bound|]. right. split; [|done]. intros ->.
    rewrite (holds_unique _ _ _ _ Hy Hh) in Hyi. subst x. by eapply Hforget.
Qed.

(** Outcomes after a first change of phase, seen from before it. *)
Section from.
Context w w2 (h : MappingHandle.t) (i : nat) s r ph (Ha : slpt w2 = set_record (slpt w) i s (MappingRecord.with_phase ph r))
  (Hless : settles w w2) (Hlt : (i < length (slots (slpt w)))%nat).
#[local] Abbreviation r2 := (MappingRecord.with_phase ph r).
#[local] Abbreviation s2 := (MappingSlot.mk (MappingSlot.generation s) (Some r2) (MappingSlot.retired s)).

Lemma unmapped_from o w3 : unmapped w2 h i s2 r2 o w3 → unmapped w h i s r o w3.
Proof.
  intros (Hinv3 & Hless3 & Hor). split; [done|]. split; [by eapply settles_trans|].
  destruct Hor as [[-> Ha3]|(cause & r' & -> & Hag & Ha3)]; rewrite Ha in Ha3.
  - left. split; [done|]. rewrite Ha3. unfold set_record, put_slot, with_slots. simpl. by rewrite list_insert_insert_eq.
  - right. exists cause, r'. split_and!; [done|by eapply aged_trans|]. rewrite Ha3. by apply set_record_twice.
Qed.

Lemma lost_from w3 : lost w2 i s2 r2 w3 → lost w i s r w3.
Proof.
  intros (Hinv3 & Hless3 & r' & Hag & Ha3). split; [done|].
  split; [by destruct Hless; unfold shows_less in *; etrans|].
  exists r'. split; [by eapply aged_trans|]. rewrite Ha3, Ha. f_equal. by apply set_record_twice.
Qed.

Lemma names_from j s' r' : names (slpt w) h i s r → names (slpt w2) h j s' r' → j = i ∧ s' = s2 ∧ r' = r2.
Proof.
  intros (Hi & _) (Hj & Hs' & _ & Hr'). assert (j = i) as -> by lia. rewrite Ha in Hs'.
  unfold set_record, put_slot in Hs'. simpl in Hs'. rewrite list_lookup_insert_eq in Hs' by done. injection Hs' as <-. simpl in Hr'. by injection Hr' as <-.
Qed.
End from.

Lemma finish_unmap_ok w h :
  inv w → 0 <= MappingHandle.slot h →
  wp (finish_unmap h)
    (λ o w', ∃ i s r, names (slpt w) h i s r ∧ ¬ live r ∧ unmapped w h i s r o w')
    (λ _ w', w' = w ∧ (state (slpt w) = Operational → ∀ i s r, names (slpt w) h i s r → live r) ∨
             ∃ i s r, names (slpt w) h i s r ∧ ¬ live r ∧ lost w i s r w') w.
Proof.
  intros Hinv Hh. unfold finish_unmap. rewrite wp_bind.
  apply wp_ensure; [|intros Hp; left; split; [done|congruence]]. intros Hop.
  rewrite wp_bind. apply wp_find_record; [done| |intros Hno; left; split; [done|]; intros _ i s r Hn; by destruct (Hno i s r)].
  intros i s r Hn. pose proof Hn as (Hslot & Hs & _ & Hr). pose proof (lookup_lt_Some _ _ _ Hs) as Hlt.
  case_bool_decide as Hph.
  - assert (¬ live r) as Hnl by (intros [?|?]; congruence). rewrite wp_bind, wp_attempt. apply wp_invalidate; [by apply inv_inval|..].
    + intros w1 Hf. pose proof (inv_confirmed w w1 i s r Hinv Hs Hr Hph Hf) as Hinv1.
      destruct Hf as (Ha1 & Hm1 & Hless & _). rewrite wp_bind. apply (slpt_wp_update_record i _ s r); [by rewrite Ha1|done|].
      rewrite Ha1. fold (set_record (slpt w) i s (MappingRecord.with_phase AwaitingCleanup r)).
      set (r2 := MappingRecord.with_phase AwaitingCleanup r) in *.
      assert (settles w (set_slpt (set_record (slpt w) i s r2) w1)) as Hset
        by (apply settles_same; [exact Hless|unfold T; simpl; by rewrite Hm1]).
      eapply wp_mono; [apply (reclaim_and_retire_ok _ h i (MappingSlot.mk (MappingSlot.generation s) (Some r2)
        (MappingSlot.retired s)) r2); split_and!; try done; by apply list_lookup_insert_eq| |].
      * intros o w3 Ho. exists i, s, r. split_and!; [done..|]. by eapply unmapped_from; [| | |exact Ho].
      * intros e w3 He. right. exists i, s, r. split_and!; [done..|]. by eapply lost_from; [| | |exact He].
    + intros e w1 Hk. rewrite wp_ret. exists i, s, r. split_and!; [done..|]. split; [by eapply inv_keeps|].
      destruct Hk as (Ha1 & Hm1 & Hless). split; [apply settles_same; [done|unfold T; by rewrite Hm1]|]. right. exists (Invalidation e), r. split_and!; [done| |].
      * exists (MappingRecord.cleanup_depth r), AwaitingUnmapInvalidation. split; [|by left]. destruct r. simpl in *. by subst.
      * by rewrite set_record_same.
  - case_bool_decide as Hph'; cbn [negb].
    + assert (¬ live r) as Hnl by (intros [?|?]; congruence).
      eapply wp_mono; [apply (reclaim_and_retire_ok w h i s r); split_and!; done| |].
      * intros o w1 Ho. by exists i, s, r.
      * intros e w1 He. right. by exists i, s, r.
    + left. split; [done|]. intros _ j s' r' (Hj & Hs' & _ & Hr'). assert (j = i) as -> by lia. simplify_eq.
      unfold live. destruct (MappingRecord.phase r); auto; done.
Qed.

(** The leaf of a live record is cleared. *)
Lemma inv_withdrawn w w' n leaves i s r f l k :
  inv w → good w n leaves → (state (slpt w) = Operational → closed (slpt w) None (T w) n) →
  slots (slpt w) !! i = Some s → MappingSlot.record s = Some r → live r →
  n !! take (depth (slpt w) - 1) (rpath (slpt w) r) = Some f → T w !! f = Some l →
  rpath (slpt w) r !! (depth (slpt w) - 1)%nat = Some k → moved w w' (<[f := <[Z.to_nat k := 0]> l]> (T w)) →
  inv (set_slpt (set_record (slpt w) i s (MappingRecord.with_phase AwaitingUnmapInvalidation r)) w').
Proof.
  intros (_ & _ & _ & _ & Htlb) [Hc Hm Ht Hl] Hcl Hs Hr Hlive Hf Hlf Hk (Ha & Hi & Hm' & HT).
  assert (holds (slpt w) i r) as Hh by (by exists s). pose proof (lg_record _ _ _ Hl _ _ Hh) as Hok.
  set (r' := MappingRecord.with_phase AwaitingUnmapInvalidation r).
  assert (¬ live r') as Hnl by (by intros [?|?]).
  assert (record_ok (slpt w) r') as Hok' by (destruct Hok; by split).
  assert (take (depth (slpt w) - 1) (rpath (slpt w) r) ++ [k] = rpath (slpt w) r) as Hfull.
  { pose proof (depth_bounds _ Hc). rewrite <-(take_S_r _ _ _ Hk).
    replace (Datatypes.S (depth (slpt w) - 1)) with (depth (slpt w)) by lia. by apply take_path_all. }
  exists n, (delete (rpath (slpt w) r) leaves). split_and!.
  - split; [by apply config_ok_put|done| |].
    + change (T (set_slpt _ w')) with (T w'). rewrite HT, <-Hfull at 1. eapply tree_clear_leaf; [done..| |by rewrite Hfull, rpath_length].
      by eapply (proj1 (Forall_lookup _ _) (path_of_ok _ _)).
    + eapply (ledger_replace (slpt w)); try done.
      * intros j x Hx Hlx [Hne|?]; [|done]. rewrite lookup_delete_ne; [by apply (lg_live _ _ _ Hl _ _ Hx Hlx)|].
        intros Heq. apply Hne. eapply (lg_iova _ _ _ Hl); [done..|].
        eapply rpath_inj; [done|by eapply lg_record|done|done].
      * intros q v [Hne Hv]%lookup_delete_Some. split; [done|]. intros ->. done.
  - intros Hst. change (T (set_slpt _ w')) with (T w'). rewrite HT.
    destruct (closed_rephase _ _ _ _ i (MappingSlot.mk (MappingSlot.generation s) (Some r') (MappingSlot.retired s)) r
      AwaitingUnmapInvalidation (Hcl Hst) Hh eq_refl) as [Hdom Hsup]. split; [|done].
    intros g Hg. apply Hdom. destruct (decide (f = g)) as [->|]; [by eexists|]. by rewrite lookup_insert_ne in Hg.
  - simpl. rewrite Hi. split; [apply Htlb|]. intros x e Hx. destruct (proj2 Htlb x e Hx) as (j & y & Hy & Hyi & Hyl & Hyp).
    destruct (decide (j = i)) as [->|Hne].
    + rewrite (holds_unique _ _ _ _ Hy Hh) in *. exists i, r'. split; [|by split_and!].
      apply holds_put; [by eapply holds_bound|]. by left.
    + exists j, y. split; [|done]. apply holds_put; [by eapply holds_bound|]. by right.
Qed.

(** The leaf entry of a live record. *)
Lemma live_leaf w n leaves i r :
  good w n leaves → holds (slpt w) i r → live r →
  let d := (depth (slpt w) - 1)%nat in
  ∃ f k, rframes r !! d = Some f ∧ PagePath.indices (MappingRecord.path r) !! d = Some k ∧ index_ok k ∧
    rpath (slpt w) r !! d = Some k ∧ n !! take d (rpath (slpt w) r) = Some f ∧
    ∀ l, T w !! f = Some l → l !! Z.to_nat k = Some (MappingRecord.leaf r).
Proof.
  intros [Hc Hm Ht Hl] Hhold Hlive d. pose proof (lg_record _ _ _ Hl _ _ Hhold) as Hok.
  pose proof (depth_bounds _ Hc) as Hd. destruct (lg_live _ _ _ Hl _ _ Hhold Hlive) as [Hon Hleaf].
  destruct (rframes_lookup _ r d Hok Hc) as [f Hf]; [lia|].
  destruct (lookup_lt_is_Some_2 (rpath (slpt w) r) d) as [k Hk]; [rewrite rpath_length by done; lia|].
  assert (index_ok k) as Hko by (by eapply (proj1 (Forall_lookup _ _) (path_of_ok _ _))).
  assert (n !! take d (rpath (slpt w) r) = Some f) as Hnf by (rewrite Hon by done; done).
  exists f, k. split_and!; [done| |done..|].
  - rewrite <-Hk, <-(rec_indices _ _ Hok), lookup_take_lt by lia. done.
  - intros l Hlf. rewrite (entry_shown _ _ _ _ _ _ _ _ k Ht Hnf Hlf Hko), <-(take_S_r _ _ _ Hk).
    replace (Datatypes.S d) with (depth (slpt w)) by lia. rewrite take_path_all by done.
    unfold expect. by rewrite decide_True, Hleaf by (by apply rpath_length).
Qed.

Lemma withdraw_ok ph fault w h :
  inv w → 0 <= MappingHandle.slot h → ph = Active ∨ ph = AwaitingMapInvalidation →
  wp (withdraw ph fault h)
    (λ o w', ∃ i s r, names (slpt w) h i s r ∧ MappingRecord.phase r = ph ∧ unmapped w h i s r o w')
    (λ _ w', refused w w' ∨
      ∃ i s r, names (slpt w) h i s r ∧ MappingRecord.phase r = ph ∧ lost w i s r w') w.
Proof.
  intros Hinv Hh Hor. pose proof (inv_refused w Hinv) as Hself. unfold withdraw.
  rewrite wp_bind. apply wp_ensure; [|by left]. intros Hop.
  rewrite wp_bind. apply wp_find_record; [done| |by left]. intros i s r Hn. pose proof Hn as (Hslot & Hs & Hgen & Hr).
  case_bool_decide as Hph; cbn [negb]; [|by left]. pose proof (lookup_lt_Some _ _ _ Hs) as Hlt.
  assert (live r) as Hlive by (unfold live; destruct Hor; subst; auto).
  pose proof Hinv as (n & leaves & Hgood & Hcl & Htlb). pose proof Hgood as [Hc Hm Ht Hl].
  assert (holds (slpt w) i r) as Hhold by (by exists s). pose proof (lg_record _ _ _ Hl _ _ Hhold) as Hok.
  destruct (live_leaf w n leaves i r Hgood Hhold Hlive) as (f & k & Hf & Hik & Hko & Hk & Hnf & Hshown).
  pose proof (cfg_levels _ Hc) as Hlv.
  assert (Z.to_nat (levels (slpt w) - 1) = depth (slpt w) - 1)%nat as HposZ by (unfold depth; lia).
  rewrite wp_bind, (rec_depth _ _ Hok). apply wp_sub; [lia|]. rewrite wp_bind.
  apply wp_index with f; [lia|by rewrite HposZ|]. rewrite wp_bind. apply wp_index with k; [lia|by rewrite HposZ|].
  rewrite wp_bind, wp_map_err. apply wp_load; [done|done| |by left]. intros l entry Hlf Hle.
  rewrite (Hshown l Hlf) in Hle. injection Hle as <-. rewrite Z.eqb_refl. cbn [negb]. rewrite wp_bind, wp_map_err.
  eapply wp_write; [done..| |intros e w1 Hm1; left; by apply inv_moved].
  intros w1 Hm1. pose proof (inv_withdrawn w w1 n leaves i s r f l k Hinv Hgood Hcl Hs Hr Hlive Hnf Hlf Hk Hm1) as Hinv2.
  destruct Hm1 as (Ha1 & Hi1 & _ & HT1). rewrite wp_bind.
  apply (slpt_wp_update_record i _ s r); [by rewrite Ha1|done|]. rewrite Ha1.
  fold (set_record (slpt w) i s (MappingRecord.with_phase AwaitingUnmapInvalidation r)). set (w2 := set_slpt _ _) in *.
  assert (settles w w2) as Hless.
  { split; [unfold shows_less; simpl; by rewrite Hi1|]. intros g Hg. change (T w2) with (T w1). rewrite HT1.
    rewrite lookup_insert_ne; [done|congruence]. }
  eapply wp_mono; [by apply (finish_unmap_ok w2 h)| |].
  - intros o w3 (j & s' & r' & Hn' & _ & Ho). exists i, s, r. split_and!; [done..|].
    destruct (names_from w w2 h i s r _ eq_refl Hlt j s' r' Hn Hn') as (-> & -> & ->).
    by eapply unmapped_from; [| | |exact Ho].
  - intros e w3 [[-> Hno]|(j & s' & r' & Hn' & _ & Ho)].
    + exfalso. assert (live (MappingRecord.with_phase AwaitingUnmapInvalidation r)) as [?|?]; [|done..].
      apply (Hno Hop i (MappingSlot.mk (MappingSlot.generation s)
        (Some (MappingRecord.with_phase AwaitingUnmapInvalidation r)) (MappingSlot.retired s))).
      split_and!; [done| |done|done]. by apply list_lookup_insert_eq.
    + right. exists i, s, r. split_and!; [done..|].
      destruct (names_from w w2 h i s r _ eq_refl Hlt j s' r' Hn Hn') as (-> & -> & ->).
      by eapply lost_from; [| | |exact Ho].
Qed.
End ops.
