(* ===== verification/SlptRuns.v ===== *)
(** * Histories of the page-table core

    A run interleaves calls of the core with the hardware filling its
    translation cache from the tables and with other users of the allocator
    under the table memory.  Every state that an attached core can
    reach satisfies the invariant of [SlptOps]; this file derives from it what
    the hardware sees, how handles age, and what becomes of a record whose table
    was released by another. *)
From S2P Require Import Prelude Slpt SlptTree SlptLedger SlptPath SlptOps.
Import Slpt.

Section runs.
Context {S I : Type} {HM : SlptPageMemory S} {HML : SlptMemoryLaws S}
  {HI : SlptInvalidator I} {HIL : SlptInvalidatorLaws I}.
Implicit Types (w : world S I).

(** The translation the hardware finds for the page at [v]. *)
Definition translate w (v : Z) : option Z := walk (T w) (root (slpt w)) (path_of (levels (slpt w)) v).

Inductive call :=
| MapPage (v pa : Z) (perm : DmaPermissions.t)
| FinishMap (h : MappingHandle.t)
| UnmapPage (h : MappingHandle.t)
| CancelPendingMap (h : MappingHandle.t)
| FinishUnmap (h : MappingHandle.t).

(** Arguments in the range of their Rust types. *)
Definition call_ok (c : call) : Prop :=
  match c with
  | MapPage v pa _ => u64 v ∧ u64 pa
  | FinishMap h | UnmapPage h | CancelPendingMap h | FinishUnmap h => 0 <= MappingHandle.slot h
  end.

Definition run (c : call) : M (world S I) SlptFault (MapOutcome + UnmapOutcome) :=
  match c with
  | MapPage v pa perm => o ← map_page v pa perm; mret (inl o)
  | FinishMap h => o ← finish_map h; mret (inl o)
  | UnmapPage h => o ← unmap_page h; mret (inr o)
  | CancelPendingMap h => o ← cancel_pending_map h; mret (inr o)
  | FinishUnmap h => o ← finish_unmap h; mret (inr o)
  end.

Inductive step w : world S I → Prop :=
| step_done c o w' : call_ok c → run c w = Done o w' → step w w'
| step_fail c e w' : call_ok c → run c w = Fail e w' → step w w'
| step_fill w' : slpt w' = slpt w → memory w' = memory w → inval_ok (invalidator w') →
    (∀ v e, cached (invalidator w') v e →
       cached (invalidator w) v e ∨ iova_ok (slpt w) v ∧ translate w v = Some e) → step w w'
| step_other w' : slpt w' = slpt w → invalidator w' = invalidator w → mem_ok (memory w') → T w' = T w → step w w'.

(** How one call changes the slots. *)
Inductive slot_change (a : t) : t → Prop :=
| change_none : slot_change a a
| change_fill i s r : slots a !! i = Some s → slot_free s = true →
    slot_change a (set_record a i s r)
| change_record i s r r' : slots a !! i = Some s → MappingSlot.record s = Some r → slot_change a (set_record a i s r')
| change_retire i s r : slots a !! i = Some s → MappingSlot.record s = Some r → slot_change a (put_slot a i (retire s)).

Definition changed w w' : Prop :=
  ∃ a, slot_change (slpt w) a ∧ (slpt w' = a ∨ slpt w' = with_state Poisoned a).

Definition safe_call w (w' : world S I) : Prop := inv w' ∧ changed w w'.

Lemma safe_refused w w' : refused w w' → safe_call w w'.
Proof. intros ([[Ha _]|Ha] & _ & Hinv); split; try done; exists (slpt w); (split; [constructor|auto]). Qed.

Lemma safe_unmapped w h i s r o w' :
  names (slpt w) h i s r → unmapped w h i s r o w' → safe_call w w'.
Proof.
  intros (_ & Hs & _ & Hr) (Hinv & _ & [[_ Ha]|(cause & r' & _ & _ & Ha)]); split; try done; exists (slpt w'); (split; [|by left]).
  - rewrite Ha. by eapply change_retire.
  - rewrite Ha. by eapply change_record.
Qed.
Lemma safe_lost w h i s r w' : names (slpt w) h i s r → lost w i s r w' → safe_call w w'.
Proof.
  intros (_ & Hs & _ & Hr) (Hinv & _ & r' & _ & Ha); split; [done|]. eexists. split; [|right; exact Ha].
  by eapply change_record.
Qed.

Lemma slpt_run_ok w c : inv w → call_ok c → wp (run c) (λ _, safe_call w) (λ _, safe_call w) w.
Proof.
  intros Hinv Hc. assert (safe_call w w) as Hsame by (by apply safe_refused, inv_refused).
  destruct c as [v pa perm|h|h|h|h]; simpl in *; rewrite wp_bind.
  - destruct Hc. eapply wp_mono; [by apply map_page_ok| |].
    + intros o w' [(i & s & r & bits & Hs & Hfree & Ha & _) Hinv']. rewrite wp_ret. split; [done|].
      eexists. split; [|left; exact Ha]. by eapply change_fill.
    + intros e w' He. by apply safe_refused.
  - eapply wp_mono; [by apply finish_map_ok| |by intros e w' ->].
    intros o w' (Hinv' & _ & _ & i & s & r & (_ & Hs & _ & Hr) & _ & [[_ Ha]|(e & _ & Ha)]); rewrite wp_ret; split; try done.
    + eexists. split; [|left; exact Ha]. by eapply change_record.
    + exists (slpt w). split; [constructor|by left].
  - eapply wp_mono; [by apply withdraw_ok; [| |left]| |].
    + intros o w' (i & s & r & Hn & _ & Hu). rewrite wp_ret. by eapply safe_unmapped.
    + intros e w' [?|(i & s & r & Hn & _ & Hu)]; [by apply safe_refused|by eapply safe_lost].
  - eapply wp_mono; [by apply withdraw_ok; [| |right]| |].
    + intros o w' (i & s & r & Hn & _ & Hu). rewrite wp_ret. by eapply safe_unmapped.
    + intros e w' [?|(i & s & r & Hn & _ & Hu)]; [by apply safe_refused|by eapply safe_lost].
  - eapply wp_mono; [by apply finish_unmap_ok| |].
    + intros o w' (i & s & r & Hn & _ & Hu). rewrite wp_ret. by eapply safe_unmapped.
    + intros e w' [[-> _]|(i & s & r & Hn & _ & Hu)]; [done|by eapply safe_lost].
Qed.

(** ** What the hardware sees *)

Definition maps (a : t) (v e : Z) : Prop :=
  ∃ i r, holds a i r ∧ live r ∧ MappingRecord.iova r = v ∧ MappingRecord.leaf r = e.

Lemma translate_ok w v e : inv w → iova_ok (slpt w) v → translate w v = Some e ↔ maps (slpt w) v e.
Proof.
  intros (n & leaves & [Hc Hm Ht Hl] & _) Hv. pose proof (cfg_levels _ Hc) as Hlv. unfold translate.
  assert (length (path_of (levels (slpt w)) v) = depth (slpt w)) as Hlen by (apply path_of_length; lia).
  pose proof (depth_bounds _ Hc) as Hd.
  rewrite (walk_tree (root (slpt w)) (depth (slpt w)) (T w) n leaves []);
    [|done|apply (tree_root _ _ _ _ _ Ht)|done|intros Hnil; rewrite Hnil in Hlen; simpl in Hlen; lia|apply path_of_ok].
  simpl. split.
  - intros Hle. destruct (lg_leaf _ _ _ Hl _ _ Hle) as (i & r & Hr & Hlive & Hp & He). exists i, r.
    split_and!; [done..| |done].
    destruct (iova_width _ _ Hc Hv), (iova_width _ _ Hc (rec_iova _ _ (lg_record _ _ _ Hl _ _ Hr))).
    eapply (path_of_inj (levels (slpt w))); [lia|done..].
  - intros (i & r & Hr & Hlive & <- & <-). by apply (lg_live _ _ _ Hl _ _ Hr).
Qed.

Lemma step_inv w w' : inv w → step w w' → inv w'.
Proof.
  intros Hinv [c o w1 Hc Hrun|c e w1 Hc Hrun|w1 Ha Hm Hok Hfill|w1 Ha Hi Hm HT].
  - by apply (wp_Done _ _ _ _ _ _ (slpt_run_ok w c Hinv Hc) Hrun).
  - by apply (wp_Fail _ _ _ _ _ _ (slpt_run_ok w c Hinv Hc) Hrun).
  - pose proof Hinv as (n & leaves & [Hc Hmem Ht Hl] & Hcl & Htlb).
    assert (T w1 = T w) as HT by (unfold T; by rewrite Hm). exists n, leaves. split_and!.
    + split; rewrite ?Ha, ?HT, ?Hm; done.
    + by rewrite Ha, HT.
    + rewrite Ha. split; [done|]. intros v e Hx. destruct (Hfill v e Hx) as [Hold|[Hv Htr]]; [by apply Htlb|].
      apply translate_ok in Htr as (i & r & Hr & Hlive & Hi & He); [|done..]. exists i, r. split_and!; [done..|].
      destruct Hlive; congruence.
  - eapply (inv_same w); [done..|]. unfold shows_less. by rewrite Hi.
Qed.

(** ** Attaching *)

(** A memory that holds one table, the root, and a hardware that caches nothing. *)
Record fresh (MAPPINGS : Z) (config : SlptConfig.t) (frame : Z) w : Prop := {
  fr_count : 0 <= MAPPINGS;
  fr_frame : frame_ok frame;
  fr_mem : mem_ok (memory w);
  fr_dom f : is_Some (T w !! f) ↔ f = frame;
  fr_inval : inval_ok (invalidator w);
  fr_cache v e : ¬ cached (invalidator w) v e;
  fr_attach : attach MAPPINGS (memory w) frame config = Ok (slpt w);
}.

Lemma attach_loop_ok (m : S) f l :
  mem_ok m → Forall index_ok l → attach_loop m f l = Ok () →
  Forall (λ j, ∃ x, tables m !! f = Some x ∧ x !! Z.to_nat j = Some 0) l.
Proof.
  intros Hm. induction 1 as [|j l Hj Hl IH]; [by constructor|]. simpl.
  destruct (read_entry m f j) as [v|] eqn:Hread; [|done]. destruct (Z.eqb_spec v 0) as [->|]; [|done]. simpl.
  intros Hok. constructor; [by apply read_law|by apply IH].
Qed.

Lemma config_width config width :
  SlptConfig.validate config = Ok width →
  ∃ L, 2 <= L <= 5 ∧ width = PAGE_SHIFT + 9 * L ∧ div_ceil (width - PAGE_SHIFT) 9 = L.
Proof.
  unfold SlptConfig.validate, SlptConfig.adjusted_guest_address_width.
  repeat match goal with |- context [if ?b then _ else _] => destruct b end; intros [= <-];
    [exists 2|exists 3|exists 4|exists 5]; done.
Qed.

Lemma attach_inv N config f w : fresh N config f w → inv w ∧ state (slpt w) = Operational ∧ root (slpt w) = f ∧
  ∀ i r, ¬ holds (slpt w) i r.
Proof.
  intros [HN Hf Hm Hdom Hok Hcache Hat]. unfold attach in Hat. destruct (_ || _) eqn:Hguard; [done|]. bool_to_prop.
  destruct (SlptConfig.validate config) as [width|] eqn:Hw; [|done].
  destruct (attach_loop _ _ _) as [[]|] eqn:Hloop; [|done]. injection Hat as Hat.
  destruct (config_width _ _ Hw) as (L & HL & Hwidth & Hdiv). rewrite Hdiv in Hat.
  apply attach_loop_ok in Hloop; [|done|apply Forall_forall; intros j Hj%elem_of_range; exact Hj].
  rewrite Forall_forall in Hloop.
  assert (∀ i r, ¬ holds (slpt w) i r) as Hnone.
  { intros i r (s & Hs & Hr). rewrite <-Hat in Hs. simpl in Hs. apply lookup_replicate in Hs as [-> _]. done. }
  split; [|split_and!; [by rewrite <-Hat|by rewrite <-Hat|done]].
  exists {[ [] := f ]}, ∅. split_and!.
  - split; [|done| |].
    + rewrite <-Hat. split; simpl; [unfold MAXIMUM_LEVELS; lia|done|done|]. rewrite length_replicate. lia.
    + rewrite <-Hat. unfold depth. simpl. split.
      * by rewrite lookup_singleton_eq.
      * intros p i [x [Hx _]%lookup_singleton_Some]. by destruct p.
      * intros p i [x [Hx _]%lookup_singleton_Some]. by destruct p.
      * intros p g [<- _]%lookup_singleton_Some. simpl. lia.
      * intros p q g [<- _]%lookup_singleton_Some [<- _]%lookup_singleton_Some. done.
      * by intros p g [_ <-]%lookup_singleton_Some.
      * intros p i v Hv. by rewrite lookup_empty in Hv.
      * done.
      * intros p g [<- <-]%lookup_singleton_Some. destruct (proj2 (Hdom f) eq_refl) as [l Hl]. exists l.
        split; [done|]. split; [by eapply table_law|]. intros i Hi.
        destruct (Hloop i) as (x & Hx & Hx0); [by apply elem_of_range|]. unfold T in Hl. simplify_eq.
        rewrite Hx0. unfold expect. rewrite decide_False by (simpl; lia). by rewrite lookup_singleton_ne.
    + split; intros; try (by destruct (Hnone i r)); by rewrite lookup_empty in *.
  - intros _. split.
    + intros g ->%Hdom. exists []. apply lookup_singleton_eq.
    + intros p g [<- _]%lookup_singleton_Some. by left.
  - split; [done|]. intros v e Hv. by apply Hcache in Hv.
Qed.

Lemma reachable_inv N config f w0 w : fresh N config f w0 → rtc step w0 w → inv w.
Proof.
  intros Hf Hrun. eapply (rtc_invariant step inv w0 w); [|done|by eapply attach_inv].
  intros x y Hxy Hx. by eapply step_inv.
Qed.

(** ** Handles *)

(** The handle's slot has moved on. *)
Definition dead (a : t) (h : MappingHandle.t) : Prop :=
  ∃ s, slots a !! Z.to_nat (MappingHandle.slot h) = Some s ∧
    (MappingHandle.generation h < MappingSlot.generation s ∨
     MappingSlot.generation s = MappingHandle.generation h ∧ MappingSlot.record s = None ∧ MappingSlot.retired s = true).

Lemma dead_put a i s s' h :
  slots a !! i = Some s → MappingSlot.generation s <= MappingSlot.generation s' →
  (MappingSlot.record s = None → MappingSlot.retired s = true →
     MappingSlot.generation s' = MappingSlot.generation s → MappingSlot.record s' = None ∧ MappingSlot.retired s' = true) →
  dead a h → dead (put_slot a i s') h.
Proof.
  intros Hs Hgen Hret (x & Hx & Hd). unfold dead, put_slot. simpl.
  destruct (decide (i = Z.to_nat (MappingHandle.slot h))) as [->|Hne].
  - simplify_eq. exists s'. rewrite list_lookup_insert_eq by (by eapply lookup_lt_Some). split; [done|].
    destruct Hd as [?|(Heq & Hr & Ht)]; [left; lia|].
    destruct (decide (MappingSlot.generation s' = MappingSlot.generation s)) as [He|He].
    + right. destruct (Hret Hr Ht He). split_and!; [congruence|done..].
    + left. lia.
  - rewrite list_lookup_insert_ne by done. eauto.
Qed.

Lemma dead_changed w w' h : changed w w' → dead (slpt w) h → dead (slpt w') h.
Proof.
  intros (a & Hch & Ha) Hd. assert (dead a h) as Hda; [|by destruct Ha as [->| ->]].
  destruct Hch as [|i s r Hs Hfree|i s r r' Hs Hr|i s r Hs Hr]; [done| | |].
  - eapply dead_put; [done|done| |done]. intros _ Ht. unfold slot_free in Hfree. rewrite Ht, andb_false_r in Hfree. done.
  - eapply dead_put; [done|done| |done]. intros Hn. congruence.
  - eapply dead_put; [done| | |done]; unfold retire; destruct (_ =? _); simpl; (done || lia || congruence).
Qed.

Lemma dead_step w w' h : inv w → step w w' → dead (slpt w) h → dead (slpt w') h.
Proof.
  intros Hinv [c o w1 Hc Hrun|c e w1 Hc Hrun|w1 Ha _ _ _|w1 Ha _ _ _]; [| |by rewrite Ha|by rewrite Ha].
  - apply dead_changed. by apply (wp_Done _ _ _ _ _ _ (slpt_run_ok w c Hinv Hc) Hrun).
  - apply dead_changed. by apply (wp_Fail _ _ _ _ _ _ (slpt_run_ok w c Hinv Hc) Hrun).
Qed.

Lemma dead_run w w' h : inv w → rtc step w w' → dead (slpt w) h → inv w' ∧ dead (slpt w') h.
Proof.
  intros Hinv Hrun Hd. revert Hinv Hd. induction Hrun as [|w w1 w2 Hst Hrun IH]; [done|].
  intros Hinv Hd. apply IH; [by eapply step_inv|by eapply dead_step].
Qed.

Lemma dead_unnamed a h i s r : dead a h → ¬ names a h i s r.
Proof.
  intros (x & Hx & Hd) (Hi & Hs & Hg & Hr). rewrite Hi, Nat2Z.id in Hx. simplify_eq.
  destruct Hd as [?|(_ & ? & _)]; [lia|congruence].
Qed.

Lemma retired_dead a h i s r : names a h i s r → dead (put_slot a i (retire s)) h.
Proof.
  intros (Hi & Hs & Hg & _). exists (retire s). rewrite Hi, Nat2Z.id. unfold put_slot. simpl.
  rewrite list_lookup_insert_eq by (by eapply lookup_lt_Some). split; [done|].
  unfold retire. destruct (_ =? _); simpl; [right|left; lia]. done.
Qed.

Lemma mapped_not_dead w v pa perm o w' h :
  mapped w v pa perm o w' → (o = MapActive h ∨ ∃ c, o = MapPending h c) → ¬ dead (slpt w) h.
Proof.
  intros (i & s & r & bits & Hs & Hfree & _ & _ & _ & _ & _ & Ho) Hh (x & Hx & Hd).
  assert (h = MappingHandle.mk (Z.of_nat i) (MappingSlot.generation s)) as -> by naive_solver.
  simpl in *. rewrite Nat2Z.id in Hx. simplify_eq. destruct Hd as [?|(_ & _ & Ht)]; [lia|].
  unfold slot_free in Hfree. by rewrite Ht, andb_false_r in Hfree.
Qed.

(** ** Reach of the device *)

(** While the unit translates, the device can use the translation [e] for the page at
    [v]: it is in the tables or still cached. *)
Definition reaches w (v e : Z) : Prop :=
  cached (invalidator w) v e ∨ iova_ok (slpt w) v ∧ translate w v = Some e.

Lemma reaches_record w v e :
  inv w → reaches w v e →
  ∃ i r, holds (slpt w) i r ∧ MappingRecord.iova r = v ∧ MappingRecord.leaf r = e ∧
         Z.land e PHYSICAL_PAGE_MASK = MappingRecord.physical_address r.
Proof.
  intros Hinv Hre. assert (∃ i r, holds (slpt w) i r ∧ MappingRecord.iova r = v ∧ MappingRecord.leaf r = e) as (i & r & Hr & Hi & He).
  { destruct Hre as [Hc|[Hv Htr]].
    - destruct Hinv as (_ & _ & _ & _ & _ & Htlb). destruct (Htlb v e Hc) as (i & r & ? & ? & ? & _). eauto.
    - apply translate_ok in Htr as (i & r & ? & _ & ? & ?); eauto. }
  exists i, r. split_and!; [done..|]. destruct Hinv as (n & leaves & [_ _ _ Hl] & _).
  pose proof (lg_record _ _ _ Hl _ _ Hr) as Hok. destruct (rec_leaf _ _ Hok) as (bits & Hb & Hleaf).
  destruct (rec_physical _ _ Hok) as [Hu Hv]. rewrite <-He, Hleaf. apply entry_address; [by apply physical_ok|lia].
Qed.

(** After slot [i] is retired nothing leads to its page any more. *)
Lemma retired_unreachable w w' h i s r v e :
  inv w → inv w' → names (slpt w) h i s r → slpt w' = put_slot (slpt w) i (retire s) → reaches w' v e →
  v ≠ MappingRecord.iova r ∧ Z.land e PHYSICAL_PAGE_MASK ≠ MappingRecord.physical_address r.
Proof.
  intros (n & leaves & [_ _ _ Hl] & _) Hinv' Hn Ha Hre. pose proof (names_holds _ _ _ _ _ Hn) as Hh.
  destruct (reaches_record w' v e Hinv' Hre) as (j & x & Hx & Hxi & _ & Hxp). rewrite Ha in Hx.
  apply holds_put in Hx as [[_ Hnone]|[Hne Hx]]; [|  |by eapply holds_bound].
  - unfold retire in Hnone. by destruct (_ =? _).
  - rewrite Hxp, <-Hxi. split; intros Heq; apply Hne; [by eapply (lg_iova _ _ _ Hl)|by eapply (lg_physical _ _ _ Hl)].
Qed.

(** ** Stranded records *)

(** The record [r] that [h] names is on its way out, and the table [c] that it has to
    give back next is gone, unless the core is poisoned. *)
Record stranded w (h : MappingHandle.t) (i : nat) s r (c : Z) : Prop := {
  sd_names : names (slpt w) h i s r;
  sd_dying : ¬ live r;
  sd_deep : (1 < retained_depth (slpt w) r)%nat;
  sd_table : rframes r !! (retained_depth (slpt w) r - 1)%nat = Some c;
  sd_gone : T w !! c = None ∨ state (slpt w) = Poisoned;
}.

(** At most its phase has moved on. *)
Definition settled (r r' : MappingRecord.t) : Prop := r' = r ∨ r' = MappingRecord.with_phase AwaitingCleanup r.
Definition stuck w h i r c : Prop := ∃ s r', settled r r' ∧ stranded w h i s r' c.

Lemma stranded_kept w w' h i s r c :
  stranded w h i s r c → slots (slpt w') !! i = slots (slpt w) !! i → levels (slpt w') = levels (slpt w) →
  T w' !! c = None ∨ state (slpt w') = Poisoned → stranded w' h i s r c.
Proof.
  intros [(Hi & Hs & Hg & Hr) Hdy Hdeep Htab _] Hslot Hlev Hgone.
  assert (retained_depth (slpt w') r = retained_depth (slpt w) r) as Hrd by (unfold retained_depth; by rewrite Hlev).
  split; rewrite ?Hrd; try done. by rewrite <-Hslot in Hs.
Qed.

(** Calls that change another slot, or only poison the core. *)
Lemma stranded_put w w' h i s r c j x :
  stranded w h i s r c → j ≠ i →
  slpt w' = put_slot (slpt w) j x ∧ (T w' !! c = None ∨ state (slpt w) = Poisoned) ∨
  slpt w' = with_state Poisoned (put_slot (slpt w) j x) → stranded w' h i s r c.
Proof.
  intros Hst Hne [[Ha Hgone]|Ha]; (eapply stranded_kept; [done|rewrite Ha; by apply list_lookup_insert_ne|by rewrite Ha|]);
    rewrite Ha; [done|by right].
Qed.

Lemma stranded_refused w w' h i s r c : stranded w h i s r c → refused w w' → stranded w' h i s r c.
Proof.
  intros Hst ([[Ha HT]|Ha] & _); (eapply stranded_kept; [done|by rewrite Ha..|]); rewrite Ha; [|by right].
  rewrite HT. apply Hst.
Qed.

(** Any retry of its unmap stops at the missing table. *)
Lemma reclaim_stranded w h i s r c :
  inv w → state (slpt w) = Operational → stranded w h i s r c →
  wp (reclaim_and_retire h (Z.of_nat i)) (λ o w', w' = w ∧ ∃ e, o = UnmapPending h (Cleanup e)) (λ _ _, False) w.
Proof.
  intros (n & leaves & [Hc Hm _ Hl] & _) Hop [Hn _ Hdeep Htab [Hgone|?]]; [|congruence].
  pose proof (lg_record _ _ _ Hl _ _ (names_holds _ _ _ _ _ Hn)) as Hok. destruct Hn as (_ & Hs & _ & Hr).
  pose proof (lookup_lt_Some _ _ _ Hs). pose proof (rec_cleanup _ _ Hok). pose proof (cfg_levels _ Hc) as Hlv.
  pose proof (rec_frames _ _ Hok) as Hfl. unfold retained_depth, MAXIMUM_LEVELS in *.
  unfold reclaim_and_retire, reclaim_empty_tables. change (Z.to_nat MAXIMUM_LEVELS) with 5%nat. cbn [reclaim_loop].
  rewrite wp_bind, wp_attempt, wp_bind. unfold reclaim_step. rewrite wp_bind, wp_self, wp_bind.
  apply wp_index with s; [lia|by rewrite Nat2Z.id|]. rewrite Hr, (rec_depth _ _ Hok), wp_bind.
  apply wp_add; [apply Z.lt_trans with 10; [lia|done]|].
  destruct (Z.leb_spec (levels (slpt w)) (MappingRecord.cleanup_depth r + 1)); [lia|].
  rewrite wp_bind. apply wp_sub; [lia|]. rewrite wp_bind. apply wp_sub; [lia|]. rewrite wp_bind.
  apply wp_index with c; [unfold rframes in Hfl; lia| |].
  { rewrite <-Htab. unfold rframes. f_equal. lia. }
  rewrite wp_bind, wp_get, wp_bind, wp_map_err, wp_lift. pose proof (table_is_empty_ok (memory w) c Hm) as Hempty.
  unfold T in Hgone. destruct (table_is_empty (memory w) c) as [[]|e].
  - destruct Hempty as (? & ? & _). congruence.
  - destruct Hempty as (? & ? & ? & ? & _). congruence.
  - rewrite wp_ret. split; [done|by exists e].
Qed.

Lemma finish_unmap_stranded w h i s r c :
  inv w → stranded w h i s r c →
  wp (finish_unmap h)
    (λ o w', state (slpt w) = Operational ∧ stuck w' h i r c ∧
       ((∃ e, o = UnmapPending h (Cleanup e)) ∨
        (∃ e, o = UnmapPending h (Invalidation e)) ∧ MappingRecord.phase r = AwaitingUnmapInvalidation))
    (λ e w', state (slpt w) = Poisoned ∧ e = PoisonedFault ∧ w' = w) w.
Proof.
  intros Hinv Hst. pose proof Hst as [Hn Hdy _ _ Hgone]. pose proof Hn as (Hslot & Hs & Hg & Hr).
  unfold finish_unmap. rewrite wp_bind. apply wp_ensure; [|done]. intros Hop. rewrite wp_bind.
  apply wp_find_record; [lia| |intros Hno; by destruct (Hno i s r)]. intros j s' r' (Hj & Hs' & _ & Hr').
  assert (j = i) as -> by lia. simplify_eq. case_bool_decide as Hph.
  - rewrite wp_bind, wp_attempt. apply wp_invalidate; [by apply inv_inval|..].
    + intros w1 Hf. pose proof (inv_confirmed w w1 i s r Hinv Hs Hr Hph Hf) as Hinv1. destruct Hf as (Ha1 & Hm1 & _).
      rewrite wp_bind. apply (slpt_wp_update_record i _ s r); [by rewrite Ha1|done|]. rewrite Ha1.
      fold (set_record (slpt w) i s (MappingRecord.with_phase AwaitingCleanup r)). set (w2 := set_slpt _ _) in *.
      assert (stranded w2 h i (MappingSlot.mk (MappingSlot.generation s)
        (Some (MappingRecord.with_phase AwaitingCleanup r)) (MappingSlot.retired s)) (MappingRecord.with_phase AwaitingCleanup r) c) as Hst2.
      { destruct Hst as [_ _ Hdeep Htab _]. split; try done; [|by intros [?|?]|].
        - split_and!; [done| |done|done]. apply list_lookup_insert_eq. by eapply lookup_lt_Some.
        - unfold T. simpl. rewrite Hm1. exact Hgone. }
      eapply wp_mono; [by eapply reclaim_stranded| |done]. intros o w3 [-> He]. split_and!; [done| |by left].
      eexists _, _. split; [by right|exact Hst2].
    + intros e w1 (Ha1 & Hm1 & _). rewrite wp_ret. split_and!; [done| |right; split; [by exists e|done]].
      exists s, r. split; [by left|]. eapply stranded_kept; [done|by rewrite Ha1..|]. unfold T. by rewrite Hm1, Ha1.
  - case_bool_decide as Hph'; cbn [negb].
    + eapply wp_mono; [by eapply reclaim_stranded| |done]. intros o w3 [-> He]. split_and!; [done| |by left].
      exists s, r. split; [by left|done].
    + destruct Hdy. unfold live. destruct (MappingRecord.phase r); auto; done.
Qed.

Lemma stranded_retained w h i s r c : stranded w h i s r c → retained (slpt w) c.
Proof.
  intros [Hn _ Hdeep Htab _]. exists i, r, (retained_depth (slpt w) r - 1)%nat.
  split; [by eapply names_holds|]. split; [lia|done].
Qed.

Lemma stranded_stuck w h i s r c : stranded w h i s r c → stuck w h i r c.
Proof. intros Hst. exists s, r. split; [by left|done]. Qed.

Lemma names_other a h h' i j s s' r r' :
  names a h i s r → names a h' j s' r' → r' ≠ r → j ≠ i.
Proof. intros (_ & Hs & _ & Hr) (_ & Hs' & _ & Hr') Hne ->. congruence. Qed.
Lemma names_same a h h' i s s' r r' : names a h i s r → names a h' i s' r' → h' = h.
Proof. intros (Hi & Hs & Hg & _) (Hi' & Hs' & Hg' & _). destruct h, h'. simpl in *. congruence. Qed.

Lemma stranded_unmapped w w' h i s r c h' j s' r' o :
  stranded w h i s r c → j ≠ i → unmapped w h' j s' r' o w' → stranded w' h i s r c.
Proof.
  intros Hst Hne (_ & [_ Hsub] & Hor).
  assert (T w' !! c = None ∨ state (slpt w) = Poisoned) as Hgone by (destruct (sd_gone _ _ _ _ _ _ Hst); auto).
  destruct Hor as [[_ Ha]|(cause & x & _ & _ & Ha)]; eapply stranded_put; eauto.
Qed.
Lemma stranded_lost w w' h i s r c j s' r' :
  stranded w h i s r c → j ≠ i → lost w j s' r' w' → stranded w' h i s r c.
Proof. intros Hst Hne (_ & _ & x & _ & Ha). eapply stranded_put; eauto. Qed.

Lemma stranded_mapped w w' h i s r c v pa perm o :
  stranded w h i s r c → mapped w v pa perm o w' → renews w w' → stranded w' h i s r c.
Proof.
  intros Hst (j & x & y & bits & Hx & Hfree & Ha & _) Hnew. pose proof (sd_names _ _ _ _ _ _ Hst) as (_ & Hs & _ & Hr).
  eapply (stranded_put _ _ _ _ _ _ _ j); [done| |].
  - intros ->. simplify_eq. unfold slot_free in Hfree. by rewrite Hr, bool_decide_true in Hfree by eauto.
  - left. split; [exact Ha|]. destruct (sd_gone _ _ _ _ _ _ Hst) as [Hgone|]; [left|by right].
    apply eq_None_not_Some. intros [[l Hl]|Hnot]%Hnew; [congruence|]. by eapply Hnot, stranded_retained.
Qed.

Lemma withdraw_stranded ph fault w h i s r c h' :
  inv w → stranded w h i s r c → 0 <= MappingHandle.slot h' → ph = Active ∨ ph = AwaitingMapInvalidation →
  wp (withdraw ph fault h') (λ _ w', stuck w' h i r c) (λ _ w', stuck w' h i r c) w.
Proof.
  intros Hinv Hst Hh Hph. pose proof (sd_dying _ _ _ _ _ _ Hst) as Hdy.
  assert (∀ j s' r', names (slpt w) h' j s' r' → MappingRecord.phase r' = ph → j ≠ i) as Hne.
  { intros j s' r' Hn' Hp. eapply names_other; [apply Hst|done|]. intros ->. apply Hdy. unfold live. destruct Hph; subst; auto. }
  eapply wp_mono; [by apply withdraw_ok| |].
  - intros o w' (j & s' & r' & Hn' & Hp & Hu). by eapply stranded_stuck, stranded_unmapped, Hu; [|eapply Hne].
  - intros e w' [Href|(j & s' & r' & Hn' & Hp & Hu)]; [by eapply stranded_stuck, stranded_refused|].
    by eapply stranded_stuck, stranded_lost, Hu; [|eapply Hne].
Qed.

Lemma run_stranded w d h i s r c :
  inv w → call_ok d → stranded w h i s r c →
  wp (run d) (λ _ w', stuck w' h i r c) (λ _ w', stuck w' h i r c) w.
Proof.
  intros Hinv Hd Hst. pose proof (sd_names _ _ _ _ _ _ Hst) as Hn. pose proof (stranded_stuck _ _ _ _ _ _ Hst) as Hself.
  destruct d as [v pa perm|h'|h'|h'|h']; simpl in *; rewrite wp_bind.
  - destruct Hd. eapply wp_mono; [by apply map_page_all| |].
    + intros o w' [[Hmap _] Hnew]. by eapply stranded_stuck, stranded_mapped.
    + intros e w' Href. by eapply stranded_stuck, stranded_refused.
  - eapply wp_mono; [by apply finish_map_ok| |by intros e w' ->].
    intros o w' (_ & Hm & _ & j & s' & r' & Hn' & Hp & Hor). rewrite wp_ret. apply (stranded_stuck _ _ _ s).
    assert (T w' = T w) as HT by (unfold T; by rewrite Hm). pose proof (sd_gone _ _ _ _ _ _ Hst) as Hgone.
    destruct Hor as [[_ Ha]|(e & _ & Ha)].
    + eapply (stranded_put _ _ _ _ _ _ _ j); [done| |left; rewrite HT; eauto]. eapply names_other; [done|done|].
      intros ->. apply (sd_dying _ _ _ _ _ _ Hst). by left.
    + eapply stranded_kept; [done|by rewrite Ha..|]. by rewrite HT, Ha.
  - eapply wp_mono; [eapply (withdraw_stranded Active); [done|done|done|by left]|done|done].
  - eapply wp_mono; [eapply (withdraw_stranded AwaitingMapInvalidation); [done|done|done|by right]|done|done].
  - destruct (decide (h' = h)) as [->|Hdiff].
    { eapply wp_mono; [by eapply finish_unmap_stranded| |by intros e w' (_ & _ & ->)]. by intros o w' (_ & Hs' & _). }
    eapply wp_mono; [by apply finish_unmap_ok| |].
    + intros o w' (j & s' & r' & Hn' & _ & Hu). rewrite wp_ret. apply (stranded_stuck _ _ _ s).
      eapply stranded_unmapped; [done| |done]. intros ->. apply Hdiff. by eapply names_same.
    + intros e w' [[-> _]|(j & s' & r' & Hn' & _ & Hu)]; [done|]. apply (stranded_stuck _ _ _ s).
      eapply stranded_lost; [done| |done]. intros ->. apply Hdiff. by eapply names_same.
Qed.

Lemma settled_trans r r1 r2 : settled r r1 → settled r1 r2 → settled r r2.
Proof. intros [->| ->] [->| ->]; by (left + right). Qed.

Lemma stuck_step w w' h i r c : inv w → step w w' → stuck w h i r c → stuck w' h i r c.
Proof.
  intros Hinv Hstep (s & r1 & Hr1 & Hst). assert (stuck w' h i r1 c) as (s' & r2 & Hr2 & Hst2).
  - destruct Hstep as [d o w1 Hd Hrun|d e w1 Hd Hrun|w1 Ha Hm _ _|w1 Ha _ _ HT].
    + apply (wp_Done _ _ _ _ _ _ (run_stranded w d h i s r1 c Hinv Hd Hst) Hrun).
    + apply (wp_Fail _ _ _ _ _ _ (run_stranded w d h i s r1 c Hinv Hd Hst) Hrun).
    + apply (stranded_stuck _ _ _ s). eapply stranded_kept; [done|by rewrite Ha..|]. unfold T. rewrite Hm, Ha. apply Hst.
    + apply (stranded_stuck _ _ _ s). eapply stranded_kept; [done|by rewrite Ha..|]. rewrite HT, Ha. apply Hst.
  - exists s', r2. split; [by eapply settled_trans|done].
Qed.

Lemma stuck_run w w' h i r c : inv w → rtc step w w' → stuck w h i r c → inv w' ∧ stuck w' h i r c.
Proof.
  intros Hinv Hrun Hst. revert Hinv Hst. induction Hrun as [|w w1 w2 Hstep Hrun IH]; [done|].
  intros Hinv Hst. apply IH; [by eapply step_inv|by eapply stuck_step].
Qed.
End runs.
