(* ===== verification/VtdMemory.v ===== *)
(** * Direct-map storage for translation tables

    Models [DirectMapSlptMemory] of [kernel/boulder/src/hw/vtd_memory.rs]: table
    frames come from the frame pool of [Frame], a second ledger records which
    ones this owner holds, and their entries are read and written through the
    direct map.  [direct_map_laws] shows that it keeps the laws that the
    page-table core of [Slpt] relies on. *)
From S2P Require Import Prelude Paging Frame Slpt SlptTree SlptLedger SlptPath.

Definition TABLE_ENTRIES : Z := Paging.PAGE_SIZE / 8.
Definition OUT_OF_FRAMES : Z := 1.
Definition PROVENANCE_CAPACITY_EXHAUSTED : Z := 2.
Definition INVALID_FRAME : Z := 3.
Definition UNKNOWN_FRAME : Z := 4.
Definition INVALID_ENTRY : Z := 5.
Definition ADDRESS_OVERFLOW : Z := 6.
Definition OUTSIDE_DIRECT_MAP : Z := 7.
Definition ALLOCATOR_REJECTED_RELEASE : Z := 8.

Module DirectMapSlptMemory.
Import BitmapFrameAllocator.

(** [words] is memory by virtual address, in 64-bit words. *)
Record t := mk {
  frames : BitmapFrameAllocator.t;
  direct_map_base : Z;
  mapped_physical_limit : Z;
  owned : list (option SlptFrame);
  words : gmap Z Z;
}.

Definition with_frames (a : BitmapFrameAllocator.t) (m : t) : t :=
  mk a (direct_map_base m) (mapped_physical_limit m) (owned m) (words m).
Definition with_owned (l : list (option SlptFrame)) (m : t) : t :=
  mk (frames m) (direct_map_base m) (mapped_physical_limit m) l (words m).
Definition with_words (ws : gmap Z Z) (m : t) : t :=
  mk (frames m) (direct_map_base m) (mapped_physical_limit m) (owned m) ws.
Definition on_frames {E A} (m : M BitmapFrameAllocator.t E A) : M t E A := zoom frames with_frames m.

(** The pool and the memory behind the direct map exist before the adapter. *)
Definition new (OWNED : nat) (frames : BitmapFrameAllocator.t) (base limit : Z) (words : gmap Z Z) : t :=
  mk frames base limit (replicate OWNED None) words.

Definition owned_table_count (m : t) : Z := count (λ slot, bool_decide (is_Some slot)) (owned m).
Definition owns (m : t) (frame : SlptFrame) : bool :=
  existsb (λ candidate, bool_decide (candidate = Some frame)) (owned m).

(** [usize::try_from] of a 64-bit address cannot fail on this machine. *)
Definition pointer (m : t) (frame : SlptFrame) : result Z SlptMemoryError :=
  match checked_add 64 frame Paging.PAGE_SIZE with
  | None => Err OUTSIDE_DIRECT_MAP
  | Some end_ =>
    if mapped_physical_limit m <? end_ then Err OUTSIDE_DIRECT_MAP else
    match checked_add 64 (direct_map_base m) frame with
    | None => Err ADDRESS_OVERFLOW
    | Some virtual_address => Ok virtual_address
    end
  end.

Definition owned_pointer (m : t) (frame : SlptFrame) : result Z SlptMemoryError :=
  if negb (owns m frame) then Err UNKNOWN_FRAME else pointer m frame.

Definition give_back (physical : PhysicalAddress) : M t SlptMemoryError unit :=
  map_err (λ _, ALLOCATOR_REJECTED_RELEASE) (on_frames (deallocate physical)).

Definition allocate_table : M t SlptMemoryError SlptFrame :=
  m ← get;
  slot ← ok_or (Z.of_nat <$> position (λ s, negb (bool_decide (is_Some s))) (owned m)) PROVENANCE_CAPACITY_EXHAUSTED;
  physical ← map_err (λ _, OUT_OF_FRAMES) (on_frames allocate);
  match from_physical_address physical with
  | None => give_back physical ;; throw INVALID_FRAME
  | Some frame =>
    match pointer m frame with
    | Err error => give_back physical ;; throw error
    | Ok _ =>
      m ← get;
      l ← store (owned m) slot (Some frame);
      modify (with_owned l) ;;
      mret frame
    end
  end.

(** [ptr::write_bytes(pointer, 0, PAGE_SIZE)]. *)
Definition write_zeros (pointer : Z) (ws : gmap Z Z) : gmap Z Z :=
  foldr (λ i ws, <[pointer + 8 * i := 0]> ws) ws (range 0 TABLE_ENTRIES).

Definition zero_table (frame : SlptFrame) : M t SlptMemoryError unit :=
  m ← get;
  pointer ← lift (owned_pointer m frame);
  modify (λ m, with_words (write_zeros pointer (words m)) m).

Definition read_entry (m : t) (frame : SlptFrame) (index : Z) : result Z SlptMemoryError :=
  if TABLE_ENTRIES <=? index then Err INVALID_ENTRY else
  match owned_pointer m frame with
  | Err e => Err e
  | Ok pointer => Ok (default 0 (words m !! (pointer + 8 * index)))
  end.

Definition write_entry (frame : SlptFrame) (index value : Z) : M t SlptMemoryError unit :=
  if TABLE_ENTRIES <=? index then throw INVALID_ENTRY else
  m ← get;
  pointer ← lift (owned_pointer m frame);
  modify (λ m, with_words (<[pointer + 8 * index := value]> (words m)) m).

Definition release_table (frame : SlptFrame) : M t SlptMemoryError unit :=
  m ← get;
  slot ← ok_or (Z.of_nat <$> position (λ candidate, bool_decide (candidate = Some frame)) (owned m)) UNKNOWN_FRAME;
  give_back frame ;;
  m ← get;
  l ← store (owned m) slot None;
  modify (with_owned l).

#[global] Instance page_memory : SlptPageMemory t := {|
  Slpt.allocate_table := allocate_table;
  Slpt.zero_table := zero_table;
  Slpt.read_entry := read_entry;
  Slpt.write_entry := write_entry;
  Slpt.release_table := release_table;
|}.
End DirectMapSlptMemory.

Module DirectMapFacts.
Import BitmapFrameAllocator FrameFacts FrameOps DirectMapSlptMemory.

(** The entries of a frame. *)
Definition page (m : t) (f : Z) : list Z :=
  (λ i, default 0 (words m !! (direct_map_base m + f + 8 * i))) <$> range 0 TABLE_ENTRIES.

Definition held (m : t) : gset Z := list_to_set (omap id (owned m)).
Definition tables (m : t) : gmap Z (list Z) := set_to_map (λ f, (f, page m f)) (held m).

Lemma held_spec m f : f ∈ held m ↔ Some f ∈ owned m.
Proof. unfold held. rewrite elem_of_list_to_set, list_elem_of_omap. naive_solver. Qed.

Lemma tables_spec m f l : tables m !! f = Some l ↔ Some f ∈ owned m ∧ l = page m f.
Proof.
  unfold tables. rewrite lookup_set_to_map by done. rewrite <-held_spec. naive_solver.
Qed.

(** Both ledgers agree: what is recorded here is allocated there. *)
Record held_ok (m : t) (f : Z) : Prop := {
  ho_frame : frame_ok f;
  ho_index : 0 <= f / Paging.PAGE_SIZE < frame_count (frames m);
  ho_pool : releasable (frames m) (f / Paging.PAGE_SIZE);
  ho_pointer : pointer m f = Ok (direct_map_base m + f);
}.

Record ok (m : t) : Prop := {
  ok_pool : wf (frames m);
  ok_once i j f : owned m !! i = Some (Some f) → owned m !! j = Some (Some f) → i = j;
  ok_held f : Some f ∈ owned m → held_ok m f;
}.

Lemma owns_spec m f : owns m f = true ↔ Some f ∈ owned m.
Proof.
  unfold owns. rewrite existsb_exists. setoid_rewrite bool_decide_eq_true.
  setoid_rewrite <-list_elem_of_In. naive_solver.
Qed.

Lemma owned_pointer_ok m f p :
  ok m → owned_pointer m f = Ok p → Some f ∈ owned m ∧ p = direct_map_base m + f.
Proof.
  intros Hm. unfold owned_pointer. destruct (owns m f) eqn:Ho; [|done]. apply owns_spec in Ho. simpl.
  rewrite (ho_pointer _ _ (ok_held _ Hm f Ho)). intros [= <-]. done.
Qed.

Lemma frame_aligned f : frame_ok f → f mod Paging.PAGE_SIZE = 0.
Proof.
  intros (_ & _ & Hm)%frame_ok_spec.
  assert (f mod Paging.PAGE_SIZE = Z.land f (Paging.PAGE_SIZE - 1)) as -> by (symmetry; by apply (land_pow2_mask 12)).
  rewrite <-Hm, <-Z.land_assoc. change (Z.land PHYSICAL_PAGE_MASK (Paging.PAGE_SIZE - 1)) with 0. apply Z.land_0_r.
Qed.

(** Words of different entries are apart. *)
Lemma word_inj base f g i j :
  frame_ok f → frame_ok g → index_ok i → index_ok j →
  base + f + 8 * i = base + g + 8 * j → f = g ∧ i = j.
Proof.
  intros Hf%frame_aligned Hg%frame_aligned [? Hi] [? Hj] Heq. unfold ENTRIES_PER_TABLE, Paging.PAGE_SIZE in *.
  Z.div_mod_to_equations. lia.
Qed.

Lemma page_lookup m f i :
  index_ok i → page m f !! Z.to_nat i = Some (default 0 (words m !! (direct_map_base m + f + 8 * i))).
Proof.
  intros [? Hi]. unfold page, range. rewrite list_lookup_fmap, lookup_seqZ_lt by (change TABLE_ENTRIES with 512; unfold ENTRIES_PER_TABLE in Hi; lia).
  simpl. do 4 f_equal. lia.
Qed.
Lemma page_length m f : length (page m f) = Z.to_nat ENTRIES_PER_TABLE.
Proof. unfold page, range. by rewrite length_fmap, length_seqZ. Qed.

(** A list of entries is the page when it agrees entry by entry. *)
Lemma page_eq m f l :
  length l = Z.to_nat ENTRIES_PER_TABLE →
  (∀ i, index_ok i → l !! Z.to_nat i = page m f !! Z.to_nat i) → page m f = l.
Proof.
  intros Hlen Hl. apply list_eq. intros i. destruct (decide (i < Z.to_nat ENTRIES_PER_TABLE)%nat) as [Hi|Hi].
  - rewrite <-(Nat2Z.id i). symmetry. apply Hl. split; [lia|]. unfold ENTRIES_PER_TABLE in *. lia.
  - rewrite !lookup_ge_None_2; [done|lia|rewrite page_length; lia].
Qed.

(** ** The pool under the adapter *)

Lemma pages_apart f g :
  frame_ok f → frame_ok g → f / Paging.PAGE_SIZE = g / Paging.PAGE_SIZE → f = g.
Proof. intros Hf%frame_aligned Hg%frame_aligned Heq. unfold Paging.PAGE_SIZE in *. Z.div_mod_to_equations. lia. Qed.

(** Any other use of the pool that leaves the held frames alone. *)
Lemma ok_with_frames m a :
  ok m → wf a → frame_count a = frame_count (frames m) →
  (∀ f, Some f ∈ owned m → releasable a (f / Paging.PAGE_SIZE)) →
  ok (with_frames a m) ∧ tables (with_frames a m) = tables m.
Proof.
  intros [Hp Ho Hh] Ha Hcount Hrel. split; [|done]. split; [done..|]. intros f Hf. destruct (Hh f Hf).
  split; [done|by simpl; rewrite Hcount|by apply Hrel|done].
Qed.

Lemma free_unreserved (a : BitmapFrameAllocator.t) i : wf a → is_free a i → res_bit a i = false.
Proof. intros Ha [Hi Hfree]. destruct (res_bit a i) eqn:Hr; [|done]. apply (wf_res a Ha) in Hr; [congruence|done]. Qed.

(** Frames that are not the [i]-th keep their state. *)
Lemma moves_others v i a a' j :
  moves v i 1 a a' → 0 <= j → j ≠ i → releasable a j → releasable a' j.
Proof.
  intros Hmv Hj Hne [Hb Hr]. unfold releasable, res_bit. rewrite (mv_res _ _ _ _ _ Hmv), (mv_alloc _ _ _ _ _ Hmv) by done.
  rewrite between_one, bool_decide_eq_false_2 by done. done.
Qed.

Lemma held_not_free m f i : ok m → Some f ∈ owned m → is_free (frames m) i → f / Paging.PAGE_SIZE ≠ i.
Proof.
  intros Hm Hf [_ Hfree] <-. destruct (ho_pool _ _ (ok_held _ Hm f Hf)). congruence.
Qed.

(** A frame that is not held goes back to the pool, or stays allocated. *)
Lemma give_back_ok m physical (Q : unit → t → Prop) R :
  ok m → u64 physical → (∀ f, Some f ∈ owned m → f / Paging.PAGE_SIZE ≠ physical / Paging.PAGE_SIZE) →
  (∀ m', ok m' → tables m' = tables m → Q () m') → (∀ e m', ok m' → tables m' = tables m → R e m') →
  wp (give_back physical) Q R m.
Proof.
  intros Hm Hu Hne HQ HR. unfold give_back, on_frames, deallocate. rewrite wp_map_err, wp_zoom.
  eapply wp_mono; [apply deallocate_contiguous_ok; [apply Hm|done|done]| |].
  - intros [] a (_ & _ & _ & _ & Hmv & _). destruct (ok_with_frames m a) as [? ?]; [done|apply Hmv|apply Hmv| |by apply HQ].
    intros f Hf. eapply moves_others; [done| |by apply Hne|by apply ok_held]. apply (ho_index _ _ (ok_held _ Hm f Hf)).
  - intros e a [-> _]. by apply HR; destruct m.
Qed.

Lemma from_physical_address_ok f g : u64 f → from_physical_address f = Some g → g = f ∧ frame_ok f.
Proof. intros Hu Hs. unfold frame_ok. assert (g = f) as ->; [|done]. unfold from_physical_address in Hs. by destruct (_ && _); simplify_eq. Qed.

Lemma pointer_ok m f p : pointer m f = Ok p → p = direct_map_base m + f.
Proof.
  unfold pointer, checked_add. destruct (_ <? _); [|done]. destruct (_ <? _); [done|].
  destruct (_ <? _); [|done]. by intros [= <-].
Qed.

Lemma owned_insert_None m (i : nat) (x : option Z) g :
  owned m !! i = Some None → Some g ∈ <[i := x]> (owned m) ↔ x = Some g ∨ Some g ∈ owned m.
Proof.
  intros Hi. pose proof (lookup_lt_Some _ _ _ Hi). rewrite !list_elem_of_lookup. split.
  - intros [j Hj]. destruct (decide (i = j)) as [<-|]; [rewrite list_lookup_insert_eq in Hj by done|rewrite list_lookup_insert_ne in Hj by done].
    + left. congruence.
    + eauto.
  - intros [->|[j Hj]]; [exists i; by apply list_lookup_insert_eq|]. exists j.
    rewrite list_lookup_insert_ne; [done|]. intros ->. congruence.
Qed.

(** The [i]-th frame of the pool has just been allocated. *)
Section granted.
Context (m : t) (a : BitmapFrameAllocator.t) (i : Z)
  (Hm : ok m) (Hfree : is_free (frames m) i) (Hmv : moves true i 1 (frames m) a).
#[local] Abbreviation f := (i * Paging.PAGE_SIZE).

Lemma granted_u64 : u64 f.
Proof.
  pose proof (shape_count _ (ok_pool _ Hm)) as Hcount. destruct Hfree as [Hi _].
  unfold in_width, Paging.PAGE_SIZE. lia.
Qed.
Lemma granted_index : f / Paging.PAGE_SIZE = i.
Proof. by apply Z.div_mul. Qed.
Lemma granted_others g : Some g ∈ owned m → g / Paging.PAGE_SIZE ≠ f / Paging.PAGE_SIZE.
Proof. intros Hg. rewrite granted_index. by eapply held_not_free. Qed.

Lemma granted_pool : ok (with_frames a m) ∧ tables (with_frames a m) = tables m.
Proof.
  apply ok_with_frames; [done|apply Hmv|apply Hmv|]. intros g Hg. eapply moves_others; [done| | |by apply ok_held].
  - apply (ho_index _ _ (ok_held _ Hm g Hg)).
  - by eapply held_not_free.
Qed.

Lemma granted_recorded (slot : nat) :
  owned m !! slot = Some None → frame_ok f → pointer m f = Ok (direct_map_base m + f) →
  let m' := with_owned (<[slot := Some f]> (owned m)) (with_frames a m) in
  ok m' ∧ tables m !! f = None ∧ tables m' = <[f := page m f]> (tables m).
Proof.
  intros Hslot Hok Hp m'. destruct granted_pool as [Hm1 _].
  assert (Some f ∉ owned m) as Hnew by (intros Hin; by apply (granted_others _ Hin)). split_and!.
  - split; [apply Hm1| |].
    + intros j k g Hj Hk. simpl in Hj, Hk.
      apply list_lookup_insert_Some in Hj as [(<- & Hg & _)|[Hj1 Hj]], Hk as [(<- & Hg' & _)|[Hk1 Hk]]; try done.
      * simplify_eq. destruct Hnew. by eapply list_elem_of_lookup_2.
      * simplify_eq. destruct Hnew. by eapply list_elem_of_lookup_2.
      * by eapply (ok_once _ Hm).
    + intros g Hg. simpl in Hg. apply (owned_insert_None m) in Hg as [[= <-]|Hg]; [|destruct (ok_held _ Hm1 g Hg); by split|done].
      destruct Hfree as [Hi _]. split; [done| | |exact Hp]; simpl; rewrite granted_index.
      * by rewrite (mv_count _ _ _ _ _ Hmv).
      * apply (FramePool.moves_releasable true i 1 (frames m)); [done|lia| |by rewrite between_one, bool_decide_eq_true_2].
        intros j Hj. assert (j = i) as -> by lia. by apply free_unreserved; [apply Hm|].
  - apply eq_None_not_Some. by intros [l [Hin _]%tables_spec].
  - apply map_eq. intros g. apply option_eq. intros l. rewrite tables_spec. simpl.
    rewrite (owned_insert_None m) by done. change (page m' g) with (page m g).
    rewrite lookup_insert_Some, tables_spec. naive_solver.
Qed.
End granted.

Lemma allocate_table_law m :
  ok m →
  wp allocate_table
    (λ f m', ok m' ∧ frame_ok f ∧ tables m !! f = None ∧
             ∃ l, length l = Z.to_nat ENTRIES_PER_TABLE ∧ tables m' = <[f := l]> (tables m))
    (λ _ m', ok m' ∧ tables m' = tables m) m.
Proof.
  intros Hm. unfold allocate_table. rewrite wp_bind, wp_get, wp_bind, wp_ok_or.
  destruct (position _ _) as [slot|] eqn:Hpos; [|done]. cbn [fmap option_fmap option_map].
  apply position_Some in Hpos as [(o & Hslot & Ho) _].
  destruct o; [by rewrite bool_decide_true in Ho by eauto|]. clear Ho.
  rewrite wp_bind, wp_map_err. unfold on_frames at 1. rewrite wp_zoom.
  eapply wp_mono; [apply allocate_ok, Hm| |by intros e a (-> & _); destruct m].
  intros f a (i & Hfree & -> & Hmv & _). destruct (granted_pool m a i Hm Hfree Hmv) as [Hm1 HT1].
  assert (∀ (e : Z) Q, wp (A:=Z) (give_back (i * Paging.PAGE_SIZE) ;; throw e) Q
     (λ _ m', ok m' ∧ tables m' = tables m) (with_frames a m)) as Hback.
  { intros e Q. rewrite wp_bind. apply give_back_ok; [done|by apply (granted_u64 m i)|by intros g; apply (granted_others m i Hm Hfree)|..];
      intros; rewrite ?wp_throw; split; try done; congruence. }
  destruct (from_physical_address _) as [f|] eqn:Hf; [|apply Hback].
  apply from_physical_address_ok in Hf as [-> Hok]; [|by apply (granted_u64 m i)].
  destruct (pointer m _) as [p|e] eqn:Hp; [|apply Hback].
  pose proof (pointer_ok _ _ _ Hp) as ->. rewrite wp_bind, wp_get, wp_bind.
  pose proof (lookup_lt_Some _ _ _ Hslot) as Hlt.
  apply wp_store; [simpl; lia|]. rewrite Nat2Z.id, wp_bind, wp_modify, wp_ret.
  destruct (granted_recorded m a i Hm Hfree Hmv slot Hslot Hok Hp) as (Hm2 & Hnone & HT2).
  split_and!; [done..|]. eexists. split; [apply page_length|exact HT2].
Qed.

(** ** Entries *)

Lemma ok_with_words m ws : ok m → ok (with_words ws m).
Proof. intros [? ? Hh]. split; [done..|]. intros f Hf. by destruct (Hh f Hf). Qed.

(** A change of the words of one held page. *)
Lemma tables_with_words m ws f l :
  ok m → Some f ∈ owned m → length l = Z.to_nat ENTRIES_PER_TABLE →
  (∀ i, index_ok i → default 0 (ws !! (direct_map_base m + f + 8 * i)) = default 0 (l !! Z.to_nat i)) →
  (∀ g i, g ≠ f → frame_ok g → index_ok i →
     ws !! (direct_map_base m + g + 8 * i) = words m !! (direct_map_base m + g + 8 * i)) →
  tables (with_words ws m) = <[f := l]> (tables m).
Proof.
  intros Hm Hf Hlen Hin Hout. apply map_eq. intros g. apply option_eq. intros x. rewrite tables_spec. simpl.
  assert (page (with_words ws m) f = l) as Hpf.
  { apply page_eq; [done|]. intros i Hi. rewrite page_lookup by done. simpl. rewrite Hin by done.
    destruct (lookup_lt_is_Some_2 l (Z.to_nat i)) as [v ->]; [|done]. destruct Hi. rewrite Hlen. lia. }
  assert (∀ g, g ≠ f → Some g ∈ owned m → page (with_words ws m) g = page m g) as Hpg.
  { intros g' Hne Hg'. apply page_eq; [apply page_length|]. intros i Hi. rewrite !page_lookup by done. simpl.
    by rewrite Hout by (done || by apply (ok_held _ Hm)). }
  destruct (decide (g = f)) as [->|Hne].
  - rewrite lookup_insert_eq, Hpf. naive_solver.
  - rewrite lookup_insert_ne, tables_spec by done. split; intros [Hg ->]; (split; [done|]); [|symmetry]; by apply Hpg.
Qed.

Lemma write_entry_law m f l i v :
  ok m → tables m !! f = Some l → index_ok i → u64 v →
  wp (write_entry f i v)
    (λ _ m', ok m' ∧ tables m' = <[f := <[Z.to_nat i := v]> l]> (tables m))
    (λ _ m', ok m' ∧ tables m' = tables m) m.
Proof.
  intros Hm Hl Hi _. apply tables_spec in Hl as [Hf ->]. unfold write_entry. pose proof Hi as [Hi0 Hi1].
  change TABLE_ENTRIES with ENTRIES_PER_TABLE. destruct (Z.leb_spec ENTRIES_PER_TABLE i); [lia|].
  rewrite wp_bind, wp_get, wp_bind, wp_lift. destruct (owned_pointer m f) as [p|] eqn:Hp; [|done].
  apply owned_pointer_ok in Hp as [_ ->]; [|done]. rewrite wp_modify. split; [by apply ok_with_words|].
  pose proof (ho_frame _ _ (ok_held _ Hm f Hf)) as Hok.
  apply tables_with_words; [done|done|by rewrite length_insert, page_length|..].
  - intros j Hj. destruct (decide (j = i)) as [->|Hne].
    + rewrite lookup_insert_eq, list_lookup_insert_eq; [done|]. rewrite page_length. lia.
    + rewrite lookup_insert_ne by (intros Heq; by apply word_inj in Heq as [_ ?]).
      rewrite list_lookup_insert_ne by (destruct Hj; lia). by rewrite page_lookup.
  - intros g j Hne Hg Hj. apply lookup_insert_ne. intros Heq. by apply word_inj in Heq as [? _].
Qed.

Lemma write_zeros_lookup p ws a :
  (∀ i, index_ok i → a ≠ p + 8 * i) → write_zeros p ws !! a = ws !! a.
Proof.
  unfold write_zeros. change TABLE_ENTRIES with ENTRIES_PER_TABLE. intros Ha.
  assert (Forall index_ok (range 0 ENTRIES_PER_TABLE)) as Hall by (apply Forall_forall; intros j Hj%elem_of_range; exact Hj).
  induction Hall as [|i l Hi Hall IH]; [done|]. simpl. rewrite lookup_insert_ne; [done|]. intros Heq. by apply (Ha i).
Qed.

Lemma write_zeros_zero p ws i : index_ok i → write_zeros p ws !! (p + 8 * i) = Some 0.
Proof.
  unfold write_zeros. intros Hi. assert (i ∈ range 0 TABLE_ENTRIES) as Hin by (by apply elem_of_range).
  revert Hin. generalize (range 0 TABLE_ENTRIES) as l. induction l as [|j l IH]; [by intros ?%elem_of_nil|].
  simpl. intros Hin. destruct (decide (j = i)) as [->|Hne]; [apply lookup_insert_eq|].
  rewrite lookup_insert_ne by lia. apply IH. by apply elem_of_cons in Hin as [->|].
Qed.

Lemma zero_table_law m f l :
  ok m → tables m !! f = Some l →
  wp (zero_table f)
    (λ _ m', ok m' ∧ tables m' = <[f := replicate (Z.to_nat ENTRIES_PER_TABLE) 0]> (tables m))
    (λ _ m', ok m' ∧ tables m' = tables m) m.
Proof.
  intros Hm [Hf _]%tables_spec. unfold zero_table. rewrite wp_bind, wp_get, wp_bind, wp_lift.
  destruct (owned_pointer m f) as [p|] eqn:Hp; [|done]. apply owned_pointer_ok in Hp as [_ ->]; [|done].
  rewrite wp_modify. split; [by apply ok_with_words|]. pose proof (ho_frame _ _ (ok_held _ Hm f Hf)) as Hok.
  apply tables_with_words; [done|done|by rewrite length_replicate|..].
  - intros i Hi. rewrite write_zeros_zero by done. destruct Hi. by rewrite lookup_replicate_2 by lia.
  - intros g i Hne Hg Hi. apply write_zeros_lookup. intros j Hj Heq. by apply word_inj in Heq as [? _].
Qed.

Lemma read_entry_law m f i v :
  ok m → index_ok i → read_entry m f i = Ok v → ∃ l, tables m !! f = Some l ∧ l !! Z.to_nat i = Some v.
Proof.
  intros Hm Hi. unfold read_entry. destruct (_ <=? _); [done|].
  destruct (owned_pointer m f) as [p|] eqn:Hp; [|done]. apply owned_pointer_ok in Hp as [Hf ->]; [|done].
  intros [= <-]. exists (page m f). rewrite tables_spec. split; [done|]. by apply page_lookup.
Qed.

Lemma release_table_law m f l :
  ok m → tables m !! f = Some l →
  wp (release_table f) (λ _ m', ok m' ∧ tables m' = delete f (tables m)) (λ _ m', ok m' ∧ tables m' = tables m) m.
Proof.
  intros Hm [Hf _]%tables_spec. unfold release_table. rewrite wp_bind, wp_get, wp_bind, wp_ok_or.
  destruct (position _ _) as [slot|] eqn:Hpos; [|done]. cbn [fmap option_fmap option_map].
  apply position_Some in Hpos as [(o & Hslot & ->%bool_decide_eq_true) _]. pose proof (lookup_lt_Some _ _ _ Hslot) as Hlt.
  pose proof (ok_held _ Hm f Hf) as Hh. pose proof (ho_frame _ _ Hh) as Hok.
  rewrite wp_bind. unfold give_back, on_frames, deallocate. rewrite wp_map_err, wp_zoom.
  eapply wp_mono; [apply deallocate_contiguous_ok; [apply Hm|apply Hok|done]| |by intros e a [-> _]; destruct m].
  intros [] a (_ & _ & _ & _ & Hmv & _). rewrite wp_bind, wp_get, wp_bind.
  apply wp_store; [simpl; lia|]. rewrite Nat2Z.id, wp_modify. simpl.
  assert (∀ g, Some g ∈ <[slot := None]> (owned m) ↔ Some g ∈ owned m ∧ g ≠ f) as Hin.
  { intros g. rewrite !list_elem_of_lookup. split.
    - intros [j Hj]. apply list_lookup_insert_Some in Hj as [(_ & ? & _)|[Hne Hj]]; [done|]. split; [eauto|].
      intros ->. apply Hne. by eapply (ok_once _ Hm).
    - intros [[j Hj] Hne]. exists j. rewrite list_lookup_insert_ne; [done|]. intros ->. congruence. }
  split.
  - split; [apply Hmv| |].
    + intros j k g Hj Hk. simpl in Hj, Hk. apply list_lookup_insert_Some in Hj as [(_ & ? & _)|[_ Hj]]; [done|].
      apply list_lookup_insert_Some in Hk as [(_ & ? & _)|[_ Hk]]; [done|]. by eapply (ok_once _ Hm).
    + intros g [Hg Hne]%Hin. destruct (ok_held _ Hm g Hg) as [Hgf Hgi Hgp Hgptr].
      split; [done|by simpl; rewrite (mv_count _ _ _ _ _ Hmv)| |done].
      eapply moves_others; [done|lia| |done]. intros Heq. by apply Hne, pages_apart.
  - apply map_eq. intros g. apply option_eq. intros x. rewrite tables_spec, lookup_delete_Some, tables_spec. simpl.
    rewrite Hin. change (page (with_owned _ (with_frames a m)) g) with (page m g). naive_solver.
Qed.

Lemma table_length_law m f l : ok m → tables m !! f = Some l → length l = Z.to_nat ENTRIES_PER_TABLE.
Proof. intros Hm [_ ->]%tables_spec. apply page_length. Qed.

#[global] Instance direct_map_laws : SlptMemoryLaws t := {
  SlptLedger.mem_ok := ok;
  SlptLedger.tables := tables;
  SlptLedger.table_law := table_length_law;
  SlptLedger.allocate_law := allocate_table_law;
  SlptLedger.zero_law := zero_table_law;
  SlptLedger.read_law := read_entry_law;
  SlptLedger.write_law := write_entry_law;
  SlptLedger.release_law := release_table_law;
}.
End DirectMapFacts.
