(* ===== verification/VtdTables.v ===== *)
(** * Root and context tables of the remapping engine

    Models [DirectMapVtdTables] of [kernel/boulder/src/hw/vtd_memory.rs], the two
    adjacent pages that hold the legacy root and context table, with the entries
    of [kernel/boulder/src/hw/vtd.rs] that are written into them. *)
From S2P Require Import Prelude Paging Frame Slpt SlptTree SlptLedger SlptPath VtdMemory.

Inductive DirectMapVtdTablesError :=
| OutOfFrames | InvalidDirectMap | ZeroPhysicalAddress | EntriesStillLive | AllocatorRejectedRelease.
(** [InvalidAddressWidth] of [vtd.rs] is [InvalidContextWidth] here. *)
Inductive TableError := InvalidPageAddress | InvalidContextWidth.

(** The frame pool and memory by virtual address, in 64-bit words. *)
Record platform := Platform { frames : BitmapFrameAllocator.t; words : gmap Z Z }.
Definition on_frames {E A} (m : M BitmapFrameAllocator.t E A) : M platform E A :=
  zoom frames (λ a s, Platform a (words s)) m.
Definition load_word (s : platform) (a : Z) : Z := default 0 (words s !! a).
Definition store_word {E} (a v : Z) : M platform E unit := modify (λ s, Platform (frames s) (<[a := v]> (words s))).

(** ** Entries *)

(** A [RootEntry] or [ContextEntry] at virtual address [p]: [lower], [upper]. *)
Definition raw (s : platform) (p : Z) : Z * Z := (load_word s p, load_word s (p + 8)).
Definition clear {E} (p : Z) : M platform E unit := store_word p 0 ;; store_word (p + 8) 0.

Definition PRESENT : Z := 1.

Definition validate_page (physical_address : Z) : result unit TableError :=
  if (physical_address =? 0) || negb (physical_address mod Paging.PAGE_SIZE =? 0)
     || negb (Z.land physical_address (bitnot 64 PHYSICAL_PAGE_MASK) =? 0)
  then Err InvalidPageAddress else Ok ().

Definition install_context_table (p physical_address : Z) : M platform TableError unit :=
  lift (validate_page physical_address) ;;
  store_word (p + 8) 0 ;;
  store_word p (Z.lor (Z.land physical_address PHYSICAL_PAGE_MASK) PRESENT).

Definition install_second_level_translation (p domain_id address_width page_table_root : Z) :
    M platform TableError unit :=
  lift (validate_page page_table_root) ;;
  if 3 <? address_width then throw InvalidContextWidth else
  store_word (p + 8) (Z.lor (wrap 64 (Z.shiftl domain_id 8)) address_width) ;;
  store_word p (Z.lor (Z.land page_table_root PHYSICAL_PAGE_MASK) PRESENT).

(** ** The pair of tables *)

Module DirectMapVtdTables.
Import BitmapFrameAllocator.

Record t := mk { direct_map_base : Z; first_frame : PhysicalAddress }.

(** [ptr::write_bytes(first_virtual, 0, 2 * PAGE_SIZE)]. *)
Definition zero_pair {E} (first_virtual : Z) : M platform E unit :=
  modify (λ s, Platform (frames s)
    (DirectMapSlptMemory.write_zeros (first_virtual + Paging.PAGE_SIZE)
       (DirectMapSlptMemory.write_zeros first_virtual (words s)))).

Definition allocate (direct_map_base mapped_physical_limit : Z) : M platform DirectMapVtdTablesError t :=
  s ← get;
  managed_bytes ← ok_or (checked_mul 64 (managed_frames (frames s)) Paging.PAGE_SIZE) InvalidDirectMap;
  let virtual_limit := checked_add 64 direct_map_base mapped_physical_limit in
  if (mapped_physical_limit <? managed_bytes) || negb (bool_decide (is_Some virtual_limit))
  then throw InvalidDirectMap else
  first_frame ← map_err (λ _, OutOfFrames) (on_frames (allocate_contiguous 2 1));
  if first_frame =? 0 then
    map_err (λ _, AllocatorRejectedRelease) (on_frames (deallocate_contiguous first_frame 2)) ;;
    throw ZeroPhysicalAddress
  else
  first_virtual ← ok_or (checked_add 64 direct_map_base first_frame) InvalidDirectMap;
  zero_pair first_virtual ;;
  mret (mk direct_map_base first_frame).

Definition root_physical_address (self : t) : Z := first_frame self.
Definition context_physical_address (self : t) : Z := first_frame self + Paging.PAGE_SIZE.
Definition root_pointer (self : t) : Z := direct_map_base self + root_physical_address self.
Definition context_pointer (self : t) : Z := direct_map_base self + context_physical_address self.

(** [RootEntryTable::entry] and [ContextEntryTable::entry]; an entry has 16 bytes. *)
Definition root_entry (self : t) (bus : Z) : Z := root_pointer self + 16 * bus.
Definition context_entry (self : t) (slot function : Z) : Z := context_pointer self + 16 * (slot * 8 + function).

Definition is_clear (s : platform) (p : Z) : bool := bool_decide (raw s p = (0, 0)).

(** The context scan runs once per bus, although the buses share the table. *)
Definition entries_are_empty (self : t) (s : platform) : bool :=
  let roots_empty := forallb (λ bus, is_clear s (root_entry self bus)) (range 0 256) in
  let contexts_empty :=
    forallb (λ bus : Z, forallb (λ slot, forallb (λ function, is_clear s (context_entry self slot function))
      (range 0 8)) (range 0 32)) (range 0 256) in
  roots_empty && contexts_empty.

(** The error returns the tables to the caller: the state is unchanged. *)
Definition close (self : t) : M platform DirectMapVtdTablesError unit :=
  s ← get;
  if negb (entries_are_empty self s) then throw EntriesStillLive else
  released ← attempt (on_frames (deallocate_contiguous (first_frame self) 2));
  match released with
  | Err _ => throw AllocatorRejectedRelease
  | Ok _ => mret ()
  end.
End DirectMapVtdTables.

Module VtdTablesProperties.
Import BitmapFrameAllocator FrameFacts FrameOps DirectMapVtdTables.

Lemma write_zeros_cases p ws a :
  DirectMapSlptMemory.write_zeros p ws !! a = ws !! a ∨ DirectMapSlptMemory.write_zeros p ws !! a = Some 0.
Proof.
  unfold DirectMapSlptMemory.write_zeros. induction (range 0 TABLE_ENTRIES) as [|i l IH]; [by left|]. simpl.
  destruct (decide (p + 8 * i = a)) as [<-|]; [right; apply lookup_insert_eq|by rewrite lookup_insert_ne].
Qed.

(** The words of a freshly zeroed pair. *)
Lemma zeroed_word base ws i :
  0 <= i < 2 * ENTRIES_PER_TABLE →
  default 0 (DirectMapSlptMemory.write_zeros (base + Paging.PAGE_SIZE)
    (DirectMapSlptMemory.write_zeros base ws) !! (base + 8 * i)) = 0.
Proof.
  intros Hi. unfold ENTRIES_PER_TABLE in Hi. destruct (Z.lt_ge_cases i 512).
  - destruct (write_zeros_cases (base + Paging.PAGE_SIZE) (DirectMapSlptMemory.write_zeros base ws) (base + 8 * i)) as [-> | ->]; [|done].
    rewrite DirectMapFacts.write_zeros_zero; [done|]. split; [lia|]. unfold ENTRIES_PER_TABLE. lia.
  - replace (base + 8 * i) with (base + Paging.PAGE_SIZE + 8 * (i - 512)) by (unfold Paging.PAGE_SIZE; lia).
    rewrite DirectMapFacts.write_zeros_zero; [done|]. split; [lia|]. unfold ENTRIES_PER_TABLE. lia.
Qed.

Lemma entries_are_empty_spec self s :
  (∀ i, 0 <= i < 2 * ENTRIES_PER_TABLE → load_word s (root_pointer self + 8 * i) = 0) → entries_are_empty self s = true.
Proof.
  intros Hz. unfold entries_are_empty. unfold ENTRIES_PER_TABLE in Hz. apply andb_true_iff. split.
  - apply forallb_forall. intros bus Hb. apply list_elem_of_In, elem_of_range in Hb.
    apply bool_decide_eq_true. unfold raw, root_entry. f_equal.
    + replace (16 * bus) with (8 * (2 * bus)) by lia. apply Hz. lia.
    + replace (root_pointer self + 16 * bus + 8) with (root_pointer self + 8 * (2 * bus + 1)) by lia. apply Hz. lia.
  - apply forallb_forall. intros _ _. apply forallb_forall. intros slot Hs. apply list_elem_of_In, elem_of_range in Hs.
    apply forallb_forall. intros fn Hf. apply list_elem_of_In, elem_of_range in Hf.
    apply bool_decide_eq_true. unfold raw, context_entry, context_pointer, context_physical_address, Paging.PAGE_SIZE.
    change (first_frame self) with (root_physical_address self). f_equal.
    + replace (direct_map_base self + (root_physical_address self + 4096) + 16 * (slot * 8 + fn))
        with (root_pointer self + 8 * (512 + 2 * (slot * 8 + fn))) by (unfold root_pointer; lia). apply Hz. lia.
    + replace (direct_map_base self + (root_physical_address self + 4096) + 16 * (slot * 8 + fn) + 8)
        with (root_pointer self + 8 * (512 + 2 * (slot * 8 + fn) + 1)) by (unfold root_pointer; lia). apply Hz. lia.
Qed.

(** Giving back a run that was just taken. *)
Lemma release_taken_run c n a a1 :
  wf a → 0 < n → u64 n → fits a n 1 c → moves true c n a a1 →
  wp (deallocate_contiguous (c * Paging.PAGE_SIZE) n)
    (λ _ a2, wf a2 ∧ ∀ i, is_free a2 i ↔ is_free a i) (λ _ _, False) a1.
Proof.
  intros Hwf Hn Hu (Hc & _ & Hfit & Hfree) Hmv. pose proof (shape_count _ Hwf) as Hcount.
  assert (c * Paging.PAGE_SIZE / Paging.PAGE_SIZE = c) as Hdiv by (by apply Z.div_mul).
  assert (u64 (c * Paging.PAGE_SIZE)) by (unfold in_width, Paging.PAGE_SIZE; lia).
  eapply wp_mono; [apply deallocate_contiguous_ok; [apply Hmv|done..]| |]; cbv zeta; rewrite Hdiv.
  - intros [] a2 (_ & _ & _ & _ & Hmv' & _). split; [apply Hmv'|]. intros i.
    rewrite (FrameLaws.moves_free _ _ _ _ _ _ Hmv'), (mv_count _ _ _ _ _ Hmv). unfold is_free.
    split; intros [Hi Hbit]; (split; [done|]); destruct (between c (c + n) i) eqn:Hb; try done.
    + apply Hfree. by apply between_spec.
    + rewrite (mv_alloc _ _ _ _ _ Hmv), Hb in Hbit by lia. done.
    + rewrite (mv_alloc _ _ _ _ _ Hmv), Hb by lia. done.
  - intros e a2 [_ He].
    assert (∀ i, c <= i < c + n → alloc_bit a1 i = true) as Hbit
      by (intros i Hi; rewrite (mv_alloc _ _ _ _ _ Hmv), (proj2 (between_spec _ _ _) Hi) by lia; done).
    destruct e; try done.
    + lia.
    + apply He. by apply Z_mod_mult.
    + rewrite (mv_count _ _ _ _ _ Hmv) in He. lia.
    + destruct He as (i & Hi & Hr). unfold res_bit in Hr. rewrite (mv_res _ _ _ _ _ Hmv) in Hr.
      assert (res_bit a i = false) as Hno by (apply DirectMapFacts.free_unreserved; [done|]; split; [lia|by apply Hfree]).
      unfold res_bit in Hno. congruence.
    + destruct He as (i & Hi & _ & Hr). rewrite Hbit in Hr by done. done.
Qed.

(** A fresh pair takes two adjacent free frames other than frame zero and clears
    every entry; a failed allocation leaves the set of free frames as it was. *)
Theorem vtd_tables_allocate_exact base limit s :
  wf (frames s) → u64 base → u64 limit →
  match allocate base limit s with
  | Done self s' => ∃ c, 0 < c ∧ first_frame self = c * Paging.PAGE_SIZE ∧ direct_map_base self = base ∧
      is_free (frames s) c ∧ is_free (frames s) (c + 1) ∧ moves true c 2 (frames s) (frames s') ∧
      base + first_frame self + 2 * Paging.PAGE_SIZE <= 2 ^ 64 ∧ entries_are_empty self s' = true
  | Fail _ s' => words s' = words s ∧ wf (frames s') ∧ ∀ i, is_free (frames s') i ↔ is_free (frames s) i
  | Panic => False
  end.
Proof.
  intros Hwf Hb Hl. pose proof (shape_count _ Hwf) as Hcount. set (R := λ (_ : DirectMapVtdTablesError) s',
    words s' = words s ∧ wf (frames s') ∧ ∀ i, is_free (frames s') i ↔ is_free (frames s) i).
  assert (∀ e, R e s) as Hsame by done.
  assert (wp (allocate base limit) (λ self s', ∃ c, 0 < c ∧ first_frame self = c * Paging.PAGE_SIZE ∧
    direct_map_base self = base ∧ is_free (frames s) c ∧ is_free (frames s) (c + 1) ∧
    moves true c 2 (frames s) (frames s') ∧ base + first_frame self + 2 * Paging.PAGE_SIZE <= 2 ^ 64 ∧
    entries_are_empty self s' = true) R s) as Hwp; [|exact Hwp].
  unfold allocate. rewrite wp_bind, wp_get, wp_bind, wp_ok_or. unfold checked_mul.
  destruct (_ <? 2 ^ 64); [|done]. destruct (_ || _) eqn:Hg; [done|].
  apply orb_false_iff in Hg as [Hlim%Z.ltb_ge Hv%negb_false_iff%bool_decide_eq_true]. unfold checked_add in Hv.
  destruct (Z.ltb_spec (base + limit) (2 ^ 64)) as [Hend|]; [clear Hv|by destruct Hv].
  rewrite wp_bind, wp_map_err. unfold on_frames at 1. rewrite wp_zoom.
  eapply wp_mono; [by apply allocate_contiguous_ok| |by intros e a (-> & _); destruct s].
  intros f a (c & _ & _ & Hfits & -> & Hmv & _). pose proof Hfits as (Hc & _ & Hfit & Hfree).
  unfold managed_frames in Hlim. destruct (Z.eqb_spec (c * Paging.PAGE_SIZE) 0) as [Hz|Hnz].
  - rewrite wp_bind, wp_map_err. unfold on_frames. rewrite wp_zoom.
    eapply wp_mono; [by apply (release_taken_run c 2 (frames s))| |done]. intros [] a' [Hwf' Hiff]. by rewrite wp_throw.
  - assert (0 < c) as Hpos by (unfold Paging.PAGE_SIZE in Hnz; lia). unfold Paging.PAGE_SIZE in Hlim.
    rewrite wp_bind, wp_ok_or. unfold checked_add.
    destruct (Z.ltb_spec (base + c * Paging.PAGE_SIZE) (2 ^ 64)); [|unfold Paging.PAGE_SIZE in *; lia].
    assert (∀ i, c <= i < c + 2 → is_free (frames s) i) as Hfr by (intros i Hi; split; [lia|by apply Hfree]).
    unfold zero_pair. rewrite wp_bind, wp_modify, wp_ret. exists c. do 3 (split; [done|]).
    split; [apply Hfr; lia|]. split; [apply Hfr; lia|]. split; [done|].
    split; [simpl; unfold Paging.PAGE_SIZE; lia|]. apply entries_are_empty_spec. intros i Hi.
    unfold load_word, root_pointer, root_physical_address. cbn [words frames direct_map_base first_frame]. apply zeroed_word. exact Hi.
Qed.

(** Closing succeeds only when every root and context entry is clear, and then
    frees exactly the two frames; a refused close changes nothing. *)
Theorem vtd_tables_close_exact self s c :
  wf (frames s) → first_frame self = c * Paging.PAGE_SIZE → 0 <= c → c + 2 <= frame_count (frames s) →
  match close self s with
  | Done _ s' => entries_are_empty self s = true ∧ words s' = words s ∧ moves false c 2 (frames s) (frames s')
  | Fail e s' => s' = s ∧ match e with
      | EntriesStillLive => entries_are_empty self s = false
      | AllocatorRejectedRelease => ∃ i, c <= i < c + 2 ∧ ¬ releasable (frames s) i
      | _ => False
      end
  | Panic => False
  end.
Proof.
  intros Hwf Hf Hc Hfit. pose proof (shape_count _ Hwf) as Hcount.
  assert (c * Paging.PAGE_SIZE / Paging.PAGE_SIZE = c) as Hdiv by (by apply Z.div_mul).
  assert (u64 (c * Paging.PAGE_SIZE)) by (unfold in_width, Paging.PAGE_SIZE; lia).
  unfold close. unfold mbind, M_bind, get. destruct (entries_are_empty self s); [|done]. cbn [negb].
  unfold attempt, on_frames, zoom. rewrite Hf.
  pose proof (deallocate_contiguous_ok (c * Paging.PAGE_SIZE) 2 (frames s) Hwf ltac:(done) ltac:(done)) as Hwp.
  unfold wp in Hwp. destruct (deallocate_contiguous _ 2 (frames s)) as [[] a|e a|]; [| |done]; rewrite Hdiv in Hwp.
  - by destruct Hwp as (_ & _ & _ & _ & Hmv & _).
  - destruct Hwp as [-> He]. split; [by destruct s|]. unfold releasable. destruct e; try done.
    + by destruct He; apply Z_mod_mult.
    + lia.
    + destruct He as (i & Hi & Hr). exists i. split; [done|]. intros [_ ?]. congruence.
    + destruct He as (i & Hi & _ & Hr). exists i. split; [done|]. intros [? _]. congruence.
Qed.
End VtdTablesProperties.
