(* ===== verification/SlptProperties.v ===== *)
(** * What the page-table core guarantees

    The theorems about [Slpt] over every run of an attached core, for any table
    memory and any invalidator that keep their laws. The concrete machine on
    which they apply, the direct-map memory over a small frame pool, is in
    [VtdProperties]. *)
From S2P Require Import Prelude Paging Frame Slpt SlptTree SlptLedger SlptPath SlptOps SlptRuns VtdMemory.
Import Slpt.

Section lemmas.
Context {S I : Type} {HM : SlptPageMemory S} {HML : SlptMemoryLaws S}
  {HI : SlptInvalidator I} {HIL : SlptInvalidatorLaws I}.
Implicit Types (w : world S I).

Lemma maps_unique a v e e' : (∃ n leaves, ledger a n leaves) → maps a v e → maps a v e' → e = e'.
Proof.
  intros (n & leaves & Hl) (i & r & Hr & _ & Hi & <-) (j & x & Hx & _ & Hj & <-).
  assert (i = j) as -> by (eapply (lg_iova _ _ _ Hl i j r x); congruence || done).
  by rewrite (holds_unique _ _ _ _ Hr Hx).
Qed.

Lemma translate_maps w w' v :
  inv w → inv w' → iova_ok (slpt w) v → iova_ok (slpt w') v →
  (∀ e, maps (slpt w') v e ↔ maps (slpt w) v e) → translate w' v = translate w v.
Proof.
  intros Hw Hw' Hv Hv' Heq. apply option_eq. intros e. by rewrite !translate_ok, Heq.
Qed.

Lemma maps_put a i s v e :
  (i < length (slots a))%nat →
  maps (put_slot a i s) v e ↔
    (∃ r, MappingSlot.record s = Some r ∧ live r ∧ MappingRecord.iova r = v ∧ MappingRecord.leaf r = e) ∨
    ∃ j r, j ≠ i ∧ holds a j r ∧ live r ∧ MappingRecord.iova r = v ∧ MappingRecord.leaf r = e.
Proof. intros Hi. unfold maps. setoid_rewrite holds_put; [|done]. naive_solver. Qed.

Lemma maps_filled w v pa perm o w' u e :
  mapped w v pa perm o w' →
  ∃ bits, DmaPermissions.bits perm = Ok bits ∧
    (maps (slpt w') u e ↔ (u = v ∧ e = Z.lor pa bits) ∨ maps (slpt w) u e).
Proof.
  intros (i & s & r & bits & Hs & Hfree & Ha & Hv & Hp & Hb & Hle & Ho). exists bits. split; [done|].
  pose proof (lookup_lt_Some _ _ _ Hs) as Hi. rewrite Ha, maps_put by done. simpl.
  assert (live r) as Hlive by (unfold live; naive_solver).
  assert (∀ x, ¬ holds (slpt w) i x) as Hnone.
  { intros x (s' & Hs' & Hx). simplify_eq. unfold slot_free in Hfree.
    by rewrite Hx, bool_decide_true in Hfree by eauto. }
  split.
  - intros [(x & [= <-] & _ & <- & <-)|(j & x & _ & Hx)]; [left; by rewrite Hle|right]. by exists j, x.
  - intros [[-> ->]|(j & x & Hx & Hr)]; [left; by exists r|right]. exists j, x. split; [|done]. intros ->. by apply (Hnone x).
Qed.

(** A record that leaves takes its translation with it. *)
Lemma maps_gone w i s s' r u e :
  inv w → slots (slpt w) !! i = Some s → MappingSlot.record s = Some r → (∀ x, MappingSlot.record s' = Some x → ¬ live x) →
  maps (put_slot (slpt w) i s') u e ↔ u ≠ MappingRecord.iova r ∧ maps (slpt w) u e.
Proof.
  intros (n & leaves & [_ _ _ Hl] & _) Hs Hr Hgone. pose proof (lookup_lt_Some _ _ _ Hs) as Hi.
  assert (holds (slpt w) i r) as Hh by (by exists s). rewrite maps_put by done. split.
  - intros [(x & Hx & Hlx & _)|(j & x & Hne & Hx & Hrest)]; [by apply Hgone in Hlx|].
    split; [|by exists j, x]. intros ->. destruct Hrest as (_ & Hxi & _). apply Hne.
    by apply (lg_iova _ _ _ Hl j i x r).
  - intros [Hne (j & x & Hx & Hlx & Hxi & Hxe)]. right. exists j, x. split_and!; try done. intros ->.
    rewrite (holds_unique _ _ _ _ Hx Hh) in Hxi. done.
Qed.

(** A new mapping shares neither page with one that was there. *)
Lemma mapped_apart w v pa perm o w' j x :
  mapped w v pa perm o w' → inv w' → holds (slpt w) j x →
  v ≠ MappingRecord.iova x ∧ pa ≠ MappingRecord.physical_address x.
Proof.
  intros (i & s & r & bits & Hs & Hfree & Ha & <- & <- & _) (n & leaves & [_ _ _ Hl] & _) Hx.
  pose proof (lookup_lt_Some _ _ _ Hs) as Hi.
  assert (j ≠ i) as Hne.
  { intros ->. destruct Hx as (s' & Hs' & Hx). simplify_eq. unfold slot_free in Hfree.
    by rewrite Hx, bool_decide_true in Hfree by eauto. }
  assert (holds (slpt w') j x) as Hx' by (rewrite Ha; apply holds_put; auto).
  assert (holds (slpt w') i r) as Hr' by (rewrite Ha; apply holds_put; auto).
  split; intros Heq; apply Hne; [by apply (lg_iova _ _ _ Hl j i x r)|by apply (lg_physical _ _ _ Hl j i x r)].
Qed.

Lemma aged_not_live r r' : aged r r' → ¬ live r'.
Proof. intros (m & ph & -> & Hph) [?|?]; simpl in *; destruct Hph; congruence. Qed.

Lemma maps_unmapped w h i s r o w' u e :
  inv w → names (slpt w) h i s r → unmapped w h i s r o w' →
  maps (slpt w') u e ↔ u ≠ MappingRecord.iova r ∧ maps (slpt w) u e.
Proof.
  intros Hinv (_ & Hs & _ & Hr) (_ & _ & [[_ Ha]|(cause & r' & _ & Hag & Ha)]); rewrite Ha; eapply maps_gone; try done.
  - intros x Hx. unfold retire in Hx. by destruct (_ =? _).
  - intros x [= <-]. by eapply aged_not_live.
Qed.

Lemma maps_lost w h i s r w' u e :
  inv w → names (slpt w) h i s r → lost w i s r w' →
  maps (slpt w') u e ↔ u ≠ MappingRecord.iova r ∧ maps (slpt w) u e.
Proof.
  intros Hinv (_ & Hs & _ & Hr) (_ & _ & r' & Hag & Ha). rewrite Ha.
  change (maps (with_state Poisoned ?a) u e) with (maps a u e). eapply maps_gone; try done.
  intros x [= <-]. by eapply aged_not_live.
Qed.

Lemma maps_refused w w' u e : refused w w' → maps (slpt w') u e ↔ maps (slpt w) u e.
Proof. by intros ([[-> _]| ->] & _). Qed.

(** The calls that unmap, when they complete. *)
Definition unmaps (c : call) (h : MappingHandle.t) : Prop :=
  c = UnmapPage h ∨ c = CancelPendingMap h ∨ c = FinishUnmap h.

Lemma complete_ok w c h w' :
  inv w → unmaps c h → 0 <= MappingHandle.slot h → run c w = Done (inr Complete) w' →
  ∃ i s r, names (slpt w) h i s r ∧ inv w' ∧ slpt w' = put_slot (slpt w) i (retire s).
Proof.
  intros Hinv Hc Hh Hrun.
  assert (wp (run c) (λ o w', ∃ u i s r, o = inr u ∧ names (slpt w) h i s r ∧ unmapped w h i s r u w')
    (λ _ _, True) w) as Hwp.
  { destruct Hc as [-> |[-> | ->]]; simpl; rewrite wp_bind; eapply wp_mono;
      [by apply withdraw_ok; [| |left]| |done|by apply withdraw_ok; [| |right]| |done|by apply finish_unmap_ok| |done];
      intros o w1 (i & s & r & Hn & _ & Hu); rewrite wp_ret; by exists o, i, s, r. }
  destruct (wp_Done _ _ _ _ _ _ Hwp Hrun) as (u & i & s & r & [= <-] & Hn & Hinv' & _ & Hor).
  exists i, s, r. split_and!; [done..|]. by destruct Hor as [[_ ?]|(? & ? & ? & _)].
Qed.
End lemmas.

Module SlptClaims.

Section claims.
Context {S I : Type} {HM : SlptPageMemory S} {HML : SlptMemoryLaws S}
  {HI : SlptInvalidator I} {HIL : SlptInvalidatorLaws I}.
Implicit Types (w : world S I).

(** C5: In every state that an attached page-table core reaches, whatever
    memory and invalidation failures happen on the way, the hardware walk of a
    device address finds a translation exactly when the ledger holds a live
    mapping of that address, it finds that mapping's leaf, and no two device
    pages lead to one physical page. *)
Theorem translation_is_ledger N config f w0 w v e :
  fresh N config f w0 → rtc step w0 w → iova_ok (slpt w) v →
  (translate w v = Some e ↔ maps (slpt w) v e) ∧
  (translate w v = Some e → ∀ v' e', iova_ok (slpt w) v' → translate w v' = Some e' →
     Z.land e' PHYSICAL_PAGE_MASK = Z.land e PHYSICAL_PAGE_MASK → v' = v).
Proof.
  intros Hf Hrun Hv. pose proof (reachable_inv _ _ _ _ _ Hf Hrun) as Hinv. split; [by apply translate_ok|].
  intros Htr v' e' Hv' Htr' Heq.
  destruct (reaches_record w v e Hinv (or_intror (conj Hv Htr))) as (i & r & Hr & <- & _ & Hp).
  destruct (reaches_record w v' e' Hinv (or_intror (conj Hv' Htr'))) as (j & x & Hx & <- & _ & Hq).
  destruct Hinv as (n & leaves & [_ _ _ Hl] & _).
  assert (j = i) as -> by (apply (lg_physical _ _ _ Hl j i x r); [done..|congruence]).
  by rewrite (holds_unique _ _ _ _ Hx Hr).
Qed.

(** C6: When an unmap, a cancelled map or a finished unmap reports completion,
    the device can reach the page neither through the tables nor through any
    translation it may have cached: nothing leads from the unmapped address, and
    nothing leads to the unmapped physical page. *)
Theorem completed_unmap_unreachable N config f w0 w c h w' :
  fresh N config f w0 → rtc step w0 w → unmaps c h → 0 <= MappingHandle.slot h →
  run c w = Done (inr Complete) w' →
  ∃ i s r, names (slpt w) h i s r ∧
    ∀ v e, reaches w' v e →
      v ≠ MappingRecord.iova r ∧ Z.land e PHYSICAL_PAGE_MASK ≠ MappingRecord.physical_address r.
Proof.
  intros Hf Hrun Hc Hh Hdone. pose proof (reachable_inv _ _ _ _ _ Hf Hrun) as Hinv.
  destruct (complete_ok w c h w' Hinv Hc Hh Hdone) as (i & s & r & Hn & Hinv' & Ha).
  exists i, s, r. split; [done|]. intros v e Hre. by apply (retired_unreachable w w' h i s r v e).
Qed.

(** C25: [map_page] never panics.  When it succeeds the device sees exactly one
    new translation, the physical page with the requested permissions; when it
    fails the device sees what it saw before, and unless the core is poisoned
    the ledger and every table are unchanged, links made on the way included. *)
Theorem map_page_decided N config f w0 w v pa perm :
  fresh N config f w0 → rtc step w0 w → u64 v → u64 pa →
  match map_page v pa perm w with
  | Done _ w' => ∃ bits, DmaPermissions.bits perm = Ok bits ∧ ∀ u e, iova_ok (slpt w) u →
      translate w' u = Some e ↔ (u = v ∧ e = Z.lor pa bits) ∨ translate w u = Some e
  | Fail _ w' => (∀ u, iova_ok (slpt w) u → translate w' u = translate w u) ∧
      (state (slpt w') = Operational → slpt w' = slpt w ∧ T w' = T w)
  | Panic => False
  end.
Proof.
  intros Hf Hrun Hv Hpa. pose proof (reachable_inv _ _ _ _ _ Hf Hrun) as Hinv.
  pose proof (map_page_ok w v pa perm Hinv Hv Hpa) as Hwp. unfold wp in Hwp.
  destruct (map_page v pa perm w) as [o w'|e w'|]; [| |done].
  - destruct Hwp as [Hmap Hinv']. destruct (maps_filled _ _ _ _ _ _ 0 0 Hmap) as (bits & Hb & _).
    exists bits. split; [done|]. intros u e Hu. destruct (maps_filled _ _ _ _ _ _ u e Hmap) as (bits' & Hb' & Hiff).
    assert (iova_ok (slpt w') u) by (by destruct Hmap as (i & s & r & ? & _ & _ & -> & _)).
    rewrite Hb in Hb'. injection Hb' as <-. by rewrite !translate_ok, Hiff.
  - pose proof Hwp as (Hor & _ & Hinv'). split.
    + intros u Hu. apply translate_maps; try done; [by destruct Hor as [[-> _]| ->]|].
      intros x. by apply maps_refused.
    + destruct Hor as [?| ->]; done.
Qed.

(** [unmap_page] never panics.  When it succeeds, at once or pending a later
    invalidation or cleanup, exactly the translation of the named mapping is
    gone from the tables; when it fails no translation appears. *)
Theorem unmap_page_decided N config f w0 w h :
  fresh N config f w0 → rtc step w0 w → 0 <= MappingHandle.slot h →
  match unmap_page h w with
  | Done _ w' => ∃ i s r, names (slpt w) h i s r ∧ ∀ u e, iova_ok (slpt w) u →
      translate w' u = Some e ↔ u ≠ MappingRecord.iova r ∧ translate w u = Some e
  | Fail _ w' => ∀ u e, iova_ok (slpt w) u → translate w' u = Some e → translate w u = Some e
  | Panic => False
  end.
Proof.
  intros Hf Hrun Hh. pose proof (reachable_inv _ _ _ _ _ Hf Hrun) as Hinv.
  pose proof (withdraw_ok Active InvalidPhase w h Hinv Hh (or_introl eq_refl)) as Hwp. unfold wp in Hwp.
  change (withdraw Active InvalidPhase h w) with (unmap_page h w) in Hwp.
  destruct (unmap_page h w) as [o w'|e w'|]; [| |done].
  - destruct Hwp as (i & s & r & Hn & _ & Hu). pose proof Hu as (Hinv' & _ & Hor). exists i, s, r. split; [done|].
    intros u e Hio. assert (iova_ok (slpt w') u) by (by destruct Hor as [[_ ->]|(? & ? & _ & _ & ->)]).
    rewrite !translate_ok by done. by eapply maps_unmapped.
  - intros u x Hio. destruct Hwp as [Href|(i & s & r & Hn & _ & Hlost)].
    + pose proof Href as (Hor & _ & Hinv'). rewrite !translate_ok, maps_refused by (done || by destruct Hor as [[-> _]| ->]). done.
    + pose proof Hlost as (Hinv' & _ & r' & _ & Ha).
      rewrite !translate_ok by (done || by rewrite Ha). rewrite (maps_lost w h i s r w') by done. by intros [_ ?].
Qed.

(** C28: While the core is operational no table leaks: every table frame it
    holds lies on the path of a mapping it still tracks, so when the last
    mapping is gone only the root is left. *)
Theorem tables_reclaimed N config f w0 w :
  fresh N config f w0 → rtc step w0 w → state (slpt w) = Operational →
  (∀ g, is_Some (T w !! g) → g = root (slpt w) ∨ retained (slpt w) g) ∧
  ((∀ i r, ¬ holds (slpt w) i r) → ∀ g, is_Some (T w !! g) ↔ g = root (slpt w)).
Proof.
  intros Hf Hrun Hop. destruct (reachable_inv _ _ _ _ _ Hf Hrun) as (n & leaves & [_ _ Ht _] & Hcl & _).
  specialize (Hcl Hop).
  assert (∀ g, is_Some (T w !! g) → g = root (slpt w) ∨ retained (slpt w) g) as Hall.
  { intros g Hg. destruct (cl_dom _ _ _ _ Hcl g Hg) as [p Hp].
    destruct (cl_support _ _ _ _ Hcl p g Hp) as [->|(i & r & k & _ & Hr & Hk & _ & Hfr)].
    - left. rewrite (tree_root _ _ _ _ _ Ht) in Hp. congruence.
    - right. by exists i, r, k. }
  split; [done|]. intros Hnone g. split.
  - intros Hg. destruct (Hall g Hg) as [?|(i & r & _ & Hr & _)]; [done|by destruct (Hnone i r)].
  - intros ->. destruct (tree_table _ _ _ _ _ Ht _ _ (tree_root _ _ _ _ _ Ht)) as (l & Hl & _). by eexists.
Qed.

(** Every call on an attached core returns: no index, no subtraction and no
    unwrap can panic, and the loop that reclaims tables ends within the five
    turns that a path allows. *)
Theorem every_call_returns N config f w0 w c :
  fresh N config f w0 → rtc step w0 w → call_ok c →
  (∃ o w', run c w = Done o w') ∨ (∃ e w', run c w = Fail e w').
Proof.
  intros Hf Hrun Hc. pose proof (slpt_run_ok w c (reachable_inv _ _ _ _ _ Hf Hrun) Hc) as Hwp.
  unfold wp in Hwp. destruct (run c w); [left|right|done]; eauto.
Qed.

(** A handle dies with its mapping: once an unmap of it has completed, in
    every later state no call finds a mapping under the handle and [map_page]
    does not issue it again, also when the slot's generation counter is exhausted. *)
Theorem handle_dies N config f w0 w c h w' w'' :
  fresh N config f w0 → rtc step w0 w → unmaps c h → 0 <= MappingHandle.slot h →
  run c w = Done (inr Complete) w' → rtc step w' w'' →
  (∀ i s r, ¬ names (slpt w'') h i s r) ∧
  ∀ v pa perm o w3, u64 v → u64 pa → map_page v pa perm w'' = Done o w3 →
    o ≠ MapActive h ∧ ∀ cause, o ≠ MapPending h cause.
Proof.
  intros Hf Hrun Hc Hh Hdone Hlater. pose proof (reachable_inv _ _ _ _ _ Hf Hrun) as Hinv.
  destruct (complete_ok w c h w' Hinv Hc Hh Hdone) as (i & s & r & Hn & Hinv' & Ha).
  destruct (dead_run w' w'' h Hinv' Hlater) as [Hinv'' Hdead]; [rewrite Ha; by eapply retired_dead|].
  split; [intros j s' r'; by apply dead_unnamed|]. intros v pa perm o w3 Hv Hpa Hmap.
  destruct (wp_Done _ _ _ _ _ _ (map_page_ok w'' v pa perm Hinv'' Hv Hpa) Hmap) as [Hm _]. split.
  - intros ->. eapply mapped_not_dead; [done|by left|done].
  - intros cause ->. eapply mapped_not_dead; [done|right; by eexists|done].
Qed.

(** For an address the core accepts, every level's index lies inside a table
    of 512 entries, and every translation is a nonzero entry below [2 ^ 52] with
    at least one permission and no bit outside address and permissions. *)
Theorem entries_bounded N config f w0 w v :
  fresh N config f w0 → rtc step w0 w → iova_ok (slpt w) v →
  (∀ p, 0 <= p < levels (slpt w) →
     ∃ k, index_at (E:=SlptFault) (slpt w) v p w = Done k w ∧ 0 <= k < ENTRIES_PER_TABLE) ∧
  ∀ e, translate w v = Some e →
    0 < e < 2 ^ 52 ∧ 1 <= Z.land e PERMISSION_MASK <= 3 ∧
    e = Z.lor (Z.land e PHYSICAL_PAGE_MASK) (Z.land e PERMISSION_MASK).
Proof.
  intros Hf Hrun Hv. pose proof (reachable_inv _ _ _ _ _ Hf Hrun) as Hinv.
  pose proof Hinv as (n & leaves & [Hc _ _ Hl] & _). split.
  - intros p Hp. assert (wp (E:=SlptFault) (index_at (slpt w) v p) (λ k w', w' = w ∧ index_ok k) (λ _ _, False) w) as Hwp.
    { replace p with (Z.of_nat (Z.to_nat p)) by lia. apply index_at_ok; [done|unfold depth; lia|]. intros k Hk.
      split; [done|]. by eapply (proj1 (Forall_lookup _ _) (path_of_ok _ _)). }
    destruct (wp_total _ _ _ Hwp) as (k & w' & Heq & -> & Hk). by exists k.
  - intros e (i & r & Hr & _ & _ & <-)%translate_ok; [|done..]. pose proof (lg_record _ _ _ Hl _ _ Hr) as Hok.
    destruct (rec_leaf _ _ Hok) as (bits & Hb & ->). destruct (rec_physical _ _ Hok) as [Hu Hp].
    pose proof (physical_ok _ Hu Hp) as Hm. rewrite entry_permissions, entry_address by (done || lia). split_and!; try lia.
    + assert (0 <= Z.lor (MappingRecord.physical_address r) bits) by (apply Z.lor_nonneg; destruct Hu; lia).
      assert (Z.lor (MappingRecord.physical_address r) bits ≠ 0) by (intros Hz; apply Z.lor_eq_0_iff in Hz; lia). lia.
    + assert (in_width 52 (Z.lor (MappingRecord.physical_address r) bits)) as [_ ?]; [|done].
      apply in_width_lor; [| |lia].
      * rewrite <-Hm, Z.land_comm. apply in_width_land; [done|destruct Hu; lia|lia].
      * split; [lia|]. apply Z.lt_trans with 4; [lia|done].
Qed.

(** C38: A dying mapping whose next table to give back is gone never leaves.  Suppose
    that, in a reachable state, the unmap behind [h] is pending, still has a table
    below the root to give back, and the memory no longer holds that table - the
    state left behind when the last other mapping in a shared table is unmapped
    first.  Then in every later state, whatever calls are made and whether or not the
    hardware fails again, the record keeps its slot, its address and its physical
    page; [finish_unmap] reports the unmap as still pending, with a cleanup error
    once the invalidation has gone through, or refuses because the core is poisoned;
    the core never holds that table again without being poisoned; and no map of the
    same device or physical page succeeds. *)
Theorem stranded_unmap_never_completes N config f w0 w w' h i s r c :
  fresh N config f w0 → rtc step w0 w → names (slpt w) h i s r → ¬ live r →
  (1 < retained_depth (slpt w) r)%nat → rframes r !! (retained_depth (slpt w) r - 1)%nat = Some c →
  T w !! c = None → rtc step w w' →
  (∃ s' r', names (slpt w') h i s' r' ∧ settled r r' ∧
     match finish_unmap h w' with
     | Done o _ => (∃ e, o = UnmapPending h (Cleanup e)) ∨
         (∃ e, o = UnmapPending h (Invalidation e)) ∧ MappingRecord.phase r' = AwaitingUnmapInvalidation
     | Fail e w2 => e = PoisonedFault ∧ w2 = w'
     | Panic => False
     end) ∧
  (T w' !! c = None ∨ state (slpt w') = Poisoned) ∧
  ∀ v pa perm o w2, u64 v → u64 pa → map_page v pa perm w' = Done o w2 →
    v ≠ MappingRecord.iova r ∧ pa ≠ MappingRecord.physical_address r.
Proof.
  intros Hf Hrun Hn Hdy Hdeep Htab Hgone Hlater. pose proof (reachable_inv _ _ _ _ _ Hf Hrun) as Hinv.
  destruct (stuck_run w w' h i r c Hinv Hlater) as [Hinv' (s' & r' & Hset & Hst)].
  { exists s, r. split; [by left|]. split; auto. }
  pose proof (sd_names _ _ _ _ _ _ Hst) as Hn'. split_and!.
  - exists s', r'. split_and!; [done..|]. pose proof (finish_unmap_stranded w' h i s' r' c Hinv' Hst) as Hwp.
    unfold wp in Hwp. destruct (finish_unmap h w'); naive_solver.
  - apply Hst.
  - intros v pa perm o w2 Hv Hpa Hmap.
    destruct (wp_Done _ _ _ _ _ _ (map_page_ok w' v pa perm Hinv' Hv Hpa) Hmap) as [Hm Hinv2].
    assert (MappingRecord.iova r' = MappingRecord.iova r ∧
      MappingRecord.physical_address r' = MappingRecord.physical_address r) as [<- <-] by (by destruct Hset as [->| ->]).
    by eapply mapped_apart; [done|done|eapply names_holds].
Qed.
End claims.
End SlptClaims.
