(* ===== verification/VtdProperties.v ===== *)
(** * The page-table core over the direct-map memory

    A concrete machine: the core of [Slpt] over the direct-map memory of
    [VtdMemory], a pool of sixteen frames and a hardware whose invalidations
    fail on a script.  It satisfies the hypotheses of the theorems of
    [SlptProperties], and it shows what happens to a pending unmap whose leaf
    table is shared. *)
From S2P Require Import Prelude Paging Memory Frame Slpt SlptTree SlptLedger SlptPath SlptOps SlptRuns SlptProperties VtdMemory.
Import Slpt.

(** ** A hardware with a script of failing invalidations *)

Module ScriptedHardware.
Record t := mk { script : list bool; cache : list (Z * Z) }.

Definition invalidate (v : Z) : M t Z unit := λ i,
  let kept := filter (λ p, p.1 ≠ v) (cache i) in
  match script i with
  | [] => Done () (mk [] kept)
  | true :: rest => Fail 11 (mk rest (cache i))
  | false :: rest => Done () (mk rest kept)
  end.

#[global] Instance invalidator : SlptInvalidator t := {| invalidate_after_page_table_change := invalidate |}.

Lemma invalidate_law i v :
  wp (invalidate v)
    (λ _ i', cache i' ⊆ cache i ∧ ∀ e, (v, e) ∉ cache i') (λ _ i', cache i' ⊆ cache i) i.
Proof.
  unfold wp, invalidate. destruct (script i) as [|[] rest]; simpl; [|done|]; split;
    [intros x|intros e|intros x|intros e]; rewrite list_elem_of_filter; naive_solver.
Qed.

Definition shrinks (i i' : t) : Prop := cache i' ⊆ cache i.
#[global] Instance shrinks_preorder : PreOrder shrinks.
Proof. unfold shrinks. split; [by intros x|]. intros x y z Hxy Hyz. by etrans. Qed.

#[global, refine] Instance invalidator_laws : SlptInvalidatorLaws t := {
  inval_ok _ := True;
  cached i v e := (v, e) ∈ cache i;
  ages := shrinks;
  ages_preorder := shrinks_preorder;
}.
Proof.
  - done.
  - intros i i' v e Hsub. apply Hsub.
  - intros i v _. apply invalidate_law.
Defined.
End ScriptedHardware.

(** ** The machine *)

Module VtdMachine.
Import BitmapFrameAllocator FrameFacts DirectMapSlptMemory DirectMapFacts.

Abbreviation machine := (world DirectMapSlptMemory.t ScriptedHardware.t).

(** Frames 1 to 15 are free, frame 0 is reserved. *)
Definition pool : BitmapFrameAllocator.t :=
  match reserve_range (E:=unit) 0 4096 FrameProperties.boot with Done _ a => a | _ => FrameProperties.boot end.

Definition base : Z := 0xffff800000000000.
Definition blank : DirectMapSlptMemory.t := DirectMapSlptMemory.new 8 pool base 65536 ∅.
Definition root_frame : Z := 4096.
Definition take_root : M DirectMapSlptMemory.t SlptMemoryError SlptFrame :=
  f ← allocate_table; zero_table f ;; mret f.
Definition memory0 : DirectMapSlptMemory.t := match take_root blank with Done _ m => m | _ => blank end.
Definition config : SlptConfig.t := SlptConfig.mk 1 39 0.
Definition core : Slpt.t :=
  match attach 4 memory0 root_frame config with Ok a => a | Err _ => Slpt.mk 0 0 0 [] Poisoned end.

Definition start (script : list bool) : machine := World core memory0 (ScriptedHardware.mk script []).


(** Calls one after another, with their results. *)
Fixpoint after (cs : list call) (w : machine) : list (result (MapOutcome + UnmapOutcome) SlptFault) * machine :=
  match cs with
  | [] => ([], w)
  | c :: cs' =>
    match run c w with
    | Done o w' => let '(l, w'') := after cs' w' in (Ok o :: l, w'')
    | Fail e w' => let '(l, w'') := after cs' w' in (Err e :: l, w'')
    | Panic => ([], w)
    end
  end.

Lemma after_steps cs w : Forall call_ok cs → rtc step w (snd (after cs w)).
Proof.
  intros Hok. revert w. induction Hok as [|c cs Hc Hok IH]; intros w; [done|]. simpl.
  destruct (run c w) as [o w'|e w'|] eqn:Hrun; [| |done]; specialize (IH w'); destruct (after cs w') as [l w''].
  - eapply rtc_l; [by eapply step_done|exact IH].
  - eapply rtc_l; [by eapply step_fail|exact IH].
Qed.

(** ** The machine satisfies the hypotheses *)

Lemma pool_wf : wf pool.
Proof.
  pose proof (FrameOps.reserve_range_ok (E:=unit) 0 4096 FrameProperties.boot (λ _ _, False)
    FrameProperties.boot_wf ltac:(done) ltac:(done)) as Hwp.
  assert (reserve_range (E:=unit) 0 4096 FrameProperties.boot = Done () pool) as Hrun by (vm_compute; reflexivity).
  pose proof (wp_Done _ _ _ _ _ _ Hwp Hrun) as Heff. exact (FrameOps.le_wf _ _ _ _ _ Heff).
Qed.

Lemma blank_ok : ok blank ∧ tables blank = ∅.
Proof.
  assert (∀ f, Some f ∉ owned blank) as Hnone by (intros f Hf; by apply elem_of_replicate in Hf as [? _]). split.
  - split; [apply pool_wf| |].
    + intros i j f Hi. destruct (Hnone f). by eapply list_elem_of_lookup_2.
    + intros f Hf. by destruct (Hnone f).
  - apply map_eq. intros f. rewrite lookup_empty. apply eq_None_not_Some. intros [l [Hf _]%tables_spec]. by apply (Hnone f).
Qed.

Lemma memory0_ok : ok memory0 ∧ ∃ l, tables memory0 = {[root_frame := l]}.
Proof.
  destruct blank_ok as [Hok Hempty].
  assert (wp take_root (λ f m, ok m ∧ ∃ l, tables m = {[f := l]}) (λ _ _, True) blank) as Hwp.
  { unfold take_root. rewrite wp_bind. eapply wp_mono; [by apply allocate_table_law| |done].
    intros f m (Hm & _ & _ & l & _ & HT). rewrite Hempty in HT. rewrite wp_bind.
    eapply wp_mono; [eapply zero_table_law; [done|rewrite HT; apply lookup_insert_eq]| |done].
    intros [] m' (Hm' & HT'). rewrite wp_ret. split; [done|]. eexists. rewrite HT', HT, insert_insert_eq. done. }
  destruct (value_done (take_root blank) root_frame) as [m Hrun]; [vm_compute; reflexivity|].
  unfold memory0. rewrite Hrun. exact (wp_Done _ _ _ _ _ _ Hwp Hrun).
Qed.

Lemma start_fresh script : fresh 4 config root_frame (start script).
Proof.
  destruct memory0_ok as [Hok [l HT]]. split.
  - done.
  - split; [done|]. vm_compute. reflexivity.
  - exact Hok.
  - intros f. change (T (start script)) with (tables memory0). rewrite HT. split.
    + by intros [x [? _]%lookup_singleton_Some].
    + intros ->. exists l. apply lookup_singleton_eq.
  - exact I.
  - intros v e Hv. by apply elem_of_nil in Hv.
  - vm_compute. reflexivity.
Qed.

Definition h0 : MappingHandle.t := MappingHandle.mk 0 1.
Definition h1 : MappingHandle.t := MappingHandle.mk 1 1.
Definition two_maps : list call :=
  [MapPage 0 0x20000 DmaPermissions.READ_WRITE; MapPage 0x1000 0x21000 DmaPermissions.READ_ONLY].
Definition mapped_state : machine := snd (after two_maps (start [])).

Lemma mapped_reached : rtc step (start []) mapped_state.
Proof. apply after_steps. repeat constructor; done. Qed.
Lemma page_ok v : 0 <= v < 2 ^ 18 → iova_ok (slpt mapped_state) (v * 4096).
Proof.
  intros Hv. split; [unfold in_width; lia|]. unfold validate_iova.
  replace (Z.land (v * 4096) (Slpt.PAGE_SIZE - 1)) with 0.
  2:{ change (Slpt.PAGE_SIZE - 1) with (Z.ones 12). rewrite Z.land_ones by lia. symmetry. apply Z_mod_mult. }
  unfold checked_add. change (Slpt.PAGE_SIZE - 1) with 4095.
  destruct (Z.ltb_spec (v * 4096 + 4095) (2 ^ 64)); [|lia]. change (adjusted_width (slpt mapped_state)) with 30.
  change (Z.shiftl 1 30) with (2 ^ 30). simpl (30 <? 64). destruct (Z.leb_spec (2 ^ 30) (v * 4096 + 4095)); [lia|done].
Qed.
End VtdMachine.

Module VtdClaims.
Import BitmapFrameAllocator FrameFacts DirectMapSlptMemory DirectMapFacts VtdMachine SlptClaims.

(** Over the direct-map memory, in every state the core reaches, each of its
    tables is recorded by the adapter, once, and is at the same time an
    allocated, unreserved frame of the shared pool below the end of the direct
    map, so the pool cannot hand it to anyone else. *)
Theorem tables_owned_in_pool {I} `{!SlptInvalidator I, !SlptInvalidatorLaws I}
    N config f (w0 w : world DirectMapSlptMemory.t I) g :
  fresh N config f w0 → rtc step w0 w → is_Some (T w !! g) →
  owns (memory w) g = true ∧ FrameOps.releasable (frames (memory w)) (g / Paging.PAGE_SIZE) ∧
  0 < g ∧ g + Paging.PAGE_SIZE <= mapped_physical_limit (memory w) ∧
  ∀ i j, owned (memory w) !! i = Some (Some g) → owned (memory w) !! j = Some (Some g) → i = j.
Proof.
  intros Hf Hrun [l [Hg _]%tables_spec]. destruct (reachable_inv _ _ _ _ _ Hf Hrun) as (_ & _ & [_ Hm _ _] & _).
  pose proof (ok_held _ Hm g Hg) as [Hok Hi Hp Hptr]. apply frame_ok_spec in Hok as ([? _] & ? & _).
  split_and!; [by apply owns_spec|done|lia| |intros i j; by apply (ok_once _ Hm i j g)].
  unfold pointer, checked_add in Hptr. destruct (_ <? 2 ^ 64); [|done].
  destruct (Z.ltb_spec (mapped_physical_limit (memory w)) (g + Paging.PAGE_SIZE)); [done|lia].
Qed.

(** How a mapping is stranded, and what follows.  Two mappings share a leaf table; the
    invalidation of the first unmap fails, so it stays pending; the second unmap
    completes and releases the shared table.  The pending unmap then reports a cleanup
    error on both retries, although no further operation of the hardware fails, and
    the next [map_page] is refused with [FrameAlias] and poisons the core. *)
Lemma shared_table_strands_cleanup :
  fst (after (two_maps ++ [UnmapPage h0; UnmapPage h1; FinishUnmap h0; FinishUnmap h0;
                           MapPage 0x2000 0x22000 DmaPermissions.READ_ONLY; FinishUnmap h0])
         (start [false; false; true])) =
  [Ok (inl (MapActive h0)); Ok (inl (MapActive h1));
   Ok (inr (UnmapPending h0 (Invalidation 11))); Ok (inr Complete);
   Ok (inr (UnmapPending h0 (Cleanup UNKNOWN_FRAME))); Ok (inr (UnmapPending h0 (Cleanup UNKNOWN_FRAME)));
   Err FrameAlias; Err PoisonedFault].
Proof. vm_compute. reflexivity. Qed.

(** When frame zero is the next free frame of the pool, [allocate_table] gives it
    back and is in the same state as before: it fails for ever, whatever else is
    free. *)
Theorem frame_zero_starves :
  let m := DirectMapSlptMemory.new 8 FrameProperties.boot base 65536 ∅ in
  allocate_table m = Fail INVALID_FRAME m ∧ free_frames (frames m) = 16.
Proof. split; vm_compute; reflexivity. Qed.

(** ** Witnesses *)

Lemma page1_ok : iova_ok (slpt mapped_state) 0x1000.
Proof. by apply (page_ok 1). Qed.
Lemma page2_ok : iova_ok (slpt mapped_state) 0x2000.
Proof. by apply (page_ok 2). Qed.
Lemma h0_slot : 0 <= MappingHandle.slot h0.
Proof. done. Qed.
Lemma h1_slot : 0 <= MappingHandle.slot h1.
Proof. done. Qed.
Lemma page2_width : u64 0x2000 ∧ u64 0x22000.
Proof. done. Qed.
Lemma unmap_h0_completes : ∃ w', run (UnmapPage h0) mapped_state = Done (inr Complete) w'.
Proof. apply value_done. vm_compute. reflexivity. Qed.

Lemma translation_is_ledger_witness :
  translate mapped_state 0x1000 = Some 0x21001 ∧ maps (slpt mapped_state) 0x1000 0x21001.
Proof.
  assert (translate mapped_state 0x1000 = Some 0x21001) as Htr by (vm_compute; reflexivity). split; [exact Htr|].
  destruct (translation_is_ledger 4 config root_frame (start []) mapped_state 0x1000 0x21001
    (start_fresh _) mapped_reached page1_ok) as [[Hmaps _] _]. exact (Hmaps Htr).
Defined.

Lemma completed_unmap_unreachable_witness :
  ∃ w', run (UnmapPage h0) mapped_state = Done (inr Complete) w' ∧
  ∃ i s r, names (slpt mapped_state) h0 i s r ∧
    ∀ v e, reaches w' v e →
      v ≠ MappingRecord.iova r ∧ Z.land e PHYSICAL_PAGE_MASK ≠ MappingRecord.physical_address r.
Proof.
  destruct unmap_h0_completes as [w' Hrun]. exists w'. split; [exact Hrun|].
  exact (completed_unmap_unreachable 4 config root_frame (start []) mapped_state (UnmapPage h0) h0 w'
    (start_fresh _) mapped_reached (or_introl eq_refl) h0_slot Hrun).
Defined.

Lemma map_page_decided_witness :
  ∃ w', map_page 0x2000 0x22000 DmaPermissions.READ_WRITE mapped_state = Done (MapActive (MappingHandle.mk 2 1)) w' ∧
    translate w' 0x2000 = Some 0x22003.
Proof.
  pose proof (map_page_decided 4 config root_frame (start []) mapped_state 0x2000 0x22000 DmaPermissions.READ_WRITE
    (start_fresh _) mapped_reached (proj1 page2_width) (proj2 page2_width)) as Hdec.
  destruct (value_done (map_page 0x2000 0x22000 DmaPermissions.READ_WRITE mapped_state)
    (MapActive (MappingHandle.mk 2 1))) as [w' Heq]; [vm_compute; reflexivity|].
  rewrite Heq in Hdec. exists w'. split; [exact Heq|]. destruct Hdec as (bits & [= <-] & Hiff).
  destruct (Hiff 0x2000 0x22003 page2_ok) as [_ Hback]. apply Hback. left. split; reflexivity.
Defined.

Lemma unmap_page_decided_witness :
  ∃ w', unmap_page h1 mapped_state = Done Complete w' ∧ translate w' 0x1000 = None.
Proof.
  pose proof (unmap_page_decided 4 config root_frame (start []) mapped_state h1 (start_fresh _) mapped_reached
    h1_slot) as Hdec.
  destruct (value_done (unmap_page h1 mapped_state) Complete) as [w' Heq]; [vm_compute; reflexivity|].
  rewrite Heq in Hdec. exists w'. split; [exact Heq|]. destruct Hdec as (i & s & r & (Hi & Hs & _ & Hr) & Hiff).
  assert (i = 1%nat) as -> by (clear -Hi; simpl in Hi; lia).
  destruct (translate w' 0x1000) as [e|] eqn:He; [|reflexivity]. exfalso.
  apply (Hiff 0x1000 e page1_ok) in He as [Hne _]. apply Hne. clear -Hs Hr.
  assert (MappingRecord.iova <$> (slots (slpt mapped_state) !! 1%nat ≫= MappingSlot.record) = Some 0x1000) as Hv
    by (vm_compute; reflexivity).
  rewrite Hs in Hv. simpl in Hv. rewrite Hr in Hv. by injection Hv.
Defined.

Lemma tables_reclaimed_witness :
  fst (after (two_maps ++ [UnmapPage h0; UnmapPage h1]) (start [])) =
    [Ok (inl (MapActive h0)); Ok (inl (MapActive h1)); Ok (inr Complete); Ok (inr Complete)] ∧
  ∀ g, is_Some (T (snd (after (two_maps ++ [UnmapPage h0; UnmapPage h1]) (start []))) !! g) ↔ g = root_frame.
Proof.
  split; [vm_compute; reflexivity|].
  destruct (tables_reclaimed 4 config root_frame (start []) _ (start_fresh _)
    (after_steps (two_maps ++ [UnmapPage h0; UnmapPage h1]) (start []) ltac:(repeat constructor; done))
    ltac:(vm_compute; reflexivity)) as [_ Hroot].
  apply Hroot. intros i r (s & Hs & Hr).
  assert (Forall (λ x, MappingSlot.record x = None)
    (slots (slpt (snd (after (two_maps ++ [UnmapPage h0; UnmapPage h1]) (start [])))))) as Hall
    by (vm_compute; repeat constructor).
  pose proof (Forall_lookup_1 _ _ _ _ Hall Hs) as Hno. simpl in Hno. clear -Hno Hr. congruence.
Defined.

(** The machine after the first unmap was left pending and the second completed. *)
Definition stranded_state : machine :=
  snd (after (two_maps ++ [UnmapPage h0; UnmapPage h1]) (start [false; false; true])).

Lemma stranded_reached : rtc step (start [false; false; true]) stranded_state.
Proof. apply after_steps. repeat constructor; done. Qed.

Lemma stranded_record :
  ∃ s r, names (slpt stranded_state) h0 0 s r ∧ ¬ live r ∧ (1 < retained_depth (slpt stranded_state) r)%nat ∧
    rframes r !! (retained_depth (slpt stranded_state) r - 1)%nat = Some 8192 ∧ MappingRecord.iova r = 0.
Proof.
  eexists _, _. split; [split; [reflexivity|split; [vm_compute; reflexivity|split; reflexivity]]|].
  split; [intros [Hp|Hp]; discriminate Hp|]. split; [vm_compute; repeat constructor|].
  split; vm_compute; reflexivity.
Qed.

Lemma stranded_table : T stranded_state !! 8192 = None.
Proof.
  apply eq_None_not_Some. intros [l [Hown _]%tables_spec]. apply owns_spec in Hown. vm_compute in Hown. discriminate Hown.
Qed.

Definition retried_state : machine := snd (after [FinishUnmap h0; FinishUnmap h0] stranded_state).

Lemma retried_reached : rtc step stranded_state retried_state.
Proof. apply after_steps. repeat constructor; done. Qed.
Lemma retry_pending : ∃ w', finish_unmap h0 retried_state = Done (UnmapPending h0 (Cleanup UNKNOWN_FRAME)) w'.
Proof. apply value_done. vm_compute. reflexivity. Qed.
Lemma page0_width : u64 0.
Proof. done. Qed.

Lemma stranded_unmap_never_completes_witness :
  (∃ s r, names (slpt retried_state) h0 0 s r) ∧
  (∃ w', finish_unmap h0 retried_state = Done (UnmapPending h0 (Cleanup UNKNOWN_FRAME)) w') ∧
  ∀ pa perm o w', u64 pa → map_page 0 pa perm retried_state ≠ Done o w'.
Proof.
  destruct stranded_record as (s & r & Hn & Hdy & Hdeep & Htab & Hv).
  destruct (stranded_unmap_never_completes 4 config root_frame (start [false; false; true]) stranded_state retried_state
    h0 0 s r 8192 (start_fresh _) stranded_reached Hn Hdy Hdeep Htab stranded_table retried_reached)
    as ((s' & r' & Hn' & _ & _) & _ & Hmap).
  split; [exists s', r'; exact Hn'|]. split; [exact retry_pending|].
  intros pa perm o w' Hpa Hdone. destruct (Hmap 0 pa perm o w' page0_width Hpa Hdone) as [Hne _]. exact (Hne (eq_sym Hv)).
Defined.

Lemma every_call_returns_witness :
  (∃ o w', run (UnmapPage h0) mapped_state = Done o w') ∨ (∃ e w', run (UnmapPage h0) mapped_state = Fail e w').
Proof.
  exact (every_call_returns 4 config root_frame (start []) mapped_state (UnmapPage h0)
    (start_fresh _) mapped_reached h0_slot).
Defined.

Lemma handle_dies_witness :
  ∃ w', run (UnmapPage h0) mapped_state = Done (inr Complete) w' ∧ ∀ i s r, ¬ names (slpt w') h0 i s r.
Proof.
  destruct unmap_h0_completes as [w' Hrun]. exists w'. split; [exact Hrun|].
  destruct (handle_dies 4 config root_frame (start []) mapped_state (UnmapPage h0) h0 w' w' (start_fresh _)
    mapped_reached (or_introl eq_refl) h0_slot Hrun (rtc_refl _ _)) as [Hgone _]. exact Hgone.
Defined.

Lemma entries_bounded_witness :
  ∃ k, index_at (E:=SlptFault) (slpt mapped_state) 0x1000 1 mapped_state = Done k mapped_state ∧
    0 <= k < ENTRIES_PER_TABLE.
Proof.
  destruct (entries_bounded 4 config root_frame (start []) mapped_state 0x1000 (start_fresh _) mapped_reached
    page1_ok) as [Hidx _].
  apply (Hidx 1). split; vm_compute; [discriminate|reflexivity].
Defined.

Lemma tables_owned_in_pool_witness :
  is_Some (T mapped_state !! 8192) ∧ owns (memory mapped_state) 8192 = true.
Proof.
  assert (is_Some (T mapped_state !! 8192)) as Hs.
  { exists (page (memory mapped_state) 8192). apply tables_spec. split; [|reflexivity].
    apply owns_spec. vm_compute. reflexivity. }
  split; [exact Hs|].
  destruct (tables_owned_in_pool 4 config root_frame (start []) mapped_state 8192 (start_fresh _) mapped_reached Hs)
    as [Howns _]. exact Howns.
Defined.
End VtdClaims.
