(* ===== verification/VtdEngine.v ===== *)
(** * The remapping engine

    Models the register engine of [kernel/boulder/src/hw/vtd.rs]: the probe, the
    enabling and disabling of translation with their rollbacks, and the commit
    of a table update.  Registers are reached through the source's trait
    [VtdRegisterBackend], here a class; [VtdMmioRegisters] implements it over a
    window of 32-bit registers. *)
From S2P Require Import Prelude Acpi Slpt VtdMemory VtdTables.

Definition PHYSICAL_ADDRESS_MASK : Z := 0x000fffffffffffff.
Definition REGISTER_WINDOW_BYTES : Z := 0x4000.
Definition VER : Z := 0x00.
Definition CAP : Z := 0x08.
Definition ECAP : Z := 0x10.
Definition GCMD : Z := 0x18.
Definition GSTS : Z := 0x1c.
Definition RTADDR : Z := 0x20.
Definition CCMD : Z := 0x28.
Definition FSTS : Z := 0x34.
Definition GCMD_TE : Z := Z.shiftl 1 31.
Definition GCMD_SRTP : Z := Z.shiftl 1 30.
Definition GCMD_WBF : Z := Z.shiftl 1 27.
Definition GSTS_TES : Z := Z.shiftl 1 31.
Definition GSTS_RTPS : Z := Z.shiftl 1 30.
Definition GSTS_AFLS : Z := Z.shiftl 1 28.
Definition GSTS_WBFS : Z := Z.shiftl 1 27.
Definition GSTS_QIES : Z := Z.shiftl 1 26.
Definition GSTS_IRES : Z := Z.shiftl 1 25.
Definition GSTS_CFIS : Z := Z.shiftl 1 23.
Definition GSTS_FOREIGN_OWNERSHIP : Z :=
  Z.lor (Z.lor (Z.lor (Z.lor (Z.lor GSTS_TES GSTS_AFLS) GSTS_WBFS) GSTS_QIES) GSTS_IRES) GSTS_CFIS.
Definition GSTS_PERSISTENT_COMMAND_STATE : Z :=
  Z.lor (Z.lor (Z.lor (Z.lor GSTS_TES GSTS_AFLS) GSTS_QIES) GSTS_IRES) GSTS_CFIS.
Definition CCMD_ICC : Z := Z.shiftl 1 63.
Definition CCMD_CIRG_GLOBAL : Z := Z.shiftl 1 61.
Definition CCMD_CAIG_SHIFT : Z := 59.
Definition CCMD_CAIG_MASK : Z := Z.shiftl 3 CCMD_CAIG_SHIFT.
Definition CCMD_CAIG_GLOBAL : Z := Z.shiftl 1 CCMD_CAIG_SHIFT.
Definition IOTLB_IVT : Z := Z.shiftl 1 63.
Definition IOTLB_IIRG_GLOBAL : Z := Z.shiftl 1 60.
Definition IOTLB_IAIG_SHIFT : Z := 57.
Definition IOTLB_IAIG_MASK : Z := Z.shiftl 3 IOTLB_IAIG_SHIFT.
Definition IOTLB_IAIG_GLOBAL : Z := Z.shiftl 1 IOTLB_IAIG_SHIFT.
Definition CAP_RWBF : Z := Z.shiftl 1 4.
Definition CAP_SAGAW_MASK : Z := Z.shiftl 0x0f 8.
Definition CAP_MGAW_SHIFT : Z := 16.
Definition CAP_MGAW_MASK : Z := Z.shiftl 0x3f CAP_MGAW_SHIFT.
Definition ECAP_IRO_SHIFT : Z := 8.
Definition ECAP_IRO_MASK : Z := Z.shiftl 0x3ff ECAP_IRO_SHIFT.
Definition FSTS_ITE : Z := Z.shiftl 1 6.

(** [value & mask != 0]. *)
Definition any_set (value mask : Z) : bool := negb (Z.land value mask =? 0).

(** ** Registers *)

Inductive VtdRegisterError := Access | Unstable.

(** The trait: an access may change the device, so it returns the registers. *)
Class VtdRegisterBackend (R : Type) := {
  read_u32 : Z → R → result Z VtdRegisterError * R;
  write_u32 : Z → Z → R → result unit VtdRegisterError * R;
  read_u64 : Z → R → result Z VtdRegisterError * R;
  write_u64 : Z → Z → R → result unit VtdRegisterError * R;
  relax : R → R;
}.

(** The registers mapped in a window; the window is a parameter, which
    [VtdWindow] fills in.
    Its errors are all reported as [Access]. *)
Module VtdMmioRegisters.
Section window.
Context {W : Type}.
Variable window_read : Z → W → option Z * W.
Variable window_write : Z → Z → W → option unit * W.

Definition access {A} (o : option A) : result A VtdRegisterError :=
  match o with Some a => Ok a | None => Err Access end.
Definition read32 (offset : Z) : M W VtdRegisterError Z := λ w,
  let '(o, w') := window_read offset w in lift (access o) w'.
Definition write32 (offset value : Z) : M W VtdRegisterError unit := λ w,
  let '(o, w') := window_write offset value w in lift (access o) w'.

(** [for _ in 0..n], high half first and again after the low half. *)
Fixpoint read_stable (n : nat) (offset : Z) : M W VtdRegisterError Z :=
  match n with
  | O => throw Unstable
  | S n' =>
    upper ← add 64 offset 4;
    high_before ← read32 upper;
    low ← read32 offset;
    high_after ← read32 upper;
    if high_before =? high_after then mret (Z.lor low (Z.shiftl high_after 32))
    else read_stable n' offset
  end.
Definition read64 (offset : Z) : M W VtdRegisterError Z :=
  if negb (Z.land offset 7 =? 0) then throw Access else read_stable 3 offset.
Definition write64 (offset value : Z) : M W VtdRegisterError unit :=
  if negb (Z.land offset 7 =? 0) then throw Access else
  write32 offset (wrap 32 value) ;;
  upper ← add 64 offset 4;
  write32 upper (wrap 32 (Z.shiftr value 32)).

(** An aligned offset leaves room for the upper half, so the sums above do not
    overflow and the accesses below do not reach [Panic]. *)
Definition settle {A} (m : M W VtdRegisterError A) (w : W) : result A VtdRegisterError * W :=
  match m w with Done a w' => (Ok a, w') | Fail e w' => (Err e, w') | Panic => (Err Access, w) end.
Definition backend : VtdRegisterBackend W := {|
  read_u32 offset := settle (read32 offset);
  write_u32 offset value := settle (write32 offset value);
  read_u64 offset := settle (read64 offset);
  write_u64 offset value := settle (write64 offset value);
  relax w := w;
|}.
End window.
End VtdMmioRegisters.

(** ** Types *)

Module VtdVersion.
Record t := mk { major : Z; minor : Z }.
End VtdVersion.

Module VtdCapabilities.
Record t := mk {
  raw : Z;
  extended_raw : Z;
  supported_adjusted_guest_widths : Z;
  maximum_guest_address_width : Z;
  requires_write_buffer_flush : bool;
  iotlb_register_offset : Z;
}.
End VtdCapabilities.

Module VtdEngineState.
Inductive t := Disabled | Enabled | ForeignOwned | Poisoned.
#[global] Instance t_eq_dec : EqDecision t.
Proof. solve_decision. Defined.
End VtdEngineState.

Module VtdOperation.
Inductive t :=
| WriteBufferFlush | RootTablePointer | ContextInvalidation | IotlbInvalidation
| EnableTranslation | DisableTranslation | Rollback.
End VtdOperation.

Module VtdEngineFault.
Inductive t :=
| InvalidUnit | InvalidRootTable | InvalidPollLimit | UnsupportedVersion | UnsupportedCapabilities
| ForeignOwnership | InvalidState | Register (e : VtdRegisterError) | MmioMap (status : Z)
| PendingCommand (o : VtdOperation.t) | Timeout (o : VtdOperation.t) | CompletionRejected (o : VtdOperation.t)
| HardwareInvalidationTimeout | RollbackFailed (o : VtdOperation.t).

Definition operation (self : t) : VtdOperation.t :=
  match self with
  | PendingCommand operation | Timeout operation | CompletionRejected operation | RollbackFailed operation =>
    operation
  | _ => VtdOperation.Rollback
  end.
End VtdEngineFault.

Module VtdEnableReceipt.
Record t := mk {
  segment : Z;
  register_base : Z;
  root_table_address : Z;
  version : VtdVersion.t;
  capabilities : VtdCapabilities.t;
}.
End VtdEnableReceipt.

Definition validate_register_base (register_base : Z) : result unit VtdEngineFault.t :=
  if (register_base =? 0) || negb (register_base mod Paging.PAGE_SIZE =? 0)
     || any_set register_base (bitnot 64 PHYSICAL_PAGE_MASK)
     || match checked_add 64 register_base (REGISTER_WINDOW_BYTES - 1) with
        | None => true
        | Some last => any_set last (bitnot 64 PHYSICAL_ADDRESS_MASK)
        end
  then Err VtdEngineFault.InvalidUnit else Ok ().
Definition validate_unit (unit : DmarRemappingUnit.t) : result () VtdEngineFault.t :=
  validate_register_base (DmarRemappingUnit.register_base unit).

(** ** The engine *)

Module VtdRemappingEngine.
Import VtdEngineState VtdEngineFault VtdOperation.

Record t (R : Type) := mk {
  segment : Z;
  register_base : Z;
  registers : R;
  version : VtdVersion.t;
  capabilities : VtdCapabilities.t;
  state : VtdEngineState.t;
  owned_root : option Z;
}.
Arguments mk {R}. Arguments segment {R}. Arguments register_base {R}. Arguments registers {R}.
Arguments version {R}. Arguments capabilities {R}. Arguments state {R}. Arguments owned_root {R}.

Definition with_registers {R} (r : R) (e : t R) : t R :=
  mk (segment e) (register_base e) r (version e) (capabilities e) (state e) (owned_root e).
Definition with_state {R} (s : VtdEngineState.t) (e : t R) : t R :=
  mk (segment e) (register_base e) (registers e) (version e) (capabilities e) s (owned_root e).
Definition with_root {R} (o : option Z) (e : t R) : t R :=
  mk (segment e) (register_base e) (registers e) (version e) (capabilities e) (state e) o.

Section engine.
Context {R : Type} `{VtdRegisterBackend R}.

(** A register access followed by [?]. *)
Definition register {A} (f : R → result A VtdRegisterError * R) : M R VtdEngineFault.t A := λ r,
  match f r with (Ok a, r') => Done a r' | (Err e, r') => Fail (Register e) r' end.
Definition on_registers {E A} (m : M R E A) : M (t R) E A := zoom registers with_registers m.
Definition set_state {E} (s : VtdEngineState.t) : M (t R) E unit := modify (with_state s).

(** *** Probing *)

Definition inspect (register_base : Z) :
    M R VtdEngineFault.t (VtdVersion.t * VtdCapabilities.t * VtdEngineState.t) :=
  lift (validate_register_base register_base) ;;
  version_raw ← register (read_u32 VER);
  let version := VtdVersion.mk (Z.land (Z.shiftr version_raw 4) 0x0f) (Z.land version_raw 0x0f) in
  if VtdVersion.major version =? 0 then throw UnsupportedVersion else
  capability_raw ← register (read_u64 CAP);
  extended_raw ← register (read_u64 ECAP);
  let supported := wrap 8 (Z.shiftr (Z.land capability_raw CAP_SAGAW_MASK) 8) in
  let maximum := wrap 8 (Z.shiftr (Z.land capability_raw CAP_MGAW_MASK) CAP_MGAW_SHIFT + 1) in
  let iotlb_register_offset := Z.shiftr (Z.land extended_raw ECAP_IRO_MASK) ECAP_IRO_SHIFT * 16 in
  if (supported =? 0) || negb ((30 <=? maximum) && (maximum <=? 64)) || (iotlb_register_offset =? 0)
     || match checked_add 64 iotlb_register_offset 16 with
        | None => true
        | Some last => REGISTER_WINDOW_BYTES <? last
        end
  then throw UnsupportedCapabilities else
  let capabilities :=
    VtdCapabilities.mk capability_raw extended_raw supported maximum (any_set capability_raw CAP_RWBF)
      iotlb_register_offset in
  status ← register (read_u32 GSTS);
  context ← register (read_u64 CCMD);
  let context_command_pending := any_set context CCMD_ICC in
  iotlb_command ← add 64 iotlb_register_offset 8;
  iotlb ← register (read_u64 iotlb_command);
  let iotlb_command_pending := any_set iotlb IOTLB_IVT in
  let state :=
    if any_set status GSTS_FOREIGN_OWNERSHIP || context_command_pending || iotlb_command_pending
    then ForeignOwned else Disabled in
  mret (version, capabilities, state).

(** A failed probe returns the registers: its state is theirs. *)
Definition probe_at (segment register_base : Z) : M R VtdEngineFault.t (t R) :=
  '(version, capabilities, state) ← inspect register_base;
  registers ← get;
  mret (mk segment register_base registers version capabilities state None).
Definition probe (unit : DmarRemappingUnit.t) : M R VtdEngineFault.t (t R) :=
  lift (validate_unit unit) ;;
  probe_at (DmarRemappingUnit.segment unit) (DmarRemappingUnit.register_base unit).

(** [None] is [Err(self)]: the engine is kept. *)
Definition into_registers (self : t R) : option R :=
  if bool_decide (state self = Disabled ∨ state self = ForeignOwned) && negb (bool_decide (is_Some (owned_root self)))
  then Some (registers self) else None.

(** *** Polling and single commands *)

(** [for _ in 0..poll_limit]. *)
Fixpoint wait (read : R → result Z VtdRegisterError * R) (mask : Z) (set : bool) (polls : nat)
    (operation : VtdOperation.t) : M R VtdEngineFault.t Z :=
  match polls with
  | O => throw (Timeout operation)
  | S polls' =>
    value ← register read;
    if eqb (any_set value mask) set then mret value else
    modify relax ;; wait read mask set polls' operation
  end.
Definition wait_u32 (offset mask : Z) (set : bool) (poll_limit : Z) (operation : VtdOperation.t) :=
  wait (read_u32 offset) mask set (Z.to_nat poll_limit) operation.
Definition wait_u64 (offset mask : Z) (set : bool) (poll_limit : Z) (operation : VtdOperation.t) :=
  wait (read_u64 offset) mask set (Z.to_nat poll_limit) operation.

Definition issue_global_command (translation_enabled : option bool) (one_shot : Z) : M R VtdEngineFault.t unit :=
  status ← register (read_u32 GSTS);
  let command := Z.land status GSTS_PERSISTENT_COMMAND_STATE in
  let command :=
    match translation_enabled with
    | Some true => Z.lor command GCMD_TE
    | Some false => Z.land command (bitnot 32 GCMD_TE)
    | None => command
    end in
  register (write_u32 GCMD (Z.lor command one_shot)).

Definition check_invalidation_status : M R VtdEngineFault.t unit :=
  status ← register (read_u32 FSTS);
  if any_set status FSTS_ITE then throw HardwareInvalidationTimeout else mret ().

Section commands.
Variable capabilities : VtdCapabilities.t.
Variable poll_limit : Z.

Definition flush_write_buffer : M R VtdEngineFault.t unit :=
  if negb (VtdCapabilities.requires_write_buffer_flush capabilities) then mret () else
  issue_global_command None GCMD_WBF ;;
  wait_u32 GSTS GSTS_WBFS false poll_limit WriteBufferFlush ;; mret ().

Definition invalidate_context : M R VtdEngineFault.t unit :=
  pending ← register (read_u64 CCMD);
  if any_set pending CCMD_ICC then throw (PendingCommand ContextInvalidation) else
  register (write_u64 CCMD (Z.lor CCMD_ICC CCMD_CIRG_GLOBAL)) ;;
  completed ← wait_u64 CCMD CCMD_ICC false poll_limit ContextInvalidation;
  if negb (Z.land completed CCMD_CAIG_MASK =? CCMD_CAIG_GLOBAL)
  then throw (CompletionRejected ContextInvalidation) else
  check_invalidation_status.

Definition invalidate_iotlb : M R VtdEngineFault.t unit :=
  offset ← add 64 (VtdCapabilities.iotlb_register_offset capabilities) 8;
  pending ← register (read_u64 offset);
  if any_set pending IOTLB_IVT then throw (PendingCommand IotlbInvalidation) else
  register (write_u64 offset (Z.lor IOTLB_IVT IOTLB_IIRG_GLOBAL)) ;;
  completed ← wait_u64 offset IOTLB_IVT false poll_limit IotlbInvalidation;
  if negb (Z.land completed IOTLB_IAIG_MASK =? IOTLB_IAIG_GLOBAL)
  then throw (CompletionRejected IotlbInvalidation) else
  check_invalidation_status.

Definition install_root_pointer (root_table_address : Z) : M R VtdEngineFault.t unit :=
  register (write_u64 RTADDR root_table_address) ;;
  installed ← register (read_u64 RTADDR);
  if negb (installed =? root_table_address) then throw (CompletionRejected RootTablePointer) else
  issue_global_command None GCMD_SRTP ;;
  wait_u32 GSTS GSTS_RTPS true poll_limit RootTablePointer ;; mret ().

(** *** Sequences of commands *)

Definition configure_root (root_table_address : Z) : M R VtdEngineFault.t unit :=
  install_root_pointer root_table_address ;;
  flush_write_buffer ;;
  invalidate_context ;;
  invalidate_iotlb ;;
  issue_global_command (Some true) 0 ;;
  wait_u32 GSTS GSTS_TES true poll_limit EnableTranslation ;; mret ().

Definition rollback_enable (previous_root : Z) : M R VtdEngineFault.t unit :=
  issue_global_command (Some false) 0 ;;
  wait_u32 GSTS GSTS_TES false poll_limit Rollback ;;
  install_root_pointer previous_root ;;
  flush_write_buffer ;;
  invalidate_context ;;
  invalidate_iotlb.

Definition disable_and_purge : M R VtdEngineFault.t unit :=
  issue_global_command (Some false) 0 ;;
  wait_u32 GSTS GSTS_TES false poll_limit DisableTranslation ;;
  invalidate_context ;;
  invalidate_iotlb.

Definition rollback_disable (owned_root : Z) : M R VtdEngineFault.t unit :=
  status ← register (read_u32 GSTS);
  if any_set status GSTS_TES then mret () else configure_root owned_root.
End commands.

(** *** Operations *)

(** The checks of [enable] on the registers: no other owner, no command
    running, no fault pending. *)
Definition check_unowned (self : t R) : M (t R) VtdEngineFault.t unit :=
  status ← on_registers (register (read_u32 GSTS));
  if any_set status GSTS_FOREIGN_OWNERSHIP then set_state ForeignOwned ;; throw ForeignOwnership else
  context ← on_registers (register (read_u64 CCMD));
  busy ← (if any_set context CCMD_ICC then mret true else
          offset ← add 64 (VtdCapabilities.iotlb_register_offset (capabilities self)) 8;
          iotlb ← on_registers (register (read_u64 offset));
          mret (any_set iotlb IOTLB_IVT));
  if (busy : bool) then set_state ForeignOwned ;; throw ForeignOwnership else
  faults ← on_registers (register (read_u32 FSTS));
  if any_set faults FSTS_ITE then throw HardwareInvalidationTimeout else mret ().

(** The rest of [enable]: configure the root, or roll back. *)
Definition take_over (self : t R) (root_table_address poll_limit previous_root : Z) :
    M (t R) VtdEngineFault.t VtdEnableReceipt.t :=
  configured ← attempt (on_registers (configure_root (capabilities self) poll_limit root_table_address));
  match configured with
  | Err error =>
    undone ← attempt (E := VtdEngineFault.t)
      (on_registers (rollback_enable (capabilities self) poll_limit previous_root));
    match undone with
    | Err _ => set_state Poisoned ;; throw (RollbackFailed (operation error))
    | Ok _ => set_state Disabled ;; throw error
    end
  | Ok _ =>
    set_state Enabled ;;
    modify (with_root (Some root_table_address)) ;;
    mret (VtdEnableReceipt.mk (segment self) (register_base self) root_table_address (version self)
            (capabilities self))
  end.

Definition enable (root_table_address poll_limit : Z) : M (t R) VtdEngineFault.t VtdEnableReceipt.t :=
  if poll_limit =? 0 then throw InvalidPollLimit else
  (match validate_page root_table_address with Err _ => throw InvalidRootTable | Ok _ => mret () end) ;;
  self ← get;
  match state self with
  | ForeignOwned => throw ForeignOwnership
  | Enabled | Poisoned => throw InvalidState
  | Disabled =>
    check_unowned self ;;
    previous_root ← on_registers (register (read_u64 RTADDR));
    take_over self root_table_address poll_limit previous_root
  end.

(** The guard [disable] and [commit_table_update] share. *)
Definition refuse {A} (self : t R) : M (t R) VtdEngineFault.t A :=
  throw (match state self with ForeignOwned => ForeignOwnership | _ => InvalidState end).

Definition disable (poll_limit : Z) : M (t R) VtdEngineFault.t unit :=
  if poll_limit =? 0 then throw InvalidPollLimit else
  self ← get;
  if negb (bool_decide (state self = Enabled)) || negb (bool_decide (is_Some (owned_root self)))
  then refuse self else
  owned ← ok_or (owned_root self) InvalidState;
  purged ← attempt (on_registers (disable_and_purge (capabilities self) poll_limit));
  match purged with
  | Err error =>
    restored ← attempt (E := VtdEngineFault.t)
      (on_registers (rollback_disable (capabilities self) poll_limit owned));
    match restored with
    | Err _ => set_state Poisoned ;; throw (RollbackFailed (operation error))
    | Ok _ => set_state Enabled ;; throw error
    end
  | Ok _ => set_state Disabled ;; modify (with_root None)
  end.

Definition commit_table_update (poll_limit : Z) : M (t R) VtdEngineFault.t unit :=
  if poll_limit =? 0 then throw InvalidPollLimit else
  self ← get;
  if negb (bool_decide (state self = Enabled)) || negb (bool_decide (is_Some (owned_root self)))
  then refuse self else
  result ← attempt (on_registers
    (flush_write_buffer (capabilities self) poll_limit ;;
     invalidate_context poll_limit ;;
     invalidate_iotlb (capabilities self) poll_limit));
  match result with
  | Err error => set_state Poisoned ;; throw error
  | Ok _ => mret ()
  end.
End engine.
End VtdRemappingEngine.
