(* ===== verification/VtdEngineFacts.v ===== *)
(** * Facts of the remapping engine

    What every call of the engine does to its own state, for any registers;
    what the commands do to a unit that keeps the documented behaviour of its
    invalidation registers; and the invalidator that the page-table core uses. *)
From S2P Require Import Prelude Acpi Slpt SlptTree SlptLedger SlptPath VtdMemory VtdTables VtdEngine.
Import VtdEngineState VtdEngineFault VtdRemappingEngine.

Section facts.
Context {R : Type} {HB : VtdRegisterBackend R}.

(** ** Rules *)

Lemma wp_register {A} (f : R → result A VtdRegisterError * R) Q P r :
  wp (register f) Q P r =
  match f r with (Ok a, r') => Q a r' | (Err e, r') => P (Register e) r' end.
Proof. unfold wp, register. by destruct (f r) as [[a|e] r']. Qed.

(** The fault that says that an engine could not be rolled back; no single
    command reports it. *)
Definition ordinary (f : VtdEngineFault.t) : Prop := match f with RollbackFailed _ => False | _ => True end.

(** A relation that every access of the registers respects, and then every
    sequence of accesses. *)
Definition steady {A} (Rel : relation R) (m : M R VtdEngineFault.t A) : Prop :=
  ∀ r, wp m (λ _, Rel r) (λ f r', Rel r r' ∧ ordinary f) r.

Class Respected (Rel : relation R) : Prop := {
  respected_preorder :: PreOrder Rel;
  respected_read32 o r : Rel r (snd (read_u32 o r));
  respected_write32 o v r : Rel r (snd (write_u32 o v r));
  respected_read64 o r : Rel r (snd (read_u64 o r));
  respected_write64 o v r : Rel r (snd (write_u64 o v r));
  respected_relax r : Rel r (relax r);
}.

Section steady.
Context (Rel : relation R) {HR : Respected Rel}.

Lemma steady_bind {A B} (m : M R VtdEngineFault.t A) (k : A → M R VtdEngineFault.t B) :
  steady Rel m → (∀ a, steady Rel (k a)) → steady Rel (m ≫= k).
Proof.
  intros Hm Hk r. rewrite wp_bind. eapply wp_mono; [apply Hm| |done]. intros a r1 H1.
  eapply wp_mono; [apply Hk| |]; [intros x r2 H2|intros x r2 [H2 Hx]; split; [|exact Hx]]; (etrans; [exact H1|exact H2]).
Qed.
Lemma steady_ret {A} (a : A) : steady Rel (mret a).
Proof. intros r. by rewrite wp_ret. Qed.
Lemma steady_throw {A} f : ordinary f → steady Rel (throw (A:=A) f).
Proof. intros Hf r. by rewrite wp_throw. Qed.
Lemma steady_register {A} (f : R → result A VtdRegisterError * R) :
  (∀ r, Rel r (snd (f r))) → steady Rel (register f).
Proof. intros Hf r. rewrite wp_register. pose proof (Hf r). by destruct (f r) as [[] r']. Qed.
Lemma steady_add x y : x + y < 2 ^ 64 → steady Rel (add 64 x y).
Proof. intros Hlt r. by apply wp_add. Qed.

Lemma steady_wait read mask set polls op :
  (∀ r, Rel r (snd (read r))) → steady Rel (wait read mask set polls op).
Proof.
  intros Hread. induction polls as [|n IH]; [by apply steady_throw|]. cbn [wait].
  apply steady_bind; [by apply steady_register|]. intros v. destruct (Bool.eqb _ _); [apply steady_ret|].
  apply steady_bind; [|done]. intros r. rewrite wp_modify. apply respected_relax.
Qed.
End steady.
End facts.

(** Every access respects the relation. *)
Ltac respected :=
  intros; first [ apply respected_read32 | apply respected_write32 | apply respected_read64 | apply respected_write64 ].
Create HintDb steady.
#[export] Hint Resolve steady_ret : steady.
#[export] Hint Extern 1 (steady _ (throw _)) => apply steady_throw; [assumption|exact I] : steady.
#[export] Hint Extern 1 (steady _ (register _)) => apply steady_register; respected : steady.
#[export] Hint Extern 1 (steady _ (wait _ _ _ _ _)) => apply steady_wait; [assumption|respected] : steady.
(** Follows a sequence of commands. *)
Ltac steady :=
  repeat first
    [ solve [eauto 3 with steady nocore]
    | apply steady_bind; [assumption| |intros ?]
    | match goal with |- steady _ (if ?b then _ else _) => destruct b eqn:? end ].

Section commands.
Context {R : Type} {HB : VtdRegisterBackend R}.

(** What [inspect] checks of the capabilities and the sums on them need. *)
Definition caps_ok (c : VtdCapabilities.t) : Prop :=
  0 < VtdCapabilities.iotlb_register_offset c <= REGISTER_WINDOW_BYTES - 16.

Section steady_commands.
Context (Rel : relation R) {HR : Respected Rel} (c : VtdCapabilities.t) (Hc : caps_ok c) (n : Z).

Lemma steady_issue te one_shot : steady Rel (issue_global_command te one_shot).
Proof using HR. unfold issue_global_command. steady. Qed.
#[local] Hint Resolve steady_issue : steady.
Lemma steady_status : steady Rel check_invalidation_status.
Proof using HR. unfold check_invalidation_status. steady. Qed.
#[local] Hint Resolve steady_status : steady.
Lemma steady_flush : steady Rel (flush_write_buffer c n).
Proof using HR. unfold flush_write_buffer, wait_u32. steady. Qed.
Lemma steady_context : steady Rel (invalidate_context n).
Proof using HR. unfold invalidate_context, wait_u64. steady. Qed.
Lemma steady_iotlb : steady Rel (invalidate_iotlb c n).
Proof using HR Hc.
  unfold invalidate_iotlb, wait_u64. unfold caps_ok, REGISTER_WINDOW_BYTES in Hc.
  apply steady_bind; [done|apply steady_add; [done|lia]|intros o]. steady.
Qed.
Lemma steady_root a : steady Rel (install_root_pointer n a).
Proof using HR. unfold install_root_pointer, wait_u32. steady. Qed.
#[local] Hint Resolve steady_flush steady_context steady_iotlb steady_root : steady.
Lemma steady_configure a : steady Rel (configure_root c n a).
Proof using HR Hc. unfold configure_root, wait_u32. steady. Qed.
Lemma steady_rollback_enable a : steady Rel (rollback_enable c n a).
Proof using HR Hc. unfold rollback_enable, wait_u32. steady. Qed.
#[local] Hint Resolve steady_configure : steady.
Lemma steady_rollback_disable a : steady Rel (rollback_disable c n a).
Proof using HR Hc. unfold rollback_disable. steady. Qed.
End steady_commands.
End commands.

(** ** The unit behind the registers *)

(** The two caches of a unit and the command register that purges each: the bit
    that starts a command and stays set while it runs, the request for a global
    purge, and the field that reports what was done. *)
Inductive cache := ContextCache | Iotlb.
Definition iotlb_command (extended : Z) : Z :=
  Z.shiftr (Z.land extended ECAP_IRO_MASK) ECAP_IRO_SHIFT * 16 + 8.
Definition command (extended : Z) (k : cache) : Z :=
  match k with ContextCache => CCMD | Iotlb => iotlb_command extended end.
Definition running (k : cache) : Z := match k with ContextCache => CCMD_ICC | Iotlb => IOTLB_IVT end.
Definition global (k : cache) : Z := match k with ContextCache => CCMD_CIRG_GLOBAL | Iotlb => IOTLB_IIRG_GLOBAL end.
Definition done_mask (k : cache) : Z := match k with ContextCache => CCMD_CAIG_MASK | Iotlb => IOTLB_IAIG_MASK end.
Definition done_global (k : cache) : Z :=
  match k with ContextCache => CCMD_CAIG_GLOBAL | Iotlb => IOTLB_IAIG_GLOBAL end.

(** The documented behaviour that the engine relies on.  [stored r k x e]: cache
    [k] of the unit may answer [x] with [e].  No register access fills a cache;
    the extended capabilities do not change; once a global purge has been
    requested, the completion reported with global granularity finds the
    cache empty.  [translating r]: the unit translates the accesses of its
    devices; only a global command turns that on, and the status register shows
    it. *)
Class VtdUnitLaws (R : Type) `{VtdRegisterBackend R} := {
  stored : R → cache → Z → Z → Prop;
  extended : R → Z;
  purging : R → cache → Prop;
  fades (r r' : R) : Prop := extended r' = extended r ∧ ∀ k x e, stored r' k x e → stored r k x e;
  waits (r r' : R) : Prop := fades r r' ∧ ∀ k, purging r k → purging r' k;
  read32_law o r : waits r (snd (read_u32 o r));
  read64_law o r : waits r (snd (read_u64 o r));
  relax_law r : waits r (relax r);
  write32_law o v r : fades r (snd (write_u32 o v r));
  write64_law o v r : fades r (snd (write_u64 o v r));
  ecap_law r v r' : read_u64 ECAP r = (Ok v, r') → v = extended r;
  request_law k r r' :
    write_u64 (command (extended r) k) (Z.lor (running k) (global k)) r = (Ok (), r') → purging r' k;
  completion_law k r v r' :
    purging r k → read_u64 (command (extended r) k) r = (Ok v, r') →
    any_set v (running k) = false → Z.land v (done_mask k) = done_global k → ∀ x e, ¬ stored r' k x e;
  translating : R → Prop;
  stays_off (r r' : R) : Prop := ¬ translating r → ¬ translating r';
  off_read32_law o r : stays_off r (snd (read_u32 o r));
  off_read64_law o r : stays_off r (snd (read_u64 o r));
  off_relax_law r : stays_off r (relax r);
  off_purge_law k v r : stays_off r (snd (write_u64 (command (extended r) k) v r));
  status_law r v r' : read_u32 GSTS r = (Ok v, r') → any_set v GSTS_TES = false → ¬ translating r';
}.

Section unit.
Context {R : Type} {HB : VtdRegisterBackend R} {HU : VtdUnitLaws R}.

#[export] Instance fades_preorder : PreOrder fades.
Proof.
  split; [done|]. intros a b c [H1 H2] [H3 H4]. split; [congruence|auto].
Qed.
#[export] Instance fades_respected : Respected fades.
Proof.
  split; [apply _|..]; intros; [apply read32_law|apply write32_law|apply read64_law|apply write64_law|apply relax_law].
Qed.
#[export] Instance waits_preorder : PreOrder waits.
Proof. split; [done|]. intros a b c [H1 H2] [H3 H4]. split; [by etrans|auto]. Qed.

(** Polling a command register to its completion. *)
Lemma wait_completion k n op r (Q : Z → R → Prop) P :
  purging r k →
  (∀ v r', fades r r' → (Z.land v (done_mask k) = done_global k → ∀ x e, ¬ stored r' k x e) → Q v r') →
  (∀ f r', fades r r' → ordinary f → P f r') →
  wp (wait (read_u64 (command (extended r) k)) (running k) false n op) Q P r.
Proof.
  intros Hp HQ HP. cut (∀ r', waits r r' →
    wp (wait (read_u64 (command (extended r) k)) (running k) false n op) Q P r'); [by intros Hcut; apply Hcut|].
  induction n as [|n IH]; intros r1 H1; cbn [wait]; [rewrite wp_throw; apply HP; [apply H1|done]|].
  rewrite wp_bind, wp_register. pose proof (read64_law (command (extended r) k) r1) as H2.
  destruct (read_u64 _ r1) as [[v|f] r2] eqn:Hread; simpl in H2; [|by apply HP; [etrans; [apply H1|apply H2]|]].
  destruct (any_set v (running k)) eqn:Hset; simpl.
  - rewrite wp_bind, wp_modify. apply IH. etrans; [exact H1|]. etrans; [exact H2|apply relax_law].
  - rewrite wp_ret. apply HQ; [etrans; [apply H1|apply H2]|]. intros Hg. destruct H1 as [[He _] Hk].
    rewrite <-He in Hread. by eapply completion_law; [apply Hk| | |].
Qed.

(** The common shape of the two invalidations. *)
Definition invalidate (o n : Z) (k : cache) (op : VtdOperation.t) : M R VtdEngineFault.t unit :=
  pending ← register (read_u64 o);
  if any_set pending (running k) then throw (PendingCommand op) else
  register (write_u64 o (Z.lor (running k) (global k))) ;;
  completed ← wait_u64 o (running k) false n op;
  if negb (Z.land completed (done_mask k) =? done_global k) then throw (CompletionRejected op) else
  check_invalidation_status.

Lemma invalidate_ok n k op r :
  wp (invalidate (command (extended r) k) n k op)
    (λ _ r', fades r r' ∧ ∀ x e, ¬ stored r' k x e) (λ f r', fades r r' ∧ ordinary f) r.
Proof.
  unfold invalidate. rewrite wp_bind, wp_register. pose proof (read64_law (command (extended r) k) r) as [H1 _].
  destruct (read_u64 _ r) as [[p|f] r1]; simpl in H1; [|done].
  destruct (any_set p _); [by rewrite wp_throw|]. rewrite wp_bind, wp_register.
  pose proof (write64_law (command (extended r) k) (Z.lor (running k) (global k)) r1) as H2.
  destruct (write_u64 _ _ r1) as [[[]|f] r2] eqn:Hw; simpl in H2; [|by split; [etrans|]].
  assert (fades r r2) as H3 by (by etrans). pose proof H3 as [He _]. pose proof H1 as [He1 _].
  assert (purging r2 k) as Hp by (apply (request_law k r1); by rewrite He1).
  rewrite wp_bind. unfold wait_u64. rewrite <-He. apply wait_completion; [done| |by intros; split; [etrans|]].
  intros v r3 H4 Hdone. destruct (Z.eqb_spec (Z.land v (done_mask k)) (done_global k)) as [Hg|]; simpl.
  - unfold check_invalidation_status. rewrite wp_bind, wp_register. pose proof (read32_law FSTS r3) as [H5 _].
    assert (∀ x e, ¬ stored (snd (read_u32 FSTS r3)) k x e) as Hno by (intros x e Hx; by eapply Hdone, H5).
    destruct (read_u32 FSTS r3) as [[w|f] r4]; simpl in *; [|by split; [do 2 (etrans; [done|])|]].
    destruct (any_set w FSTS_ITE); [rewrite wp_throw|rewrite wp_ret]; split; try done; by do 2 (etrans; [done|]).
  - rewrite wp_throw. by split; [etrans|].
Qed.

(** Nothing that follows a status with translation off turns it on again. *)
Lemma wait_stays_off read mask set n op r :
  (∀ r, stays_off r (snd (read r))) → ¬ translating r →
  wp (wait read mask set n op) (λ _ r', ¬ translating r') (λ _ _, True) r.
Proof.
  intros Hread. revert r. induction n as [|n IH]; intros r Hr; cbn [wait]; [by rewrite wp_throw|].
  rewrite wp_bind, wp_register. pose proof (Hread r Hr) as H1. destruct (read r) as [[v|f] r1]; [|done].
  destruct (Bool.eqb _ _); [by rewrite wp_ret|]. rewrite wp_bind, wp_modify. by apply IH, off_relax_law.
Qed.
Lemma wait_off n op r : wp (wait (read_u32 GSTS) GSTS_TES false n op) (λ _ r', ¬ translating r') (λ _ _, True) r.
Proof.
  revert r. induction n as [|n IH]; intros r; cbn [wait]; [by rewrite wp_throw|].
  rewrite wp_bind, wp_register. destruct (read_u32 GSTS r) as [[v|f] r1] eqn:Hread; [|done].
  destruct (any_set v GSTS_TES) eqn:Hv; simpl; [|rewrite wp_ret; by eapply status_law].
  rewrite wp_bind, wp_modify. apply IH.
Qed.
Lemma invalidate_stays_off n k op r :
  ¬ translating r →
  wp (invalidate (command (extended r) k) n k op) (λ _ r', fades r r' ∧ ¬ translating r') (λ _ _, True) r.
Proof.
  intros Hr. cut (wp (invalidate (command (extended r) k) n k op) (λ _ r', ¬ translating r') (λ _ _, True) r).
  { intros Hoff. eapply wp_mono; [exact (wp_both _ _ _ _ _ _ (invalidate_ok n k op r) Hoff)|by intros ? ? [[? _] ?]|done]. }
  unfold invalidate. rewrite wp_bind, wp_register. pose proof (read64_law (command (extended r) k) r) as [[He _] _].
  pose proof (off_read64_law (command (extended r) k) r Hr) as H1.
  destruct (read_u64 _ r) as [[p|f] r1]; simpl in He, H1; [|done]. destruct (any_set p _); [by rewrite wp_throw|].
  rewrite <-He, wp_bind, wp_register. pose proof (off_purge_law k (Z.lor (running k) (global k)) r1 H1) as H2.
  destruct (write_u64 _ _ r1) as [[[]|f] r2]; [|done]. rewrite wp_bind. unfold wait_u64.
  eapply wp_mono; [apply wait_stays_off; [apply off_read64_law|exact H2]| |done]. intros v r3 H3.
  destruct (negb _); [by rewrite wp_throw|]. unfold check_invalidation_status. rewrite wp_bind, wp_register.
  pose proof (off_read32_law FSTS r3 H3) as H4. destruct (read_u32 FSTS r3) as [[w|f] r4]; [|done].
  destruct (any_set w FSTS_ITE); [by rewrite wp_throw|by rewrite wp_ret].
Qed.
End unit.

(** ** The engine *)

Section engine.
Context {R : Type} {HB : VtdRegisterBackend R} {HU : VtdUnitLaws R}.
Implicit Types (e : VtdRemappingEngine.t R).

(** The root table that each state of the engine owns. *)
Definition authority (s : VtdEngineState.t) (root : option Z) : Prop :=
  match s with
  | Enabled => ∃ a, root = Some a ∧ validate_page a = Ok ()
  | Disabled | ForeignOwned => root = None
  | VtdEngineState.Poisoned => True
  end.

Record engine_ok e : Prop := {
  eng_caps : caps_ok (capabilities e);
  eng_iotlb : VtdCapabilities.iotlb_register_offset (capabilities e) + 8 = iotlb_command (extended (registers e));
  eng_root : authority (state e) (owned_root e);
}.

(** The same unit, with caches that hold no more than before. *)
Record kin e e' : Prop := {
  kin_segment : segment e' = segment e;
  kin_base : register_base e' = register_base e;
  kin_version : version e' = version e;
  kin_caps : capabilities e' = capabilities e;
  kin_unit : fades (registers e) (registers e');
}.
#[export] Instance kin_preorder : PreOrder kin.
Proof.
  split; [by split|]. intros a b c [] []. split; try congruence. by etrans.
Qed.
Lemma kin_registers e r : fades (registers e) r → kin e (with_registers r e).
Proof. by split. Qed.
Lemma kin_state e e' s : kin e e' → kin e (with_state s e').
Proof. by intros []. Qed.
Lemma kin_root e e' o : kin e e' → kin e (with_root o e').
Proof. by intros []. Qed.
Lemma kin_ok e e' : engine_ok e → kin e e' → authority (state e') (owned_root e') → engine_ok e'.
Proof.
  intros [Hc Hi _] [_ _ _ Hk [Hx _]] Ha. split; [by rewrite Hk|by rewrite Hk, Hx|done].
Qed.

Definition empty_caches e : Prop := ∀ k x v, ¬ stored (registers e) k x v.

Lemma purge_ok c n r :
  caps_ok c → VtdCapabilities.iotlb_register_offset c + 8 = iotlb_command (extended r) →
  wp (invalidate_context n ;; invalidate_iotlb c n)
    (λ _ r', fades r r' ∧ ∀ k x v, ¬ stored r' k x v) (λ f r', fades r r' ∧ ordinary f) r.
Proof.
  intros Hc Hi. rewrite wp_bind.
  eapply wp_mono; [apply (invalidate_ok n ContextCache VtdOperation.ContextInvalidation r)| |done].
  intros [] r1 [H1 Hctx]. pose proof H1 as [Hx1 _]. unfold invalidate_iotlb. rewrite wp_bind. unfold caps_ok, REGISTER_WINDOW_BYTES in Hc.
  apply wp_add; [lia|]. rewrite Hi, <-Hx1.
  eapply wp_mono; [apply (invalidate_ok n Iotlb VtdOperation.IotlbInvalidation r1)| |by intros f r2 [? ?]; split; [etrans|]].
  intros [] r2 [H2 Hio]. split; [by etrans|]. intros [] x v Hs; [|by eapply Hio].
  destruct H2 as [_ Hs2]. by eapply Hctx, Hs2.
Qed.

Lemma flush_purge_ok c n r :
  caps_ok c → VtdCapabilities.iotlb_register_offset c + 8 = iotlb_command (extended r) →
  wp (flush_write_buffer c n ;; invalidate_context n ;; invalidate_iotlb c n)
    (λ _ r', fades r r' ∧ ∀ k x v, ¬ stored r' k x v) (λ f r', fades r r' ∧ ordinary f) r.
Proof.
  intros Hc Hi. rewrite wp_bind. eapply wp_mono; [apply (steady_flush fades)| |done].
  intros [] r1 H1. pose proof H1 as [Hx _]. eapply wp_mono; [apply purge_ok; [done|by rewrite Hx]| |].
  - intros [] r2 [H2 Hno]. split; [by etrans|done].
  - intros f r2 [H2 Hf]. by split; [etrans|].
Qed.

(** A call that ends with an engine of the same unit in state [s]. *)
Definition becomes e (s : VtdEngineState.t) (o : option Z) e' : Prop :=
  kin e e' ∧ state e' = s ∧ owned_root e' = o.

(** The reasons for which [disable] and [commit_table_update] refuse. *)
Definition refusal e (n : Z) (f : VtdEngineFault.t) : Prop :=
  n = 0 ∧ f = InvalidPollLimit ∨
  n ≠ 0 ∧ state e ≠ Enabled ∧
    f = match state e with ForeignOwned => ForeignOwnership | _ => InvalidState end.

Lemma engine_commit_ok e n :
  engine_ok e →
  wp (commit_table_update n)
    (λ _ e', n ≠ 0 ∧ state e = Enabled ∧ becomes e Enabled (owned_root e) e' ∧ empty_caches e')
    (λ f e', refusal e n f ∧ e' = e ∨ n ≠ 0 ∧ state e = Enabled ∧ ordinary f ∧ becomes e VtdEngineState.Poisoned (owned_root e) e') e.
Proof.
  intros [Hc Hi Ha]. unfold commit_table_update. wp_if; bool_to_prop; [rewrite wp_throw; left; by split; [left|]|].
  rewrite wp_bind, wp_get. case_bool_decide as Hs; simpl.
  2:{ unfold refuse. rewrite wp_throw. left. split; [|done]. by right. }
  rewrite Hs in Ha. destruct Ha as (root & Hroot & _). rewrite bool_decide_true by (rewrite Hroot; eauto). simpl.
  rewrite wp_bind, wp_attempt. unfold on_registers. rewrite wp_zoom.
  eapply wp_mono; [by apply flush_purge_ok| |].
  - intros [] r [Hf Hno]. rewrite wp_ret. split_and!; [done..| |done]. by split; [apply kin_registers|].
  - intros f r [Hf Ho]. rewrite wp_bind. unfold set_state. rewrite wp_modify, wp_throw. right. split_and!; [done..|].
    by split; [apply kin_state, kin_registers|].
Qed.

Lemma disable_and_purge_ok c n r :
  caps_ok c → VtdCapabilities.iotlb_register_offset c + 8 = iotlb_command (extended r) →
  wp (disable_and_purge c n)
    (λ _ r', fades r r' ∧ ∀ k x v, ¬ stored r' k x v) (λ f r', fades r r' ∧ ordinary f) r.
Proof.
  intros Hc Hi. unfold disable_and_purge. rewrite wp_bind. eapply wp_mono; [apply (steady_issue fades)| |done].
  intros [] r1 H1. rewrite wp_bind. eapply wp_mono; [apply (steady_wait fades); apply respected_read32| |].
  2:{ intros f r2 [H2 Hf]. by split; [etrans|]. }
  intros v r2 H2. assert (fades r r2) as H3 by (by etrans). pose proof H3 as [Hx _].
  eapply wp_mono; [apply purge_ok; [done|by rewrite Hx]| |].
  - intros [] r3 [H4 Hno]. split; [by etrans|done].
  - intros f r3 [H4 Hf]. by split; [etrans|].
Qed.

(** A disabled unit is off. *)
Lemma disable_and_purge_off c n r :
  caps_ok c → VtdCapabilities.iotlb_register_offset c + 8 = iotlb_command (extended r) →
  wp (disable_and_purge c n) (λ _ r', ¬ translating r') (λ _ _, True) r.
Proof.
  intros Hc Hi. unfold disable_and_purge. rewrite wp_bind. eapply wp_mono; [apply (steady_issue fades)| |done].
  intros [] r1 H1. rewrite wp_bind.
  eapply wp_mono; [refine (wp_both _ _ _ _ _ _ _ (wait_off _ _ _)); apply (steady_wait fades); apply respected_read32| |done].
  intros v r2 [H2 Hoff]. rewrite wp_bind. unfold invalidate_context.
  eapply wp_mono; [apply (invalidate_stays_off n ContextCache VtdOperation.ContextInvalidation r2 Hoff)| |done].
  intros [] r3 [H3 Hoff3]. unfold invalidate_iotlb. rewrite wp_bind. unfold caps_ok, REGISTER_WINDOW_BYTES in Hc.
  apply wp_add; [lia|]. assert (fades r r3) as [Hx _] by (do 2 (etrans; [done|]); done). rewrite Hi, <-Hx.
  eapply wp_mono; [apply (invalidate_stays_off n Iotlb VtdOperation.IotlbInvalidation r3 Hoff3)|by intros ? ? [_ ?]|done].
Qed.

Lemma disable_ok e n :
  engine_ok e →
  wp (disable n)
    (λ _ e', n ≠ 0 ∧ state e = Enabled ∧ becomes e Disabled None e' ∧ empty_caches e' ∧ ¬ translating (registers e'))
    (λ f e', refusal e n f ∧ e' = e ∨
             n ≠ 0 ∧ state e = Enabled ∧
             (ordinary f ∧ becomes e Enabled (owned_root e) e' ∨
              ¬ ordinary f ∧ becomes e VtdEngineState.Poisoned (owned_root e) e')) e.
Proof.
  intros [Hc Hi Ha]. unfold disable. wp_if; bool_to_prop; [rewrite wp_throw; left; by split; [left|]|].
  rewrite wp_bind, wp_get. case_bool_decide as Hs; simpl.
  2:{ unfold refuse. rewrite wp_throw. left. split; [|done]. by right. }
  rewrite Hs in Ha. destruct Ha as (root & Hroot & _). rewrite bool_decide_true by (rewrite Hroot; eauto). simpl.
  rewrite wp_bind, wp_ok_or, Hroot, wp_bind, wp_attempt. unfold on_registers. rewrite wp_zoom.
  eapply wp_mono; [apply (wp_both _ _ _ _ _ _ (disable_and_purge_ok _ n _ Hc Hi) (disable_and_purge_off _ n _ Hc Hi))| |].
  - intros [] r [[Hf Hno] Hoff]. unfold set_state. rewrite wp_bind, !wp_modify. split_and!; [done..| |done|done].
    by split; [apply kin_root, kin_state, kin_registers|].
  - intros f r [[Hf Ho] _]. rewrite wp_bind, wp_attempt, wp_zoom.
    eapply wp_mono; [by apply (steady_rollback_disable fades)| |]; unfold set_state.
    + intros [] r1 H1. rewrite wp_bind, wp_modify, wp_throw. right. split_and!; [done..|]. left. split; [done|].
      split; [|done]. apply kin_state. etrans; [by apply kin_registers|by apply kin_registers].
    + intros g r1 [H1 _]. rewrite wp_bind, wp_modify, wp_throw. right. split_and!; [done..|]. right. split; [by intros []|].
      split; [|done]. apply kin_state. etrans; [by apply kin_registers|by apply kin_registers].
Qed.

(** Reading registers. *)
Definition peeks e e' : Prop := becomes e (state e) (owned_root e) e'.
#[export] Instance peeks_preorder : PreOrder peeks.
Proof.
  split; [by split|]. intros a b c (H1 & H2 & H3) (H4 & H5 & H6). split; [by etrans|]. split; congruence.
Qed.
Lemma peeks_becomes e e1 e2 s o : peeks e e1 → becomes e1 s o e2 → becomes e s o e2.
Proof. intros [H1 _] (H2 & ? & ?). split; [by etrans|done]. Qed.

Lemma wp_read {A} (f : R → result A VtdRegisterError * R) e0 e (Q : A → VtdRemappingEngine.t R → Prop) (P : VtdEngineFault.t → VtdRemappingEngine.t R → Prop) :
  peeks e0 e → (∀ r, fades r (snd (f r))) →
  (∀ a e', peeks e0 e' → Q a e') → (∀ f e', ordinary f → peeks e0 e' → P f e') →
  wp (on_registers (register f)) Q P e.
Proof.
  intros H0 Hf HQ HP. unfold on_registers. rewrite wp_zoom, wp_register. pose proof (Hf (registers e)) as Hr.
  assert (∀ r, fades (registers e) r → peeks e0 (with_registers r e)) as Hp.
  { intros r ?. etrans; [exact H0|]. by split; [apply kin_registers|]. }
  destruct (f (registers e)) as [[a|x] r]; simpl in Hr; [by apply HQ, Hp|by apply HP, Hp].
Qed.

Lemma check_unowned_ok e0 e :
  caps_ok (capabilities e0) →
  wp (check_unowned e0) (λ _, peeks e)
    (λ f e', peeks e e' ∧ ordinary f ∨ becomes e ForeignOwned (owned_root e) e' ∧ f = ForeignOwnership) e.
Proof.
  intros Hc. unfold caps_ok, REGISTER_WINDOW_BYTES in Hc. unfold check_unowned. rewrite wp_bind.
  assert (∀ e' (Q : unit → VtdRemappingEngine.t R → Prop), peeks e e' →
    wp (set_state ForeignOwned ;; throw ForeignOwnership) Q (λ f e', peeks e e' ∧ ordinary f ∨
      becomes e ForeignOwned (owned_root e) e' ∧ f = ForeignOwnership) e') as Hforeign.
  { intros e' Q (Hk & _ & Ho). unfold set_state. rewrite wp_bind, wp_modify, wp_throw. right.
    split; [|done]. by split; [apply kin_state|]. }
  apply (wp_read _ e); [done|apply respected_read32| |by left]. intros status e1 H1. wp_if; [by apply Hforeign|].
  rewrite wp_bind. apply (wp_read _ e); [done|apply respected_read64| |by left]. intros context e2 H2. rewrite wp_bind.
  assert (∀ (busy : bool) e3, peeks e e3 → wp (if busy then set_state ForeignOwned ;; throw ForeignOwnership else
      faults ← on_registers (register (read_u32 FSTS));
      if any_set faults FSTS_ITE then throw HardwareInvalidationTimeout else mret ())
    (λ _, peeks e) (λ f e', peeks e e' ∧ ordinary f ∨ becomes e ForeignOwned (owned_root e) e' ∧ f = ForeignOwnership) e3) as Hrest.
  { intros [] e3 H3; [by apply Hforeign|]. rewrite wp_bind. apply (wp_read _ e); [done|apply respected_read32| |by left].
    intros faults e4 H4. wp_if; [rewrite wp_throw; by left|by rewrite wp_ret]. }
  destruct (any_set context CCMD_ICC); [rewrite wp_ret; by apply (Hrest true)|]. rewrite wp_bind. apply wp_add; [lia|]. rewrite wp_bind.
  apply (wp_read _ e); [done|apply respected_read64| |by left]. intros iotlb e3 H3. rewrite wp_ret. by apply (Hrest (any_set iotlb IOTLB_IVT)).
Qed.

Lemma configure_purges c n root r :
  caps_ok c → VtdCapabilities.iotlb_register_offset c + 8 = iotlb_command (extended r) →
  wp (configure_root c n root)
    (λ _ r', fades r r' ∧ ∀ k x v, ¬ stored r' k x v) (λ f r', fades r r' ∧ ordinary f) r.
Proof.
  intros Hc Hi. unfold configure_root. rewrite wp_bind. eapply wp_mono; [apply (steady_root fades)| |done].
  intros [] r1 H1. pose proof H1 as [Hx _].
  pose proof (flush_purge_ok c n r1 Hc ltac:(by rewrite Hx)) as Hp. rewrite !wp_bind in Hp. rewrite wp_bind.
  eapply wp_mono; [exact Hp| |by intros f r2 [? ?]; split; [etrans|]]. intros [] r2 Hp2. rewrite wp_bind.
  rewrite wp_bind in Hp2. eapply wp_mono; [exact Hp2| |by intros f r3 [? ?]; split; [etrans|]]. intros [] r3 Hp3. rewrite wp_bind.
  eapply wp_mono; [exact Hp3| |by intros f r4 [? ?]; split; [etrans|]]. intros [] r4 [H4 Hno].
  assert (steady fades (issue_global_command (Some true) 0 ;; wait_u32 GSTS GSTS_TES true n VtdOperation.EnableTranslation ;; mret ())) as Hrest.
  { apply steady_bind; [apply _|apply (steady_issue fades)|intros []].
    apply steady_bind; [apply _|apply steady_wait; [apply _|apply respected_read32]|intros ?; by apply steady_ret, _]. }
  eapply wp_mono; [apply Hrest| |].
  - intros [] r5 H5. split; [by do 2 (etrans; [done|])|]. intros k x v Hs. by eapply Hno, H5.
  - intros f r5 [H5 Hf]. split; [by do 2 (etrans; [done|])|done].
Qed.

Lemma take_over_ok e0 e root n previous :
  caps_ok (capabilities e0) →
  VtdCapabilities.iotlb_register_offset (capabilities e0) + 8 = iotlb_command (extended (registers e)) →
  wp (take_over e0 root n previous)
    (λ receipt e', becomes e Enabled (Some root) e' ∧ empty_caches e' ∧
       receipt = VtdEnableReceipt.mk (segment e0) (register_base e0) root (version e0) (capabilities e0))
    (λ f e', becomes e Disabled (owned_root e) e' ∧ ordinary f ∨
             becomes e VtdEngineState.Poisoned (owned_root e) e' ∧ ¬ ordinary f) e.
Proof.
  intros Hc Hi. unfold take_over, on_registers, set_state. rewrite wp_bind, wp_attempt, wp_zoom.
  eapply wp_mono; [by apply configure_purges| |].
  - intros [] r [Hf Hno]. rewrite wp_bind, wp_modify, wp_bind, wp_modify, wp_ret. split; [|done].
    by split; [apply kin_root, kin_state, kin_registers|].
  - intros f r [Hf Ho]. rewrite wp_bind, wp_attempt, wp_zoom.
    eapply wp_mono; [by apply (steady_rollback_enable fades)| |].
    + intros [] r1 H1. rewrite wp_bind, wp_modify, wp_throw. left. split; [|done]. split; [|done].
      apply kin_state. etrans; [by apply kin_registers|by apply kin_registers].
    + intros g r1 [H1 _]. rewrite wp_bind, wp_modify, wp_throw. right. split; [|by intros []]. split; [|done].
      apply kin_state. etrans; [by apply kin_registers|by apply kin_registers].
Qed.

(** What [enable] leaves behind when it fails. *)
Definition enable_failed e (root n : Z) (f : VtdEngineFault.t) e' : Prop :=
  n = 0 ∧ f = InvalidPollLimit ∧ e' = e ∨
  n ≠ 0 ∧ validate_page root ≠ Ok () ∧ f = InvalidRootTable ∧ e' = e ∨
  n ≠ 0 ∧ validate_page root = Ok () ∧
  match state e with
  | Disabled =>
    becomes e Disabled None e' ∧ ordinary f ∨ becomes e ForeignOwned None e' ∧ f = ForeignOwnership ∨
    becomes e VtdEngineState.Poisoned None e' ∧ ¬ ordinary f
  | ForeignOwned => e' = e ∧ f = ForeignOwnership
  | _ => e' = e ∧ f = InvalidState
  end.

Lemma enable_ok e root n :
  engine_ok e →
  wp (enable root n)
    (λ receipt e', n ≠ 0 ∧ validate_page root = Ok () ∧ state e = Disabled ∧ becomes e Enabled (Some root) e' ∧ empty_caches e' ∧
       receipt = VtdEnableReceipt.mk (segment e) (register_base e) root (version e) (capabilities e))
    (enable_failed e root n) e.
Proof.
  intros [Hc Hi Ha]. unfold enable, enable_failed. wp_if; bool_to_prop; [rewrite wp_throw; by left|]. rewrite wp_bind.
  destruct (validate_page root) as [[]|] eqn:Hv; [|rewrite wp_throw; right; left; by split_and!].
  rewrite wp_ret, wp_bind, wp_get.
  destruct (state e) eqn:Hs; try (rewrite wp_throw; right; right; by split_and!). simpl in Ha.
  rewrite wp_bind. eapply wp_mono; [by apply (check_unowned_ok e)| |].
  - intros [] e1 H1. rewrite wp_bind. apply (wp_read _ e); [done|apply respected_read64| |].
    + intros previous e2 H2. eapply wp_mono; [apply take_over_ok; [done|]| |].
      * destruct H2 as ([_ _ _ _ [Hx _]] & _). by rewrite Hx.
      * intros receipt e3 (H3 & Hno & Hr). split_and!; [done..| |done|done]. by eapply peeks_becomes.
      * intros f e3 H3. right. right. split_and!; [done..|]. pose proof H2 as (_ & _ & Ho). rewrite Ho, Ha in H3.
        destruct H3 as [[H3 Hf]|[H3 Hf]]; [left|right; right]; (split; [by eapply peeks_becomes|done]).
    + intros f e2 Hf H2. right. right. split_and!; [done..|]. left. unfold peeks in H2. by rewrite Hs, Ha in H2.
  - intros f e1 H1. right. right. split_and!; [done..|]. unfold peeks in H1. rewrite Hs, Ha in H1.
    destruct H1 as [[H1 Hf]|[H1 Hf]]; [by left|by right; left].
Qed.

(** One read of [inspect], in a unit that has only been read since [r]. *)
Lemma wp_inspect_read {A B} (f : R → result A VtdRegisterError * R) (k : A → M R VtdEngineFault.t B) r r0 (Q : B → R → Prop) :
  (∀ x, fades x (snd (f x))) → fades r r0 →
  (∀ a r', f r0 = (Ok a, r') → fades r r' → wp (k a) Q (λ f r', fades r r' ∧ ordinary f) r') →
  wp (register f ≫= k) Q (λ f r', fades r r' ∧ ordinary f) r0.
Proof.
  intros Hf H0 HQ. rewrite wp_bind, wp_register. pose proof (Hf r0) as Hr.
  destruct (f r0) as [[a|x] r'] eqn:Heq; simpl in Hr; [apply HQ; [done|by etrans]|by split; [etrans|]].
Qed.

Lemma iro_bounds x last :
  Z.shiftr (Z.land x ECAP_IRO_MASK) ECAP_IRO_SHIFT * 16 ≠ 0 →
  checked_add 64 (Z.shiftr (Z.land x ECAP_IRO_MASK) ECAP_IRO_SHIFT * 16) 16 = Some last → last <= REGISTER_WINDOW_BYTES →
  0 < Z.shiftr (Z.land x ECAP_IRO_MASK) ECAP_IRO_SHIFT * 16 <= REGISTER_WINDOW_BYTES - 16.
Proof.
  intros Hne Hadd Hlast. unfold checked_add in Hadd. destruct (_ <? _); [|done]. injection Hadd as Hadd.
  assert (0 <= Z.shiftr (Z.land x ECAP_IRO_MASK) ECAP_IRO_SHIFT); [|lia].
  apply Z.shiftr_nonneg, Z.land_nonneg. by right.
Qed.

Lemma inspect_ok base r :
  wp (inspect base)
    (λ '(v, c, s) r', fades r r' ∧ caps_ok c ∧ VtdCapabilities.iotlb_register_offset c + 8 = iotlb_command (extended r') ∧
       VtdVersion.major v ≠ 0 ∧ validate_register_base base = Ok () ∧
       30 <= VtdCapabilities.maximum_guest_address_width c <= 64 ∧
       VtdCapabilities.supported_adjusted_guest_widths c ≠ 0 ∧ (s = Disabled ∨ s = ForeignOwned))
    (λ f r', fades r r' ∧ ordinary f) r.
Proof.
  unfold inspect. rewrite wp_bind, wp_lift. destruct (validate_register_base base) as [[]|f] eqn:Hb.
  2:{ split; [done|]. unfold validate_register_base in Hb. destruct (_ || _) in Hb; [|done]. by injection Hb as <-. }
  apply wp_inspect_read; [apply respected_read32|done|]. intros raw r1 _ H1. cbn [VtdVersion.major].
  destruct (Z.eqb_spec (Z.land (Z.shiftr raw 4) 15) 0) as [|Hv]; [rewrite wp_throw; by split|].
  apply wp_inspect_read; [apply respected_read64|done|]. intros cap r2 _ H2.
  apply wp_inspect_read; [apply respected_read64|done|]. intros ecap r3 Hecap H3. cbv zeta.
  pose proof (ecap_law _ _ _ Hecap) as Hx. pose proof H2 as [Hx2 _]. pose proof H3 as [Hx3 _].
  match goal with |- context [if ?b then _ else _] => destruct b eqn:Hguard end; [rewrite wp_throw; by split|].
  apply orb_false_iff in Hguard as [Hguard Hlast]. bool_to_prop.
  destruct (checked_add _ _ _) as [last|] eqn:Hadd; [|done]. bool_to_prop.
  pose proof (iro_bounds _ _ ltac:(eassumption) Hadd ltac:(eassumption)) as Hiro. unfold REGISTER_WINDOW_BYTES in Hiro.
  apply wp_inspect_read; [apply respected_read32|done|]. intros status r4 _ Hf4.
  apply wp_inspect_read; [apply respected_read64|done|]. intros context r5 _ Hf5. rewrite wp_bind. apply wp_add; [lia|].
  apply wp_inspect_read; [apply respected_read64|done|]. intros iotlb r6 _ Hf6. rewrite wp_ret.
  split_and!; [done|exact Hiro| |done|done|simpl; lia|simpl; lia|simpl; lia|].
  - pose proof Hf6 as [Hx6 _]. rewrite Hx6, <-Hx2, <-Hx. done.
  - destruct (_ || _); [by right|by left].
Qed.

Lemma probe_ok unit r :
  wp (probe unit)
    (λ e r', engine_ok e ∧ fades r r' ∧ registers e = r' ∧ (state e = Disabled ∨ state e = ForeignOwned) ∧
       segment e = DmarRemappingUnit.segment unit ∧ register_base e = DmarRemappingUnit.register_base unit)
    (λ f r', fades r r' ∧ ordinary f) r.
Proof.
  unfold probe. rewrite wp_bind, wp_lift. destruct (validate_unit unit) as [[]|f] eqn:Hb.
  2:{ split; [done|]. unfold validate_unit, validate_register_base in Hb. destruct (_ || _) in Hb; [|done]. by injection Hb as <-. }
  unfold probe_at. rewrite wp_bind. eapply wp_mono; [apply inspect_ok| |done].
  intros [[v c] s] r1 (Hf & Hc & Hi & _ & _ & _ & _ & Hs). rewrite wp_bind, wp_get, wp_ret. split_and!; try done.
  split; [done|done|]. simpl. by destruct Hs as [->| ->].
Qed.
End engine.
