(* ===== verification/VtdEngineProperties.v ===== *)
(** * What the remapping engine guarantees

    The theorems about [VtdRemappingEngine] over every history of a probed
    engine, for any unit that keeps the documented behaviour of its invalidation
    registers; and a unit on which they apply. *)
From S2P Require Import Prelude Acpi Slpt SlptTree SlptLedger SlptPath VtdMemory VtdTables VtdEngine VtdEngineFacts.
Import VtdEngineState VtdEngineFault VtdRemappingEngine.

(** ** Histories *)

Module VtdEngineRuns.
Section runs.
Context {R : Type} {HB : VtdRegisterBackend R} {HU : VtdUnitLaws R}.
Implicit Types (e : VtdRemappingEngine.t R).

Inductive call := Enable (root limit : Z) | Disable (limit : Z) | Commit (limit : Z).
Definition run (k : call) : M (VtdRemappingEngine.t R) VtdEngineFault.t unit :=
  match k with
  | Enable root limit => enable root limit ;; mret ()
  | Disable limit => disable limit
  | Commit limit => commit_table_update limit
  end.

(** Between calls the unit works on: its caches fill as they like. *)
Inductive step e : VtdRemappingEngine.t R → Prop :=
| step_done k e' : run k e = Done () e' → step e e'
| step_fail k f e' : run k e = Fail f e' → step e e'
| step_unit r : extended r = extended (registers e) → step e (with_registers r e).

Definition probed (unit : DmarRemappingUnit.t) e : Prop := ∃ r r', probe unit r = Done e r'.

(** The state and the root that a call that succeeds leaves. *)
Definition leads (k : call) e e' : Prop :=
  match k with
  | Enable root _ => state e = Disabled ∧ state e' = Enabled ∧ owned_root e' = Some root ∧ validate_page root = Ok ()
  | Disable _ => state e = Enabled ∧ state e' = Disabled ∧ owned_root e' = None
  | Commit _ => state e = Enabled ∧ state e' = Enabled ∧ owned_root e' = owned_root e
  end.
(** And one that fails. *)
Definition fails (k : call) (f : VtdEngineFault.t) e e' : Prop :=
  state e' = state e ∧ owned_root e' = owned_root e ∧ (state e ≠ Disabled → state e ≠ Enabled → e' = e) ∨
  state e ≠ Poisoned ∧ state e' = Poisoned ∧ (match k with Commit _ => True | _ => ¬ ordinary f end) ∨
  (∃ root limit, k = Enable root limit) ∧ state e = Disabled ∧ state e' = ForeignOwned ∧ f = ForeignOwnership.

Lemma enable_run e root limit :
  engine_ok e →
  wp (enable root limit) (λ _ e', kin e e' ∧ engine_ok e' ∧ leads (Enable root limit) e e' ∧ empty_caches e')
    (λ f e', kin e e' ∧ engine_ok e' ∧ fails (Enable root limit) f e e') e.
Proof.
  intros Hok. eapply wp_mono; [by apply enable_ok| |].
  - intros receipt e' (_ & Hv & Hs & (Hk & Hs' & Ho) & Hempty & _). split; [done|]. split; [|by split_and!].
    apply (kin_ok e); [done..|]. rewrite Hs', Ho. simpl. eauto.
  - intros f e' Hf. assert (∀ s o, becomes e s o e' → authority s o → kin e e' ∧ engine_ok e') as Hb.
    { intros s o (Hk & <- & <-) Ha. split; [done|]. by apply (kin_ok e). }
    assert (kin e e ∧ engine_ok e ∧ fails (Enable root limit) f e e) as Hsame by (split; [done|]; split; [done|]; by left).
    destruct Hf as [(_ & _ & ->)|[(_ & _ & _ & ->)|(_ & _ & Hcase)]]; [done..|].
    destruct (state e) eqn:Hs; try (by destruct Hcase as [-> _]).
    pose proof (eng_root _ Hok) as Ha. rewrite Hs in Ha. simpl in Ha. unfold fails. rewrite Hs, Ha.
    destruct Hcase as [[Hbe _]|[[Hbe Hf]|[Hbe Hf]]]; destruct (Hb _ _ Hbe) as [Hk Hok']; try done;
      destruct Hbe as (_ & Hs' & Ho'); (split; [done|]; split; [done|]); rewrite Hs', ?Ho'.
    + by left.
    + right. right. split; [eauto|]. done.
    + right. left. done.
Qed.

Lemma engine_run_ok e k :
  engine_ok e →
  wp (run k) (λ _ e', kin e e' ∧ engine_ok e' ∧ leads k e e' ∧ empty_caches e')
    (λ f e', kin e e' ∧ engine_ok e' ∧ fails k f e e') e.
Proof.
  intros Hok. pose proof (eng_root _ Hok) as Ha. destruct k as [root limit|limit|limit]; simpl run.
  - rewrite wp_bind. eapply wp_mono; [by apply enable_run| |done]. intros receipt e' He. by rewrite wp_ret.
  - eapply wp_mono; [by apply disable_ok| |].
    + intros [] e' (_ & Hs & (Hk & Hs' & Ho) & Hempty & _). split; [done|]. split; [|done].
      apply (kin_ok e); [done..|]. by rewrite Hs', Ho.
    + intros f e' [[_ ->]|(_ & Hs & [(Hf & Hk & Hs' & Ho)|(Hf & Hk & Hs' & Ho)])].
      * split; [done|]. split; [done|]. by left.
      * rewrite Hs in Ha. split; [done|]. split; [apply (kin_ok e); [done..|]; by rewrite Hs', Ho|].
        left. split_and!; [congruence|done|congruence].
      * split; [done|]. split; [apply (kin_ok e); [done..|]; by rewrite Hs'|]. right. left. split_and!; [congruence|done..].
  - eapply wp_mono; [by apply engine_commit_ok| |].
    + intros [] e' (_ & Hs & (Hk & Hs' & Ho) & Hempty). split; [done|]. split; [|by split_and!].
      rewrite Hs in Ha. apply (kin_ok e); [done..|]. by rewrite Hs', Ho.
    + intros f e' [[_ ->]|(_ & Hs & _ & Hk & Hs' & Ho)].
      * split; [done|]. split; [done|]. by left.
      * split; [done|]. split; [apply (kin_ok e); [done..|]; by rewrite Hs'|]. right. left. split_and!; [congruence|done..].
Qed.

Lemma engine_step_ok e e' : engine_ok e → step e e' → engine_ok e'.
Proof.
  intros Hok [k e1 Hrun|k f e1 Hrun|r Hx].
  - exact (proj1 (proj2 (wp_Done _ _ _ _ _ _ (engine_run_ok e k Hok) Hrun))).
  - exact (proj1 (proj2 (wp_Fail _ _ _ _ _ _ (engine_run_ok e k Hok) Hrun))).
  - destruct Hok as [H1 H2 H3]. split; simpl; [done|by rewrite Hx|done].
Qed.
Lemma engine_history unit e0 e : probed unit e0 → rtc step e0 e → engine_ok e.
Proof.
  intros (r & r' & Hp) Hr. pose proof (wp_Done _ _ _ _ _ _ (probe_ok unit r) Hp) as (Hok & _).
  revert Hok. apply (rtc_invariant step engine_ok); [|done]. intros x y Hs Hx. by eapply engine_step_ok.
Qed.
End runs.
End VtdEngineRuns.

(** ** Theorems *)

Module VtdEngineClaims.
Import VtdEngineRuns.

Section claims.
Context {R : Type} {HB : VtdRegisterBackend R} {HU : VtdUnitLaws R}.
Implicit Types (e : VtdRemappingEngine.t R).

(** C10: In every history of a probed engine each call returns.  A call that
    succeeds takes the engine from the one state in which it is allowed to the
    one it announces, and leaves both caches of the unit empty; a call that
    fails leaves state and root as they were, or poisons the engine, or finds a
    foreign owner when it should be enabled.  Enabling and disabling poison only
    when their rollback failed too. *)
Theorem engine_calls_decided unit e0 e k :
  probed unit e0 → rtc step e0 e →
  match run k e with
  | Done _ e' => leads k e e' ∧ empty_caches e'
  | Fail f e' => fails k f e e'
  | Panic => False
  end.
Proof.
  intros Hp Hr. pose proof (engine_run_ok e k (engine_history _ _ _ Hp Hr)) as Hwp. unfold wp in Hwp.
  destruct (run k e) as [[] e'|f e'|]; [|by destruct Hwp as (_ & _ & ?)|done]. by destruct Hwp as (_ & _ & ? & ?).
Qed.

Lemma poisoned_refuses e k : engine_ok e → state e = Poisoned → ∃ f, run k e = Fail f e.
Proof.
  intros Hok Hs. pose proof (engine_run_ok e k Hok) as Hwp. unfold wp in Hwp.
  destruct (run k e) as [[] e'|f e'|]; [| |done].
  - destruct Hwp as (_ & _ & Hl & _). destruct k; destruct Hl as [Hl _]; congruence.
  - exists f. destruct Hwp as (_ & _ & [(_ & _ & He)|[[? _]|(_ & ? & _)]]); [|congruence..].
    rewrite He; [done|by rewrite Hs..].
Qed.

(** A poisoned engine stays poisoned, and every further call is refused
    before it touches a register. *)
Theorem engine_poison_final unit e0 e e' k :
  probed unit e0 → rtc step e0 e → state e = Poisoned → rtc step e e' →
  state e' = Poisoned ∧ ∃ f, run k e' = Fail f e'.
Proof.
  intros Hp Hr Hs Hr'. assert (engine_ok e' ∧ state e' = Poisoned) as [Hok Hs'].
  { apply (rtc_invariant step (λ x, engine_ok x ∧ state x = Poisoned) e e'); [|done|by split; [eapply engine_history|]].
    intros x y Hxy [Hx Hxs]. split; [by eapply engine_step_ok|]. destruct Hxy as [j y Hrun|j f y Hrun|r Hx']; [| |done].
    - destruct (poisoned_refuses x j Hx Hxs) as [f Hf]. congruence.
    - destruct (poisoned_refuses x j Hx Hxs) as [f' Hf]. congruence. }
  split; [done|]. by apply poisoned_refuses.
Qed.
End claims.

(** A global command is one write of the command register.  It repeats every
    persistent state bit of the status just read but translation enable, sets or
    clears translation enable as asked or repeats it, and has of the other bits
    only those of the one-shot command: no command turns another one off. *)
Theorem global_command_word {R} `{VtdRegisterBackend R} (r r1 : R) status te one_shot :
  read_u32 GSTS r = (Ok status, r1) → u32 status →
  ∃ word, issue_global_command te one_shot r = register (write_u32 GCMD word) r1 ∧
    ∀ n, 0 <= n → Z.testbit word n =
      Z.testbit one_shot n ||
      (if n =? 31 then match te with Some b => b | None => Z.testbit status n end
       else Z.testbit status n && Z.testbit GSTS_PERSISTENT_COMMAND_STATE n).
Proof.
  intros Hread Hst. unfold issue_global_command, mbind, M_bind. unfold register at 1. rewrite Hread. eexists. split; [done|].
  intros n Hn. rewrite Z.lor_spec, orb_comm. f_equal.
  assert (∀ m, 0 <= m → Z.testbit GCMD_TE m = (m =? 31)) as Hte.
  { intros m Hm. unfold GCMD_TE. rewrite Z.shiftl_1_l, Z.pow2_bits_eqb by lia. apply Z.eqb_sym. }
  destruct (Z.eqb_spec n 31) as [->|Hne].
  - assert (Z.testbit GSTS_PERSISTENT_COMMAND_STATE 31 = true) as Hp by done.
    destruct te as [[]|]; rewrite ?Z.lor_spec, ?Z.land_spec, ?Hp, ?Hte by lia; [by rewrite orb_true_r| |by rewrite andb_true_r].
    replace (Z.testbit (bitnot 32 GCMD_TE) 31) with false by done. by rewrite andb_false_r.
  - destruct te as [[]|]; rewrite ?Z.lor_spec, ?Z.land_spec, ?Hte by lia; [|  |done].
    + apply Z.eqb_neq in Hne. by rewrite Hne, orb_false_r.
    + destruct (Z.lt_ge_cases n 32) as [Hlt|Hge].
      * assert (Z.testbit (bitnot 32 GCMD_TE) n = true) as ->; [|by rewrite andb_true_r].
        assert (n ∈ range 0 31) as Hin by (apply elem_of_range; lia).
        assert (Forall (λ m, Z.testbit (bitnot 32 GCMD_TE) m = true) (range 0 31)) as Hall by (vm_compute; repeat constructor).
        rewrite Forall_forall in Hall. by apply Hall.
      * by rewrite (testbit_out_of_width 32 status) by done.
Qed.
End VtdEngineClaims.

(** ** A unit on which they apply *)

(** A unit with a 39-bit guest width that completes the commands it still has
    patience for when the engine relaxes. *)
Module RegisterUnit.
Record t := mk {
  contexts : list (Z * Z);
  translations : list (Z * Z);
  root : Z;
  status : Z;
  context_command : Z;
  iotlb_command : Z;
  patience : nat;
}.
Definition blank (n : nat) : t := mk [(0, 1)] [(0x7000, 0x9003)] 0 0 0 0 n.

Definition CAPABILITIES : Z := Z.lor (Z.shiftl 1 8) (Z.shiftl 38 CAP_MGAW_SHIFT).
Definition EXTENDED : Z := Z.shiftl 0x10 ECAP_IRO_SHIFT.
Definition IOTLB : Z := 0x108.

Definition read32 (o : Z) (r : t) : Z :=
  if o =? VER then 0x10 else if o =? GSTS then status r else 0.
Definition read64 (o : Z) (r : t) : Z :=
  if o =? CAP then CAPABILITIES else if o =? ECAP then EXTENDED else if o =? RTADDR then root r
  else if o =? CCMD then context_command r else if o =? IOTLB then iotlb_command r else 0.
Definition write32 (o v : Z) (r : t) : t :=
  if o =? GCMD
  then mk (contexts r) (translations r) (root r)
         (Z.lor (Z.land v GCMD_TE) (if any_set v GCMD_SRTP then GSTS_RTPS else Z.land (status r) GSTS_RTPS))
         (context_command r) (iotlb_command r) (patience r)
  else r.
Definition write64 (o v : Z) (r : t) : t :=
  if o =? RTADDR then mk (contexts r) (translations r) v (status r) (context_command r) (iotlb_command r) (patience r)
  else if o =? CCMD
  then (if any_set v CCMD_ICC then mk (contexts r) (translations r) (root r) (status r) v (iotlb_command r) (patience r) else r)
  else if o =? IOTLB
  then (if any_set v IOTLB_IVT then mk (contexts r) (translations r) (root r) (status r) (context_command r) v (patience r) else r)
  else r.
Definition work (r : t) : t :=
  match patience r with
  | O => r
  | S n =>
    if any_set (context_command r) CCMD_ICC
    then mk [] (translations r) (root r) (status r) CCMD_CAIG_GLOBAL (iotlb_command r) n
    else if any_set (iotlb_command r) IOTLB_IVT
    then mk (contexts r) [] (root r) (status r) (context_command r) IOTLB_IAIG_GLOBAL n
    else r
  end.
#[global] Instance backend : VtdRegisterBackend t := {
  read_u32 o r := (Ok (read32 o r), r);
  write_u32 o v r := (Ok (), write32 o v r);
  read_u64 o r := (Ok (read64 o r), r);
  write_u64 o v r := (Ok (), write64 o v r);
  relax := work;
}.

Definition cache_of (r : t) (k : cache) : list (Z * Z) := match k with ContextCache => contexts r | Iotlb => translations r end.
Definition register_of (r : t) (k : cache) : Z := match k with ContextCache => context_command r | Iotlb => iotlb_command r end.
(** A purge was requested, or has been done. *)
Definition started (r : t) (k : cache) : Prop := any_set (register_of r k) (running k) = true ∨ cache_of r k = [].

Lemma work_fades r k : cache_of (work r) k ⊆ cache_of r k.
Proof. unfold work. repeat case_match; destruct k; simpl; done || apply list_subseteq_nil. Qed.
Lemma work_started r k : started r k → started (work r) k.
Proof.
  intros Hs. unfold work. repeat case_match; destruct k; simpl; try done; unfold started in *; simpl in *; by right.
Qed.

#[global, refine] Instance laws : VtdUnitLaws t := {
  stored r k x e := (x, e) ∈ cache_of r k;
  extended _ := EXTENDED;
  purging := started;
  translating r := any_set (status r) GSTS_TES = true;
}.
Proof.
  - done.
  - done.
  - intros r. split; [|intros k; apply work_started]. split; [done|]. intros k x e. apply work_fades.
  - intros o v r. split; [done|]. intros k x e. unfold write_u32, backend, write32. simpl. by repeat case_match; destruct k.
  - intros o v r. split; [done|]. intros k x e. unfold write_u64, backend, write64. simpl. by repeat case_match; destruct k.
  - intros r v r' [= <- <-]. done.
  - intros k r r' [= <-]. left. by destruct k.
  - intros k r v r' Hp [= <- <-] Hv _ x e. destruct Hp as [Hp|Hp].
    + exfalso. by destruct k; simpl in *; unfold read64 in Hv; simpl in Hv; rewrite Hp in Hv.
    + rewrite Hp. by intros ?%elem_of_nil.
  - done.
  - done.
  - intros r. unfold relax, backend, work. by repeat case_match.
  - intros k v r. unfold write_u64, backend, write64. destruct k; simpl; by repeat case_match.
  - intros r v r' [= <- <-] Hv. unfold read32 in Hv. simpl in Hv. congruence.
Defined.
End RegisterUnit.

Module VtdEngineWitnesses.
Import VtdEngineRuns VtdEngineClaims.

Definition unit0 : DmarRemappingUnit.t := DmarRemappingUnit.mk 0 0xfed90000 false 0 1 0.
Definition engine0 (n : nat) : VtdRemappingEngine.t RegisterUnit.t :=
  match probe unit0 (RegisterUnit.blank n) with
  | Done e _ => e
  | _ => VtdRemappingEngine.mk 0 0 (RegisterUnit.blank n) (VtdVersion.mk 0 0) (VtdCapabilities.mk 0 0 0 0 false 0) Disabled None
  end.
Lemma engine0_probed n : probed unit0 (engine0 n).
Proof. by exists (RegisterUnit.blank n), (RegisterUnit.blank n). Qed.

(** The engine after a call that succeeded or failed. *)
Definition after (k : call) (e : VtdRemappingEngine.t RegisterUnit.t) : VtdRemappingEngine.t RegisterUnit.t :=
  match run k e with Done _ e' | Fail _ e' => e' | Panic => e end.
Lemma after_step k e : rtc step e (after k e).
Proof.
  unfold after. destruct (run k e) as [[] e'|f e'|] eqn:Hrun; [| |done]; apply rtc_once; [by eapply step_done|by eapply step_fail].
Qed.
Definition enabled0 (n : nat) := after (Enable 0x5000 4) (engine0 n).

Lemma engine_calls_decided_witness :
  ∃ e', run (Commit 4) (enabled0 9) = Done () e' ∧ state e' = Enabled ∧ empty_caches e'.
Proof.
  pose proof (engine_calls_decided unit0 (engine0 9) (enabled0 9) (Commit 4) (engine0_probed 9) (after_step _ _)) as Hdec.
  destruct (value_done (run (Commit 4) (enabled0 9)) ()) as [e' Hrun]; [vm_compute; reflexivity|].
  rewrite Hrun in Hdec. exists e'. destruct Hdec as [(_ & Hs & _) Hempty]. split; [exact Hrun|]. split; [exact Hs|exact Hempty].
Defined.

(** The unit completes the two purges of [enable] and no further one. *)
Definition poisoned0 := after (Commit 4) (enabled0 2).
Lemma engine_poison_final_witness : state poisoned0 = Poisoned ∧ ∃ f, run (Enable 0x5000 4) poisoned0 = Fail f poisoned0.
Proof.
  apply (engine_poison_final unit0 (engine0 2) poisoned0 poisoned0 (Enable 0x5000 4) (engine0_probed 2)).
  - transitivity (enabled0 2); apply after_step.
  - vm_compute. reflexivity.
  - apply rtc_refl.
Defined.

Lemma global_command_word_witness :
  ∃ word, issue_global_command (Some true) 0 (RegisterUnit.blank 0) =
            register (write_u32 GCMD word) (RegisterUnit.blank 0) ∧ Z.testbit word 31 = true.
Proof.
  assert (read_u32 GSTS (RegisterUnit.blank 0) = (Ok 0, RegisterUnit.blank 0)) as Hread by (vm_compute; reflexivity).
  destruct (global_command_word (RegisterUnit.blank 0) (RegisterUnit.blank 0) 0 (Some true) 0 Hread ltac:(done)) as (word & Hrun & Hbit).
  exists word. split; [exact Hrun|]. exact (Hbit 31 ltac:(done)).
Defined.
End VtdEngineWitnesses.
