(* ===== verification/Iommu.v ===== *)
(** * IOMMU domains

    Models [kernel/boulder/src/hw/iommu.rs]: the owner of one device's remapping
    domain.  It leases device addresses from the ledger of [Iova], tells the
    remapping backend what to translate, and issues generation-tagged handles for
    the mappings.  The backend is the source's trait [DmaRemappingBackend], an
    interface whose calls return a status and may change the backend in any way.

    [Module IommuDomain] holds the definitions. *)
From S2P Require Import Prelude Iova XhciDma.

(** ** Statuses of the driver ABI *)

Definition STATUS_OK : Z := 0.
Definition STATUS_INVALID_ARGUMENT : Z := -1.
Definition STATUS_UNSUPPORTED : Z := -2.
Definition STATUS_BUSY : Z := -4.
Definition STATUS_NOT_FOUND : Z := -5.
Definition STATUS_IO_ERROR : Z := -6.

Definition MAXIMUM_DOMAIN_MAPPINGS : Z := 128.
Definition MAXIMUM_RESERVED_IOVA_RANGES : Z := 16.

Module DmaAccess.
(** The access bits, a [u8]. *)
Definition t : Type := Z.
Definition READ : t := Z.shiftl 1 0.
Definition WRITE : t := Z.shiftl 1 1.
Definition READ_WRITE : t := Z.lor READ WRITE.
Definition is_valid (self : t) : bool :=
  negb (self =? 0) && (Z.land self (bitnot 8 READ_WRITE) =? 0).
End DmaAccess.

Class DmaRemappingBackend (B : Type) := {
  isolate_device : PciAddress.t → B → result Z Z * B;
  map : Z → Z → Z → Z → DmaAccess.t → B → Z * B;
  unmap : Z → Z → Z → B → Z * B;
  release_domain : Z → B → Z * B;
}.

Module DmaMappingHandle.
Record t := mk { slot : Z; generation : Z }.
#[global] Instance t_eq_dec : EqDecision t.
Proof. solve_decision. Defined.

Definition from_raw (raw : Z) : option t :=
  let encoded_slot := wrap 32 raw in
  let generation := wrap 32 (Z.shiftr raw 32) in
  if (encoded_slot =? 0) || (generation =? 0) || (MAX 16 + 1 <? encoded_slot) then None
  else Some (mk (wrap 16 (encoded_slot - 1)) generation).

Definition raw (self : t) : Z := Z.lor (wrap 64 (Z.shiftl (generation self) 32)) (slot self + 1).
End DmaMappingHandle.

Module DmaMappingInfo.
Record t := mk { device_address : Z; physical_address : Z; length : Z; access : DmaAccess.t }.
#[global] Instance t_eq_dec : EqDecision t.
Proof. solve_decision. Defined.
End DmaMappingInfo.

Module DmaMapping.
(** [MappingRecord]. *)
Record t := mk {
  generation : Z;
  lease : IovaLease.t;
  physical_address : Z;
  length : Z;
  access : DmaAccess.t;
  hardware_mapped : bool;
  active : bool;
}.
Definition empty_at (generation : Z) : t := mk generation IovaLease.INVALID 0 0 0 false false.
Definition EMPTY : t := empty_at 0.
Definition unmapped (r : t) : t :=
  mk (generation r) (lease r) (physical_address r) (length r) (access r) false (active r).
End DmaMapping.

Definition ranges_overlap (left_start left_size right_start right_size : Z) : bool :=
  match checked_add 64 left_start left_size with
  | None => true
  | Some left_end =>
    match checked_add 64 right_start right_size with
    | None => true
    | Some right_end => (left_start <? right_end) && (right_start <? left_end)
    end
  end.

Definition iova_configuration_status (_ : IovaError) : Z := STATUS_INVALID_ARGUMENT.

Definition iova_runtime_status (error : IovaError) : Z :=
  match error with
  | InvalidRange | InvalidRequest => STATUS_INVALID_ARGUMENT
  | LeaseCapacity | AddressSpaceExhausted => STATUS_BUSY
  | ExactRangeUnavailable => STATUS_BUSY
  | StaleLease => STATUS_NOT_FOUND
  | InvalidCapacity | ReservedCapacity | ReservedOutsideAperture | OverlappingReservedRanges
  | BatchOutputMismatch => STATUS_IO_ERROR
  end.

Module IommuDomain.

Record t := mk {
  handle : Z;
  device : PciAddress.t;
  active : bool;
  poisoned : bool;
  iovas : IovaLedger.t;
  mappings : list DmaMapping.t;
  mapping_count : Z;
}.

Definition with_active (b : bool) (d : t) : t :=
  mk (handle d) (device d) b (poisoned d) (iovas d) (mappings d) (mapping_count d).
Definition with_poisoned (b : bool) (d : t) : t :=
  mk (handle d) (device d) (active d) b (iovas d) (mappings d) (mapping_count d).
Definition with_iovas (l : IovaLedger.t) (d : t) : t :=
  mk (handle d) (device d) (active d) (poisoned d) l (mappings d) (mapping_count d).
Definition with_mappings (l : list DmaMapping.t) (n : Z) (d : t) : t :=
  mk (handle d) (device d) (active d) (poisoned d) (iovas d) l n.

(** A ledger operation on a ledger of its own: a copy, or a read. *)
Definition peek {S E A} (l : IovaLedger.t) (m : M IovaLedger.t IovaError A) :
    M S E (result (A * IovaLedger.t) IovaError) :=
  match m l with
  | Done a l' => mret (Ok (a, l'))
  | Fail e _ => mret (Err e)
  | Panic => panic
  end.

Section operations.
Context {B : Type} `{DmaRemappingBackend B}.

(** A domain with its backend. *)
Record world := World { domain : t; backend : B }.

Definition self {E} : M world E t := gets domain.
Definition set_self {E} (d : t) : M world E unit := modify (λ w, World d (backend w)).
Definition on_backend {E} (f : B → Z * B) : M world E Z := λ w,
  let '(status, b) := f (backend w) in Done status (World (domain w) b).
Definition poison {E} : M world E unit := d ← self; set_self (with_poisoned true d).

(** The domain is the value returned; the state is the backend. *)
Definition isolate (device : PciAddress.t) (aperture : IovaRange.t) (reserved : list IovaRange.t)
    (scratch : IovaLedger.t) : M B Z t :=
  iovas ← (match IovaLedger.new (Z.to_nat MAXIMUM_DOMAIN_MAPPINGS) (Z.to_nat MAXIMUM_RESERVED_IOVA_RANGES)
                   aperture reserved scratch with
           | Done _ l => mret l
           | Fail e _ => throw (iova_configuration_status e)
           | Panic => panic
           end);
  b ← get;
  let '(answer, b') := isolate_device device b in
  put b' ;;
  handle ← lift answer;
  if handle =? 0 then throw STATUS_UNSUPPORTED else
  mret (mk handle device true false iovas
          (replicate (Z.to_nat MAXIMUM_DOMAIN_MAPPINGS) DmaMapping.EMPTY) 0).

Definition is_current (mapping : DmaMappingHandle.t) (record : DmaMapping.t) : bool :=
  DmaMapping.active record && (DmaMapping.generation record =? DmaMappingHandle.generation mapping).

Definition mapping_info {E} (mapping : DmaMappingHandle.t) : M world E (option DmaMappingInfo.t) :=
  d ← self;
  match mappings d !! Z.to_nat (DmaMappingHandle.slot mapping) with
  | None => mret None
  | Some record =>
    if negb (is_current mapping record) then mret None else
    found ← peek (iovas d) (IovaLedger.range (DmaMapping.lease record));
    match found with
    | Err _ => mret None
    | Ok (range, _) =>
      length ← IovaRange.length range;
      if length =? DmaMapping.length record
      then mret (Some (DmaMappingInfo.mk (IovaRange.start range) (DmaMapping.physical_address record)
                         (DmaMapping.length record) (DmaMapping.access record)))
      else mret None
    end
  end.

Definition slot_available (record : DmaMapping.t) : bool :=
  negb (DmaMapping.active record) && negb (DmaMapping.generation record =? MAX 32).

(** The end of both map operations, from the backend call on. *)
Definition commit (slot : nat) (candidate_iovas : IovaLedger.t) (lease : IovaLease.t)
    (device_address physical_address size : Z) (access : DmaAccess.t) : M world Z DmaMappingHandle.t :=
  d ← self;
  status ← on_backend (map (handle d) device_address physical_address size access);
  if negb (status =? STATUS_OK) then throw status else
  let d := with_iovas candidate_iovas d in
  record ← index (mappings d) (Z.of_nat slot);
  generation ← add 32 (DmaMapping.generation record) 1;
  l ← store (mappings d) (Z.of_nat slot)
        (DmaMapping.mk generation lease physical_address size access true true);
  count ← add 64 (mapping_count d) 1;
  set_self (with_mappings l count d) ;;
  mret (DmaMappingHandle.mk (wrap 16 (Z.of_nat slot)) generation).

Definition map_dma_aligned (physical_address size alignment_pages : Z) (access : DmaAccess.t) :
    M world Z DmaMappingHandle.t :=
  d ← self;
  if negb (active d) then throw STATUS_INVALID_ARGUMENT else
  if poisoned d then throw STATUS_IO_ERROR else
  if (size =? 0) || negb (physical_address mod IOVA_PAGE_SIZE =? 0) || negb (size mod IOVA_PAGE_SIZE =? 0)
     || negb (bool_decide (is_Some (checked_add 64 physical_address size))) || negb (DmaAccess.is_valid access)
  then throw STATUS_INVALID_ARGUMENT else
  if existsb (λ record, ranges_overlap (DmaMapping.physical_address record) (DmaMapping.length record)
                          physical_address size) (List.filter DmaMapping.active (mappings d))
  then throw STATUS_BUSY else
  slot ← ok_or (position slot_available (mappings d)) STATUS_BUSY;
  let page_count := size / IOVA_PAGE_SIZE in
  reserved ← peek (iovas d) (IovaLedger.reserve_aligned page_count alignment_pages);
  match reserved with
  | Err e => throw (iova_runtime_status e)
  | Ok (lease, candidate_iovas) =>
    found ← peek candidate_iovas (IovaLedger.range lease);
    match found with
    | Err _ => poison ;; throw STATUS_IO_ERROR
    | Ok (range, _) =>
      length ← IovaRange.length range;
      if length =? size then commit slot candidate_iovas lease (IovaRange.start range) physical_address size access
      else poison ;; throw STATUS_IO_ERROR
    end
  end.

Definition map_dma (physical_address size : Z) (access : DmaAccess.t) : M world Z DmaMappingHandle.t :=
  map_dma_aligned physical_address size 1 access.

(** The conflict test of [map_dma_at], over the active records. *)
Fixpoint conflicts_at (l : IovaLedger.t) (records : list DmaMapping.t)
    (device_address physical_address size : Z) : M world Z bool :=
  match records with
  | [] => mret false
  | record :: rest =>
    if ranges_overlap (DmaMapping.physical_address record) (DmaMapping.length record) physical_address size
    then mret true else
    found ← peek l (IovaLedger.range (DmaMapping.lease record));
    if match found with
       | Ok (range, _) => ranges_overlap (IovaRange.start range) (DmaMapping.length record) device_address size
       | Err _ => true
       end
    then mret true else conflicts_at l rest device_address physical_address size
  end.

Definition map_dma_at (device_address physical_address size : Z) (access : DmaAccess.t) :
    M world Z DmaMappingHandle.t :=
  d ← self;
  if negb (active d) || poisoned d
  then throw (if poisoned d then STATUS_IO_ERROR else STATUS_INVALID_ARGUMENT) else
  if (size =? 0) || negb (device_address mod IOVA_PAGE_SIZE =? 0)
     || negb (physical_address mod IOVA_PAGE_SIZE =? 0) || negb (size mod IOVA_PAGE_SIZE =? 0)
     || negb (bool_decide (is_Some (checked_add 64 device_address size)))
     || negb (bool_decide (is_Some (checked_add 64 physical_address size))) || negb (DmaAccess.is_valid access)
  then throw STATUS_INVALID_ARGUMENT else
  conflict ← conflicts_at (iovas d) (List.filter DmaMapping.active (mappings d))
               device_address physical_address size;
  if (conflict : bool) then throw STATUS_BUSY else
  slot ← ok_or (position slot_available (mappings d)) STATUS_BUSY;
  range ← map_err iova_runtime_status (lift (IovaRange.new device_address size));
  reserved ← peek (iovas d) (IovaLedger.reserve_exact range);
  match reserved with
  | Err e => throw (iova_runtime_status e)
  | Ok (lease, candidate_iovas) =>
    commit slot candidate_iovas lease device_address physical_address size access
  end.

(** [self.mappings[slot].hardware_mapped = false]. *)
Definition mark_unmapped {E} (slot : Z) : M world E unit :=
  d ← self;
  record ← index (mappings d) slot;
  l ← store (mappings d) slot (DmaMapping.unmapped record);
  set_self (with_mappings l (mapping_count d) d).

(** [self.iovas.release(lease)], as whether it succeeded. *)
Definition release_lease {E} (lease : IovaLease.t) : M world E bool :=
  d ← self;
  match IovaLedger.release lease (iovas d) with
  | Done _ l => set_self (with_iovas l d) ;; mret true
  | Fail _ l => set_self (with_iovas l d) ;; mret false
  | Panic => panic
  end.

(** The record is emptied but keeps its generation; one mapping fewer. *)
Definition retire {E} (slot : Z) (record : DmaMapping.t) : M world E unit :=
  d ← self;
  l ← store (mappings d) slot (DmaMapping.empty_at (DmaMapping.generation record));
  count ← sub (mapping_count d) 1;
  set_self (with_mappings l count d).

Definition revoke_dma {E} (mapping : DmaMappingHandle.t) : M world E Z :=
  d ← self;
  if negb (active d) then mret STATUS_INVALID_ARGUMENT else
  if poisoned d then mret STATUS_IO_ERROR else
  let slot := DmaMappingHandle.slot mapping in
  match mappings d !! Z.to_nat slot with
  | None => mret STATUS_NOT_FOUND
  | Some record =>
    if negb (is_current mapping record) then mret STATUS_NOT_FOUND else
    found ← peek (iovas d) (IovaLedger.range (DmaMapping.lease record));
    match found with
    | Err _ => poison ;; mret STATUS_IO_ERROR
    | Ok (range, _) =>
      length ← IovaRange.length range;
      if negb (length =? DmaMapping.length record) || negb (DmaMapping.hardware_mapped record)
      then poison ;; mret STATUS_IO_ERROR else
      status ← on_backend (unmap (handle d) (IovaRange.start range) (DmaMapping.length record));
      if negb (status =? STATUS_OK) then mret status else
      mark_unmapped slot ;;
      released ← release_lease (DmaMapping.lease record);
      if negb released then poison ;; mret STATUS_IO_ERROR else
      retire slot record ;; mret STATUS_OK
    end
  end.

(** On an error the domain goes back to the caller: it is the state left. *)
Definition release : M world Z unit :=
  d ← self;
  if poisoned d then throw STATUS_IO_ERROR else
  if negb (mapping_count d =? 0) then throw STATUS_BUSY else
  if negb (IovaLedger.active_count (iovas d) =? 0) then poison ;; throw STATUS_IO_ERROR else
  status ← on_backend (release_domain (handle d));
  if status =? STATUS_OK then set_self (with_active false d) else throw status.

(** One record of the drain in [drop]: whether it is drained. *)
Definition drain {E} (slot : Z) : M world E bool :=
  d ← self;
  record ← index (mappings d) slot;
  if negb (DmaMapping.active record) then mret true else
  found ← peek (iovas d) (IovaLedger.range (DmaMapping.lease record));
  match found with
  | Err _ => poison ;; mret false
  | Ok (range, _) =>
    length ← IovaRange.length range;
    if negb (length =? DmaMapping.length record) then poison ;; mret false else
    gone ← (if DmaMapping.hardware_mapped record then
              status ← on_backend (unmap (handle d) (IovaRange.start range) (DmaMapping.length record));
              mret (status =? STATUS_OK)
            else mret true);
    if negb gone then mret false else
    mark_unmapped slot ;;
    released ← release_lease (DmaMapping.lease record);
    if negb released then poison ;; mret false else
    retire slot record ;; mret true
  end.

Fixpoint drain_all {E} (slots : list Z) (mappings_drained : bool) : M world E bool :=
  match slots with
  | [] => mret mappings_drained
  | slot :: rest => drained ← drain slot; drain_all rest (mappings_drained && drained)
  end.

Definition drop {E} : M world E unit :=
  d ← self;
  if negb (active d) then mret () else
  mappings_drained ← drain_all (rev (range 0 (Z.of_nat (length (mappings d))))) true;
  d ← self;
  let mappings_drained :=
    mappings_drained && (mapping_count d =? 0) && (IovaLedger.active_count (iovas d) =? 0) in
  (if mappings_drained && negb (poisoned d)
   then _ ← on_backend (release_domain (handle d)); mret () else mret ()) ;;
  d ← self;
  set_self (with_active false d).
End operations.
Arguments world : clear implicits.
End IommuDomain.
