(* ===== verification/IommuFacts.v ===== *)
(** * What an IOMMU domain keeps true

    The invariant of [IommuDomain]: its records and the leases of its address
    ledger name each other one to one, and no two mappings share a device or a
    physical byte.  [observed] adds to any backend a record of the translations
    it has acknowledged and of calls outside the protocol; every operation keeps
    that record equal to the domain's own. *)
From S2P Require Import Prelude Iova XhciDma Iommu.

(** ** A backend under observation *)

Module ObservedBackend.

Record t (B : Type) := mk { inner : B; live : list DmaMappingInfo.t; misused : bool; releases : Z }.
Arguments mk {B} _ _ _ _.
Arguments inner {B} _.
Arguments live {B} _.
Arguments misused {B} _.
Arguments releases {B} _.

Definition meets (a n b m : Z) : bool := (a <? b + m) && (b <? a + n).
(** Two translations that share a device byte or a physical byte. *)
Definition clashes (x y : DmaMappingInfo.t) : bool :=
  meets (DmaMappingInfo.device_address x) (DmaMappingInfo.length x)
        (DmaMappingInfo.device_address y) (DmaMappingInfo.length y)
  || meets (DmaMappingInfo.physical_address x) (DmaMappingInfo.length x)
           (DmaMappingInfo.physical_address y) (DmaMappingInfo.length y).
Definition placed_at (a n : Z) (x : DmaMappingInfo.t) : bool :=
  (DmaMappingInfo.device_address x =? a) && (DmaMappingInfo.length x =? n).

(** [live]: what was mapped with [STATUS_OK] and not unmapped with [STATUS_OK].
    [misused]: a map that clashes with a live translation, an unmap of a range
    that is not live, or a release while something is live.  [releases]: how often
    the release of the domain was asked for. *)
#[global] Instance observed_backend {B} `{DmaRemappingBackend B} : DmaRemappingBackend (t B) := {
  isolate_device device o :=
    let '(r, b) := isolate_device device (inner o) in (r, mk b (live o) (misused o) (releases o));
  map h a p n access o :=
    let '(status, b) := map h a p n access (inner o) in
    let x := DmaMappingInfo.mk a p n access in
    (status, mk b (if status =? STATUS_OK then x :: live o else live o)
               (misused o || existsb (clashes x) (live o)) (releases o));
  unmap h a n o :=
    let '(status, b) := unmap h a n (inner o) in
    (status, mk b (if status =? STATUS_OK then List.filter (λ x, negb (placed_at a n x)) (live o) else live o)
               (misused o || negb (existsb (placed_at a n) (live o))) (releases o));
  release_domain h o :=
    let '(status, b) := release_domain h (inner o) in
    (status, mk b (live o) (misused o || negb (bool_decide (live o = []))) (releases o + 1));
}.
End ObservedBackend.

(** ** The invariant of a domain *)

Module IommuFacts.
Import IovaFacts ObservedBackend IommuDomain.

(** What record [r] translates. *)
Definition shows (d : t) (r : DmaMapping.t) (x : DmaMappingInfo.t) : Prop :=
  ∃ j slot, names (iovas d) (DmaMapping.lease r) j slot ∧
    x = DmaMappingInfo.mk (IovaRange.start (IovaLedger.range_of slot)) (DmaMapping.physical_address r)
          (DmaMapping.length r) (DmaMapping.access r).
Definition holds (d : t) (i : nat) (r : DmaMapping.t) : Prop :=
  mappings d !! i = Some r ∧ DmaMapping.active r = true.
Definition listed (d : t) (x : DmaMappingInfo.t) : Prop := ∃ i r, holds d i r ∧ shows d r x.

Definition physically_apart (p q : DmaMapping.t) : Prop :=
  DmaMapping.physical_address p + DmaMapping.length p <= DmaMapping.physical_address q ∨
  DmaMapping.physical_address q + DmaMapping.length q <= DmaMapping.physical_address p.

Record record_ok (l : IovaLedger.t) (r : DmaMapping.t) : Prop := {
  r_hardware : DmaMapping.hardware_mapped r = true;
  r_length : 0 < DmaMapping.length r;
  r_physical : 0 <= DmaMapping.physical_address r;
  r_end : DmaMapping.physical_address r + DmaMapping.length r < 2 ^ 64;
  r_lease : ∃ j slot, names l (DmaMapping.lease r) j slot ∧
    IovaRange.end_ (IovaLedger.range_of slot) - IovaRange.start (IovaLedger.range_of slot) = DmaMapping.length r;
}.

Record dom_ok (d : t) : Prop := {
  d_ledger : ledger_ok (iovas d);
  d_length : length (mappings d) = Z.to_nat MAXIMUM_DOMAIN_MAPPINGS;
  d_clean : poisoned d = false;
  d_count : mapping_count d = count DmaMapping.active (mappings d);
  d_generation : ∀ i r, mappings d !! i = Some r → u32 (DmaMapping.generation r);
  d_records : ∀ i r, holds d i r → record_ok (iovas d) r;
  d_apart : ∀ i j p q, i ≠ j → holds d i p → holds d j q →
    physically_apart p q ∧ DmaMapping.lease p ≠ DmaMapping.lease q;
  d_leases : ∀ j slot, IovaLedger.leases (iovas d) !! j = Some slot → IovaLedger.active slot = true →
    ∃ i r, holds d i r ∧ DmaMapping.lease r = IovaFacts.handle j (IovaLedger.generation slot);
}.

(** *** Handles *)

(** A handle survives its 64-bit encoding. *)
Lemma mapping_handle_roundtrip s g :
  u16 s → u32 g → 0 < g →
  DmaMappingHandle.from_raw (DmaMappingHandle.raw (DmaMappingHandle.mk s g)) = Some (DmaMappingHandle.mk s g).
Proof.
  unfold in_width. intros Hs Hg Hpos.
  assert (DmaMappingHandle.raw (DmaMappingHandle.mk s g) = g * 2 ^ 32 + (s + 1)) as ->.
  { unfold DmaMappingHandle.raw. cbn [DmaMappingHandle.slot DmaMappingHandle.generation].
    rewrite wrap_small by (rewrite Z.shiftl_mul_pow2 by lia; unfold in_width; lia).
    apply lor_pack; unfold in_width; lia. }
  unfold DmaMappingHandle.from_raw, wrap, MAX. rewrite Z.shiftr_div_pow2 by lia.
  rewrite pack_low, pack_high by (unfold in_width; lia). rewrite (Z.mod_small g) by lia.
  destruct (Z.eqb_spec (s + 1) 0); [lia|]. destruct (Z.eqb_spec g 0); [lia|].
  destruct (Z.ltb_spec (2 ^ 16 - 1 + 1) (s + 1)); [lia|]. cbn [orb]. do 2 f_equal. rewrite Z.mod_small; lia.
Qed.

(** *** Leases *)

Lemma names_slot s l i j p q : ledger_ok s → names s l i p → names s l j q → i = j ∧ p = q.
Proof.
  intros Hok Hp Hq. apply names_current in Hp as Hp'; [|done]. apply names_current in Hq as Hq'; [|done].
  destruct Hp' as [Hp1 _], Hq' as [Hq1 _]. assert (i = j) as -> by (rewrite Hp1 in Hq1; injection Hq1; lia).
  destruct Hp as [Hp _], Hq as [Hq _]. split; [done|congruence].
Qed.

Lemma names_u64 s l i p : ledger_ok s → names s l i p → u64 l.
Proof.
  intros Hok (Hi & _ & ->). apply ledger_slot in Hi as (Hi & _ & Hg); [|done].
  unfold IovaFacts.handle, in_width, MAX in *. lia.
Qed.

Lemma names_installed s i slot r l j q :
  IovaLedger.leases s !! i = Some slot → IovaLedger.reusable slot = true →
  names s l j q → names (installed s i slot r) l j q.
Proof.
  intros Hi Hr (Hj & Ha & Hl). assert (i ≠ j).
  { intros ->. rewrite Hi in Hj. injection Hj as ->. unfold IovaLedger.reusable in Hr. by rewrite Ha in Hr. }
  split; [|done]. simpl. by rewrite list_lookup_insert_ne.
Qed.

Lemma names_new s i slot r :
  IovaLedger.leases s !! i = Some slot →
  names (installed s i slot r) (IovaFacts.handle i (IovaLedger.generation slot + 1)) i
    (IovaLedger.mkSlot r (IovaLedger.generation slot + 1) true).
Proof. intros Hi. split; [|done]. simpl. apply list_lookup_insert_eq. by eapply lookup_lt_Some. Qed.

Lemma names_released s i slot l j q :
  i ≠ j → names s l j q → names (released s i slot) l j q.
Proof. intros Hne (Hj & Ha & Hl). split; [|done]. simpl. by rewrite list_lookup_insert_ne. Qed.

Lemma names_range_ok s l i p : ledger_ok s → names s l i p → range_ok (IovaLedger.range_of p).
Proof. intros Hok (Hi & Ha & _). by apply (sl_range _ _ (lo_slots _ Hok _ _ Hi)). Qed.

Lemma granted_names s l rg cand :
  granted s l rg cand → ∃ m slot, names cand l m slot ∧ IovaLedger.range_of slot = rg.
Proof. intros (n & q & Hn & Hre & -> & ->). eexists n, _. by split; [apply names_new|]. Qed.

(** *** Records *)

Section domain.
Context (d : t) (Hd : dom_ok d).

Lemma shows_unique r x y : shows d r x → shows d r y → x = y.
Proof.
  intros (i & p & Hp & ->) (j & q & Hq & ->).
  by destruct (names_slot _ _ _ _ _ _ (d_ledger _ Hd) Hp Hq) as [-> ->].
Qed.

Lemma record_shows i r : holds d i r → ∃ x, shows d r x.
Proof. intros Hr. destruct (r_lease _ _ (d_records _ Hd _ _ Hr)) as (j & slot & Hn & _). by eexists _, j, slot. Qed.

(** Two mappings share no byte on either side. *)
Lemma listed_apart i j p q x y :
  i ≠ j → holds d i p → holds d j q → shows d p x → shows d q y → clashes x y = false.
Proof.
  intros Hij Hp Hq (k & sp & Hnp & ->) (m & sq & Hnq & ->).
  destruct (d_apart _ Hd _ _ _ _ Hij Hp Hq) as [Hphys Hlease].
  destruct (r_lease _ _ (d_records _ Hd _ _ Hp)) as (k' & sp' & Hnp' & Hlp).
  destruct (r_lease _ _ (d_records _ Hd _ _ Hq)) as (m' & sq' & Hnq' & Hlq).
  destruct (names_slot _ _ _ _ _ _ (d_ledger _ Hd) Hnp Hnp') as [<- <-].
  destruct (names_slot _ _ _ _ _ _ (d_ledger _ Hd) Hnq Hnq') as [<- <-].
  assert (k ≠ m) as Hkm.
  { intros ->. destruct Hnp as (H1 & _ & H2), Hnq as (H3 & _ & H4). rewrite H1 in H3. injection H3 as ->. congruence. }
  destruct Hnp as (Hk & Hka & _), Hnq as (Hm & Hma & _).
  pose proof (lo_apart _ (d_ledger _ Hd) _ _ _ _ Hkm Hk Hm Hka Hma) as Hdev.
  unfold clashes, meets, disjoint, physically_apart in *. simpl.
  apply orb_false_iff. split; apply andb_false_iff; rewrite !Z.ltb_ge; lia.
Qed.

Lemma count_bound : 0 <= mapping_count d <= MAXIMUM_DOMAIN_MAPPINGS.
Proof.
  rewrite (d_count _ Hd). pose proof (count_bounds DmaMapping.active (mappings d)) as Hb.
  rewrite (d_length _ Hd) in Hb. unfold MAXIMUM_DOMAIN_MAPPINGS in *. lia.
Qed.

Lemma record_range i r j slot :
  holds d i r → names (iovas d) (DmaMapping.lease r) j slot →
  IovaLedger.range (DmaMapping.lease r) (iovas d) = Done (IovaLedger.range_of slot) (iovas d) ∧
  IovaRange.end_ (IovaLedger.range_of slot) =
    IovaRange.start (IovaLedger.range_of slot) + DmaMapping.length r.
Proof.
  intros Hr Hn. split; [by eapply names_range; [apply Hd|]|].
  destruct (r_lease _ _ (d_records _ Hd _ _ Hr)) as (j' & slot' & Hn' & Hlen).
  destruct (names_slot _ _ _ _ _ _ (d_ledger _ Hd) Hn Hn') as [<- <-]. lia.
Qed.

(** *** Adding a mapping *)

Definition added (i : nat) (cand : IovaLedger.t) (r : DmaMapping.t) : t :=
  with_mappings (<[i := r]> (mappings d)) (mapping_count d + 1) (with_iovas cand d).

Section add.
Context (i : nat) (r0 : DmaMapping.t) (l : IovaLease.t) (rg : IovaRange.t) (cand : IovaLedger.t) (phys size access : Z).
Context (Hi : mappings d !! i = Some r0) (Hav : slot_available r0 = true)
  (Hplace : placeable (iovas d) rg) (Hgrant : granted (iovas d) l rg cand)
  (Hend : IovaRange.end_ rg = IovaRange.start rg + size) (Hsize : 0 < size) (Hphys : 0 <= phys)
  (Htop : phys + size < 2 ^ 64).
Let r := DmaMapping.mk (DmaMapping.generation r0 + 1) l phys size access true true.
Context (Hfree : ∀ j q, holds d j q → physically_apart r q).

Lemma available : DmaMapping.active r0 = false ∧ 0 <= DmaMapping.generation r0 < MAX 32.
Proof.
  pose proof (d_generation _ Hd _ _ Hi) as Hg. unfold slot_available, in_width, MAX in *. bool_to_prop. split; [done|lia].
Qed.

Lemma holds_added j q : holds (added i cand r) j q ↔ (j = i ∧ q = r) ∨ (j ≠ i ∧ holds d j q).
Proof.
  unfold holds. simpl. rewrite list_lookup_insert_Some. pose proof (lookup_lt_Some _ _ _ Hi). split.
  - intros [[[-> [<- _]]|[? ?]] ?]; [by left|by right].
  - intros [[-> ->]|(? & ? & ?)]; [split; [left|]; done|split; [right|]; done].
Qed.

Lemma holds_other j q : holds d j q → j ≠ i.
Proof. intros [Hj Ha] ->. destruct available. congruence. Qed.

Lemma lease_kept k m slot : names (iovas d) k m slot → names cand k m slot.
Proof. destruct Hgrant as (n & q & Hn & Hre & _ & ->). by apply names_installed. Qed.

Lemma lease_fresh k m slot : names (iovas d) k m slot → k ≠ l.
Proof.
  intros Hk ->. destruct Hgrant as (n & q & Hn & Hre & -> & _). destruct Hk as (Hm & Ha & Heq).
  pose proof (ledger_slot _ _ _ (d_ledger _ Hd) Hn) as (Hn1 & _ & Hg).
  assert (IovaLedger.active q = false ∧ IovaLedger.generation q < MAX 32) as [Hna Hmax].
  { unfold IovaLedger.reusable, in_width, MAX in *. bool_to_prop. split; [done|lia]. }
  apply (IovaRuns.handle_inj _ _ _ _ _ (d_ledger _ Hd) Hm) in Heq as [<- _]; [|lia|unfold in_width, MAX in *; lia].
  congruence.
Qed.

Lemma cand_ok : ledger_ok cand.
Proof. destruct Hgrant as (n & q & Hn & Hre & _ & ->). apply installed_ok; [apply Hd|done..]. Qed.

Lemma added_ok : dom_ok (added i cand r).
Proof.
  destruct available as [Hna Hg]. split; simpl.
  - apply cand_ok.
  - rewrite length_insert. apply Hd.
  - apply Hd.
  - rewrite (count_insert _ _ _ _ _ Hi), Hna, (d_count _ Hd). simpl. lia.
  - intros j q [[-> [<- _]]|[_ Hq]]%list_lookup_insert_Some; [simpl; unfold in_width, MAX in *; lia|].
    by apply (d_generation _ Hd j).
  - intros j q [[-> ->]|[_ Hq]]%holds_added.
    + destruct (granted_names _ _ _ _ Hgrant) as (m & slot & Hn & Hrg). split; try done. exists m, slot. split; [done|]. rewrite Hrg. simpl. lia.
    + destruct (d_records _ Hd _ _ Hq) as [? ? ? ? (m & slot & Hn & Hlen)]. split; try done.
      exists m, slot. by split; [apply lease_kept|].
  - assert (∀ j q, holds d j q → DmaMapping.lease q ≠ l) as Hl.
    { intros j q Hq. destruct (d_records _ Hd _ _ Hq) as [_ _ _ _ (m & slot & Hn & _)]. by eapply lease_fresh. }
    intros j k p q Hjk [[-> ->]|[_ Hp]]%holds_added [[-> ->]|[_ Hq]]%holds_added; [done|..].
    + split; [by eapply Hfree|]. intros Heq. by apply (Hl _ _ Hq).
    + split; [|by eapply Hl]. destruct (Hfree _ _ Hp); [by right|by left].
    + by apply (d_apart _ Hd j k).
  - intros m slot Hm Ha. destruct Hgrant as (n & q & Hn & Hre & Hl & Hcand). rewrite Hcand in Hm. simpl in Hm.
    apply list_lookup_insert_Some in Hm as [[-> [<- _]]|[Hne Hm]].
    + exists i, r. split; [apply holds_added; by left|]. done.
    + destruct (d_leases _ Hd _ _ Hm Ha) as (j & p & Hp & Heq). exists j, p. split; [|done].
      apply holds_added. right. split; [by eapply holds_other|done].
Qed.

Lemma listed_added x :
  listed (added i cand r) x ↔ x = DmaMappingInfo.mk (IovaRange.start rg) phys size access ∨ listed d x.
Proof.
  split.
  - intros (j & q & [[-> ->]|[_ Hq]]%holds_added & m & slot & Hn & ->); simpl in Hn.
    + left. destruct (granted_names _ _ _ _ Hgrant) as (m' & slot' & Hn' & Hrg).
      destruct (names_slot _ _ _ _ _ _ cand_ok Hn Hn') as [<- <-]. by rewrite Hrg.
    + right. exists j, q. split; [done|]. destruct (d_records _ Hd _ _ Hq) as [_ _ _ _ (m' & slot' & Hn' & _)].
      destruct (names_slot _ _ _ _ _ _ cand_ok Hn (lease_kept _ _ _ Hn')) as [<- <-]. by exists m, slot.
  - intros [->|(j & q & Hq & m & slot & Hn & ->)].
    + exists i, r. split; [apply holds_added; by left|]. destruct (granted_names _ _ _ _ Hgrant) as (m & slot & Hn & Hrg).
      exists m, slot. split; [done|]. by rewrite Hrg.
    + exists j, q. split; [apply holds_added; right; split; [by eapply holds_other|done]|].
      exists m, slot. by split; [apply lease_kept|].
Qed.

(** The new translation clashes with nothing that is listed. *)
Lemma added_apart x :
  listed d x → clashes (DmaMappingInfo.mk (IovaRange.start rg) phys size access) x = false.
Proof.
  intros (j & q & Hq & m & slot & Hn & ->). destruct (record_range _ _ _ _ Hq Hn) as [_ Hlen].
  destruct Hn as (Hm & Ha & _). destruct Hplace as (_ & _ & Hdis).
  pose proof (Hdis _ (blocked_lease _ _ _ Hm Ha)) as Hdev. pose proof (Hfree _ _ Hq) as Hp.
  unfold clashes, meets, disjoint, physically_apart in *. simpl in *.
  apply orb_false_iff. split; apply andb_false_iff; rewrite !Z.ltb_ge; lia.
Qed.
End add.

(** *** Withdrawing a mapping *)

Definition withdrawn (i : nat) (r : DmaMapping.t) (j : nat) (slot : IovaLedger.LeaseSlot) : t :=
  with_mappings (<[i := DmaMapping.empty_at (DmaMapping.generation r)]> (mappings d)) (mapping_count d - 1)
    (with_iovas (released (iovas d) j slot) d).

Section withdraw.
Context (i : nat) (r : DmaMapping.t) (j : nat) (slot : IovaLedger.LeaseSlot).
Context (Hr : holds d i r) (Hn : names (iovas d) (DmaMapping.lease r) j slot).

Lemma holds_withdrawn k q : holds (withdrawn i r j slot) k q ↔ k ≠ i ∧ holds d k q.
Proof.
  unfold holds. simpl. rewrite list_lookup_insert_Some. split.
  - intros [[[-> [<- _]]|[? ?]] ?]; [done|]. by split.
  - intros (? & ? & ?). split; [right|]; done.
Qed.

(** The leases of the other records are not touched. *)
Lemma other_lease k q m p :
  k ≠ i → holds d k q → names (iovas d) (DmaMapping.lease q) m p →
  names (released (iovas d) j slot) (DmaMapping.lease q) m p.
Proof.
  intros Hk Hq Hm. apply names_released; [|done]. intros <-.
  destruct (d_apart _ Hd _ _ _ _ Hk Hq Hr) as [_ Hne]. apply Hne.
  destruct Hm as (H1 & _ & H2), Hn as (H3 & _ & H4). rewrite H1 in H3. injection H3 as ->. congruence.
Qed.

Lemma rest_ok : ledger_ok (released (iovas d) j slot).
Proof. destruct Hn as (? & ? & _). apply released_ok; [apply Hd|done..]. Qed.

Lemma withdrawn_ok : dom_ok (withdrawn i r j slot).
Proof.
  pose proof Hr as [Hi Ha]. split; simpl.
  - apply rest_ok.
  - rewrite length_insert. apply Hd.
  - apply Hd.
  - rewrite (count_insert _ _ _ _ _ Hi), Ha, (d_count _ Hd). simpl. lia.
  - intros k q [(_ & <- & _)|[_ Hq]]%list_lookup_insert_Some; [exact (d_generation _ Hd i r Hi)|by apply (d_generation _ Hd k)].
  - intros k q [Hk Hq]%holds_withdrawn. destruct (d_records _ Hd _ _ Hq) as [? ? ? ? (m & p & Hm & Hlen)].
    split; try done. exists m, p. by split; [eapply other_lease|].
  - intros k m p q Hkm [_ Hp]%holds_withdrawn [_ Hq]%holds_withdrawn. by apply (d_apart _ Hd k m).
  - intros m p [(_ & <- & _)|[Hne Hm]]%list_lookup_insert_Some Hact; [done|].
    destruct (d_leases _ Hd _ _ Hm Hact) as (k & q & Hq & Heq). exists k, q. split; [|done].
    apply holds_withdrawn. split; [|done]. intros ->. pose proof Hq as [Hq' _]. rewrite Hi in Hq'. injection Hq' as Hrq.
    rewrite <- Hrq in Heq. destruct (names_slot _ _ _ _ _ _ (d_ledger _ Hd) Hn (conj Hm (conj Hact Heq))). done.
Qed.

Lemma listed_withdrawn x :
  listed (withdrawn i r j slot) x ↔
  listed d x ∧ placed_at (IovaRange.start (IovaLedger.range_of slot)) (DmaMapping.length r) x = false.
Proof.
  assert (shows d r (DmaMappingInfo.mk (IovaRange.start (IovaLedger.range_of slot)) (DmaMapping.physical_address r)
    (DmaMapping.length r) (DmaMapping.access r))) as Hsr by (by exists j, slot).
  split.
  - intros (k & q & [Hk Hq]%holds_withdrawn & m & p & Hm & ->). simpl in Hm.
    destruct (d_records _ Hd _ _ Hq) as [_ Hpos _ _ (m' & p' & Hm' & _)].
    destruct (names_slot _ _ _ _ _ _ rest_ok Hm (other_lease _ _ _ _ Hk Hq Hm')) as [<- <-].
    assert (shows d q (DmaMappingInfo.mk (IovaRange.start (IovaLedger.range_of p)) (DmaMapping.physical_address q)
      (DmaMapping.length q) (DmaMapping.access q))) as Hsq by (by exists m, p).
    split; [by exists k, q|]. pose proof (listed_apart _ _ _ _ _ _ Hk Hq Hr Hsq Hsr) as Hapart.
    unfold clashes, meets, placed_at in *. simpl in *. apply orb_false_iff in Hapart as [Hapart _].
    apply andb_false_iff in Hapart. rewrite !Z.ltb_ge in Hapart. apply andb_false_iff. rewrite !Z.eqb_neq. lia.
  - intros [(k & q & Hq & m & p & Hm & ->) Hat]. assert (k ≠ i) as Hk.
    { intros ->. destruct Hq as [Hq _], Hr as [Hi _]. rewrite Hi in Hq. injection Hq as Hrq. rewrite <- Hrq in Hm, Hat.
      destruct (names_slot _ _ _ _ _ _ (d_ledger _ Hd) Hn Hm) as [_ <-].
      unfold placed_at in Hat. simpl in Hat. by rewrite !Z.eqb_refl in Hat. }
    exists k, q. split; [by apply holds_withdrawn|]. exists m, p. by split; [eapply other_lease|].
Qed.
End withdraw.
End domain.
End IommuFacts.
