(* ===== verification/IommuOps.v ===== *)
(** * The operations of an IOMMU domain

    What every call of [IommuDomain] does over an observed backend that answers
    as it likes: no call panics or poisons the domain, and in every state the
    translations the backend has acknowledged are those the domain lists. *)
From S2P Require Import Prelude Iova XhciDma Iommu IommuFacts.

Module IommuOps.
Import IovaFacts ObservedBackend IommuDomain IommuFacts.

(** What a backend may promise of itself: a property of it that the calls keep
    which a domain makes. *)
Class BackendInvariant {B : Type} `{DmaRemappingBackend B} (K : ObservedBackend.t B → Prop) : Prop := {
  kept_map b h dev phys size access :
    K b → 0 < size → 0 <= dev → dev + size < 2 ^ 64 → 0 <= phys → phys + size < 2 ^ 64 →
    existsb (clashes (DmaMappingInfo.mk dev phys size access)) (live b) = false →
    K (snd (map h dev phys size access b));
  kept_unmap b h dev size : K b → existsb (placed_at dev size) (live b) = true → K (snd (unmap h dev size b));
  kept_release b h : K b → live b = [] → K (snd (release_domain h b));
}.
(** Of an arbitrary backend nothing is known. *)
Definition anything {B : Type} (b : ObservedBackend.t B) : Prop := True.
#[global] Instance anything_invariant {B : Type} `{DmaRemappingBackend B} : BackendInvariant (B := B) anything.
Proof. done. Qed.

Section ops.
Context {B : Type} `{DmaRemappingBackend B} {K : ObservedBackend.t B → Prop} {HK : BackendInvariant K}.
Implicit Types (w : world (ObservedBackend.t B)).

Record inv w : Prop := {
  i_dom : dom_ok (domain w);
  i_live : ∀ x, x ∈ live (backend w) ↔ listed (domain w) x;
  i_proper : misused (backend w) = false;
  i_backend : K (backend w);
}.

(** A refused call: only the backend's own state may differ. *)
Definition unchanged w w' : Prop :=
  inv w' ∧ domain w' = domain w ∧ live (backend w') = live (backend w).

Lemma unchanged_refl w : inv w → unchanged w w.
Proof. done. Qed.

Lemma wp_on_backend {E} f Q (R : E → _ → Prop) w :
  wp (on_backend f) Q R w = let '(status, b) := f (backend w) in Q status (World (domain w) b).
Proof. unfold wp, on_backend. by destruct (f (backend w)). Qed.

Lemma wp_domain {E} Q (R : E → _ → Prop) w : wp self Q R w = Q (domain w) w.
Proof. done. Qed.

Lemma wp_set_self {E} d Q (R : E → _ → Prop) w : wp (set_self d) Q R w = Q () (World d (backend w)).
Proof. done. Qed.

Lemma wp_peek {S E A} l (m : M IovaLedger.t IovaError A) Q (R : E → S → Prop) (s : S) :
  wp m (λ a l', Q (Ok (a, l')) s) (λ e _, Q (Err e) s) l → wp (peek l m) Q R s.
Proof. unfold wp, peek. by destruct (m l). Qed.

Lemma wp_length {S E} r Q (R : E → S → Prop) (s : S) :
  IovaRange.start r <= IovaRange.end_ r → Q (IovaRange.end_ r - IovaRange.start r) s →
  wp (IovaRange.length r) Q R s.
Proof. intros. by apply wp_sub. Qed.

(** *** Mapping *)

Definition mapped w (phys size access : Z) (h : DmaMappingHandle.t) w' : Prop :=
  inv w' ∧ ∃ i r0 l rg cand, mappings (domain w) !! i = Some r0 ∧ slot_available r0 = true ∧
    h = DmaMappingHandle.mk (Z.of_nat i) (DmaMapping.generation r0 + 1) ∧
    domain w' = added (domain w) i cand
      (DmaMapping.mk (DmaMapping.generation r0 + 1) l phys size access true true) ∧
    ∀ x, listed (domain w') x ↔
      x = DmaMappingInfo.mk (IovaRange.start rg) phys size access ∨ listed (domain w) x.

Lemma dma_commit_ok w i r0 l rg cand phys size access :
  inv w → mappings (domain w) !! i = Some r0 → slot_available r0 = true →
  placeable (iovas (domain w)) rg → granted (iovas (domain w)) l rg cand →
  IovaRange.end_ rg = IovaRange.start rg + size → 0 < size → 0 <= phys → phys + size < 2 ^ 64 →
  (∀ j q, holds (domain w) j q →
     physically_apart (DmaMapping.mk (DmaMapping.generation r0 + 1) l phys size access true true) q) →
  wp (commit i cand l (IovaRange.start rg) phys size access)
    (λ h w', mapped w phys size access h w') (λ _ w', unchanged w w') w.
Proof.
  intros [Hd Hlive Hprop HKb] Hi Hav Hpl Hgr Hend Hsz Hp Ht Hfree.
  pose proof (added_ok _ Hd _ _ _ _ _ _ _ access Hi Hav Hpl Hgr Hend Hsz Hp Ht Hfree) as Hadd.
  pose proof (listed_added _ Hd i r0 l rg cand phys size access Hi Hav Hpl Hgr) as Hlist.
  destruct (available _ Hd _ _ Hi Hav) as [_ Hg]. pose proof (count_bound _ Hd) as Hc.
  assert (existsb (clashes (DmaMappingInfo.mk (IovaRange.start rg) phys size access)) (live (backend w)) = false) as Hno.
  { apply existsb_not_elem. intros x Hx%Hlive.
    exact (added_apart _ Hd r0 l rg phys size access Hpl Hend Hfree x Hx). }
  pose proof (kept_map (backend w) (handle (domain w)) (IovaRange.start rg) phys size access HKb Hsz) as HK'.
  pose proof Hpl as ((? & ? & _) & _ & _). specialize (HK' ltac:(lia) ltac:(lia) Hp Ht Hno).
  unfold commit. rewrite wp_bind, wp_domain, wp_bind, wp_on_backend. simpl in *.
  destruct (map _ _ _ _ _ (inner (backend w))) as [status b]. rewrite Hno, Hprop in *. simpl in *.
  destruct (status =? STATUS_OK); simpl.
  - rewrite wp_bind. apply (wp_index _ _ r0); [lia|by rewrite Nat2Z.id|].
    rewrite wp_bind. apply wp_add; [unfold MAX in *; lia|].
    rewrite wp_bind. apply wp_store; [pose proof (lookup_lt_Some _ _ _ Hi); lia|].
    rewrite wp_bind. apply wp_add; [unfold MAXIMUM_DOMAIN_MAPPINGS in *; lia|].
    rewrite wp_bind, wp_set_self, wp_ret, Nat2Z.id. pose proof (lookup_lt_Some _ _ _ Hi) as Hlt.
    rewrite (d_length _ Hd) in Hlt. unfold MAXIMUM_DOMAIN_MAPPINGS in Hlt.
    rewrite (wrap_small 16) by (unfold in_width; lia). split.
    + split; [exact Hadd| |done|done]. intros x. simpl. rewrite elem_of_cons, Hlive. symmetry. apply Hlist.
    + by exists i, r0, l, rg, cand.
  - rewrite wp_throw. split; [|done]. by split.
Qed.

(** The physical test of both operations. *)
Lemma apart_of_overlap p q :
  DmaMapping.physical_address p + DmaMapping.length p < 2 ^ 64 →
  DmaMapping.physical_address q + DmaMapping.length q < 2 ^ 64 →
  ranges_overlap (DmaMapping.physical_address q) (DmaMapping.length q)
    (DmaMapping.physical_address p) (DmaMapping.length p) = false → physically_apart p q.
Proof.
  unfold ranges_overlap, checked_add, physically_apart. intros Hp Hq.
  rewrite (proj2 (Z.ltb_lt _ _) Hq), (proj2 (Z.ltb_lt _ _) Hp), andb_false_iff, !Z.ltb_ge. lia.
Qed.

Lemma holds_filter d i r : holds d i r → r ∈ List.filter DmaMapping.active (mappings d).
Proof. intros [Hi Ha]. apply list_elem_of_In, filter_In. split; [|done]. apply list_elem_of_In. by eapply list_elem_of_lookup_2. Qed.

Lemma pages_exact size : 0 < size → size mod IOVA_PAGE_SIZE = 0 → size / IOVA_PAGE_SIZE * IOVA_PAGE_SIZE = size.
Proof. unfold IOVA_PAGE_SIZE. intros. Z.div_mod_to_equations. lia. Qed.

Lemma map_dma_aligned_ok w phys size align access :
  inv w → u64 phys → u64 size → u64 align →
  wp (map_dma_aligned phys size align access)
    (λ h w', mapped w phys size access h w') (λ _ w', unchanged w w') w.
Proof.
  intros Hinv Hphys Hsize Halign. pose proof (unchanged_refl _ Hinv) as Hsame. pose proof (i_dom _ Hinv) as Hd.
  unfold map_dma_aligned. rewrite wp_bind, wp_domain. do 2 (wp_if; [by rewrite wp_throw|]).
  destruct (_ || _) eqn:Hguard in |- *; [by rewrite wp_throw|]. bool_to_prop.
  destruct (existsb _ _) eqn:Hover; [by rewrite wp_throw|]. rewrite existsb_not_elem in Hover.
  rewrite wp_bind, wp_ok_or. destruct (position _ _) as [i|] eqn:Hpos; [|done].
  apply position_Some in Hpos as [(r0 & Hi & Hav) _].
  assert (phys + size < 2 ^ 64) as Htop.
  { match goal with H : bool_decide _ = true |- _ => apply bool_decide_eq_true in H; revert H end.
    unfold checked_add. destruct (Z.ltb_spec (phys + size) (2 ^ 64)); [done|by intros []]. }
  unfold in_width in *. assert (0 < size) as Hpos by lia.
  assert (size / IOVA_PAGE_SIZE * IOVA_PAGE_SIZE = size) as Hpages by (by apply pages_exact).
  assert (u64 (size / IOVA_PAGE_SIZE)) as Hpc by (unfold in_width, IOVA_PAGE_SIZE in *; lia).
  rewrite wp_bind. apply wp_peek. unfold IovaLedger.reserve_aligned. rewrite wp_bind, wp_lift.
  pose proof (request_new_ok _ align Hpc Halign) as Hreq. destruct (IovaRequest.new _ _) as [q|e]; [|by rewrite wp_throw].
  destruct Hreq as [-> Hreq]. eapply wp_mono; [apply reserve_ok; [apply Hd|done]| |by intros e l' _; rewrite wp_throw].
  simpl. rewrite Hpages. intros l cand (a & Hgr & Hfits & _).
  pose proof (fits_placeable _ _ a (d_ledger _ Hd) Hreq) as Hpl. simpl in Hpl. rewrite Hpages in Hpl. specialize (Hpl Hfits).
  destruct (granted_names _ _ _ _ Hgr) as (m & slot & Hn & Hrg).
  rewrite wp_bind. apply wp_peek. eapply wp_eq; [eapply names_range; [exact (cand_ok _ Hd _ _ _ Hpl Hgr)|exact Hn]|].
  rewrite Hrg, wp_bind. apply wp_length; simpl; [lia|]. replace (a + size - a) with size by lia. rewrite Z.eqb_refl.
  apply (dma_commit_ok w i r0 l (IovaRange.mk a (a + size))); try done; [lia|].
  intros j q Hq. destruct (d_records _ Hd _ _ Hq) as [_ _ _ Hqe _]. apply apart_of_overlap; [done|done|].
  apply Hover. by eapply holds_filter.
Qed.

(** The conflict test of [map_dma_at] only reads. *)
Lemma conflicts_at_ok w records dev phys size :
  dom_ok (domain w) → (∀ r, r ∈ records → ∃ i, holds (domain w) i r) →
  wp (conflicts_at (iovas (domain w)) records dev phys size)
    (λ b w', w' = w ∧ (b = false → ∀ r, r ∈ records →
       ranges_overlap (DmaMapping.physical_address r) (DmaMapping.length r) phys size = false))
    (λ _ _, False) w.
Proof.
  intros Hd. induction records as [|r records IH]; intros Hrec; simpl.
  - rewrite wp_ret. split; [done|]. intros _ r Hr. inversion Hr.
  - destruct (ranges_overlap (DmaMapping.physical_address r) _ _ _) eqn:Hov; [by rewrite wp_ret|].
    destruct (Hrec r ltac:(left)) as [i Hi]. destruct (r_lease _ _ (d_records _ Hd _ _ Hi)) as (j & slot & Hn & _).
    rewrite wp_bind. apply wp_peek. eapply wp_eq; [by eapply names_range; [apply Hd|]|].
    cbv beta iota. wp_if; [by rewrite wp_ret|].
    eapply wp_mono; [apply IH; intros q Hq; apply Hrec; by right| |done].
    intros b w' [-> Hb]. split; [done|]. intros Hf q [->|Hq]%elem_of_cons; [done|by apply Hb].
Qed.

Lemma filter_holds d r : r ∈ List.filter DmaMapping.active (mappings d) → ∃ i, holds d i r.
Proof.
  intros [Hr Ha]%list_elem_of_In%filter_In. apply list_elem_of_In, list_elem_of_lookup in Hr as [i Hi]. by exists i.
Qed.

Lemma map_dma_at_ok w dev phys size access :
  inv w → u64 dev → u64 phys → u64 size →
  wp (map_dma_at dev phys size access)
    (λ h w', mapped w phys size access h w') (λ _ w', unchanged w w') w.
Proof.
  intros Hinv Hdev Hphys Hsize. pose proof (unchanged_refl _ Hinv) as Hsame. pose proof (i_dom _ Hinv) as Hd.
  unfold map_dma_at. rewrite wp_bind, wp_domain. destruct (_ || _); [by rewrite wp_throw|].
  destruct (_ || _) eqn:Hguard in |- *; [by rewrite wp_throw|]. bool_to_prop.
  assert (phys + size < 2 ^ 64) as Htop.
  { match goal with H : bool_decide (is_Some (checked_add 64 phys size)) = true |- _ =>
      apply bool_decide_eq_true in H; revert H end.
    unfold checked_add. destruct (Z.ltb_spec (phys + size) (2 ^ 64)); [done|by intros []]. }
  rewrite wp_bind. eapply wp_mono; [apply conflicts_at_ok; [done|apply filter_holds]| |done].
  intros conflict w' [-> Hover]. destruct conflict; [by rewrite wp_throw|]. specialize (Hover eq_refl).
  rewrite wp_bind, wp_ok_or. destruct (position _ _) as [i|] eqn:Hpos; [|done].
  apply position_Some in Hpos as [(r0 & Hi & Hav) _].
  rewrite wp_bind, wp_map_err, wp_lift. pose proof (range_new_ok dev size Hdev Hsize) as Hrg.
  destruct (IovaRange.new dev size) as [rg|e]; [|done]. destruct Hrg as [-> Hrg].
  rewrite wp_bind. apply wp_peek.
  eapply wp_mono; [apply reserve_exact_ok; [apply Hd|done]| |by intros e l' _; rewrite wp_throw].
  intros l cand [Hpl Hgr]. unfold in_width in *.
  apply (dma_commit_ok w i r0 l (IovaRange.mk dev (dev + size))); try done; [lia|lia|].
  intros j q Hq. destruct (d_records _ Hd _ _ Hq) as [_ _ _ Hqe _]. apply apart_of_overlap; [done|done|].
  apply Hover. by eapply holds_filter.
Qed.

(** *** Withdrawing *)

(** The end of a revocation and of a drain, once the backend has unmapped. *)
Lemma dma_withdraw_ok {E A} (a b : A) w i r j slot (Q : A → world _ → Prop) (R : E → world _ → Prop) :
  dom_ok (domain w) → holds (domain w) i r → names (iovas (domain w)) (DmaMapping.lease r) j slot →
  Q b (World (withdrawn (domain w) i r j slot) (backend w)) →
  wp (mark_unmapped (Z.of_nat i) ;;
      released ← release_lease (DmaMapping.lease r);
      if negb released then poison ;; mret a else retire (Z.of_nat i) r ;; mret b) Q R w.
Proof.
  intros Hd [Hi Ha] Hn HQ. pose proof (lookup_lt_Some _ _ _ Hi) as Hlt.
  assert (0 < mapping_count (domain w)) as Hpos.
  { rewrite (d_count _ Hd). eapply count_pos; [by eapply list_elem_of_lookup_2|done]. }
  unfold mark_unmapped. rewrite !wp_bind, wp_domain, wp_bind.
  apply (wp_index _ _ r); [lia|by rewrite Nat2Z.id|]. rewrite wp_bind. apply wp_store; [lia|].
  rewrite wp_set_self, Nat2Z.id, wp_bind. unfold release_lease. rewrite wp_bind, wp_domain. simpl.
  pose proof (release_ok _ _ (d_ledger _ Hd) (names_u64 _ _ _ _ (d_ledger _ Hd) Hn)) as Hrel. unfold wp in Hrel.
  destruct (IovaLedger.release _ _) as [rg l|e l|]; [|by destruct Hrel as (_ & _ & Hno); destruct (Hno _ _ Hn)|done].
  destruct Hrel as (j' & slot' & Hn' & _ & ->). destruct (names_slot _ _ _ _ _ _ (d_ledger _ Hd) Hn Hn') as [<- <-].
  rewrite wp_bind, wp_set_self, wp_ret. simpl. unfold retire. rewrite !wp_bind, wp_domain, wp_bind. simpl.
  apply wp_store; [rewrite length_insert; lia|]. rewrite wp_bind. apply wp_sub; [lia|].
  rewrite wp_set_self, wp_ret, Nat2Z.id, list_insert_insert_eq. exact HQ.
Qed.

(** What the backend sees of an unmap that succeeds. *)
Lemma withdrawn_inv w i r j slot b :
  inv w → holds (domain w) i r → names (iovas (domain w)) (DmaMapping.lease r) j slot →
  live b = List.filter (λ x, negb (placed_at (IovaRange.start (IovaLedger.range_of slot)) (DmaMapping.length r) x))
             (live (backend w)) →
  misused b = false → K b → inv (World (withdrawn (domain w) i r j slot) b).
Proof.
  intros [Hd Hlive Hprop _] Hr Hn Hb Hm HKb. split; simpl; [by apply withdrawn_ok| |done|done].
  intros x. rewrite Hb, (listed_withdrawn _ Hd _ _ _ _ Hr Hn), <- Hlive.
  rewrite list_elem_of_In, filter_In, <- list_elem_of_In, negb_true_iff. done.
Qed.

Lemma unmap_proper w i r j slot :
  inv w → holds (domain w) i r → names (iovas (domain w)) (DmaMapping.lease r) j slot →
  existsb (placed_at (IovaRange.start (IovaLedger.range_of slot)) (DmaMapping.length r)) (live (backend w)) = true.
Proof.
  intros [Hd Hlive _ _] Hr Hn. apply existsb_elem. eexists. split; [apply Hlive; exists i, r; split; [done|]; by exists j, slot|].
  unfold placed_at. simpl. by rewrite !Z.eqb_refl.
Qed.

(** And what the backend keeps when it is asked to unmap a record. *)
Lemma unmap_kept w i r j slot :
  inv w → holds (domain w) i r → names (iovas (domain w)) (DmaMapping.lease r) j slot →
  K (snd (unmap (handle (domain w)) (IovaRange.start (IovaLedger.range_of slot)) (DmaMapping.length r) (backend w))).
Proof using HK. intros Hinv Hr Hn. apply kept_unmap; [apply Hinv|by apply (unmap_proper w i r j slot)]. Qed.

Definition revoked w (h : DmaMappingHandle.t) w' : Prop :=
  ∃ i r j slot, holds (domain w) i r ∧ h = DmaMappingHandle.mk (Z.of_nat i) (DmaMapping.generation r) ∧
    names (iovas (domain w)) (DmaMapping.lease r) j slot ∧
    domain w' = withdrawn (domain w) i r j slot.

Lemma revoke_dma_ok {E} w h :
  inv w → 0 <= DmaMappingHandle.slot h →
  wp (revoke_dma (E:=E) h)
    (λ status w', (status ≠ STATUS_OK ∧ unchanged w w') ∨ (status = STATUS_OK ∧ inv w' ∧ revoked w h w'))
    (λ _ _, False) w.
Proof.
  intros Hinv Hh. pose proof (unchanged_refl _ Hinv) as Hsame. pose proof (i_dom _ Hinv) as Hd.
  destruct h as [z g]. simpl in Hh. destruct (Z_of_nat_complete z Hh) as [i ->].
  unfold revoke_dma. rewrite wp_bind, wp_domain. cbn [DmaMappingHandle.slot]. cbv zeta. rewrite Nat2Z.id. do 2 (wp_if; [by rewrite wp_ret; left|]).
  destruct (mappings _ !! _) as [r|] eqn:Hi; [|by rewrite wp_ret; left].
  unfold is_current. destruct (_ && _) eqn:Hcur; simpl negb; cbv iota; [|by rewrite wp_ret; left]. bool_to_prop.
  assert (holds (domain w) i r) as Hr by done.
  destruct (r_lease _ _ (d_records _ Hd _ _ Hr)) as (j & slot & Hn & Hlen).
  rewrite wp_bind. apply wp_peek. eapply wp_eq; [by eapply names_range; [apply Hd|]|].
  pose proof (names_range_ok _ _ _ _ (d_ledger _ Hd) Hn) as (? & _).
  rewrite wp_bind. apply wp_length; [lia|]. rewrite Hlen, Z.eqb_refl, (r_hardware _ _ (d_records _ Hd _ _ Hr)). simpl.
  rewrite wp_bind, wp_on_backend. simpl.
  pose proof (unmap_kept w i r j slot Hinv Hr Hn) as HKb. simpl in HKb. destruct (unmap _ _ _ (inner (backend w))) as [status b].
  rewrite (unmap_proper _ _ _ _ _ Hinv Hr Hn), (i_proper _ Hinv) in *. simpl in *. destruct (Z.eqb_spec status STATUS_OK) as [->|Hs]; simpl.
  - apply (dma_withdraw_ok STATUS_IO_ERROR STATUS_OK _ _ _ j slot); [done..|]. right. split; [done|].
    split; [by apply (withdrawn_inv w i r j slot)|]. exists i, r, j, slot. simpl in *. by subst.
  - rewrite wp_ret. left. split; [done|]. split; [|done]. by destruct Hinv; split.
Qed.

(** *** Release and drop *)

Lemma live_nil w : inv w → live (backend w) = [] ↔ ∀ i r, ¬ holds (domain w) i r.
Proof.
  intros [Hd Hlive _ _]. split.
  - intros Hnil i r Hr. destruct (record_shows _ Hd _ _ Hr) as [x Hx].
    assert (x ∈ live (backend w)) as Hin by (apply Hlive; by exists i, r). rewrite Hnil in Hin. inversion Hin.
  - intros Hno. destruct (live (backend w)) as [|x l] eqn:Hl; [done|].
    destruct (proj1 (Hlive x)) as (i & r & Hr & _); [left|]. by destruct (Hno i r).
Qed.

Lemma nothing_held d : dom_ok d → (∀ i r, ¬ holds d i r) ↔ mapping_count d = 0.
Proof.
  intros Hd. rewrite (d_count _ Hd), count_zero. split.
  - intros Hno r [i Hi]%list_elem_of_lookup. destruct (DmaMapping.active r) eqn:Ha; [|done]. by destruct (Hno i r).
  - intros Hz i r [Hi Ha]. rewrite (Hz r) in Ha; [done|]. by eapply list_elem_of_lookup_2.
Qed.

Lemma no_leases d : dom_ok d → mapping_count d = 0 → IovaLedger.active_count (iovas d) = 0.
Proof.
  intros Hd Hz. rewrite (lo_active _ (d_ledger _ Hd)). apply count_zero. intros slot [j Hj]%list_elem_of_lookup.
  destruct (IovaLedger.active slot) eqn:Ha; [|done]. destruct (d_leases _ Hd _ _ Hj Ha) as (i & r & Hr & _).
  by apply (proj2 (nothing_held _ Hd) Hz) in Hr.
Qed.

Lemma with_active_ok b d : dom_ok d → dom_ok (with_active b d).
Proof. by intros []; split. Qed.
Lemma with_active_inv b w : inv w → inv (World (with_active b (domain w)) (backend w)).
Proof. intros [Hd Hl Hp HKb]. by split; [apply with_active_ok| | |]. Qed.

(** The backend is asked to release the domain when nothing is live. *)
Lemma release_backend {E} w (Q : Z → world _ → Prop) (R : E → world _ → Prop) :
  inv w → mapping_count (domain w) = 0 →
  (∀ status w', unchanged w w' → releases (backend w') = releases (backend w) + 1 → Q status w') →
  wp (on_backend (release_domain (handle (domain w)))) Q R w.
Proof.
  intros Hinv Hz HQ. pose proof Hinv as [Hd Hlive Hprop HKb].
  assert (live (backend w) = []) as Hnil by (by apply live_nil, nothing_held).
  pose proof (kept_release (backend w) (handle (domain w)) HKb Hnil) as HK'. simpl in HK'.
  rewrite wp_on_backend. simpl. destruct (release_domain _ (inner (backend w))) as [status b].
  apply HQ; [|done]. split; [|done]. split; [done|done| |done]. simpl. by rewrite Hprop, Hnil.
Qed.

Lemma release_spec w :
  inv w →
  wp release (λ _ w', inv w' ∧ live (backend w') = [] ∧ domain w' = with_active false (domain w) ∧
                      releases (backend w') = releases (backend w) + 1)
    (λ _ w', unchanged w w') w.
Proof.
  intros Hinv. pose proof (i_dom _ Hinv) as Hd. unfold release. rewrite wp_bind, wp_domain, (d_clean _ Hd).
  destruct (Z.eqb_spec (mapping_count (domain w)) 0) as [Hz|]; simpl; [|by rewrite wp_throw].
  rewrite (no_leases _ Hd Hz). simpl. rewrite wp_bind. apply release_backend; [done..|].
  intros status w' (Hinv' & Hdom & Hlive) Hrel. destruct (status =? STATUS_OK); [|by rewrite wp_throw].
  rewrite wp_set_self. rewrite <- Hdom. split; [by apply with_active_inv|]. split; [|done].
  simpl. apply live_nil; [done|]. rewrite Hdom. by apply nothing_held.
Qed.

(** One record of the drain: it is gone unless the backend refused. *)
Definition drained w i (b : bool) w' : Prop :=
  inv w' ∧ handle (domain w') = handle (domain w) ∧ releases (backend w') = releases (backend w) ∧
  length (mappings (domain w')) = length (mappings (domain w)) ∧
  (∀ k, k ≠ i → mappings (domain w') !! k = mappings (domain w) !! k) ∧
  (∀ x, x ∈ live (backend w') → x ∈ live (backend w)) ∧
  (b = true ↔ ∀ r, ¬ holds (domain w') i r).

Lemma drain_ok {E} w i :
  inv w → (i < length (mappings (domain w)))%nat →
  wp (drain (E:=E) (Z.of_nat i)) (λ b w', drained w i b w') (λ _ _, False) w.
Proof.
  intros Hinv Hlt. pose proof (i_dom _ Hinv) as Hd. destruct (lookup_lt_is_Some_2 _ _ Hlt) as [r Hi].
  unfold drain. rewrite wp_bind, wp_domain, wp_bind. apply (wp_index _ _ r); [lia|by rewrite Nat2Z.id|].
  destruct (DmaMapping.active r) eqn:Ha; simpl negb; cbv iota.
  2:{ rewrite wp_ret. do 6 (split; [done|]). split; [|done]. intros _ q [Hq Hqa]. congruence. }
  assert (holds (domain w) i r) as Hr by done.
  destruct (r_lease _ _ (d_records _ Hd _ _ Hr)) as (j & slot & Hn & Hlen).
  rewrite wp_bind. apply wp_peek. eapply wp_eq; [by eapply names_range; [apply Hd|]|].
  pose proof (names_range_ok _ _ _ _ (d_ledger _ Hd) Hn) as (? & _).
  rewrite wp_bind. apply wp_length; [lia|]. rewrite Hlen, Z.eqb_refl, (r_hardware _ _ (d_records _ Hd _ _ Hr)). simpl.
  rewrite !wp_bind, wp_on_backend. simpl.
  pose proof (unmap_kept w i r j slot Hinv Hr Hn) as HKb. simpl in HKb. destruct (unmap _ _ _ (inner (backend w))) as [status b].
  rewrite (unmap_proper _ _ _ _ _ Hinv Hr Hn), (i_proper _ Hinv) in *. rewrite wp_ret. simpl in *.
  destruct (Z.eqb_spec status STATUS_OK) as [->|Hs]; simpl.
  - apply (dma_withdraw_ok false true _ _ _ j slot); [done..|].
    split; [by apply (withdrawn_inv w i r j slot)|]. simpl. do 2 (split; [done|]).
    split; [apply length_insert|]. split; [intros k Hk; by rewrite list_lookup_insert_ne|].
    split; [by intros x [? _]%list_elem_of_In%filter_In; apply list_elem_of_In|]. split; [|done].
    intros _ q Hq. by apply (holds_withdrawn (domain w) i r j slot) in Hq as [? _].
  - rewrite wp_ret. split; [by destruct Hinv; split|]. do 5 (split; [done|]). split; [done|]. intros Hno. by destruct (Hno r).
Qed.

Lemma drain_all_ok {E} slots flag w :
  inv w → NoDup slots → (∀ i, i ∈ slots → (i < length (mappings (domain w)))%nat) →
  wp (drain_all (E:=E) (Z.of_nat <$> slots) flag)
    (λ b w', inv w' ∧ handle (domain w') = handle (domain w) ∧ releases (backend w') = releases (backend w) ∧
       (∀ k, k ∉ slots → mappings (domain w') !! k = mappings (domain w) !! k) ∧
       (∀ x, x ∈ live (backend w') → x ∈ live (backend w)) ∧
       (b = true ↔ flag = true ∧ ∀ k r, k ∈ slots → ¬ holds (domain w') k r))
    (λ _ _, False) w.
Proof.
  intros Hinv Hnd. revert flag w Hinv. induction Hnd as [|i slots Hni Hnd IH]; intros flag w Hinv Hin; simpl.
  - rewrite wp_ret. do 5 (split; [done|]). split; [|by intros []]. intros Hf. split; [done|]. intros k r Hk. inversion Hk.
  - rewrite wp_bind. eapply wp_mono; [apply drain_ok; [done|apply Hin; left]| |done].
    intros b w1 (Hinv1 & Hh1 & Hr1 & Hl1 & Hk1 & Hx1 & Hb).
    eapply wp_mono; [apply IH; [done|intros k Hk; rewrite Hl1; apply Hin; by right]| |done].
    intros b' w2 (Hinv2 & Hh2 & Hr2 & Hk2 & Hx2 & Hb'). split; [done|]. split; [congruence|]. split; [congruence|].
    split; [intros k [Hki Hk]%not_elem_of_cons; by rewrite Hk2, Hk1|]. split; [by auto|].
    rewrite Hb', andb_true_iff, Hb. unfold holds. split.
    + intros [[Hf Hno] Hrest]. split; [done|]. intros k r [->|Hk]%elem_of_cons; [|by apply Hrest].
      rewrite (Hk2 i Hni). apply Hno.
    + intros [Hf Hall]. split; [split; [done|]|].
      * intros r. rewrite <- (Hk2 i Hni). apply Hall. left.
      * intros k r Hk. apply Hall. by right.
Qed.

(** Dropping a domain: it asks for the release of the backend's domain exactly
    when every translation is gone. *)
Lemma drop_ok {E} w :
  inv w → active (domain w) = true →
  wp (drop (E:=E))
    (λ _ w', inv w' ∧ active (domain w') = false ∧ (∀ x, x ∈ live (backend w') → x ∈ live (backend w)) ∧
       releases (backend w') = releases (backend w) + if bool_decide (live (backend w') = []) then 1 else 0)
    (λ _ _, False) w.
Proof.
  intros Hinv Ha. unfold drop. rewrite wp_bind, wp_domain, Ha. simpl negb. cbv iota. rewrite wp_bind.
  set (n := length (mappings (domain w))).
  assert (rev (range 0 (Z.of_nat n)) = Z.of_nat <$> rev (seq 0 n)) as ->.
  { unfold range, seqZ. rewrite Z.sub_0_r, Nat2Z.id. change (Z.of_nat <$> rev (seq 0 n)) with (List.map Z.of_nat (rev (seq 0 n))).
    rewrite map_rev. f_equal. apply list_fmap_ext. intros. simpl. lia. }
  assert (∀ i, i ∈ rev (seq 0 n) ↔ (i < n)%nat) as Hseq.
  { intros i. rewrite list_elem_of_In, <- in_rev, in_seq. lia. }
  eapply wp_mono; [apply drain_all_ok; [done|apply NoDup_ListNoDup, NoDup_rev, seq_NoDup|by intros i ?%Hseq]| |done].
  intros b w1 (Hinv1 & _ & Hr1 & Hk1 & Hx1 & Hb). pose proof (i_dom _ Hinv1) as Hd1. rewrite wp_bind, wp_domain.
  assert (b = true ↔ mapping_count (domain w1) = 0) as Hzero.
  { rewrite Hb, <- (nothing_held _ Hd1). split; [|by intros Hno; split; [|intros k r _; apply Hno]].
    intros [_ Hno] k r Hr. apply (Hno k r); [|done]. apply Hseq. destruct Hr as [Hr%lookup_lt_Some _].
    unfold n. rewrite (d_length _ (i_dom _ Hinv)). by rewrite (d_length _ Hd1) in Hr. }
  assert (bool_decide (live (backend w1) = []) = b) as Hlive.
  { apply eq_bool_prop_intro. rewrite bool_decide_spec, (live_nil _ Hinv1), (nothing_held _ Hd1), <- Hzero. by destruct b. }
  rewrite (d_clean _ Hd1). destruct b; simpl.
  - pose proof (proj1 Hzero eq_refl) as Hz. rewrite Hz, (no_leases _ Hd1 Hz). simpl. rewrite !wp_bind.
    apply release_backend; [done..|]. intros status w2 (Hinv2 & Hd2 & Hl2) Hr2. rewrite wp_ret, wp_bind, wp_domain, wp_set_self. simpl.
    split; [by apply with_active_inv|]. split; [done|]. rewrite Hl2, Hlive. split; [done|lia].
  - rewrite wp_bind, wp_ret, wp_bind, wp_domain, wp_set_self. simpl. split; [by apply with_active_inv|].
    split; [done|]. rewrite Hlive. split; [done|lia].
Qed.
End ops.
Arguments inv {B} K w.
Arguments unchanged {B} K w w'.
Arguments mapped {B} K w phys size access h w'.
End IommuOps.
