(* ===== verification/IommuProperties.v ===== *)
(** * What an IOMMU domain guarantees

    The theorems about [IommuDomain] over every run of a domain that was isolated
    on any backend, whatever statuses the backend returns and however it changes
    between calls; and a backend on which they apply. *)
From S2P Require Import Prelude Iova XhciDma Iommu IommuFacts IommuOps.

Module IommuRuns.
Import IovaFacts ObservedBackend IommuDomain IommuFacts IommuOps.

(** ** Calls *)

Section calls.
Context {B : Type} `{DmaRemappingBackend B} {K : ObservedBackend.t B → Prop} {HK : BackendInvariant K}.
Implicit Types (w : world (ObservedBackend.t B)).

Inductive call :=
| MapDmaAligned (phys size align : Z) (access : DmaAccess.t)
| MapDmaAt (dev phys size : Z) (access : DmaAccess.t)
| RevokeDma (h : DmaMappingHandle.t)
| Release.

(** Arguments in the range of their Rust types. *)
Definition call_ok (c : call) : Prop :=
  match c with
  | MapDmaAligned phys size align _ => u64 phys ∧ u64 size ∧ u64 align
  | MapDmaAt dev phys size _ => u64 dev ∧ u64 phys ∧ u64 size
  | RevokeDma h => 0 <= DmaMappingHandle.slot h
  | Release => True
  end.

(** The handle or the status of a call. *)
Definition run (c : call) : M (world (ObservedBackend.t B)) Z (DmaMappingHandle.t + Z) :=
  match c with
  | MapDmaAligned phys size align access => h ← map_dma_aligned phys size align access; mret (inl h)
  | MapDmaAt dev phys size access => h ← map_dma_at dev phys size access; mret (inl h)
  | RevokeDma h => status ← revoke_dma h; mret (inr status)
  | Release => release ;; mret (inr STATUS_OK)
  end.

(** A domain just isolated, on a backend nothing is known of. *)
Definition fresh (device : PciAddress.t) (aperture : IovaRange.t) (reserved : list IovaRange.t) w : Prop :=
  range_ok aperture ∧ Forall range_ok reserved ∧
  ∃ scratch b, isolate device aperture reserved scratch (ObservedBackend.mk b [] false 0) = Done (domain w) (backend w).

Lemma fresh_inv device ap rs w : fresh device ap rs w → K (backend w) → inv K w ∧ active (domain w) = true.
Proof.
  intros (Hap & Hrs & scratch & b & Heq) HKb. unfold isolate, mbind, M_bind in Heq.
  pose proof (IovaProperties.new_ledger_ok (Z.to_nat MAXIMUM_DOMAIN_MAPPINGS) (Z.to_nat MAXIMUM_RESERVED_IOVA_RANGES)
    ap rs scratch Hap Hrs ltac:(done)) as Hnew. unfold wp in Hnew.
  destruct (IovaLedger.new _ _ _ _ _) as [[] l|e l|]; [|done|done]. destruct Hnew as (Hok & Hidle & _).
  unfold get in Heq. simpl in Heq. destruct (isolate_device device b) as [[h|e] b']; [|done]. simpl in Heq.
  destruct (h =? 0); [done|]. injection Heq as Hd Hb. rewrite <- Hd.
  assert (∀ i r, (replicate (Z.to_nat MAXIMUM_DOMAIN_MAPPINGS) DmaMapping.EMPTY) !! i = Some r → r = DmaMapping.EMPTY)
    as Hrep by (by intros i r [-> _]%lookup_replicate).
  assert (∀ i r, ¬ holds (domain w) i r) as Hno.
  { intros i r [Hi Ha]. rewrite <- Hd in Hi. apply Hrep in Hi as ->. done. }
  split; [|done]. split.
  - rewrite <- Hd in *. split; simpl; try done.
    + intros i r ->%Hrep. done.
    + intros i r Hr. by destruct (Hno i r).
    + intros i j p q _ Hp. by destruct (Hno i p).
    + intros j slot Hj Ha. rewrite (Hidle slot) in Ha; [done|]. by eapply list_elem_of_lookup_2.
  - intros x. rewrite <- Hb. split; [intros Hx; inversion Hx|]. intros (i & r & Hr & _). by destruct (Hno i r).
  - by rewrite <- Hb.
  - done.
Qed.

(** How one call changes the records: not at all, one taken, or one given up. *)
Definition moved w w' : Prop :=
  mappings (domain w') = mappings (domain w) ∨
  (∃ i r0 r, mappings (domain w) !! i = Some r0 ∧ slot_available r0 = true ∧
     DmaMapping.generation r = DmaMapping.generation r0 + 1 ∧ mappings (domain w') = <[i := r]> (mappings (domain w))) ∨
  (∃ i r, holds (domain w) i r ∧
     mappings (domain w') = <[i := DmaMapping.empty_at (DmaMapping.generation r)]> (mappings (domain w))).

Lemma unchanged_moved w w' : unchanged K w w' → inv K w' ∧ moved w w'.
Proof. intros (Hinv & Hd & _). split; [done|]. left. by rewrite Hd. Qed.

Lemma mapped_moved w phys size access h w' : mapped K w phys size access h w' → inv K w' ∧ moved w w'.
Proof.
  intros (Hinv & i & r0 & l & rg & cand & Hi & Hav & _ & Hd & _). split; [done|]. right. left.
  exists i, r0. eexists. split; [done|]. split; [done|]. split; [|by rewrite Hd]. done.
Qed.

Lemma dma_run_ok c w :
  inv K w → call_ok c → wp (run c) (λ _ w', inv K w' ∧ moved w w') (λ _ w', inv K w' ∧ moved w w') w.
Proof.
  intros Hinv Hc. destruct c as [phys size align access|dev phys size access|h|]; simpl in *; rewrite wp_bind.
  - destruct Hc as (? & ? & ?). eapply wp_mono; [by apply map_dma_aligned_ok| |].
    + intros h w' Hm. rewrite wp_ret. by eapply mapped_moved.
    + intros e w' Hu. by apply unchanged_moved.
  - destruct Hc as (? & ? & ?). eapply wp_mono; [by apply map_dma_at_ok| |].
    + intros h w' Hm. rewrite wp_ret. by eapply mapped_moved.
    + intros e w' Hu. by apply unchanged_moved.
  - eapply wp_mono; [by apply revoke_dma_ok| |done].
    intros status w' [[_ Hu]|(_ & Hinv' & i & r & j & slot & Hr & _ & _ & Hd)]; rewrite wp_ret; [by apply unchanged_moved|].
    split; [done|]. right. right. exists i, r. split; [done|]. by rewrite Hd.
  - eapply wp_mono; [by apply release_spec| |].
    + intros [] w' (Hinv' & _ & Hd & _). rewrite wp_ret. split; [done|]. left. by rewrite Hd.
    + intros e w' Hu. by apply unchanged_moved.
Qed.

(** A handle and what it shows. *)
Lemma mapping_info_ok w h :
  inv K w → 0 <= DmaMappingHandle.slot h →
  wp (mapping_info (E:=Z) h)
    (λ o w', w' = w ∧ ∀ x, o = Some x ↔ ∃ i r, holds (domain w) i r ∧ shows (domain w) r x ∧
       h = DmaMappingHandle.mk (Z.of_nat i) (DmaMapping.generation r)) (λ _ _, False) w.
Proof.
  intros Hinv Hh. pose proof (i_dom _ Hinv) as Hd. destruct h as [z g]. simpl in Hh.
  destruct (Z_of_nat_complete z Hh) as [i ->]. unfold mapping_info. rewrite wp_bind, wp_domain. cbn [DmaMappingHandle.slot].
  rewrite Nat2Z.id. destruct (mappings _ !! i) as [r|] eqn:Hi.
  2:{ rewrite wp_ret. split; [done|]. intros x. split; [done|]. intros (k & q & [Hq _] & _ & [= Hk _]).
      apply Nat2Z.inj in Hk as <-. congruence. }
  destruct (is_current _ r) eqn:Hcur; simpl negb; cbv iota; unfold is_current in Hcur; simpl in Hcur.
  2:{ rewrite wp_ret. split; [done|]. intros x. split; [done|]. intros (k & q & [Hq Hqa] & _ & [= Hk Hg]).
      apply Nat2Z.inj in Hk as <-. rewrite Hi in Hq. injection Hq as ->. by rewrite Hqa, Hg, Z.eqb_refl in Hcur. }
  bool_to_prop. assert (holds (domain w) i r) as Hr by done.
  destruct (r_lease _ _ (d_records _ Hd _ _ Hr)) as (j & slot & Hn & Hlen).
  rewrite wp_bind. apply wp_peek. eapply wp_eq; [by eapply names_range; [apply Hd|]|].
  pose proof (names_range_ok _ _ _ _ (d_ledger _ Hd) Hn) as (? & _).
  rewrite wp_bind. apply wp_length; [lia|]. rewrite Hlen, Z.eqb_refl, wp_ret. split; [done|].
  assert (shows (domain w) r (DmaMappingInfo.mk (IovaRange.start (IovaLedger.range_of slot))
    (DmaMapping.physical_address r) (DmaMapping.length r) (DmaMapping.access r))) as Hs by (by exists j, slot).
  intros x. split.
  - intros [= <-]. exists i, r. subst. done.
  - intros (k & q & [Hq _] & Hx & [= Hk _]). apply Nat2Z.inj in Hk as <-. rewrite Hi in Hq. injection Hq as <-.
    f_equal. by eapply shows_unique.
Qed.

Lemma info_iff w h x :
  inv K w → 0 <= DmaMappingHandle.slot h →
  mapping_info (E:=Z) h w = Done (Some x) w ↔ ∃ i r, holds (domain w) i r ∧ shows (domain w) r x ∧
    h = DmaMappingHandle.mk (Z.of_nat i) (DmaMapping.generation r).
Proof.
  intros Hinv Hh. pose proof (mapping_info_ok w h Hinv Hh) as Hwp. unfold wp in Hwp.
  destruct (mapping_info h w) as [o w'|e w'|]; [|done|done]. destruct Hwp as [-> Ho]. rewrite <- Ho.
  split; [by intros [= ->]|by intros ->].
Qed.

(** *** Handles age *)

Definition dead w (h : DmaMappingHandle.t) : Prop :=
  ∃ r, mappings (domain w) !! Z.to_nat (DmaMappingHandle.slot h) = Some r ∧
    (DmaMappingHandle.generation h < DmaMapping.generation r ∨
     DmaMapping.generation r = DmaMappingHandle.generation h ∧ DmaMapping.active r = false).

Lemma dead_moved w w' h : dead w h → moved w w' → dead w' h.
Proof.
  intros (r & Hr & Hold) [Heq|[(i & r0 & r1 & Hi & Hav & Hg & Heq)|(i & r1 & [Hi Ha] & Heq)]]; unfold dead; rewrite Heq.
  - by exists r.
  - destruct (decide (i = Z.to_nat (DmaMappingHandle.slot h))) as [->|Hne].
    + exists r1. split; [apply list_lookup_insert_eq; by eapply lookup_lt_Some|]. left. simplify_eq. lia.
    + exists r. by rewrite list_lookup_insert_ne.
  - destruct (decide (i = Z.to_nat (DmaMappingHandle.slot h))) as [->|Hne].
    + eexists. split; [apply list_lookup_insert_eq; by eapply lookup_lt_Some|]. simplify_eq. simpl.
      destruct Hold as [?|[_ ?]]; [by left|congruence].
    + exists r. by rewrite list_lookup_insert_ne.
Qed.

Lemma dead_unissued w h phys size access o w' : dead w h → mapped K w phys size access o w' → o ≠ h.
Proof.
  intros (r & Hr & Hold) (_ & i & r0 & l & rg & cand & Hi & _ & -> & _) <-. simpl in *.
  rewrite Nat2Z.id in Hr. simplify_eq. lia.
Qed.
End calls.

(** ** Runs over an arbitrary backend *)

Section runs.
Context {B : Type} `{DmaRemappingBackend B}.
Implicit Types (w : world (ObservedBackend.t B)).
#[local] Abbreviation inv := (IommuOps.inv anything).

(** A released domain is consumed; a refused release hands it back.  Between
    calls the backend may change by itself. *)
Inductive step w : world (ObservedBackend.t B) → Prop :=
| step_done c o w' : c ≠ Release → call_ok c → run c w = Done o w' → step w w'
| step_fail c e w' : call_ok c → run c w = Fail e w' → step w w'
| step_backend b : live b = live (backend w) → misused b = misused (backend w) → step w (World (domain w) b).

Lemma dma_step_ok w w' : step w w' → inv w → inv w' ∧ moved w w'.
Proof.
  intros [c o w1 _ Hc Hrun|c e w1 Hc Hrun|b Hl Hm] Hinv.
  - exact (wp_Done _ _ _ _ _ _ (dma_run_ok c w Hinv Hc) Hrun).
  - exact (wp_Fail _ _ _ _ _ _ (dma_run_ok c w Hinv Hc) Hrun).
  - split; [|by left]. destruct Hinv as [Hd Hlive Hp _]. split; simpl; [done|by rewrite Hl|by rewrite Hm|done].
Qed.

Lemma dma_reachable device ap rs w0 w : fresh device ap rs w0 → rtc step w0 w → inv w.
Proof.
  intros Hf Hr. destruct (fresh_inv (K := anything) _ _ _ _ Hf I) as [Hinv _]. revert Hinv. apply (rtc_invariant step inv); [|done].
  intros x y Hs Hx. by destruct (dma_step_ok _ _ Hs Hx).
Qed.

Lemma dead_rtc w w' h : inv w → dead w h → rtc step w w' → inv w' ∧ dead w' h.
Proof.
  intros Hinv Hdead Hr. apply (rtc_invariant step (λ x, inv x ∧ dead x h) w w'); [|done|done].
  intros x y Hs [Hx Hdx]. destruct (dma_step_ok _ _ Hs Hx) as [? ?]. split; [done|by eapply dead_moved].
Qed.

End runs.
End IommuRuns.

(** ** Theorems *)

Module IommuClaims.
Import IovaFacts ObservedBackend IommuDomain IommuFacts IommuOps IommuRuns.

Section claims.
Context {B : Type} `{DmaRemappingBackend B}.
Implicit Types (w : world (ObservedBackend.t B)).

(** C13: In every state that an isolated domain reaches, whatever its backend
    answers, the translations the backend has acknowledged are exactly those that
    [mapping_info] shows for some handle; different handles show translations
    that share neither a device byte nor a physical byte; the backend was never
    called outside its protocol, and the domain is never poisoned. *)
Theorem dma_mappings_exact device ap rs w0 w :
  fresh device ap rs w0 → rtc step w0 w →
  (∀ x, x ∈ live (backend w) ↔
     ∃ h, 0 <= DmaMappingHandle.slot h ∧ mapping_info (E:=Z) h w = Done (Some x) w) ∧
  (∀ h h' x y, 0 <= DmaMappingHandle.slot h → 0 <= DmaMappingHandle.slot h' → h ≠ h' →
     mapping_info (E:=Z) h w = Done (Some x) w → mapping_info (E:=Z) h' w = Done (Some y) w → clashes x y = false) ∧
  misused (backend w) = false ∧ poisoned (domain w) = false.
Proof.
  intros Hf Hr. pose proof (dma_reachable _ _ _ _ _ Hf Hr) as Hinv. pose proof (i_dom _ Hinv) as Hd.
  split; [|split; [|split; [apply Hinv|apply Hd]]].
  - intros x. rewrite (i_live _ Hinv). split.
    + intros (i & r & Hi & Hx). exists (DmaMappingHandle.mk (Z.of_nat i) (DmaMapping.generation r)). simpl.
      split; [lia|]. apply (info_iff (K := anything)); [done|simpl; lia|]. by exists i, r.
    + intros (h & Hh & (i & r & Hi & Hx & _)%(info_iff (K := anything))); [|done..]. by exists i, r.
  - intros h h' x y Hh Hh' Hne (i & p & Hp & Hx & ->)%(info_iff (K := anything)) (j & q & Hq & Hy & ->)%(info_iff (K := anything)); [|done..].
    eapply (listed_apart _ Hd i j); [|done..]. intros ->. destruct Hp as [Hp _], Hq as [Hq _]. by simplify_eq.
Qed.

(** [map_dma_aligned] never panics.  When it succeeds the backend has
    acknowledged exactly one new translation, of the requested physical range and
    access, and the returned handle shows it; when it fails the domain, its
    address leases included, and the acknowledged translations are unchanged. *)
Theorem dma_map_decided device ap rs w0 w phys size align access :
  fresh device ap rs w0 → rtc step w0 w → u64 phys → u64 size → u64 align →
  match map_dma_aligned phys size align access w with
  | Done h w' => ∃ dev, let x := DmaMappingInfo.mk dev phys size access in
      mapping_info (E:=Z) h w' = Done (Some x) w' ∧
      ∀ y, y ∈ live (backend w') ↔ y = x ∨ y ∈ live (backend w)
  | Fail _ w' => domain w' = domain w ∧ live (backend w') = live (backend w)
  | Panic => False
  end.
Proof.
  intros Hf Hr ? ? ?. pose proof (dma_reachable _ _ _ _ _ Hf Hr) as Hinv.
  pose proof (map_dma_aligned_ok w phys size align access Hinv ltac:(done) ltac:(done) ltac:(done)) as Hwp. unfold wp in Hwp.
  destruct (map_dma_aligned phys size align access w) as [h w'|e w'|]; [|by destruct Hwp as (_ & ? & ?)|done].
  destruct Hwp as (Hinv' & i & r0 & l & rg & cand & Hi & Hav & -> & Hd & Hlist). exists (IovaRange.start rg).
  split; [|intros y; by rewrite (i_live _ Hinv'), (i_live _ Hinv)]. apply (info_iff (K := anything)); [done|simpl; lia|].
  destruct (proj2 (Hlist _) (or_introl eq_refl)) as (k & r & Hk & Hx).
  assert (k = i) as ->.
  { destruct (decide (k = i)) as [|Hne]; [done|]. exfalso.
    assert (holds (domain w') i (DmaMapping.mk (DmaMapping.generation r0 + 1) l phys size access true true)) as Hi'
      by (rewrite Hd; split; [apply list_lookup_insert_eq; by eapply lookup_lt_Some|done]).
    destruct (d_apart _ (i_dom _ Hinv') _ _ _ _ Hne Hk Hi') as [Hap _].
    destruct Hx as (j & slot & _ & [= _ Hp Hs _]). pose proof (r_length _ _ (d_records _ (i_dom _ Hinv') _ _ Hk)).
    unfold physically_apart in Hap. simpl in Hap. lia. }
  exists i, r. split; [done|]. split; [done|]. destruct Hk as [Hk _]. rewrite Hd in Hk. simpl in Hk.
  rewrite list_lookup_insert_eq in Hk by (by eapply lookup_lt_Some). by injection Hk as <-.
Qed.

(** Once [revoke_dma] has reported success for a handle, the handle shows
    nothing in any later state, a further revocation of it is refused, and no map
    operation issues it again. *)
Theorem dma_handle_dies device ap rs w0 w h w1 w2 :
  fresh device ap rs w0 → rtc step w0 w → 0 <= DmaMappingHandle.slot h →
  revoke_dma (E:=Z) h w = Done STATUS_OK w1 → rtc step w1 w2 →
  mapping_info (E:=Z) h w2 = Done None w2 ∧
  (∀ w3, revoke_dma (E:=Z) h w2 ≠ Done STATUS_OK w3) ∧
  ∀ phys size align access o w3, u64 phys → u64 size → u64 align →
    map_dma_aligned phys size align access w2 = Done o w3 → o ≠ h.
Proof.
  intros Hf Hr Hh Hrev Hr2. pose proof (dma_reachable _ _ _ _ _ Hf Hr) as Hinv.
  apply (wp_Done _ _ _ _ _ _ (revoke_dma_ok w h Hinv Hh)) in Hrev as [[? _]|(_ & Hinv1 & i & r & j & slot & [Hi Ha] & -> & _ & Hd)]; [done|].
  assert (dead w1 (DmaMappingHandle.mk (Z.of_nat i) (DmaMapping.generation r))) as Hdead.
  { unfold dead. rewrite Hd. simpl. rewrite Nat2Z.id. eexists.
    split; [apply list_lookup_insert_eq; by eapply lookup_lt_Some|]. by right. }
  destruct (dead_rtc _ _ _ Hinv1 Hdead Hr2) as [Hinv2 Hdead2]. clear Hdead.
  assert (∀ k q, holds (domain w2) k q →
    DmaMappingHandle.mk (Z.of_nat i) (DmaMapping.generation r) ≠ DmaMappingHandle.mk (Z.of_nat k) (DmaMapping.generation q)) as Hno.
  { intros k q [Hk Hq] [= Hik Hg]. apply Nat2Z.inj in Hik as <-. destruct Hdead2 as (p & Hp & Hold). simpl in *.
    rewrite Nat2Z.id in Hp. simplify_eq. destruct Hold as [?|[_ ?]]; [lia|congruence]. }
  split; [|split].
  - pose proof (mapping_info_ok w2 _ Hinv2 Hh) as Hwp. unfold wp in Hwp.
    destruct (mapping_info _ w2) as [[x|] w'|e w'|]; [|by destruct Hwp as [-> _]|done|done].
    destruct Hwp as [_ Hx]. destruct (proj1 (Hx x) eq_refl) as (k & q & Hk & _ & Heq). by destruct (Hno k q Hk).
  - intros w3 Hrev3. apply (wp_Done _ _ _ _ _ _ (revoke_dma_ok w2 _ Hinv2 Hh)) in Hrev3
      as [[? _]|(_ & _ & k & q & _ & _ & Hk & Heq & _)]; [done|]. by destruct (Hno k q Hk).
  - intros phys size align access o w3 Hp Hs Hal Hmap.
    apply (wp_Done _ _ _ _ _ _ (map_dma_aligned_ok w2 phys size align access Hinv2 Hp Hs Hal)) in Hmap.
    by eapply dead_unissued.
Qed.

(** Dropping a live domain never panics, unmaps only translations that are
    live, and asks the backend to release the domain exactly when none is left:
    a domain whose backend refuses an unmap is leaked, never released with a
    translation in place. *)
Theorem dma_drop_decided device ap rs w0 w :
  fresh device ap rs w0 → rtc step w0 w → active (domain w) = true →
  match drop (E:=Z) w with
  | Done _ w' => active (domain w') = false ∧ misused (backend w') = false ∧
      (∀ x, x ∈ live (backend w') → x ∈ live (backend w)) ∧
      releases (backend w') = releases (backend w) + if bool_decide (live (backend w') = []) then 1 else 0
  | _ => False
  end.
Proof.
  intros Hf Hr Ha. pose proof (dma_reachable _ _ _ _ _ Hf Hr) as Hinv.
  pose proof (drop_ok (E:=Z) w Hinv Ha) as Hwp. unfold wp in Hwp.
  destruct (drop w) as [[] w'|e w'|]; [|done|done]. destruct Hwp as (Hinv' & ? & ? & ?). by split; [|split; [apply Hinv'|]].
Qed.
End claims.

(** ** A backend on which they apply *)

(** A backend that refuses its next [n] unmaps and accepts everything else. *)
#[local] Instance refusing_backend : DmaRemappingBackend nat := {
  isolate_device _ n := (Ok 7, n);
  map _ _ _ _ _ n := (STATUS_OK, n);
  unmap _ _ _ n := match n with O => (STATUS_OK, O) | S n' => (STATUS_BUSY, n') end;
  release_domain _ n := (STATUS_OK, n);
}.

Definition device0 : PciAddress.t := PciAddress.mk 0 2 0.
Definition aperture0 : IovaRange.t := IovaRange.mk 0x1000 0x11000.
Definition reserved0 : list IovaRange.t := [IovaRange.mk 0x1000 0x2000].
Definition scratch0 : IovaLedger.t := IovaLedger.mk IovaRange.EMPTY [] 0 [] 0.
Definition isolated (n : nat) : outcome (ObservedBackend.t nat) Z IommuDomain.t :=
  isolate device0 aperture0 reserved0 scratch0 (ObservedBackend.mk n [] false 0).
Definition start (n : nat) : world (ObservedBackend.t nat) :=
  match isolated n with
  | Done d b => World d b
  | _ => World (IommuDomain.mk 0 device0 false false scratch0 [] 0) (ObservedBackend.mk n [] false 0)
  end.

Lemma start_isolated n : fresh device0 aperture0 reserved0 (start n).
Proof.
  split; [vm_compute; intuition congruence|]. split; [repeat constructor; vm_compute; intuition congruence|].
  exists scratch0, n. fold (isolated n). unfold start.
  destruct (isolated n) as [d b|e b|] eqn:Heq; [done|vm_compute in Heq; discriminate Heq..].
Qed.

(** One page mapped. *)
Definition page0 : DmaMappingInfo.t := DmaMappingInfo.mk 0x2000 0x4000 0x1000 DmaAccess.READ_WRITE.
Definition handle0 : DmaMappingHandle.t := DmaMappingHandle.mk 0 1.
Definition one_page (n : nat) : world (ObservedBackend.t nat) :=
  match map_dma_aligned 0x4000 0x1000 1 DmaAccess.READ_WRITE (start n) with Done _ w => w | _ => start n end.

Lemma page_widths : u64 0x4000 ∧ u64 0x1000 ∧ u64 1.
Proof. done. Qed.
Lemma handle0_slot : 0 <= DmaMappingHandle.slot handle0.
Proof. done. Qed.
Lemma one_page_reached n : rtc step (start n) (one_page n).
Proof.
  unfold one_page. destruct (map_dma_aligned _ _ _ _ (start n)) as [h w|e w|] eqn:Heq; [|done|done].
  apply rtc_once, (step_done _ (MapDmaAligned 0x4000 0x1000 1 DmaAccess.READ_WRITE) (inl h)); [done|apply page_widths|].
  unfold run, mbind, M_bind. by rewrite Heq.
Qed.

Lemma dma_mappings_exact_witness :
  live (backend (one_page 0)) = [page0] ∧
  ∃ h, 0 <= DmaMappingHandle.slot h ∧ mapping_info (E:=Z) h (one_page 0) = Done (Some page0) (one_page 0).
Proof.
  assert (live (backend (one_page 0)) = [page0]) as Hl by (vm_compute; reflexivity). split; [exact Hl|].
  destruct (dma_mappings_exact device0 aperture0 reserved0 (start 0) (one_page 0) (start_isolated 0) (one_page_reached 0))
    as [Hexact _].
  apply Hexact. rewrite Hl. left.
Defined.

Lemma dma_map_decided_witness :
  ∃ w', map_dma_aligned 0x4000 0x1000 1 DmaAccess.READ_WRITE (start 0) = Done handle0 w' ∧
  ∃ dev, mapping_info (E:=Z) handle0 w' = Done (Some (DmaMappingInfo.mk dev 0x4000 0x1000 DmaAccess.READ_WRITE)) w'.
Proof.
  pose proof (dma_map_decided device0 aperture0 reserved0 (start 0) (start 0) 0x4000 0x1000 1 DmaAccess.READ_WRITE
    (start_isolated 0) (rtc_refl _ _) (proj1 page_widths) (proj1 (proj2 page_widths)) (proj2 (proj2 page_widths))) as Hdec.
  destruct (value_done (map_dma_aligned 0x4000 0x1000 1 DmaAccess.READ_WRITE (start 0)) handle0) as [w' Heq];
    [vm_compute; reflexivity|].
  rewrite Heq in Hdec. destruct Hdec as (dev & Hinfo & _). exists w'. split; [exact Heq|]. exists dev. exact Hinfo.
Defined.

Lemma dma_handle_dies_witness :
  ∃ w', revoke_dma (E:=Z) handle0 (one_page 0) = Done STATUS_OK w' ∧ mapping_info (E:=Z) handle0 w' = Done None w'.
Proof.
  destruct (value_done (revoke_dma (E:=Z) handle0 (one_page 0)) STATUS_OK) as [w' Heq]; [vm_compute; reflexivity|].
  exists w'. split; [exact Heq|].
  destruct (dma_handle_dies device0 aperture0 reserved0 (start 0) (one_page 0) handle0 w' w' (start_isolated 0)
    (one_page_reached 0) handle0_slot Heq (rtc_refl _ _)) as [Hnone _]. exact Hnone.
Defined.

(** With one refused unmap the page stays and the domain is not released. *)
Lemma dma_drop_decided_witness :
  ∃ w', drop (E:=Z) (one_page 1) = Done () w' ∧ active (domain w') = false ∧
    releases (backend w') = 0 + if bool_decide (live (backend w') = []) then 1 else 0.
Proof.
  assert (active (domain (one_page 1)) = true) as Ha by (vm_compute; reflexivity).
  assert (releases (backend (one_page 1)) = 0) as Hz by (vm_compute; reflexivity).
  pose proof (dma_drop_decided device0 aperture0 reserved0 (start 1) (one_page 1) (start_isolated 1)
    (one_page_reached 1) Ha) as Hdec.
  destruct (value_done (drop (E:=Z) (one_page 1)) ()) as [w' Heq]; [vm_compute; reflexivity|].
  rewrite Heq, Hz in Hdec. destruct Hdec as (Hact & _ & _ & Hrel). exists w'. split; [exact Heq|].
  split; [exact Hact|exact Hrel].
Defined.
End IommuClaims.
