(* ===== verification/VtdBackend.v ===== *)
(** * The VT-d backend

    Models [VtdDmaBackend] of [kernel/boulder/src/hw/vtd_backend.rs]: the owner of
    a remapping engine, of a page-table core and of the root and context table of
    one requester.  Page mappings are grouped in batches; a batch whose pages
    could not all be withdrawn is quarantined.  The backend runs behind a lock,
    so a call is one step on its state. *)
From S2P Require Import Prelude Acpi Slpt VtdMemory VtdTables VtdEngine VtdScope Iova XhciDma Iommu.
Import VtdEngineState.

Definition INVALIDATION_FAULT : Z := 1.

(** ** Entries and tables by value

    A [RootEntry] or [ContextEntry] as [raw] reads it: [lower], [upper].
    [VtdTables] models the stores behind these functions. *)
Definition entry : Type := Z * Z.
Definition EMPTY_ENTRY : entry := (0, 0).
Definition root_entry (context_table : Z) : result entry TableError :=
  match validate_page context_table with
  | Err e => Err e
  | Ok _ => Ok (Z.lor (Z.land context_table PHYSICAL_PAGE_MASK) PRESENT, 0)
  end.
Definition context_entry (domain_id address_width page_table_root : Z) : result entry TableError :=
  match validate_page page_table_root with
  | Err e => Err e
  | Ok _ =>
    if 3 <? address_width then Err InvalidContextWidth else
    Ok (Z.lor (Z.land page_table_root PHYSICAL_PAGE_MASK) PRESENT,
        Z.lor (wrap 64 (Z.shiftl domain_id 8)) address_width)
  end.

(** A [VtdRootContextStorage]: the two tables it lends and their physical
    addresses. *)
Record storage := Storage {
  root_table : list entry;
  root_table_physical_address : Z;
  context_table : list entry;
  context_table_physical_address : Z;
}.
Definition with_root_table (l : list entry) (s : storage) : storage :=
  Storage l (root_table_physical_address s) (context_table s) (context_table_physical_address s).
Definition with_context_table (l : list entry) (s : storage) : storage :=
  Storage (root_table s) (root_table_physical_address s) l (context_table_physical_address s).

(** [ContextEntryTable::entry]. *)
Definition context_index (device : PciAddress.t) : Z := PciAddress.slot device * 8 + PciAddress.function device.

Definition root_table_is_empty {S E} (s : storage) : M S E bool :=
  entries ← slice_to (root_table s) 256;
  mret (forallb (λ e : entry, bool_decide (e = EMPTY_ENTRY)) entries).
(** The source asks once per bus, although the buses share the table. *)
Definition context_table_is_empty {S E} (s : storage) : M S E bool :=
  entries ← slice_to (context_table s) 256;
  mret (forallb (λ e : entry, bool_decide (e = EMPTY_ENTRY)) entries).

Definition set_root {S E} (bus : Z) (e : entry) (s : storage) : M S E storage :=
  l ← store (root_table s) bus e; mret (with_root_table l s).
Definition set_context {S E} (device : PciAddress.t) (e : entry) (s : storage) : M S E storage :=
  l ← store (context_table s) (context_index device) e; mret (with_context_table l s).

Definition clear_requester_entries {S E} (s : storage) (requester : PciAddress.t) : M S E storage :=
  s ← set_root (PciAddress.bus requester) EMPTY_ENTRY s;
  set_context requester EMPTY_ENTRY s.

Definition select_address_width (supported maximum : Z) : option Z :=
  fst <$> List.find (λ '(encoding, width), any_set supported (Z.shiftl 1 encoding) && (width <=? maximum))
            [(3, 57); (2, 48); (1, 39); (0, 30)].

Definition domain_handle (generation : Z) : Z := Z.lor (wrap 64 (Z.shiftl generation 32)) 1.

Definition ranges_overlap (first_start first_length second_start second_length : Z) : bool :=
  let first_end := saturating_add 64 first_start first_length in
  let second_end := saturating_add 64 second_start second_length in
  (first_start <? second_end) && (second_start <? first_end).

Definition slpt_status (fault : SlptFault) : Z :=
  match fault with
  | InvalidIova | InvalidPhysicalAddress | InvalidPermissions => STATUS_INVALID_ARGUMENT
  | CapacityExhausted | IovaOverlap | PhysicalAlias => STATUS_BUSY
  | _ => STATUS_IO_ERROR
  end.

(** ** Types *)

Module VtdBatchHandle.
Record t := mk { slot : Z; generation : Z }.
End VtdBatchHandle.

Module PageRecord.
Inductive t :=
| Empty
| Active (handle : MappingHandle.t)
| MapPending (receipt : MappingHandle.t)
| UnmapPending (receipt : MappingHandle.t).
Definition is_empty (self : t) : bool := match self with Empty => true | _ => false end.
End PageRecord.

Module BatchPhase.
Inductive t := Empty | Staging | Active | Quarantined.
#[global] Instance t_eq_dec : EqDecision t.
Proof. solve_decision. Defined.
End BatchPhase.

Module BatchSlot.
Record t := mk {
  generation : Z;
  retired : bool;
  domain_generation : Z;
  phase : BatchPhase.t;
  device_address : Z;
  physical_address : Z;
  length : Z;
  page_start : Z;
  page_count : Z;
  was_active : bool;
}.
Definition EMPTY : t := mk 1 false 0 BatchPhase.Empty 0 0 0 0 0 false.
Definition with_phase (p : BatchPhase.t) (b : t) : t :=
  mk (generation b) (retired b) (domain_generation b) p (device_address b) (physical_address b) (length b)
     (page_start b) (page_count b) (was_active b).
Definition with_active (a : bool) (b : t) : t :=
  mk (generation b) (retired b) (domain_generation b) (phase b) (device_address b) (physical_address b) (length b)
     (page_start b) (page_count b) a.
Definition with_generation (g : Z) (r : bool) (b : t) : t :=
  mk g r (domain_generation b) (phase b) (device_address b) (physical_address b) (length b)
     (page_start b) (page_count b) (was_active b).
Definition is_phase (p : BatchPhase.t) (b : t) : bool := bool_decide (phase b = p).
End BatchSlot.

Module VtdBackendBuildFault.
Inductive t :=
| InvalidCapacity | InvalidTableAlias | RootTableNotEmpty | ContextTableNotEmpty
| Probe (e : VtdEngineFault.t) | Slpt (e : SlptFault) | Table (e : TableError) | Enable (e : VtdEngineFault.t).
End VtdBackendBuildFault.

Module VtdBackendShutdownFault.
Inductive t := DomainActive | Disable (e : VtdEngineFault.t) | Unavailable.
End VtdBackendShutdownFault.

(** ** The invalidator of the page-table core *)

Module EngineInvalidator.
Section invalidator.
Context {R : Type} `{VtdRegisterBackend R}.

Record t := mk {
  engine : VtdRemappingEngine.t R;
  poll_limit : Z;
  last_fault : option VtdEngineFault.t;
}.

(** The address is not used: the commit invalidates everything. *)
Definition invalidate (iova : Z) : M t SlptInvalidationError unit := λ i,
  match VtdRemappingEngine.commit_table_update (poll_limit i) (engine i) with
  | Done _ e => Done () (mk e (poll_limit i) (last_fault i))
  | Fail fault e =>
    Fail INVALIDATION_FAULT
      (mk e (poll_limit i) (match last_fault i with None => Some fault | Some f => Some f end))
  | Panic => Panic
  end.
#[global] Instance invalidator : SlptInvalidator t := {| invalidate_after_page_table_change := invalidate |}.
End invalidator.
Arguments t : clear implicits.
End EngineInvalidator.

(** ** The backend *)

Module VtdDmaBackend.
Section backend.
Context {R Mem : Type} `{VtdRegisterBackend R} `{SlptPageMemory Mem}.
(** The const parameters. *)
Variables (PAGES BATCHES MAX_BATCH_PAGES : Z).

(** [VtdBackendCore]. *)
Record core := Core {
  engine : VtdRemappingEngine.t R;
  memory : Mem;
  tables : storage;
  slpt : Slpt.t;
  scope : VtdRequesterScope.t;
  poll_limit : Z;
  domain_generation : Z;
  domain_active : bool;
  domain_retired : bool;
  authority_released : bool;
  poisoned : bool;
  last_engine_fault : option VtdEngineFault.t;
  batches : list BatchSlot.t;
  page_records : list PageRecord.t;
}.

Definition with_batches (l : list BatchSlot.t) (c : core) : core :=
  Core (engine c) (memory c) (tables c) (slpt c) (scope c) (poll_limit c) (domain_generation c) (domain_active c)
    (domain_retired c) (authority_released c) (poisoned c) (last_engine_fault c) l (page_records c).
Definition with_page_records (l : list PageRecord.t) (c : core) : core :=
  Core (engine c) (memory c) (tables c) (slpt c) (scope c) (poll_limit c) (domain_generation c) (domain_active c)
    (domain_retired c) (authority_released c) (poisoned c) (last_engine_fault c) (batches c) l.
Definition with_poisoned (b : bool) (c : core) : core :=
  Core (engine c) (memory c) (tables c) (slpt c) (scope c) (poll_limit c) (domain_generation c) (domain_active c)
    (domain_retired c) (authority_released c) b (last_engine_fault c) (batches c) (page_records c).
Definition with_fault (f : option VtdEngineFault.t) (c : core) : core :=
  Core (engine c) (memory c) (tables c) (slpt c) (scope c) (poll_limit c) (domain_generation c) (domain_active c)
    (domain_retired c) (authority_released c) (poisoned c) f (batches c) (page_records c).
Definition with_engine (e : VtdRemappingEngine.t R) (c : core) : core :=
  Core e (memory c) (tables c) (slpt c) (scope c) (poll_limit c) (domain_generation c) (domain_active c)
    (domain_retired c) (authority_released c) (poisoned c) (last_engine_fault c) (batches c) (page_records c).
Definition with_tables (s : storage) (c : core) : core :=
  Core (engine c) (memory c) s (slpt c) (scope c) (poll_limit c) (domain_generation c) (domain_active c)
    (domain_retired c) (authority_released c) (poisoned c) (last_engine_fault c) (batches c) (page_records c).
(** The domain's fields: generation, active, retired, released. *)
Definition with_domain (g : Z) (active retired released : bool) (c : core) : core :=
  Core (engine c) (memory c) (tables c) (slpt c) (scope c) (poll_limit c) g active retired released (poisoned c)
    (last_engine_fault c) (batches c) (page_records c).

(** *** Calls of the page-table core and of the engine *)

(** The core of [slpt] with the memory and an [EngineInvalidator] on the
    backend's engine. *)
Definition pages (c : core) : Slpt.world Mem (EngineInvalidator.t R) :=
  Slpt.World (slpt c) (memory c) (EngineInvalidator.mk (engine c) (poll_limit c) (last_engine_fault c)).
Definition set_pages (w : Slpt.world Mem (EngineInvalidator.t R)) (c : core) : core :=
  Core (EngineInvalidator.engine (Slpt.invalidator w)) (Slpt.memory w) (tables c) (Slpt.slpt w) (scope c)
    (poll_limit c) (domain_generation c) (domain_active c) (domain_retired c) (authority_released c) (poisoned c)
    (EngineInvalidator.last_fault (Slpt.invalidator w)) (batches c) (page_records c).
Definition on_pages {E A} (m : M (Slpt.world Mem (EngineInvalidator.t R)) E A) : M core E A := zoom pages set_pages m.
Definition on_engine {E A} (m : M (VtdRemappingEngine.t R) E A) : M core E A := zoom engine with_engine m.

(** [if self.engine.state() == Poisoned { self.poisoned = true }]. *)
Definition note_poison {E} : M core E unit :=
  modify (λ c, if bool_decide (VtdRemappingEngine.state (engine c) = Poisoned) then with_poisoned true c else c).

Definition set_batch {E} (i : Z) (b : BatchSlot.t) : M core E unit :=
  c ← get; l ← store (batches c) i b; put (with_batches l c).
Definition batch {E} (i : Z) : M core E BatchSlot.t := c ← get; index (batches c) i.
Definition set_phase {E} (i : Z) (p : BatchPhase.t) : M core E unit :=
  b ← batch i; set_batch i (BatchSlot.with_phase p b).
Definition set_record {E} (i : Z) (r : PageRecord.t) : M core E unit :=
  c ← get; l ← store (page_records c) i r; put (with_page_records l c).

Definition valid_domain (self : core) (domain : Z) : bool :=
  domain_active self && negb (authority_released self) && (domain =? domain_handle (domain_generation self)).

(** [windows(page_count).position(all Empty)]. *)
Definition find_free_page_run (self : core) (page_count : Z) : option Z :=
  if (page_count =? 0) || (PAGES <? page_count) then None else
  List.find (λ start, forallb PageRecord.is_empty
                        (take (Z.to_nat page_count) (drop (Z.to_nat start) (page_records self))))
    (range 0 (len (page_records self) - page_count + 1)).

(** *** Withdrawing a batch *)

Definition retire_batch {E} (i : Z) : M core E unit :=
  b ← batch i;
  let generation := BatchSlot.generation b in
  set_batch i
    (if generation =? MAX 32 then BatchSlot.with_generation generation true BatchSlot.EMPTY
     else BatchSlot.with_generation (generation + 1) false BatchSlot.EMPTY).

(** What a page record asks of the page-table core. *)
Definition withdraw_page (record : PageRecord.t) : M core SlptFault (option UnmapOutcome) :=
  match record with
  | PageRecord.Empty => mret None
  | PageRecord.Active handle => o ← on_pages (Slpt.unmap_page handle); mret (Some o)
  | PageRecord.MapPending receipt => o ← on_pages (Slpt.cancel_pending_map receipt); mret (Some o)
  | PageRecord.UnmapPending receipt => o ← on_pages (Slpt.finish_unmap receipt); mret (Some o)
  end.

(** The loop over the pages of batch [i]. *)
Fixpoint cleanup_pages {E} (i page_start : Z) (l : list Z) : M core E (result bool unit) :=
  match l with
  | [] => retire_batch i ;; mret (Ok true)
  | page :: l' =>
    page_slot ← add 64 page_start page;
    c ← get;
    record ← index (page_records c) page_slot;
    outcome ← attempt (withdraw_page record);
    match outcome with
    | Ok None => cleanup_pages i page_start l'
    | Ok (Some Complete) =>
      set_record page_slot PageRecord.Empty ;;
      cleanup_pages i page_start l'
    | Ok (Some (UnmapPending receipt _)) =>
      set_record page_slot (PageRecord.UnmapPending receipt) ;;
      note_poison ;;
      set_phase i BatchPhase.Quarantined ;;
      mret (Ok false)
    | Err _ =>
      modify (with_poisoned true) ;;
      set_phase i BatchPhase.Quarantined ;;
      mret (Err ())
    end
  end.
Definition cleanup_batch {E} (i : Z) : M core E (result bool unit) :=
  b ← batch i;
  cleanup_pages i (BatchSlot.page_start b) (range 0 (BatchSlot.page_count b)).

(** *** Mapping *)

(** The loop over the pages to map: the status of the failure, if any. *)
Fixpoint map_pages {E} (device_address physical_address page_start : Z) (permissions : DmaPermissions.t)
    (l : list Z) : M core E (option Z) :=
  match l with
  | [] => mret None
  | page :: l' =>
    offset ← mul 64 page Paging.PAGE_SIZE;
    iova ← add 64 device_address offset;
    physical ← add 64 physical_address offset;
    outcome ← attempt (on_pages (Slpt.map_page iova physical permissions));
    page_slot ← add 64 page_start page;
    match outcome with
    | Ok (MapActive handle) =>
      set_record page_slot (PageRecord.Active handle) ;;
      map_pages device_address physical_address page_start permissions l'
    | Ok (MapPending receipt _) =>
      set_record page_slot (PageRecord.MapPending receipt) ;;
      note_poison ;;
      mret (Some STATUS_IO_ERROR)
    | Err fault =>
      (match fault with
       | PoisonedFault | RollbackFailed => modify (with_poisoned true)
       | _ => mret ()
       end) ;;
      mret (Some (slpt_status fault))
    end
  end.

Definition conflicts (device_address physical_address length : Z) (b : BatchSlot.t) : bool :=
  negb (BatchSlot.is_phase BatchPhase.Empty b)
  && (ranges_overlap (BatchSlot.device_address b) (BatchSlot.length b) device_address length
      || ranges_overlap (BatchSlot.physical_address b) (BatchSlot.length b) physical_address length).

Definition span_is_valid (device_address physical_address length : Z) (access : DmaAccess.t) : bool :=
  negb ((length =? 0) || negb (device_address mod Paging.PAGE_SIZE =? 0)
        || negb (physical_address mod Paging.PAGE_SIZE =? 0) || negb (length mod Paging.PAGE_SIZE =? 0)
        || negb (bool_decide (is_Some (checked_add 64 device_address length)))
        || negb (bool_decide (is_Some (checked_add 64 physical_address length)))
        || (access =? 0) || any_set access (bitnot 8 DmaAccess.READ_WRITE)).

(** The part of [map_span] behind its guards: the batch is staged, its pages are
    mapped, and the batch becomes active or is cleaned up. *)
Definition stage_batch {E} (i page_start page_count device_address physical_address length : Z)
    (access : DmaAccess.t) : M core E Z :=
  b ← batch i;
  c ← get;
  set_batch i (BatchSlot.mk (BatchSlot.generation b) false (domain_generation c) BatchPhase.Staging
                 device_address physical_address length page_start page_count false) ;;
  let permissions := DmaPermissions.mk (any_set access DmaAccess.READ) (any_set access DmaAccess.WRITE) in
  failure ← map_pages device_address physical_address page_start permissions (range 0 page_count);
  match failure with
  | Some status =>
    set_phase i BatchPhase.Quarantined ;;
    cleanup_batch i ;;
    mret status
  | None =>
    set_phase i BatchPhase.Active ;;
    b ← batch i;
    set_batch i (BatchSlot.with_active true b) ;;
    mret STATUS_OK
  end.

Definition map_span {E} (domain device_address physical_address length : Z) (access : DmaAccess.t) : M core E Z :=
  c ← get;
  if negb (valid_domain c domain) then mret STATUS_NOT_FOUND else
  if poisoned c || existsb (BatchSlot.is_phase BatchPhase.Quarantined) (batches c) then mret STATUS_IO_ERROR else
  if negb (span_is_valid device_address physical_address length access) then mret STATUS_INVALID_ARGUMENT else
  let page_count := length / Paging.PAGE_SIZE in
  if (MAX_BATCH_PAGES <? page_count) || (PAGES <? page_count) then mret STATUS_BUSY else
  if existsb (conflicts device_address physical_address length) (batches c) then mret STATUS_BUSY else
  match position (λ b, BatchSlot.is_phase BatchPhase.Empty b && negb (BatchSlot.retired b)) (batches c) with
  | None => mret STATUS_BUSY
  | Some i =>
    match find_free_page_run c page_count with
    | None => mret STATUS_BUSY
    | Some page_start =>
      stage_batch (Z.of_nat i) page_start page_count device_address physical_address length access
    end
  end.

Definition names_span (self : core) (device_address length : Z) (b : BatchSlot.t) : bool :=
  negb (BatchSlot.is_phase BatchPhase.Empty b)
  && (BatchSlot.domain_generation b =? domain_generation self)
  && (BatchSlot.device_address b =? device_address) && (BatchSlot.length b =? length).

Definition unmap_span {E} (domain device_address length : Z) : M core E Z :=
  c ← get;
  if negb (valid_domain c domain) then mret STATUS_NOT_FOUND else
  match position (names_span c device_address length) (batches c) with
  | None => mret STATUS_NOT_FOUND
  | Some i =>
    b ← batch (Z.of_nat i);
    set_phase (Z.of_nat i) BatchPhase.Quarantined ;;
    outcome ← cleanup_batch (Z.of_nat i);
    mret (match outcome with
          | Ok true => if BatchSlot.was_active b then STATUS_OK else STATUS_NOT_FOUND
          | _ => STATUS_IO_ERROR
          end)
  end.

(** *** The domain *)

Definition isolate (device : PciAddress.t) : M core Z Z :=
  c ← get;
  if negb (bool_decide (device = VtdRequesterScope.requester (scope c))) then throw STATUS_UNSUPPORTED else
  if poisoned c || authority_released c then throw STATUS_IO_ERROR else
  if domain_active c then throw STATUS_BUSY else
  if domain_retired c then throw STATUS_UNSUPPORTED else
  put (with_domain (domain_generation c) true (domain_retired c) (authority_released c) c) ;;
  mret (domain_handle (domain_generation c)).

(** [for index in 0..BATCHES]: whether a cleanup failed. *)
Fixpoint cleanup_all {E} (l : list Z) (failed : bool) : M core E bool :=
  match l with
  | [] => mret failed
  | i :: l' =>
    b ← batch i;
    if BatchSlot.is_phase BatchPhase.Empty b then cleanup_all l' failed else
    outcome ← cleanup_batch i;
    cleanup_all l' (match outcome with Ok true => failed | _ => true end)
  end.

(** [core.engine.disable] with what both callers do on its failure. *)
Definition disable_engine : M core VtdEngineFault.t unit :=
  c ← get;
  outcome ← attempt (on_engine (VtdRemappingEngine.disable (poll_limit c)));
  match outcome with
  | Err fault => modify (with_fault (Some fault)) ;; note_poison ;; throw fault
  | Ok _ => mret ()
  end.
(** The entries are cleared and the authority is given up. *)
Definition release_authority {E} : M core E unit :=
  c ← get;
  s ← clear_requester_entries (tables c) (VtdRequesterScope.requester (scope c));
  put (with_domain (domain_generation c) (domain_active c) (domain_retired c) true (with_tables s c)).

Definition release {E} (domain : Z) : M core E Z :=
  c ← get;
  if negb (valid_domain c domain) then mret STATUS_NOT_FOUND else
  cleanup_failed ← cleanup_all (range 0 BATCHES) false;
  c ← get;
  if cleanup_failed || existsb (λ b, negb (BatchSlot.is_phase BatchPhase.Empty b)) (batches c)
  then mret STATUS_IO_ERROR else
  disabled ← attempt disable_engine;
  match disabled with
  | Err _ => mret STATUS_IO_ERROR
  | Ok _ =>
    release_authority ;;
    c ← get;
    (if domain_generation c =? MAX 32
     then put (with_domain (domain_generation c) false true (authority_released c) c)
     else put (with_domain (domain_generation c + 1) false (domain_retired c) (authority_released c) c)) ;;
    mret STATUS_OK
  end.

(** *** Behind the lock

    The lock holds the core until [shutdown] takes it. *)

Definition last_fault (self : option core) : option VtdEngineFault.t := self ≫= last_engine_fault.

Definition batch_handle (self : option core) (device_address length : Z) : option VtdBatchHandle.t :=
  core ← self;
  i ← position (λ b, negb (BatchSlot.is_phase BatchPhase.Empty b)
                     && (BatchSlot.device_address b =? device_address) && (BatchSlot.length b =? length)) (batches core);
  b ← batches core !! i;
  Some (VtdBatchHandle.mk (wrap 16 (Z.of_nat i)) (BatchSlot.generation b)).

Definition batch_is_live (self : option core) (handle : VtdBatchHandle.t) : bool :=
  match self ≫= (λ core, batches core !! Z.to_nat (VtdBatchHandle.slot handle)) with
  | Some b => negb (BatchSlot.is_phase BatchPhase.Empty b)
              && (BatchSlot.generation b =? VtdBatchHandle.generation handle)
  | None => false
  end.

(** [VtdReleasedResources]. *)
Record released := Released {
  released_engine : VtdRemappingEngine.t R;
  released_memory : Mem;
  released_tables : storage;
  released_slpt : Slpt.t;
  released_scope : VtdRequesterScope.t;
}.

(** A failure gives the backend back: its state stays. *)
Definition shutdown : M (option core) VtdBackendShutdownFault.t released := λ s,
  match s with
  | None => Fail VtdBackendShutdownFault.Unavailable None
  | Some c =>
    if domain_active c || existsb (λ b, negb (BatchSlot.is_phase BatchPhase.Empty b)) (batches c)
    then Fail VtdBackendShutdownFault.DomainActive (Some c) else
    let hand_over c := Done (Released (engine c) (memory c) (tables c) (slpt c) (scope c)) None in
    if authority_released c then hand_over c else
    match (disable_engine ;; release_authority) c with
    | Panic => Panic
    | Fail fault c' => Fail (VtdBackendShutdownFault.Disable fault) (Some c')
    | Done _ c' => hand_over c'
    end
  end.

(** The trait methods: without a core, an I/O error.  [Panic] poisons the lock
    holder's thread; the theorems show that no call reaches it. *)
Definition locked {A} (missing : A) (m : M core Empty_set A) (s : option core) : A * option core :=
  match s with
  | None => (missing, None)
  | Some c => match m c with Done a c' => (a, Some c') | _ => (missing, Some c) end
  end.
#[global] Instance backend : DmaRemappingBackend (option core) := {|
  isolate_device device := locked (Err STATUS_IO_ERROR) (attempt (isolate device));
  map domain device_address physical_address length access :=
    locked STATUS_IO_ERROR (map_span domain device_address physical_address length access);
  unmap domain device_address length := locked STATUS_IO_ERROR (unmap_span domain device_address length);
  release_domain domain := locked STATUS_IO_ERROR (release domain);
|}.

(** *** Construction *)

(** [VtdEngineOwnership], [VtdBackendBuildOwnership] and the failure with it. *)
Inductive VtdEngineOwnership := Registers (r : R) | Engine (e : VtdRemappingEngine.t R).
Record build_failure := BuildFailure {
  fault : VtdBackendBuildFault.t;
  own_engine : VtdEngineOwnership;
  own_memory : Mem;
  own_tables : storage;
  own_slpt : option Slpt.t;
  own_slpt_root : SlptFrame;
  own_scope : VtdRequesterScope.t;
  tables_installed : bool;
}.

Section build.
Import VtdBackendBuildFault.
Variables (requester_scope : VtdRequesterScope.t) (mem : Mem) (slpt_root : SlptFrame) (domain_id limit : Z).

(** The checks before anything is written, and the page-table core. *)
Definition check_and_attach (engine : VtdRemappingEngine.t R) (s : storage) : M () VtdBackendBuildFault.t Slpt.t :=
  if (PAGES =? 0) || (BATCHES =? 0) || (MAX_BATCH_PAGES =? 0) || (MAX 16 <? BATCHES) || (limit =? 0)
  then throw InvalidCapacity else
  let root_pa := root_table_physical_address s in
  let context_pa := context_table_physical_address s in
  if (root_pa =? context_pa) || (root_pa =? slpt_root) || (context_pa =? slpt_root)
  then throw InvalidTableAlias else
  root_empty ← root_table_is_empty s;
  if negb root_empty then throw RootTableNotEmpty else
  context_empty ← context_table_is_empty s;
  if negb context_empty then throw ContextTableNotEmpty else
  let capabilities := VtdRemappingEngine.capabilities engine in
  let supported := VtdCapabilities.supported_adjusted_guest_widths capabilities in
  let maximum := VtdCapabilities.maximum_guest_address_width capabilities in
  encoding ← ok_or (select_address_width supported maximum) (Slpt UnsupportedAddressWidth);
  match Slpt.attach PAGES mem slpt_root (SlptConfig.mk supported maximum encoding) with
  | Err e => throw (Slpt e)
  | Ok slpt => mret slpt
  end.

(** The requester's two entries; an error comes with the tables it leaves. *)
Definition install_entries (slpt : Slpt.t) (s : storage) : M () (VtdBackendBuildFault.t * storage) storage :=
  let requester := VtdRequesterScope.requester requester_scope in
  width ← Slpt.address_width_encoding slpt;
  match context_entry domain_id width (Slpt.root slpt) with
  | Err e => throw (Table e, s)
  | Ok context =>
    s' ← set_context requester context s;
    match root_entry (context_table_physical_address s) with
    | Err e => cleared ← set_context requester EMPTY_ENTRY s'; throw (Table e, cleared)
    | Ok root => set_root (PciAddress.bus requester) root s'
    end
  end.

Definition build (registers : R) (s : storage) : M () build_failure core :=
  match VtdRemappingEngine.probe (VtdRequesterScope.unit requester_scope) registers with
  | Panic => panic
  | Fail e r => throw (BuildFailure (Probe e) (Registers r) mem s None slpt_root requester_scope false)
  | Done engine _ =>
    let failed e tables slpt := BuildFailure e (Engine engine) mem tables slpt slpt_root requester_scope false in
    slpt ← map_err (λ e, failed e s None) (check_and_attach engine s);
    s' ← map_err (λ '(e, tables), failed e tables (Some slpt)) (install_entries slpt s);
    match VtdRemappingEngine.enable (root_table_physical_address s) limit engine with
    | Panic => panic
    | Fail e engine' =>
      let safe_to_clear := bool_decide (VtdRemappingEngine.state engine' = Disabled) in
      left ← (if safe_to_clear then clear_requester_entries s' (VtdRequesterScope.requester requester_scope)
              else mret s');
      throw (BuildFailure (Enable e) (Engine engine') mem left (Some slpt) slpt_root requester_scope
               (negb safe_to_clear))
    | Done _ engine' =>
      mret (Core engine' mem s' slpt requester_scope limit 1 false false false false None
              (replicate (Z.to_nat BATCHES) BatchSlot.EMPTY) (replicate (Z.to_nat PAGES) PageRecord.Empty))
    end
  end.
End build.
End backend.
End VtdDmaBackend.
