(* ===== verification/VtdBackendFacts.v ===== *)
(** * Facts of the VT-d backend

    The engine's invalidator keeps the laws of the page-table core, and the page
    records of the backend stay in step with the records of that core. *)
From S2P Require Import Prelude Acpi Slpt SlptTree SlptLedger SlptPath SlptOps SlptRuns SlptCalls VtdMemory.
From S2P Require Import VtdTables VtdEngine VtdEngineFacts VtdScope Iova XhciDma Iommu VtdBackend.

(** ** The engine as invalidator *)

Section invalidator.
Context {R : Type} {HB : VtdRegisterBackend R} {HU : VtdUnitLaws R}.
Implicit Types (i : EngineInvalidator.t R).
#[local] Abbreviation eng := EngineInvalidator.engine.
#[local] Abbreviation state i := (VtdRemappingEngine.state (eng i)).

(** Commits keep the engine enabled or poison it, and report only the first fault. *)
Record wears i i' : Prop := {
  wears_limit : EngineInvalidator.poll_limit i' = EngineInvalidator.poll_limit i;
  wears_kin : kin (eng i) (eng i');
  wears_root : VtdRemappingEngine.owned_root (eng i') = VtdRemappingEngine.owned_root (eng i);
  wears_state : state i' = state i ∨ state i = VtdEngineState.Enabled ∧ state i' = VtdEngineState.Poisoned;
  wears_fault f : EngineInvalidator.last_fault i = Some f → EngineInvalidator.last_fault i' = Some f;
}.
#[export] Instance wears_preorder : PreOrder wears.
Proof.
  split.
  - intros i. split; [done|done|done|by left|done].
  - intros a b c [H1 H2 H3 H4 H5] [H6 H7 H8 H9 H10]. split; [congruence|by etrans|congruence| |auto].
    destruct H4 as [H4|[? H4]], H9 as [H9|[? H9]]; rewrite H4 in *; auto; congruence.
Qed.

(** The commit, as an invalidation. *)
Lemma engine_invalidate_ok i v :
  engine_ok (eng i) →
  wp (EngineInvalidator.invalidate v)
    (λ _ i', wears i i' ∧ state i' = VtdEngineState.Enabled ∧
             EngineInvalidator.last_fault i' = EngineInvalidator.last_fault i ∧ empty_caches (eng i'))
    (λ _ i', wears i i' ∧ is_Some (EngineInvalidator.last_fault i') ∧
             (EngineInvalidator.poll_limit i ≠ 0 → state i' ≠ VtdEngineState.Enabled)) i.
Proof.
  intros Hok. unfold wp, EngineInvalidator.invalidate.
  pose proof (engine_commit_ok (eng i) (EngineInvalidator.poll_limit i) Hok) as Hc. unfold wp in Hc.
  destruct (VtdRemappingEngine.commit_table_update _ (eng i)) as [[] e|f e|]; [| |done]; simpl.
  - destruct Hc as (Hn & Hs & (Hk & Hs' & Ho) & Hempty). split_and!; [|done..].
    split; simpl; [done|done|done|left; congruence|done].
  - assert (is_Some (match EngineInvalidator.last_fault i with Some f' => Some f' | None => Some f end)) as Hf
      by (destruct (EngineInvalidator.last_fault i); eauto).
    destruct Hc as [[Hr ->]|(Hn & Hs & _ & Hk & Hs' & Ho)]; (split_and!; [split; simpl|done|]).
    all: try done; try (by intros x ->); try (by left); try (by right).
    + intros Hn. by destruct Hr as [[? _]|(_ & ? & _)].
    + simpl. congruence.
Qed.

#[export, refine] Instance engine_invalidator_laws : SlptInvalidatorLaws (EngineInvalidator.t R) := {
  inval_ok i := engine_ok (eng i);
  cached i v e := stored (VtdRemappingEngine.registers (eng i)) Iotlb v e;
  ages := wears;
  ages_preorder := wears_preorder;
}.
Proof.
  - intros i i' [_ Hk Hr Hs _] Hok. eapply kin_ok; [done..|]. rewrite Hr. pose proof (eng_root _ Hok) as Ha.
    by destruct Hs as [-> |[_ ->]].
  - intros i i' v e [_ [_ _ _ _ [_ Hf]] _ _ _]. apply Hf.
  - intros i v Hok. eapply wp_mono; [by apply engine_invalidate_ok| |].
    + intros [] i' (Hw & _ & _ & Hempty). split; [done|]. intros e. apply Hempty.
    + intros e i' [Hw _]. done.
Defined.
End invalidator.

(** ** Page records and the page-table core *)

Definition handle_of (rec : PageRecord.t) : option MappingHandle.t :=
  match rec with
  | PageRecord.Empty => None
  | PageRecord.Active h | PageRecord.MapPending h | PageRecord.UnmapPending h => Some h
  end.

(** The phase of the mapping that each kind of page record stands for. *)
Definition backs (rec : PageRecord.t) (r : MappingRecord.t) : Prop :=
  match rec with
  | PageRecord.Empty => False
  | PageRecord.Active _ => MappingRecord.phase r = Active
  | PageRecord.MapPending _ => MappingRecord.phase r = AwaitingMapInvalidation
  | PageRecord.UnmapPending _ => ¬ live r
  end.

(** The page record in slot [k] names a mapping of the core from [v] to [pa],
    where [place k v pa] says which page belongs in that slot, and every mapping
    of the core has its page record. *)
Record tracks (a : Slpt.t) (l : list PageRecord.t) (place : nat → Z → Z → Prop) : Prop := {
  tr_named k rec h : l !! k = Some rec → handle_of rec = Some h →
    ∃ i s r, names a h i s r ∧ place k (MappingRecord.iova r) (MappingRecord.physical_address r) ∧
             (Slpt.state a = Operational → backs rec r);
  tr_all i r : holds a i r → ∃ k rec h s, l !! k = Some rec ∧ handle_of rec = Some h ∧ names a h i s r;
}.

Section tracks.
Context (a : Slpt.t) (l : list PageRecord.t) (place : nat → Z → Z → Prop).
Context (place_inj : ∀ k k' v pa pa', place k v pa → place k' v pa' → k = k').
Implicit Types (k i : nat) (h : MappingHandle.t) (r : MappingRecord.t).

Lemma names_eq b b' h i s r : Slpt.slots b' = Slpt.slots b → names b' h i s r ↔ names b h i s r.
Proof. intros Heq. unfold names. by rewrite Heq. Qed.

(** Two slots never name the same mapping. *)
Lemma tracks_inj k k' rec rec' h h' i s s' r r' :
  tracks a l place → l !! k = Some rec → handle_of rec = Some h → l !! k' = Some rec' → handle_of rec' = Some h' →
  names a h i s r → names a h' i s' r' → k = k'.
Proof using place_inj.
  intros Ht Hk Hh Hk' Hh' Hn Hn'.
  destruct (tr_named _ _ _ Ht _ _ _ Hk Hh) as (i1 & s1 & r1 & (Hi1 & Hs1 & _ & Hr1) & Hp1 & _).
  destruct (tr_named _ _ _ Ht _ _ _ Hk' Hh') as (i2 & s2 & r2 & (Hi2 & Hs2 & _ & Hr2) & Hp2 & _).
  destruct Hn as (Hi & _), Hn' as (Hi' & _). assert (i1 = i2) as -> by lia. simplify_eq. by eapply place_inj.
Qed.

(** The core is poisoned, its records unchanged. *)
Lemma tracks_state b : Slpt.slots b = Slpt.slots a → (Slpt.state b = Operational → Slpt.state a = Operational) →
  tracks a l place → tracks b l place.
Proof using Type.
  intros Hs Hst [Hn Ha]. split.
  - intros k rec h Hk Hh. destruct (Hn k rec h Hk Hh) as (i & s & r & Hr & Hp & Hb). exists i, s, r.
    split; [by apply (names_eq a)|]. auto.
  - intros i r Hr. destruct (Ha i r) as (k & rec & h & s & ? & ? & ?).
    { destruct Hr as (s & Hr). exists s. by rewrite <-Hs. }
    exists k, rec, h, s. split; [done|]. split; [done|]. by apply (names_eq a).
Qed.

Lemma names_put_ne b h i j s s' r : i ≠ j → names (put_slot b i s') h j s r ↔ names b h j s r.
Proof using Type. intros Hne. unfold names, put_slot. simpl. by rewrite list_lookup_insert_ne. Qed.

(** A page is mapped into an empty slot. *)
Lemma tracks_mapped k i s r rec h :
  tracks a l place → l !! k = Some PageRecord.Empty → Slpt.slots a !! i = Some s → MappingSlot.record s = None →
  handle_of rec = Some h → h = MappingHandle.mk (Z.of_nat i) (MappingSlot.generation s) →
  place k (MappingRecord.iova r) (MappingRecord.physical_address r) → backs rec r →
  tracks (put_slot a i (MappingSlot.mk (MappingSlot.generation s) (Some r) (MappingSlot.retired s))) (<[k := rec]> l) place.
Proof using Type.
  intros [Hn Ha] Hk Hs Hnone Hh -> Hp Hb. pose proof (lookup_lt_Some _ _ _ Hs) as Hlt. pose proof (lookup_lt_Some _ _ _ Hk) as Hltk.
  set (s' := MappingSlot.mk _ (Some r) _).
  assert (names (put_slot a i s') (MappingHandle.mk (Z.of_nat i) (MappingSlot.generation s)) i s' r) as Hnew.
  { split_and!; [done| |done|done]. by apply list_lookup_insert_eq. }
  split.
  - intros k' rec' h' Hk' Hh'. destruct (decide (k = k')) as [<-|Hne].
    + rewrite list_lookup_insert_eq in Hk' by done. simplify_eq. by exists i, s', r.
    + rewrite list_lookup_insert_ne in Hk' by done. destruct (Hn k' rec' h' Hk' Hh') as (j & t & x & Hx & ? & ?).
      exists j, t, x. split; [|done]. apply names_put_ne; [|done]. intros <-. destruct Hx as (_ & Hx & _ & Hx'). congruence.
  - intros j x [[-> Hx]|[Hne Hx]]%holds_put; [| |done].
    + injection Hx as <-. exists k, rec, (MappingHandle.mk (Z.of_nat i) (MappingSlot.generation s)), s'.
      split; [by rewrite list_lookup_insert_eq|]. by split.
    + destruct (Ha j x Hx) as (k' & rec' & h' & t & Hk' & Hh' & Hx'). exists k', rec', h', t. split; [|split; [done|]].
      * rewrite list_lookup_insert_ne; [done|]. intros ->. rewrite Hk in Hk'. by simplify_eq.
      * by apply names_put_ne.
Qed.

Section one.
Context (k i : nat) (s : MappingSlot.t) (r : MappingRecord.t) (rec : PageRecord.t) (h : MappingHandle.t).
Context (Ht : tracks a l place) (Hk : l !! k = Some rec) (Hh : handle_of rec = Some h) (Hr : names a h i s r).

(** The mapping behind slot [k] is gone. *)
Lemma tracks_removed s' : MappingSlot.record s' = None → tracks (put_slot a i s') (<[k := PageRecord.Empty]> l) place.
Proof using place_inj Ht Hk Hh Hr.
  intros Hnone. pose proof Hr as (Hslot & Hs & _). pose proof (lookup_lt_Some _ _ _ Hs) as Hlt.
  pose proof (lookup_lt_Some _ _ _ Hk) as Hltk. split.
  - intros k' rec' h' Hk' Hh'. destruct (decide (k = k')) as [<-|Hne].
    + rewrite list_lookup_insert_eq in Hk' by done. by simplify_eq.
    + rewrite list_lookup_insert_ne in Hk' by done. destruct (tr_named _ _ _ Ht k' rec' h' Hk' Hh') as (j & t & x & Hx & ? & ?).
      exists j, t, x. split; [|done]. apply names_put_ne; [|done]. intros <-. by eapply Hne, tracks_inj.
  - intros j x [[-> Hx]|[Hne Hx]]%holds_put; [congruence| |done].
    destruct (tr_all _ _ _ Ht j x Hx) as (k' & rec' & h' & t & Hk' & Hh' & Hx'). exists k', rec', h', t.
    split; [|split; [done|by apply names_put_ne]]. rewrite list_lookup_insert_ne; [done|]. intros <-. simplify_eq.
    destruct Hx' as (Hj & _). lia.
Qed.

(** The mapping behind slot [k] is further on its way out. *)
Lemma tracks_aged r' rec' :
  aged r r' → handle_of rec' = Some h → (Slpt.state a = Operational → backs rec' r') →
  tracks (SlptOps.set_record a i s r') (<[k := rec']> l) place.
Proof using place_inj Ht Hk Hh Hr.
  intros Hag Hh' Hb. pose proof Hr as (Hslot & Hs & Hg & Hrs). pose proof (lookup_lt_Some _ _ _ Hs) as Hlt.
  pose proof (lookup_lt_Some _ _ _ Hk) as Hltk. unfold SlptOps.set_record. set (s' := MappingSlot.mk _ (Some r') _).
  assert (names (put_slot a i s') h i s' r') as Hnew.
  { split_and!; [done| |done|done]. by apply list_lookup_insert_eq. }
  split.
  - intros k' x hx Hk' Hx. destruct (decide (k = k')) as [<-|Hne].
    + rewrite list_lookup_insert_eq in Hk' by done. simplify_eq. exists i, s', r'. split; [done|].
      destruct (tr_named _ _ _ Ht k rec h Hk Hh) as (j & t & y & (Hj & Ht' & _ & Hy) & Hp & _).
      assert (j = i) as -> by lia. destruct Hag as (m & ph & -> & _). simplify_eq. done.
    + rewrite list_lookup_insert_ne in Hk' by done. destruct (tr_named _ _ _ Ht k' x hx Hk' Hx) as (j & t & y & Hy & ? & ?).
      exists j, t, y. split; [|done]. apply names_put_ne; [|done]. intros <-. by eapply Hne, tracks_inj.
  - intros j x [[-> Hx]|[Hne Hx]]%holds_put; [| |done].
    + injection Hx as <-. exists k, rec', h, s'. split; [by rewrite list_lookup_insert_eq|]. by split.
    + destruct (tr_all _ _ _ Ht j x Hx) as (k' & y & hy & t & Hk' & Hy & Hx'). exists k', y, hy, t.
      split; [|split; [done|by apply names_put_ne]]. rewrite list_lookup_insert_ne; [done|]. intros <-. simplify_eq.
      destruct Hx' as (Hj & _). lia.
Qed.
End one.
End tracks.
