(* ===== verification/VtdBackendOps.v ===== *)
(** * The operations of the VT-d backend

    The invariant of a backend and what its operations do under it: batches
    occupy disjoint runs of page slots and disjoint spans of device and physical
    addresses, and the page-table core holds exactly the pages of the batches. *)
From S2P Require Import Prelude Acpi Slpt SlptTree SlptLedger SlptPath SlptOps SlptRuns SlptCalls VtdMemory.
From S2P Require Import VtdTables VtdEngine VtdEngineFacts VtdScope Iova XhciDma Iommu VtdBackend.
From S2P Require Import VtdBackendFacts.
Import BatchSlot VtdDmaBackend.

(** ** Batches *)

Definition used (b : BatchSlot.t) : Prop := phase b ≠ BatchPhase.Empty.
Definition covers (b : BatchSlot.t) (k : nat) : Prop := page_start b <= Z.of_nat k < page_start b + page_count b.
(** Two half-open intervals do not meet. *)
Definition apart (x n y m : Z) : Prop := x + n <= y ∨ y + m <= x.

Record batch_ok (PAGES : Z) (b : BatchSlot.t) : Prop := {
  b_start : 0 <= page_start b;
  b_count : 0 < page_count b;
  b_end : page_start b + page_count b <= PAGES;
  b_length : length b = page_count b * Paging.PAGE_SIZE;
  b_device : 0 <= device_address b ∧ device_address b + length b < 2 ^ 64;
  b_physical : 0 <= physical_address b ∧ physical_address b + length b < 2 ^ 64;
}.

Record layout (PAGES : Z) (bs : list BatchSlot.t) : Prop := {
  lay_ok i b : bs !! i = Some b → used b → batch_ok PAGES b;
  lay_apart i j b b' : bs !! i = Some b → bs !! j = Some b' → used b → used b' → i ≠ j →
    apart (page_start b) (page_count b) (page_start b') (page_count b') ∧
    apart (device_address b) (length b) (device_address b') (length b') ∧
    apart (physical_address b) (length b) (physical_address b') (length b');
}.

(** The page that belongs in slot [k]. *)
Definition place (bs : list BatchSlot.t) (k : nat) (v pa : Z) : Prop :=
  ∃ i b, bs !! i = Some b ∧ used b ∧ covers b k ∧
         v = device_address b + Paging.PAGE_SIZE * (Z.of_nat k - page_start b) ∧
         pa = physical_address b + Paging.PAGE_SIZE * (Z.of_nat k - page_start b).

Lemma page_place_inj PAGES bs k k' v pa pa' : layout PAGES bs → place bs k v pa → place bs k' v pa' → k = k'.
Proof.
  intros Hl (i & b & Hi & Hu & Hk & Hv & _) (j & b' & Hj & Hu' & Hk' & Hv' & _). unfold covers in *.
  pose proof (lay_ok _ _ Hl i b Hi Hu) as [_ _ _ Hlen _ _]. pose proof (lay_ok _ _ Hl j b' Hj Hu') as [_ _ _ Hlen' _ _].
  unfold Paging.PAGE_SIZE in *. destruct (decide (i = j)) as [->|Hne].
  - simplify_eq. lia.
  - destruct (lay_apart _ _ Hl i j b b' Hi Hj Hu Hu' Hne) as (_ & Hd & _). unfold apart in Hd. lia.
Qed.

(** Changing one batch in a way that keeps its place. *)
Definition same_place (b b' : BatchSlot.t) : Prop :=
  used b' ∧ device_address b' = device_address b ∧ physical_address b' = physical_address b ∧
  length b' = length b ∧ page_start b' = page_start b ∧ page_count b' = page_count b.

Lemma layout_replace PAGES bs i b b' :
  layout PAGES bs → bs !! i = Some b → used b → same_place b b' → layout PAGES (<[i := b']> bs).
Proof.
  intros [Hok Hap] Hi Hu (Hu' & Hd & Hp & Hl & Hs & Hc). pose proof (lookup_lt_Some _ _ _ Hi) as Hlt. split.
  - intros j x. destruct (decide (i = j)) as [<-|]; [rewrite list_lookup_insert_eq by done|rewrite list_lookup_insert_ne by done; apply Hok].
    intros [= <-] _. destruct (Hok i b Hi Hu). split; congruence || lia.
  - intros j k x y Hj Hk Hx Hy Hne. assert (∀ m z, <[i := b']> bs !! m = Some z → used z →
      ∃ z', bs !! m = Some z' ∧ used z' ∧ page_start z = page_start z' ∧ page_count z = page_count z' ∧
            device_address z = device_address z' ∧ physical_address z = physical_address z' ∧ length z = length z') as Hback.
    { intros m z Hm Hz. destruct (decide (i = m)) as [<-|].
      - rewrite list_lookup_insert_eq in Hm by done. simplify_eq. by exists b.
      - rewrite list_lookup_insert_ne in Hm by done. by exists z. }
    destruct (Hback j x Hj Hx) as (x' & ? & ? & -> & -> & -> & -> & ->).
    destruct (Hback k y Hk Hy) as (y' & ? & ? & -> & -> & -> & -> & ->). by apply (Hap j k).
Qed.

Lemma place_replace bs i b b' k v pa :
  bs !! i = Some b → used b → same_place b b' → place (<[i := b']> bs) k v pa ↔ place bs k v pa.
Proof.
  intros Hi Hu (Hu' & Hd & Hp & Hl & Hs & Hc). pose proof (lookup_lt_Some _ _ _ Hi) as Hlt. unfold place, covers. split.
  - intros (j & x & Hj & Hx & Hk & -> & ->). destruct (decide (i = j)) as [<-|].
    + rewrite list_lookup_insert_eq in Hj by done. simplify_eq. exists i, b. rewrite <-Hd, <-Hp, <-Hs, <-Hc. done.
    + rewrite list_lookup_insert_ne in Hj by done. by exists j, x.
  - intros (j & x & Hj & Hx & Hk & -> & ->). destruct (decide (i = j)) as [<-|].
    + simplify_eq. exists i, b'. rewrite list_lookup_insert_eq by done. rewrite Hd, Hp, Hs, Hc. done.
    + exists j, x. by rewrite list_lookup_insert_ne.
Qed.

Lemma layout_remove PAGES bs i b' : layout PAGES bs → ¬ used b' → layout PAGES (<[i := b']> bs).
Proof.
  intros [Hok Hap] Hu.
  assert (∀ m z, <[i := b']> bs !! m = Some z → used z → bs !! m = Some z) as Hback.
  { intros m z Hm Hz. destruct (decide (i = m)) as [<-|]; [|by rewrite list_lookup_insert_ne in Hm].
    destruct (decide (i < List.length bs)%nat) as [Hlt|]; [|by rewrite list_insert_ge in Hm by lia].
    rewrite list_lookup_insert_eq in Hm by done. by simplify_eq. }
  split; [eauto|]. intros j k x y Hj Hk Hx Hy. by apply (Hap j k); [apply Hback|apply Hback|..].
Qed.

Section ops.
Context {R Mem : Type} {HB : VtdRegisterBackend R} {HU : VtdUnitLaws R}
  {HM : SlptPageMemory Mem} {HML : SlptMemoryLaws Mem}.
Context (PAGES BATCHES MAX_BATCH_PAGES : Z).
#[local] Abbreviation core := (VtdDmaBackend.core (R := R) (Mem := Mem)).
Implicit Types (c : core).
#[local] Abbreviation engine_state c := (VtdRemappingEngine.state (engine c)).
#[local] Abbreviation Enabled := VtdEngineState.Enabled.
#[local] Abbreviation EPoisoned := VtdEngineState.Poisoned.

(** ** The invariant *)

(** The requester's two entries are the only ones of the tables, and they are
    there until the authority is given up. *)
Definition only (i : Z) (l : list entry) (e : entry) : Prop :=
  0 <= i ∧ l = <[Z.to_nat i := e]> (replicate 256 EMPTY_ENTRY) ∧ i < 256.
Definition tables_ok c : Prop :=
  let requester := VtdRequesterScope.requester (scope c) in
  ∃ root context, only (PciAddress.bus requester) (root_table (tables c)) root ∧
    only (context_index requester) (context_table (tables c)) context ∧
    if authority_released c then root = EMPTY_ENTRY ∧ context = EMPTY_ENTRY
    else root_entry (context_table_physical_address (tables c)) = Ok root ∧
         ∃ id width, context_entry id width (Slpt.root (slpt c)) = Ok context.

(** While the backend holds the authority its engine is enabled, unless
    poisoned, and the backend knows. *)
Definition engine_known c : Prop :=
  if authority_released c then engine_state c = VtdEngineState.Disabled
  else engine_state c = Enabled ∨ engine_state c = EPoisoned ∧ poisoned c = true.

Record sane c : Prop := {
  ck_pages : SlptOps.inv (pages c);
  ck_tracks : tracks (slpt c) (page_records c) (place (batches c));
  ck_layout : layout PAGES (batches c);
  ck_batches : len (batches c) = BATCHES;
  ck_records : len (page_records c) = PAGES;
  ck_bounds : BATCHES <= MAX 16 ∧ PAGES <= MAX 16;
  ck_limit : poll_limit c ≠ 0;
  ck_tables : tables_ok c;
}.
Definition core_ok c : Prop := sane c ∧ engine_known c.

(** What operations on mappings leave alone. *)
Record still c c' : Prop := {
  st_tables : tables c' = tables c;
  st_scope : scope c' = scope c;
  st_limit : poll_limit c' = poll_limit c;
  st_generation : domain_generation c' = domain_generation c;
  st_active : domain_active c' = domain_active c;
  st_retired : domain_retired c' = domain_retired c;
  st_released : authority_released c' = authority_released c;
  st_poisoned : poisoned c = true → poisoned c' = true;
  st_root : Slpt.root (slpt c') = Slpt.root (slpt c);
  st_wears : wears (Slpt.invalidator (pages c)) (Slpt.invalidator (pages c'));
}.
#[export] Instance still_preorder : PreOrder still.
Proof.
  split; [by split|]. intros x y z [] []. split; try congruence; [auto|by etrans].
Qed.

Lemma still_records c c' l : still c c' → still c (with_page_records l c').
Proof. by intros []; split. Qed.
Lemma still_batches c c' l : still c c' → still c (with_batches l c').
Proof. by intros []; split. Qed.
Lemma still_poison c c' : still c c' → still c (with_poisoned true c').
Proof. by intros []; split. Qed.

(** ** A call of the page-table core *)

(** The backend after a call that left the core in [w]. *)
Record called c (w : Slpt.world Mem (EngineInvalidator.t R)) c' : Prop := {
  cl_core : c' = set_pages w c;
  cl_inv : SlptOps.inv w;
  cl_wears : wears (Slpt.invalidator (pages c)) (Slpt.invalidator w);
  cl_root : Slpt.root (Slpt.slpt w) = Slpt.root (slpt c);
}.

Lemma called_pages c w c' : called c w c' → pages c' = w.
Proof.
  intros [-> _ [Hl _ _ _ _] _]. destruct w as [a m [e n f]]. unfold pages, set_pages. simpl in *. by rewrite Hl.
Qed.
Lemma called_still c w c' : called c w c' → still c c'.
Proof.
  intros Hc. pose proof (called_pages _ _ _ Hc) as Hp. destruct Hc as [Heq Hinv Hw Hr]. subst c'.
  split; try done. by rewrite Hp.
Qed.
Lemma called_engine c w c' : called c w c' → authority_released c = false → engine_known c →
  engine_state c' = Enabled ∨ engine_state c' = EPoisoned.
Proof.
  intros [-> _ [_ _ _ Hs _] _] Hr Hk. unfold engine_known in Hk. rewrite Hr in Hk. simpl in *.
  destruct Hs as [-> |[_ ->]]; [destruct Hk as [-> |[-> _]]|]; auto.
Qed.

Lemma wp_on_pages {E A} (m : M (Slpt.world Mem (EngineInvalidator.t R)) E A) Q P c :
  wp (on_pages m) Q P c = wp m (λ a w, Q a (set_pages w c)) (λ e w, P e (set_pages w c)) (pages c).
Proof. apply wp_zoom. Qed.

(** ** Withdrawing a page *)

Definition fine (i : EngineInvalidator.t R) : Prop :=
  engine_ok (EngineInvalidator.engine i) ∧ VtdRemappingEngine.state (EngineInvalidator.engine i) = Enabled.
Lemma fine_kept v i i' : fine i → EngineInvalidator.invalidate v i = Done () i' → fine i'.
Proof.
  intros [Hok _] Hrun. destruct (wp_Done _ _ _ _ _ _ (engine_invalidate_ok i v Hok) Hrun) as (Hw & Hs & _).
  split; [exact (ages_ok i i' Hw Hok)|done].
Qed.
Lemma sane_fine c : sane c → engine_state c = Enabled → fine (Slpt.invalidator (pages c)).
Proof. intros Hc Hs. split; [exact (inv_inval _ (ck_pages _ Hc))|done]. Qed.

(** The mappings of [c] whose page is not in a slot of [D] are still in [a]. *)
Definition kept c (D : nat → Prop) (a : Slpt.t) : Prop :=
  ∀ j r, holds (slpt c) j r →
    (∀ k, D k → ¬ place (batches c) k (MappingRecord.iova r) (MappingRecord.physical_address r)) → holds a j r.

Definition page_withdrawn c (k : nat) (h : MappingHandle.t) (o : UnmapOutcome) (w : Slpt.world Mem (EngineInvalidator.t R)) : Prop :=
  o = Complete ∧ tracks (Slpt.slpt w) (<[k := PageRecord.Empty]> (page_records c)) (place (batches c)) ∧
    (engine_state c = Enabled → fine (Slpt.invalidator w)) ∨
  ∃ cause, o = UnmapPending h cause ∧
    tracks (Slpt.slpt w) (<[k := PageRecord.UnmapPending h]> (page_records c)) (place (batches c)).

Section withdraw.
Context c (k : nat) (rec : PageRecord.t) (h : MappingHandle.t).
Context (Hc : sane c) (Hk : page_records c !! k = Some rec) (Hh : handle_of rec = Some h).

Lemma kept_put i s s' r st : names (slpt c) h i s r → kept c (eq k) (Slpt.with_state st (put_slot (slpt c) i s')).
Proof using Hc Hk Hh.
  intros (Hi & Hs & _) j x Hx Hout. assert (holds (put_slot (slpt c) i s') j x); [|done].
  apply holds_put; [by eapply lookup_lt_Some|]. right. split; [|done]. intros ->.
  destruct (tr_named _ _ _ (ck_tracks _ Hc) k rec h Hk Hh) as (j & t & y & (Hj & Ht & _ & Hy) & Hp & _).
  assert (j = i) as -> by lia. destruct Hx as (t' & Ht' & Hx). simplify_eq. by eapply Hout.
Qed.
#[local] Abbreviation world := (Slpt.world Mem (EngineInvalidator.t R)).

Lemma withdraw_call (m : M world SlptFault UnmapOutcome) (Q : UnmapOutcome → core → Prop) (P : SlptFault → core → Prop) :
  wp m (λ o w, ∃ i s r, names (slpt c) h i s r ∧ unmapped (pages c) h i s r o w)
    (λ _ w, refused (pages c) w ∨ ∃ i s r, names (slpt c) h i s r ∧ lost (pages c) i s r w) (pages c) →
  calm fine complete m →
  (∀ o w, called c w (set_pages w c) → page_withdrawn c k h o w → kept c (eq k) (Slpt.slpt w) → Q o (set_pages w c)) →
  (∀ f w, called c w (set_pages w c) → tracks (Slpt.slpt w) (page_records c) (place (batches c)) → kept c (eq k) (Slpt.slpt w) → P f (set_pages w c)) →
  wp (on_pages m) Q P c.
Proof using Hc Hk Hh.
  intros Hwp Hcalm HQ HP. rewrite wp_on_pages. unfold wp in *. specialize (Hcalm (pages c)).
  pose proof (ck_tracks _ Hc) as Ht. pose proof (λ k k' v pa pa', page_place_inj PAGES (batches c) k k' v pa pa' (ck_layout _ Hc)) as Hinj.
  destruct (m (pages c)) as [o w|f w|]; [| |done].
  - destruct Hwp as (i & s & r & Hn & Hinv & [Hless _] & Hor). apply HQ.
    + split; [done..|]. by destruct Hor as [[_ Ha]|(x & y & _ & _ & Ha)]; rewrite Ha.
    + unfold page_withdrawn. destruct Hor as [[-> Ha]|(cause & r' & -> & Hag & Ha)]; rewrite Ha.
      * left. split; [done|]. split; [|intros Hs; by apply Hcalm; [apply sane_fine|]].
        eapply (tracks_removed _ _ _ Hinj k i s r); try done. unfold retire. by destruct (_ =? _).
      * right. exists cause. split; [done|]. eapply (tracks_aged _ _ _ Hinj k i s r); try done.
        intros _. destruct Hag as (? & ph & -> & [-> | ->]); by intros [?|?].
    + destruct Hor as [[_ Ha]|(x & y & _ & _ & Ha)]; rewrite Ha;
        exact (kept_put i s _ r (Slpt.state (slpt c)) Hn).
  - assert (∀ b, Slpt.slots b = Slpt.slots (slpt c) → (Slpt.state b = Operational → Slpt.state (slpt c) = Operational) →
      tracks b (page_records c) (place (batches c))) as Hsame by (intros b Hb1 Hb2; by eapply tracks_state).
    destruct Hwp as [(Ha & Hi & Hinv)|(i & s & r & Hn & Hinv & Hless & r' & Hag & Ha)]; apply HP.
    + split; [done|done|by rewrite Hi|]. destruct Ha as [[-> _]| ->]; done.
    + destruct Ha as [[-> _]| ->]; [done|by apply Hsame].
    + destruct Ha as [[-> _]| ->]; by intros j x Hx _.
    + split; [done..|by rewrite Ha].
    + rewrite Ha. pose proof (tracks_aged (Slpt.with_state Poisoned (slpt c)) _ _ Hinj k i s r rec h
        (Hsame (Slpt.with_state Poisoned (slpt c)) eq_refl ltac:(done)) Hk Hh Hn r' rec Hag Hh ltac:(done)) as Hx.
      rewrite list_insert_id in Hx by done. exact Hx.
    + rewrite Ha. exact (kept_put i s _ r Poisoned Hn).
Qed.

End withdraw.

Lemma withdraw_page_ok c k rec h (Q : option UnmapOutcome → core → Prop) (P : SlptFault → core → Prop) :
  sane c → page_records c !! k = Some rec → handle_of rec = Some h →
  (∀ o w, called c w (set_pages w c) → page_withdrawn c k h o w → kept c (eq k) (Slpt.slpt w) → Q (Some o) (set_pages w c)) →
  (∀ f w, called c w (set_pages w c) → tracks (Slpt.slpt w) (page_records c) (place (batches c)) → kept c (eq k) (Slpt.slpt w) → P f (set_pages w c)) →
  wp (withdraw_page rec) Q P c.
Proof.
  intros Hc Hk Hh HQ HP. destruct (tr_named _ _ _ (ck_tracks _ Hc) k rec h Hk Hh) as (i & s & r & (Hi & _) & _).
  assert (0 <= MappingHandle.slot h) as Hslot by lia. pose proof (ck_pages _ Hc) as Hinv.
  destruct rec as [|h'|h'|h']; simpl in Hh |- *; [done|..]; injection Hh as ->; rewrite wp_bind.
  1,2: eapply (withdraw_call c k); [done|done|done| |by apply withdraw_calm, fine_kept|intros o w Hw Ho Hkept; rewrite wp_ret; by apply HQ|done];
    eapply wp_mono; [apply withdraw_ok; auto| |]; [naive_solver|naive_solver].
  eapply (withdraw_call c k); [done|done|done| |by apply finish_unmap_calm, fine_kept|intros o w Hw Ho Hkept; rewrite wp_ret; by apply HQ|done].
  eapply wp_mono; [by apply finish_unmap_ok| |]; [naive_solver|].
  intros f w [[-> _]|?]; [left; by apply inv_refused|naive_solver].
Qed.

(** ** Rules of the backend's own state *)

Lemma wp_set_record {E} (k : nat) rec c (Q : unit → core → Prop) (P : E → core → Prop) :
  (k < List.length (page_records c))%nat → Q () (with_page_records (<[k := rec]> (page_records c)) c) →
  wp (set_record (Z.of_nat k) rec) Q P c.
Proof.
  intros Hk HQ. unfold set_record. rewrite wp_bind, wp_get, wp_bind. apply wp_store; [lia|].
  by rewrite wp_put, Nat2Z.id.
Qed.
Lemma wp_batch {E} (i : nat) b c (Q : BatchSlot.t → core → Prop) (P : E → core → Prop) :
  batches c !! i = Some b → Q b c → wp (batch (Z.of_nat i)) Q P c.
Proof.
  intros Hi HQ. unfold batch. rewrite wp_bind, wp_get. apply wp_index with b; [lia|by rewrite Nat2Z.id|done].
Qed.
Lemma wp_set_batch {E} (i : nat) b c (Q : unit → core → Prop) (P : E → core → Prop) :
  (i < List.length (batches c))%nat → Q () (with_batches (<[i := b]> (batches c)) c) →
  wp (set_batch (Z.of_nat i) b) Q P c.
Proof.
  intros Hi HQ. unfold set_batch. rewrite wp_bind, wp_get, wp_bind. apply wp_store; [lia|]. by rewrite wp_put, Nat2Z.id.
Qed.
Lemma wp_set_phase {E} (i : nat) b p c (Q : unit → core → Prop) (P : E → core → Prop) :
  batches c !! i = Some b → Q () (with_batches (<[i := with_phase p b]> (batches c)) c) →
  wp (set_phase (Z.of_nat i) p) Q P c.
Proof.
  intros Hi HQ. unfold set_phase. rewrite wp_bind. eapply wp_batch; [done|].
  apply wp_set_batch; [by eapply lookup_lt_Some|done].
Qed.

(** *** The invariant through them *)

Lemma sane_pages c w c' l :
  sane c → called c w c' → tracks (Slpt.slpt w) l (place (batches c)) → len l = PAGES →
  sane (with_page_records l c').
Proof.
  intros [H1 H2 H3 H4 H5 H6 H7 H8] Hw Ht Hl. pose proof (called_pages _ _ _ Hw) as Hp. destruct Hw as [-> Hinv Hw Hr].
  split; try done; [by change (SlptOps.inv (pages (set_pages w c))); rewrite Hp|].
  destruct H8 as (root & context & ? & ? & H8). exists root, context. split_and!; [done..|]. simpl in *.
  by rewrite Hr.
Qed.
Lemma sane_batches c bs :
  sane c → tracks (slpt c) (page_records c) (place bs) → layout PAGES bs → len bs = BATCHES → sane (with_batches bs c).
Proof. intros [] Ht Hl Hn. by split. Qed.
Lemma sane_poisoned c p : sane c → sane (with_poisoned p c).
Proof. by intros []. Qed.

Definition noted c : core := if bool_decide (engine_state c = EPoisoned) then with_poisoned true c else c.
Lemma wp_note {E} c (Q : unit → core → Prop) (P : E → core → Prop) : wp note_poison Q P c = Q () (noted c).
Proof. reflexivity. Qed.
Lemma sane_noted c : sane c → sane (noted c).
Proof. unfold noted. case_bool_decide; [apply sane_poisoned|done]. Qed.
Lemma still_noted c c' : still c c' → still c (noted c').
Proof. unfold noted. case_bool_decide; [apply still_poison|done]. Qed.

Lemma sane_replace c (i : nat) b b' :
  sane c → batches c !! i = Some b → used b → same_place b b' → sane (with_batches (<[i := b']> (batches c)) c).
Proof.
  intros Hc Hi Hu Hs. apply sane_batches; [done| |by eapply layout_replace, Hs; [apply Hc|..]|].
  - destruct (ck_tracks _ Hc) as [Hn Ha]. split; [|done]. intros k rec h Hk Hh.
    destruct (Hn k rec h Hk Hh) as (j & s & r & ? & ? & ?). exists j, s, r. split; [done|]. split; [|done]. by eapply place_replace.
  - unfold len. rewrite length_insert. apply Hc.
Qed.
Lemma sane_remove c (i : nat) b b' :
  sane c → batches c !! i = Some b → ¬ used b' →
  (∀ k, covers b k → page_records c !! k = Some PageRecord.Empty) → sane (with_batches (<[i := b']> (batches c)) c).
Proof.
  intros Hc Hi Hu Hempty. apply sane_batches; [done| |by apply layout_remove; [apply Hc|]|].
  - destruct (ck_tracks _ Hc) as [Hn Ha]. split; [|done]. intros k rec h Hk Hh.
    destruct (Hn k rec h Hk Hh) as (j & s & r & ? & (m & x & Hm & Hx & Hcov & Hp) & ?). exists j, s, r.
    split; [done|]. split; [|done]. exists m, x. split; [|done]. rewrite list_lookup_insert_ne; [done|]. intros <-.
    simplify_eq. rewrite Hempty in Hk by done. by simplify_eq.
  - unfold len. rewrite length_insert. apply Hc.
Qed.

(** ** Cleaning up a batch *)

Definition retired_slot (b : BatchSlot.t) : BatchSlot.t :=
  if generation b =? MAX 32 then with_generation (generation b) true EMPTY
  else with_generation (generation b + 1) false EMPTY.
Lemma retired_unused b : ¬ used (retired_slot b).
Proof. unfold used, retired_slot. destruct (_ =? _); auto. Qed.

Record cleaned c (i : nat) (b : BatchSlot.t) (o : result bool unit) c' : Prop := {
  cn_ok : core_ok c';
  cn_still : still c c';
  cn_outside k : ¬ covers b k → page_records c' !! k = page_records c !! k;
  cn_batches : batches c' = <[i := match o with Ok true => retired_slot b | _ => with_phase BatchPhase.Quarantined b end]> (batches c);
  cn_lost : o = Err () → poisoned c' = true;
  cn_kept : kept c (covers b) (slpt c');
}.

Lemma quarantine_place b : used b → same_place b (with_phase BatchPhase.Quarantined b).
Proof. by intros Hu. Qed.

(** The batch is left quarantined, with its records in [c']. *)
Lemma cleaned_quarantined c i b o c' :
  core_ok c' → still c c' → batches c' = batches c → batches c !! i = Some b → used b →
  (∀ k, ¬ covers b k → page_records c' !! k = page_records c !! k) → (o = Err () → poisoned c' = true) → kept c (covers b) (slpt c') → o ≠ Ok true →
  cleaned c i b o (with_batches (<[i := with_phase BatchPhase.Quarantined b]> (batches c')) c').
Proof.
  intros [Hs Hk] Hst Hb Hi Hu Hout Hl Hkept Ho. split; [|by apply still_batches|done| |done|done].
  - split; [|done]. eapply sane_replace; [done|by rewrite Hb|done|by apply quarantine_place].
  - simpl. rewrite Hb. f_equal. by destruct o as [[]|].
Qed.

Lemma cleaned_retired c (i : nat) b :
  core_ok c → batches c !! i = Some b → (∀ k, covers b k → page_records c !! k = Some PageRecord.Empty) →
  cleaned c i b (Ok true) (with_batches (<[i := retired_slot b]> (batches c)) c).
Proof.
  intros [Hs Hk] Hi Hempty. split; [|by apply still_batches|done|done|done|by intros j r Hr _]. split; [|done].
  eapply sane_remove; [done..|apply retired_unused|done].
Qed.

Lemma cleaned_trans c c1 i b o c' :
  still c c1 → batches c1 = batches c → (∀ k, ¬ covers b k → page_records c1 !! k = page_records c !! k) →
  kept c (covers b) (slpt c1) →
  cleaned c1 i b o c' → cleaned c i b o c'.
Proof.
  intros Hst Hb Hout Hkept [H1 H2 H3 H4 H5 H6]. split; [done|by etrans| |by rewrite H4, Hb|done|].
  - intros k Hk. by rewrite H3, Hout.
  - intros j r Hr Hn. apply H6; [by apply Hkept|]. by rewrite Hb.
Qed.

(** A successful withdrawal leaves the engine as it was. *)
Lemma known_fine c w c' :
  authority_released c = false → engine_known c → called c w c' →
  (engine_state c = Enabled → fine (Slpt.invalidator w)) → engine_known c'.
Proof.
  unfold engine_known. intros Hr Hk [-> _ Hw _] Hf. simpl. rewrite Hr in *.
  destruct Hk as [Hk|[Hk Hp]]; [left; by apply Hf|right]. split; [|done].
  destruct (wears_state _ _ Hw) as [Hs|[Hs _]]; simpl in Hs; congruence.
Qed.
Lemma known_noted c w c' l :
  authority_released c = false → engine_known c → called c w c' → engine_known (noted (with_page_records l c')).
Proof.
  intros Hr Hk Hw. pose proof (called_engine _ _ _ Hw Hr Hk) as Hor. destruct Hw as [-> _ _ _]. unfold engine_known, noted in *. simpl in *.
  case_bool_decide as Hd; simpl; rewrite Hr in *; [right; by split|left]. by destruct Hor.
Qed.
Lemma known_poisoned c w c' :
  authority_released c = false → engine_known c → called c w c' → engine_known (with_poisoned true c').
Proof.
  intros Hr Hk Hw. pose proof (called_engine _ _ _ Hw Hr Hk) as Hor. destruct Hw as [-> _ _ _]. unfold engine_known in *. simpl in *.
  rewrite Hr in *. destruct Hor; auto.
Qed.

(** One page of a batch whose slot is in use. *)
Lemma cleanup_page_ok {E} c (i : nat) b (k : nat) rec h rest (P : E → core → Prop) :
  core_ok c → authority_released c = false → batches c !! i = Some b → used b → covers b k →
  page_records c !! k = Some rec → handle_of rec = Some h →
  (∀ c1, core_ok c1 → still c c1 → batches c1 = batches c →
     page_records c1 = <[k := PageRecord.Empty]> (page_records c) → kept c (covers b) (slpt c1) → wp rest (cleaned c i b) P c1) →
  wp (outcome ← attempt (withdraw_page rec);
      match outcome with
      | Ok None => rest
      | Ok (Some Complete) => set_record (Z.of_nat k) PageRecord.Empty ;; rest
      | Ok (Some (UnmapPending receipt _)) =>
        set_record (Z.of_nat k) (PageRecord.UnmapPending receipt) ;; note_poison ;;
        set_phase (Z.of_nat i) BatchPhase.Quarantined ;; mret (Ok false)
      | Err _ => modify (with_poisoned true) ;; set_phase (Z.of_nat i) BatchPhase.Quarantined ;; mret (Err ())
      end) (cleaned c i b) P c.
Proof.
  intros [Hs Hkn] Hr Hi Hu Hcov Hk Hh Hrest. rewrite wp_bind, wp_attempt. pose proof (lookup_lt_Some _ _ _ Hk) as Hlt.
  assert (∀ x, len (<[k := x]> (page_records c)) = PAGES) as Hlen by (intros; unfold len; rewrite length_insert; apply Hs).
  assert (∀ x k', ¬ covers b k' → <[k := x]> (page_records c) !! k' = page_records c !! k') as Hout
    by (intros x k' Hn; apply list_lookup_insert_ne; by intros ->).
  assert (∀ a, kept c (eq k) a → kept c (covers b) a) as Hkept by (intros a Ha j x Hx Hn; apply Ha; [done|by intros k' <-; apply Hn]).
  eapply withdraw_page_ok; [done..| |].
  - intros o w Hw [(-> & Ht & Hf)|(cause & -> & Ht)] Hkw; apply Hkept in Hkw; pose proof (called_still _ _ _ Hw) as Hst; rewrite wp_bind;
      (apply wp_set_record; [done|]).
    + apply Hrest; [split|by apply still_records|done..].
      * eapply sane_pages; [done..|apply Hlen].
      * by eapply (known_fine c w (set_pages w c)).
    + rewrite wp_bind, wp_note, wp_bind.
      set (c2 := noted (with_page_records (<[k := PageRecord.UnmapPending h]> (page_records c)) (set_pages w c))). assert (batches c2 = batches c) as Hb by (unfold c2, noted; by case_bool_decide).
      assert (page_records c2 = <[k := PageRecord.UnmapPending h]> (page_records c)) as Hp2 by (unfold c2, noted; by case_bool_decide).
      apply (wp_set_phase i b BatchPhase.Quarantined c2); [by rewrite Hb|]. rewrite wp_ret. apply cleaned_quarantined; try done; [split|..].
      * apply sane_noted. eapply sane_pages; [done..|apply Hlen].
      * by eapply known_noted.
      * by apply still_noted, still_records.
      * intros k' Hk'. rewrite Hp2. by apply Hout.
      * unfold c2, noted. by case_bool_decide.
  - intros f w Hw Ht Hkw. apply Hkept in Hkw. pose proof (called_still _ _ _ Hw) as Hst. rewrite wp_bind, wp_modify, wp_bind.
    apply (wp_set_phase i b BatchPhase.Quarantined (with_poisoned true (set_pages w c))); [done|]. rewrite wp_ret.
    apply cleaned_quarantined; try done; [split|..].
    + apply sane_poisoned. apply (sane_pages c w (set_pages w c) (page_records c)); [done..|apply Hs].
    + by eapply known_poisoned.
    + by apply still_poison.
Qed.

Lemma cleanup_pages_ok {E} c (i : nat) b n (P : E → core → Prop) :
  core_ok c → authority_released c = false → batches c !! i = Some b → used b → Z.of_nat n <= page_count b →
  (∀ k, covers b k → Z.of_nat k < page_start b + page_count b - Z.of_nat n → page_records c !! k = Some PageRecord.Empty) →
  wp (cleanup_pages (Z.of_nat i) (page_start b) (range (page_count b - Z.of_nat n) (page_count b))) (cleaned c i b) P c.
Proof.
  revert c. induction n as [|n IH]; intros c Hc Hr Hi Hu Hn Hempty.
  - rewrite range_nil by lia. simpl. rewrite wp_bind. unfold retire_batch. rewrite wp_bind. eapply wp_batch; [done|].
    apply wp_set_batch; [by eapply lookup_lt_Some|]. rewrite wp_ret. apply cleaned_retired; [done..|].
    intros k Hk. apply Hempty; [done|]. unfold covers in Hk. lia.
  - destruct (lay_ok _ _ (ck_layout _ (proj1 Hc)) i b Hi Hu) as [Hb1 Hb2 Hb3 _ _ _].
    pose proof (ck_records _ (proj1 Hc)) as Hlen. pose proof (proj2 (ck_bounds _ (proj1 Hc))) as Hmax.
    assert (MAX 16 + 0 < 2 ^ 64) as Hbig by done.
    rewrite range_cons by lia. cbn [cleanup_pages]. rewrite wp_bind. apply wp_add; [lia|]. rewrite wp_bind, wp_get, wp_bind.
    set (k := Z.to_nat (page_start b + (page_count b - Z.of_nat (S n)))).
    assert (Z.of_nat k = page_start b + (page_count b - Z.of_nat (S n))) as HkZ by (unfold k; lia). rewrite <-HkZ.
    assert (covers b k) as Hcov by (unfold covers; lia).
    destruct (lookup_lt_is_Some_2 (page_records c) k) as [rec Hk]; [unfold len in Hlen; lia|].
    apply wp_index with rec; [lia|by rewrite Nat2Z.id|].
    replace (page_count b - Z.of_nat (S n) + 1) with (page_count b - Z.of_nat n) by lia.
    destruct (handle_of rec) as [h|] eqn:Hh.
    + eapply cleanup_page_ok; [done..|]. intros c1 Hc1 Hst Hb Hrec Hkept.
      assert (∀ k', ¬ covers b k' → page_records c1 !! k' = page_records c !! k') as Hout
        by (intros k' Hk'; rewrite Hrec; apply list_lookup_insert_ne; by intros ->).
      eapply wp_mono; [apply (IH c1); [done|by rewrite (st_released _ _ Hst)|by rewrite Hb|done|lia|]| |done].
      * intros k' Hk' Hlt. rewrite Hrec. destruct (decide (k = k')) as [<-|Hne].
        -- apply list_lookup_insert_eq. by eapply lookup_lt_Some.
        -- rewrite list_lookup_insert_ne by done. apply Hempty; [done|]. lia.
      * intros o c' Ho. by eapply cleaned_trans.
    + destruct rec; simpl in Hh; try done. rewrite wp_bind, wp_attempt. simpl. rewrite wp_ret. apply IH; [done..|lia|].
      intros k' Hk' Hlt. destruct (decide (k = k')) as [<-|Hne]; [done|]. apply Hempty; [done|]. lia.
Qed.

Lemma cleanup_batch_ok {E} c (i : nat) b (P : E → core → Prop) :
  core_ok c → authority_released c = false → batches c !! i = Some b → used b →
  wp (cleanup_batch (Z.of_nat i)) (cleaned c i b) P c.
Proof.
  intros Hc Hr Hi Hu. destruct (lay_ok _ _ (ck_layout _ (proj1 Hc)) i b Hi Hu) as [_ Hn _ _ _ _].
  unfold cleanup_batch. rewrite wp_bind. eapply wp_batch; [done|].
  replace 0 with (page_count b - Z.of_nat (Z.to_nat (page_count b))) at 1 by lia.
  apply cleanup_pages_ok; [done..|lia|]. intros k Hk. unfold covers in Hk. lia.
Qed.
End ops.
