(* ===== verification/VtdBackendSpans.v ===== *)
(** * Mapping and unmapping spans

    [map_span] and [unmap_span] of the VT-d backend, and the release of its
    domain, under the invariant of [VtdBackendOps]. *)
From S2P Require Import Prelude Acpi Slpt SlptTree SlptLedger SlptPath SlptOps SlptRuns SlptCalls VtdMemory.
From S2P Require Import VtdTables VtdEngine VtdEngineFacts VtdScope Iova XhciDma Iommu VtdBackend.
From S2P Require Import VtdBackendFacts VtdBackendOps.
Import BatchSlot VtdDmaBackend.

Section spans.
Context {R Mem : Type} {HB : VtdRegisterBackend R} {HU : VtdUnitLaws R}
  {HM : SlptPageMemory Mem} {HML : SlptMemoryLaws Mem}.
Context (PAGES BATCHES MAX_BATCH_PAGES : Z).
#[local] Abbreviation core := (VtdDmaBackend.core (R := R) (Mem := Mem)).
#[local] Abbreviation world := (Slpt.world Mem (EngineInvalidator.t R)).
#[local] Abbreviation core_ok := (core_ok PAGES BATCHES).
#[local] Abbreviation sane := (sane PAGES BATCHES).
#[local] Abbreviation engine_state c := (VtdRemappingEngine.state (engine c)).
Implicit Types (c : core).

(** ** One page *)

Definition keeps_all c (a : Slpt.t) : Prop := ∀ j r, holds (slpt c) j r → holds a j r.

Lemma invalidated_wears v o (i i' : EngineInvalidator.t R) :
  engine_ok (EngineInvalidator.engine i) → told v o i i' → wears i i'.
Proof.
  intros Hok. pose proof (engine_invalidate_ok i v Hok) as Hwp. unfold told. destruct o as [h|h cause].
  - intros Hrun. by destruct (wp_Done _ _ _ _ _ _ Hwp Hrun).
  - intros [e Hrun]. by destruct (wp_Fail _ _ _ _ _ _ Hwp Hrun).
Qed.

(** The page record that a mapped page gets. *)
Definition record_of (o : MapOutcome) : PageRecord.t :=
  match o with MapActive h => PageRecord.Active h | MapPending h _ => PageRecord.MapPending h end.

Definition page_mapped c (k : nat) (v pa : Z) (perm : DmaPermissions.t) (o : MapOutcome) (w : world) : Prop :=
  tracks (Slpt.slpt w) (<[k := record_of o]> (page_records c)) (place (batches c)) ∧
  mapped (pages c) v pa perm o w ∧
  match o with MapActive _ => fine (Slpt.invalidator w) | MapPending _ _ => True end.

Lemma map_page_step c k v pa perm (Q : MapOutcome → core → Prop) (P : SlptFault → core → Prop) :
  sane c → u64 v → u64 pa → place (batches c) k v pa → page_records c !! k = Some PageRecord.Empty →
  (∀ o w, called c w (set_pages w c) → page_mapped c k v pa perm o w → Q o (set_pages w c)) →
  (∀ f w, called c w (set_pages w c) → tracks (Slpt.slpt w) (page_records c) (place (batches c)) →
     engine_state (set_pages w c) = engine_state c → keeps_all c (Slpt.slpt w) → P f (set_pages w c)) →
  wp (on_pages (Slpt.map_page v pa perm)) Q P c.
Proof.
  intros Hc Hv Hpa Hplace Hk HQ HP. rewrite wp_on_pages. pose proof (ck_pages _ _ _ Hc) as Hinv.
  pose proof (inv_inval _ Hinv) as Hok. simpl in Hok.
  pose proof (map_page_ok (pages c) v pa perm Hinv Hv Hpa) as Hwp. pose proof (map_page_tells v pa perm (pages c)) as Htell.
  unfold wp in *. destruct (Slpt.map_page v pa perm (pages c)) as [o w|f w|]; [| |done].
  - destruct Hwp as [Hmap Hinv']. apply HQ.
    + split; [done|done|by eapply invalidated_wears|]. by destruct Hmap as (? & ? & ? & ? & ? & ? & -> & _).
    + pose proof Hmap as (i & s & r & bits & Hs & Hfree & Ha & Hi & Hp & _ & _ & Ho). split; [|split; [done|]].
      * rewrite Ha. unfold Slpt.slot_free in Hfree. bool_to_prop.
        assert (MappingSlot.record s = None) as Hnone by (apply eq_None_not_Some; by apply bool_decide_eq_false in H).
        eapply tracks_mapped; [apply Hc|done|done|done| |done|by rewrite Hi, Hp|].
        -- by destruct Ho as [[-> _]|(e & -> & _)].
        -- by destruct Ho as [[-> ?]|(e & -> & ?)].
      * destruct o as [h|]; [|done]. destruct (wp_Done _ _ _ _ _ _ (engine_invalidate_ok (Slpt.invalidator (pages c)) v Hok) Htell) as (Hw & Hst & _).
        split; [exact (ages_ok _ _ Hw Hok)|done].
  - destruct Hwp as (Ha & Hi & Hinv'). apply HP.
    + split; [done|done|by rewrite Hi|]. by destruct Ha as [[-> _]| ->].
    + destruct Ha as [[-> _]| ->]; [apply Hc|]. eapply tracks_state; [| |apply Hc]; done.
    + simpl. by rewrite Hi.
    + destruct Ha as [[-> _]| ->]; by intros j x Hx.
Qed.

(** ** The pages of a batch *)

(** The device may use page [j] of the span with the permissions [perm]. *)
Definition page_at (a : Slpt.t) (device physical : Z) (perm : DmaPermissions.t) (j : Z) : Prop :=
  ∃ bits, DmaPermissions.bits perm = Ok bits ∧
    maps a (device + Paging.PAGE_SIZE * j) (Z.lor (physical + Paging.PAGE_SIZE * j) bits).

Definition active (rec : PageRecord.t) : Prop := ∃ h, rec = PageRecord.Active h.

Record pages_mapped c (b : BatchSlot.t) (perm : DmaPermissions.t) (o : option Z) c' : Prop := {
  pm_ok : core_ok c';
  pm_still : still c c';
  pm_batches : batches c' = batches c;
  pm_outside k : ¬ covers b k → page_records c' !! k = page_records c !! k;
  pm_kept : keeps_all c (slpt c');
  pm_done : o = None → (∀ j, 0 <= j < page_count b → page_at (slpt c') (device_address b) (physical_address b) perm j) ∧
    (∀ k, covers b k → ∃ rec, page_records c' !! k = Some rec ∧ active rec);
  pm_failed : o ≠ Some STATUS_OK;
}.

Lemma maps_kept c a v e : keeps_all c a → maps (slpt c) v e → maps a v e.
Proof. intros Hk (i & r & Hr & ?). exists i, r. split; [by apply Hk|done]. Qed.
Lemma page_at_kept c a x y perm j : keeps_all c a → page_at (slpt c) x y perm j → page_at a x y perm j.
Proof. intros Hk (bits & Hb & Hm). exists bits. split; [done|by eapply maps_kept]. Qed.

Lemma mapped_kept c v pa perm o w : mapped (pages c) v pa perm o w → keeps_all c (Slpt.slpt w).
Proof.
  intros (i & s & r & bits & Hs & Hfree & Ha & _) j x Hx. rewrite Ha. apply holds_put; [by eapply lookup_lt_Some|].
  right. split; [|done]. intros ->. destruct Hx as (s' & Hs' & Hx). simpl in Hs. simplify_eq.
  unfold Slpt.slot_free in Hfree. rewrite Hx, bool_decide_true in Hfree by eauto. done.
Qed.
Lemma mapped_page c v pa perm h w :
  mapped (pages c) v pa perm (MapActive h) w →
  ∃ bits, DmaPermissions.bits perm = Ok bits ∧ maps (Slpt.slpt w) v (Z.lor pa bits).
Proof.
  intros (i & s & r & bits & Hs & Hfree & Ha & Hi & Hp & Hb & Hl & [[_ Hph]|(? & ? & _)]); [|done].
  exists bits. split; [done|]. exists i, r. split_and!; [|by right|done|done].
  rewrite Ha. apply holds_put; [by eapply lookup_lt_Some|]. by left.
Qed.

Lemma slpt_status_fails f : slpt_status f ≠ STATUS_OK.
Proof. by destruct f. Qed.

(** A failing [map_page] has not touched the engine. *)
Lemma map_refused_ok c w :
  core_ok c → called c w (set_pages w c) → tracks (Slpt.slpt w) (page_records c) (place (batches c)) →
  engine_state (set_pages w c) = engine_state c → core_ok (set_pages w c).
Proof.
  intros [Hs Hk] Hw Ht He. split; [exact (sane_pages _ _ c w _ (page_records c) Hs Hw Ht (ck_records _ _ _ Hs))|].
  unfold engine_known in *. simpl in *. by rewrite He.
Qed.
Lemma core_poisoned c : core_ok c → authority_released c = false → core_ok (with_poisoned true c).
Proof.
  intros [Hs Hk] Hr. split; [by apply sane_poisoned|]. unfold engine_known in *. simpl in *. rewrite Hr in *.
  destruct Hk as [?|[? _]]; auto.
Qed.

Lemma pages_mapped_trans c c1 b perm o c' :
  still c c1 → batches c1 = batches c → (∀ k, ¬ covers b k → page_records c1 !! k = page_records c !! k) →
  keeps_all c (slpt c1) → pages_mapped c1 b perm o c' → pages_mapped c b perm o c'.
Proof.
  intros Hst Hb Hout Hkept [H1 H2 H3 H4 H5 H6 H7]. split; [done|by etrans|by rewrite H3| | |done|done].
  - intros k Hk. by rewrite H4, Hout.
  - intros j r Hr. by apply H5, Hkept.
Qed.

(** What the loop does with the outcome for one page in slot [k]. *)
Lemma map_outcome_ok {E} c (i : nat) b (k : nat) j v pa perm rest (P : E → core → Prop) :
  core_ok c → authority_released c = false → batches c !! i = Some b → used b → covers b k → u64 v → u64 pa →
  place (batches c) k v pa → page_records c !! k = Some PageRecord.Empty →
  page_start b + j = Z.of_nat k → Z.of_nat k < 2 ^ 64 →
  (∀ c1 h, core_ok c1 → still c c1 → batches c1 = batches c → keeps_all c (slpt c1) →
     page_records c1 = <[k := PageRecord.Active h]> (page_records c) →
     (∃ bits, DmaPermissions.bits perm = Ok bits ∧ maps (slpt c1) v (Z.lor pa bits)) → wp rest (pages_mapped c b perm) P c1) →
  wp (outcome ← attempt (on_pages (Slpt.map_page v pa perm));
      page_slot ← add 64 (page_start b) j;
      match outcome with
      | Ok (MapActive handle) => set_record page_slot (PageRecord.Active handle) ;; rest
      | Ok (MapPending receipt _) =>
        set_record page_slot (PageRecord.MapPending receipt) ;; note_poison ;; mret (Some STATUS_IO_ERROR)
      | Err fault =>
        (match fault with PoisonedFault | RollbackFailed => modify (with_poisoned true) | _ => mret () end) ;;
        mret (Some (slpt_status fault))
      end) (pages_mapped c b perm) P c.
Proof.
  intros Hc Hr Hi Hu Hcov Hv Hpa Hplace Hk Hj Hsz Hrest. pose proof Hc as [Hs Hkn]. rewrite wp_bind, wp_attempt.
  pose proof (lookup_lt_Some _ _ _ Hk) as Hlt.
  assert (∀ x, len (<[k := x]> (page_records c)) = PAGES) as Hlen by (intros; unfold len; rewrite length_insert; apply Hs).
  assert (∀ x k', ¬ covers b k' → <[k := x]> (page_records c) !! k' = page_records c !! k') as Hout
    by (intros x k' Hn; apply list_lookup_insert_ne; by intros ->).
  eapply map_page_step; [done..| |].
  - intros o w Hw (Ht & Hmap & Hf). pose proof (called_still _ _ _ Hw) as Hst. pose proof (mapped_kept _ _ _ _ _ _ Hmap) as Hkept.
    rewrite wp_bind. apply wp_add; [lia|]. rewrite Hj.
    destruct o as [h|h cause]; rewrite wp_bind; (apply wp_set_record; [done|]).
    + apply (Hrest _ h); [split|by apply still_records|done|done|done|by eapply mapped_page].
      * eapply sane_pages; [done..|apply Hlen].
      * by eapply (known_fine c w (set_pages w c)).
    + rewrite wp_bind, wp_note, wp_ret. set (c2 := noted _).
      assert (batches c2 = batches c ∧ slpt c2 = Slpt.slpt w ∧ page_records c2 = <[k := PageRecord.MapPending h]> (page_records c)) as (Hb2 & Ha2 & Hp2)
        by (unfold c2, noted; by case_bool_decide).
      split; [split| |done|intros k' Hk'; rewrite Hp2; by apply Hout|by rewrite Ha2|done|done].
      * apply sane_noted. eapply sane_pages; [done..|apply Hlen].
      * by eapply known_noted.
      * by apply still_noted, still_records.
  - intros f w Hw Ht He Hkept. pose proof (called_still _ _ _ Hw) as Hst. pose proof (map_refused_ok c w Hc Hw Ht He) as Hc'.
    assert (pages_mapped c b perm (Some (slpt_status f)) (set_pages w c)) as Hpm.
    { split; try done. intros [=]. by eapply slpt_status_fails. }
    assert (pages_mapped c b perm (Some (slpt_status f)) (with_poisoned true (set_pages w c))) as Hpp.
    { destruct Hpm. split; try done; [by apply core_poisoned|by apply still_poison]. }
    rewrite wp_bind. apply wp_add; [lia|]. rewrite wp_bind. destruct f; rewrite ?wp_ret, ?wp_modify, ?wp_ret; done.
Qed.

Lemma map_pages_ok {E} c (i : nat) b perm n (P : E → core → Prop) :
  core_ok c → authority_released c = false → batches c !! i = Some b → used b → Z.of_nat n <= page_count b →
  (∀ k, covers b k → page_start b + page_count b - Z.of_nat n <= Z.of_nat k → page_records c !! k = Some PageRecord.Empty) →
  (∀ k, covers b k → Z.of_nat k < page_start b + page_count b - Z.of_nat n → ∃ rec, page_records c !! k = Some rec ∧ active rec) →
  (∀ j, 0 <= j < page_count b - Z.of_nat n → page_at (slpt c) (device_address b) (physical_address b) perm j) →
  wp (map_pages (device_address b) (physical_address b) (page_start b) perm (range (page_count b - Z.of_nat n) (page_count b)))
    (pages_mapped c b perm) P c.
Proof.
  revert c. induction n as [|n IH]; intros c Hc Hr Hi Hu Hn Hempty Hact Hmaps.
  - rewrite range_nil by lia. simpl. rewrite wp_ret. split; [done|done|done|done|by intros j r|intros _; split|done].
    + intros j Hj. apply Hmaps. lia.
    + intros k Hk. apply Hact; [done|]. unfold covers in Hk. lia.
  - pose proof (ck_layout _ _ _ (proj1 Hc)) as Hlay.
    destruct (lay_ok _ _ Hlay i b Hi Hu) as [Hb1 Hb2 Hb3 Hb4 [Hb5 Hb6] [Hb7 Hb8]].
    pose proof (ck_records _ _ _ (proj1 Hc)) as Hlen. pose proof (proj2 (ck_bounds _ _ _ (proj1 Hc))) as Hmax.
    assert (MAX 16 * Paging.PAGE_SIZE < 2 ^ 64) as Hbig by done. assert (MAX 16 < 2 ^ 64) as Hbig' by done.
    set (j := page_count b - Z.of_nat (S n)) in *. assert (0 <= j < page_count b) as Hj by lia.
    rewrite range_cons by lia. cbn [map_pages].
    rewrite wp_bind. apply wp_mul; [unfold Paging.PAGE_SIZE in *; lia|].
    rewrite wp_bind. apply wp_add; [unfold Paging.PAGE_SIZE in *; lia|].
    rewrite wp_bind. apply wp_add; [unfold Paging.PAGE_SIZE in *; lia|]. rewrite (Z.mul_comm j).
    set (k := Z.to_nat (page_start b + j)). assert (page_start b + j = Z.of_nat k) as HkZ by (unfold k; lia).
    assert (covers b k) as Hcov by (unfold covers; lia).
    assert (page_records c !! k = Some PageRecord.Empty) as Hk by (apply Hempty; [done|lia]).
    eapply (map_outcome_ok c i b k j); try done; [unfold in_width, Paging.PAGE_SIZE in *; lia|unfold in_width, Paging.PAGE_SIZE in *; lia| |lia|].
    { exists i, b. split_and!; [done..| |]; f_equal; f_equal; lia. }
    intros c1 h Hc1 Hst Hb Hkept Hrec Hpage.
    assert (∀ k', ¬ covers b k' → page_records c1 !! k' = page_records c !! k') as Hout
      by (intros k' Hk'; rewrite Hrec; apply list_lookup_insert_ne; by intros ->).
    replace (j + 1) with (page_count b - Z.of_nat n) by lia.
    eapply wp_mono; [apply (IH c1); [done|by rewrite (st_released _ _ Hst)|by rewrite Hb|done|lia|..]| |done].
    + intros k' Hk' Hge. rewrite Hrec, list_lookup_insert_ne by lia. apply Hempty; [done|lia].
    + intros k' Hk' Hlt. rewrite Hrec. destruct (decide (k = k')) as [<-|Hne].
      * eexists. split; [apply list_lookup_insert_eq; by eapply lookup_lt_Some|by exists h].
      * rewrite list_lookup_insert_ne by done. apply Hact; [done|lia].
    + intros j' Hj'. destruct (decide (j' = j)) as [->|]; [exact Hpage|]. apply (page_at_kept c); [done|]. apply Hmaps. lia.
    + intros o c' Ho. by eapply pages_mapped_trans.
Qed.

(** ** Between calls *)

(** No batch is left staging, and every page of an active batch is mapped. *)
Definition settled c : Prop :=
  ∀ i b, batches c !! i = Some b → used b →
    phase b = BatchPhase.Quarantined ∨
    phase b = BatchPhase.Active ∧ ∀ k, covers b k → ∃ rec, page_records c !! k = Some rec ∧ active rec.

Lemma batch_covers_apart bs i j b b' k :
  layout PAGES bs → bs !! i = Some b → bs !! j = Some b' → used b → used b' → covers b k → covers b' k → i = j.
Proof.
  intros Hl Hi Hj Hu Hu' Hk Hk'. destruct (decide (i = j)) as [|Hne]; [done|].
  destruct (lay_apart _ _ Hl i j b b' Hi Hj Hu Hu' Hne) as (Ha & _). unfold apart, covers in *. lia.
Qed.

(** Only batch [i] and the records of its pages changed. *)
Lemma settled_change c c' i b b' :
  layout PAGES (batches c) → settled c → batches c !! i = Some b → used b → batches c' = <[i := b']> (batches c) →
  (∀ k, ¬ covers b k → page_records c' !! k = page_records c !! k) →
  (used b' → phase b' = BatchPhase.Quarantined ∨
     phase b' = BatchPhase.Active ∧ ∀ k, covers b' k → ∃ rec, page_records c' !! k = Some rec ∧ active rec) → settled c'.
Proof.
  intros Hl Hset Hi Hu Hb Hout Hb' j x Hj Hx. rewrite Hb in Hj. pose proof (lookup_lt_Some _ _ _ Hi) as Hlt.
  destruct (decide (i = j)) as [<-|Hne].
  - rewrite list_lookup_insert_eq in Hj by done. simplify_eq. by apply Hb'.
  - rewrite list_lookup_insert_ne in Hj by done. destruct (Hset j x Hj Hx) as [?|[Hph Hact]]; [by left|right]. split; [done|].
    intros k Hk. rewrite Hout; [by apply Hact|]. intros Hk'. by eapply Hne, batch_covers_apart.
Qed.

Lemma cleaned_settled c i b o c' :
  layout PAGES (batches c) → settled c → batches c !! i = Some b → used b → cleaned PAGES BATCHES c i b o c' → settled c'.
Proof.
  intros Hl Hset Hi Hu [_ _ Hout Hb _ _]. eapply settled_change; [done..|]. intros Hused.
  destruct o as [[]|]; [by apply retired_unused in Hused|by left|by left].
Qed.

(** ** Staging a batch *)

Record stageable c (i : nat) (b : BatchSlot.t) : Prop := {
  sg_slot : ∃ b0, batches c !! i = Some b0 ∧ ¬ used b0;
  sg_used : used b;
  sg_ok : batch_ok PAGES b;
  sg_free k : covers b k → page_records c !! k = Some PageRecord.Empty;
  sg_pages j b' : batches c !! j = Some b' → used b' → apart (page_start b) (page_count b) (page_start b') (page_count b');
  sg_spans j b' : batches c !! j = Some b' → used b' →
    apart (device_address b) (length b) (device_address b') (length b') ∧
    apart (physical_address b) (length b) (physical_address b') (length b');
}.

Lemma spans_apart_sym x n y m : apart x n y m → apart y m x n.
Proof. unfold apart. lia. Qed.

Lemma layout_add bs i b :
  layout PAGES bs → (∃ b0, bs !! i = Some b0 ∧ ¬ used b0) → used b → batch_ok PAGES b →
  (∀ j b', bs !! j = Some b' → used b' → apart (page_start b) (page_count b) (page_start b') (page_count b') ∧
     apart (device_address b) (length b) (device_address b') (length b') ∧
     apart (physical_address b) (length b) (physical_address b') (length b')) → layout PAGES (<[i := b]> bs).
Proof.
  intros [Hok Hap] (b0 & Hi & Hu0) Hu Hb Hnew. pose proof (lookup_lt_Some _ _ _ Hi) as Hlt. split.
  - intros j x Hj Hx. destruct (decide (i = j)) as [<-|]; [rewrite list_lookup_insert_eq in Hj by done; by simplify_eq|].
    rewrite list_lookup_insert_ne in Hj by done. by eapply Hok.
  - intros j k x y Hj Hk Hx Hy Hne. destruct (decide (i = j)) as [<-|]; [|destruct (decide (i = k)) as [<-|]].
    + rewrite list_lookup_insert_eq in Hj by done. rewrite list_lookup_insert_ne in Hk by done. simplify_eq. by eapply Hnew.
    + rewrite list_lookup_insert_eq in Hk by done. rewrite list_lookup_insert_ne in Hj by done. simplify_eq.
      destruct (Hnew j x Hj Hx) as (? & ? & ?). split_and!; by apply spans_apart_sym.
    + rewrite list_lookup_insert_ne in Hj by done. rewrite list_lookup_insert_ne in Hk by done. by eapply (Hap j k).
Qed.

Definition staged c (i : nat) (b : BatchSlot.t) : core := with_batches (<[i := b]> (batches c)) c.

Lemma place_add bs i b k v pa :
  (∃ b0, bs !! i = Some b0 ∧ ¬ used b0) → place bs k v pa → place (<[i := b]> bs) k v pa.
Proof.
  intros (b0 & Hi & Hu0) (j & x & Hj & Hx & ?). exists j, x. split; [|done]. rewrite list_lookup_insert_ne; [done|].
  intros <-. by simplify_eq.
Qed.

Lemma staged_ok c i b : core_ok c → stageable c i b → core_ok (staged c i b).
Proof.
  intros [Hs Hk] [Hi Hu Hok Hfree Hpg Hsp]. split; [|done]. apply sane_batches; [done| | |].
  - destruct (ck_tracks _ _ _ Hs) as [Hn Ha]. split; [|done]. intros k rec h Hrec Hh.
    destruct (Hn k rec h Hrec Hh) as (j & s & r & ? & ? & ?). exists j, s, r. split; [done|]. split; [by apply place_add|done].
  - apply layout_add; [apply Hs|done..|]. intros j b' Hj Hu'. split; [by eapply Hpg|by eapply Hsp].
  - unfold len. rewrite length_insert. apply Hs.
Qed.

(** The batch in slot [i] after the call: active with all its pages mapped, or
    withdrawn, or quarantined.  No other mapping is touched. *)
Record span_staged c (i : nat) (b : BatchSlot.t) (perm : DmaPermissions.t) (status : Z) c' : Prop := {
  ss_ok : core_ok c';
  ss_settled : settled c';
  ss_still : still c c';
  ss_kept : keeps_all c (slpt c');
  ss_batch :
    status = STATUS_OK ∧ batches c' = <[i := with_active true (with_phase BatchPhase.Active b)]> (batches c) ∧
      (∀ j, 0 <= j < page_count b → page_at (slpt c') (device_address b) (physical_address b) perm j) ∨
    status ≠ STATUS_OK ∧
      (batches c' = <[i := retired_slot b]> (batches c) ∨
       batches c' = <[i := with_phase BatchPhase.Quarantined b]> (batches c));
}.

(** A mapping that was there before the batch lies in no slot of it. *)
Lemma old_outside c i b j r k :
  sane c → sane (staged c i b) → stageable c i b → holds (slpt c) j r → covers b k →
  ¬ place (<[i := b]> (batches c)) k (MappingRecord.iova r) (MappingRecord.physical_address r).
Proof.
  intros Hs Hs' Hsg Hr Hk Hp. destruct (tr_all _ _ _ (ck_tracks _ _ _ Hs) j r Hr) as (k' & rec & h & s & Hrec & Hh & Hn).
  destruct (tr_named _ _ _ (ck_tracks _ _ _ Hs) k' rec h Hrec Hh) as (j' & s' & r' & Hn' & Hp' & _).
  assert (r' = r) as ->.
  { destruct Hn as (Hj & Hs1 & _ & Hr1), Hn' as (Hj' & Hs2 & _ & Hr2). assert (j' = j) as -> by lia. congruence. }
  pose proof (place_add _ i b _ _ _ (sg_slot _ _ _ Hsg) Hp') as Hp2.
  assert (k = k') as <- by (eapply (page_place_inj PAGES); [exact (ck_layout _ _ _ Hs')|exact Hp|exact Hp2]).
  rewrite (sg_free _ _ _ Hsg k Hk) in Hrec. by simplify_eq.
Qed.

Lemma batch_stage_failed c i b perm o c2 (P : Empty_set → core → Prop) status :
  core_ok c → settled c → authority_released c = false → stageable c i b → status ≠ STATUS_OK →
  pages_mapped (staged c i b) b perm o c2 →
  wp (set_phase (Z.of_nat i) BatchPhase.Quarantined ;; cleanup_batch (Z.of_nat i) ;; mret status)
    (span_staged c i b perm) P c2.
Proof.
  intros Hc Hset Hr Hsg Hst [Hok2 Hst2 Hb2 Hout2 Hkept2 _ _]. pose proof Hsg as [(b0 & Hi & Hu0) Hu Hbok Hfree Hpg Hsp].
  pose proof (lookup_lt_Some _ _ _ Hi) as Hlt. simpl in Hb2.
  assert (batches c2 !! i = Some b) as Hi2 by (rewrite Hb2; by apply list_lookup_insert_eq).
  rewrite wp_bind. eapply wp_set_phase; [done|]. set (c3 := with_batches _ c2). set (bq := with_phase BatchPhase.Quarantined b).
  assert (batches c3 = <[i := bq]> (batches c)) as Hb3 by (unfold c3; simpl; by rewrite Hb2, list_insert_insert_eq).
  assert (core_ok c3) as Hok3.
  { destruct Hok2 as [Hs2 Hk2]. split; [|done]. eapply sane_replace; [done..|by apply quarantine_place]. }
  assert (batches c3 !! i = Some bq) as Hi3 by (rewrite Hb3; by apply list_lookup_insert_eq).
  assert (used bq) as Huq by done. assert (still c c3) as Hst3 by (apply still_batches; etrans; [by apply still_batches|exact Hst2]).
  rewrite wp_bind. eapply wp_mono; [by eapply (cleanup_batch_ok PAGES BATCHES); [|rewrite (st_released _ _ Hst3)|..]| |done].
  intros o' c' Hcl. rewrite wp_ret. pose proof Hcl as [Hok' Hst' Hout' Hb' _ Hkept'].
  assert (sane (staged c i b)) as Hss by (by apply staged_ok).
  split; [done| |by etrans| |].
  - intros j x Hj Hx. rewrite Hb', Hb3, list_insert_insert_eq in Hj. destruct (decide (i = j)) as [<-|Hne].
    + rewrite list_lookup_insert_eq in Hj by done. simplify_eq. left. destruct o' as [[]|]; [|done|done].
      by apply retired_unused in Hx.
    + rewrite list_lookup_insert_ne in Hj by done. destruct (Hset j x Hj Hx) as [?|[Hph Hact]]; [by left|right].
      split; [done|]. intros k Hk. assert (¬ covers b k) as Hnk.
      { intros Hk'. destruct (Hpg j x Hj Hx); unfold covers in *; lia. }
      rewrite Hout' by exact Hnk. change (page_records c3) with (page_records c2). rewrite Hout2 by exact Hnk. by apply Hact.
  - intros j r Hj. apply Hkept'; [by apply Hkept2|]. intros k Hk. rewrite Hb3. intros Hp.
    apply (old_outside c i b j r k (proj1 Hc) Hss Hsg Hj Hk).
    rewrite <-(list_insert_insert_eq (batches c) i bq b) in Hp.
    rewrite (place_replace _ i b bq) in Hp; [done|by apply list_lookup_insert_eq|done|by apply quarantine_place].
  - right. split; [done|]. rewrite Hb', Hb3, list_insert_insert_eq. destruct o' as [[]|]; [by left|by right|by right].
Qed.

(** The slot that [stage_batch] writes. *)
Definition new_batch c (b0 : BatchSlot.t) (page_start page_count device physical length : Z) : BatchSlot.t :=
  mk (generation b0) false (VtdDmaBackend.domain_generation c) BatchPhase.Staging device physical length page_start page_count false.
Definition permissions_of (access : DmaAccess.t) : DmaPermissions.t :=
  DmaPermissions.mk (any_set access DmaAccess.READ) (any_set access DmaAccess.WRITE).

Lemma stage_batch_ok c (i : nat) b0 ps pc device physical length access (P : Empty_set → core → Prop) :
  let b := new_batch c b0 ps pc device physical length in
  core_ok c → settled c → authority_released c = false → batches c !! i = Some b0 → stageable c i b →
  wp (stage_batch (Z.of_nat i) ps pc device physical length access) (span_staged c i b (permissions_of access)) P c.
Proof.
  intros b Hc Hset Hr Hi Hsg. pose proof (lookup_lt_Some _ _ _ Hi) as Hlt. pose proof (staged_ok c i b Hc Hsg) as Hok1.
  pose proof Hsg as [_ Hu Hbok Hfree Hpg Hsp]. unfold stage_batch. rewrite wp_bind. eapply wp_batch; [done|].
  rewrite wp_bind, wp_get, wp_bind. apply wp_set_batch; [done|]. fold b. change (with_batches _ c) with (staged c i b).
  cbv zeta. fold (permissions_of access). rewrite wp_bind.
  assert (batches (staged c i b) !! i = Some b) as Hi1 by (by apply list_lookup_insert_eq).
  pose proof (b_count _ _ Hbok) as Hpc. simpl in Hpc.
  eapply wp_mono; [| |done].
  { replace (range 0 pc) with (range (page_count b - Z.of_nat (Z.to_nat pc)) (page_count b)) by (simpl; f_equal; lia).
    apply (map_pages_ok (staged c i b) i b (permissions_of access) (Z.to_nat pc) P); try done; [simpl; lia|..].
    - intros k Hk _. by apply Hfree.
    - intros k Hk Hlt'. unfold covers in Hk. simpl in *. lia.
    - intros j Hj. simpl in Hj. lia. }
  intros [status|] c2 Hpm; simpl.
  { eapply batch_stage_failed; [done..| |exact Hpm]. intros ->. by apply (pm_failed _ _ _ _ _ Hpm). }
  destruct Hpm as [Hok2 Hst2 Hb2 Hout2 Hkept2 Hdone _]. destruct (Hdone eq_refl) as [Hpages Hact]. simpl in Hb2.
  assert (batches c2 !! i = Some b) as Hi2 by (by rewrite Hb2).
  rewrite wp_bind. eapply wp_set_phase; [done|]. rewrite Hb2, list_insert_insert_eq, wp_bind.
  eapply wp_batch; [by apply list_lookup_insert_eq|]. rewrite wp_bind.
  apply wp_set_batch; [simpl; by rewrite length_insert|]. rewrite wp_ret. simpl. rewrite list_insert_insert_eq.
  set (b' := with_active true (with_phase BatchPhase.Active b)).
  assert (<[i := b']> (batches c) = <[i := b']> (batches c2)) as Hbs by (by rewrite Hb2, list_insert_insert_eq).
  split; [| | |done|left; by split_and!].
  - destruct Hok2 as [Hs2 Hk2]. split; [|done]. change (sane (with_batches (<[i := b']> (batches c)) c2)). rewrite Hbs.
    by eapply sane_replace.
  - intros j x Hj Hx. simpl in Hj. destruct (decide (i = j)) as [<-|Hne].
    + rewrite list_lookup_insert_eq in Hj by done. simplify_eq. right. split; [done|]. intros k Hk. by apply Hact.
    + rewrite list_lookup_insert_ne in Hj by done. destruct (Hset j x Hj Hx) as [?|[Hph Hact']]; [by left|right].
      split; [done|]. intros k Hk. simpl. rewrite Hout2; [by apply Hact'|]. intros Hk'.
      destruct (Hpg j x Hj Hx); unfold covers in *; lia.
  - change (still c (with_batches (<[i := b']> (batches c)) c2)). apply still_batches. etrans; [by apply still_batches|exact Hst2].
Qed.

(** ** [map_span] *)

Lemma find_free_page_run_ok c pc ps :
  len (page_records c) = PAGES → 0 <= pc → find_free_page_run PAGES c pc = Some ps →
  0 < pc ∧ 0 <= ps ∧ ps + pc <= PAGES ∧
  ∀ k, ps <= Z.of_nat k < ps + pc → page_records c !! k = Some PageRecord.Empty.
Proof.
  intros Hlen Hpc. unfold find_free_page_run. wp_if; [done|]. bool_to_prop.
  intros [Hin%list_elem_of_In Hall]%List.find_some. apply elem_of_range in Hin. split_and!; [lia|lia|lia|].
  intros k Hk. rewrite List.forallb_forall in Hall. unfold len in *.
  destruct (lookup_lt_is_Some_2 (page_records c) k) as [rec Hrec]; [lia|]. specialize (Hall rec). rewrite Hrec. f_equal.
  assert (PageRecord.is_empty rec = true) as He; [|by destruct rec].
  apply Hall, list_elem_of_In, list_elem_of_lookup. exists (k - Z.to_nat ps)%nat.
  rewrite lookup_take_lt by lia. rewrite lookup_drop. by replace (Z.to_nat ps + (k - Z.to_nat ps))%nat with k by lia.
Qed.

Lemma ranges_apart x n y m :
  0 <= x → 0 <= y → x + n < 2 ^ 64 → y + m < 2 ^ 64 → 0 < n → 0 < m → ranges_overlap x n y m = false → apart x n y m.
Proof.
  intros Hx Hy Hxn Hym Hn Hm. unfold ranges_overlap, saturating_add, MAX, apart.
  rewrite !Z.min_l by lia. intros Hov. apply andb_false_iff in Hov. rewrite !Z.ltb_ge in Hov. lia.
Qed.

(** The arguments that [map_span] accepts. *)
Record valid_span (device physical length : Z) (access : DmaAccess.t) : Prop := {
  vs_pages : length = length / Paging.PAGE_SIZE * Paging.PAGE_SIZE ∧ 0 < length / Paging.PAGE_SIZE;
  vs_device : device mod Paging.PAGE_SIZE = 0 ∧ device + length < 2 ^ 64;
  vs_physical : physical mod Paging.PAGE_SIZE = 0 ∧ physical + length < 2 ^ 64;
  vs_access : access ≠ 0 ∧ Z.land access (bitnot 8 DmaAccess.READ_WRITE) = 0;
}.

Lemma span_is_valid_ok device physical length access :
  0 <= length → span_is_valid device physical length access = true → valid_span device physical length access.
Proof.
  intros Hl Hv. unfold span_is_valid, any_set in Hv. apply negb_true_iff in Hv.
  repeat match goal with H : _ || _ = false |- _ => apply orb_false_iff in H as [? ?] end.
  repeat match goal with H : negb (bool_decide _) = false |- _ =>
    apply negb_false_iff, bool_decide_eq_true in H as [? ?] end.
  bool_to_prop. unfold checked_add in *.
  destruct (Z.ltb_spec (device + length) (2 ^ 64)); [|done]. destruct (Z.ltb_spec (physical + length) (2 ^ 64)); [|done].
  pose proof (Z.div_mod length Paging.PAGE_SIZE ltac:(done)). pose proof (Z.div_pos length Paging.PAGE_SIZE Hl ltac:(done)).
  split; [|done|done|done]. unfold Paging.PAGE_SIZE in *. split; lia.
Qed.

(** The guards of [map_span] in their order: the status of the first that fails,
    or the slot and the run of page records that the batch gets. *)
Definition map_guard c (domain device physical length : Z) (access : DmaAccess.t) : result (nat * Z) Z :=
  if negb (valid_domain c domain) then Err STATUS_NOT_FOUND else
  if poisoned c || existsb (is_phase BatchPhase.Quarantined) (batches c) then Err STATUS_IO_ERROR else
  if negb (span_is_valid device physical length access) then Err STATUS_INVALID_ARGUMENT else
  let pc := length / Paging.PAGE_SIZE in
  if (MAX_BATCH_PAGES <? pc) || (PAGES <? pc) then Err STATUS_BUSY else
  if existsb (conflicts device physical length) (batches c) then Err STATUS_BUSY else
  match position (λ b, is_phase BatchPhase.Empty b && negb (retired b)) (batches c) with
  | None => Err STATUS_BUSY
  | Some i => match find_free_page_run PAGES c pc with None => Err STATUS_BUSY | Some ps => Ok (i, ps) end
  end.

Lemma map_span_guarded {E} c domain device physical length access :
  map_span (E := E) PAGES MAX_BATCH_PAGES domain device physical length access c =
  match map_guard c domain device physical length access with
  | Err status => Done status c
  | Ok (i, ps) => stage_batch (Z.of_nat i) ps (length / Paging.PAGE_SIZE) device physical length access c
  end.
Proof.
  unfold map_span, map_guard, mbind, M_bind, get. repeat case_match; simplify_eq; done.
Qed.

Lemma map_guard_stageable c domain device physical length access i ps :
  core_ok c → settled c → u64 device → u64 physical → 0 <= length →
  map_guard c domain device physical length access = Ok (i, ps) →
  valid_domain c domain = true ∧ poisoned c = false ∧ valid_span device physical length access ∧
  (∀ j b, batches c !! j = Some b → used b → phase b = BatchPhase.Active) ∧
  ∃ b0, batches c !! i = Some b0 ∧
        stageable c i (new_batch c b0 ps (length / Paging.PAGE_SIZE) device physical length).
Proof.
  intros [Hs _] Hset [Hd _] [Hp _] Hl Hg. unfold map_guard in Hg.
  destruct (valid_domain c domain) eqn:Hdom; [|done]. destruct (poisoned c) eqn:Hpoi; [done|].
  destruct (existsb (is_phase _) _) eqn:Hq; [done|]. destruct (span_is_valid _ _ _ _) eqn:Hv; [|done].
  cbn [negb orb] in Hg. destruct (_ || _) eqn:Hcap; [done|]. destruct (existsb (conflicts _ _ _) _) eqn:Hconf; [done|].
  destruct (position _ _) as [i'|] eqn:Hpos; [|done]. destruct (find_free_page_run _ _ _) as [ps'|] eqn:Hfind; [|done].
  injection Hg as -> ->. apply position_Some in Hpos as [(b0 & Hi & Hb0) _]. apply andb_true_iff in Hb0 as [Hb0%bool_decide_eq_true _].
  apply span_is_valid_ok in Hv; [|done]. pose proof Hv as [[Hlen Hpc] [_ Hde] [_ Hpe] _].
  apply find_free_page_run_ok in Hfind as (_ & Hps & Hend & Hfree); [|apply Hs|lia].
  rewrite existsb_not_elem in Hq. rewrite existsb_not_elem in Hconf.
  assert (∀ j b, batches c !! j = Some b → used b → phase b = BatchPhase.Active) as Hactive.
  { intros j b Hj Hu. destruct (Hset j b Hj Hu) as [Hph|[Hph _]]; [|done]. exfalso.
    assert (is_phase BatchPhase.Quarantined b = false) as Hf by (apply Hq; by eapply list_elem_of_lookup_2).
    apply bool_decide_eq_false in Hf. done. }
  split_and!; [done..|]. exists b0. split; [done|].
  split; [exists b0; split; [done|by intros ?]|done| |exact Hfree| |].
  - split; simpl; [lia|lia|lia|done|lia|lia].
  - intros j b Hj Hu. destruct (Hset j b Hj Hu) as [Hph|[_ Hact]]; [by rewrite (Hactive j b Hj Hu) in Hph|].
    destruct (lay_ok _ _ (ck_layout _ _ _ Hs) j b Hj Hu) as [Hb1 Hb2 Hb3 _ _ _]. simpl. unfold apart.
    destruct (decide (ps + length / Paging.PAGE_SIZE <= page_start b ∨ page_start b + page_count b <= ps)) as [|Hno]; [done|]. exfalso.
    destruct (Hact (Z.to_nat (Z.max ps (page_start b)))) as (rec & Hrec & h & ->); [unfold covers; lia|].
    rewrite Hfree in Hrec by lia. done.
  - intros j b Hj Hu. destruct (lay_ok _ _ (ck_layout _ _ _ Hs) j b Hj Hu) as [_ Hb2 _ Hb4 Hb5 Hb6]. simpl.
    assert (conflicts device physical length b = false) as Hf by (apply Hconf; by eapply list_elem_of_lookup_2).
    unfold conflicts, is_phase in Hf. rewrite bool_decide_false in Hf by done. simpl in Hf. apply orb_false_iff in Hf as [Hf1 Hf2].
    unfold Paging.PAGE_SIZE in *. split; apply spans_apart_sym; (apply ranges_apart; [lia..|done]).
Qed.

(** What a mapping call does. *)
Lemma map_span_ok c domain device physical length access (P : Empty_set → core → Prop) :
  core_ok c → settled c → u64 device → u64 physical → 0 <= length →
  wp (map_span PAGES MAX_BATCH_PAGES domain device physical length access)
    (λ status c',
       c' = c ∧ map_guard c domain device physical length access = Err status ∧ status ≠ STATUS_OK ∨
       ∃ i ps b0, map_guard c domain device physical length access = Ok (i, ps) ∧ batches c !! i = Some b0 ∧
         let b := new_batch c b0 ps (length / Paging.PAGE_SIZE) device physical length in
         stageable c i b ∧ span_staged c i b (permissions_of access) status c') P c.
Proof.
  intros Hc Hset Hd Hp Hl. unfold wp. rewrite map_span_guarded.
  destruct (map_guard c domain device physical length access) as [[i ps]|status] eqn:Hg.
  - destruct (map_guard_stageable _ _ _ _ _ _ _ _ Hc Hset Hd Hp Hl Hg) as (Hdom & _ & _ & _ & b0 & Hi & Hsg).
    assert (authority_released c = false) as Hr.
    { unfold valid_domain in Hdom. by destruct (authority_released c), (domain_active c). }
    pose proof (stage_batch_ok c i b0 ps (length / Paging.PAGE_SIZE) device physical length access P Hc Hset Hr Hi Hsg) as Hwp.
    unfold wp in Hwp. destruct (stage_batch _ _ _ _ _ _ _ c); [|done|done]. right. by exists i, ps, b0.
  - left. split_and!; [done..|]. unfold map_guard in Hg. repeat case_match; simplify_eq; done.
Qed.

(** ** [unmap_span] *)

Definition unmap_target c (domain device length : Z) : option nat :=
  if valid_domain c domain then position (names_span c device length) (batches c) else None.

Lemma unmap_span_ok c domain device length (P : Empty_set → core → Prop) :
  core_ok c → settled c →
  wp (unmap_span domain device length)
    (λ status c',
       unmap_target c domain device length = None ∧ c' = c ∧ status = STATUS_NOT_FOUND ∨
       ∃ i b (o : result bool unit), unmap_target c domain device length = Some i ∧ batches c !! i = Some b ∧ names_span c device length b = true ∧
         core_ok c' ∧ settled c' ∧ still c c' ∧ kept c (covers b) (slpt c') ∧
         batches c' = <[i := match o with Ok true => retired_slot b | _ => with_phase BatchPhase.Quarantined b end]> (batches c) ∧
         status = match o with
                  | Ok true => if was_active b then STATUS_OK else STATUS_NOT_FOUND
                  | _ => STATUS_IO_ERROR
                  end) P c.
Proof.
  intros Hc Hset. unfold unmap_span, unmap_target. rewrite wp_bind, wp_get.
  destruct (valid_domain c domain) eqn:Hdom; cbn [negb]; [|rewrite wp_ret; by left].
  destruct (position _ _) as [i|] eqn:Hpos; [|rewrite wp_ret; by left].
  apply position_Some in Hpos as [(b & Hi & Hb) _]. pose proof (lookup_lt_Some _ _ _ Hi) as Hlt.
  assert (used b) as Hu.
  { unfold names_span, is_phase in Hb. repeat apply andb_true_iff in Hb as [Hb _]. by apply negb_true_iff, bool_decide_eq_false in Hb. }
  assert (authority_released c = false) as Hr.
  { unfold valid_domain in Hdom. by destruct (authority_released c), (domain_active c). }
  rewrite wp_bind. eapply wp_batch; [done|]. rewrite wp_bind. eapply wp_set_phase; [done|].
  set (bq := with_phase BatchPhase.Quarantined b). set (c1 := with_batches _ c).
  assert (core_ok c1) as Hc1.
  { destruct Hc as [Hs Hk]. split; [|done]. eapply sane_replace; [done..|by apply quarantine_place]. }
  assert (batches c1 !! i = Some bq) as Hi1 by (by apply list_lookup_insert_eq).
  assert (settled c1) as Hset1 by (eapply (settled_change c c1 i b bq); [apply Hc|done..|by left]).
  rewrite wp_bind. eapply wp_mono; [by eapply (cleanup_batch_ok PAGES BATCHES)| |done].
  intros o c' Hcl. rewrite wp_ret. right. exists i, b, o. pose proof Hcl as [Hok' Hst' Hout' Hb' _ Hkept'].
  do 3 (split; [done|]). split; [exact Hok'|]. split; [|split; [|split; [|split; [|done]]]].
  - eapply (cleaned_settled c1); [apply Hc1|done..|exact Hcl].
  - etrans; [by apply still_batches|exact Hst'].
  - intros j r Hj Hn. apply Hkept'; [done|]. intros k Hk Hp. apply (Hn k Hk).
    unfold c1 in Hp. simpl in Hp. rewrite (place_replace _ i b bq) in Hp; [done..|by apply quarantine_place].
  - rewrite Hb'. unfold c1. simpl. rewrite list_insert_insert_eq. by destruct o as [[]|].
Qed.
End spans.
