(* ===== verification/VtdBackendDomain.v ===== *)
(** * The domain of the VT-d backend

    Release, shutdown and construction of the backend under the invariant of
    [VtdBackendOps]: after a release nothing is translated any more, and a
    backend comes into being with one requester and no mapping. *)
From S2P Require Import Prelude Acpi Slpt SlptTree SlptLedger SlptPath SlptOps SlptRuns SlptCalls VtdMemory.
From S2P Require Import VtdTables VtdEngine VtdEngineFacts VtdScope Iova XhciDma Iommu VtdBackend.
From S2P Require Import VtdBackendFacts VtdBackendOps VtdBackendSpans.
Import BatchSlot VtdDmaBackend.

(** The invariant of the page-table core with another invalidator that caches
    no more. *)
Lemma inv_invalidator {S I : Type} {HM : SlptPageMemory S} {HML : SlptMemoryLaws S}
    {HI : SlptInvalidator I} {HIL : SlptInvalidatorLaws I} (w w' : Slpt.world S I) :
  SlptOps.inv w → Slpt.slpt w' = Slpt.slpt w → Slpt.memory w' = Slpt.memory w → inval_ok (Slpt.invalidator w') →
  (∀ v e, cached (Slpt.invalidator w') v e → cached (Slpt.invalidator w) v e) → SlptOps.inv w'.
Proof.
  intros (n & leaves & [Hc Hm Ht Hl] & Hcl & _ & Htlb) Ha Hmem Hok Hless.
  assert (T w' = T w) as HT by (unfold T; by rewrite Hmem). exists n, leaves. split_and!.
  - split; rewrite ?Ha, ?HT, ?Hmem; done.
  - by rewrite Ha, HT.
  - split; [done|]. rewrite Ha. intros v e Hv. by apply Htlb, Hless.
Qed.

Section domain.
Context {R Mem : Type} {HB : VtdRegisterBackend R} {HU : VtdUnitLaws R}
  {HM : SlptPageMemory Mem} {HML : SlptMemoryLaws Mem}.
Context (PAGES BATCHES MAX_BATCH_PAGES : Z).
#[local] Abbreviation core := (VtdDmaBackend.core (R := R) (Mem := Mem)).
#[local] Abbreviation core_ok := (core_ok PAGES BATCHES).
#[local] Abbreviation sane := (sane PAGES BATCHES).
#[local] Abbreviation settled := (settled (R := R) (Mem := Mem)).
#[local] Abbreviation engine_state c := (VtdRemappingEngine.state (engine c)).
#[local] Abbreviation Disabled := VtdEngineState.Disabled.
Implicit Types (c : core).

(** ** Sweeping all batches *)

(** What is left in use was there before, perhaps quarantined by now. *)
Definition swept c c' : Prop :=
  core_ok c' ∧ settled c' ∧ still c c' ∧
  ∀ j b', batches c' !! j = Some b' → used b' →
    ∃ b, batches c !! j = Some b ∧ used b ∧ (b' = b ∨ b' = with_phase BatchPhase.Quarantined b).

Lemma swept_refl c : core_ok c → settled c → swept c c.
Proof. intros Hc Hs. split; [exact Hc|]. split; [done|]. split; [done|]. intros j b Hj Hu. exists b. auto. Qed.
Lemma swept_trans c c1 c2 : swept c c1 → swept c1 c2 → swept c c2.
Proof.
  intros (_ & _ & Hst & H1) (Hc2 & Hs2 & Hst2 & H2). split; [exact Hc2|]. split; [done|]. split; [by etrans|].
  intros j b Hj Hu. destruct (H2 j b Hj Hu) as (b1 & Hj1 & Hu1 & Hb1). destruct (H1 j b1 Hj1 Hu1) as (b0 & ? & ? & Hb0).
  exists b0. split_and!; [done..|]. destruct Hb1 as [-> | ->]; [done|]. destruct Hb0 as [-> | ->]; auto.
Qed.

Lemma swept_cleaned c i b o c' :
  core_ok c → settled c → batches c !! i = Some b → used b → cleaned PAGES BATCHES c i b o c' → swept c c'.
Proof.
  intros Hc Hset Hi Hu Hcl. pose proof Hcl as [Hok Hst _ Hb _ _]. pose proof (lookup_lt_Some _ _ _ Hi) as Hlt.
  split; [exact Hok|]. split; [eapply (cleaned_settled PAGES BATCHES c); [apply Hc|done..]|]. split; [done|].
  intros j b' Hj Hu'. rewrite Hb in Hj. destruct (decide (i = j)) as [<-|].
  - rewrite list_lookup_insert_eq in Hj by done. exists b. split_and!; [done..|]. injection Hj as <-.
    destruct o as [[]|]; [by apply retired_unused in Hu'|by right|by right].
  - rewrite list_lookup_insert_ne in Hj by done. exists b'. auto.
Qed.

Lemma cleanup_all_ok {E} c l failed (P : E → core → Prop) :
  core_ok c → settled c → authority_released c = false → Forall (λ i, 0 <= i < BATCHES) l →
  wp (cleanup_all l failed) (λ _ c', swept c c') P c.
Proof.
  revert c failed. induction l as [|i l IH]; intros c failed Hc Hset Hr Hl; simpl.
  { rewrite wp_ret. by apply swept_refl. }
  apply Forall_cons in Hl as [Hi Hl]. pose proof (ck_batches _ _ _ (proj1 Hc)) as Hlen. unfold len in Hlen.
  destruct (lookup_lt_is_Some_2 (batches c) (Z.to_nat i)) as [b Hb]; [lia|].
  replace i with (Z.of_nat (Z.to_nat i)) by lia. rewrite wp_bind. eapply wp_batch; [done|].
  unfold is_phase. case_bool_decide as Hph; [by apply IH|]. rewrite wp_bind.
  eapply wp_mono; [by eapply (cleanup_batch_ok PAGES BATCHES)| |done]. intros o c1 Hcl.
  pose proof (swept_cleaned _ _ _ _ _ Hc Hset Hb Hph Hcl) as Hsw. pose proof Hsw as (Hc1 & Hset1 & Hst1 & _).
  eapply wp_mono; [apply IH; [done|done|by rewrite (st_released _ _ Hst1)|done]| |done].
  intros x c2 Hsw2. by eapply swept_trans.
Qed.

(** ** Disabling the engine *)

(** What stays when only the engine, the fault and the poison flag may change. *)
Record aside c c' : Prop := {
  as_memory : memory c' = memory c;
  as_tables : tables c' = tables c;
  as_slpt : slpt c' = slpt c;
  as_scope : scope c' = scope c;
  as_limit : poll_limit c' = poll_limit c;
  as_generation : VtdDmaBackend.domain_generation c' = VtdDmaBackend.domain_generation c;
  as_active : domain_active c' = domain_active c;
  as_retired : domain_retired c' = domain_retired c;
  as_released : authority_released c' = authority_released c;
  as_batches : batches c' = batches c;
  as_records : page_records c' = page_records c;
  as_poisoned : poisoned c = true → poisoned c' = true;
  as_kin : kin (engine c) (engine c');
}.

Lemma aside_sane c c' :
  sane c → aside c c' → authority (VtdRemappingEngine.state (engine c')) (VtdRemappingEngine.owned_root (engine c')) → sane c'.
Proof.
  intros [H1 H2 H3 H4 H5 H6 H7 H8] [A1 A2 A3 A4 A5 A6 A7 A8 A9 A10 A11 A12 A13] Ha.
  split; rewrite ?A3, ?A10, ?A11, ?A5; try done.
  - eapply inv_invalidator; [exact H1|done|done| |].
    + pose proof (inv_inval _ H1) as Hok. exact (kin_ok _ _ Hok A13 Ha).
    + intros v e. simpl. destruct A13 as [_ _ _ _ [_ Hs]]. apply Hs.
  - unfold tables_ok in *. by rewrite A2, A3, A4, A9.
Qed.

Lemma engine_of_sane c : sane c → engine_ok (engine c).
Proof. intros Hs. exact (inv_inval _ (ck_pages _ _ _ Hs)). Qed.

Lemma disable_engine_ok c :
  core_ok c → authority_released c = false →
  wp disable_engine
    (λ _ c', aside c c' ∧ engine_state c' = Disabled ∧ VtdRemappingEngine.owned_root (engine c') = None ∧
             empty_caches (engine c') ∧ ¬ translating (VtdRemappingEngine.registers (engine c')) ∧
             poisoned c' = poisoned c)
    (λ f c', aside c c' ∧ core_ok c' ∧ last_engine_fault c' = Some f) c.
Proof.
  intros [Hs Hk] Hr. pose proof (engine_of_sane c Hs) as Hok. pose proof (ck_limit _ _ _ Hs) as Hlim.
  unfold disable_engine. rewrite wp_bind, wp_get, wp_bind, wp_attempt. unfold on_engine. rewrite wp_zoom.
  eapply wp_mono; [by apply disable_ok| |].
  - intros [] e (_ & _ & (Hkin & Hst & Ho) & Hempty & Hoff). rewrite wp_ret. split; [by split|done].
  - intros f e Hf. rewrite wp_bind, wp_modify, wp_bind, wp_note, wp_throw.
    set (c1 := with_fault (Some f) (with_engine e c)).
    assert (kin (engine c) e ∧ (VtdRemappingEngine.state e = VtdEngineState.Enabled ∨ VtdRemappingEngine.state e = VtdEngineState.Poisoned) ∧
            authority (VtdRemappingEngine.state e) (VtdRemappingEngine.owned_root e)) as (Hkin & Hst & Ha).
    { pose proof (eng_root _ Hok) as Hroot. unfold engine_known in Hk. rewrite Hr in Hk.
      destruct Hf as [[_ ->]|(_ & Hen & [(_ & Hkin & Hst & Ho)|(_ & Hkin & Hst & Ho)])].
      - split; [done|]. split; [|done]. destruct Hk as [?|[? _]]; auto.
      - rewrite Hst, Ho. rewrite Hen in Hroot. split; [done|]. split; [by left|done].
      - rewrite Hst. split; [done|]. split; [by right|done]. }
    assert (aside c (noted c1)) as Has by (unfold noted; case_bool_decide; by split).
    split; [done|]. split; [|unfold noted; by case_bool_decide].
    split; [apply (aside_sane c); [done..|]; unfold noted; by case_bool_decide|].
    unfold engine_known, noted. case_bool_decide as Hp; simpl in *; rewrite Hr; [by right|left]. by destruct Hst.
Qed.

(** ** Giving up the authority *)

Lemma only_bounds i l e : only i l e → 0 <= i < Z.of_nat (List.length l).
Proof. intros (H0 & -> & H1). rewrite length_insert, length_replicate. lia. Qed.
Lemma only_again i l e e' : only i l e → only i (<[Z.to_nat i := e']> l) e'.
Proof. intros (H0 & -> & H1). split; [done|]. by rewrite list_insert_insert_eq. Qed.

Lemma clear_ok {S E} requester s root context (Q : storage → S → Prop) (P : E → S → Prop) x :
  only (PciAddress.bus requester) (root_table s) root → only (context_index requester) (context_table s) context →
  (∀ s', root_table_physical_address s' = root_table_physical_address s →
     context_table_physical_address s' = context_table_physical_address s →
     only (PciAddress.bus requester) (root_table s') EMPTY_ENTRY →
     only (context_index requester) (context_table s') EMPTY_ENTRY → Q s' x) →
  wp (clear_requester_entries s requester) Q P x.
Proof.
  intros Hr Hc HQ. unfold clear_requester_entries, set_root, set_context.
  rewrite wp_bind, wp_bind. apply wp_store; [by eapply only_bounds|]. rewrite wp_ret, wp_bind.
  apply wp_store; [by eapply only_bounds|]. rewrite wp_ret. apply HQ; [done|done| |]; by eapply only_again.
Qed.

Lemma only_empty i l : only i l EMPTY_ENTRY → l = replicate 256 EMPTY_ENTRY.
Proof.
  intros (H0 & -> & H1). apply list_insert_id. apply lookup_replicate. split; [done|lia].
Qed.

(** The backend gave up its authority: unit off, caches and tables empty. *)
Record given_up c c' : Prop := {
  gu_ok : core_ok c';
  gu_released : authority_released c' = true;
  gu_engine : engine_state c' = Disabled;
  gu_caches : empty_caches (engine c');
  gu_root : VtdRemappingEngine.owned_root (engine c') = None;
  gu_off : ¬ translating (VtdRemappingEngine.registers (engine c'));
  gu_tables : root_table (tables c') = replicate 256 EMPTY_ENTRY ∧ context_table (tables c') = replicate 256 EMPTY_ENTRY;
  gu_batches : batches c' = batches c;
  gu_slpt : slpt c' = slpt c;
  gu_memory : memory c' = memory c;
  gu_scope : scope c' = scope c;
  gu_generation : VtdDmaBackend.domain_generation c' = VtdDmaBackend.domain_generation c;
  gu_active : domain_active c' = domain_active c;
  gu_retired : domain_retired c' = domain_retired c;
  gu_records : page_records c' = page_records c;
}.

Lemma release_authority_ok {E} c c1 (P : E → core → Prop) :
  core_ok c → aside c c1 → engine_state c1 = Disabled → VtdRemappingEngine.owned_root (engine c1) = None →
  empty_caches (engine c1) → ¬ translating (VtdRemappingEngine.registers (engine c1)) →
  wp release_authority (λ _, given_up c) P c1.
Proof.
  intros [Hs Hk] Has Hst Ho Hempty Hoff. assert (sane c1) as Hs1 by (eapply aside_sane; [done..|]; by rewrite Hst, Ho).
  unfold release_authority. rewrite wp_bind, wp_get, wp_bind.
  destruct (ck_tables _ _ _ Hs1) as (root & context & Hroot & Hcon & _). eapply clear_ok; [exact Hroot|exact Hcon|].
  intros s' _ _ Hr' Hc'. rewrite wp_put. destruct Has. split; try done; [|split; by eapply only_empty].
  split; [|done]. destruct Hs1 as [H1 H2 H3 H4 H5 H6 H7 _]. split; try done.
  exists EMPTY_ENTRY, EMPTY_ENTRY. by split_and!.
Qed.

(** Without a batch in use the page-table core holds no mapping. *)
Lemma idle_empty c : sane c → (∀ j b, batches c !! j = Some b → ¬ used b) → ∀ i r, ¬ holds (slpt c) i r.
Proof.
  intros Hs Hidle i r Hr. destruct (tr_all _ _ _ (ck_tracks _ _ _ Hs) i r Hr) as (k & rec & h & s & Hk & Hh & _).
  destruct (tr_named _ _ _ (ck_tracks _ _ _ Hs) k rec h Hk Hh) as (? & ? & ? & _ & (j & b & Hj & Hu & _) & _).
  by eapply Hidle.
Qed.

(** ** [release_domain] *)

Definition idle c : Prop := ∀ j b, batches c !! j = Some b → ¬ used b.
Lemma idle_test c : existsb (λ b, negb (is_phase BatchPhase.Empty b)) (batches c) = false ↔ idle c.
Proof.
  rewrite existsb_not_elem. unfold idle, used, is_phase. split.
  - intros H j b Hj Hu. specialize (H b ltac:(by eapply list_elem_of_lookup_2)).
    rewrite bool_decide_false in H by done. done.
  - intros H b [j Hj]%list_elem_of_lookup. rewrite bool_decide_true; [done|]. by apply dec_stable, (H j).
Qed.

Record domain_released c c' : Prop := {
  dr_ok : core_ok c';
  dr_idle : idle c';
  dr_released : authority_released c' = true;
  dr_inactive : domain_active c' = false;
  dr_engine : engine_state c' = Disabled;
  dr_caches : empty_caches (engine c');
  dr_root : VtdRemappingEngine.owned_root (engine c') = None;
  dr_off : ¬ translating (VtdRemappingEngine.registers (engine c'));
  dr_tables : root_table (tables c') = replicate 256 EMPTY_ENTRY ∧ context_table (tables c') = replicate 256 EMPTY_ENTRY;
}.

Lemma with_domain_ok c g active retired :
  core_ok c → core_ok (with_domain g active retired (authority_released c) c).
Proof. intros [[H1 H2 H3 H4 H5 H6 H7 H8] Hk]. split; [by split|done]. Qed.

Lemma backend_release_ok c domain (P : Empty_set → core → Prop) :
  core_ok c → settled c →
  wp (release BATCHES domain)
    (λ status c',
       status = STATUS_NOT_FOUND ∧ valid_domain c domain = false ∧ c' = c ∨
       status = STATUS_IO_ERROR ∧ valid_domain c domain = true ∧ core_ok c' ∧ settled c' ∧
         domain_active c' = true ∧ authority_released c' = false ∧
         VtdDmaBackend.domain_generation c' = VtdDmaBackend.domain_generation c ∧ scope c' = scope c ∧
         (∀ j b', batches c' !! j = Some b' → used b' →
            ∃ b, batches c !! j = Some b ∧ used b ∧ (b' = b ∨ b' = with_phase BatchPhase.Quarantined b)) ∨
       status = STATUS_OK ∧ valid_domain c domain = true ∧ domain_released c c' ∧ scope c' = scope c) P c.
Proof.
  intros Hc Hset. unfold release. rewrite wp_bind, wp_get.
  destruct (valid_domain c domain) eqn:Hdom; cbn [negb]; [|rewrite wp_ret; by left].
  assert (authority_released c = false ∧ domain_active c = true) as [Hr Hact]
    by (unfold valid_domain in Hdom; by destruct (authority_released c), (domain_active c)).
  rewrite wp_bind. eapply wp_mono; [apply cleanup_all_ok; [done..|]| |done].
  { apply Forall_forall. intros i Hi%elem_of_range. done. }
  intros failed c1 (Hc1 & Hset1 & Hst1 & Hsub). rewrite wp_bind, wp_get.
  assert (authority_released c1 = false) as Hr1 by (by rewrite (st_released _ _ Hst1)).
  assert (domain_active c1 = true) as Hact1 by (by rewrite (st_active _ _ Hst1)).
  destruct (_ || _) eqn:Hbusy.
  { rewrite wp_ret. right. left. split; [done|]. split; [done|]. split; [exact Hc1|].
    split_and!; [done..|apply Hst1|apply Hst1|done]. }
  apply orb_false_iff in Hbusy as [_ Hidle%idle_test].
  rewrite wp_bind, wp_attempt. eapply wp_mono; [by apply disable_engine_ok| |].
  - intros [] c2 (Has & Hst2 & Ho2 & Hempty & Hoff & _). rewrite wp_bind.
    eapply wp_mono; [by apply (release_authority_ok c1 c2)| |done]. intros [] c3 [G1 G2 G3 G4 Gr Go G5 G6 G7 G8 G9 G10 G11 G12 G13].
    rewrite wp_bind, wp_get, wp_bind.
    assert (idle c3) as Hidle3 by (intros j b; rewrite G6; apply Hidle).
    destruct (_ =? _); rewrite wp_put, wp_ret; right; right; (split; [done|]; split; [done|]; split);
      try (by split; [by apply with_domain_ok|done..]); simpl; rewrite G9; apply Hst1.
  - intros f c2 (Has & Hc2 & _). rewrite wp_ret. right. left. split; [done|]. split; [done|]. split; [exact Hc2|].
    destruct Has. split_and!; try congruence.
    + intros i b Hi Hu. rewrite as_batches0 in Hi. destruct (Hset1 i b Hi Hu) as [?|[Hph Ha]]; [by left|right].
      split; [done|]. intros k Hk. rewrite as_records0. by apply Ha.
    + rewrite as_generation0. apply Hst1.
    + rewrite as_scope0. apply Hst1.
    + intros j b. rewrite as_batches0. apply Hsub.
Qed.

(** ** [isolate_device] *)

Lemma isolate_ok c device :
  core_ok c → settled c →
  wp (isolate device)
    (λ h c', device = VtdRequesterScope.requester (scope c) ∧ poisoned c = false ∧ authority_released c = false ∧
             domain_active c = false ∧ domain_retired c = false ∧ h = domain_handle (VtdDmaBackend.domain_generation c) ∧
             c' = with_domain (VtdDmaBackend.domain_generation c) true (domain_retired c) (authority_released c) c ∧
             core_ok c' ∧ settled c')
    (λ status c', c' = c) c.
Proof.
  intros Hc Hset. unfold isolate. rewrite wp_bind, wp_get. case_bool_decide as Hd; cbn [negb]; [|by rewrite wp_throw].
  destruct (poisoned c) eqn:Hp; cbn [orb]; [by rewrite wp_throw|]. destruct (authority_released c) eqn:Hr; [by rewrite wp_throw|].
  destruct (domain_active c) eqn:Ha; [by rewrite wp_throw|]. destruct (domain_retired c) eqn:Ht; [by rewrite wp_throw|].
  rewrite wp_bind, wp_put, wp_ret. do 7 (split; [done|]). split; [|done].
  pose proof (with_domain_ok c (VtdDmaBackend.domain_generation c) true false Hc) as Hw. by rewrite Hr in Hw.
Qed.

(** ** [shutdown] *)

Lemma shutdown_ok c :
  core_ok c → settled c →
  wp shutdown
    (λ r s', s' = None ∧ idle c ∧ domain_active c = false ∧ released_scope r = scope c ∧
             released_slpt r = slpt c ∧ released_memory r = memory c ∧ VtdRemappingEngine.state (released_engine r) = Disabled ∧
             is_Some (VtdRemappingEngine.into_registers (released_engine r)) ∧
             root_table (released_tables r) = replicate 256 EMPTY_ENTRY ∧
             context_table (released_tables r) = replicate 256 EMPTY_ENTRY)
    (λ f s', f = VtdBackendShutdownFault.DomainActive ∧ s' = Some c ∧ ¬ (domain_active c = false ∧ idle c) ∨
             ∃ e c', f = VtdBackendShutdownFault.Disable e ∧ s' = Some c' ∧ core_ok c' ∧ settled c' ∧ aside c c') (Some c).
Proof.
  intros Hc Hset. unfold wp, shutdown. destruct (_ || _) eqn:Hbusy.
  { left. split_and!; [done..|]. intros [Ha Hi%idle_test]. by rewrite Ha, Hi in Hbusy. }
  apply orb_false_iff in Hbusy as [Hact Hidle%idle_test].
  assert (∀ e : VtdRemappingEngine.t R, engine_ok e → VtdRemappingEngine.state e = Disabled →
    is_Some (VtdRemappingEngine.into_registers e)) as Hinto.
  { intros e He Hs. pose proof (eng_root _ He) as Ha. rewrite Hs in Ha. simpl in Ha. unfold VtdRemappingEngine.into_registers.
    rewrite bool_decide_true, bool_decide_false by (rewrite ?Ha; auto using is_Some_None). simpl. eauto. }
  destruct (authority_released c) eqn:Hr.
  - destruct Hc as [Hs Hk]. unfold engine_known in Hk. rewrite Hr in Hk.
    destruct (ck_tables _ _ _ Hs) as (root & context & Hroot & Hcon & Hrel). rewrite Hr in Hrel. destruct Hrel as [-> ->].
    split_and!; try done; [apply Hinto; [by apply engine_of_sane|done]|by eapply only_empty|by eapply only_empty].
  - assert (wp (disable_engine ;; release_authority) (λ _, given_up c)
      (λ f c', aside c c' ∧ core_ok c') c) as Hwp.
    { rewrite wp_bind. eapply wp_mono; [by apply disable_engine_ok| |by intros f c' (? & ? & _)].
      intros [] c1 (Has & Hst & Ho & Hempty & Hoff & _). by apply (release_authority_ok c c1). }
    unfold wp in Hwp. destruct ((disable_engine ;; release_authority) c) as [[] c'|f c'|]; [| |done].
    + destruct Hwp as [G1 G2 G3 G4 Gr Go [G5 G5'] G6 G7 G8 G9 G10 G11 G12 G13]. split_and!; try done.
      apply Hinto; [apply engine_of_sane, G1|done].
    + destruct Hwp as [Has Hc']. right. exists f, c'. split; [done|]. split; [done|]. split; [exact Hc'|]. split; [|done].
      destruct Has. intros i b Hi Hu. rewrite as_batches0 in Hi. by destruct (Hidle i b Hi).
Qed.

(** ** Construction *)

(** The types of the two tables and of a PCI address. *)
Record build_args (scope : VtdRequesterScope.t) (s : storage) : Prop := {
  ba_bus : u8 (PciAddress.bus (VtdRequesterScope.requester scope));
  ba_slot : 0 <= PciAddress.slot (VtdRequesterScope.requester scope) < 32;
  ba_function : 0 <= PciAddress.function (VtdRequesterScope.requester scope) < 8;
  ba_root : List.length (root_table s) = 256%nat;
  ba_context : List.length (context_table s) = 256%nat;
}.

Lemma table_empty_ok (l : list entry) :
  List.length l = 256%nat → forallb (λ e : entry, bool_decide (e = EMPTY_ENTRY)) (take 256 l) = true →
  l = replicate 256 EMPTY_ENTRY.
Proof.
  intros Hl Hall. rewrite take_ge in Hall by lia. rewrite List.forallb_forall in Hall.
  rewrite <-Hl. symmetry. apply replicate_as_elem_of. split; [done|]. intros x Hx.
  apply list_elem_of_In in Hx. by specialize (Hall x Hx); apply bool_decide_eq_true in Hall.
Qed.

Section build.
Context (requester_scope : VtdRequesterScope.t) (mem : Mem) (slpt_root : SlptFrame) (domain_id limit : Z) (s : storage).
Context (Hargs : build_args requester_scope s) (Hpages : 0 <= PAGES) (Hbatches : 0 <= BATCHES).
#[local] Abbreviation requester := (VtdRequesterScope.requester requester_scope).

Record checked (e : VtdRemappingEngine.t R) (a : Slpt.t) : Prop := {
  kd_limit : limit ≠ 0;
  kd_batches : BATCHES <= MAX 16;
  kd_alias : root_table_physical_address s ≠ context_table_physical_address s ∧
    root_table_physical_address s ≠ slpt_root ∧ context_table_physical_address s ≠ slpt_root;
  kd_root : root_table s = replicate 256 EMPTY_ENTRY;
  kd_context : context_table s = replicate 256 EMPTY_ENTRY;
  kd_attach : ∃ config, Slpt.attach PAGES mem slpt_root config = Ok a;
}.

Lemma check_and_attach_ok e :
  wp (check_and_attach PAGES BATCHES MAX_BATCH_PAGES mem slpt_root limit e s) (λ a _, checked e a) (λ _ _, True) ().
Proof using Hargs Hpages Hbatches.
  destruct Hargs as [_ _ _ Hlr Hlc]. unfold check_and_attach. wp_if; [by rewrite wp_throw|]. bool_to_prop.
  cbv zeta. destruct (_ || _) eqn:Halias; [by rewrite wp_throw|]. bool_to_prop.
  unfold root_table_is_empty, context_table_is_empty. rewrite wp_bind, wp_bind. apply wp_slice_to; [lia|]. rewrite wp_ret.
  destruct (forallb _ _) eqn:Hroot; cbn [negb]; [|by rewrite wp_throw].
  rewrite wp_bind, wp_bind. apply wp_slice_to; [lia|]. rewrite wp_ret.
  destruct (forallb _ (take _ (context_table s))) eqn:Hcon; cbn [negb]; [|by rewrite wp_throw].
  rewrite wp_bind, wp_ok_or. destruct (select_address_width _ _) as [enc|]; [|done].
  destruct (Slpt.attach _ _ _ _) as [a|f] eqn:Hat; [|by rewrite wp_throw]. rewrite wp_ret.
  split; [lia|lia|lia| | |eauto]; by apply table_empty_ok.
Qed.

Lemma attach_levels config a : Slpt.attach PAGES mem slpt_root config = Ok a →
  2 <= Slpt.levels a <= 5 ∧ Slpt.root a = slpt_root ∧ PAGES <= MAX 16.
Proof using Hpages Hbatches.
  unfold Slpt.attach. destruct (_ || _) eqn:Hg; [done|]. bool_to_prop.
  destruct (SlptConfig.validate config) as [width|] eqn:Hw; [|done]. destruct (Slpt.attach_loop _ _ _) as [[]|]; [|done].
  intros [= <-]. destruct (config_width _ _ Hw) as (L & HL & _ & Hdiv). simpl. rewrite Hdiv. lia.
Qed.

Lemma requester_indices :
  0 <= PciAddress.bus requester < 256 ∧ 0 <= context_index requester < 256.
Proof using Hargs Hpages Hbatches. destruct Hargs as [[? ?] ? ? _ _]. unfold context_index. lia. Qed.

Lemma install_entries_ok e a :
  checked e a →
  wp (install_entries requester_scope domain_id a s)
    (λ s' _, root_table_physical_address s' = root_table_physical_address s ∧
       context_table_physical_address s' = context_table_physical_address s ∧
       ∃ root context width, only (PciAddress.bus requester) (root_table s') root ∧
         only (context_index requester) (context_table s') context ∧
         root_entry (context_table_physical_address s) = Ok root ∧
         context_entry domain_id width (Slpt.root a) = Ok context)
    (λ p _, snd p = s) ().
Proof using Hargs Hpages Hbatches.
  intros [_ _ _ Hroot Hcon (config & Hat)]. destruct (attach_levels _ _ Hat) as (Hlev & _ & _).
  destruct requester_indices as [Hbus Hctx]. unfold install_entries, Slpt.address_width_encoding.
  rewrite wp_bind. apply wp_sub; [lia|]. destruct (context_entry _ _ _) as [context|f] eqn:Hc; [|by rewrite wp_throw].
  rewrite wp_bind. unfold set_context. rewrite wp_bind. apply wp_store; [rewrite Hcon, length_replicate; lia|]. rewrite wp_ret.
  destruct (root_entry _) as [root|f] eqn:Hr.
  - unfold set_root. rewrite wp_bind. apply wp_store; [simpl; rewrite Hroot, length_replicate; lia|]. rewrite wp_ret.
    split; [done|]. split; [done|]. exists root, context, (Slpt.levels a - 2). simpl. rewrite Hroot, Hcon.
    split_and!; [split_and!; (done || lia)..|done|done].
  - rewrite wp_bind, wp_bind. simpl. apply wp_store; [rewrite length_insert, Hcon, length_replicate; lia|].
    rewrite wp_ret, wp_throw, list_insert_insert_eq, Hcon.
    rewrite (list_insert_id (replicate 256 EMPTY_ENTRY)) by (apply lookup_replicate; split; [done|lia]).
    destruct s. simpl in *. by subst.
Qed.

(** A memory that holds the root table only. *)
Record build_memory : Prop := {
  bm_ok : mem_ok mem;
  bm_frame : frame_ok slpt_root;
  bm_root f : is_Some (SlptLedger.tables mem !! f) ↔ f = slpt_root;
}.

Record built c : Prop := {
  bt_ok : core_ok c;
  bt_settled : settled c;
  bt_idle : idle c;
  bt_scope : scope c = requester_scope;
  bt_engine : engine_state c = VtdEngineState.Enabled ∧ VtdRemappingEngine.owned_root (engine c) = Some (root_table_physical_address (tables c));
  bt_caches : empty_caches (engine c);
  bt_fresh : domain_active c = false ∧ authority_released c = false ∧ poisoned c = false;
}.

Definition returned (f : build_failure (R := R) (Mem := Mem)) : Prop :=
  own_memory f = mem ∧ own_slpt_root f = slpt_root ∧ own_scope f = requester_scope ∧
  if tables_installed f
  then ∃ e, own_engine f = Engine e ∧ VtdRemappingEngine.state e ≠ Disabled ∧ VtdRemappingEngine.state e ≠ VtdEngineState.Enabled
  else own_tables f = s ∧ ∀ e, own_engine f = Engine e → VtdRemappingEngine.state e ≠ VtdEngineState.Enabled.

Lemma enable_failed_state (e : VtdRemappingEngine.t R) root n f e' :
  VtdRemappingEngine.state e = Disabled ∨ VtdRemappingEngine.state e = VtdEngineState.ForeignOwned →
  enable_failed e root n f e' → VtdRemappingEngine.state e' ≠ VtdEngineState.Enabled.
Proof using Hpages Hbatches.
  intros He [(_ & _ & ->)|[(_ & _ & _ & ->)|(_ & _ & Hcase)]]; [by destruct He as [-> | ->]..|].
  destruct He as [He|He]; rewrite He in Hcase; [|destruct Hcase as [-> _]; by rewrite He].
  destruct Hcase as [[(_ & -> & _) _]|[[(_ & -> & _) _]|[(_ & -> & _) _]]]; done.
Qed.

(** The page-table core that [build] attaches, with the enabled engine. *)
Lemma built_pages e a (e' : VtdRemappingEngine.t R) :
  checked e a → build_memory → engine_ok e' → empty_caches e' →
  let w := Slpt.World a mem (EngineInvalidator.mk e' limit None) in
  SlptOps.inv w ∧ ∀ i r, ¬ holds a i r.
Proof using Hpages Hbatches.
  intros [_ _ _ _ _ (config & Hat)] [Hm Hf Hdom] He Hempty w.
  assert (fresh PAGES config slpt_root w) as Hfresh.
  { split; [done|done|done|done|done| |done]. intros v x Hx. exact (Hempty Iotlb v x Hx). }
  destruct (attach_inv _ _ _ _ Hfresh) as (Hinv & _ & _ & Hnone). split; [exact Hinv|done].
Qed.

Lemma built_core e a e' s' root context width :
  checked e a → build_memory → engine_ok e' → empty_caches e' → VtdRemappingEngine.state e' = VtdEngineState.Enabled →
  VtdRemappingEngine.owned_root e' = Some (root_table_physical_address s) →
  root_table_physical_address s' = root_table_physical_address s →
  context_table_physical_address s' = context_table_physical_address s →
  only (PciAddress.bus requester) (root_table s') root → only (context_index requester) (context_table s') context →
  root_entry (context_table_physical_address s) = Ok root → context_entry domain_id width (Slpt.root a) = Ok context →
  built (Core e' mem s' a requester_scope limit 1 false false false false None
           (replicate (Z.to_nat BATCHES) EMPTY) (replicate (Z.to_nat PAGES) PageRecord.Empty)).
Proof using Hpages Hbatches.
  intros Hck Hmem He Hempty Hst Hown Hrp Hcp Hroot Hcon Hr Hc.
  destruct (built_pages _ _ _ Hck Hmem He Hempty) as [Hinv Hnone]. pose proof Hck as [Hlim Hbm _ _ _ (config & Hat)].
  destruct (attach_levels config a Hat) as (_ & _ & Hpm).
  assert (∀ j b, replicate (Z.to_nat BATCHES) EMPTY !! j = Some b → ¬ used b) as Hidle.
  { intros j b [-> _]%lookup_replicate Hu. by apply Hu. }
  split; [split; [split|]|..]; simpl; try done; try (by unfold len; rewrite length_replicate; lia).
  - split; [|intros i r Hr'; by apply Hnone in Hr']. intros k rec h [-> _]%lookup_replicate. done.
  - split; [intros i b Hi Hu; by apply Hidle in Hi|]. intros i j b b' Hi _ Hu. by apply Hidle in Hi.
  - exists root, context. split_and!; [done..|]. simpl. split; [by rewrite Hcp|eauto].
  - by left.
  - intros i b Hi Hu. by apply Hidle in Hi.
  - by rewrite Hrp.
Qed.

Lemma backend_build_ok r :
  build_memory →
  wp (build PAGES BATCHES MAX_BATCH_PAGES requester_scope mem slpt_root domain_id limit r s)
    (λ c _, built c) (λ f _, returned f) ().
Proof using Hargs Hpages Hbatches.
  intros Hmem. unfold build. pose proof (probe_ok (VtdRequesterScope.unit requester_scope) r) as Hprobe.
  unfold wp at 1 in Hprobe. destruct (VtdRemappingEngine.probe _ r) as [e r'|f r'|]; [|by rewrite wp_throw|done].
  destruct Hprobe as (He & _ & _ & Hst & _). assert (VtdRemappingEngine.state e ≠ VtdEngineState.Enabled) as Hne
    by (by destruct Hst as [-> | ->]).
  assert (∀ f a, returned (BuildFailure f (Engine e) mem s a slpt_root requester_scope false)) as Hfail
    by (intros f a; do 4 (split; [done|]); by intros x [= <-]).
  cbv zeta. rewrite wp_bind, wp_map_err. eapply wp_mono; [apply (check_and_attach_ok e)| |by intros f [] _].
  intros a [] Hck. rewrite wp_bind, wp_map_err. eapply wp_mono; [by apply (install_entries_ok e a)| |intros [f t] [] Ht; simpl in Ht; by subst t].
  intros s' [] (Hrp & Hcp & root & context & width & Hroot & Hcon & Hre & Hce).
  pose proof (enable_ok e (root_table_physical_address s) limit He) as Hen. unfold wp at 1 in Hen.
  destruct (VtdRemappingEngine.enable _ limit e) as [receipt e'|f e'|]; [| |done].
  - destruct Hen as (_ & Hval & _ & (Hkin & Hst' & Hown) & Hempty & _). rewrite wp_ret.
    eapply built_core; try done. eapply kin_ok; [done..|]. rewrite Hst', Hown. simpl. eauto.
  - pose proof (enable_failed_state _ _ _ _ _ Hst Hen) as Hne'. case_bool_decide as Hd; rewrite wp_bind.
    + eapply clear_ok; [exact Hroot|exact Hcon|]. intros s2 Hrp2 Hcp2 Hr2 Hc2. rewrite wp_throw.
      do 3 (split; [done|]). simpl. split; [|by intros x [= <-]].
      apply only_empty in Hr2, Hc2. destruct Hck as [_ _ _ Hr0 Hc0 _]. destruct s, s2. simpl in *. congruence.
    + rewrite wp_ret, wp_throw. do 3 (split; [done|]). by exists e'.
Qed.
End build.
End domain.
