(* ===== verification/VtdBackendRuns.v ===== *)
(** * Histories of the VT-d backend

    A run interleaves the trait calls of the backend with the hardware filling
    its translation cache from the tables and with other users of the allocator
    under the table memory.  Every state that a built backend can reach satisfies
    the invariant of [VtdBackendOps] and is settled; this file derives from it
    what the device reaches. *)
From S2P Require Import Prelude Paging Acpi Slpt SlptTree SlptLedger SlptPath SlptOps SlptRuns SlptCalls.
From S2P Require Import VtdMemory VtdTables SlptProperties VtdEngine VtdEngineFacts VtdScope Iova XhciDma Iommu.
From S2P Require Import VtdBackend VtdBackendFacts VtdBackendOps VtdBackendSpans VtdBackendDomain.
Import BatchSlot VtdDmaBackend.

Module VtdBackendRuns.
Section runs.
Context {R Mem : Type} {HB : VtdRegisterBackend R} {HU : VtdUnitLaws R}
  {HM : SlptPageMemory Mem} {HML : SlptMemoryLaws Mem}.
Context (PAGES BATCHES MAX_BATCH_PAGES : Z).
#[local] Abbreviation core := (VtdDmaBackend.core (R := R) (Mem := Mem)).
#[local] Abbreviation core_ok := (core_ok PAGES BATCHES).
#[local] Abbreviation sane := (sane PAGES BATCHES).
#[local] Abbreviation settled := (settled (R := R) (Mem := Mem)).
Implicit Types (c : core).

(** ** Calls and steps *)

Inductive call :=
| IsolateDevice (device : PciAddress.t)
| MapSpan (domain device physical length : Z) (access : DmaAccess.t)
| UnmapSpan (domain device length : Z)
| ReleaseDomain (domain : Z).

(** Arguments in the range of their Rust types. *)
Definition call_ok (k : call) : Prop :=
  match k with
  | MapSpan _ device physical length _ => u64 device ∧ u64 physical ∧ u64 length
  | _ => True
  end.

(** The handle of a new domain, or a status. *)
Definition run (k : call) : M core Empty_set (Z + Z) :=
  match k with
  | IsolateDevice device =>
    answer ← attempt (isolate device);
    mret (match answer with Ok handle => inl handle | Err status => inr status end)
  | MapSpan domain device physical length access =>
    status ← map_span PAGES MAX_BATCH_PAGES domain device physical length access; mret (inr status)
  | UnmapSpan domain device length => status ← unmap_span domain device length; mret (inr status)
  | ReleaseDomain domain => status ← release BATCHES domain; mret (inr status)
  end.

Definition with_memory (m : Mem) c : core :=
  Core (engine c) m (tables c) (slpt c) (scope c) (poll_limit c) (domain_generation c) (domain_active c)
    (domain_retired c) (authority_released c) (poisoned c) (last_engine_fault c) (batches c) (page_records c).

(** What happens between calls. *)
Inductive drift c : core → Prop :=
| drift_fill r :
    extended r = extended (VtdRemappingEngine.registers (engine c)) →
    (∀ v e, stored r Iotlb v e →
       stored (VtdRemappingEngine.registers (engine c)) Iotlb v e ∨
       iova_ok (slpt c) v ∧ translate (pages c) v = Some e) →
    drift c (with_engine (VtdRemappingEngine.with_registers r (engine c)) c)
| drift_other m : mem_ok m → SlptLedger.tables m = SlptLedger.tables (memory c) → drift c (with_memory m c).

Inductive step c : core → Prop :=
| step_call k o c' : call_ok k → run k c = Done o c' → step c c'
| step_drift c' : drift c c' → step c c'.

(** A backend just built. *)
Definition launched c : Prop :=
  ∃ scope mem root domain_id limit s r,
    build_args scope s ∧ build_memory mem root ∧ 0 <= PAGES ∧ 0 <= BATCHES ∧
    build PAGES BATCHES MAX_BATCH_PAGES scope mem root domain_id limit r s () = Done c ().

(** ** The invariant of runs *)

Definition good c : Prop := core_ok c ∧ settled c.

Lemma settled_same c c' : batches c' = batches c → page_records c' = page_records c → settled c → settled c'.
Proof. intros Hb Hp Hs i b. rewrite Hb, Hp. apply Hs. Qed.

Lemma sane_redrawn c c' :
  sane c → SlptOps.inv (pages c') → slpt c' = slpt c → page_records c' = page_records c → batches c' = batches c →
  poll_limit c' = poll_limit c → tables c' = tables c → scope c' = scope c → authority_released c' = authority_released c →
  sane c'.
Proof.
  intros [_ H2 H3 H4 H5 H6 H7 H8] Hinv Ha Hp Hb Hl Ht Hsc Hr. split; rewrite ?Ha, ?Hp, ?Hb, ?Hl; try done.
  unfold tables_ok in *. by rewrite Ht, Hsc, Hr, Ha.
Qed.

Lemma drift_pages c c' : core_ok c → drift c c' → SlptRuns.step (pages c) (pages c').
Proof.
  intros [Hs _] [r Hx Hfill|m Hm Ht].
  - apply step_fill; [done|done| |exact Hfill]. pose proof (engine_of_sane PAGES BATCHES c Hs) as [H1 H2 H3].
    split; simpl; [done|by rewrite Hx|done].
  - by apply step_other.
Qed.

Lemma drift_good c c' : good c → drift c c' → good c'.
Proof.
  intros [Hc Hset] Hd. pose proof (drift_pages c c' Hc Hd) as Hst. destruct Hc as [Hs Hk].
  pose proof (step_inv _ _ (ck_pages _ _ _ Hs) Hst) as Hinv.
  destruct Hd; (split; [|by eapply settled_same]); (split; [by eapply sane_redrawn|exact Hk]).
Qed.

Lemma run_good c k : good c → call_ok k → wp (run k) (λ _, good) (λ _ _, False) c.
Proof.
  intros [Hc Hset] Hk. destruct k as [device|domain device physical length access|domain device length|domain];
    simpl in *; rewrite wp_bind.
  - rewrite wp_attempt. eapply wp_mono; [by apply (isolate_ok PAGES BATCHES)| |].
    + intros h c' (_ & _ & _ & _ & _ & _ & _ & Hc' & Hset'). rewrite wp_ret. by split.
    + intros status c' ->. rewrite wp_ret. by split.
  - destruct Hk as (Hd & Hp & [Hl _]). eapply wp_mono; [by apply (map_span_ok PAGES BATCHES) with (P := λ _ _, False)| |done].
    intros status c' [(-> & _)|(i & ps & b0 & _ & _ & _ & Hss)]; rewrite wp_ret; [by split|].
    destruct Hss. by split.
  - eapply wp_mono; [by apply (unmap_span_ok PAGES BATCHES) with (P := λ _ _, False)| |done].
    intros status c' [(_ & -> & _)|(i & b & o & _ & _ & _ & Hc' & Hset' & _)]; rewrite wp_ret; by split.
  - eapply wp_mono; [by apply (backend_release_ok PAGES BATCHES) with (P := λ _ _, False)| |done].
    intros status c' [(_ & _ & ->)|[(_ & _ & Hc' & Hset' & _)|(_ & _ & Hrel & _)]]; rewrite wp_ret; [by split|by split|].
    destruct Hrel as [Hc' Hidle _ _ _ _ _ _ _]. split; [done|]. intros i b Hi Hu. by destruct (Hidle i b Hi).
Qed.

Lemma step_good c c' : step c c' → good c → good c'.
Proof.
  intros [k o c1 Hk Hrun|c1 Hd] Hg; [|by eapply drift_good].
  exact (wp_Done _ _ _ _ _ _ (run_good c k Hg Hk) Hrun).
Qed.

Lemma launched_built c : launched c → ∃ scope, built PAGES BATCHES scope c.
Proof.
  intros (sc & mem & root & id & limit & s & r & Ha & Hm & HP & HBt & Hrun). exists sc.
  exact (wp_Done _ _ _ _ _ _
    (backend_build_ok PAGES BATCHES MAX_BATCH_PAGES sc mem root id limit s Ha HP HBt r Hm) Hrun).
Qed.
Lemma launched_good c : launched c → good c.
Proof. intros [sc [Hc Hset _ _ _ _ _]]%launched_built. by split. Qed.
Lemma history_good c c' : good c → rtc step c c' → good c'.
Proof. intros Hg Hr. revert Hg. apply (rtc_invariant step good); [|done]. intros x y Hs Hx. by eapply step_good. Qed.
Lemma run_reaches_good c0 c : launched c0 → rtc step c0 c → good c.
Proof. intros Hl. by apply history_good, launched_good. Qed.

(** ** What the device reaches *)

Definition in_span (base length x : Z) : Prop := base <= x < base + length.

(** The page at [v] translates to the entry [e]. *)
Definition translates c (v e : Z) : Prop := iova_ok (slpt c) v ∧ translate (pages c) v = Some e.
(** Page [n] of the batch leads from [v] to [pa]. *)
Definition page_of (b : BatchSlot.t) (n v pa : Z) : Prop :=
  0 <= n < page_count b ∧ v = device_address b + Paging.PAGE_SIZE * n ∧ pa = physical_address b + Paging.PAGE_SIZE * n.

Lemma translates_maps c v e : good c → translates c v e ↔ maps (slpt c) v e.
Proof.
  intros [[Hs _] _]. pose proof (ck_pages _ _ _ Hs) as Hinv. split.
  - intros [Hv Ht]. by apply (translate_ok (pages c)) in Ht.
  - intros Hm. pose proof Hm as (i & r & Hr & _ & <- & _).
    assert (iova_ok (slpt c) (MappingRecord.iova r)) as Hv.
    { destruct Hinv as (n & leaves & [_ _ _ Hl] & _). apply (lg_record _ _ _ Hl _ _ Hr). }
    split; [done|]. by apply (translate_ok (pages c)).
Qed.

Lemma place_page bs k v pa : place bs k v pa → ∃ j b n, bs !! j = Some b ∧ used b ∧ page_of b n v pa.
Proof.
  intros (j & b & Hj & Hu & Hk & -> & ->). exists j, b, (Z.of_nat k - page_start b). split_and!; [done..|].
  unfold covers in Hk. split; [lia|done].
Qed.

Lemma record_placed c i r :
  sane c → holds (slpt c) i r → ∃ k, place (batches c) k (MappingRecord.iova r) (MappingRecord.physical_address r).
Proof.
  intros Hs Hr. destruct (tr_all _ _ _ (ck_tracks _ _ _ Hs) i r Hr) as (k & rec & h & s & Hk & Hh & Hn).
  destruct (tr_named _ _ _ (ck_tracks _ _ _ Hs) k rec h Hk Hh) as (j & s' & r' & Hn' & Hp & _). exists k.
  destruct Hn as (Hi & Hs1 & _ & Hr1), Hn' as (Hj & Hs2 & _ & Hr2). assert (j = i) as -> by lia.
  rewrite Hs1 in Hs2. injection Hs2 as <-. rewrite Hr1 in Hr2. by injection Hr2 as <-.
Qed.

(** Whatever the device reaches is a page of a batch in use. *)
Lemma reach_page c v e :
  good c → reaches (pages c) v e →
  ∃ j b n, batches c !! j = Some b ∧ used b ∧ page_of b n v (Z.land e PHYSICAL_PAGE_MASK).
Proof.
  intros [[Hs _] _] Hre. destruct (reaches_record _ v e (ck_pages _ _ _ Hs) Hre) as (i & r & Hr & <- & _ & ->).
  destruct (record_placed c i r Hs Hr) as [k Hk]. by eapply place_page.
Qed.

Lemma page_in_span b n v pa :
  batch_ok PAGES b → page_of b n v pa →
  in_span (device_address b) (length b) v ∧ in_span (physical_address b) (length b) pa.
Proof.
  intros [_ _ _ Hl _ _] (Hn & -> & ->). unfold in_span. rewrite Hl. unfold Paging.PAGE_SIZE. lia.
Qed.

Lemma idle_unreached c v e : good c → idle c → ¬ reaches (pages c) v e.
Proof. intros Hg Hi Hre. destruct (reach_page c v e Hg Hre) as (j & b & n & Hj & Hu & _). by destruct (Hi j b Hj). Qed.

(** *** After a call *)

Lemma keeps_translates c c' v e :
  good c → good c' → keeps_all c (slpt c') → translates c v e → translates c' v e.
Proof. intros Hg Hg' Hk. rewrite !translates_maps by done. by apply maps_kept. Qed.

Lemma place_batch bs j b k v pa n :
  layout PAGES bs → bs !! j = Some b → used b → covers b k → place bs k v pa →
  n = Z.of_nat k - page_start b → page_of b n v pa.
Proof.
  intros Hl Hj Hu Hk (i & x & Hi & Hx & Hxk & -> & ->) ->. assert (i = j) as -> by (by eapply (batch_covers_apart PAGES bs)).
  simplify_eq. unfold covers in Hk. split; [lia|done].
Qed.

(** A withdrawal of batch [b] keeps what lies outside its span. *)
Lemma kept_translates c c' j b v e :
  good c → good c' → batches c !! j = Some b → used b → kept c (covers b) (slpt c') →
  ¬ in_span (device_address b) (length b) v → translates c v e → translates c' v e.
Proof.
  intros Hg Hg' Hj Hu Hk Hout. rewrite !translates_maps by done. intros (i & r & Hr & Hl & <- & He).
  pose proof (ck_layout _ _ _ (proj1 (proj1 Hg))) as Hlay.
  exists i, r. split_and!; [|done..]. apply Hk; [done|]. intros k Hcov Hp. apply Hout.
  pose proof (place_batch _ _ _ _ _ _ _ Hlay Hj Hu Hcov Hp eq_refl) as Hpg.
  by apply (page_in_span b) in Hpg as [? _]; [|by eapply lay_ok].
Qed.

(** The bits of a valid access are the permissions it stands for. *)
Lemma access_bits access :
  u8 access → access ≠ 0 → Z.land access (bitnot 8 DmaAccess.READ_WRITE) = 0 →
  DmaPermissions.bits (permissions_of access) = Ok access.
Proof.
  intros [H0 H1] Hne Hb. assert (access = Z.land access 3) as Heq.
  { change (bitnot 8 DmaAccess.READ_WRITE) with 252 in Hb.
    assert (Z.land access 255 = access) as Ha by (change 255 with (Z.ones 8); rewrite Z.land_ones by lia; apply Z.mod_small; lia).
    rewrite <-Ha at 1. change 255 with (Z.lor 252 3). by rewrite Z.land_lor_distr_r, Hb. }
  assert (0 <= Z.land access 3 < 4) as Hr
    by (change 3 with (Z.ones 2); rewrite Z.land_ones by lia; apply Z.mod_pos_bound; lia).
  assert (access = 1 ∨ access = 2 ∨ access = 3) as [-> |[-> | ->]] by lia; done.
Qed.

(** ** The end of a backend *)

(** Its authority is given up and no batch is in use. *)
Definition ended c : Prop := authority_released c = true ∧ idle c.

Lemma released_domain c domain : authority_released c = true → valid_domain c domain = false.
Proof. intros Hr. unfold valid_domain. by rewrite Hr, andb_false_r. Qed.

Lemma run_ended c k : good c → call_ok k → ended c → wp (run k) (λ o c', c' = c ∧ o ≠ inr STATUS_OK ∧ ∀ h, o ≠ inl h) (λ _ _, False) c.
Proof.
  intros [Hc Hset] Hk [Hr _]. destruct k as [device|domain device physical length access|domain device length|domain];
    simpl in *; rewrite wp_bind.
  - rewrite wp_attempt. unfold isolate. rewrite wp_bind, wp_get, Hr, orb_true_r.
    destruct (negb _); rewrite wp_throw, wp_ret; done.
  - unfold map_span. rewrite wp_bind, wp_get, released_domain by done. cbn [negb]. by rewrite wp_ret, wp_ret.
  - unfold unmap_span. rewrite wp_bind, wp_get, released_domain by done. cbn [negb]. by rewrite wp_ret, wp_ret.
  - unfold release. rewrite wp_bind, wp_get, released_domain by done. cbn [negb]. by rewrite wp_ret, wp_ret.
Qed.

Lemma ended_refuses c k : good c → call_ok k → ended c → ∃ status, status ≠ STATUS_OK ∧ run k c = Done (inr status) c.
Proof.
  intros Hg Hk He. pose proof (run_ended c k Hg Hk He) as Hwp. unfold wp in Hwp. destruct (run k c) as [[h|status] x|[]|]; [| |done].
  - destruct Hwp as (_ & _ & Hno). by destruct (Hno h).
  - destruct Hwp as (-> & Hne & _). exists status. split; [congruence|done].
Qed.

Lemma ended_forever c c' : good c → ended c → rtc step c c' → 
  good c' ∧ ended c' ∧ tables c' = tables c ∧
  VtdRemappingEngine.state (engine c') = VtdRemappingEngine.state (engine c).
Proof.
  intros Hg He Hr. apply (rtc_invariant step (λ x, good x ∧ ended x ∧ tables x = tables c ∧
    VtdRemappingEngine.state (engine x) = VtdRemappingEngine.state (engine c)) c c'); [|done|done].
  intros x y Hs (Hx & Hex & Ht & Hst). split; [by eapply step_good|]. destruct Hs as [k o y Hk Hrun|y Hd].
  - destruct (wp_Done _ _ _ _ _ _ (run_ended x k Hx Hk Hex) Hrun) as (-> & _). done.
  - by destruct Hd.
Qed.

(** ** The requester's entries *)

Lemma only_other (i : Z) l e (j : nat) x : only i l e → l !! j = Some x → Z.of_nat j ≠ i → x = EMPTY_ENTRY.
Proof.
  intros (H0 & -> & H1) Hj Hne. rewrite list_lookup_insert_ne in Hj by lia. by apply lookup_replicate in Hj as [-> _].
Qed.

Lemma scope_step c z : good c → step c z → scope z = scope c.
Proof.
  intros [Hc Hset] [k o c1 Hk Hrun|c1 Hd]; [|by destruct Hd].
  assert (wp (run k) (λ _ c', scope c' = scope c) (λ _ _, False) c) as Hwp; [|exact (wp_Done _ _ _ _ _ _ Hwp Hrun)].
  destruct k as [device|domain device physical length access|domain device length|domain]; simpl in *; rewrite wp_bind.
  - rewrite wp_attempt. eapply wp_mono; [by apply (isolate_ok PAGES BATCHES)| |by intros ? ? ->; rewrite wp_ret].
    intros h c' (_ & _ & _ & _ & _ & _ & -> & _). by rewrite wp_ret.
  - destruct Hk as (Hd & Hp & [Hl _]). eapply wp_mono; [by apply (map_span_ok PAGES BATCHES) with (P := λ _ _, False)| |done].
    intros status c' [(-> & _)|(i & ps & b0 & _ & _ & _ & [_ _ Hst _ _])]; rewrite wp_ret; [done|apply Hst].
  - eapply wp_mono; [by apply (unmap_span_ok PAGES BATCHES) with (P := λ _ _, False)| |done].
    intros status c' [(_ & -> & _)|(i & b & o' & _ & _ & _ & _ & _ & Hst & _)]; rewrite wp_ret; [done|apply Hst].
  - eapply wp_mono; [by apply (backend_release_ok PAGES BATCHES) with (P := λ _ _, False)| |done].
    intros status c' [(_ & _ & ->)|[(_ & _ & _ & _ & _ & _ & _ & Hsc & _)|(_ & _ & _ & Hsc)]]; by rewrite wp_ret.
Qed.
End runs.
End VtdBackendRuns.
