(* ===== verification/VtdBackendProperties.v ===== *)
(** * What the VT-d backend guarantees

    The theorems about [VtdDmaBackend] over every history of a built backend,
    for any unit and any table memory that keep their laws; and the machine on
    which they apply: the unit of [VtdEngineProperties] with the direct-map
    memory of [VtdProperties]. *)
From S2P Require Import Prelude Paging Acpi Slpt SlptTree SlptLedger SlptPath SlptOps SlptRuns SlptCalls.
From S2P Require Import VtdMemory VtdTables SlptProperties VtdProperties VtdEngine VtdEngineFacts.
From S2P Require Import VtdEngineProperties VtdScope Iova XhciDma Iommu VtdBackend VtdBackendFacts.
From S2P Require Import VtdBackendOps VtdBackendSpans VtdBackendDomain VtdBackendRuns.
Import BatchSlot VtdDmaBackend.

Module VtdBackendClaims.
Import VtdBackendRuns.

Section claims.
Context {R Mem : Type} {HB : VtdRegisterBackend R} {HU : VtdUnitLaws R}
  {HM : SlptPageMemory Mem} {HML : SlptMemoryLaws Mem}.
Context (PAGES BATCHES MAX_BATCH_PAGES : Z).
#[local] Abbreviation core := (VtdDmaBackend.core (R := R) (Mem := Mem)).
#[local] Abbreviation step := (VtdBackendRuns.step PAGES BATCHES MAX_BATCH_PAGES).
#[local] Abbreviation launched := (VtdBackendRuns.launched PAGES BATCHES MAX_BATCH_PAGES).
#[local] Abbreviation good := (VtdBackendRuns.good PAGES BATCHES).
Implicit Types (c : core).

(** C3: In every state that a built backend reaches, whatever the device reaches,
    through the tables or through a cached translation, is a page of a batch in
    use, at that batch's physical page; two batches in use share neither a device
    address nor a physical address; and of the root and context table only the
    entries of the one requester are present. *)
Theorem vtd_reach_confined c0 c :
  launched c0 → rtc step c0 c →
  (∀ v e, reaches (pages c) v e →
     ∃ j b n, batches c !! j = Some b ∧ used b ∧ page_of b n v (Z.land e PHYSICAL_PAGE_MASK)) ∧
  (∀ i j b b', batches c !! i = Some b → batches c !! j = Some b' → used b → used b' → i ≠ j →
     apart (device_address b) (length b) (device_address b') (length b') ∧
     apart (physical_address b) (length b) (physical_address b') (length b')) ∧
  let requester := VtdRequesterScope.requester (scope c0) in
  (∀ (i : nat) x, root_table (tables c) !! i = Some x → Z.of_nat i ≠ PciAddress.bus requester → x = EMPTY_ENTRY) ∧
  (∀ (i : nat) x, context_table (tables c) !! i = Some x → Z.of_nat i ≠ context_index requester → x = EMPTY_ENTRY).
Proof.
  intros Hl Hr. pose proof (run_reaches_good _ _ _ _ _ Hl Hr) as Hg. pose proof Hg as [[Hs _] _].
  assert (scope c = scope c0) as Hsc.
  { apply (rtc_invariant step (λ x, good x ∧ scope x = scope c0) c0 c); [|done|by split; [exact (launched_good _ _ _ _ Hl)|]].
    intros x y Hst [Hx Hxs]. split; [exact (step_good _ _ _ _ _ Hst Hx)|]. rewrite <-Hxs. exact (scope_step _ _ _ _ _ Hx Hst). }
  split; [intros v e; by eapply reach_page|]. split.
  - intros i j b b' Hi Hj Hu Hu' Hne. apply (lay_apart _ _ (ck_layout _ _ _ Hs) i j b b' Hi Hj Hu Hu' Hne).
  - cbv zeta. rewrite <-Hsc. destruct (ck_tables _ _ _ Hs) as (root & context & Hroot & Hcon & _).
    split; intros i x Hi Hne; [by apply (only_other _ _ _ _ _ Hroot Hi)|by apply (only_other _ _ _ _ _ Hcon Hi)].
Qed.

(** C12: [map] always returns and keeps every translation.  When it reports
    success, every page of the span translates to its physical page with exactly
    the access asked for.  When it does not, either nothing is left of the span
    or its batch is quarantined. *)
Theorem vtd_map_decided c0 c domain device physical len access :
  launched c0 → rtc step c0 c → u64 device → u64 physical → u64 len → u8 access →
  match map_span (E := Empty_set) PAGES MAX_BATCH_PAGES domain device physical len access c with
  | Done status c' =>
    (∀ v e, translates c v e → translates c' v e) ∧
    (status = STATUS_OK → len mod Paging.PAGE_SIZE = 0 ∧
       ∀ n, 0 <= n < len / Paging.PAGE_SIZE →
         translates c' (device + Paging.PAGE_SIZE * n) (Z.lor (physical + Paging.PAGE_SIZE * n) access)) ∧
    (status ≠ STATUS_OK → ∀ j b, batches c' !! j = Some b → used b →
       batches c !! j = Some b ∨
       phase b = BatchPhase.Quarantined ∧ device_address b = device ∧ physical_address b = physical ∧ length b = len)
  | _ => False
  end.
Proof.
  intros Hl Hr Hd Hp [Hlen _] Ha. pose proof (run_reaches_good _ _ _ _ _ Hl Hr) as Hg. pose proof Hg as [Hc Hset].
  pose proof (map_span_ok PAGES BATCHES MAX_BATCH_PAGES c domain device physical len access (λ _ _, False) Hc Hset Hd Hp Hlen) as Hwp.
  unfold wp in Hwp. destruct (map_span _ _ _ _ _ _ _ c) as [status c'|[]|]; [|done].
  destruct Hwp as [(-> & _ & Hst)|(i & ps & b0 & Hgd & Hi & Hsg & [Hok' Hset' Hst' Hkept Hb])].
  { split; [done|]. split; [done|]. intros _ j b Hj Hu. by left. }
  assert (good c') as Hg' by done. split; [intros v e; by eapply keeps_translates|].
  destruct (map_guard_stageable _ _ _ _ _ _ _ _ _ _ _ Hc Hset Hd Hp Hlen Hgd) as (_ & _ & [[Hl1 Hl2] _ _ [Ha1 Ha2]] & _).
  pose proof (lookup_lt_Some _ _ _ Hi) as Hlt. split.
  - intros ->. destruct Hb as [(_ & _ & Hpages)|[? _]]; [|done]. split; [rewrite Hl1; apply Z_mod_mult|].
    intros n Hn. destruct (Hpages n Hn) as (bits & Hbits & Hm). rewrite access_bits in Hbits by done. injection Hbits as <-.
    by apply (translates_maps PAGES BATCHES).
  - intros Hne j b Hj Hu. destruct Hb as [[? _]|[_ [Hb|Hb]]]; [done| |]; rewrite Hb in Hj; (destruct (decide (i = j)) as [<-|];
      [rewrite list_lookup_insert_eq in Hj by done; simplify_eq|rewrite list_lookup_insert_ne in Hj by done; by left]).
    + by apply retired_unused in Hu.
    + by right.
Qed.

(** C4: [unmap] always returns and keeps every translation outside its span.
    Once it has reported success, the device reaches no address of the span, and
    by no address a physical page that the span led to. *)
Theorem vtd_unmap_revokes c0 c domain device len :
  launched c0 → rtc step c0 c →
  match unmap_span (E := Empty_set) domain device len c with
  | Done status c' =>
    (∀ v e, ¬ in_span device len v → translates c v e → translates c' v e) ∧
    (status = STATUS_OK → ∃ j b, batches c !! j = Some b ∧ used b ∧ device_address b = device ∧ length b = len ∧
       ∀ v e, reaches (pages c') v e →
         ¬ in_span device len v ∧ ¬ in_span (physical_address b) len (Z.land e PHYSICAL_PAGE_MASK))
  | _ => False
  end.
Proof.
  intros Hl Hr. pose proof (run_reaches_good _ _ _ _ _ Hl Hr) as Hg. pose proof Hg as [Hc Hset].
  pose proof (unmap_span_ok PAGES BATCHES c domain device len (λ _ _, False) Hc Hset) as Hwp.
  unfold wp in Hwp. destruct (unmap_span _ _ _ c) as [status c'|[]|]; [|done].
  destruct Hwp as [(_ & -> & ->)|(i & b & o & _ & Hi & Hn & Hc' & Hset' & _ & Hk & Hb & Hst)]; [done|].
  unfold names_span, is_phase in Hn. bool_to_prop.
  match goal with H : bool_decide _ = false |- _ => apply bool_decide_eq_false in H as Hu end. subst device len.
  assert (good c') as Hg' by done. split; [intros v e Hout; by eapply kept_translates|].
  intros ->. exists i, b. split_and!; [done..|]. intros v e Hre.
  destruct (reach_page _ _ c' v e Hg' Hre) as (j & x & n & Hj & Hx & Hpg).
  destruct o as [[]|]; [|done|done]. rewrite Hb in Hj. pose proof (lookup_lt_Some _ _ _ Hi) as Hlt.
  destruct (decide (i = j)) as [<-|Hne].
  { rewrite list_lookup_insert_eq in Hj by done. simplify_eq. by apply retired_unused in Hx. }
  rewrite list_lookup_insert_ne in Hj by done. pose proof (ck_layout _ _ _ (proj1 Hc)) as Hlay.
  destruct (lay_apart _ _ Hlay i j b x Hi Hj Hu Hx Hne) as (_ & Hd & Hp).
  apply (page_in_span PAGES) in Hpg as [Hin1 Hin2]; [|by eapply lay_ok]. unfold apart, in_span in *. lia.
Qed.

(** Once [release_domain] has reported success, the unit has confirmed that it
    translates no more, and then whatever happens later the engine is disabled,
    no translation is left in tables or caches, root and context table are empty,
    and the backend refuses every call.  From then on the unit does not confine
    the device. *)
Theorem vtd_release_final c0 c domain c' c'' k :
  launched c0 → rtc step c0 c → release (E := Empty_set) BATCHES domain c = Done STATUS_OK c' → rtc step c' c'' →
  call_ok k →
  ¬ translating (VtdRemappingEngine.registers (engine c')) ∧
  VtdRemappingEngine.state (engine c'') = VtdEngineState.Disabled ∧ (∀ v e, ¬ reaches (pages c'') v e) ∧
  root_table (tables c'') = replicate 256 EMPTY_ENTRY ∧ context_table (tables c'') = replicate 256 EMPTY_ENTRY ∧
  ∃ status, status ≠ STATUS_OK ∧ run PAGES BATCHES MAX_BATCH_PAGES k c'' = Done (inr status) c''.
Proof.
  intros Hl Hr Hrel Hr' Hk. pose proof (run_reaches_good _ _ _ _ _ Hl Hr) as Hg. pose proof Hg as [Hc Hset].
  apply (wp_Done _ _ _ _ _ _ (backend_release_ok PAGES BATCHES c domain (λ _ _, False) Hc Hset)) in Hrel
    as [(? & _)|[(? & _)|(_ & _ & [Hc' Hidle Hre _ Hen _ Hroot Hoff Ht] & _)]]; [done..|].
  assert (good c') as Hg' by (split; [done|]; intros i b Hi Hu; by destruct (Hidle i b Hi)).
  destruct (ended_forever _ _ _ c' c'' Hg' (conj Hre Hidle) Hr') as (Hg2 & He2 & Ht2 & Hst2). rewrite Ht2, Hst2.
  split; [exact Hoff|]. split; [exact Hen|].
  split; [intros v e; eapply idle_unreached; [done|apply He2]|]. split; [apply Ht|]. split; [apply Ht|].
  by apply (ended_refuses PAGES BATCHES).
Qed.

(** C20: [build] always returns.  A backend comes with an engine that is enabled
    on its root table, with one requester's entries, and with nothing that the
    device could reach.  A failure gives back the memory, the scope and the
    tables; either the tables are as they were, and the engine if there is one
    is not enabled, or the failure says that they are installed and comes with a
    poisoned or foreign engine. *)
Theorem vtd_build_decided requester_scope mem slpt_root domain_id limit r s :
  build_args requester_scope s → build_memory mem slpt_root → 0 <= PAGES → 0 <= BATCHES →
  match build PAGES BATCHES MAX_BATCH_PAGES requester_scope mem slpt_root domain_id limit r s () with
  | Done c _ =>
    scope c = requester_scope ∧ VtdRemappingEngine.state (engine c) = VtdEngineState.Enabled ∧
    VtdRemappingEngine.owned_root (engine c) = Some (root_table_physical_address (tables c)) ∧
    ∀ v e, ¬ reaches (pages c) v e
  | Fail f _ =>
    own_memory f = mem ∧ own_slpt_root f = slpt_root ∧ own_scope f = requester_scope ∧
    if tables_installed f
    then ∃ e, own_engine f = Engine e ∧ VtdRemappingEngine.state e ≠ VtdEngineState.Disabled ∧
              VtdRemappingEngine.state e ≠ VtdEngineState.Enabled
    else own_tables f = s ∧ ∀ e, own_engine f = Engine e → VtdRemappingEngine.state e ≠ VtdEngineState.Enabled
  | Panic => False
  end.
Proof.
  intros Ha Hm HP HBt. pose proof (backend_build_ok PAGES BATCHES MAX_BATCH_PAGES requester_scope mem slpt_root domain_id limit s Ha HP HBt r Hm) as Hwp.
  unfold wp in Hwp. destruct (build _ _ _ _ _ _ _ _ _ _ ()) as [c []|f []|]; [|exact Hwp|done].
  destruct Hwp as [Hc Hset Hidle Hsc [Hst Hown] _ _]. split_and!; [done..|]. intros v e. by apply (idle_unreached PAGES BATCHES).
Qed.
End claims.
End VtdBackendClaims.

(** ** A machine on which they apply *)

Module VtdBackendMachine.
Import VtdBackendRuns VtdMachine VtdEngineWitnesses.

Abbreviation mcore := (VtdDmaBackend.core (R := RegisterUnit.t) (Mem := DirectMapSlptMemory.t)).

Definition requester0 : PciAddress.t := PciAddress.mk 0 2 0.
Definition scope0 : VtdRequesterScope.t := VtdRequesterScope.Explicit (Scope unit0 requester0).
Definition storage0 : storage :=
  Storage (replicate 256 EMPTY_ENTRY) 0x5000 (replicate 256 EMPTY_ENTRY) 0x6000.
Definition built0 (patience : nat) : outcome () build_failure mcore :=
  build 4 2 2 scope0 memory0 root_frame 1 4 (RegisterUnit.blank patience) storage0 ().
(** The backend that was built, and the engine of one that was not. *)
Definition launch (patience : nat) : mcore :=
  match built0 patience return mcore with
  | Done c _ => c
  | _ => Core (engine0 patience) memory0 storage0 VtdMachine.core scope0 0 0 false false false false None [] []
  end.

Lemma args0 : build_args scope0 storage0.
Proof. by split. Qed.
Lemma build_memory0 : build_memory memory0 root_frame.
Proof.
  destruct memory0_ok as [Hok [l HT]]. split; [exact Hok|split; [done|vm_compute; reflexivity]|].
  intros f. change (SlptLedger.tables memory0) with (DirectMapFacts.tables memory0). rewrite HT. split.
  - by intros [x [? _]%lookup_singleton_Some].
  - intros ->. exists l. apply lookup_singleton_eq.
Qed.

Definition is_done {S E A} (o : outcome S E A) : bool := match o with Done _ _ => true | _ => false end.
Lemma launch_built n : is_done (built0 n) = true → launched 4 2 2 (launch n).
Proof.
  intros Hd. exists scope0, memory0, root_frame, 1, 4, storage0, (RegisterUnit.blank n).
  split; [exact args0|]. split; [exact build_memory0|]. split; [done|]. split; [done|].
  unfold launch. fold (built0 n). by destruct (built0 n) as [c []|f x|].
Qed.
Lemma launched0 : launched 4 2 2 (launch 99).
Proof. apply launch_built. vm_compute. reflexivity. Qed.

(** Calls one after another. *)
Fixpoint after (l : list call) (c : mcore) : mcore :=
  match l with
  | [] => c
  | k :: l' => after l' (match run 4 2 2 k c with Done _ c' => c' | _ => c end)
  end.
Lemma calls_after_steps l c : Forall call_ok l → rtc (step 4 2 2) c (after l c).
Proof.
  revert c. induction l as [|k l IH]; intros c Hl; [done|]. apply Forall_cons in Hl as [Hk Hl]. simpl.
  destruct (run 4 2 2 k c) as [o c'|[]|] eqn:Hrun; [|by apply IH].
  eapply rtc_l; [by eapply step_call|by apply IH].
Qed.

Definition domain0 : Z := domain_handle 1.
Definition opened : list call := [IsolateDevice requester0; MapSpan domain0 0x10000 0x20000 0x2000 DmaAccess.READ_WRITE].
Definition mapped0 : mcore := after opened (launch 99).
Lemma mapped0_reached : rtc (step 4 2 2) (launch 99) mapped0.
Proof. apply calls_after_steps. by repeat constructor. Qed.
End VtdBackendMachine.

Module VtdBackendWitnesses.
Import VtdMachine VtdBackendRuns VtdBackendClaims VtdBackendMachine.

Lemma vtd_reach_confined_witness :
  reaches (pages mapped0) 0x11000 0x21003 ∧
  ∃ j b n, batches mapped0 !! j = Some b ∧ used b ∧ page_of b n 0x11000 (Z.land 0x21003 PHYSICAL_PAGE_MASK).
Proof.
  destruct (vtd_reach_confined 4 2 2 (launch 99) mapped0 launched0 mapped0_reached) as [Hreach _].
  assert (reaches (pages mapped0) 0x11000 0x21003) as Hre.
  { right. split; [|vm_compute; reflexivity]. split; [done|vm_compute; reflexivity]. }
  split; [exact Hre|exact (Hreach _ _ Hre)].
Defined.

Lemma vtd_map_decided_witness :
  ∃ c', map_span (E := Empty_set) 4 2 domain0 0x30000 0x40000 0x1000 DmaAccess.READ mapped0 = Done STATUS_OK c' ∧
    translates c' 0x30000 0x40001.
Proof.
  pose proof (vtd_map_decided 4 2 2 (launch 99) mapped0 domain0 0x30000 0x40000 0x1000 DmaAccess.READ
    launched0 mapped0_reached ltac:(done) ltac:(done) ltac:(done) ltac:(done)) as Hdec.
  destruct (value_done (map_span (E := Empty_set) 4 2 domain0 0x30000 0x40000 0x1000 DmaAccess.READ mapped0) STATUS_OK)
    as [c' Hrun]; [vm_compute; reflexivity|].
  rewrite Hrun in Hdec. exists c'. split; [exact Hrun|]. destruct Hdec as (_ & Hok & _).
  destruct (Hok eq_refl) as [_ Hpage]. specialize (Hpage 0 (conj (Z.le_refl 0) eq_refl)).
  assert (0x30000 + Paging.PAGE_SIZE * 0 = 0x30000) as Hv by reflexivity. rewrite Hv in Hpage.
  assert (Z.lor (0x40000 + Paging.PAGE_SIZE * 0) DmaAccess.READ = 0x40001) as He by reflexivity. rewrite He in Hpage.
  exact Hpage.
Defined.

Lemma vtd_unmap_revokes_witness :
  ∃ c', unmap_span (E := Empty_set) domain0 0x10000 0x2000 mapped0 = Done STATUS_OK c' ∧
    ∀ v e, reaches (pages c') v e → ¬ in_span 0x10000 0x2000 v.
Proof.
  pose proof (vtd_unmap_revokes 4 2 2 (launch 99) mapped0 domain0 0x10000 0x2000 launched0 mapped0_reached) as Hdec.
  destruct (value_done (unmap_span (E := Empty_set) domain0 0x10000 0x2000 mapped0) STATUS_OK) as [c' Hrun];
    [vm_compute; reflexivity|].
  rewrite Hrun in Hdec. exists c'. split; [exact Hrun|]. destruct Hdec as [_ Hok].
  destruct (Hok eq_refl) as (j & b & _ & _ & _ & _ & Hno). intros v e Hre. exact (proj1 (Hno v e Hre)).
Defined.

Lemma vtd_release_final_witness :
  ∃ c', release (E := Empty_set) 2 domain0 mapped0 = Done STATUS_OK c' ∧ ∀ v e, ¬ reaches (pages c') v e.
Proof.
  destruct (value_done (release (E := Empty_set) 2 domain0 mapped0) STATUS_OK) as [c' Hrun]; [vm_compute; reflexivity|].
  exists c'. split; [exact Hrun|].
  exact (proj1 (proj2 (proj2 (vtd_release_final 4 2 2 (launch 99) mapped0 domain0 c' c' (ReleaseDomain domain0)
    launched0 mapped0_reached Hrun (rtc_refl _ _) I)))).
Defined.

Lemma vtd_build_decided_witness :
  ∃ c, built0 99 = Done c () ∧ VtdRemappingEngine.state (engine c) = VtdEngineState.Enabled.
Proof.
  pose proof (vtd_build_decided 4 2 2 scope0 memory0 root_frame 1 4 (RegisterUnit.blank 99) storage0
    args0 build_memory0 ltac:(done) ltac:(done)) as Hdec.
  assert (is_done (built0 99) = true) as Hd by (vm_compute; reflexivity).
  change (build 4 2 2 scope0 memory0 root_frame 1 4 (RegisterUnit.blank 99) storage0 ()) with (built0 99) in Hdec.
  destruct (built0 99) as [c []|f x|]; [|discriminate Hd|discriminate Hd]. exists c. split; [reflexivity|].
  destruct Hdec as (_ & Hs & _). exact Hs.
Defined.
End VtdBackendWitnesses.
