(* ===== verification/Mmio.v ===== *)
(** * Windows on device memory

    Models [kernel/boulder/src/mmio.rs]: the early mapper, which maps physical
    pages into the slots of one page table behind a lock, and the typed windows
    through which drivers access device registers.  The machine has the page
    table [mmio_p1_table] and the processor's translation buffer; an access
    through an address that neither translates is a fault. *)
From S2P Require Import Prelude Paging Frame Iommu.

Definition HIGHER_HALF_DIRECT_MAP_BASE : Z := 0xffff800000000000.
Definition KERNEL_VIRTUAL_BASE : Z := 0xffffffff80000000.
Definition MMIO_WINDOW_BASE : Z := 0xffff808000000000.
Definition EARLY_MAPPED_PHYSICAL_LIMIT : Z := 1024 * 1024 * 1024.
Definition MMIO_SLOTS : Z := 512.
Definition SLOT_WORDS : Z := MMIO_SLOTS / 64.
Definition MAXIMUM_MAPPINGS : Z := 64.
Definition PAGE_ADDRESS_MASK : Z := 0x000ffffffffff000.
Definition PTE_PRESENT : Z := Z.shiftl 1 0.
Definition PTE_WRITABLE : Z := Z.shiftl 1 1.
Definition PTE_WRITE_THROUGH : Z := Z.shiftl 1 3.
Definition PTE_CACHE_DISABLE : Z := Z.shiftl 1 4.
Definition MMIO_PAGE_FLAGS : Z :=
  Z.lor (Z.lor (Z.lor PTE_PRESENT PTE_WRITABLE) PTE_WRITE_THROUGH) PTE_CACHE_DISABLE.

(** ** The processor *)

(** [mmio_p1_table] and the translations the processor has buffered, by the
    address of their page. *)
Record paging := Translations { p1_table : list Z; tlb : list (Z * Z) }.

Definition page_of (address : Z) : Z := address / Paging.PAGE_SIZE * Paging.PAGE_SIZE.
(** The slot of the window an address lies in. *)
Definition slot_of (address : Z) : Z := (address - MMIO_WINDOW_BASE) / Paging.PAGE_SIZE.
Definition is_present (pte : Z) : bool := Z.testbit pte 0.

(** The entry of a page: a buffered one, else the one of the table. *)
Definition walk (p : paging) (address : Z) : option Z :=
  let slot := slot_of address in
  if (0 <=? slot) && (slot <? MMIO_SLOTS) then
    pte ← p1_table p !! Z.to_nat slot;
    if is_present pte then Some pte else None
  else None.
Definition buffered (p : paging) (address : Z) : option Z :=
  snd <$> List.find (λ entry, fst entry =? page_of address) (tlb p).
Definition physical_of (pte address : Z) : Z :=
  Z.lor (Z.land pte PAGE_ADDRESS_MASK) (address mod Paging.PAGE_SIZE).
Definition translate (p : paging) (address : Z) : option Z :=
  pte ← (match buffered p address with Some pte => Some pte | None => walk p address end);
  Some (physical_of pte address).

(** [invlpg]. *)
Definition invlpg (address : Z) (p : paging) : paging :=
  Translations (p1_table p) (List.filter (λ entry, negb (fst entry =? page_of address)) (tlb p)).

(** ** The mapper *)

Module MappingRecord.
Record t := mk { generation : Z; first_slot : Z; page_count : Z; active : bool }.
Definition EMPTY : t := mk 0 0 0 false.
End MappingRecord.

Module MmioMapping.
Record t := mk { handle : Z; pointer : Z }.
End MmioMapping.

Module EarlyMmioMapper.
Import MappingRecord.

Record t := mk { occupied : list Z; records : list MappingRecord.t }.
Definition new : t :=
  mk (replicate (Z.to_nat SLOT_WORDS) 0) (replicate (Z.to_nat MAXIMUM_MAPPINGS) EMPTY).

(** The mapper with the translations it edits. *)
Record state := State { mapper : t; translations : paging }.
Definition with_occupied (l : list Z) (s : state) : state := State (mk l (records (mapper s))) (translations s).
Definition with_records (l : list MappingRecord.t) (s : state) : state :=
  State (mk (occupied (mapper s)) l) (translations s).
Definition with_translations (p : paging) (s : state) : state := State (mapper s) p.

Definition slot_is_set {S E} (self : t) (slot : Z) : M S E bool :=
  word ← index (occupied self) (slot / 64);
  mret (negb (Z.land word (Z.shiftl 1 (slot mod 64)) =? 0)).
Definition set_slot {E} (slot : Z) (value : bool) : M state E unit :=
  s ← get;
  word ← index (occupied (mapper s)) (slot / 64);
  let mask := Z.shiftl 1 (slot mod 64) in
  put (with_occupied (<[Z.to_nat (slot / 64) := if value then Z.lor word mask else Z.land word (bitnot 64 mask)]>
                        (occupied (mapper s))) s).

(** [page_table().add(slot).write_volatile(pte)]: a slot past the table is
    undefined behaviour. *)
Definition write_pte {E} (slot pte : Z) : M state E unit :=
  s ← get;
  l ← store (p1_table (translations s)) slot pte;
  put (with_translations (Translations l (tlb (translations s))) s).
Definition invalidate_page {E} (address : Z) : M state E unit :=
  modify (λ s, with_translations (invlpg address (translations s)) s).

Fixpoint find_slots_loop {S E} (self : t) (page_count : Z) (l : list Z) (run_start run_length : Z) :
    M S E (option Z) :=
  match l with
  | [] => mret None
  | slot :: l' =>
    set ← slot_is_set self slot;
    if (set : bool) then find_slots_loop self page_count l' run_start 0 else
    let run_start := if run_length =? 0 then slot else run_start in
    run_length ← add 64 run_length 1;
    if run_length =? page_count then mret (Some run_start)
    else find_slots_loop self page_count l' run_start run_length
  end.
Definition find_slots {S E} (self : t) (page_count : Z) : M S E (option Z) :=
  find_slots_loop self page_count (range 0 MMIO_SLOTS) 0 0.

Definition slot_address {S E} (slot : Z) : M S E Z :=
  bytes ← mul 64 slot Paging.PAGE_SIZE; add 64 MMIO_WINDOW_BASE bytes.

(** One turn of the loop of [map]. *)
Definition map_slot {E} (first_slot physical_base offset : Z) : M state E unit :=
  slot ← add 64 first_slot offset;
  set_slot slot true ;;
  bytes ← mul 64 offset Paging.PAGE_SIZE;
  physical ← add 64 physical_base bytes;
  virtual_address ← slot_address slot;
  write_pte slot (Z.lor physical MMIO_PAGE_FLAGS) ;;
  invalidate_page virtual_address.

(** The checks of [map] on its arguments: page count and first page. *)
Definition map_request {S} (physical_address length flags : Z) : M S Z (Z * Z) :=
  if length =? 0 then throw STATUS_INVALID_ARGUMENT else
  if negb (flags =? 0) then throw STATUS_UNSUPPORTED else
  let page_offset := Z.land physical_address (Paging.PAGE_SIZE - 1) in
  span ← ok_or (checked_add 64 page_offset length) STATUS_INVALID_ARGUMENT;
  let page_count := div_ceil span Paging.PAGE_SIZE in
  if (page_count =? 0) || (MMIO_SLOTS <? page_count) then throw STATUS_INVALID_ARGUMENT else
  let physical_base := Z.land physical_address (bitnot 64 (Paging.PAGE_SIZE - 1)) in
  bytes ← mul 64 page_count Paging.PAGE_SIZE;
  physical_end ← ok_or (checked_add 64 physical_base bytes) STATUS_INVALID_ARGUMENT;
  last ← sub physical_end 1;
  if PAGE_ADDRESS_MASK <? last then throw STATUS_INVALID_ARGUMENT else
  mret (page_count, physical_base).

Definition map (physical_address length flags : Z) : M state Z MmioMapping.t :=
  '(page_count, physical_base) ← map_request physical_address length flags;
  s ← get;
  record_index ← ok_or
    (Z.of_nat <$> position (λ record, negb (active record) && negb (generation record =? MAX 32)) (records (mapper s)))
    STATUS_BUSY;
  found ← find_slots (mapper s) page_count;
  first_slot ← ok_or found STATUS_BUSY;
  record ← index (records (mapper s)) record_index;
  next ← add 32 (generation record) 1;
  mfor (range 0 page_count) (map_slot first_slot physical_base) ;;
  s ← get;
  l ← store (records (mapper s)) record_index (MappingRecord.mk next (wrap 16 first_slot) (wrap 16 page_count) true);
  put (with_records l s) ;;
  number ← add 64 record_index 1;
  base ← slot_address first_slot;
  pointer ← add 64 base (Z.land physical_address (Paging.PAGE_SIZE - 1));
  if pointer =? 0 then throw STATUS_INVALID_ARGUMENT else
  mret (MmioMapping.mk (Z.lor (wrap 64 (Z.shiftl next 32)) number) pointer).

(** One turn of the loop of [unmap]. *)
Definition unmap_slot {E} (first_slot offset : Z) : M state E unit :=
  slot ← add 64 first_slot offset;
  virtual_address ← slot_address slot;
  write_pte slot 0 ;;
  invalidate_page virtual_address ;;
  set_slot slot false.

Definition unmap {E} (handle : Z) : M state E Z :=
  let record_number := Z.land handle 0xffffffff in
  let handle_generation := wrap 32 (Z.shiftr handle 32) in
  s ← get;
  if (record_number =? 0) || (Z.of_nat (length (records (mapper s))) <? record_number) then mret STATUS_NOT_FOUND else
  let record_index := record_number - 1 in
  record ← index (records (mapper s)) record_index;
  if negb (active record) || negb (generation record =? handle_generation) then mret STATUS_NOT_FOUND else
  mfor (range 0 (page_count record)) (unmap_slot (first_slot record)) ;;
  s ← get;
  l ← store (records (mapper s)) record_index (MappingRecord.mk (generation record) 0 0 false);
  put (with_records l s) ;;
  mret STATUS_OK.
End EarlyMmioMapper.

(** ** Linear mappings *)

Definition direct_map_address (physical_address : Z) : option Z :=
  if EARLY_MAPPED_PHYSICAL_LIMIT <=? physical_address then None
  else checked_add 64 HIGHER_HALF_DIRECT_MAP_BASE physical_address.

(** [__kernel_start] and [__kernel_end] come from the linker. *)
Definition kernel_virtual_to_physical (kernel_start kernel_end virtual_address length : Z) : option Z :=
  end_ ← checked_add 64 virtual_address length;
  let direct_start := HIGHER_HALF_DIRECT_MAP_BASE in
  direct_end ← checked_add 64 direct_start EARLY_MAPPED_PHYSICAL_LIMIT;
  if (direct_start <=? virtual_address) && (end_ <=? direct_end) then Some (virtual_address - direct_start) else
  if (kernel_start <=? virtual_address) && (end_ <=? kernel_end)
  then checked_sub virtual_address KERNEL_VIRTUAL_BASE
  else None.

(** ** Typed windows *)

(** The devices behind physical addresses: an access may change them. *)
Class Bus (D : Type) := {
  bus_read : Z → Z → D → Z * D;
  bus_write : Z → Z → Z → D → D;
}.

Module MmioAccessError.
Inductive t := Map (status : Z) | OutOfBounds | Misaligned.
End MmioAccessError.

Module MmioWindow.
Import MmioAccessError.
Section window.
Context {D : Type} `{Bus D}.

Record t := mk { id : Z; base : Z; length : Z }.
Record machine := Machine { kernel : EarlyMmioMapper.state; devices : D }.
Definition with_kernel (k : EarlyMmioMapper.state) (m : machine) : machine := Machine k (devices m).
Definition with_devices (d : D) (m : machine) : machine := Machine (kernel m) d.
Definition on_kernel {E A} (c : M EarlyMmioMapper.state E A) : M machine E A := zoom kernel with_kernel c.

Definition map (physical_address len : Z) : M machine MmioAccessError.t t :=
  mapping ← map_err Map (on_kernel (EarlyMmioMapper.map physical_address len 0));
  mret (mk (MmioMapping.handle mapping) (MmioMapping.pointer mapping) len).

(** [T] has [size] bytes and that alignment. *)
Definition checked_pointer {S} (self : t) (size offset : Z) : M S MmioAccessError.t Z :=
  end_ ← ok_or (checked_add 64 offset size) OutOfBounds;
  if length self <? end_ then throw OutOfBounds else
  address ← add 64 (base self) offset;
  if negb (address mod size =? 0) then throw Misaligned else mret address.

(** A volatile access: a fault unless the address translates. *)
Definition read_volatile {E} (size address : Z) : M machine E Z :=
  m ← get;
  match translate (EarlyMmioMapper.translations (kernel m)) address with
  | None => panic
  | Some physical =>
    let '(value, d) := bus_read size physical (devices m) in
    put (with_devices d m) ;; mret value
  end.
Definition write_volatile {E} (size address value : Z) : M machine E unit :=
  m ← get;
  match translate (EarlyMmioMapper.translations (kernel m)) address with
  | None => panic
  | Some physical => put (with_devices (bus_write size physical value (devices m)) m)
  end.

(** [read_u8] to [read_u64] and [write_u8] to [write_u64], by size. *)
Definition read (size : Z) (self : t) (offset : Z) : M machine MmioAccessError.t Z :=
  address ← checked_pointer self size offset; read_volatile size address.
Definition write (size : Z) (self : t) (offset value : Z) : M machine MmioAccessError.t unit :=
  address ← checked_pointer self size offset; write_volatile size address value.

Definition close {E} (self : t) : M machine E Z := on_kernel (EarlyMmioMapper.unmap (id self)).
End window.
Arguments machine : clear implicits.
End MmioWindow.
