(* ===== verification/MmioFacts.v ===== *)
(** * Lemmas on the mapper of device memory

    The invariant of the mapper and of the translations it edits, what [map] and
    [unmap] do to it, and what an address translates to. *)
From S2P Require Import Prelude Paging Frame Iommu Mmio.

Module MmioFacts.
Import MappingRecord EarlyMmioMapper.
#[local] Abbreviation PAGE := Paging.PAGE_SIZE.
Implicit Types (s : state) (r q : MappingRecord.t).

(** ** Slots *)

Definition slot_base (i : Z) : Z := MMIO_WINDOW_BASE + i * PAGE.
Definition in_window (i : Z) : Prop := 0 <= i < MMIO_SLOTS.
Definition occ s (i : Z) : bool := Frame.bit (occupied (mapper s)) i.
Definition pte s (i : Z) : option Z := p1_table (translations s) !! Z.to_nat i.

(** Every buffered translation is that of the table. *)
Definition coherent (p : paging) : Prop :=
  ∀ a e, (a, e) ∈ tlb p →
    ∃ i, in_window i ∧ a = slot_base i ∧ p1_table p !! Z.to_nat i = Some e ∧ is_present e = true.

Record shape s : Prop := {
  sh_bits : bitmap_wf MMIO_SLOTS (occupied (mapper s));
  sh_table : length (p1_table (translations s)) = Z.to_nat MMIO_SLOTS;
  sh_coherent : coherent (translations s);
}.

Lemma page_of_slot i : in_window i → page_of (slot_base i) = slot_base i.
Proof. unfold in_window, page_of, slot_base, MMIO_WINDOW_BASE, MMIO_SLOTS, Paging.PAGE_SIZE. intros. Z.div_mod_to_equations; lia. Qed.
Lemma slot_base_inj i j : slot_base i = slot_base j → i = j.
Proof. unfold slot_base, Paging.PAGE_SIZE. lia. Qed.

Lemma slot_is_set_ok {S E} s i (w : S) : shape s → in_window i → slot_is_set (E:=E) (mapper s) i w = Done (occ s i) w.
Proof. intros Hs Hi. apply (Frame.bit_is_set_ok MMIO_SLOTS); [apply Hs|done]. Qed.

Lemma set_slot_ok {E} s i v Q (R : E → state → Prop) :
  shape s → in_window i → Q () (with_occupied (store_bit (occupied (mapper s)) i v) s) → wp (set_slot i v) Q R s.
Proof.
  intros Hs Hi HQ. destruct (word_lookup MMIO_SLOTS (occupied (mapper s)) i (sh_bits _ Hs) Hi) as (word & Hword & _).
  unfold set_slot. wp_simpl. unfold BITS_PER_WORD in Hword. eapply wp_index; [unfold in_window in Hi; Z.div_mod_to_equations; lia|done|].
  unfold store_bit, BITS_PER_WORD in HQ. by rewrite (list_lookup_total_correct _ _ _ Hword) in HQ.
Qed.

(** [s'] is [s] with the slots chosen by [f] rewritten, to [v] in the bitmap and
    to the given entry in the table. *)
Record edits (f : Z → option Z) (v : bool) s s' : Prop := {
  ed_shape : shape s';
  ed_records : records (mapper s') = records (mapper s);
  ed_occ i : in_window i → occ s' i = match f i with Some _ => v | None => occ s i end;
  ed_pte i : in_window i → pte s' i = match f i with Some e => Some e | None => pte s i end;
}.

Definition at_slot (i e : Z) : Z → option Z := λ j, if decide (j = i) then Some e else None.
(** The entry is stored and the page of the slot is invalidated. *)
Definition rewritten (i e : Z) (p : paging) : paging :=
  invlpg (slot_base i) (Translations (<[Z.to_nat i := e]> (p1_table p)) (tlb p)).

Lemma rewritten_coherent i e p :
  in_window i → coherent p → coherent (rewritten i e p).
Proof.
  intros Hi Hp a x (Hx & Hin)%list_elem_of_In%filter_In. simpl in *. apply list_elem_of_In in Hx.
  rewrite page_of_slot in Hin by done. bool_to_prop.
  destruct (Hp a x Hx) as (j & Hj & -> & Hl & He). exists j. split_and!; try done.
  rewrite list_lookup_insert_ne; [done|]. intros Heq. apply Hin. f_equal. unfold in_window in *. lia.
Qed.

Lemma edits_slot i e v s :
  shape s → in_window i →
  edits (at_slot i e) v s (State (mk (store_bit (occupied (mapper s)) i v) (records (mapper s)))
                             (rewritten i e (translations s))).
Proof.
  intros Hs Hi. split.
  - split; [apply store_bit_wf; [apply Hs|done]| |by apply rewritten_coherent, Hs].
    simpl. rewrite length_insert. apply Hs.
  - done.
  - intros j Hj. unfold occ, at_slot. simpl. rewrite (bit_store MMIO_SLOTS) by (apply Hs || done || apply Hj).
    by destruct (decide (j = i)).
  - intros j Hj. unfold pte, at_slot. simpl. destruct (decide (j = i)) as [->|Hne].
    + apply list_lookup_insert_eq. rewrite (sh_table _ Hs). unfold in_window in *. lia.
    + apply list_lookup_insert_ne. unfold in_window in *. lia.
Qed.

Lemma edits_none v s : shape s → edits (λ _, None) v s s.
Proof. by split. Qed.
Lemma edits_trans f g h v s1 s2 s3 :
  edits f v s1 s2 → edits g v s2 s3 →
  (∀ i, in_window i → h i = match g i with Some e => Some e | None => f i end) → edits h v s1 s3.
Proof.
  intros H1 H2 Hh. split.
  - apply H2.
  - by rewrite (ed_records _ _ _ _ H2), (ed_records _ _ _ _ H1).
  - intros i Hi. rewrite (ed_occ _ _ _ _ H2), (ed_occ _ _ _ _ H1), Hh by done. by destruct (g i).
  - intros i Hi. rewrite (ed_pte _ _ _ _ H2), (ed_pte _ _ _ _ H1), Hh by done. by destruct (g i).
Qed.

Lemma wp_slot_address {S E} i Q (R : E → S → Prop) (w : S) :
  in_window i → Q (slot_base i) w → wp (slot_address i) Q R w.
Proof.
  unfold in_window, MMIO_SLOTS. intros Hi HQ. unfold slot_address. wp_simpl.
  apply wp_mul; [unfold Paging.PAGE_SIZE; lia|]. apply wp_add; [unfold MMIO_WINDOW_BASE, Paging.PAGE_SIZE; lia|]. done.
Qed.

Lemma wp_write_pte {E} i e Q (R : E → state → Prop) s :
  shape s → in_window i →
  Q () (with_translations (Translations (<[Z.to_nat i := e]> (p1_table (translations s))) (tlb (translations s))) s) →
  wp (write_pte i e) Q R s.
Proof.
  intros Hs Hi HQ. unfold write_pte. wp_simpl. apply wp_store; [|by wp_simpl].
  rewrite (sh_table _ Hs). unfold in_window in Hi. lia.
Qed.

(** The slots of a run, with the entries of consecutive pages from [e]. *)
Definition in_run (first n : Z) (entry : Z → Z) : Z → option Z := λ i,
  if decide (first <= i < first + n) then Some (entry (i - first)) else None.

Lemma edits_run_snoc first n entry v s s1 s2 :
  edits (in_run first n entry) v s s1 → edits (at_slot (first + n) (entry n)) v s1 s2 → 0 <= n →
  edits (in_run first (n + 1) entry) v s s2.
Proof.
  intros H1 H2 Hn. eapply edits_trans; [done..|]. intros i Hi. unfold in_run, at_slot.
  repeat case_decide; try lia; subst; try done; by replace (first + n - first) with n by lia.
Qed.

Definition page_entry (physical : Z) (k : Z) : Z := Z.lor (physical + k * PAGE) MMIO_PAGE_FLAGS.

Lemma map_slots_ok {E} first base n s :
  shape s → 0 <= first → 0 <= n → first + n <= MMIO_SLOTS → 0 <= base → base + n * PAGE < 2 ^ 64 →
  wp (E:=E) (mfor (range 0 n) (map_slot first base)) (λ _, edits (in_run first n (page_entry base)) true s)
    (λ _ _, False) s.
Proof.
  intros Hs Hf Hn Hlast Hb Hw. apply (wp_for_range (λ k, edits (in_run first k (page_entry base)) true s)).
  - eapply edits_trans; [by apply edits_none..|]. intros i _. unfold in_run. case_decide; [lia|done].
  - intros k s1 Hk H1. pose proof (ed_shape _ _ _ _ H1) as Hs1.
    assert (in_window (first + k)) as Hi by (unfold in_window; lia).
    unfold map_slot. wp_simpl. apply wp_add; [unfold MMIO_SLOTS in *; lia|]. wp_simpl.
    apply set_slot_ok; [done..|]. wp_simpl. unfold Paging.PAGE_SIZE in *. apply wp_mul; [unfold MMIO_SLOTS in *; lia|]. wp_simpl.
    apply wp_add; [lia|]. wp_simpl. apply wp_slot_address; [done|]. wp_simpl.
    apply wp_write_pte; [split; [apply store_bit_wf; [apply Hs1|done]|apply Hs1..]|done|].
    unfold invalidate_page. wp_simpl.
    eapply edits_run_snoc; [done|by apply edits_slot|lia].
  - intros s1 H1. by rewrite Z.max_r in H1 by lia.
Qed.

Lemma unmap_slots_ok {E} first n s :
  shape s → 0 <= first → 0 <= n → first + n <= MMIO_SLOTS →
  wp (E:=E) (mfor (range 0 n) (unmap_slot first)) (λ _, edits (in_run first n (λ _, 0)) false s) (λ _ _, False) s.
Proof.
  intros Hs Hf Hn Hlast. apply (wp_for_range (λ k, edits (in_run first k (λ _, 0)) false s)).
  - eapply edits_trans; [by apply edits_none..|]. intros i _. unfold in_run. case_decide; [lia|done].
  - intros k s1 Hk H1. pose proof (ed_shape _ _ _ _ H1) as Hs1.
    assert (in_window (first + k)) as Hi by (unfold in_window; lia).
    unfold unmap_slot. wp_simpl. apply wp_add; [unfold MMIO_SLOTS in *; lia|]. wp_simpl.
    apply wp_slot_address; [done|]. wp_simpl. apply wp_write_pte; [done..|]. unfold invalidate_page. wp_simpl.
    pose proof (edits_slot (first + k) 0 false s1 Hs1 Hi) as He.
    apply set_slot_ok; [|done|by eapply edits_run_snoc; [done|exact He|lia]].
    split; [apply Hs1| |by apply rewritten_coherent, Hs1]. simpl. rewrite length_insert. apply Hs1.
  - intros s1 H1. by rewrite Z.max_r in H1 by lia.
Qed.

(** ** The search for a run of slots *)

Definition free_run s (first n : Z) : Prop :=
  0 <= first ∧ first + n <= MMIO_SLOTS ∧ ∀ i, first <= i < first + n → occ s i = false.

(** At slot [x], the last [length] slots are free and the one before is not. *)
Lemma find_slots_loop_ok {W E} s n x start len (w : W) :
  shape s → 0 < n → 0 <= x <= MMIO_SLOTS → 0 <= len < n → (len ≠ 0 → start = x - len) → 0 <= x - len →
  (∀ i, x - len <= i < x → occ s i = false) → (∀ f, f < x - len → ¬ free_run s f n) →
  wp (E:=E) (find_slots_loop (mapper s) n (range x MMIO_SLOTS) start len)
    (λ o w', w' = w ∧ match o with
                      | Some f => free_run s f n ∧ ∀ g, g < f → ¬ free_run s g n
                      | None => ∀ g, ¬ free_run s g n
                      end) (λ _ _, False) w.
Proof.
  intros Hs Hn. remember (Z.to_nat (MMIO_SLOTS - x)) as k eqn:Hk. revert x start len Hk.
  induction k as [|k IH]; intros x start len Hk Hx Hlen Hstart H0 Hfree Hnone.
  - rewrite range_nil by lia. simpl. wp_simpl. split; [done|]. intros g Hg. apply (Hnone g); [|done].
    destruct Hg as (? & ? & ?). lia.
  - rewrite range_cons by lia. simpl. wp_simpl.
    eapply wp_eq; [by apply slot_is_set_ok; [|unfold in_window; lia]|]. simpl.
    destruct (occ s x) eqn:Hocc.
    { apply IH; try lia. intros g Hg Hrun. destruct (Z.lt_ge_cases g (x - len)); [by apply (Hnone g)|].
      destruct Hrun as (_ & _ & Hrun). rewrite Hrun in Hocc; [done|]. lia. }
    wp_simpl. apply wp_add; [unfold MMIO_SLOTS in *; lia|].
    assert ((if len =? 0 then x else start) = x - len) as -> by (destruct (Z.eqb_spec len 0); lia).
    assert (∀ i, x - len <= i < x + 1 → occ s i = false) as Hfree'.
    { intros i Hi. destruct (decide (i = x)) as [->|]; [done|]. apply Hfree. lia. }
    destruct (Z.eqb_spec (len + 1) n) as [<-|Hne].
    + wp_simpl. split; [done|]. split; [|done]. split_and!; [lia|lia|]. intros i Hi. apply Hfree'. lia.
    + apply IH; try lia; [|intros g Hg; apply Hnone; lia]. intros i Hi. apply Hfree'. lia.
Qed.

Lemma find_slots_ok {W E} s n (w : W) :
  shape s → 0 < n →
  wp (E:=E) (find_slots (mapper s) n)
    (λ o w', w' = w ∧ match o with
                      | Some f => free_run s f n ∧ ∀ g, g < f → ¬ free_run s g n
                      | None => ∀ g, ¬ free_run s g n
                      end) (λ _ _, False) w.
Proof.
  intros Hs Hn. apply find_slots_loop_ok; try done; unfold MMIO_SLOTS; try lia.
  intros f Hf (? & _). lia.
Qed.
End MmioFacts.
