(* ===== verification/MmioOps.v ===== *)
(** * The calls of the mapper

    What [map] and [unmap] do to the mapper's invariant and to the list of the
    mappings it has granted. *)
From S2P Require Import Prelude Paging Frame Iommu Mmio MmioFacts.

Module MmioOps.
Import MappingRecord EarlyMmioMapper MmioFacts.
#[local] Abbreviation PAGE := Paging.PAGE_SIZE.
Implicit Types (s : state) (r q : MappingRecord.t).

(** ** The invariant *)

Definition covers r (i : Z) : Prop := active r = true ∧ first_slot r <= i < first_slot r + page_count r.

Record record_ok r : Prop := {
  ro_generation : 0 <= generation r <= MAX 32;
  ro_active : active r = true →
    1 <= generation r ∧ 0 <= first_slot r ∧ 0 < page_count r ∧ first_slot r + page_count r <= MMIO_SLOTS;
}.

(** The occupied slots are those of the active records, which share none, and
    every other entry of the table is empty. *)
Record mapper_ok s : Prop := {
  mo_shape : shape s;
  mo_len : length (records (mapper s)) = Z.to_nat MAXIMUM_MAPPINGS;
  mo_record k r : records (mapper s) !! k = Some r → record_ok r;
  mo_apart k j r q i :
    records (mapper s) !! k = Some r → records (mapper s) !! j = Some q → covers r i → covers q i → k = j;
  mo_occ i : in_window i → occ s i = true ↔ ∃ k r, records (mapper s) !! k = Some r ∧ covers r i;
  mo_clear i : in_window i → occ s i = false → pte s i = Some 0;
}.

(** A mapping as [map] has granted it. *)
Record grant := Grant { handle : Z; pointer : Z; physical : Z; extent : Z }.
Implicit Types (g : grant) (gs : list grant).

Definition handle_of (generation : Z) (k : nat) : Z := Z.lor (wrap 64 (Z.shiftl generation 32)) (Z.of_nat k + 1).
Definition pages (physical length : Z) : Z := div_ceil (physical mod PAGE + length) PAGE.
Definition first_page (physical : Z) : Z := physical / PAGE * PAGE.

Record valid (physical length flags : Z) : Prop := {
  v_length : 0 < length;
  v_flags : flags = 0;
  v_span : physical mod PAGE + length < 2 ^ 64;
  v_pages : pages physical length <= MMIO_SLOTS;
  v_end : first_page physical + pages physical length * PAGE <= PAGE_ADDRESS_MASK + 1;
}.

(** Record [k] serves the grant: its slots show the consecutive pages. *)
Record serves s g (k : nat) r : Prop := {
  se_record : records (mapper s) !! k = Some r;
  se_active : active r = true;
  se_handle : handle g = handle_of (generation r) k;
  se_pointer : pointer g = slot_base (first_slot r) + physical g mod PAGE;
  se_valid : valid (physical g) (extent g) 0;
  se_physical : 0 <= physical g;
  se_pages : page_count r = pages (physical g) (extent g);
  se_entry j : 0 <= j < page_count r → pte s (first_slot r + j) = Some (page_entry (first_page (physical g)) j);
}.

(** The grants and the active records correspond. *)
Record linked s gs : Prop := {
  li_served g : g ∈ gs → ∃ k r, serves s g k r;
  li_granted k r : records (mapper s) !! k = Some r → active r = true → ∃ g, g ∈ gs ∧ serves s g k r;
  li_distinct : NoDup (handle <$> gs);
}.

(** Generations only grow, and a record is taken into use under a new one. *)
Definition ages s s' : Prop :=
  ∀ k r, records (mapper s) !! k = Some r →
    ∃ r', records (mapper s') !! k = Some r' ∧ generation r <= generation r' ∧
      (active r' = true → active r = false → generation r < generation r').

#[export] Instance ages_preorder : PreOrder ages.
Proof.
  split.
  - intros s k r Hr. exists r. split_and!; [done|lia|congruence].
  - intros s1 s2 s3 H1 H2 k r Hr. destruct (H1 k r Hr) as (r1 & Hr1 & Hle1 & Hlt1).
    destruct (H2 k r1 Hr1) as (r2 & Hr2 & Hle2 & Hlt2). exists r2. split_and!; [done|lia|].
    intros Ha2 Ha. destruct (active r1) eqn:Ha1; [specialize (Hlt1 eq_refl Ha)|specialize (Hlt2 Ha2 eq_refl)]; lia.
Qed.

(** ** Handles *)

Lemma handle_of_eq gen k : 0 <= gen <= MAX 32 → (k < Z.to_nat MAXIMUM_MAPPINGS)%nat →
  handle_of gen k = gen * 2 ^ 32 + (Z.of_nat k + 1).
Proof.
  unfold MAX, MAXIMUM_MAPPINGS. intros Hg Hk. unfold handle_of.
  rewrite wrap_small by (rewrite Z.shiftl_mul_pow2 by lia; unfold in_width; lia).
  apply lor_pack; [lia|]. unfold in_width. lia.
Qed.

Lemma handle_of_inj gen gen' k j :
  0 <= gen <= MAX 32 → 0 <= gen' <= MAX 32 → (k < Z.to_nat MAXIMUM_MAPPINGS)%nat → (j < Z.to_nat MAXIMUM_MAPPINGS)%nat →
  handle_of gen k = handle_of gen' j → gen = gen' ∧ k = j.
Proof.
  intros Hg Hg' Hk Hj. rewrite !handle_of_eq by done. unfold MAX, MAXIMUM_MAPPINGS in *. lia.
Qed.

(** The handle's record has moved on. *)
Definition spent s (h : Z) : Prop :=
  ∃ k r gen, records (mapper s) !! k = Some r ∧ h = handle_of gen k ∧ 0 <= gen <= generation r ∧
    (active r = true → gen < generation r).
Lemma spent_ages s s' h : ages s s' → spent s h → spent s' h.
Proof.
  intros Ha (k & r & gen & Hr & -> & Hle & Hlt). destruct (Ha k r Hr) as (r' & Hr' & Hle' & Hlt').
  exists k, r', gen. split_and!; [done|done|lia|lia|]. intros Hact. specialize (Hlt' Hact).
  destruct (active r); [specialize (Hlt eq_refl)|specialize (Hlt' eq_refl)]; lia.
Qed.

(** ** Requests *)

Lemma map_request_ok {W} p len fl (w : W) :
  u64 p → u64 len →
  wp (map_request p len fl) (λ o w', w' = w ∧ valid p len fl ∧ o = (pages p len, first_page p))
    (λ e w', w' = w ∧ ¬ valid p len fl ∧ (e = STATUS_INVALID_ARGUMENT ∨ e = STATUS_UNSUPPORTED)) w.
Proof.
  intros Hp Hl. pose proof Hl as [Hl0 _]. unfold map_request. destruct (Z.eqb_spec len 0) as [->|Hne].
  { wp_simpl. split_and!; [done| |by left]. intros []. lia. }
  destruct (Z.eqb_spec fl 0) as [->|Hfl]; simpl.
  2: { wp_simpl. split_and!; [done| |by right]. by intros []. }
  change (Paging.PAGE_SIZE - 1) with (2 ^ 12 - 1). rewrite land_pow2_mask, (land_bitnot_pow2 64 12) by (lia || done).
  change (2 ^ 12) with PAGE. wp_simpl. unfold checked_add at 1.
  destruct (Z.ltb_spec (p mod PAGE + len) (2 ^ 64)) as [Hspan|Hspan].
  2: { split_and!; [done| |by left]. intros []. lia. }
  fold (pages p len). fold (first_page p).
  assert (0 < pages p len) as Hpos.
  { unfold pages, div_ceil, Paging.PAGE_SIZE in *. unfold in_width in *. Z.div_mod_to_equations; lia. }
  destruct (Z.eqb_spec (pages p len) 0); [lia|]. destruct (Z.ltb_spec MMIO_SLOTS (pages p len)) as [Hs|Hs]; simpl.
  { wp_simpl. split_and!; [done| |by left]. intros []. lia. }
  assert (0 <= first_page p) as Hfp by (unfold first_page, in_width, Paging.PAGE_SIZE in *; Z.div_mod_to_equations; lia).
  wp_simpl. apply wp_mul; [unfold MMIO_SLOTS, Paging.PAGE_SIZE in *; lia|]. wp_simpl. unfold checked_add.
  destruct (Z.ltb_spec (first_page p + pages p len * PAGE) (2 ^ 64)) as [Hend|Hend].
  2: { split_and!; [done| |by left]. intros [_ _ _ _ ?]. unfold PAGE_ADDRESS_MASK in *. lia. }
  wp_simpl. apply wp_sub; [unfold Paging.PAGE_SIZE; lia|].
  destruct (Z.ltb_spec PAGE_ADDRESS_MASK (first_page p + pages p len * PAGE - 1)).
  - wp_simpl. split_and!; [done| |by left]. intros []. lia.
  - wp_simpl. split_and!; [done| |done]. split; (lia || done).
Qed.

(** ** Granting a mapping *)

Lemma in_run_Some first n entry i e : in_run first n entry i = Some e → first <= i < first + n ∧ e = entry (i - first).
Proof. unfold in_run. case_decide; [|done]. by intros [= <-]. Qed.
Lemma in_run_None first n entry i : in_run first n entry i = None → ¬ first <= i < first + n.
Proof. unfold in_run. by case_decide. Qed.
Lemma in_run_at first n entry j : 0 <= j < n → in_run first n entry (first + j) = Some (entry j).
Proof. intros. unfold in_run. case_decide; [|lia]. do 2 f_equal. lia. Qed.
Lemma in_run_out first n entry i : ¬ first <= i < first + n → in_run first n entry i = None.
Proof. intros. unfold in_run. by case_decide. Qed.

Lemma covers_occ s k r i : mapper_ok s → records (mapper s) !! k = Some r → covers r i → in_window i ∧ occ s i = true.
Proof.
  intros Hs Hr Hc. assert (in_window i) as Hi.
  { destruct (ro_active _ (mo_record _ Hs k r Hr)) as (_ & ? & ? & ?); [apply Hc|]. destruct Hc. unfold in_window. lia. }
  split; [done|]. apply (mo_occ _ Hs); eauto.
Qed.

Section granting.
Context (s s1 : state) (gs : list grant) (k : nat) (r : MappingRecord.t) (f : Z) (g : grant).
Hypotheses (Hs : mapper_ok s) (Hl : linked s gs) (Hr : records (mapper s) !! k = Some r)
  (Hidle : active r = false) (Hgen : generation r < MAX 32)
  (Hv : valid (physical g) (extent g) 0) (Hphys : 0 <= physical g)
  (Hn : 0 < pages (physical g) (extent g)) (Hfree : free_run s f (pages (physical g) (extent g)))
  (He : edits (in_run f (pages (physical g) (extent g)) (page_entry (first_page (physical g)))) true s s1)
  (Hh : handle g = handle_of (generation r + 1) k)
  (Hptr : pointer g = slot_base f + physical g mod PAGE).

Let n : Z := pages (physical g) (extent g).
Let new : MappingRecord.t := MappingRecord.mk (generation r + 1) f n true.
Let s2 : state := with_records (<[k := new]> (records (mapper s))) s1.

Lemma granted_lookup j q : records (mapper s2) !! j = Some q → (j = k ∧ q = new) ∨ (j ≠ k ∧ records (mapper s) !! j = Some q).
Proof. simpl. intros [(-> & -> & _)|[? ?]]%list_lookup_insert_Some; [by left|by right]. Qed.
Lemma granted_new : records (mapper s2) !! k = Some new.
Proof. simpl. apply list_lookup_insert_eq. by eapply lookup_lt_Some. Qed.
Lemma granted_old j q : records (mapper s) !! j = Some q → j ≠ k → records (mapper s2) !! j = Some q.
Proof. intros. simpl. by rewrite list_lookup_insert_ne. Qed.

Lemma covers_new i : covers new i ↔ f <= i < f + n.
Proof. unfold covers. simpl. naive_solver. Qed.
Lemma granted_outside j q i : records (mapper s) !! j = Some q → covers q i → ¬ f <= i < f + n.
Proof.
  intros Hq Hc Hi. destruct (covers_occ s j q i) as [_ Ho]; [done..|]. destruct Hfree as (_ & _ & Hf).
  rewrite Hf in Ho by done. done.
Qed.

Lemma granted_ok : mapper_ok s2.
Proof.
  pose proof Hfree as (Hf0 & Hf1 & Hf2). split.
  - destruct (ed_shape _ _ _ _ He). by split.
  - simpl. rewrite length_insert. apply Hs.
  - intros j q [[-> ->]|[_ Hq]]%granted_lookup; [|by apply (mo_record _ Hs j)].
    pose proof (ro_generation _ (mo_record _ Hs k r Hr)). split; simpl; [lia|intros _; fold n in Hf1, Hn; lia].
  - intros j1 j2 q1 q2 i [[-> ->]|[Hj1 H1]]%granted_lookup [[-> ->]|[Hj2 H2]]%granted_lookup Hc1 Hc2; [done|..].
    + apply covers_new in Hc1. by destruct (granted_outside j2 q2 i H2 Hc2).
    + apply covers_new in Hc2. by destruct (granted_outside j1 q1 i H1 Hc1).
    + by eapply (mo_apart _ Hs).
  - intros i Hi. change (occ s2 i) with (occ s1 i). rewrite (ed_occ _ _ _ _ He) by done.
    destruct (in_run _ _ _ i) eqn:Hrun.
    + apply in_run_Some in Hrun as [Hrun _]. split; [|done]. intros _. exists k, new. split; [apply granted_new|].
      by apply covers_new.
    + apply in_run_None in Hrun. rewrite (mo_occ _ Hs) by done. split.
      * intros (j & q & Hq & Hc). exists j, q. split; [|done]. apply granted_old; [done|]. intros ->.
        simplify_eq. by destruct Hc as [? _]; congruence.
      * intros (j & q & [[-> ->]|[Hj Hq]]%granted_lookup & Hc); [by apply covers_new in Hc|eauto].
  - intros i Hi. change (occ s2 i) with (occ s1 i). change (pte s2 i) with (pte s1 i).
    rewrite (ed_occ _ _ _ _ He), (ed_pte _ _ _ _ He) by done.
    destruct (in_run _ _ _ i); [done|]. by apply (mo_clear _ Hs).
Qed.

Lemma granted_serves : serves s2 g k new.
Proof.
  split; simpl; try done; [apply granted_new|]. intros j Hj. change (pte s2) with (pte s1).
  rewrite (ed_pte _ _ _ _ He), in_run_at; [done|done|]. destruct Hfree as (? & ? & _). fold n in H0. unfold in_window. lia.
Qed.

Lemma granted_kept g' j q : serves s g' j q → serves s2 g' j q.
Proof.
  intros [Hq Ha ?? ? ? ? Hent]. assert (j ≠ k) by (intros ->; congruence).
  split; try done; [by apply granted_old|]. intros i Hi. change (pte s2) with (pte s1).
  assert (covers q (first_slot q + i)) as Hc by (split; [done|lia]).
  destruct (covers_occ s j q _ Hs Hq Hc) as [Hw _].
  rewrite (ed_pte _ _ _ _ He), in_run_out by (done || by eapply granted_outside). by apply Hent.
Qed.

Lemma granted_linked : linked s2 (g :: gs).
Proof.
  split.
  - intros g' [->|Hg']%elem_of_cons; [eauto using granted_serves|].
    destruct (li_served _ _ Hl g' Hg') as (j & q & Hq). eauto using granted_kept.
  - intros j q [[-> ->]|[Hj Hq]]%granted_lookup Ha; [exists g; split; [left|apply granted_serves]|].
    destruct (li_granted _ _ Hl j q Hq Ha) as (g' & Hg' & Hsv). exists g'. split; [by right|by apply granted_kept].
  - simpl. apply NoDup_cons. split; [|apply Hl]. intros (g' & Heq & Hg')%list_elem_of_fmap.
    destruct (li_served _ _ Hl g' Hg') as (j & q & [Hq Ha Hhq _ _ _ _ _]).
    pose proof (ro_generation _ (mo_record _ Hs k r Hr)). pose proof (ro_generation _ (mo_record _ Hs j q Hq)).
    rewrite Hh, Hhq in Heq. apply lookup_lt_Some in Hr as Hk, Hq as Hj. rewrite (mo_len _ Hs) in Hk, Hj.
    apply handle_of_inj in Heq as [_ ->]; [congruence|lia|done..].
Qed.

Lemma granted_ages : ages s s2.
Proof.
  intros j q Hq. destruct (decide (j = k)) as [->|Hne].
  - exists new. split; [apply granted_new|]. simplify_eq. simpl. split; [lia|]. intros. lia.
  - exists q. split; [by apply granted_old|]. split; [lia|congruence].
Qed.
End granting.

(** A record that can be taken into use. *)
Definition reusable s : Prop :=
  ∃ r, r ∈ records (mapper s) ∧ active r = false ∧ generation r ≠ MAX 32.

Lemma pages_pos p len : 0 <= p → 0 < len → 0 < pages p len.
Proof. intros. unfold pages, div_ceil, Paging.PAGE_SIZE. Z.div_mod_to_equations; lia. Qed.

Lemma map_ok p len fl s gs :
  mapper_ok s → linked s gs → u64 p → u64 len →
  wp (map p len fl)
    (λ m s', mapper_ok s' ∧ linked s' (Grant (MmioMapping.handle m) (MmioMapping.pointer m) p len :: gs) ∧
       ages s s' ∧ valid p len fl ∧ reusable s ∧ ∃ f, free_run s f (pages p len))
    (λ e s', s' = s ∧
       ((e = STATUS_INVALID_ARGUMENT ∨ e = STATUS_UNSUPPORTED) ∧ ¬ valid p len fl ∨
        e = STATUS_BUSY ∧ (¬ reusable s ∨ ∀ f, ¬ free_run s f (pages p len)))) s.
Proof.
  intros Hs Hl Hp Hlen. unfold map. rewrite wp_bind. eapply wp_mono; [by apply map_request_ok| |naive_solver].
  intros [n base] ? (-> & Hv & [= -> ->]). cbv beta iota. pose proof Hp as [Hp0 _].
  assert (valid p len 0) as Hv0 by (destruct Hv; by split). pose proof (pages_pos p len Hp0 (v_length _ _ _ Hv)) as Hn.
  wp_simpl. destruct (position _ _) as [k|] eqn:Hpos; simpl.
  2: { split; [done|]. right. split; [done|left]. intros (r & Hr & Ha & Hg).
       rewrite position_None in Hpos. specialize (Hpos r Hr). rewrite Ha in Hpos. simpl in Hpos. bool_to_prop. done. }
  apply position_Some in Hpos as [(r & Hr & Hk) _]. bool_to_prop.
  pose proof (ro_generation _ (mo_record _ Hs k r Hr)) as Hgen.
  wp_simpl. eapply wp_mono; [by apply find_slots_ok; [apply Hs|]| |done]. intros [f|] s0 [-> Hfind]; simpl.
  2: { wp_simpl. auto. }
  destruct Hfind as [Hfree _]. pose proof Hfree as (Hf0 & Hf1 & _). wp_simpl.
  eapply wp_index; [lia|by rewrite Nat2Z.id|]. wp_simpl. apply wp_add; [unfold MAX in *; lia|]. wp_simpl.
  assert (0 <= first_page p) as Hb by (unfold first_page, Paging.PAGE_SIZE; Z.div_mod_to_equations; lia).
  eapply wp_mono; [apply map_slots_ok; [apply Hs|done|lia|done|done|]| |done].
  { pose proof (v_end _ _ _ Hv). unfold PAGE_ADDRESS_MASK in *. lia. }
  intros [] s1 He. wp_simpl. rewrite (ed_records _ _ _ _ He).
  apply lookup_lt_Some in Hr as Hkl. rewrite (mo_len _ Hs) in Hkl. unfold MAXIMUM_MAPPINGS in Hkl.
  apply wp_store; [rewrite (mo_len _ Hs); unfold MAXIMUM_MAPPINGS; lia|]. wp_simpl.
  apply wp_add; [lia|]. wp_simpl. apply wp_slot_address; [unfold in_window; lia|]. wp_simpl.
  change (Paging.PAGE_SIZE - 1) with (2 ^ 12 - 1). rewrite land_pow2_mask by lia. change (2 ^ 12) with PAGE.
  pose proof (Z.mod_pos_bound p PAGE ltac:(unfold Paging.PAGE_SIZE; lia)) as Hoff.
  assert (slot_base f + p mod PAGE < 2 ^ 64 ∧ slot_base f + p mod PAGE ≠ 0) as [? ?].
  { unfold slot_base, MMIO_WINDOW_BASE, MMIO_SLOTS, Paging.PAGE_SIZE in *. lia. }
  apply wp_add; [done|]. destruct (Z.eqb_spec (slot_base f + p mod PAGE) 0); [done|]. wp_simpl.
  unfold MMIO_SLOTS in *. rewrite Nat2Z.id, !wrap_small by (unfold in_width; lia). simpl.
  set (g := Grant _ _ p len). assert (generation r < MAX 32) by lia.
  split_and!; [by eapply (granted_ok s s1 k r f g)|by eapply (granted_linked s s1 gs k r f g)|
    by eapply (granted_ages s s1 k r f g)|done| |by exists f].
  exists r. split_and!; [by eapply list_elem_of_lookup_2|done|done].
Qed.

(** ** Revoking a mapping *)

Section revoking.
Context (s s1 : state) (gs : list grant) (k : nat) (r : MappingRecord.t).
Hypotheses (Hs : mapper_ok s) (Hl : linked s gs) (Hr : records (mapper s) !! k = Some r) (Ha : active r = true)
  (He : edits (in_run (first_slot r) (page_count r) (λ _, 0)) false s s1).

Let old : MappingRecord.t := MappingRecord.mk (generation r) 0 0 false.
Let s2 : state := with_records (<[k := old]> (records (mapper s))) s1.

Lemma revoked_lookup j q : records (mapper s2) !! j = Some q → (j = k ∧ q = old) ∨ (j ≠ k ∧ records (mapper s) !! j = Some q).
Proof. simpl. intros [(-> & -> & _)|[? ?]]%list_lookup_insert_Some; [by left|by right]. Qed.
Lemma revoked_new : records (mapper s2) !! k = Some old.
Proof. simpl. apply list_lookup_insert_eq. by eapply lookup_lt_Some. Qed.
Lemma revoked_old j q : records (mapper s) !! j = Some q → j ≠ k → records (mapper s2) !! j = Some q.
Proof. intros. simpl. by rewrite list_lookup_insert_ne. Qed.

Lemma other_outside j q i :
  records (mapper s) !! j = Some q → j ≠ k → covers q i → ¬ first_slot r <= i < first_slot r + page_count r.
Proof. intros Hq Hj Hc Hi. apply Hj. by apply (mo_apart _ Hs j k q r i). Qed.

Lemma revoked_mapper_ok : mapper_ok s2.
Proof.
  split.
  - destruct (ed_shape _ _ _ _ He). by split.
  - simpl. rewrite length_insert. apply Hs.
  - intros j q [[-> ->]|[_ Hq]]%revoked_lookup; [|by apply (mo_record _ Hs j)].
    split; simpl; [apply (mo_record _ Hs k r Hr)|done].
  - intros j1 j2 q1 q2 i [[-> ->]|[Hj1 H1]]%revoked_lookup [[-> ->]|[Hj2 H2]]%revoked_lookup Hc1 Hc2; [done|..].
    + by destruct Hc1.
    + by destruct Hc2.
    + by eapply (mo_apart _ Hs).
  - intros i Hi. change (occ s2 i) with (occ s1 i). rewrite (ed_occ _ _ _ _ He) by done.
    destruct (in_run _ _ _ i) eqn:Hrun.
    + apply in_run_Some in Hrun as [Hrun _]. split; [done|].
      intros (j & q & [[-> ->]|[Hj Hq]]%revoked_lookup & Hc); [by destruct Hc|]. by destruct (other_outside j q i Hq Hj Hc).
    + apply in_run_None in Hrun. rewrite (mo_occ _ Hs) by done. split.
      * intros (j & q & Hq & Hc). exists j, q. split; [|done]. apply revoked_old; [done|]. intros ->.
        simplify_eq. by destruct Hc.
      * intros (j & q & [[-> ->]|[Hj Hq]]%revoked_lookup & Hc); [by destruct Hc|eauto].
  - intros i Hi. change (occ s2 i) with (occ s1 i). change (pte s2 i) with (pte s1 i).
    rewrite (ed_occ _ _ _ _ He), (ed_pte _ _ _ _ He) by done.
    destruct (in_run _ _ _ i) eqn:Hrun; [by apply in_run_Some in Hrun as [_ ->]|]. by apply (mo_clear _ Hs).
Qed.

Lemma revoked_kept g' j q : serves s g' j q → j ≠ k → serves s2 g' j q.
Proof.
  intros [Hq Haq ? ? ? ? ? Hent] Hj. split; try done; [by apply revoked_old|]. intros i Hi. change (pte s2) with (pte s1).
  assert (covers q (first_slot q + i)) as Hc by (split; [done|lia]).
  destruct (covers_occ s j q _ Hs Hq Hc) as [Hw _].
  rewrite (ed_pte _ _ _ _ He), in_run_out by (done || by eapply other_outside). by apply Hent.
Qed.

Lemma serves_handle g j q : serves s g j q → handle g = handle_of (generation r) k ↔ j = k.
Proof.
  intros [Hq Haq Hhq _ _ _ _ _]. rewrite Hhq. split; [|by intros ->; simplify_eq].
  pose proof (ro_generation _ (mo_record _ Hs k r Hr)). pose proof (ro_generation _ (mo_record _ Hs j q Hq)).
  apply lookup_lt_Some in Hr as Hk, Hq as Hj. rewrite (mo_len _ Hs) in Hk, Hj.
  intros Heq. by apply handle_of_inj in Heq as [_ ->].
Qed.

Lemma revoked_linked : linked s2 (filter (λ g, handle g ≠ handle_of (generation r) k) gs).
Proof.
  split.
  - intros g [Hne Hg]%list_elem_of_filter. destruct (li_served _ _ Hl g Hg) as (j & q & Hq).
    exists j, q. apply revoked_kept; [done|]. by rewrite <- (serves_handle g j q Hq).
  - intros j q [[-> ->]|[Hj Hq]]%revoked_lookup Haq; [done|].
    destruct (li_granted _ _ Hl j q Hq Haq) as (g & Hg & Hsv). exists g. split; [|by apply revoked_kept].
    apply list_elem_of_filter. split; [|done]. by rewrite (serves_handle g j q Hsv).
  - eapply sublist_NoDup; [apply (li_distinct _ _ Hl)|]. apply fmap_sublist, sublist_filter.
Qed.

Lemma revoked_ages : ages s s2.
Proof.
  intros j q Hq. destruct (decide (j = k)) as [->|Hne].
  - exists old. split; [apply revoked_new|]. simplify_eq. by split.
  - exists q. split; [by apply revoked_old|]. split; [lia|congruence].
Qed.
Lemma revoked_spent : spent s2 (handle_of (generation r) k).
Proof.
  exists k, old, (generation r). pose proof (ro_generation _ (mo_record _ Hs k r Hr)).
  split_and!; [apply revoked_new|done|lia|done|done].
Qed.
End revoking.

(** The record a handle names. *)
Lemma handle_parts h : u64 h →
  Z.land h 0xffffffff = h mod 2 ^ 32 ∧ wrap 32 (Z.shiftr h 32) = h / 2 ^ 32.
Proof.
  intros Hh. split; [apply (land_pow2_mask 32); lia|]. rewrite Z.shiftr_div_pow2 by lia. apply wrap_small.
  unfold in_width in *. Z.div_mod_to_equations; lia.
Qed.

Definition live s (h : Z) : Prop :=
  ∃ k r, records (mapper s) !! k = Some r ∧ active r = true ∧ h = handle_of (generation r) k.

Lemma unmap_ok {E} h s gs :
  mapper_ok s → linked s gs → u64 h →
  wp (E:=E) (unmap h)
    (λ status s',
       (status = STATUS_OK ∧ live s h ∧ mapper_ok s' ∧ linked s' (filter (λ g, handle g ≠ h) gs) ∧ ages s s' ∧ spent s' h) ∨
       (status = STATUS_NOT_FOUND ∧ ¬ live s h ∧ s' = s))
    (λ _ _, False) s.
Proof.
  intros Hs Hl Hh. unfold unmap. destruct (handle_parts h Hh) as [-> ->]. wp_simpl. rewrite (mo_len _ Hs).
  assert (∀ k r, records (mapper s) !! k = Some r → h = handle_of (generation r) k →
    h mod 2 ^ 32 = Z.of_nat k + 1 ∧ h / 2 ^ 32 = generation r ∧ (k < Z.to_nat MAXIMUM_MAPPINGS)%nat) as Hparts.
  { intros k r Hr ->. pose proof (ro_generation _ (mo_record _ Hs k r Hr)). apply lookup_lt_Some in Hr.
    rewrite (mo_len _ Hs) in Hr. unfold MAXIMUM_MAPPINGS, MAX in *.
    rewrite handle_of_eq by done. rewrite pack_low, pack_high by (unfold in_width; lia). lia. }
  destruct (_ || _) eqn:Hrange; wp_simpl.
  { right. split_and!; [done| |done]. intros (k & r & Hr & _ & Hhk). destruct (Hparts k r Hr Hhk) as (Hm & _ & ?).
    unfold MAXIMUM_MAPPINGS in *. apply orb_true_iff in Hrange as [?|?]; bool_to_prop; lia. }
  bool_to_prop. pose proof (Z.mod_pos_bound h (2 ^ 32) ltac:(lia)) as Hmod.
  destruct (lookup_lt_is_Some_2 (records (mapper s)) (Z.to_nat (h mod 2 ^ 32 - 1))) as [r Hr].
  { rewrite (mo_len _ Hs). unfold MAXIMUM_MAPPINGS in *. lia. }
  eapply wp_index; [lia|done|]. set (k := Z.to_nat (h mod 2 ^ 32 - 1)) in *.
  destruct (negb (active r) || negb (generation r =? h / 2 ^ 32)) eqn:Hstale; wp_simpl.
  { right. split_and!; [done| |done]. intros (j & q & Hq & Ha & Hhq). destruct (Hparts j q Hq Hhq) as (Hj & Hg & _).
    assert (j = k) as -> by (unfold k; lia). simplify_eq. rewrite Ha, Hg, Z.eqb_refl in Hstale. done. }
  bool_to_prop. pose proof (ro_generation _ (mo_record _ Hs k r Hr)) as Hgen.
  destruct (ro_active _ (mo_record _ Hs k r Hr)) as (_ & Hf & Hc & Hlast); [done|].
  assert (h = handle_of (generation r) k) as Hhk.
  { apply lookup_lt_Some in Hr as Hk. rewrite (mo_len _ Hs) in Hk. rewrite handle_of_eq by done.
    unfold k. pose proof (Z.div_mod h (2 ^ 32)). lia. }
  eapply wp_mono; [apply unmap_slots_ok; [apply Hs|done|lia|done]| |done]. intros [] s1 He. wp_simpl.
  rewrite (ed_records _ _ _ _ He). apply wp_store; [rewrite (mo_len _ Hs); unfold MAXIMUM_MAPPINGS in *; lia|]. wp_simpl.
  left. fold k. clearbody k. rewrite Hhk.
  split_and!; [done|by exists k, r|by apply revoked_mapper_ok|by apply revoked_linked|by apply revoked_ages|by apply revoked_spent].
Qed.
End MmioOps.
