(* ===== verification/MmioProperties.v ===== *)
(** * What the windows on device memory show

    Histories of the mapper, with the processor buffering translations in
    between, and the claims on translations, calls, handles and accesses. *)
From S2P Require Import Prelude Paging Frame Iommu Mmio MmioFacts MmioOps.

Module MmioRuns.
Import MappingRecord EarlyMmioMapper MmioFacts MmioOps.
#[local] Abbreviation PAGE := Paging.PAGE_SIZE.
Implicit Types (s : state) (g : grant) (gs : list grant).

(** ** Translations *)

Lemma page_of_eq a : page_of a = slot_base (slot_of a).
Proof. unfold page_of, slot_base, slot_of, MMIO_WINDOW_BASE, Paging.PAGE_SIZE. Z.div_mod_to_equations; lia. Qed.
Lemma slot_of_iff a i : slot_of a = i ↔ slot_base i <= a < slot_base i + PAGE.
Proof. unfold slot_of, slot_base, Paging.PAGE_SIZE. split; intros; Z.div_mod_to_equations; lia. Qed.

(** Buffered translations are those of the walk. *)
Lemma translate_walk p a : coherent p → translate p a = (e ← walk p a; Some (physical_of e a)).
Proof.
  intros Hp. unfold translate, buffered. destruct (List.find _ _) as [[b e]|] eqn:Hfind; [|done].
  apply find_some in Hfind as [Hin Heq]. simpl in *. bool_to_prop.
  destruct (Hp b e) as (i & Hi & -> & Hl & He); [by apply list_elem_of_In|].
  rewrite page_of_eq in Heq. apply slot_base_inj in Heq. subst i. unfold walk.
  unfold in_window in Hi. destruct (Z.leb_spec 0 (slot_of a)), (Z.ltb_spec (slot_of a) MMIO_SLOTS); try lia.
  simpl. rewrite Hl. simpl. by rewrite He.
Qed.

Lemma page_entry_bits base k :
  base mod PAGE = 0 → 0 <= base + k * PAGE → base + k * PAGE + PAGE <= PAGE_ADDRESS_MASK + PAGE →
  is_present (page_entry base k) = true ∧ Z.land (page_entry base k) PAGE_ADDRESS_MASK = base + k * PAGE.
Proof.
  intros Hb H0 Hend. unfold page_entry, is_present.
  set (q := (base + k * PAGE) / 2 ^ 12). assert (base + k * PAGE = q * 2 ^ 12) as ->.
  { unfold q, Paging.PAGE_SIZE in *. Z.div_mod_to_equations; lia. }
  split; [rewrite Z.lor_spec; apply orb_true_r|].
  change PAGE_ADDRESS_MASK with (Z.shiftl (Z.ones 40) 12). rewrite <- Z.shiftl_mul_pow2 by lia.
  rewrite Z.land_lor_distr_l, <- Z.shiftl_land. change (Z.land MMIO_PAGE_FLAGS _) with 0. rewrite Z.lor_0_r.
  rewrite Z.land_ones by lia. rewrite Z.mod_small; [done|].
  unfold q, PAGE_ADDRESS_MASK, Paging.PAGE_SIZE in *. Z.div_mod_to_equations; lia.
Qed.

Lemma physical_of_entry base k a :
  base mod PAGE = 0 → 0 <= base + k * PAGE → base + k * PAGE + PAGE <= PAGE_ADDRESS_MASK + PAGE →
  physical_of (page_entry base k) a = base + k * PAGE + a mod PAGE.
Proof.
  intros Hb H0 Hend. unfold physical_of. destruct (page_entry_bits base k) as [_ ->]; [done..|].
  set (q := (base + k * PAGE) / 2 ^ 12). assert (base + k * PAGE = q * 2 ^ 12) as ->.
  { unfold q, Paging.PAGE_SIZE in *. Z.div_mod_to_equations; lia. }
  rewrite <- Z.shiftl_mul_pow2 by lia. rewrite lor_pack, Z.shiftl_mul_pow2; [done|lia|lia|].
  apply Z.mod_pos_bound. done.
Qed.

(** The addresses on the pages of a grant, and where they lead. *)
Definition on_page g (a pa : Z) : Prop :=
  let offset := physical g mod PAGE in
  pointer g - offset <= a < pointer g - offset + pages (physical g) (extent g) * PAGE ∧
  pa = physical g + (a - pointer g).

Lemma serves_translate s g k r a :
  mapper_ok s → serves s g k r → covers r (slot_of a) →
  translate (translations s) a = Some (physical g + (a - pointer g)).
Proof.
  intros Hs [Hr Ha _ Hptr Hv Hp0 Hpg Hent] Hc. rewrite translate_walk by apply Hs.
  destruct (covers_occ s k r _ Hs Hr Hc) as [Hw _]. unfold walk.
  unfold in_window in Hw. destruct (Z.leb_spec 0 (slot_of a)), (Z.ltb_spec (slot_of a) MMIO_SLOTS); try lia. simpl.
  destruct Hc as [_ Hc]. specialize (Hent (slot_of a - first_slot r) ltac:(lia)). unfold pte in Hent.
  replace (first_slot r + (slot_of a - first_slot r)) with (slot_of a) in Hent by lia. rewrite Hent. simpl.
  set (base := first_page (physical g)) in *. set (j := slot_of a - first_slot r) in *.
  assert (base mod PAGE = 0 ∧ 0 <= base + j * PAGE ∧ base + j * PAGE + PAGE <= PAGE_ADDRESS_MASK + PAGE) as (H1 & H2 & H3).
  { pose proof (v_end _ _ _ Hv) as Hend. fold base in Hend. rewrite <- Hpg in Hend.
    unfold base, j, first_page, Paging.PAGE_SIZE in *. split; [apply Z_mod_mult|].
    clear Hent Hr Hs. split; Z.div_mod_to_equations; lia. }
  destruct (page_entry_bits base j) as [-> _]; [done..|]. simpl. rewrite physical_of_entry by done. f_equal.
  rewrite Hptr. pose proof (proj1 (slot_of_iff a _) eq_refl) as Ha'. unfold slot_base, j, base, first_page in *.
  unfold MMIO_WINDOW_BASE, Paging.PAGE_SIZE in *. clear Hent Hr Hs. Z.div_mod_to_equations; lia.
Qed.

Lemma on_page_covers s g k r a pa :
  serves s g k r → on_page g a pa ↔ covers r (slot_of a) ∧ pa = physical g + (a - pointer g).
Proof.
  intros [_ Ha _ Hptr _ _ Hpg _]. unfold on_page, covers. rewrite <- Hpg.
  replace (pointer g - physical g mod PAGE) with (slot_base (first_slot r)) by lia.
  pose proof (proj1 (slot_of_iff a _) eq_refl) as Hs. unfold slot_base, Paging.PAGE_SIZE in *.
  split; intros [? ?]; split; try done; [split; [done|]|]; lia.
Qed.

Lemma translate_exact s gs a pa :
  mapper_ok s → linked s gs → translate (translations s) a = Some pa ↔ ∃ g, g ∈ gs ∧ on_page g a pa.
Proof.
  intros Hs Hl. split.
  - intros Ht. pose proof Ht as Hw. rewrite translate_walk in Hw by apply Hs. unfold walk in Hw.
    destruct (Z.leb_spec 0 (slot_of a)), (Z.ltb_spec (slot_of a) MMIO_SLOTS); try done. simpl in Hw.
    assert (in_window (slot_of a)) as Hi by done.
    destruct (occ s (slot_of a)) eqn:Ho.
    + apply (mo_occ _ Hs) in Ho as (k & r & Hr & Hc); [|done].
      destruct (li_granted _ _ Hl k r Hr) as (g & Hg & Hsv); [apply Hc|]. exists g. split; [done|].
      rewrite (on_page_covers s g k r) by done. split; [done|].
      rewrite (serves_translate s g k r) in Ht by done. congruence.
    + pose proof (mo_clear _ Hs _ Hi Ho) as Hz. unfold pte in Hz. by rewrite Hz in Hw.
  - intros (g & Hg & Hon). destruct (li_served _ _ Hl g Hg) as (k & r & Hsv).
    rewrite (on_page_covers s g k r) in Hon by done. destruct Hon as [Hc ->]. by eapply serves_translate.
Qed.

Lemma grants_apart s gs g g' a pa pa' :
  mapper_ok s → linked s gs → g ∈ gs → g' ∈ gs → on_page g a pa → on_page g' a pa' → g = g'.
Proof.
  intros Hs Hl Hg Hg' H1 H2.
  destruct (li_served _ _ Hl g Hg) as (k & r & Hsv), (li_served _ _ Hl g' Hg') as (k' & r' & Hsv').
  apply (on_page_covers s g k r) in H1 as [Hc1 _]; [|done]. apply (on_page_covers s g' k' r') in H2 as [Hc2 _]; [|done].
  assert (k = k') as <- by (eapply (mo_apart _ Hs); [apply Hsv|apply Hsv'|done|done]).
  pose proof (se_record _ _ _ _ Hsv) as Hr. rewrite (se_record _ _ _ _ Hsv') in Hr. injection Hr as <-.
  apply list_elem_of_lookup in Hg as (i & Hi), Hg' as (j & Hj).
  assert (i = j) as <-; [|congruence]. eapply NoDup_lookup; [apply (li_distinct _ _ Hl)|..].
  - rewrite list_lookup_fmap, Hi. done.
  - rewrite list_lookup_fmap, Hj. simpl. by rewrite (se_handle _ _ _ _ Hsv), (se_handle _ _ _ _ Hsv').
Qed.

(** ** Histories *)

(** Nothing is mapped: [mmio_p1_table] starts as zeroes. *)
Definition booted : state := State new (Translations (replicate (Z.to_nat MMIO_SLOTS) 0) []).

(** The calls of drivers, with the list of grants in force, and the processor,
    which buffers entries of the table and drops them as it likes. *)
Inductive step : state * list grant → state * list grant → Prop :=
| MapStep s gs p len fl m s' :
    u64 p → u64 len → map p len fl s = Done m s' →
    step (s, gs) (s', Grant (MmioMapping.handle m) (MmioMapping.pointer m) p len :: gs)
| MapFailed s gs p len fl e s' :
    u64 p → u64 len → map p len fl s = Fail e s' → step (s, gs) (s', gs)
| UnmapStep s gs h status s' :
    u64 h → unmap (E := Empty_set) h s = Done status s' →
    step (s, gs) (s', if status =? STATUS_OK then filter (λ g, handle g ≠ h) gs else gs)
| Buffered s gs l :
    (∀ a e, (a, e) ∈ l → (a, e) ∈ tlb (translations s) ∨
       ∃ i, in_window i ∧ a = slot_base i ∧ pte s i = Some e ∧ is_present e = true) →
    step (s, gs) (with_translations (Translations (p1_table (translations s)) l) s, gs).

Definition reachable (c : state * list grant) : Prop := rtc step (booted, []) c.

Lemma booted_ok : mapper_ok booted ∧ linked booted [].
Proof.
  assert (∀ k r, records (mapper booted) !! k = Some r → r = EMPTY) as Hrec.
  { intros k r [-> _]%lookup_replicate. done. }
  split; split.
  - split; [|done|by intros ? ? []%not_elem_of_nil]. split; [done|]. by apply Forall_replicate.
  - done.
  - intros k r ->%Hrec. by split; [unfold MAX; simpl; lia|].
  - by intros k j r q i ->%Hrec _ [? _].
  - intros i Hi. split; [|by intros (k & r & ->%Hrec & [? _])].
    unfold occ, Frame.bit. simpl. case_match eqn:Hw; [|done]. apply (lookup_replicate_1 8) in Hw as [-> _]. by rewrite Z.bits_0.
  - intros i Hi _. apply (lookup_replicate_2 (Z.to_nat MMIO_SLOTS) 0). unfold in_window in Hi. lia.
  - by intros g []%not_elem_of_nil.
  - by intros k r ->%Hrec.
  - apply NoDup_nil_2.
Qed.

Lemma buffered_ok s gs l :
  (∀ a e, (a, e) ∈ l → (a, e) ∈ tlb (translations s) ∨
     ∃ i, in_window i ∧ a = slot_base i ∧ pte s i = Some e ∧ is_present e = true) →
  mapper_ok s → linked s gs →
  let s' := with_translations (Translations (p1_table (translations s)) l) s in mapper_ok s' ∧ linked s' gs.
Proof.
  intros Hb Hs Hl s'. split.
  - pose proof (mo_shape _ Hs) as [Hbits Htable Hco]. destruct Hs. split; try done. split; try done. intros a e Hin.
    destruct (Hb a e Hin) as [Hold|Hnew]; [by apply Hco|done].
  - destruct Hl as [H1 H2 H3]. split; [|..|done].
    + intros g Hg. destruct (H1 g Hg) as (k & r & []). exists k, r. by split.
    + intros k r Hr Ha. destruct (H2 k r Hr Ha) as (g & Hg & []). exists g. split; [done|]. by split.
Qed.

Lemma mmio_step_ok c c' : step c c' → mapper_ok c.1 → linked c.1 c.2 → mapper_ok c'.1 ∧ linked c'.1 c'.2 ∧ ages c.1 c'.1.
Proof.
  intros [s gs p len fl m s' Hp Hlen Hm|s gs p len fl e s' Hp Hlen Hm|s gs h st s' Hh Hu|s gs l Hb] Hs Hl; simpl in *.
  - pose proof (wp_Done _ _ _ _ _ _ (map_ok p len fl s gs Hs Hl Hp Hlen) Hm) as (? & ? & ? & _). done.
  - pose proof (wp_Fail _ _ _ _ _ _ (map_ok p len fl s gs Hs Hl Hp Hlen) Hm) as [-> _]. done.
  - pose proof (wp_Done _ _ _ _ _ _ (unmap_ok h s gs Hs Hl Hh) Hu) as [(-> & _ & ? & ? & ? & _)|(-> & _ & ->)]; done.
  - destruct (buffered_ok s gs l Hb Hs Hl). split_and!; [done|done|]. intros k r Hr. exists r. by split_and!; [|lia|congruence].
Qed.

Lemma mmio_steps_ok c c' :
  rtc step c c' → mapper_ok c.1 → linked c.1 c.2 → mapper_ok c'.1 ∧ linked c'.1 c'.2 ∧ ages c.1 c'.1.
Proof.
  induction 1 as [c|c1 c2 c3 Hstep _ IH]; intros Hs Hl; [done|].
  destruct (mmio_step_ok _ _ Hstep Hs Hl) as (Hs2 & Hl2 & Ha2). destruct (IH Hs2 Hl2) as (? & ? & ?).
  split_and!; [done|done|by etrans].
Qed.
Lemma mmio_reachable_ok s gs : reachable (s, gs) → mapper_ok s ∧ linked s gs.
Proof. intros H. destruct booted_ok. by destruct (mmio_steps_ok _ _ H) as (? & ? & _). Qed.

(** A spent handle is refused. *)
Lemma spent_not_live s h : mapper_ok s → spent s h → ¬ live s h.
Proof.
  intros Hs (k & r & gen & Hr & -> & Hle & Hlt) (j & q & Hq & Ha & Heq).
  pose proof (ro_generation _ (mo_record _ Hs k r Hr)). pose proof (ro_generation _ (mo_record _ Hs j q Hq)).
  apply lookup_lt_Some in Hr as Hk, Hq as Hj. rewrite (mo_len _ Hs) in Hk, Hj.
  apply handle_of_inj in Heq as [-> ->]; [|lia|done..]. simplify_eq. specialize (Hlt Ha). lia.
Qed.
Lemma live_granted s gs h : mapper_ok s → linked s gs → live s h ↔ ∃ g, g ∈ gs ∧ handle g = h.
Proof.
  intros Hs Hl. split.
  - intros (k & r & Hr & Ha & ->). destruct (li_granted _ _ Hl k r Hr Ha) as (g & Hg & Hsv). exists g. split; [done|apply Hsv].
  - intros (g & Hg & <-). destruct (li_served _ _ Hl g Hg) as (k & r & []). by exists k, r.
Qed.
End MmioRuns.

(** ** Accesses through a window *)

Module WindowFacts.
Import EarlyMmioMapper MmioFacts MmioOps MmioRuns.
#[local] Abbreviation PAGE := Paging.PAGE_SIZE.
Section window.
Context {D : Type} {HD : Bus D}.
Implicit Types (w : MmioWindow.t) (d : D).

(** The grant a window stands for, when it was opened at [p]. *)
Definition window_grant w (p : Z) : grant := Grant (MmioWindow.id w) (MmioWindow.base w) p (MmioWindow.length w).

Definition sizes : list Z := [1; 2; 4; 8].
Lemma size_divides size : size ∈ sizes → 0 < size <= 8 ∧ PAGE mod size = 0.
Proof. unfold sizes. rewrite !elem_of_cons, elem_of_nil. intros [->|[->|[->|[->|[]]]]]; (split; [lia|reflexivity]). Qed.

(** An aligned access stays on one page. *)
Lemma aligned_in_page size x : size ∈ sizes → x mod size = 0 → x mod PAGE + size <= PAGE.
Proof.
  unfold sizes, Paging.PAGE_SIZE. rewrite !elem_of_cons, elem_of_nil.
  intros [->|[->|[->|[->|[]]]]] H; Z.div_mod_to_equations; lia.
Qed.

Lemma window_translate s gs w p k :
  mapper_ok s → linked s gs → window_grant w p ∈ gs → 0 <= k < MmioWindow.length w →
  translate (translations s) (MmioWindow.base w + k) = Some (p + k).
Proof.
  intros Hs Hl Hg Hk. apply (translate_exact s gs); [done..|]. exists (window_grant w p). split; [done|].
  destruct (li_served _ _ Hl _ Hg) as (j & r & [_ _ _ _ Hv Hp _ _]). unfold on_page. simpl in *. split; [|lia].
  unfold pages, div_ceil, Paging.PAGE_SIZE in *. destruct Hv. Z.div_mod_to_equations; lia.
Qed.

(** The base has the address of its device in its page. *)
Lemma window_base s gs w p :
  mapper_ok s → linked s gs → window_grant w p ∈ gs →
  MmioWindow.base w mod PAGE = p mod PAGE ∧ 0 <= MmioWindow.base w ∧
  MmioWindow.base w + MmioWindow.length w < 2 ^ 64.
Proof.
  intros Hs Hl Hg. destruct (li_served _ _ Hl _ Hg) as (j & r & [Hr Ha _ Hptr Hv Hp Hpg _]). simpl in *.
  destruct (ro_active _ (mo_record _ Hs j r Hr) Ha) as (_ & H1 & H2 & H3). rewrite Hpg in H3.
  rewrite Hptr. unfold slot_base, MMIO_WINDOW_BASE, MMIO_SLOTS, pages, div_ceil, Paging.PAGE_SIZE in *.
  clear Hg Hr Hs Hl. split_and!; Z.div_mod_to_equations; lia.
Qed.

(** What an access must do: refuse, or reach the device at [p + offset]. *)
Definition access_error w (p size offset : Z) : option MmioAccessError.t :=
  if MmioWindow.length w <? offset + size then Some MmioAccessError.OutOfBounds
  else if negb ((p + offset) mod size =? 0) then Some MmioAccessError.Misaligned else None.

Lemma checked_pointer_ok {S} s gs w p size offset (m : S) :
  mapper_ok s → linked s gs → window_grant w p ∈ gs → size ∈ sizes → u64 offset →
  MmioWindow.checked_pointer w size offset m =
    match access_error w p size offset with Some e => Fail e m | None => Done (MmioWindow.base w + offset) m end.
Proof.
  intros Hs Hl Hg Hsize [Ho _]. destruct (size_divides size Hsize) as [Hsz Hdiv].
  destruct (window_base s gs w p) as (Hmod & Hb & Hend); [done..|].
  assert ((MmioWindow.base w + offset) mod size = (p + offset) mod size) as Heq.
  { clear Hg Hl Hs. revert Hsize Hmod. unfold sizes, Paging.PAGE_SIZE. rewrite !elem_of_cons, elem_of_nil.
    intros [->|[->|[->|[->|[]]]]] Hmod; Z.div_mod_to_equations; lia. }
  unfold MmioWindow.checked_pointer, access_error, checked_add, add, mbind, M_bind, ok_or.
  destruct (Z.ltb_spec (offset + size) (2 ^ 64)) as [Hfit|Hfit]; simpl.
  2: { destruct (Z.ltb_spec (MmioWindow.length w) (offset + size)); [done|lia]. }
  destruct (Z.ltb_spec (MmioWindow.length w) (offset + size)); [done|]. unfold checked_add.
  destruct (Z.ltb_spec (MmioWindow.base w + offset) (2 ^ 64)); [|lia]. unfold mret, M_ret. rewrite Heq.
  by destruct ((p + offset) mod size =? 0).
Qed.

Lemma window_read_ok s gs w p size offset d :
  mapper_ok s → linked s gs → window_grant w p ∈ gs → size ∈ sizes → u64 offset →
  MmioWindow.read size w offset (MmioWindow.Machine s d) =
    match access_error w p size offset with
    | Some e => Fail e (MmioWindow.Machine s d)
    | None => let '(v, d') := bus_read size (p + offset) d in Done v (MmioWindow.Machine s d')
    end.
Proof.
  intros Hs Hl Hg Hsize Ho. unfold MmioWindow.read, mbind, M_bind.
  rewrite (checked_pointer_ok s gs w p) by done. destruct (access_error _ _ _ _) eqn:He; [done|].
  unfold access_error in He. destruct (Z.ltb_spec (MmioWindow.length w) (offset + size)); [done|].
  destruct (size_divides size Hsize). destruct Ho.
  unfold MmioWindow.read_volatile, get, mbind, M_bind. simpl. rewrite (window_translate s gs w p) by (done || lia).
  by destruct (bus_read _ _ _).
Qed.

Lemma window_write_ok s gs w p size offset value d :
  mapper_ok s → linked s gs → window_grant w p ∈ gs → size ∈ sizes → u64 offset →
  MmioWindow.write size w offset value (MmioWindow.Machine s d) =
    match access_error w p size offset with
    | Some e => Fail e (MmioWindow.Machine s d)
    | None => Done () (MmioWindow.Machine s (bus_write size (p + offset) value d))
    end.
Proof.
  intros Hs Hl Hg Hsize Ho. unfold MmioWindow.write, mbind, M_bind.
  rewrite (checked_pointer_ok s gs w p) by done. destruct (access_error _ _ _ _) eqn:He; [done|].
  unfold access_error in He. destruct (Z.ltb_spec (MmioWindow.length w) (offset + size)); [done|].
  destruct (size_divides size Hsize). destruct Ho.
  unfold MmioWindow.write_volatile, get, mbind, M_bind. simpl. by rewrite (window_translate s gs w p) by (done || lia).
Qed.

Lemma window_map_step s gs p len d w m :
  u64 p → u64 len → MmioWindow.map p len (MmioWindow.Machine s d) = Done w m →
  MmioWindow.devices m = d ∧ MmioWindow.length w = len ∧ step (s, gs) (MmioWindow.kernel m, window_grant w p :: gs).
Proof.
  intros Hp Hlen. unfold MmioWindow.map, MmioWindow.on_kernel, zoom, map_err, mbind, M_bind. simpl.
  destruct (map p len 0 s) as [mapping s'| |] eqn:Hm; [|done..]. intros [= <- <-]. split_and!; [done..|].
  by eapply MapStep.
Qed.
End window.
End WindowFacts.

(** ** Claims *)

Module MmioClaims.
Import EarlyMmioMapper MmioFacts MmioOps MmioRuns WindowFacts.

(** C15: In every state the mapper can reach, with any buffering by the processor,
    an address of the device window translates exactly when it lies on a page of
    a mapping in force, and then to that mapping's device address; no address
    lies on the pages of two mappings. *)
Theorem mmio_translation_exact (s : state) (gs : list grant) :
  reachable (s, gs) →
  (∀ a pa, translate (translations s) a = Some pa ↔ ∃ g, g ∈ gs ∧ on_page g a pa) ∧
  (∀ g g' a pa pa', g ∈ gs → g' ∈ gs → on_page g a pa → on_page g' a pa' → g = g').
Proof.
  intros [Hs Hl]%mmio_reachable_ok. split; [by intros; apply translate_exact|].
  intros g g' a pa pa' ? ? ? ?. by apply (grants_apart s gs g g' a pa pa').
Qed.

(** C30: In every reachable state both calls return.  [map] succeeds exactly when
    the request is valid, a record can be taken into use and there is a run of
    free slots for its pages, and a failure changes nothing; [unmap] succeeds
    exactly for the handle of a mapping in force, and otherwise changes nothing. *)
Theorem mmio_calls_decided (s : state) (gs : list grant) :
  reachable (s, gs) →
  (∀ p len fl, u64 p → u64 len →
     match map p len fl s with
     | Done _ _ => valid p len fl ∧ reusable s ∧ ∃ f, free_run s f (pages p len)
     | Fail e s' => s' = s ∧
         ((e = STATUS_INVALID_ARGUMENT ∨ e = STATUS_UNSUPPORTED) ∧ ¬ valid p len fl ∨
          e = STATUS_BUSY ∧ (¬ reusable s ∨ ∀ f, ¬ free_run s f (pages p len)))
     | Panic => False
     end) ∧
  (∀ h, u64 h →
     match unmap (E := Empty_set) h s with
     | Done status s' =>
         (status = STATUS_OK ∧ ∃ g, g ∈ gs ∧ handle g = h) ∨
         (status = STATUS_NOT_FOUND ∧ s' = s ∧ ∀ g, g ∈ gs → handle g ≠ h)
     | _ => False
     end).
Proof.
  intros [Hs Hl]%mmio_reachable_ok. split.
  - intros p len fl Hp Hlen. pose proof (map_ok p len fl s gs Hs Hl Hp Hlen) as H. unfold wp in H.
    destruct (map p len fl s); naive_solver.
  - intros h Hh. pose proof (unmap_ok (E := Empty_set) h s gs Hs Hl Hh) as H. unfold wp in H.
    destruct (unmap h s); [|done..]. rewrite (live_granted s gs h) in H by done. naive_solver.
Qed.

(** After a handle has been unmapped, it is refused in every later state,
    and no later mapping gets it. *)
Theorem mmio_handles_die (s : state) (gs : list grant) (h : Z) (s1 : state) (c : state * list grant) :
  reachable (s, gs) → u64 h → unmap (E := Empty_set) h s = Done STATUS_OK s1 →
  rtc step (s1, filter (λ g, handle g ≠ h) gs) c →
  unmap (E := Empty_set) h (fst c) = Done STATUS_NOT_FOUND (fst c) ∧ ∀ g, g ∈ snd c → handle g ≠ h.
Proof.
  intros [Hs Hl]%mmio_reachable_ok Hh Hu Hc.
  pose proof (wp_Done _ _ _ _ _ _ (unmap_ok h s gs Hs Hl Hh) Hu) as [(_ & _ & Hs1 & Hl1 & _ & Hsp)|(? & _)]; [|done].
  destruct (mmio_steps_ok _ _ Hc Hs1 Hl1) as (Hs2 & Hl2 & Ha).
  pose proof (spent_not_live _ h Hs2 (spent_ages _ _ _ Ha Hsp)) as Hdead. split.
  - pose proof (unmap_ok (E := Empty_set) h _ _ Hs2 Hl2 Hh) as H. unfold wp in H.
    destruct (unmap h (fst c)); [|done..]. by destruct H as [(_ & ? & _)|(-> & _ & ->)].
  - intros g Hg Heq. apply Hdead, (live_granted _ (snd c)); eauto.
Qed.

(** C16: A window opened at a device address is a mapping in force from then on
    until it is closed.  While it is, an access of one, two, four or eight bytes
    is refused without effect when it leaves the window or is misaligned, and
    otherwise is the access of that size at the device address plus the offset,
    all its bytes on one page. *)
Theorem window_access_exact {D : Type} {HD : Bus D} (s : state) (gs : list grant) (d : D) :
  reachable (s, gs) →
  (∀ p len w m, u64 p → u64 len → MmioWindow.map p len (MmioWindow.Machine s d) = Done w m →
     MmioWindow.devices m = d ∧ MmioWindow.length w = len ∧ reachable (MmioWindow.kernel m, window_grant w p :: gs)) ∧
  (∀ w p size offset value, window_grant w p ∈ gs → size ∈ sizes → u64 offset →
     match access_error w p size offset with
     | Some e =>
         MmioWindow.read size w offset (MmioWindow.Machine s d) = Fail e (MmioWindow.Machine s d) ∧
         MmioWindow.write size w offset value (MmioWindow.Machine s d) = Fail e (MmioWindow.Machine s d)
     | None =>
         (p + offset) mod Paging.PAGE_SIZE + size <= Paging.PAGE_SIZE ∧
         MmioWindow.read size w offset (MmioWindow.Machine s d) =
           (let '(v, d') := bus_read size (p + offset) d in Done v (MmioWindow.Machine s d')) ∧
         MmioWindow.write size w offset value (MmioWindow.Machine s d) =
           Done () (MmioWindow.Machine s (bus_write size (p + offset) value d))
     end).
Proof.
  intros Hr. pose proof (mmio_reachable_ok s gs Hr) as [Hs Hl]. split.
  - intros p len w m Hp Hlen Hm. destruct (window_map_step s gs p len d w m Hp Hlen Hm) as (? & ? & Hstep).
    split_and!; [done..|]. by eapply rtc_r.
  - intros w p size offset value Hg Hsize Ho. rewrite (window_read_ok s gs w p), (window_write_ok s gs w p) by done.
    destruct (access_error w p size offset) eqn:He; [done|]. split; [|done].
    apply aligned_in_page; [done|]. unfold access_error in He. repeat case_match; try done. by bool_to_prop.
Qed.
End MmioClaims.

(** ** A machine *)

Module MmioMachine.
Import EarlyMmioMapper MmioFacts MmioOps MmioRuns WindowFacts MmioClaims.

(** Registers by address. *)
#[local] Instance register_bus : Bus (gmap Z Z) := {|
  bus_read _ a d := (default 0 (d !! a), d);
  bus_write _ a v d := <[a := v]> d;
|}.

Definition UNIT : Z := 0xfed90000.
Definition first_mapping : MmioMapping.t := MmioMapping.mk 0x100000001 (MMIO_WINDOW_BASE).
Definition first_grant : grant := Grant 0x100000001 MMIO_WINDOW_BASE UNIT 0x4000.

Lemma unit_width : u64 UNIT ∧ u64 0x4000 ∧ u64 0x100000001.
Proof. split_and!; split; done. Qed.

Lemma mapped_once : ∃ s, map UNIT 0x4000 0 booted = Done first_mapping s.
Proof. apply value_done. vm_compute. reflexivity. Qed.
Lemma mapped_reachable : ∃ s, map UNIT 0x4000 0 booted = Done first_mapping s ∧ reachable (s, [first_grant]).
Proof.
  destruct mapped_once as [s Hs]. exists s. split; [exact Hs|]. apply rtc_once.
  exact (MapStep booted [] UNIT 0x4000 0 first_mapping s (proj1 unit_width) (proj1 (proj2 unit_width)) Hs).
Qed.

Lemma mmio_translation_exact_witness :
  ∃ s, reachable (s, [first_grant]) ∧ translate (translations s) (MMIO_WINDOW_BASE + 0x1018) = Some (UNIT + 0x1018).
Proof.
  destruct mapped_reachable as (s & _ & Hr). exists s. split; [exact Hr|].
  apply (mmio_translation_exact s [first_grant] Hr). exists first_grant. split; [left|].
  unfold on_page. vm_compute. split; [split|]; congruence.
Defined.

Lemma first_unmapped s : reachable (s, [first_grant]) → ∃ s1, unmap (E := Empty_set) 0x100000001 s = Done STATUS_OK s1.
Proof.
  intros [Hs Hl]%mmio_reachable_ok.
  pose proof (unmap_ok (E := Empty_set) 0x100000001 s _ Hs Hl (proj2 (proj2 unit_width))) as H. unfold wp in H.
  destruct (unmap 0x100000001 s) as [st s1| |]; [|done..]. exists s1. destruct H as [[-> _]|(_ & Hno & _)]; [done|].
  exfalso. apply Hno, (live_granted s [first_grant]); [done..|]. exists first_grant. by split; [left|].
Qed.

Lemma mmio_calls_decided_witness :
  (∃ e, map UNIT 0 0 booted = Fail e booted) ∧ valid UNIT 0x4000 0 ∧
  ∃ s s1, map UNIT 0x4000 0 booted = Done first_mapping s ∧ unmap (E := Empty_set) 0x100000001 s = Done STATUS_OK s1 ∧
    ∃ g, g ∈ [first_grant] ∧ handle g = 0x100000001.
Proof.
  pose proof (proj1 (mmio_calls_decided booted [] (rtc_refl _ _))) as Hmap. split; [|split].
  - pose proof (Hmap UNIT 0 0 (proj1 unit_width) (conj (Z.le_refl 0) eq_refl)) as H.
    destruct (map UNIT 0 0 booted) as [m s|e s|]; [|exists e; destruct H as [-> _]; reflexivity|destruct H].
    destruct H as [[Hlen] _]. exfalso. exact (Z.lt_irrefl 0 Hlen).
  - pose proof (Hmap UNIT 0x4000 0 (proj1 unit_width) (proj1 (proj2 unit_width))) as H.
    destruct mapped_once as [s Hs]. rewrite Hs in H. exact (proj1 H).
  - destruct mapped_reachable as (s & Hm & Hr). destruct (first_unmapped s Hr) as [s1 Hu]. exists s, s1.
    split; [exact Hm|]. split; [exact Hu|].
    pose proof (proj2 (mmio_calls_decided s [first_grant] Hr) 0x100000001 (proj2 (proj2 unit_width))) as H.
    rewrite Hu in H. destruct H as [[_ Hg]|[Hst _]]; [exact Hg|discriminate Hst].
Defined.

Lemma mmio_handles_die_witness :
  ∃ s s1, map UNIT 0x4000 0 booted = Done first_mapping s ∧
    unmap (E := Empty_set) 0x100000001 s = Done STATUS_OK s1 ∧
    unmap (E := Empty_set) 0x100000001 s1 = Done STATUS_NOT_FOUND s1.
Proof.
  destruct mapped_reachable as (s & Hm & Hr).
  destruct (first_unmapped s Hr) as [s1 Hu].
  exists s, s1. split; [exact Hm|]. split; [exact Hu|].
  exact (proj1 (mmio_handles_die s [first_grant] 0x100000001 s1 (s1, _) Hr (proj2 (proj2 unit_width)) Hu (rtc_refl _ _))).
Defined.

Definition first_window : MmioWindow.t := MmioWindow.mk 0x100000001 MMIO_WINDOW_BASE 0x4000.
Lemma window_access_exact_witness :
  ∃ s, reachable (s, [first_grant]) ∧
    MmioWindow.read 4 first_window 0x18 (MmioWindow.Machine s {[UNIT + 0x18 := 7]}) =
      Done 7 (MmioWindow.Machine s {[UNIT + 0x18 := 7]}) ∧
    MmioWindow.read 4 first_window 0x4000 (MmioWindow.Machine s ∅) =
      Fail MmioAccessError.OutOfBounds (MmioWindow.Machine s ∅).
Proof.
  destruct mapped_reachable as (s & _ & Hr). exists s. split; [exact Hr|].
  assert (window_grant first_window UNIT ∈ [first_grant]) as Hg by left.
  assert (4 ∈ sizes) as H4 by (right; right; left). split.
  - destruct (proj2 (window_access_exact s [first_grant] {[UNIT + 0x18 := 7]} Hr) first_window UNIT 4 0x18 0 Hg H4
      (conj (Z.lt_le_incl 0 0x18 eq_refl) eq_refl)) as (_ & H & _). exact H.
  - exact (proj1 (proj2 (window_access_exact s [first_grant] ∅ Hr) first_window UNIT 4 0x4000 0 Hg H4
      (conj (Z.lt_le_incl 0 0x4000 eq_refl) eq_refl))).
Defined.
End MmioMachine.
