(* ===== verification/VtdWindow.v ===== *)
(** * The registers of a remapping unit in their window

    Models the part of [VtdMmioRegisters] of [kernel/boulder/src/hw/vtd.rs] that
    owns a typed window: mapping the registers of a unit, closing the window and
    handing the registers to an engine.  The accesses are those of
    [VtdEngine.VtdMmioRegisters], over the windows of [Mmio]. *)
From S2P Require Import Prelude Paging Frame Acpi Slpt VtdMemory VtdTables VtdEngine Iommu Mmio MmioFacts MmioOps.
From S2P Require Import MmioProperties.

Definition map_mmio_map_fault (error : MmioAccessError.t) : VtdEngineFault.t :=
  match error with
  | MmioAccessError.Map status => VtdEngineFault.MmioMap status
  | MmioAccessError.OutOfBounds | MmioAccessError.Misaligned => VtdEngineFault.Register Access
  end.

Module VtdRegisterWindow.
Section registers.
Context {D : Type} {HD : Bus D}.

(** The registers own a unit and its window; the machine they act on is shared. *)
Record t := mk { unit : DmarRemappingUnit.t; window : MmioWindow.t; machine : MmioWindow.machine D }.

Definition map (unit : DmarRemappingUnit.t) : M (MmioWindow.machine D) VtdEngineFault.t MmioWindow.t :=
  lift (validate_unit unit) ;;
  map_err map_mmio_map_fault (MmioWindow.map (DmarRemappingUnit.register_base unit) REGISTER_WINDOW_BYTES).

Definition close (window : MmioWindow.t) : M (MmioWindow.machine D) VtdEngineFault.t () :=
  status ← MmioWindow.close window;
  if status =? STATUS_OK then mret () else throw (VtdEngineFault.MmioMap status).

(** One call of the window; a fault does not return. *)
Definition access {A} (c : M (MmioWindow.machine D) MmioAccessError.t A) (r : t) : option A * t :=
  match c (machine r) with
  | Done a m => (Some a, mk (unit r) (window r) m)
  | Fail _ m => (None, mk (unit r) (window r) m)
  | Panic => (None, r)
  end.
Definition window_read (offset : Z) (r : t) : option Z * t := access (MmioWindow.read 4 (window r) offset) r.
Definition window_write (offset value : Z) (r : t) : option () * t :=
  access (MmioWindow.write 4 (window r) offset value) r.
#[global] Instance backend : VtdRegisterBackend t := VtdMmioRegisters.backend window_read window_write.

Definition into_engine (r : t) : outcome t VtdEngineFault.t (VtdRemappingEngine.t t) :=
  VtdRemappingEngine.probe (unit r) r.
End registers.
Arguments t : clear implicits.
End VtdRegisterWindow.

(** ** The registers of a unit, on the bus

    What a 64-bit access must do, in terms of 32-bit accesses at the unit's own
    address. *)

Module UnitRegisters.
Section unit.
Context {D : Type} {HD : Bus D} (base : Z).

(** A 32-bit register of the window, and a 64-bit one. *)
Definition in_reach (offset : Z) : bool := (offset + 4 <=? REGISTER_WINDOW_BYTES) && (offset mod 4 =? 0).
Definition in_reach64 (offset : Z) : bool := (offset + 8 <=? REGISTER_WINDOW_BYTES) && (offset mod 8 =? 0).

(** The upper half, the lower half and the upper half again. *)
Definition sample (offset : Z) (d : D) : (Z * Z * Z) * D :=
  let '(before, d1) := bus_read 4 (base + offset + 4) d in
  let '(low, d2) := bus_read 4 (base + offset) d1 in
  let '(later, d3) := bus_read 4 (base + offset + 4) d2 in
  ((before, low, later), d3).

(** [n] samples in a row during each of which the upper half changed. *)
Inductive torn (offset : Z) : nat → D → D → Prop :=
| torn_none d : torn offset 0 d d
| torn_sample n d before low later d' d'' :
    sample offset d = ((before, low, later), d') → before ≠ later → torn offset n d' d'' → torn offset (S n) d d''.

(** A value that a sample without a change shows, after fewer than [n] torn ones. *)
Definition shows (offset : Z) (n : nat) (d : D) (v : Z) (d' : D) : Prop :=
  ∃ k d1 high low, (k < n)%nat ∧ torn offset k d d1 ∧ sample offset d1 = ((high, low, high), d') ∧ v = high * 2 ^ 32 + low.
End unit.
End UnitRegisters.

(** ** Claims *)

Module VtdWindowClaims.
Import EarlyMmioMapper MmioOps MmioRuns WindowFacts UnitRegisters VtdRegisterWindow.

Section facts.
Context {D : Type} {HD : Bus D} (s : state) (gs : list grant) (u : DmarRemappingUnit.t) (w : MmioWindow.t).
#[local] Abbreviation base := (DmarRemappingUnit.register_base u).
Hypotheses (Hs : mapper_ok s) (Hl : linked s gs) (Hg : window_grant w base ∈ gs)
  (Hlen : MmioWindow.length w = REGISTER_WINDOW_BYTES) (Hbase : base mod Paging.PAGE_SIZE = 0)
  (Hwidth : ∀ a (d : D), u32 (fst (bus_read 4 a d))).

(** The registers over the devices [d]. *)
Definition over (d : D) : VtdRegisterWindow.t D := VtdRegisterWindow.mk u w (MmioWindow.Machine s d).

Lemma access_in_reach o : access_error w base 4 o = None ↔ in_reach o = true.
Proof.
  unfold access_error, in_reach. rewrite Hlen.
  assert ((base + o) mod 4 = o mod 4) as -> by (unfold Paging.PAGE_SIZE in Hbase; Z.div_mod_to_equations; lia).
  destruct (Z.ltb_spec REGISTER_WINDOW_BYTES (o + 4)), (Z.leb_spec (o + 4) REGISTER_WINDOW_BYTES); try lia; simpl; [done|].
  by destruct (o mod 4 =? 0).
Qed.

Lemma four_sizes : 4 ∈ sizes.
Proof. right; right; left. Qed.

Lemma read32_over o d : u64 o →
  VtdMmioRegisters.read32 window_read o (over d) =
    if in_reach o then let '(v, d') := bus_read 4 (base + o) d in Done v (over d') else Fail Access (over d).
Proof.
  intros Ho. unfold VtdMmioRegisters.read32, window_read, access. simpl.
  rewrite (window_read_ok s gs w base) by (done || apply four_sizes).
  pose proof (access_in_reach o) as Hr. destruct (access_error _ _ _ _), (in_reach o); try naive_solver.
  by destruct (bus_read _ _ _).
Qed.
Lemma write32_over o x d : u64 o →
  VtdMmioRegisters.write32 window_write o x (over d) =
    if in_reach o then Done () (over (bus_write 4 (base + o) x d)) else Fail Access (over d).
Proof.
  intros Ho. unfold VtdMmioRegisters.write32, window_write, access. simpl.
  rewrite (window_write_ok s gs w base) by (done || apply four_sizes).
  pose proof (access_in_reach o) as Hr. destruct (access_error _ _ _ _), (in_reach o); naive_solver.
Qed.

(** Both halves of an aligned register are in reach, or neither is. *)
Lemma halves o : u64 o → o mod 8 = 0 →
  u64 (o + 4) ∧ in_reach o = in_reach64 o ∧ in_reach (o + 4) = in_reach64 o.
Proof.
  intros [H0 H1] H8. unfold in_reach, in_reach64, REGISTER_WINDOW_BYTES, in_width.
  assert (o mod 4 = 0 ∧ (o + 4) mod 4 = 0) as [-> ->] by (Z.div_mod_to_equations; lia). rewrite H8. simpl. rewrite !andb_true_r.
  split; [Z.div_mod_to_equations; lia|].
  destruct (Z.leb_spec (o + 4) 0x4000), (Z.leb_spec (o + 8) 0x4000), (Z.leb_spec (o + 4 + 4) 0x4000);
    (split; done) || (exfalso; Z.div_mod_to_equations; lia).
Qed.
Lemma land_seven o : Z.land o 7 = o mod 8.
Proof. change 7 with (2 ^ 3 - 1). by rewrite land_pow2_mask by lia. Qed.

Lemma read_stable_over n o d : u64 o → o mod 8 = 0 → in_reach64 o = true →
  match VtdMmioRegisters.read_stable window_read n o (over d) with
  | Done v r => ∃ d', r = over d' ∧ shows base o n d v d'
  | Fail e r => e = Unstable ∧ ∃ d', r = over d' ∧ torn base o n d d'
  | Panic => False
  end.
Proof.
  intros Ho H8 Hin. destruct (halves o Ho H8) as (Hu & Hlow & Hhigh). revert d.
  induction n as [|n IH]; intros d; [split; [done|]; exists d; split; [done|constructor]|]. simpl.
  unfold add, checked_add, mbind, M_bind. destruct (Z.ltb_spec (o + 4) (2 ^ 64)); [|unfold in_width in Hu; lia].
  unfold mret at 1, M_ret. rewrite read32_over, Hhigh, Hin by done. rewrite Z.add_assoc.
  destruct (bus_read 4 (base + o + 4) d) as [h1 d1] eqn:E1. rewrite read32_over, Hlow, Hin by done.
  pose proof (Hwidth (base + o) d1) as Hw. destruct (bus_read 4 (base + o) d1) as [l d2] eqn:E2. simpl in Hw.
  rewrite read32_over, Hhigh, Hin by done. rewrite Z.add_assoc. destruct (bus_read 4 (base + o + 4) d2) as [h2 d3] eqn:E3.
  assert (sample base o d = ((h1, l, h2), d3)) as Hsample by (unfold sample; by rewrite E1, E2, E3).
  destruct (Z.eqb_spec h1 h2) as [<-|Hne].
  - exists d3. split; [done|]. exists 0%nat, d, h1, l. split; [lia|]. split; [constructor|]. split; [done|].
    rewrite Z.lor_comm. by apply lor_pack.
  - specialize (IH d3). destruct (VtdMmioRegisters.read_stable _ _ _ _) as [v r|e r|]; [| |done].
    + destruct IH as (d' & -> & k & d4 & h & l' & Hk & Ht & Hshow & Hv). exists d'. split; [done|].
      exists (S k), d4, h, l'. split; [lia|]. split; [by econstructor|done].
    + destruct IH as (-> & d' & -> & Ht). split; [done|]. exists d'. split; [done|]. by econstructor.
Qed.

Lemma read_stable_outside n o d : u64 o → o mod 8 = 0 → in_reach64 o = false →
  VtdMmioRegisters.read_stable window_read (S n) o (over d) = Fail Access (over d).
Proof.
  intros Ho H8 Hin. destruct (halves o Ho H8) as (Hu & _ & Hhigh). simpl.
  unfold add, checked_add, mbind, M_bind. destruct (Z.ltb_spec (o + 4) (2 ^ 64)); [|unfold in_width in Hu; lia].
  unfold mret at 1, M_ret. by rewrite read32_over, Hhigh, Hin by done.
Qed.

Lemma write64_over o x d : u64 o → u64 x →
  VtdMmioRegisters.write64 window_write o x (over d) =
    if in_reach64 o then Done () (over (bus_write 4 (base + o + 4) (x / 2 ^ 32) (bus_write 4 (base + o) (x mod 2 ^ 32) d)))
    else Fail Access (over d).
Proof.
  intros Ho Hx. unfold VtdMmioRegisters.write64. rewrite land_seven. destruct (Z.eqb_spec (o mod 8) 0) as [H8|H8]; simpl.
  2:{ unfold in_reach64. by rewrite (proj2 (Z.eqb_neq _ _) H8), andb_false_r. }
  destruct (halves o Ho H8) as (Hu & Hlow & Hhigh). unfold mbind, M_bind. rewrite write32_over, Hlow by done.
  destruct (in_reach64 o) eqn:Hin; [|done]. unfold add, checked_add.
  destruct (Z.ltb_spec (o + 4) (2 ^ 64)); [|unfold in_width in Hu; lia]. unfold mret, M_ret.
  rewrite write32_over, Hhigh, Z.add_assoc by done. unfold wrap. rewrite Z.shiftr_div_pow2 by lia.
  rewrite (Z.mod_small (x / 2 ^ 32)); [done|]. unfold in_width in Hx. Z.div_mod_to_equations; lia.
Qed.
End facts.

Lemma validated_aligned u : validate_unit u = Ok () → DmarRemappingUnit.register_base u mod Paging.PAGE_SIZE = 0.
Proof.
  unfold validate_unit, validate_register_base. destruct (_ || _) eqn:H; [done|]. intros _. by bool_to_prop.
Qed.

Lemma mapped_window {D : Type} {HD : Bus D} s gs u (d : D) w m :
  u64 (DmarRemappingUnit.register_base u) → VtdRegisterWindow.map u (MmioWindow.Machine s d) = Done w m →
  MmioWindow.devices m = d ∧ MmioWindow.length w = REGISTER_WINDOW_BYTES ∧ validate_unit u = Ok () ∧
  step (s, gs) (MmioWindow.kernel m, window_grant w (DmarRemappingUnit.register_base u) :: gs).
Proof.
  intros Hu. unfold VtdRegisterWindow.map, mbind, M_bind. destruct (validate_unit u) as [[]|] eqn:Hv; simpl; [|done].
  unfold map_err. destruct (MmioWindow.map _ _ _) as [w' m'| |] eqn:Hm; [|done..]. intros [= <- <-].
  destruct (window_map_step s gs _ REGISTER_WINDOW_BYTES d w' m' Hu
    (conj (Z.lt_le_incl 0 REGISTER_WINDOW_BYTES eq_refl) eq_refl) Hm) as (? & ? & ?). by split_and!.
Qed.

(** C17: 64-bit registers of a unit over its 32-bit window, which is the one on
    the sixteen kilobytes at the unit's base address that [map] opened, while it
    is open.  An access that is misaligned or leaves the window is refused and
    touches no register.  A write stores the lower half at the register's own
    address and then, last, the upper half four bytes further.  A read never
    mixes two values of a register: what it returns is an upper half that was
    the same before and after the lower half was read, with that lower half; it
    gives up exactly when the upper half changed during each of three samples. *)
Theorem registers_never_torn {D : Type} {HD : Bus D} (s : state) (gs : list grant) (u : DmarRemappingUnit.t) (d0 : D) w m
    (c : state * list grant) (d : D) (o x : Z) :
  (∀ a (d : D), u32 (fst (bus_read 4 a d))) → u64 (DmarRemappingUnit.register_base u) →
  reachable (s, gs) → VtdRegisterWindow.map u (MmioWindow.Machine s d0) = Done w m →
  rtc step (MmioWindow.kernel m, window_grant w (DmarRemappingUnit.register_base u) :: gs) c →
  window_grant w (DmarRemappingUnit.register_base u) ∈ snd c → u64 o → u64 x →
  let base := DmarRemappingUnit.register_base u in
  let registers := over (fst c) u w in
  if in_reach64 o then
    write_u64 o x (registers d) =
      (Ok (), registers (bus_write 4 (base + o + 4) (x / 2 ^ 32) (bus_write 4 (base + o) (x mod 2 ^ 32) d))) ∧
    match read_u64 o (registers d) with
    | (Ok v, r) => ∃ d', r = registers d' ∧ shows base o 3 d v d'
    | (Err e, r) => e = Unstable ∧ ∃ d', r = registers d' ∧ torn base o 3 d d'
    end
  else write_u64 o x (registers d) = (Err Access, registers d) ∧ read_u64 o (registers d) = (Err Access, registers d).
Proof.
  intros Hwidth Hu Hr Hm Hc Hg Ho Hx base registers. destruct (mapped_window s gs u d0 w m Hu Hm) as (_ & Hlen & Hv%validated_aligned & Hst).
  assert (reachable (fst c, snd c)) as [Hs Hl]%mmio_reachable_ok
    by (rewrite <-surjective_pairing; unfold reachable; etransitivity; [exact Hr|]; eapply rtc_l; [exact Hst|exact Hc]).
  cbn [write_u64 read_u64 VtdRegisterWindow.backend VtdMmioRegisters.backend]. unfold VtdMmioRegisters.settle.
  unfold registers. rewrite (write64_over (fst c) (snd c)) by done.
  unfold VtdMmioRegisters.read64. rewrite land_seven. destruct (Z.eqb_spec (o mod 8) 0) as [H8|H8]; cbn [negb].
  2:{ unfold in_reach64. by rewrite (proj2 (Z.eqb_neq _ _) H8), andb_false_r. }
  destruct (in_reach64 o) eqn:Hin; [|by rewrite (read_stable_outside (fst c) (snd c))]. split; [done|].
  pose proof (read_stable_over (fst c) (snd c) u w Hs Hl Hg Hlen Hv Hwidth 3 o d Ho H8 Hin) as H.
  destruct (VtdMmioRegisters.read_stable window_read 3 o (over (fst c) u w d)); done.
Qed.
End VtdWindowClaims.

(** ** A unit *)

Module VtdWindowMachine.
Import EarlyMmioMapper MmioOps MmioRuns WindowFacts MmioMachine UnitRegisters VtdRegisterWindow VtdWindowClaims.

(** Registers by address. *)
#[local] Instance unit_bus : Bus (gmap Z Z) := {|
  bus_read _ a d := (wrap 32 (default 0 (d !! a)), d);
  bus_write _ a v d := <[a := v]> d;
|}.
Lemma unit_bus_width a (d : gmap Z Z) : u32 (fst (bus_read 4 a d)).
Proof. apply in_width_wrap. lia. Qed.
Definition dmar_unit : DmarRemappingUnit.t := DmarRemappingUnit.mk 0 UNIT true 0 0 0.

Lemma unit_mapped :
  ∃ m, VtdRegisterWindow.map dmar_unit (MmioWindow.Machine booted (∅ : gmap Z Z)) = Done first_window m.
Proof. apply value_done. vm_compute. reflexivity. Qed.

(** A root pointer written to the unit is the one that is read back. *)
Lemma registers_never_torn_witness :
  ∃ s d, write_u64 RTADDR 0x123456000 (over s dmar_unit first_window ∅) = (Ok (), over s dmar_unit first_window d) ∧
    d !! (UNIT + RTADDR) = Some 0x23456000 ∧ d !! (UNIT + RTADDR + 4) = Some 1.
Proof.
  destruct unit_mapped as [m Hm].
  assert (u64 RTADDR ∧ u64 0x123456000) as [Ho Hx] by (split; split; done || reflexivity).
  pose proof (registers_never_torn booted [] dmar_unit ∅ first_window m _ ∅ RTADDR 0x123456000 unit_bus_width
    (proj1 unit_width) (rtc_refl _ _) Hm (rtc_refl _ _) (list_elem_of_here _ _) Ho Hx) as H.
  exists (MmioWindow.kernel m). eexists. split; [exact (proj1 H)|]. split; vm_compute; reflexivity.
Defined.
End VtdWindowMachine.
