(* ===== verification/IommuStack.v ===== *)
(** * The IOMMU domain on the VT-d backend

    The two components together: an [IommuDomain] whose backend is a
    [VtdDmaBackend], down to the page tables and the caches of the unit.  The
    translations that the domain lists are tied to the batches of the backend,
    and these to what the device reaches. *)
From S2P Require Import Prelude Paging Acpi Slpt SlptTree SlptLedger SlptPath SlptOps SlptRuns SlptCalls.
From S2P Require Import VtdMemory VtdTables SlptProperties VtdProperties VtdEngine VtdEngineFacts.
From S2P Require Import VtdEngineProperties VtdScope Iova XhciDma Iommu IommuFacts IommuOps IommuProperties.
From S2P Require Import VtdBackend VtdBackendFacts VtdBackendOps VtdBackendSpans VtdBackendDomain.
From S2P Require Import VtdBackendRuns VtdBackendProperties.

Module IommuStack.
Import BatchSlot VtdDmaBackend VtdBackendRuns.

Section stack.
Context {R Mem : Type} {HB : VtdRegisterBackend R} {HU : VtdUnitLaws R}
  {HM : SlptPageMemory Mem} {HML : SlptMemoryLaws Mem}.
Context (PAGES BATCHES MAX_BATCH_PAGES : Z).
#[local] Abbreviation core := (VtdDmaBackend.core (R := R) (Mem := Mem)).
#[local] Abbreviation good := (VtdBackendRuns.good PAGES BATCHES).
#[local] Instance vtd : DmaRemappingBackend (option core) := VtdDmaBackend.backend PAGES BATCHES MAX_BATCH_PAGES.
Implicit Types (c : core) (x : DmaMappingInfo.t) (o : ObservedBackend.t (option core)).

(** ** Listed translations and batches *)

Definition matches x (b : BatchSlot.t) : Prop :=
  device_address b = DmaMappingInfo.device_address x ∧ physical_address b = DmaMappingInfo.physical_address x ∧
  length b = DmaMappingInfo.length x.
Definition page_shown (a : Slpt.t) x (n : Z) : Prop :=
  page_at a (DmaMappingInfo.device_address x) (DmaMappingInfo.physical_address x)
    (permissions_of (DmaMappingInfo.access x)) n.

(** A batch that was once active backs an acknowledged translation; a batch that
    never was is the quarantined rest of a failed call. *)
Record coupled c (l : list DmaMappingInfo.t) : Prop := {
  cp_active j b : batches c !! j = Some b → used b → was_active b = true → ∃ x, x ∈ l ∧ matches x b;
  cp_failed j b : batches c !! j = Some b → used b → was_active b = false → phase b = BatchPhase.Quarantined;
  cp_live x : x ∈ l → ∃ j b, batches c !! j = Some b ∧ used b ∧ was_active b = true ∧ matches x b ∧
    (phase b = BatchPhase.Active → ∀ n, 0 <= n < page_count b → page_shown (slpt c) x n);
}.
Definition tied o : Prop :=
  ∃ c, ObservedBackend.inner o = Some c ∧ good c ∧ coupled c (ObservedBackend.live o).

Lemma coupled_idle c : idle c → coupled c [].
Proof.
  intros Hi. split; [intros j b Hj Hu; by destruct (Hi j b Hj)..|]. intros x Hx. inversion Hx.
Qed.
Lemma coupled_same c c' l : batches c' = batches c → slpt c' = slpt c → coupled c l → coupled c' l.
Proof. intros Hb Ha [H1 H2 H3]. split; rewrite ?Hb, ?Ha; done. Qed.

(** Batch [i] is withdrawn; the pages of batch [j] stay. *)
Lemma page_survives c a i j b b' x n :
  good c → batches c !! i = Some b → used b → batches c !! j = Some b' → used b' → i ≠ j → matches x b' →
  0 <= n < page_count b' → kept c (covers b) a → page_shown (slpt c) x n → page_shown a x n.
Proof.
  intros [[Hs _] _] Hi Hu Hj Hu' Hne (Hd & Hp & Hl) Hn Hk (bits & Hb & k & r & Hr & Hlive & Hv & He).
  exists bits. split; [done|]. exists k, r. split_and!; [|done..]. apply Hk; [done|]. intros m Hm Hplace.
  pose proof (ck_layout _ _ _ Hs) as Hlay.
  pose proof (place_batch PAGES _ _ _ _ _ _ _ Hlay Hi Hu Hm Hplace eq_refl) as Hpg.
  apply (page_in_span PAGES) in Hpg as [Hin _]; [|by eapply lay_ok].
  destruct (lay_apart _ _ Hlay i j b b' Hi Hj Hu Hu' Hne) as (_ & Hap & _).
  pose proof (b_length _ _ (lay_ok _ _ Hlay j b' Hj Hu')) as Hlen.
  unfold in_span, apart, Paging.PAGE_SIZE in *. rewrite Hv, <-Hd in Hin. lia.
Qed.

Lemma locked_wp {A} (missing : A) (m : M core Empty_set A) c (Q : A → core → Prop) :
  wp m Q (λ _ _, False) c → ∃ a c', locked missing m (Some c) = (a, Some c') ∧ Q a c'.
Proof. unfold wp, locked. destruct (m c) as [a c'|[]|]; [|done]. eauto. Qed.

(** ** The backend keeps the tie *)

(** What batch [b] in slot [i] says of a listed translation. *)
Definition backed (a : Slpt.t) x (b : BatchSlot.t) : Prop :=
  used b ∧ was_active b = true ∧ matches x b ∧
  (phase b = BatchPhase.Active → ∀ n, 0 <= n < page_count b → page_shown a x n).

(** One batch changes. *)
Lemma coupled_replace c c' i b b' l l' :
  coupled c l → batches c !! i = Some b → batches c' = <[i := b']> (batches c) →
  (used b' → was_active b' = true → ∃ x, x ∈ l' ∧ matches x b') →
  (used b' → was_active b' = false → phase b' = BatchPhase.Quarantined) →
  (∀ j bj x, j ≠ i → batches c !! j = Some bj → used bj → x ∈ l → matches x bj → x ∈ l') →
  (∀ x, x ∈ l' → backed (slpt c') x b' ∨ x ∈ l ∧ ¬ (used b ∧ was_active b = true ∧ matches x b)) →
  (∀ j bj x n, j ≠ i → batches c !! j = Some bj → used bj → matches x bj → 0 <= n < page_count bj →
     page_shown (slpt c) x n → page_shown (slpt c') x n) →
  coupled c' l'.
Proof.
  intros [H1 H2 H3] Hi Hbs Ha Hf Hstay Hlive Hpg. pose proof (lookup_lt_Some _ _ _ Hi) as Hlt. split; rewrite Hbs.
  - intros j bj Hj Hu Hwa. destruct (decide (i = j)) as [<-|Hne].
    + rewrite list_lookup_insert_eq in Hj by done. simplify_eq. by apply Ha.
    + rewrite list_lookup_insert_ne in Hj by done. destruct (H1 j bj Hj Hu Hwa) as (x & Hx & Hm). exists x. eauto.
  - intros j bj Hj Hu Hwa. destruct (decide (i = j)) as [<-|Hne].
    + rewrite list_lookup_insert_eq in Hj by done. simplify_eq. by apply Hf.
    + rewrite list_lookup_insert_ne in Hj by done. by eapply H2.
  - intros x Hx. destruct (Hlive x Hx) as [Hb|[Hold Hnot]].
    + exists i, b'. split; [by apply list_lookup_insert_eq|done].
    + destruct (H3 x Hold) as (j & bj & Hj & Hu & Hwa & Hm & Hpages). destruct (decide (i = j)) as [<-|Hne].
      { simplify_eq. by destruct Hnot. }
      exists j, bj. rewrite list_lookup_insert_ne by done. split_and!; [done..|]. intros Hph n Hn. eapply Hpg; eauto.
Qed.

Lemma tied_map c l dev phys size access status c' :
  good c → coupled c l →
  (c' = c ∧ status ≠ STATUS_OK ∨
   ∃ i ps b0, batches c !! i = Some b0 ∧
     let b := new_batch c b0 ps (size / Paging.PAGE_SIZE) dev phys size in
     stageable PAGES c i b ∧ span_staged PAGES BATCHES c i b (permissions_of access) status c') →
  good c' ∧ coupled c' (if status =? STATUS_OK then DmaMappingInfo.mk dev phys size access :: l else l).
Proof.
  intros Hg Hcp [[-> Hst]|(i & ps & b0 & Hi & Hsg & [Hok Hset _ Hkept Hb])].
  { split; [done|]. by rewrite (proj2 (Z.eqb_neq _ _) Hst). }
  split; [by split|]. destruct (sg_slot _ _ _ _ Hsg) as (b1 & Hb1 & Hnu). simplify_eq.
  assert (∀ j bj x n, j ≠ i → batches c !! j = Some bj → used bj → matches x bj → 0 <= n < page_count bj →
     page_shown (slpt c) x n → page_shown (slpt c') x n) as Hpg by (intros j bj x n _ _ _ _ _; by eapply page_at_kept).
  destruct Hb as [(-> & Hbs & Hpages)|[Hst Hbs]].
  - rewrite Z.eqb_refl. eapply (coupled_replace c c' i b0); [done..| | | | |done].
    + intros _ _. eexists. split; [left|done].
    + done.
    + intros. by right.
    + intros x [->|Hx]%elem_of_cons; [left|right; split; [done|by intros [? _]]]. by split_and!.
  - rewrite (proj2 (Z.eqb_neq _ _) Hst).
    destruct Hbs as [Hbs|Hbs]; (eapply (coupled_replace c c' i b0); [done..| | |done| |done]).
    1,2: by intros ?%retired_unused.
    2,3: done.
    all: intros x Hx; right; split; [done|by intros [? _]].
Qed.

Lemma placed_spec dev size x :
  ObservedBackend.placed_at dev size x = true ↔ DmaMappingInfo.device_address x = dev ∧ DmaMappingInfo.length x = size.
Proof. unfold ObservedBackend.placed_at. by rewrite andb_true_iff, !Z.eqb_eq. Qed.

(** Two batches in use never start at the same device address. *)
Lemma same_device c i j b b' :
  good c → batches c !! i = Some b → batches c !! j = Some b' → used b → used b' →
  device_address b = device_address b' → i = j.
Proof.
  intros [[Hs _] _] Hi Hj Hu Hu' Hd. destruct (decide (i = j)) as [|Hne]; [done|]. exfalso.
  pose proof (ck_layout _ _ _ Hs) as Hlay. destruct (lay_apart _ _ Hlay i j b b' Hi Hj Hu Hu' Hne) as (_ & Hap & _).
  destruct (lay_ok _ _ Hlay i b Hi Hu) as [_ Hc _ Hl _ _]. destruct (lay_ok _ _ Hlay j b' Hj Hu') as [_ Hc' _ Hl' _ _].
  unfold apart, Paging.PAGE_SIZE in *. lia.
Qed.

(** The other batches keep their pages when batch [i] is withdrawn. *)
Definition others_shown c i c' : Prop :=
  ∀ j bj x n, j ≠ i → batches c !! j = Some bj → used bj → matches x bj → 0 <= n < page_count bj →
    page_shown (slpt c) x n → page_shown (slpt c') x n.

Lemma coupled_quarantined c l i b c' :
  good c → coupled c l → batches c !! i = Some b → used b → others_shown c i c' →
  batches c' = <[i := with_phase BatchPhase.Quarantined b]> (batches c) → coupled c' l.
Proof.
  intros Hg Hcp Hi Hu Hpg Hbs. eapply (coupled_replace c c' i b); [done..| |done|done| |done].
  - intros _ Hwa. by apply (cp_active _ _ Hcp i b).
  - intros x Hx. destruct (cp_live _ _ Hcp x Hx) as (j & bj & Hj & Huj & Hwa & Hm & _).
    destruct (decide (i = j)) as [<-|Hne]; [simplify_eq; left; by split_and!|right].
    split; [done|]. intros (_ & _ & Hd & _). destruct Hm as (Hd' & _). apply Hne. eapply (same_device c i j); [done..|congruence].
Qed.

Lemma coupled_retired c l i b c' :
  good c → coupled c l → batches c !! i = Some b → used b → others_shown c i c' →
  batches c' = <[i := retired_slot b]> (batches c) →
  coupled c' (if was_active b then List.filter (λ x, negb (ObservedBackend.placed_at (device_address b) (length b) x)) l else l).
Proof.
  intros Hg Hcp Hi Hu Hpg Hbs. destruct (was_active b) eqn:Hwa;
    (eapply (coupled_replace c c' i b); [done..|by intros ?%retired_unused|by intros ?%retired_unused| | |done]).
  - intros j bj x Hne Hj Huj Hx (Hd & _). apply list_elem_of_In, filter_In. split; [by apply list_elem_of_In|].
    apply negb_true_iff, not_true_iff_false. intros [Hd' _]%placed_spec. apply Hne. eapply (same_device c j i); [done..|congruence].
  - intros x [Hx Hnp]%list_elem_of_In%filter_In. right. split; [by apply list_elem_of_In|]. intros (_ & _ & Hd & _ & Hl).
    apply negb_true_iff, not_true_iff_false in Hnp. by apply Hnp, placed_spec.
  - done.
  - intros x Hx. right. split; [done|]. intros (_ & Hwa' & _). congruence.
Qed.

Lemma tied_unmap c l dev size i b (res : result bool unit) c' :
  good c → coupled c l → batches c !! i = Some b → names_span c dev size b = true → kept c (covers b) (slpt c') →
  batches c' = <[i := match res with Ok true => retired_slot b | _ => with_phase BatchPhase.Quarantined b end]> (batches c) →
  let status := match res with Ok true => if was_active b then STATUS_OK else STATUS_NOT_FOUND | _ => STATUS_IO_ERROR end in
  coupled c' (if status =? STATUS_OK then List.filter (λ x, negb (ObservedBackend.placed_at dev size x)) l else l).
Proof.
  intros Hg Hcp Hi Hn Hk Hbs. cbv zeta. unfold names_span, is_phase in Hn. bool_to_prop.
  match goal with H : bool_decide _ = false |- _ => apply bool_decide_eq_false in H as Hu end. subst dev size.
  assert (others_shown c i c') as Hpg.
  { intros j bj x n Hne Hj Huj Hm Hnn. by apply (page_survives c _ i j b bj). }
  destruct res as [[]|e]; [|by eapply coupled_quarantined..].
  pose proof (coupled_retired c l i b c' Hg Hcp Hi Hu Hpg Hbs) as Hr. by destruct (was_active b).
Qed.

#[export] Instance tied_invariant : IommuOps.BackendInvariant tied.
Proof.
  split.
  - intros o h dev phys size access (c & Hin & Hg & Hcp) Hsz Hd Hd' Hp Hp' _. pose proof Hg as [Hc Hset]. simpl. rewrite Hin.
    assert (u64 dev ∧ u64 phys) as [? ?] by (unfold in_width; lia).
    destruct (locked_wp STATUS_IO_ERROR _ c _ (map_span_ok PAGES BATCHES MAX_BATCH_PAGES c h dev phys size access
      (λ _ _, False) Hc Hset ltac:(done) ltac:(done) ltac:(lia))) as (status & c' & -> & Hpost).
    exists c'. split; [done|]. simpl. apply (tied_map c); [done..|].
    destruct Hpost as [(-> & _ & ?)|(i & ps & b0 & _ & Hi & Hsg & Hss)]; [by left|right]. by exists i, ps, b0.
  - intros o h dev size (c & Hin & Hg & Hcp) _. pose proof Hg as [Hc Hset]. simpl. rewrite Hin.
    destruct (locked_wp STATUS_IO_ERROR _ c _ (unmap_span_ok PAGES BATCHES c h dev size
      (λ _ _, False) Hc Hset)) as (status & c' & -> & Hpost). exists c'. split; [done|]. simpl.
    destruct Hpost as [(_ & -> & ->)|(i & b & res & _ & Hi & Hn & Hc' & Hset' & _ & Hk & Hbs & ->)]; [done|].
    split; [by split|]. by apply (tied_unmap c _ dev size i b res).
  - intros o h (c & Hin & Hg & Hcp) Hnil. pose proof Hg as [Hc Hset]. simpl. rewrite Hin.
    destruct (locked_wp STATUS_IO_ERROR _ c _ (backend_release_ok PAGES BATCHES c h (λ _ _, False) Hc Hset)) as (status & c' & -> & Hpost).
    exists c'. split; [done|]. simpl. rewrite Hnil in *.
    destruct Hpost as [(_ & _ & ->)|[(_ & _ & Hc' & Hset' & _ & _ & _ & _ & Hsub)|(_ & _ & [Hc' Hidle _ _ _ _ _] & _)]]; [done| |].
    + split; [by split|]. assert (∀ j b, batches c !! j = Some b → used b → was_active b = false) as Hnone.
      { intros j b Hj Hu. destruct (was_active b) eqn:Hwa; [|done].
        destruct (cp_active _ _ Hcp j b Hj Hu Hwa) as (x & Hx & _). inversion Hx. }
      split; [| |by intros x Hx; inversion Hx].
      * intros j b Hj Hu Hwa. destruct (Hsub j b Hj Hu) as (b0 & Hj0 & Hu0 & Hb).
        assert (was_active b = was_active b0) as Hsame by (by destruct Hb as [-> | ->]).
        by rewrite Hsame, (Hnone j b0 Hj0 Hu0) in Hwa.
      * intros j b Hj Hu _. destruct (Hsub j b Hj Hu) as (b0 & Hj0 & Hu0 & Hb).
        pose proof (cp_failed _ _ Hcp j b0 Hj0 Hu0 (Hnone j b0 Hj0 Hu0)). by destruct Hb as [-> | ->].
    + split; [|by apply coupled_idle]. split; [done|]. intros j b Hj Hu. by destruct (Hidle j b Hj).
Qed.

(** ** Histories of the stack *)

#[local] Abbreviation world := (@IommuDomain.world (ObservedBackend.t (option core))).
Implicit Types (w : world).

(** Calls of the domain, and what happens below it between calls. *)
Inductive stack_step w : world → Prop :=
| stack_done k a w' : k ≠ IommuRuns.Release → IommuRuns.call_ok k → IommuRuns.run k w = Done a w' → stack_step w w'
| stack_fail k e w' : IommuRuns.call_ok k → IommuRuns.run k w = Fail e w' → stack_step w w'
| stack_drift c c' : ObservedBackend.inner (IommuDomain.backend w) = Some c → drift c c' →
    let o := IommuDomain.backend w in
    stack_step w (IommuDomain.World (IommuDomain.domain w)
      (ObservedBackend.mk (Some c') (ObservedBackend.live o) (ObservedBackend.misused o) (ObservedBackend.releases o))).

(** A domain just isolated on a backend just built. *)
Definition stack_start (device : PciAddress.t) (aperture : IovaRange.t) (reserved : list IovaRange.t) w : Prop :=
  IovaFacts.range_ok aperture ∧ Forall IovaFacts.range_ok reserved ∧
  ∃ scratch c0, launched PAGES BATCHES MAX_BATCH_PAGES c0 ∧
    IommuDomain.isolate device aperture reserved scratch (ObservedBackend.mk (Some c0) [] false 0) =
      Done (IommuDomain.domain w) (IommuDomain.backend w).

#[local] Abbreviation inv := (IommuOps.inv tied).

Lemma isolated_tied device ap rs scratch c0 d o :
  launched PAGES BATCHES MAX_BATCH_PAGES c0 →
  IommuDomain.isolate device ap rs scratch (ObservedBackend.mk (Some c0) [] false 0) = Done d o → tied o.
Proof.
  intros Hl Heq. destruct (launched_built _ _ _ c0 Hl) as [sc [Hc Hset Hidle _ _ _ _]].
  unfold IommuDomain.isolate, mbind, M_bind in Heq. destruct (IovaLedger.new _ _ _ _ _) as [[] l|e l|]; [|done|done].
  unfold get in Heq. simpl in Heq.
  assert (wp (attempt (isolate device)) (λ _ c', good c' ∧ idle c') (λ (_ : Empty_set) _, False) c0) as Hwp.
  { rewrite wp_attempt. eapply wp_mono; [by apply (isolate_ok PAGES BATCHES)| |by intros e c' ->].
    intros h c' (_ & _ & _ & _ & _ & _ & -> & Hc' & Hset'). by split; [split|]. }
  unfold wp in Hwp. destruct (attempt (isolate device) c0) as [answer c'|[]|]; [|done]. destruct Hwp as [Hg Hi].
  destruct answer as [h|e]; [|done]. simpl in Heq. destruct (h =? 0); [done|].
  injection Heq as _ <-. exists c'. split; [done|]. split; [done|]. by apply coupled_idle.
Qed.

Lemma start_inv device ap rs w : stack_start device ap rs w → inv w.
Proof.
  intros (Hap & Hrs & scratch & c0 & Hl & Heq).
  refine (proj1 (IommuRuns.fresh_inv device ap rs w _ (isolated_tied _ _ _ _ _ _ _ Hl Heq))).
  split; [done|]. split; [done|]. by exists scratch, (Some c0).
Qed.

Lemma drift_coupled c c' l : drift c c' → coupled c l → coupled c' l.
Proof. intros Hd. apply coupled_same; by destruct Hd. Qed.

Lemma stack_step_inv w w' : stack_step w w' → inv w → inv w'.
Proof.
  intros [k a w1 _ Hk Hrun|k e w1 Hk Hrun|c c' Hin Hd] Hinv.
  - exact (proj1 (wp_Done _ _ _ _ _ _ (IommuRuns.dma_run_ok k w Hinv Hk) Hrun)).
  - exact (proj1 (wp_Fail _ _ _ _ _ _ (IommuRuns.dma_run_ok k w Hinv Hk) Hrun)).
  - destruct Hinv as [Hdom Hlive Hprop (x & Hx & Hg & Hcp)]. rewrite Hin in Hx. injection Hx as <-.
    split; simpl; [done..|]. exists c'. split; [done|]. split; [by eapply drift_good|by eapply drift_coupled].
Qed.

Lemma stack_inv device ap rs w0 w : stack_start device ap rs w0 → rtc stack_step w0 w → inv w.
Proof.
  intros Hs%start_inv Hr. revert Hs. apply (rtc_invariant stack_step inv); [|done].
  intros x y Hxy Hx. by eapply stack_step_inv.
Qed.

(** ** What the listed translations mean *)

(** A handle that shows [x]. *)
Definition shown w x : Prop :=
  ∃ h, 0 <= DmaMappingHandle.slot h ∧ IommuDomain.mapping_info (E:=Z) h w = Done (Some x) w.
(** Page [n] of the listed translation. *)
Definition info_page x (n v pa : Z) : Prop :=
  0 <= n < DmaMappingInfo.length x / Paging.PAGE_SIZE ∧ v = DmaMappingInfo.device_address x + Paging.PAGE_SIZE * n ∧
  pa = DmaMappingInfo.physical_address x + Paging.PAGE_SIZE * n.

Lemma live_shown w x : inv w → x ∈ ObservedBackend.live (IommuDomain.backend w) ↔ shown w x.
Proof.
  intros Hinv. rewrite (IommuOps.i_live _ Hinv). split.
  - intros (i & r & Hi & Hx). exists (DmaMappingHandle.mk (Z.of_nat i) (DmaMapping.generation r)). simpl.
    split; [lia|]. apply (IommuRuns.info_iff (K := tied)); [done|simpl; lia|]. by exists i, r.
  - intros (h & Hh & (i & r & Hi & Hx & _)%(IommuRuns.info_iff (K := tied))); [|done..]. by exists i, r.
Qed.

Lemma matched_page c j b x n v pa :
  good c → batches c !! j = Some b → used b → matches x b → page_of b n v pa ↔ info_page x n v pa.
Proof.
  intros [[Hs _] _] Hj Hu (Hd & Hp & Hl). unfold page_of, info_page.
  pose proof (b_length _ _ (lay_ok _ _ (ck_layout _ _ _ Hs) j b Hj Hu)) as Hlen.
  rewrite <-Hd, <-Hp, <-Hl, Hlen, Z.div_mul by done. done.
Qed.
End stack.
End IommuStack.
