(* ===== verification/IommuStackProperties.v ===== *)
(** * What the IOMMU stack guarantees

    End-to-end theorems: from the handles of an [IommuDomain] through
    [VtdDmaBackend], the page-table core and the remapping engine to what the
    device reaches; and a machine on which they apply. *)
From S2P Require Import Prelude Paging Acpi Slpt SlptTree SlptLedger SlptPath SlptOps SlptRuns SlptCalls.
From S2P Require Import VtdMemory VtdTables SlptProperties VtdProperties VtdEngine VtdEngineFacts.
From S2P Require Import VtdEngineProperties VtdScope Iova XhciDma Iommu IommuFacts IommuOps IommuProperties.
From S2P Require Import VtdBackend VtdBackendFacts VtdBackendOps VtdBackendSpans VtdBackendDomain.
From S2P Require Import VtdBackendRuns VtdBackendProperties IommuStack.

(** The backend's answer to a release that the domain reports as done. *)
Lemma release_answer {B} `{DmaRemappingBackend B} (w w' : @IommuDomain.world B) :
  IommuDomain.release w = Done () w' →
  release_domain (IommuDomain.handle (IommuDomain.domain w)) (IommuDomain.backend w) = (STATUS_OK, IommuDomain.backend w').
Proof.
  unfold IommuDomain.release, mbind, M_bind, IommuDomain.self, gets, IommuDomain.on_backend.
  destruct (IommuDomain.poisoned _); [done|]. destruct (negb (IommuDomain.mapping_count _ =? 0)); [done|].
  destruct (negb (IovaLedger.active_count _ =? 0)); [done|].
  destruct (release_domain _ _) as [status b]. destruct (Z.eqb_spec status STATUS_OK) as [->|]; [|done].
  intros Hset. by injection Hset as <-.
Qed.

Lemma observed_release {B} `{DmaRemappingBackend B} h (o o' : ObservedBackend.t B) status :
  release_domain h o = (status, o') → release_domain h (ObservedBackend.inner o) = (status, ObservedBackend.inner o').
Proof. simpl. destruct (release_domain h (ObservedBackend.inner o)) as [s b]. by intros [= -> <-]. Qed.

Module IommuStackClaims.
Import BatchSlot VtdDmaBackend VtdBackendRuns IommuStack.

Section claims.
Context {R Mem : Type} {HB : VtdRegisterBackend R} {HU : VtdUnitLaws R}
  {HM : SlptPageMemory Mem} {HML : SlptMemoryLaws Mem}.
Context (PAGES BATCHES MAX_BATCH_PAGES : Z).
#[local] Abbreviation core := (VtdDmaBackend.core (R := R) (Mem := Mem)).
#[local] Abbreviation world := (@IommuDomain.world (ObservedBackend.t (option core))).
#[local] Abbreviation good := (VtdBackendRuns.good PAGES BATCHES).
#[local] Abbreviation stack_start := (stack_start PAGES BATCHES MAX_BATCH_PAGES).
#[local] Abbreviation stack_step := (stack_step PAGES BATCHES MAX_BATCH_PAGES).
#[local] Instance stack_backend : DmaRemappingBackend (option core) := vtd PAGES BATCHES MAX_BATCH_PAGES.
#[local] Abbreviation below w := (ObservedBackend.inner (IommuDomain.backend w)).
Implicit Types (c : core) (w : world).

(** The listed translation behind a batch that was active. *)
Lemma active_listed c l j b :
  coupled c l → batches c !! j = Some b → used b →
  phase b = BatchPhase.Quarantined ∧ was_active b = false ∨ ∃ x, x ∈ l ∧ matches x b.
Proof.
  intros Hcp Hj Hu. destruct (was_active b) eqn:Hwa; [right; by apply (cp_active _ _ Hcp j b)|left].
  split; [by apply (cp_failed _ _ Hcp j b)|done].
Qed.

(** C2: Over the VT-d backend, whatever the device reaches in any history of an
    isolated domain is a page of a translation that some handle of the domain
    shows, at the physical page the handle shows; the only exception are pages
    that a failed map call could not withdraw, and their batch stays quarantined. *)
Theorem dma_stack_confined device ap rs w0 w :
  stack_start device ap rs w0 → rtc stack_step w0 w →
  ∃ c, below w = Some c ∧
    ∀ v e, reaches (pages c) v e →
      (∃ x n, shown w x ∧ info_page x n v (Z.land e PHYSICAL_PAGE_MASK)) ∨
      ∃ j b n, batches c !! j = Some b ∧ phase b = BatchPhase.Quarantined ∧ was_active b = false ∧
               page_of b n v (Z.land e PHYSICAL_PAGE_MASK).
Proof.
  intros Hs Hr. pose proof (stack_inv _ _ _ _ _ _ _ _ Hs Hr) as Hinv.
  destruct (IommuOps.i_backend _ Hinv) as (c & Hin & Hg & Hcp). exists c. split; [done|]. intros v e Hre.
  destruct (reach_page _ _ c v e Hg Hre) as (j & b & n & Hj & Hu & Hpg).
  destruct (active_listed _ _ j b Hcp Hj Hu) as [[Hq Hwa]|(x & Hx & Hm)]; [right; by exists j, b, n|left].
  exists x, n. split; [by eapply live_shown|]. by eapply matched_page.
Qed.

(** In a state without quarantine every batch is active and backs what it lists. *)
Lemma calm_page c l j b x n :
  good c → coupled c l → (∀ j b, batches c !! j = Some b → phase b ≠ BatchPhase.Quarantined) →
  batches c !! j = Some b → used b → x ∈ l → matches x b → 0 <= n < page_count b → page_shown (slpt c) x n.
Proof.
  intros Hg Hcp Hcalm Hj Hu Hx Hm Hn. destruct (cp_live _ _ Hcp x Hx) as (j' & b' & Hj' & Hu' & _ & Hm' & Hpg).
  assert (j = j') as <-.
  { destruct Hm as (Hd & _), Hm' as (Hd' & _). eapply (same_device PAGES BATCHES c); [done..|congruence]. }
  simplify_eq. apply Hpg; [|done]. destruct (proj2 Hg j b Hj Hu) as [Hq|[? _]]; [by destruct (Hcalm j b Hj)|done].
Qed.

Lemma record_unique c i r v e :
  good c → holds (slpt c) i r → MappingRecord.iova r = v → maps (slpt c) v e → MappingRecord.leaf r = e.
Proof.
  intros [[Hs _] _] Hr Hv (j & x & Hx & _ & Hxv & <-). destruct (ck_pages _ _ _ Hs) as (n & leaves & [_ _ _ Hl] & _).
  assert (i = j) as <- by (eapply (lg_iova _ _ _ Hl); [done..|congruence]). by rewrite (holds_unique _ _ _ _ Hr Hx).
Qed.

(** C1: In every state of such a history in which no batch is quarantined, the
    device reaches exactly the pages of the translations that the handles of the
    domain show: with the shown physical pages, and with exactly the access that
    was granted. *)
Theorem dma_stack_exact device ap rs w0 w c :
  stack_start device ap rs w0 → rtc stack_step w0 w → below w = Some c →
  (∀ j b, batches c !! j = Some b → phase b ≠ BatchPhase.Quarantined) →
  ∀ v e, reaches (pages c) v e ↔
    ∃ x n pa bits, shown w x ∧ info_page x n v pa ∧
      DmaPermissions.bits (permissions_of (DmaMappingInfo.access x)) = Ok bits ∧ e = Z.lor pa bits.
Proof.
  intros Hs Hr Hc Hcalm v e. pose proof (stack_inv _ _ _ _ _ _ _ _ Hs Hr) as Hinv.
  destruct (IommuOps.i_backend _ Hinv) as (c' & Hin & Hg & Hcp). rewrite Hc in Hin. injection Hin as <-. split.
  - intros Hre. destruct (reach_page _ _ c v e Hg Hre) as (j & b & n & Hj & Hu & Hpg).
    destruct (active_listed _ _ j b Hcp Hj Hu) as [[Hq _]|(x & Hx & Hm)]; [by destruct (Hcalm j b Hj)|].
    destruct (calm_page c _ j b x n Hg Hcp Hcalm Hj Hu Hx Hm (proj1 Hpg)) as (bits & Hb & Hmaps).
    destruct (reaches_record _ v e (ck_pages _ _ _ (proj1 (proj1 Hg))) Hre) as (i & r & Hri & Hrv & Hre' & _).
    apply (matched_page _ _ c j b x n _ _ Hg Hj Hu Hm) in Hpg as Hpi. destruct Hpi as (Hn & Hv & Hpa).
    exists x, n, (DmaMappingInfo.physical_address x + Paging.PAGE_SIZE * n), bits.
    split; [by eapply live_shown|]. split; [by split|]. split; [done|].
    rewrite <-Hre'. rewrite <-Hv in Hmaps. by eapply (record_unique c i r v).
  - intros (x & n & pa & bits & Hx & Hpi & Hb & ->). right.
    apply (live_shown _ _ w x Hinv) in Hx. destruct (cp_live _ _ Hcp x Hx) as (j & b & Hj & Hu & _ & Hm & _).
    apply (matched_page _ _ c j b x n _ _ Hg Hj Hu Hm) in Hpi as Hpg. destruct Hpi as (_ & -> & ->).
    destruct (calm_page c _ j b x n Hg Hcp Hcalm Hj Hu Hx Hm (proj1 Hpg)) as (bits' & Hb' & Hmaps).
    rewrite Hb in Hb'. injection Hb' as <-. by apply (translates_maps PAGES BATCHES).
Qed.

(** C14: When the release of such a domain reports success, its backend has given
    up the unit: the unit has confirmed that translation is off, and the engine
    owns no root table.  Then and in every later state of the backend the engine
    is disabled, neither tables nor caches hold a translation, root and context
    table are empty, and every call is refused without effect, so nothing turns
    translation on again.  A unit that is off does not confine its device: what
    keeps the device from memory after a release is not this component. *)
Theorem dma_stack_released device ap rs w0 w w' :
  stack_start device ap rs w0 → rtc stack_step w0 w → IommuDomain.release w = Done () w' →
  ∃ c, below w' = Some c ∧
    ¬ translating (VtdRemappingEngine.registers (engine c)) ∧ VtdRemappingEngine.owned_root (engine c) = None ∧
    ∀ c', rtc (VtdBackendRuns.step PAGES BATCHES MAX_BATCH_PAGES) c c' →
      VtdRemappingEngine.state (engine c') = VtdEngineState.Disabled ∧ (∀ v e, ¬ reaches (pages c') v e) ∧
      root_table (tables c') = replicate 256 EMPTY_ENTRY ∧ context_table (tables c') = replicate 256 EMPTY_ENTRY ∧
      ∀ k, call_ok k → ∃ status, status ≠ STATUS_OK ∧ VtdBackendRuns.run PAGES BATCHES MAX_BATCH_PAGES k c' = Done (inr status) c'.
Proof.
  intros Hs Hr Hrel. pose proof (stack_inv _ _ _ _ _ _ _ _ Hs Hr) as Hinv.
  destruct (IommuOps.i_backend _ Hinv) as (c & Hin & [Hc Hset] & _). apply release_answer, observed_release in Hrel.
  rewrite Hin in Hrel. set (h := IommuDomain.handle _) in Hrel.
  destruct (locked_wp STATUS_IO_ERROR _ c _ (backend_release_ok PAGES BATCHES c h (λ _ _, False) Hc Hset)) as (status & c' & Heq & Hpost).
  assert ((status, Some c') = (STATUS_OK, below w')) as Hans by (rewrite <-Heq; exact Hrel).
  injection Hans as -> Hback. exists c'. split; [done|].
  destruct Hpost as [(? & _)|[(? & _)|(_ & _ & [Hc' Hidle Hre _ Hen _ Hroot Hoff Ht] & _)]]; [done..|].
  split; [exact Hoff|]. split; [exact Hroot|]. intros c'' Hr'.
  assert (good c') as Hg' by (split; [done|]; intros i b Hi Hu; by destruct (Hidle i b Hi)).
  destruct (ended_forever _ _ _ c' c'' Hg' (conj Hre Hidle) Hr') as (Hg2 & He2 & Ht2 & Hst2). rewrite Ht2, Hst2.
  split; [exact Hen|]. split; [intros v e; eapply idle_unreached; [done|apply He2]|]. split; [apply Ht|]. split; [apply Ht|].
  intros k Hk. by apply (ended_refuses PAGES BATCHES).
Qed.
End claims.
End IommuStackClaims.

(** ** A machine on which they apply *)

Module IommuStackMachine.
Import VtdBackendRuns VtdBackendMachine IommuStack IommuClaims IommuStackClaims.

#[local] Instance machine_backend : DmaRemappingBackend (option mcore) := vtd 4 2 2.
Abbreviation mworld := (@IommuDomain.world (ObservedBackend.t (option mcore))).

Definition isolated0 : outcome (ObservedBackend.t (option mcore)) Z IommuDomain.t :=
  IommuDomain.isolate requester0 aperture0 reserved0 scratch0 (ObservedBackend.mk (Some (launch 99)) [] false 0).
Definition world0 : mworld :=
  match isolated0 return mworld with
  | Done d b => IommuDomain.World d b
  | _ => IommuDomain.World (IommuDomain.mk 0 requester0 false false scratch0 [] 0) (ObservedBackend.mk None [] false 0)
  end.
Lemma world0_start : stack_start 4 2 2 requester0 aperture0 reserved0 world0.
Proof.
  destruct (start_isolated 0) as (Hap & Hrs & _). split; [exact Hap|]. split; [exact Hrs|].
  exists scratch0, (launch 99). split; [exact launched0|].
  change (isolated0 = Done (IommuDomain.domain world0) (IommuDomain.backend world0)).
  assert (is_done isolated0 = true) as Hd by (vm_compute; reflexivity). unfold world0.
  destruct isolated0 as [d b|e b|]; [reflexivity|discriminate Hd..].
Qed.

(** One page mapped. *)
Definition one : IommuRuns.call := IommuRuns.MapDmaAligned 0x4000 0x1000 1 DmaAccess.READ_WRITE.
Definition world1 : mworld := match IommuRuns.run one world0 return mworld with Done _ w => w | _ => world0 end.
Lemma world1_reached : rtc (stack_step 4 2 2) world0 world1.
Proof.
  unfold world1. destruct (IommuRuns.run one world0) as [a w|e w|] eqn:Heq; [|apply rtc_refl|apply rtc_refl].
  apply rtc_once. apply (stack_done 4 2 2 world0 one a w); [discriminate|exact page_widths|exact Heq].
Qed.
Definition core1 : mcore :=
  match ObservedBackend.inner (IommuDomain.backend world1) return mcore with Some c => c | None => launch 99 end.
Lemma core1_below : ObservedBackend.inner (IommuDomain.backend world1) = Some core1.
Proof.
  assert (match ObservedBackend.inner (IommuDomain.backend world1) with Some _ => true | None => false end = true) as Hd
    by (vm_compute; reflexivity).
  unfold core1. destruct (ObservedBackend.inner (IommuDomain.backend world1)); [reflexivity|discriminate Hd].
Qed.
Lemma core1_calm j b : VtdDmaBackend.batches core1 !! j = Some b → BatchSlot.phase b ≠ BatchPhase.Quarantined.
Proof.
  intros Hj Hq. assert (forallb (λ x, negb (bool_decide (BatchSlot.phase x = BatchPhase.Quarantined)))
    (VtdDmaBackend.batches core1) = true) as Hall by (vm_compute; reflexivity).
  rewrite List.forallb_forall in Hall. specialize (Hall b). rewrite bool_decide_true in Hall by exact Hq.
  assert (false = true) as Hno; [|discriminate Hno]. exact (Hall (proj1 (list_elem_of_In _ _) (list_elem_of_lookup_2 _ _ _ Hj))).
Qed.
Lemma core1_reaches : reaches (VtdDmaBackend.pages core1) 0x2000 0x4003.
Proof. right. split; [|vm_compute; reflexivity]. split; [split; [discriminate|reflexivity]|vm_compute; reflexivity]. Qed.

Lemma dma_stack_confined_witness :
  ∃ c, ObservedBackend.inner (IommuDomain.backend world1) = Some c ∧
    ∀ v e, reaches (VtdDmaBackend.pages c) v e →
      (∃ x n, shown world1 x ∧ info_page x n v (Z.land e PHYSICAL_PAGE_MASK)) ∨
      ∃ j b n, VtdDmaBackend.batches c !! j = Some b ∧ BatchSlot.phase b = BatchPhase.Quarantined ∧
               BatchSlot.was_active b = false ∧ page_of b n v (Z.land e PHYSICAL_PAGE_MASK).
Proof. exact (dma_stack_confined 4 2 2 requester0 aperture0 reserved0 world0 world1 world0_start world1_reached). Defined.

Lemma dma_stack_exact_witness :
  reaches (VtdDmaBackend.pages core1) 0x2000 0x4003 ∧
  ∃ x n pa bits, shown world1 x ∧ info_page x n 0x2000 pa ∧
    DmaPermissions.bits (permissions_of (DmaMappingInfo.access x)) = Ok bits ∧ 0x4003 = Z.lor pa bits.
Proof.
  split; [exact core1_reaches|].
  apply (dma_stack_exact 4 2 2 requester0 aperture0 reserved0 world0 world1 core1 world0_start world1_reached
    core1_below core1_calm). exact core1_reaches.
Defined.

Lemma dma_stack_released_witness :
  ∃ w', IommuDomain.release world0 = Done () w' ∧ ∃ c, ObservedBackend.inner (IommuDomain.backend w') = Some c ∧
    ¬ translating (VtdRemappingEngine.registers (VtdDmaBackend.engine c)) ∧
    VtdRemappingEngine.state (VtdDmaBackend.engine c) = VtdEngineState.Disabled ∧
    ∀ v e, ¬ reaches (VtdDmaBackend.pages c) v e.
Proof.
  destruct (value_done (IommuDomain.release world0) ()) as [w' Hrun]; [vm_compute; reflexivity|].
  exists w'. split; [exact Hrun|].
  destruct (dma_stack_released 4 2 2 requester0 aperture0 reserved0 world0 world0 w' world0_start (rtc_refl _ _) Hrun)
    as (c & Hc & Hoff & _ & Hall). destruct (Hall c (rtc_refl _ _)) as (Hst & Hno & _).
  exists c. split; [exact Hc|]. split; [exact Hoff|]. split; [exact Hst|exact Hno].
Defined.
End IommuStackMachine.
